(* ===== verification/_CoqProject ===== *)
-Q . S2P
Prelude.v
Slab.v
ArenaTree.v
RedBlack.v
Rbtree.v
RbtreeBase.v
RbtreeInsert.v
RbtreeLink.v
RbtreeRebalance.v
RbtreeOps.v
RbtreeRemove.v
RbtreeCorrect.v
RbtreeContract.v
Atq.v
AtqCorrect.v
Minheap.v
MinheapCorrect.v
Dhq.v
DhqCorrect.v
ScxTime.v
Edq.v
EdqBase.v
EdqTree.v
EdqInsert.v
EdqLink.v
EdqOps.v
EdqErase.v
EdqRemove.v
EdqDelete.v
EdqSearch.v
EdqCorrect.v
EdqSystem.v
EdqExamples.v
Ravg.v
RavgCorrect.v
Bitmap.v
BitmapCorrect.v
Lvqueue.v
LvqueueCorrect.v
Bump.v
BumpCorrect.v
Wp.v
SdtAlloc.v
SdtBase.v
SdtMem.v
SdtPool.v
SdtCarve.v
SdtTree.v
SdtMark.v
SdtNode.v
SdtFind.v
SdtObject.v
SdtCorrect.v
SdtInit.v
SdtClaims.v
SdtStore.v
SdtStoreInv.v
SdtStoreMap.v
SdtStoreClaims.v
Topology.v
TopologyBase.v
TopologyGrow.v
TopologyWalk.v
TopologyClaims.v
Buddy.v
BuddyInv.v
BuddyOps.v
BuddyAlloc.v
BuddyState.v
BuddyClaims.v
CgroupBw.v
CgroupBwRoll.v
CgroupBwThrottle.v
CgroupBwPeriod.v
CgroupBwBill.v
CgroupBwQuota.v
CgroupBwReplenish.v
CgroupBwFree.v
CgroupBwClaims.v
