(* ===== verification/Prelude.v ===== *)
(** * Verification of the scx BPF arena library

    scx is a collection of Linux schedulers written as BPF programs on top of
    the sched_ext class.  The C code the schedulers share is the library under
    [src/lib], with its headers in [src/scheds/include/lib]: data structures
    in a BPF arena (a memory region shared by all CPUs), the queues of tasks
    built on them, averages and CPU sets.  This development models that
    library function by function and proves what its callers rely on.

    ** The program and how its parts interact

    - [rbtree] is a red-black tree whose nodes it allocates or its caller
      embeds in tasks; [atq] queues tasks, by virtual time or arrival, in such
      trees of embedded nodes and lets tasks be removed, detached and destroyed
      while other CPUs use the queues.
    - [minheap] is a bounded binary heap; [dhq] pairs two of them under one
      lock and balances insertions and removals between the two "strands".
    - [edq] is the deadline queue of the EEVDF scheduler: an intrusive
      red-black tree with cached minimums, searched for the earliest deadline
      among the eligible tasks.  It orders by the wrapping time comparisons of
      [scx/common.bpf.h].
    - [lvqueue] is a work-stealing queue, [bitmap] and [cpumask] are sets of
      CPUs handed out by [cmpxchg], [ravg] are decaying averages in fixed
      point, [alloc/bump] is the allocator of memory that is never
      freed.
    - [sdt_alloc] hands out the objects: allocators of objects of one size,
      indexed by a radix tree, over slabs of arena pages.  The data structures use
      them through the interface [SlabAllocator].
    - [sdt_task] and [sdt_cgroup] keep one such object per task or cgroup, found
      through a map of the kernel.  Objects that other CPUs may still be
      reading are freed through [scx_urcu_*]: they are pushed on a list
      and freed after a grace period.
    - [topology] is the tree of the machine's nodes, caches, cores and CPUs, each with
      the bitmap of its CPUs; schedulers build it once and walk it with iterators.
    - [alloc/buddy] hands out blocks of power-of-two sizes from chunks of 1 MiB of
      the arena, splitting and joining them.
    - [cgroup_bw] enforces [cpu.max]: the time of tasks is billed to the nearest limited cgroup above them, an accounting
      timer adds it up the hierarchy and throttles, and a replenish timer gives every
      cgroup a new budget each 100 ms.  Throttled tasks wait in [atq] queues.

    ** The model

    A C function is a Rocq function in the monad [ST S A]: it takes the store
    and returns a result with the new store, or [None] for a fault, that is
    an access to memory holding no object of the type.  The store of a
    component is a record of finite maps from addresses to the structs of the
    C code, so that aliasing is represented.  Error codes are ordinary results,
    as in C.  Integers are [Z] with the truncation of every C type written out
    ([u64], [u32], [s32], [s64]).

    - Locks: what runs between lock and unlock is one transition of the store;
      an operation takes the value its lock function returns as an argument
      where it reports it.
    - Other CPUs: where the code reads, then uses [cmpxchg] or takes a lock, an
      argument [env] changes the store in between.  The theorems quantify over
      every [env] that consists of transitions of the same system.
    - [can_loop]: a loop [while (... && can_loop)] takes the remaining budget
      and stops when it is spent.  Theorems that a result is produced assume a
      budget that is proved to be enough: [budget] and its lemmas in RedBlack.v
      bound the height of a red-black tree by twice the logarithm of its
      size, so 131 iterations cover every tree below [2^64 - 1] nodes;
      [lvqueue] copies at most 511 elements.  The kernel
      grants millions of iterations.

    ** Files

    - Prelude.v: words, error codes, the monad, list lemmas.  Slab.v: the
      allocator interface and an instance.
    - ArenaTree.v, RedBlack.v: binary trees laid out in memory with parent
      pointers, seen through a focus and its context, and the red-black
      discipline on trees and contexts; shared by both red-black trees.
    - Rbtree.v models [lib/rbtree.bpf.c] ([rb_create_internal], [rb_insert],
      [rb_insert_node], [rb_remove], [rb_remove_node], [rb_find], [rb_least],
      [rb_pop], [rb_destroy]).  RbtreeBase, RbtreeInsert, RbtreeLink,
      RbtreeRebalance, RbtreeOps and RbtreeRemove carry the
      invariant [rb_ok] through the building blocks, RbtreeCorrect.v has the
      theorems and RbtreeContract.v the contract [RbQueue] that
      the task queues use, with its proof.
    - Atq.v models [lib/atq.bpf.c] over the tree; AtqCorrect.v proves its
      operations against the contract, the invariant of all interleavings, and
      detach and fini under interference.
    - Minheap.v, Dhq.v model [lib/minheap.bpf.c] and [lib/dhq.bpf.c]; their
      theorems are in MinheapCorrect.v and DhqCorrect.v.
    - ScxTime.v models the time helpers of [scx/common.bpf.h]: an order inside a
      window of [2^63].
    - Edq.v models [lib/edq.bpf.c] and [include/lib/edq.h].  EdqBase, EdqTree,
      EdqInsert, EdqLink, EdqOps (insertion), EdqErase, EdqRemove,
      EdqDelete (removal) and EdqSearch (searches) carry the invariant
      [edq_ok]; EdqCorrect.v has the theorems on single operations,
      EdqSystem.v those on systems of queues, EdqExamples.v a concrete queue.
    - Ravg.v, RavgCorrect.v: [lib/ravg.bpf.c], [lib/ravg_impl.bpf.h] and
      [include/lib/ravg.h].
    - Bitmap.v, BitmapCorrect.v: [lib/bitmap.bpf.c] and [lib/cpumask.bpf.c].
    - Lvqueue.v, LvqueueCorrect.v: [lib/lvqueue.bpf.c].
    - Bump.v, BumpCorrect.v: [lib/alloc/bump.bpf.c].
    - SdtAlloc.v models the object allocator of [lib/sdt_alloc.bpf.c]
      ([scx_alloc_init], [scx_alloc_internal], [scx_alloc_free_idx] and what they call) and
      [scx_free] of [include/lib/sdt_alloc.h] on the words of the arena.  Wp.v has the rules by which
      its proofs walk through the code.  SdtBase.v names the owner of every region of the
      arena and states the invariant [inv] and the interference [env_ok];
      SdtMem (memory), SdtPool (page stack), SdtCarve (slabs), SdtTree, SdtMark,
      SdtNode, SdtFind (radix tree), SdtObject (objects) and SdtCorrect (the
      operations), SdtInit (initialization) carry it; SdtClaims.v has the theorems.
    - SdtStore.v models [lib/sdt_task.bpf.c], [lib/sdt_cgroup.bpf.c] and the
      deferred free ([scx_urcu_*] of [lib/sdt_alloc.bpf.c]) on top of it.  SdtStoreInv
      and SdtStoreMap carry its invariant [store_inv] through the lists and the maps;
      SdtStoreClaims.v has the theorems.
    - Topology.v models [lib/topology.bpf.c] and the iterators of [include/lib/topology.h] on a
      store of nodes with the bitmaps of Bitmap.v.  TopologyBase has the invariant
      [topo_ok], which TopologyBase and TopologyGrow keep through construction,
      TopologyWalk has the searches and the iteration; TopologyClaims.v has
      the theorems.
    - Buddy.v models [lib/alloc/buddy.bpf.c]: functions on one chunk ([idx_*],
      [header_*], [buddy_chunk_alloc], and [chunk_free], which is [buddy_free_unlocked] after the
      address was split), and the allocator over its chunks.  BuddyInv (bytes and sizes,
      partitions into aligned blocks, with a hole while a block is freed),
      BuddyOps (free lists), BuddyAlloc and BuddyState carry a chunk through
      allocation, freeing and set-up; BuddyState has the invariant [buddy_ok] and
      shows that a partition is determined by its taken blocks; BuddyClaims.v has the theorems.
    - CgroupBw.v models the billing, the quotas and both timers of [lib/cgroup_bw.bpf.c]
      ([scx_cgroup_bw_consume], [scx_cgroup_bw_throttled], [cbw_set_bandwidth], [cbw_repoint_subtree], [accounting_timerfn],
      [replenish_timerfn] and what they call; [move_billing] is the accounting part of [scx_cgroup_bw_move], [bw_set_managed] is [scx_cgroup_bw_set] for a cgroup with a
      context), CgroupBwFree.v its lists of free contexts.  CgroupBwRoll (usage of subtrees), CgroupBwThrottle (throttling, and the whole accounting
      timer), CgroupBwPeriod (budgets over periods), CgroupBwBill (billing), CgroupBwQuota (bounds and effective
      parents) and CgroupBwReplenish (the replenish timer) turn each walk into an update of the state; CgroupBwClaims.v has the theorems.

    ** What is proved

    - Trees and heaps: every operation on a structure that satisfies its
      invariant returns the prescribed code, changes the abstract contents
      (the sorted list of entries, the multiset of the heap) as prescribed,
      restores the invariant (order, red-black discipline, parent pointers,
      cached minimums, sizes), and changes no other object.
    - Queues: insertion, removal and pops refine operations on ordered lists of
      tasks, on every error path; a task is a member of at most one queue; along
      every interleaving all queues keep their invariants and a dead task is
      never queued again; detaching terminates under interference and succeeds
      once a single iteration is undisturbed.
    - Numbers: the running average equals its definition in unbounded integers
      and stays within the largest value for every history that leaves room for
      rounding; the time comparisons are an order within a window.
    - CPU sets: the operations are the set operations even on aliased
      arguments; CPUs are handed out atomically.
    - The work-stealing queue refines a double-ended sequence.
    - The bump allocator hands out aligned, pairwise disjoint memory inside its
      blocks, also while other CPUs allocate.
    - The object allocator: with any interference of other threads between its
      critical sections an allocation accesses mapped memory only, keeps the
      invariant of the arena and returns nothing or a blank object that is apart
      from all objects in use; the page stack is never exhausted under the lock; the least free index is taken;
      freeing clears the object and counts its generation up; refusals have no effect.
    - Storage of tasks and cgroups: an object given up is put in front of a deferred list exactly
      once and no longer in the map; reclaiming gives back exactly the objects of the list whose
      grace period has passed; a published object is found by the next lookup,
      racing allocations for a cgroup agree on one object; repeated frees have no effect.
    - The topology: construction keeps a tree of nested, disjoint CPU sets and says on every branch what
      it did; every search and iteration returns the nodes that the sets prescribe.
    - The buddy allocator: blocks are aligned, large enough and disjoint, the smallest block that fits is split, freeing
      joins buddies as far as possible, and allocating and freeing restores every chunk.  The
      test for an exhausted chunk never holds: a null header is read (its words are the argument [null]), the next chunk is still
      found, but the exhausted one may hand out its own metadata afterwards.
    - The bandwidth control: the timers compute what the hierarchy prescribes, namely the time of every subtree, who is
      throttled, the new budgets and the list for the bottom half; a cgroup gets no more than its quota and bursts in the long run; bounds and
      effective parents stay right under new limits and new contexts; time is billed
      exactly once, to the nearest limited cgroup, also when the task moves; an unlimited cgroup that had a limit still throttles those below it (an example).  The kernel's hierarchy is a finite tree, and a run of a timer sees it
      unchanged; its height is below [tree_height_max], and [can_loop] grants as many rounds as there are cgroups.

    ** Not modelled

    Output functions ([*_print], [scx_minheap_dump]), because they change no
    state.  The B-tree ([btree]): its split and removal paths corrupt the tree (see the findings), so
    there is no invariant that its operations keep.  [alloc/stack] and the static, stack and buddy allocators of [sdt_alloc]: each does
    the work of an allocator that is modelled ([alloc/bump], [alloc/buddy], the page stack of
    the object allocator), which the library uses in their place.  Of [cgroup_bw] the allocation and release of
    contexts beyond the free lists, the backlog queues (put aside, drain, reenqueue, cancel, and the requeueing of a throttled task that moves) and the dump.
    [arena], [pmu], [asan] and the schedulers
    themselves are callbacks around kernel objects and timers whose behaviour
    is outside the repository.  Weak memory is not modelled: an access is
    atomic and sequentially consistent. *)

From stdpp Require Export prelude gmap sorting.
From Stdlib Require Export ZArith Lia.

#[global] Open Scope Z_scope.
#[global] Set Default Goal Selector "!".

(** ** Machine words

    The BPF programs compute on C integers.  A [w]-bit unsigned value is a
    [Z] in [0, 2^w); every arithmetic step that the source can overflow is
    followed by one of these truncations. *)
Definition two64 : Z := 18446744073709551616.
Definition two63 : Z := 9223372036854775808.
Definition two32 : Z := 4294967296.
Definition two31 : Z := 2147483648.

(** Truncation to [u64], [u32], [u16] and [u8]. *)
Definition u64 (z : Z) : Z := z mod two64.
Definition u32 (z : Z) : Z := z mod two32.
Definition u16 (z : Z) : Z := z mod 65536.
Definition u8 (z : Z) : Z := z mod 256.

(** Reinterpretation as a two's complement [s64] and [s32]. *)
Definition s64 (z : Z) : Z :=
  let w := z mod two64 in if w <? two63 then w else w - two64.
Definition s32 (z : Z) : Z :=
  let w := z mod two32 in if w <? two31 then w else w - two32.

(** The range predicate of an unsigned 64-bit value. *)
Definition is_u64 (z : Z) : Prop := 0 <= z < two64.

#[global] Instance is_u64_dec z : Decision (is_u64 z).
Proof. unfold is_u64. apply _. Defined.

(** ** Error codes of the kernel's errno.h that the sources return negated *)
Definition ENOENT : Z := 2.
Definition E2BIG : Z := 7.
Definition EAGAIN : Z := 11.
Definition ENOMEM : Z := 12.
Definition EBUSY : Z := 16.
Definition EINVAL : Z := 22.
Definition ENOSPC : Z := 28.
Definition EOPNOTSUPP : Z := 95.
Definition ETIMEDOUT : Z := 110.
Definition EALREADY : Z := 114.
Definition ECANCELED : Z := 125.

(** The null pointer. *)
Abbreviation NULL := 0 (only parsing).

(** ** The state and fault monad

    [ST S A] is a computation over an explicit store [S].  [None] is a
    fault: an access to memory that holds no object of the accessed type, in
    particular a null dereference.  Error codes are ordinary results, as in
    the C code. *)
Definition ST (S A : Type) : Type := S → option (A * S).

#[global] Instance ST_ret {S} : MRet (ST S) := λ A a s, Some (a, s).
#[global] Instance ST_bind {S} : MBind (ST S) := λ A B f m s,
  match m s with
  | Some (a, s') => f a s'
  | None => None
  end.

(** A fault. *)
Definition fault {S A} : ST S A := λ _, None.

(** Lift an option: [None] faults. *)
Definition of_option {S A} (o : option A) : ST S A := λ s,
  match o with Some a => Some (a, s) | None => None end.

(** Read the store through a projection, and update it. *)
Definition gets {S A} (f : S → A) : ST S A := λ s, Some (f s, s).
Definition modifies {S} (f : S → S) : ST S unit := λ s, Some (tt, f s).

(** The value a computation returns, if it does not fault. *)
Definition result {S A} (o : option (A * S)) : option A := fst <$> o.

Lemma ST_bind_run {S A B} (m : ST S A) (f : A → ST S B) s a s' :
  m s = Some (a, s') → (m ≫= f) s = f a s'.
Proof. unfold mbind, ST_bind. by intros ->. Qed.

Lemma ST_bind_inv {S A B} (m : ST S A) (f : A → ST S B) s r :
  (m ≫= f) s = Some r → ∃ a s', m s = Some (a, s') ∧ f a s' = Some r.
Proof.
  unfold mbind, ST_bind. destruct (m s) as [[a s']|] eqn:E; naive_solver.
Qed.

Lemma ST_bind_assoc {S A B C} (m : ST S A) (f : A → ST S B) (g : B → ST S C) s :
  ((m ≫= f) ≫= g) s = (m ≫= (λ a, f a ≫= g)) s.
Proof. unfold mbind, ST_bind. by destruct (m s) as [[??]|]. Qed.

Lemma ST_ret_bind {S A B} (a : A) (f : A → ST S B) s : ((mret a : ST S A) ≫= f) s = f a s.
Proof. done. Qed.

(** Run one monadic step whose result is known. *)
Ltac st_step := erewrite ST_bind_run; [|first [eassumption | reflexivity]].

(** Decide a closed proposition by evaluation. *)
Ltac decide_now := apply (bool_decide_unpack _); vm_compute; exact I.

(** ** Word lemmas *)
Lemma two64_pos : 0 < two64.
Proof. reflexivity. Qed.

Lemma u64_small z : is_u64 z → u64 z = z.
Proof. apply Z.mod_small. Qed.

Lemma u64_range z : is_u64 (u64 z).
Proof. apply Z.mod_pos_bound, two64_pos. Qed.

Lemma u64_idemp z : u64 (u64 z) = u64 z.
Proof. apply u64_small, u64_range. Qed.

Lemma s64_range z : - two63 <= s64 z < two63.
Proof.
  unfold s64. pose proof (Z.mod_pos_bound z two64 two64_pos).
  case_match; unfold two63, two64 in *; lia.
Qed.

Lemma u32_small z : 0 <= z < two32 → u32 z = z.
Proof. apply Z.mod_small. Qed.

Lemma s64_small z : - two63 <= z < two63 → s64 z = z.
Proof.
  intros Hz. unfold s64. destruct (Z.leb_spec 0 z).
  - rewrite Z.mod_small by (unfold two63, two64 in *; lia). by rewrite (proj2 (Z.ltb_lt _ _)) by lia.
  - rewrite <-(Z_mod_plus_full z 1), Z.mod_small by (unfold two63, two64 in *; lia).
    rewrite (proj2 (Z.ltb_ge _ _)) by (unfold two63, two64 in *; lia). lia.
Qed.

Lemma s32_small z : - two31 <= z < two31 → s32 z = z.
Proof.
  intros Hz. unfold s32. destruct (Z.leb_spec 0 z).
  - rewrite Z.mod_small by (unfold two31, two32 in *; lia). by rewrite (proj2 (Z.ltb_lt _ _)) by lia.
  - rewrite <-(Z_mod_plus_full z 1), Z.mod_small by (unfold two31, two32 in *; lia).
    rewrite (proj2 (Z.ltb_ge _ _)) by (unfold two31, two32 in *; lia). lia.
Qed.

(** ** List lemmas *)
Lemma filter_all {X} (P : X → Prop) `{∀ x, Decision (P x)} (l : list X) :
  Forall P l → filter P l = l.
Proof. induction 1 as [|x l Hx _ IH]; [done|]. by rewrite filter_cons_True, IH. Qed.

Lemma Forall_sublist {X} (P : X → Prop) (l l' : list X) :
  Forall P l → l' `sublist_of` l → Forall P l'.
Proof.
  rewrite !Forall_forall. intros Hl Hs x Hx. apply Hl. by eapply elem_of_sublist.
Qed.

Lemma StronglySorted_sublist {X} (R : X → X → Prop) (l l' : list X) :
  StronglySorted R l → l' `sublist_of` l → StronglySorted R l'.
Proof.
  intros Hl Hs. induction Hs as [|x l1 l2 Hs IH|x l1 l2 Hs IH]; [constructor|..];
    apply StronglySorted_cons in Hl as [Hx Hl].
  - constructor; [by apply IH|]. by eapply Forall_sublist.
  - by apply IH.
Qed.

Lemma find_app {X} (f : X → bool) (l1 l2 : list X) :
  List.find f (l1 ++ l2) = match List.find f l1 with Some x => Some x | None => List.find f l2 end.
Proof. induction l1 as [|x l1 IH]; simpl; [done|]. by destruct (f x). Qed.
Lemma find_in {X} (f : X → bool) l x : List.find f l = Some x → x ∈ l ∧ f x = true.
Proof. intros H. apply List.find_some in H as [H ?]. by apply list_elem_of_In in H. Qed.
Lemma find_ext {X} (f g : X → bool) l : (∀ x, x ∈ l → f x = g x) → List.find f l = List.find g l.
Proof. intros H. induction l as [|x l IH]; [done|]. simpl. rewrite (H x) by left. rewrite IH by (intros y Hy; apply H; by right). done. Qed.

(** Updating a key that is there is a store. *)
Lemma alter_known {V} (f : V → V) p v (m : gmap Z V) : m !! p = Some v → alter f p m = <[p := f v]> m.
Proof. intros H. rewrite <-(insert_id m p v H) at 1. by rewrite alter_insert_eq. Qed.

Create HintDb scx.
#[export] Hint Resolve u64_range u64_small two64_pos : scx.
