(* ===== verification/Slab.v ===== *)
(** * The allocator interface

    What the data structures rely on from [scx_alloc]/[scx_free] and
    [scx_static_alloc] ([lib/sdt_alloc.bpf.c]): an allocation returns [NULL]
    or an object that is not in use, and [scx_free] makes an object
    reusable.  The components are proved against this interface. *)

From S2P Require Import Prelude.

Class SlabAllocator (A : Type) : Type := {
  slab_live : A → gset Z;
  scx_alloc : A → Z * A;
  scx_free : Z → A → A;
  scx_alloc_spec a p a' :
    scx_alloc a = (p, a') → p ≠ NULL →
    p ∉ slab_live a ∧ slab_live a' = {[p]} ∪ slab_live a;
  scx_alloc_null a a' : scx_alloc a = (NULL, a') → slab_live a' = slab_live a;
  scx_free_spec p a : slab_live (scx_free p a) = slab_live a ∖ {[p]};
}.

(** An allocator over an unbounded address space: one cache line past the
    highest live address. *)
Definition slab_top (live : gset Z) : Z := foldr Z.max 0 (elements live).

Lemma slab_top_ge live x : x ∈ live → x <= slab_top live.
Proof.
  rewrite <-elem_of_elements. unfold slab_top. induction (elements live) as [|y m IH];
    [by intros ?%not_elem_of_nil|]. intros [->|Hx]%elem_of_cons; simpl; [lia|].
  specialize (IH Hx). lia.
Qed.

Lemma slab_top_nonneg live : 0 <= slab_top live.
Proof. unfold slab_top. induction (elements live); simpl; lia. Qed.

#[global] Program Instance gset_slab : SlabAllocator (gset Z) := {
  slab_live := id;
  scx_alloc live := let p := slab_top live + 64 in (p, {[p]} ∪ live);
  scx_free p live := live ∖ {[p]};
}.
Next Obligation.
  intros live p live' [= <- <-] _. split; [|done]. unfold id. intros Hin%slab_top_ge. lia.
Qed.
Next Obligation.
  intros live live' [= E <-]. pose proof (slab_top_nonneg live). lia.
Qed.
Next Obligation. done. Qed.
