(* ===== verification/ArenaTree.v ===== *)
(** * Binary trees laid out in arena memory

    Both red-black trees of the library ([lib/rbtree.bpf.c] and
    [lib/edq.bpf.c]) are intrusive: a node is an arena object with a parent
    pointer and two child pointers.  This file is the shared reasoning layer:
    pure trees labelled with node addresses, zipper contexts for code that
    walks up through parent pointers, the predicate saying that a store of
    nodes lays a tree out, and the red-black discipline with its height bound.
    It is parametric in the payload [D] of a node and in how a node object is
    built from its three links and its payload, so that each component
    instantiates it with its own struct. *)

From S2P Require Import Prelude.

(** ** Pure trees and contexts *)

Inductive tree (D : Type) : Type :=
| Leaf : tree D
| T : tree D → Z → D → tree D → tree D.

Arguments Leaf {D}.
Arguments T {D} l a d r.

#[global] Instance leaf_dec {D} (t : tree D) : Decision (t = Leaf).
Proof. destruct t; [by left|by right]. Defined.

(** One step of a path: the node at [fr_addr] with payload [fr_data], whose
    [fr_dir] child ([false] is left, [true] is right) is the hole and whose
    other child is [fr_sib]. *)
Record frame (D : Type) : Type := Fr {
  fr_dir : bool;
  fr_addr : Z;
  fr_data : D;
  fr_sib : tree D;
}.

Arguments Fr {D} _ _ _ _.
Arguments fr_dir {D} _.
Arguments fr_addr {D} _.
Arguments fr_data {D} _.
Arguments fr_sib {D} _.

(** A context lists the frames from the hole up to the root. *)
Abbreviation ctx D := (list (frame D)).

Section trees.
Context {D : Type}.
Implicit Types (t l r : tree D) (c : ctx D) (f : frame D).

(** The address of the root node, [NULL] for the empty tree. *)
Definition addr t : Z := match t with Leaf => NULL | T _ a _ _ => a end.

(** In-order contents. *)
Fixpoint elems t : list (Z * D) :=
  match t with
  | Leaf => []
  | T l a d r => elems l ++ (a, d) :: elems r
  end.

(** The addresses a tree occupies, roots first. *)
Fixpoint addrs t : list Z :=
  match t with
  | Leaf => []
  | T l a _ r => a :: addrs l ++ addrs r
  end.

Fixpoint height t : nat :=
  match t with
  | Leaf => 0
  | T l _ _ r => S (height l `max` height r)
  end.

Definition plug1 f t : tree D :=
  if fr_dir f then T (fr_sib f) (fr_addr f) (fr_data f) t
  else T t (fr_addr f) (fr_data f) (fr_sib f).

(** Fill the hole of a context. *)
Fixpoint plug c t : tree D :=
  match c with
  | [] => t
  | f :: c' => plug c' (plug1 f t)
  end.

Definition caddr c : Z := match c with [] => NULL | f :: _ => fr_addr f end.

(** The address of the root when the hole's root is at [p]. *)
Fixpoint croot c (p : Z) : Z :=
  match c with [] => p | f :: c' => croot c' (fr_addr f) end.

Fixpoint caddrs c : list Z :=
  match c with
  | [] => []
  | f :: c' => fr_addr f :: addrs (fr_sib f) ++ caddrs c'
  end.

(** What stands before and after the hole in in-order. *)
Fixpoint cpre c : list (Z * D) :=
  match c with
  | [] => []
  | f :: c' =>
      cpre c' ++ (if fr_dir f then elems (fr_sib f) ++ [(fr_addr f, fr_data f)] else [])
  end.

Fixpoint cpost c : list (Z * D) :=
  match c with
  | [] => []
  | f :: c' =>
      (if fr_dir f then [] else (fr_addr f, fr_data f) :: elems (fr_sib f)) ++ cpost c'
  end.

Lemma elems_plug c t : elems (plug c t) = cpre c ++ elems t ++ cpost c.
Proof.
  revert t; induction c as [|[[] a d s] c IH]; intros t; simpl.
  - by rewrite app_nil_r.
  - rewrite IH; simpl. by rewrite <-!(assoc_L (++)).
  - rewrite IH; simpl. by rewrite app_nil_r, <-!(assoc_L (++)).
Qed.

Lemma plug_app c1 c2 t : plug (c1 ++ c2) t = plug c2 (plug c1 t).
Proof. revert t; induction c1 as [|f c1 IH]; intros t; simpl; auto. Qed.

Lemma croot_app c1 c2 p : croot (c1 ++ c2) p = croot c2 (croot c1 p).
Proof. revert p; induction c1 as [|f c1 IH]; intros p; simpl; auto. Qed.

Lemma caddrs_app c1 c2 : caddrs (c1 ++ c2) = caddrs c1 ++ caddrs c2.
Proof.
  induction c1 as [|f c1 IH]; simpl; [done|]. by rewrite IH, (assoc_L (++)).
Qed.

Lemma addr_plug1 f t : addr (plug1 f t) = fr_addr f.
Proof. by destruct f as [[] ? ? ?]. Qed.

Lemma addr_plug c t : addr (plug c t) = croot c (addr t).
Proof.
  revert t; induction c as [|f c IH]; intros t; simpl; [done|].
  by rewrite IH, addr_plug1.
Qed.

Lemma addrs_elems t : addrs t ≡ₚ (elems t).*1.
Proof.
  induction t as [|l IHl a d r IHr]; simpl; [done|].
  rewrite fmap_app; simpl. by rewrite IHl, IHr, Permutation_middle.
Qed.

Lemma addrs_plug c t : addrs (plug c t) ≡ₚ addrs t ++ caddrs c.
Proof.
  revert t; induction c as [|[[] a d s] c IH]; intros t; simpl.
  - by rewrite app_nil_r.
  - rewrite IH; simpl. rewrite <-Permutation_middle, !(assoc_L (++)).
    by rewrite (Permutation_app_comm (addrs s)).
  - rewrite IH; simpl. by rewrite <-Permutation_middle, <-!(assoc_L (++)).
Qed.

Lemma elem_of_addrs_plug1 f t x :
  x ∈ addrs (plug1 f t) ↔ x ∈ addrs t ∨ x = fr_addr f ∨ x ∈ addrs (fr_sib f).
Proof.
  rewrite (addrs_plug [f] t : addrs (plug1 f t) ≡ₚ _); simpl.
  rewrite app_nil_r, elem_of_app, elem_of_cons. tauto.
Qed.

(** An element of the tree is the root of some focused subtree. *)
Lemma elem_focus t a d :
  (a, d) ∈ elems t → ∃ c l r, t = plug c (T l a d r).
Proof.
  induction t as [|l IHl b e r IHr]; simpl; [by intros ?%not_elem_of_nil|].
  intros [Hin|[[= <- <-]|Hin]%elem_of_cons]%elem_of_app.
  - destruct (IHl Hin) as (c & l' & r' & ->).
    exists (c ++ [Fr false b e r]), l', r'. by rewrite plug_app.
  - by exists [], l, r.
  - destruct (IHr Hin) as (c & l' & r' & ->).
    exists (c ++ [Fr true b e l]), l', r'. by rewrite plug_app.
Qed.

Lemma addr_focus t a :
  a ∈ addrs t → ∃ c l d r, t = plug c (T l a d r).
Proof.
  rewrite addrs_elems. intros ([a' d] & -> & Hin)%list_elem_of_fmap.
  destruct (elem_focus _ _ _ Hin) as (c & l & r & ->). by exists c, l, d, r.
Qed.

Lemma addr_in t : t ≠ Leaf → addr t ∈ addrs t.
Proof. destruct t; [done|]. intros _; simpl; left. Qed.

Lemma length_addrs_elems t : length (addrs t) = length (elems t).
Proof. by rewrite addrs_elems, length_fmap. Qed.

(** Every nonempty tree has a leftmost node. *)
Fixpoint leftmost_focus t : option (ctx D * Z * D * tree D) :=
  match t with
  | Leaf => None
  | T l a d r =>
      match leftmost_focus l with
      | None => Some ([], a, d, r)
      | Some (c, b, e, s) => Some (c ++ [Fr false a d r], b, e, s)
      end
  end.

Lemma leftmost_focus_Some t c b e s :
  leftmost_focus t = Some (c, b, e, s) →
  t = plug c (T Leaf b e s) ∧ cpre c = [] ∧ Forall (λ f, fr_dir f = false) c.
Proof.
  revert c b e s; induction t as [|l IHl a d r _]; intros c b e s; simpl; [done|].
  destruct (leftmost_focus l) as [[[[c' b'] e'] s']|] eqn:E.
  - intros [= <- <- <- <-]. destruct (IHl _ _ _ _ eq_refl) as (-> & Hpre & Hall).
    rewrite plug_app; simpl. repeat split.
    + clear -Hpre. induction c' as [|f c' IH]; simpl in *; [done|].
      apply app_nil in Hpre as [Hpre ->]. by rewrite IH.
    + apply Forall_app; auto.
  - intros [= <- <- <- <-]. destruct l as [|ll la ld lr]; simpl in E.
    + auto.
    + by destruct (leftmost_focus ll) as [[[[??]?]?]|].
Qed.

Lemma leftmost_focus_nonempty t :
  t ≠ Leaf → ∃ c b e s, leftmost_focus t = Some (c, b, e, s).
Proof.
  destruct t as [|l a d r]; [done|]. intros _; simpl.
  destruct (leftmost_focus l) as [[[[??]?]?]|]; eauto.
Qed.

Lemma leftmost_focus_height t c b e s :
  leftmost_focus t = Some (c, b, e, s) → (length c < height t)%nat.
Proof.
  revert c b e s; induction t as [|l IHl a d r _]; intros c b e s; simpl; [done|].
  destruct (leftmost_focus l) as [[[[c' b'] e'] s']|].
  - intros [= <- <- <- <-]. specialize (IHl _ _ _ _ eq_refl).
    rewrite length_app; simpl. lia.
  - intros [= <- <- <- <-]. simpl. lia.
Qed.

Lemma height_plug1 f t : (height t < height (plug1 f t))%nat.
Proof. destruct f as [[] ???]; simpl; lia. Qed.

Lemma length_ctx_height c t : (length c + height t <= height (plug c t))%nat.
Proof.
  revert t; induction c as [|f c IH]; intros t; simpl; [lia|].
  specialize (IH (plug1 f t)). pose proof (height_plug1 f t). lia.
Qed.
End trees.

(** ** Layout of a tree in a store of node objects

    [mk p l r d] is the node object with parent [p], children [l], [r] and
    payload [d]. *)
Section layout.
Context {D N : Type} (mk : Z → Z → Z → D → N).
Implicit Types (t l r : tree D) (c : ctx D) (h : gmap Z N).

Fixpoint rep h (par : Z) t : Prop :=
  match t with
  | Leaf => True
  | T l a d r => h !! a = Some (mk par (addr l) (addr r) d) ∧ rep h a l ∧ rep h a r
  end.

Definition mk_frame (p : Z) (f : frame D) (hole : Z) : N :=
  if fr_dir f then mk p (addr (fr_sib f)) hole (fr_data f)
  else mk p hole (addr (fr_sib f)) (fr_data f).

Fixpoint rep_ctx h c (hole : Z) : Prop :=
  match c with
  | [] => True
  | f :: c' =>
      h !! fr_addr f = Some (mk_frame (caddr c') f hole) ∧
      rep h (fr_addr f) (fr_sib f) ∧ rep_ctx h c' (fr_addr f)
  end.

(** The store [h] lays out the tree [plug c t], focused at [t], at pairwise
    distinct non-null addresses. *)
Record tree_in h c t : Prop := TreeIn {
  ti_nodup : NoDup (0 :: addrs t ++ caddrs c);
  ti_rep : rep h (caddr c) t;
  ti_ctx : rep_ctx h c (addr t);
}.

Lemma rep_agree h h' p t :
  (∀ a, a ∈ addrs t → h' !! a = h !! a) → rep h p t → rep h' p t.
Proof.
  revert p; induction t as [|l IHl a d r IHr]; intros p Heq; simpl; [done|].
  intros (Ha & Hl & Hr). repeat split.
  - rewrite Heq; [done|]. simpl; left.
  - apply IHl; [|done]. intros b Hb. apply Heq. simpl; right. set_solver.
  - apply IHr; [|done]. intros b Hb. apply Heq. simpl; right. set_solver.
Qed.

Lemma rep_ctx_agree h h' c p :
  (∀ a, a ∈ caddrs c → h' !! a = h !! a) → rep_ctx h c p → rep_ctx h' c p.
Proof.
  revert p; induction c as [|f c IH]; intros p Heq; simpl; [done|].
  intros (Ha & Hs & Hc). repeat split.
  - rewrite Heq; [done|]. simpl; left.
  - eapply rep_agree; [|done]. intros b Hb. apply Heq. simpl; right. set_solver.
  - apply IH; [|done]. intros b Hb. apply Heq. simpl; right. set_solver.
Qed.

Lemma rep_insert h p t a n :
  a ∉ addrs t → rep h p t → rep (<[a:=n]> h) p t.
Proof.
  intros Ha. apply rep_agree. intros b Hb. apply lookup_insert_ne. congruence.
Qed.

Lemma rep_ctx_insert h c p a n :
  a ∉ caddrs c → rep_ctx h c p → rep_ctx (<[a:=n]> h) c p.
Proof.
  intros Ha. apply rep_ctx_agree. intros b Hb. apply lookup_insert_ne. congruence.
Qed.

Lemma tree_in_agree h h' c t :
  (∀ a, a ∈ addrs t ++ caddrs c → h' !! a = h !! a) → tree_in h c t → tree_in h' c t.
Proof.
  intros Heq [Hnd Hr Hc]. split; [done| |].
  - eapply rep_agree; [|done]. intros; apply Heq. set_solver.
  - eapply rep_ctx_agree; [|done]. intros; apply Heq. set_solver.
Qed.

Lemma nodup_plug1 f c t :
  NoDup (0 :: addrs t ++ caddrs (f :: c)) ↔ NoDup (0 :: addrs (plug1 f t) ++ caddrs c).
Proof.
  by rewrite <-(addrs_plug (f :: c) t), <-(addrs_plug c (plug1 f t)).
Qed.

(** Moving the focus up or down one edge. *)
Lemma tree_in_plug1 h f c t : tree_in h (f :: c) t ↔ tree_in h c (plug1 f t).
Proof.
  split; intros [Hnd Hr Hc].
  - apply nodup_plug1 in Hnd. destruct Hc as (Hf & Hs & Hc).
    split; [done| |by rewrite addr_plug1].
    by destruct f as [[] a d s]; simpl in *; unfold mk_frame in Hf; simpl in *.
  - apply nodup_plug1 in Hnd. rewrite addr_plug1 in Hc.
    destruct f as [[] a d s]; simpl in Hr; destruct Hr as (Ha & Hr1 & Hr2);
      by split; simpl; unfold mk_frame; simpl.
Qed.

Lemma tree_in_plug h c1 c t : tree_in h (c1 ++ c) t ↔ tree_in h c (plug c1 t).
Proof.
  revert t; induction c1 as [|f c1 IH]; intros t; [done|].
  change ((f :: c1) ++ c) with (f :: (c1 ++ c)). rewrite tree_in_plug1. apply IH.
Qed.

Lemma tree_in_top h c t : tree_in h c t ↔ tree_in h [] (plug c t).
Proof. by rewrite <-tree_in_plug, app_nil_r. Qed.

Lemma tree_in_root h c l a d r :
  tree_in h c (T l a d r) → h !! a = Some (mk (caddr c) (addr l) (addr r) d).
Proof. by intros [_ (? & _) _]. Qed.

Lemma tree_in_parent h f c t :
  tree_in h (f :: c) t → h !! fr_addr f = Some (mk_frame (caddr c) f (addr t)).
Proof. by intros [_ _ (? & _)]. Qed.

Lemma tree_in_addr h c t : tree_in h c t → t ≠ Leaf → addr t ≠ 0.
Proof.
  intros [Hnd _ _] Ht Heq. apply NoDup_cons in Hnd as [Hnd _]. apply Hnd.
  rewrite <-Heq. apply elem_of_app. left. by apply addr_in.
Qed.

Lemma tree_in_nonnull h c t a : tree_in h c t → a ∈ addrs t ++ caddrs c → a ≠ 0.
Proof. intros [Hnd _ _] Ha ->. by apply NoDup_cons in Hnd as [Hnd _]. Qed.

Lemma tree_in_caddr h f c t : tree_in h (f :: c) t → fr_addr f ≠ 0.
Proof. intros H. eapply tree_in_nonnull; [done|]. simpl. set_solver. Qed.

(** Distinctness of addresses only depends on the in-order address list. *)
Lemma nodup_transfer (c c' : ctx D) (t t' : tree D) :
  (elems (plug c t)).*1 ≡ₚ (elems (plug c' t')).*1 →
  NoDup (0 :: addrs t ++ caddrs c) → NoDup (0 :: addrs t' ++ caddrs c').
Proof.
  rewrite <-!addrs_elems, !addrs_plug. intros Hp.
  by apply NoDup_Permutation_proper; constructor.
Qed.
End layout.

Arguments tree_in {D N} mk h c t.
Arguments plug1 {D} !f t /.

(** Pull every named address of a [NoDup] hypothesis to the front and split it
    into pairwise disequalities. *)
Ltac nodup_facts H :=
  repeat (progress (simpl in H; rewrite ?app_nil_r in H)
          || rewrite <-Permutation_middle in H);
  repeat (rewrite NoDup_cons in H || rewrite not_elem_of_cons in H
          || rewrite not_elem_of_app in H);
  destruct_and? H.

(** Prove a [NoDup] goal from such disequalities. *)
Ltac nodup_goal :=
  repeat (progress (simpl; rewrite ?app_nil_r) || rewrite <-Permutation_middle);
  repeat (rewrite NoDup_cons || rewrite not_elem_of_cons || rewrite not_elem_of_app);
  split_and?; first [assumption | apply not_eq_sym; assumption].

(** The node at [a] whose [dir] child is [x] and whose other child is [y]. *)
Definition bin {D} (dir : bool) (x : tree D) (a : Z) (d : D) (y : tree D) : tree D :=
  if dir then T y a d x else T x a d y.

Arguments bin {D} !dir x a d y /.

Section bins.
Context {D : Type}.
Implicit Types (x y t u : tree D).

Lemma bin_flip dir x y a d : bin (negb dir) y a d x = bin dir x a d y.
Proof. by destruct dir. Qed.

Lemma plug_bin1 dir t u p pd : plug [Fr dir p pd u] t = bin dir t p pd u.
Proof. by destruct dir. Qed.

Lemma bin_T dir x y a d : ∃ l r, bin dir x a d y = T l a d r.
Proof. destruct dir; simpl; eauto. Qed.

Lemma tree_bin dir t : t ≠ Leaf → ∃ x a d y, t = bin dir x a d y.
Proof. destruct t as [|l a d r]; [done|]. destruct dir; [by exists r, a, d, l|by exists l, a, d, r]. Qed.

Lemma addr_bin dir x y a d : addr (bin dir x a d y) = a.
Proof. by destruct dir. Qed.
End bins.
Arguments mk_frame {D N} mk p f hole /.

Lemma addr_ne {D} (t : tree D) a : 0 ≠ a → a ∉ addrs t → addr t ≠ a.
Proof. destruct t; simpl; set_solver. Qed.

Lemma plug1_bin {D} (f : frame D) t :
  plug1 f t = bin (fr_dir f) t (fr_addr f) (fr_data f) (fr_sib f).
Proof. by destruct f as [[] ???]. Qed.

(** ** Symbolic execution over stores

    [heap_run] evaluates a computation on a store of which some cells are
    known: it rewrites the known lookups, pushes lookups through updates at
    addresses known to differ, and decides pointer comparisons. *)
Ltac ptr_neq :=
  first [ assumption | apply not_eq_sym; assumption
        | apply addr_ne; assumption | apply not_eq_sym, addr_ne; assumption
        | congruence ].

Ltac heap_step :=
  match goal with
  | H : ?h !! ?a = Some _ |- context [?h !! ?a] => rewrite H
  | |- context [<[?a := _]> _ !! ?a] => rewrite (lookup_insert_eq _ a)
  | |- context [<[?a := _]> _ !! ?b] => rewrite (lookup_insert_ne _ a b) by ptr_neq
  | |- context [?a =? ?a] => rewrite (Z.eqb_refl a)
  | |- context [?a =? ?b] => rewrite (proj2 (Z.eqb_neq a b)) by ptr_neq
  end.

Ltac heap_run := repeat (cbn -[Z.eqb]; try heap_step).

(** Goals of the form [rep]/[rep_ctx] over an updated store. *)
Ltac rep_tac :=
  repeat first [ apply rep_insert; [first [assumption | set_solver]|]
               | apply rep_ctx_insert; [first [assumption | set_solver]|] ];
  assumption.

Ltac layout_tac :=
  simpl; repeat match goal with |- _ ∧ _ => split end; try done;
  first [ heap_run; reflexivity | rep_tac ].

(** Distinctness of the addresses of a rearranged tree. *)
Ltac nodup_tac H :=
  eapply nodup_transfer; [|exact H]; rewrite !elems_plug; simpl;
  repeat (simpl; rewrite <-?app_assoc, ?app_nil_r); simpl; reflexivity.

(** Inclusions between the address lists of trees and contexts. *)
Ltac addr_sub :=
  clear; intros ?; cbn [addrs caddrs plug bin fr_addr fr_sib fr_dir fr_data];
  rewrite ?elem_of_app, ?elem_of_addrs_plug1;
  repeat (progress cbn [addrs caddrs plug bin fr_addr fr_sib fr_dir fr_data]
          || rewrite elem_of_app || rewrite elem_of_cons || rewrite elem_of_addrs_plug1
          || rewrite elem_of_nil); tauto.
