(* ===== verification/RedBlack.v ===== *)
(** * The red-black discipline on trees and contexts

    [rbt t n]: no red node of [t] has a red child and every path from the
    root of [t] to a leaf meets [n] black nodes.  [rbc c n red] is the
    matching statement for a context: plugging in any [rbt] tree of black
    height [n] gives a red-black tree, provided the tree's root is black
    unless [red] is set.  The root itself may have either colour: the
    library's [rbtree] keeps a red root until a child needs it black. *)

From S2P Require Import Prelude ArenaTree.

(** Enough [can_loop] budget for every loop on a tree with [n] nodes. *)
Definition budget (cl n : nat) : Prop := (2 * Nat.log2 (S n) + 2 < cl)%nat.

Section redblack.
Context {D : Type} (red : D → bool).
Implicit Types (t l r : tree D) (c : ctx D).

Definition is_red t : bool := match t with Leaf => false | T _ _ d _ => red d end.

Fixpoint rbt t (n : nat) : Prop :=
  match t with
  | Leaf => n = 0%nat
  | T l _ d r =>
      if red d then is_red l = false ∧ is_red r = false ∧ rbt l n ∧ rbt r n
      else ∃ m, n = S m ∧ rbt l m ∧ rbt r m
  end.

Fixpoint rbc c (n : nat) (hole_red : bool) : Prop :=
  match c with
  | [] => True
  | f :: c' =>
      if red (fr_data f) then
        hole_red = false ∧ is_red (fr_sib f) = false ∧ rbt (fr_sib f) n ∧ rbc c' n true
      else rbt (fr_sib f) n ∧ rbc c' (S n) false
  end.

(** The whole tree is red-black. *)
Definition rb_tree t : Prop := ∃ n, rbt t n.

Lemma rbc_weaken c n : rbc c n true → rbc c n false.
Proof.
  destruct c as [|f c]; simpl; [done|]. case_match; [|done]. naive_solver.
Qed.

Lemma rbt_plug1 f t n :
  rbt (plug1 f t) n ↔
  (if red (fr_data f) then
     is_red t = false ∧ is_red (fr_sib f) = false ∧ rbt (fr_sib f) n ∧ rbt t n
   else ∃ m, n = S m ∧ rbt (fr_sib f) m ∧ rbt t m).
Proof.
  destruct f as [[] a d s]; simpl; case_match; naive_solver.
Qed.

Lemma is_red_plug1 f t : is_red (plug1 f t) = red (fr_data f).
Proof. by destruct f as [[] ???]. Qed.

Lemma rb_tree_plug c t :
  rb_tree (plug c t) ↔ ∃ n, rbt t n ∧ rbc c n (is_red t).
Proof.
  revert t; induction c as [|f c IH]; intros t; simpl.
  - unfold rb_tree. naive_solver.
  - rewrite IH. setoid_rewrite rbt_plug1. rewrite is_red_plug1.
    destruct (red (fr_data f)); naive_solver.
Qed.

(** A tree of black height [n] has at least [2^n - 1] nodes and height at
    most [2n + 1], so its height is logarithmic in its size. *)
Lemma rbt_size t n : rbt t n → (2 ^ n <= S (length (elems t)))%nat.
Proof.
  revert n; induction t as [|l IHl a d r IHr]; intros n; simpl.
  - intros ->. simpl. lia.
  - rewrite length_app; simpl. destruct (red d).
    + intros (_ & _ & Hl & Hr). specialize (IHl _ Hl). specialize (IHr _ Hr). lia.
    + intros (m & -> & Hl & Hr). specialize (IHl _ Hl). specialize (IHr _ Hr).
      simpl. lia.
Qed.

Lemma rbt_height t n :
  rbt t n → (height t <= 2 * n + (if is_red t then 1 else 0))%nat.
Proof.
  revert n; induction t as [|l IHl a d r IHr]; intros n; simpl; [lia|].
  destruct (red d).
  - intros (Hcl & Hcr & Hl & Hr). specialize (IHl _ Hl). specialize (IHr _ Hr).
    rewrite Hcl in IHl. rewrite Hcr in IHr. lia.
  - intros (m & -> & Hl & Hr). specialize (IHl _ Hl). specialize (IHr _ Hr).
    destruct (is_red l), (is_red r); lia.
Qed.

Lemma rb_tree_height t :
  rb_tree t → (height t <= 2 * Nat.log2 (S (length (elems t))) + 1)%nat.
Proof.
  intros [n Hn]. pose proof (rbt_height _ _ Hn) as Hh.
  pose proof (rbt_size _ _ Hn) as Hs.
  apply Nat.log2_le_pow2 in Hs; [|lia]. destruct (is_red t); lia.
Qed.
(** ** Mirror-image views *)
Lemma rbt_bin dir x a d y n :
  rbt (bin dir x a d y) n ↔
  (if red d then is_red x = false ∧ is_red y = false ∧ rbt x n ∧ rbt y n
   else ∃ m, n = S m ∧ rbt x m ∧ rbt y m).
Proof. destruct dir; simpl; case_match; naive_solver. Qed.

Lemma rbt_bin_col dir x a d y n :
  (red d = true → is_red x = false ∧ is_red y = false) → rbt x n → rbt y n →
  rbt (bin dir x a d y) (if red d then n else S n).
Proof. intros Hb Hx Hy. rewrite rbt_bin. destruct (red d); naive_solver. Qed.

Lemma is_red_bin dir x a d y : is_red (bin dir x a d y) = red d.
Proof. by destruct dir. Qed.

Lemma red_nonleaf t : is_red t = true → t ≠ Leaf.
Proof. by intros ? ->. Qed.

(** The colour of the root of a context, [b] being the colour in its hole. *)
Fixpoint ctop c (b : bool) : bool :=
  match c with [] => b | f :: c' => ctop c' (red (fr_data f)) end.

Lemma is_red_plug c t : is_red (plug c t) = ctop c (is_red t).
Proof.
  revert t; induction c as [|f c IH]; intros t; simpl; [done|]. by rewrite IH, is_red_plug1.
Qed.

(** A red-black tree with a black root. *)
Definition rb_black t : Prop := rb_tree t ∧ is_red t = false.

Lemma rb_black_plug c t n :
  rbt t n → rbc c n (is_red t) → ctop c (is_red t) = false → rb_black (plug c t).
Proof. intros. split; [apply rb_tree_plug; eauto|by rewrite is_red_plug]. Qed.
End redblack.

Arguments rbt_bin {D red} dir x a d y n.
Arguments rbt_bin_col {D red} dir x a d y n.
Arguments is_red_bin {D red} dir x a d y.
Arguments red_nonleaf {D red} t.

#[export] Hint Resolve rbc_weaken : scx.
