(* ===== verification/Rbtree.v ===== *)
(** * The arena red-black tree: [lib/rbtree.bpf.c], [include/lib/rbtree.h]

    A shallow embedding of every state-changing function of the file.  The
    store holds the two kinds of arena objects the code allocates, nodes and
    tree headers, keyed by address, and the state of the slab allocator they
    come from.  A C function is a computation in [ST]; a dereference of an
    address that holds no object faults.

    Conventions: [int dir] is a [bool] ([0] is [false], the left child; [1 -
    dir] is [negb dir]); a [while (... && can_loop)] loop takes the remaining
    [can_loop] budget as its first argument and leaves the loop when it is
    spent, exactly as [may_goto] does; an out parameter [u64 *p] is a flag
    saying whether the pointer is non-null together with a component of the
    result.  Debug output ([bpf_printk]) is not part of the model. *)

From S2P Require Import Prelude Slab ArenaTree RedBlack.

(** ** Objects *)

(** [struct rbnode] *)
Record rbnode : Type := Rbnode {
  rb_parent : Z;
  rb_left : Z;
  rb_right : Z;
  rb_key : Z;
  rb_value : Z;
  rb_is_red : bool;
}.

(** [enum rbtree_alloc] *)
Inductive rbtree_alloc : Type := RB_ALLOC | RB_NOALLOC.

(** [enum rbtree_insert_mode] *)
Inductive rbtree_insert_mode : Type := RB_DEFAULT | RB_UPDATE | RB_DUPLICATE.

#[global] Instance rbtree_alloc_eq_dec : EqDecision rbtree_alloc.
Proof. solve_decision. Defined.
#[global] Instance rbtree_insert_mode_eq_dec : EqDecision rbtree_insert_mode.
Proof. solve_decision. Defined.

(** [struct rbtree] *)
Record rbtree : Type := Rbtree {
  rt_root : Z;
  rt_freelist : Z;
  rt_alloc : rbtree_alloc;
  rt_insert : rbtree_insert_mode;
}.

(** The store. *)
Record rb_state (A : Type) : Type := RbState {
  rb_nodes : gmap Z rbnode;
  rb_trees : gmap Z rbtree;
  rb_slab : A;
}.

Arguments RbState {A} _ _ _.
Arguments rb_nodes {A} _.
Arguments rb_trees {A} _.
Arguments rb_slab {A} _.

(** ** Field updates *)
Definition with_parent (p : Z) (n : rbnode) : rbnode :=
  Rbnode p (rb_left n) (rb_right n) (rb_key n) (rb_value n) (rb_is_red n).
Definition with_left (l : Z) (n : rbnode) : rbnode :=
  Rbnode (rb_parent n) l (rb_right n) (rb_key n) (rb_value n) (rb_is_red n).
Definition with_right (r : Z) (n : rbnode) : rbnode :=
  Rbnode (rb_parent n) (rb_left n) r (rb_key n) (rb_value n) (rb_is_red n).
Definition with_red (c : bool) (n : rbnode) : rbnode :=
  Rbnode (rb_parent n) (rb_left n) (rb_right n) (rb_key n) (rb_value n) c.
Definition with_kv (k v : Z) (n : rbnode) : rbnode :=
  Rbnode (rb_parent n) (rb_left n) (rb_right n) k v (rb_is_red n).

(** [n->child[dir]], the array view of [left] and [right]. *)
Definition rb_child (dir : bool) (n : rbnode) : Z :=
  if dir then rb_right n else rb_left n.
Definition with_child (dir : bool) (c : Z) (n : rbnode) : rbnode :=
  if dir then with_right c n else with_left c n.

Definition with_root (p : Z) (t : rbtree) : rbtree :=
  Rbtree p (rt_freelist t) (rt_alloc t) (rt_insert t).
Definition with_freelist (p : Z) (t : rbtree) : rbtree :=
  Rbtree (rt_root t) p (rt_alloc t) (rt_insert t).

Section model.
Context {A : Type} `{SlabAllocator A}.
Abbreviation M X := (ST (rb_state A) X).

(** ** Memory accesses *)

(** Read a field of a node or of a tree header. *)
Definition rd {X} (a : Z) (f : rbnode → X) : M X := λ s,
  match rb_nodes s !! a with Some n => Some (f n, s) | None => None end.
Definition rdt {X} (a : Z) (f : rbtree → X) : M X := λ s,
  match rb_trees s !! a with Some t => Some (f t, s) | None => None end.

(** Write one. *)
Definition wr (a : Z) (f : rbnode → rbnode) : M unit := λ s,
  match rb_nodes s !! a with
  | Some n => Some (tt, RbState (<[a := f n]> (rb_nodes s)) (rb_trees s) (rb_slab s))
  | None => None
  end.
Definition wrt (a : Z) (f : rbtree → rbtree) : M unit := λ s,
  match rb_trees s !! a with
  | Some t => Some (tt, RbState (rb_nodes s) (<[a := f t]> (rb_trees s)) (rb_slab s))
  | None => None
  end.

(** [scx_alloc(&scx_rbnode_allocator)]: zero-initialized memory. *)
Definition node_alloc : M Z := λ s,
  let '(p, a) := scx_alloc (rb_slab s) in
  Some (p, RbState (if p =? NULL then rb_nodes s
                    else <[p := Rbnode 0 0 0 0 0 false]> (rb_nodes s)) (rb_trees s) a).
(** [scx_alloc(&scx_rbtree_allocator)] *)
Definition tree_alloc : M Z := λ s,
  let '(p, a) := scx_alloc (rb_slab s) in
  Some (p, RbState (rb_nodes s)
             (if p =? NULL then rb_trees s
              else <[p := Rbtree 0 0 RB_ALLOC RB_DEFAULT]> (rb_trees s)) a).
(** [scx_free(&scx_rbnode_allocator, p)] and [scx_free(&scx_rbtree_allocator, p)] *)
Definition node_release (p : Z) : M unit := λ s,
  Some (tt, RbState (delete p (rb_nodes s)) (rb_trees s) (scx_free p (rb_slab s))).
Definition tree_release (p : Z) : M unit := λ s,
  Some (tt, RbState (rb_nodes s) (delete p (rb_trees s)) (scx_free p (rb_slab s))).

(** [cmpxchg(&rbtree->freelist, old, new)] *)
Definition cmpxchg_freelist (rbtree old new : Z) : M Z :=
  cur ← rdt rbtree rt_freelist;
  (if cur =? old then wrt rbtree (with_freelist new) else mret tt);;
  mret cur.

(** ** Tree creation *)
Definition rb_create_internal (alloc : rbtree_alloc) (insert : rbtree_insert_mode) : M Z :=
  rbtree ← tree_alloc;
  if rbtree =? NULL then mret NULL else
  wrt rbtree (λ t, Rbtree (rt_root t) (rt_freelist t) alloc insert);;
  mret rbtree.

(** ** Structure *)
Definition rbnode_dir (node : Z) : M bool :=
  parent ← rd node rb_parent;
  if parent =? NULL then mret false else
  l ← rd parent rb_left;
  mret (negb (l =? node)).

Definition rbnode_rotate (rbtree node : Z) (dir : bool) : M Z :=
  parent ← rd node rb_parent;
  parentdir ← (if parent =? NULL then mret false else rbnode_dir node);
  root ← (if parent =? NULL then rdt rbtree rt_root else mret node);
  if negb (root =? node) then mret (- EINVAL) else
  tmp ← rd node (rb_child (negb dir));
  if tmp =? NULL then mret (- EINVAL) else
  c ← rd tmp (rb_child dir);
  wr node (with_child (negb dir) c);;
  (if c =? NULL then mret tt else wr c (with_parent node));;
  wr tmp (with_child dir node);;
  wr node (with_parent tmp);;
  wr tmp (with_parent parent);;
  (if parent =? NULL then wrt rbtree (with_root tmp)
   else wr parent (with_child parentdir tmp));;
  mret 0.

(** ** Search *)
Fixpoint rbnode_find_loop (cl : nat) (node key : Z) : M Z :=
  match cl with
  | O => mret node
  | S cl =>
      k ← rd node rb_key;
      if k =? key then mret node else
      let dir := negb (key <? k) in
      c ← rd node (rb_child dir);
      if c =? NULL then mret node else rbnode_find_loop cl c key
  end.

Definition rbnode_find (cl : nat) (subtree key : Z) : M Z :=
  if subtree =? NULL then mret NULL else rbnode_find_loop cl subtree key.

Fixpoint rbnode_least_upper_bound_loop (cl : nat) (node key : Z) : M Z :=
  match cl with
  | O => mret node
  | S cl =>
      k ← rd node rb_key;
      let dir := negb (key <=? k) in
      c ← rd node (rb_child dir);
      if c =? NULL then mret node else rbnode_least_upper_bound_loop cl c key
  end.

Definition rbnode_least_upper_bound (cl : nat) (subtree key : Z) : M Z :=
  if subtree =? NULL then mret NULL else rbnode_least_upper_bound_loop cl subtree key.

(** The result is the return code and the value stored through [value]. *)
Definition rb_find (cl : nat) (rbtree key : Z) (value : bool) : M (Z * option Z) :=
  root ← rdt rbtree rt_root;
  node ← rbnode_find cl root key;
  if rbtree =? NULL then mret (- EINVAL, None) else
  if negb value then mret (- EINVAL, None) else
  if node =? NULL then mret (- EINVAL, None) else
  k ← rd node rb_key;
  if negb (k =? key) then mret (- EINVAL, None) else
  v ← rd node rb_value;
  mret (0, Some v).

(** ** Node allocation and the free list *)
Fixpoint freelist_pop_loop (cl : nat) (rbtree : Z) : M Z :=
  rbnode ← rdt rbtree rt_freelist;
  if rbnode =? NULL then mret NULL else
  next ← rd rbnode rb_parent;
  cur ← cmpxchg_freelist rbtree rbnode next;
  if cur =? rbnode then mret rbnode else
  match cl with O => mret rbnode | S cl => freelist_pop_loop cl rbtree end.

Definition rb_node_alloc_common (cl : nat) (rbtree key value : Z) : M Z :=
  rbnode ← freelist_pop_loop cl rbtree;
  rbnode ← (if rbnode =? NULL then node_alloc else mret rbnode);
  if rbnode =? NULL then mret NULL else
  wr rbnode (with_left NULL);;
  wr rbnode (with_right NULL);;
  wr rbnode (with_parent NULL);;
  wr rbnode (with_kv key value);;
  wr rbnode (with_red true);;
  mret rbnode.

Definition rb_node_alloc_internal (cl : nat) (rbtree key value : Z) : M Z :=
  alloc ← rdt rbtree rt_alloc;
  if decide (alloc = RB_ALLOC) then mret NULL else
  rb_node_alloc_common cl rbtree key value.

Fixpoint rb_node_free (cl : nat) (rbtree rbnode : Z) : M Z :=
  old ← rdt rbtree rt_freelist;
  wr rbnode (with_parent old);;
  cur ← cmpxchg_freelist rbtree old rbnode;
  if cur =? old then mret 0 else
  match cl with O => mret 0 | S cl => rb_node_free cl rbtree rbnode end.

(** ** Replacing and switching nodes *)
Definition rbnode_fixup_pointers (a b : Z) : M unit :=
  l ← rd a rb_left;
  (if l =? a then wr a (with_left b) else mret tt);;
  r ← rd a rb_right;
  (if r =? a then wr a (with_right b) else mret tt);;
  p ← rd a rb_parent;
  (if p =? a then wr a (with_parent b) else mret tt).

(** [swap(a->f, b->f, tmp)] *)
Definition rb_swap {X} (a b : Z) (get : rbnode → X) (put : X → rbnode → rbnode) : M unit :=
  tmp ← rd a get;
  x ← rd b get;
  wr a (put x);;
  wr b (put tmp).

Definition rbnode_swap_values (a b : Z) : M unit :=
  rb_swap a b rb_is_red with_red;;
  rb_swap a b rb_left with_left;;
  rb_swap a b rb_right with_right;;
  rb_swap a b rb_parent with_parent;;
  rbnode_fixup_pointers b a;;
  rbnode_fixup_pointers a b.

Definition rbnode_adjust_neighbors (rbtree node : Z) (dir : bool) : M unit :=
  l ← rd node rb_left;
  (if l =? NULL then mret tt else wr l (with_parent node));;
  r ← rd node rb_right;
  (if r =? NULL then mret tt else wr r (with_parent node));;
  p ← rd node rb_parent;
  if p =? NULL then wrt rbtree (with_root node) else wr p (with_child dir node).

Definition rbnode_replace (rbtree existing replacement : Z) : M Z :=
  rp ← rd replacement rb_parent;
  rl ← rd replacement rb_left;
  rr ← rd replacement rb_right;
  if negb (rp =? NULL) || negb (rl =? NULL) || negb (rr =? NULL) then mret (- EINVAL) else
  ep ← rd existing rb_parent;
  dir ← (if ep =? NULL then mret false else rbnode_dir existing);
  c ← rd existing rb_is_red;
  wr replacement (with_red c);;
  l ← rd existing rb_left;
  wr replacement (with_left l);;
  r ← rd existing rb_right;
  wr replacement (with_right r);;
  p ← rd existing rb_parent;
  wr replacement (with_parent p);;
  rbnode_adjust_neighbors rbtree replacement dir;;
  mret 0.

Definition rbnode_switch (rbtree a b : Z) : M unit :=
  ap ← rd a rb_parent;
  adir ← (if ap =? NULL then mret false else rbnode_dir a);
  bp ← rd b rb_parent;
  bdir ← (if bp =? NULL then mret false else rbnode_dir b);
  rbnode_swap_values a b;;
  rbnode_adjust_neighbors rbtree a bdir;;
  rbnode_adjust_neighbors rbtree b adir.

(** ** Insertion *)

(** The body of the rebalancing loop of [rb_node_insert] when the uncle is
    black: one or two rotations. *)
Definition rb_node_insert_rotate (rbtree node parent grandparent : Z) (dir : bool) : M Z :=
  inner ← rd parent (rb_child (negb dir));
  parent ← (if node =? inner then
              rbnode_rotate rbtree parent dir;;
              rd grandparent (rb_child dir)
            else mret parent);
  rbnode_rotate rbtree grandparent (negb dir);;
  wr parent (with_red false);;
  wr grandparent (with_red true);;
  mret 0.

(** The rebalancing loop of [rb_node_insert]. *)
Fixpoint rb_node_insert_loop (cl : nat) (rbtree node : Z) : M Z :=
  match cl with
  | O => mret 0
  | S cl =>
      parent ← rd node rb_parent;
      if parent =? NULL then mret 0 else
      pred ← rd parent rb_is_red;
      if negb pred then mret 0 else
      grandparent ← rd parent rb_parent;
      if grandparent =? NULL then wr parent (with_red false);; mret 0 else
      dir ← rbnode_dir parent;
      uncle ← rd grandparent (rb_child (negb dir));
      ured ← (if uncle =? NULL then mret false else rd uncle rb_is_red);
      if negb ured then rb_node_insert_rotate rbtree node parent grandparent dir
      else
        wr parent (with_red false);;
        wr uncle (with_red false);;
        wr grandparent (with_red true);;
        rb_node_insert_loop cl rbtree grandparent
  end.

Definition rb_node_insert (cl : nat) (rbtree node : Z) : M Z :=
  parent ← rdt rbtree rt_root;
  key ← rd node rb_key;
  if rbtree =? NULL then mret (- EINVAL) else
  if parent =? NULL then wrt rbtree (with_root node);; mret 0 else
  mode ← rdt rbtree rt_insert;
  parent ← (if decide (mode = RB_DUPLICATE) then rbnode_least_upper_bound cl parent key
            else rbnode_find cl parent key);
  pkey ← rd parent rb_key;
  if (key =? pkey) && negb (bool_decide (mode = RB_DUPLICATE)) then
    if decide (mode = RB_UPDATE) then
      ret ← rbnode_replace rbtree parent node;
      if negb (ret =? 0) then mret ret else
      alloc ← rdt rbtree rt_alloc;
      (if decide (alloc = RB_ALLOC) then rb_node_free cl rbtree parent else mret 0);;
      mret 0
    else mret (- EALREADY)
  else
    wr node (with_parent parent);;
    (if key <=? pkey then wr parent (with_left node) else wr parent (with_right node));;
    rb_node_insert_loop cl rbtree node.

Definition rb_insert_node (cl : nat) (rbtree node : Z) : M Z :=
  if rbtree =? NULL then mret (- EINVAL) else
  alloc ← rdt rbtree rt_alloc;
  if decide (alloc = RB_ALLOC) then mret (- EINVAL) else
  wr node (with_red true);;
  wr node (with_left NULL);;
  wr node (with_right NULL);;
  wr node (with_parent NULL);;
  rb_node_insert cl rbtree node.

Definition rb_insert (cl : nat) (rbtree key value : Z) : M Z :=
  if rbtree =? NULL then mret (- EINVAL) else
  alloc ← rdt rbtree rt_alloc;
  if negb (bool_decide (alloc = RB_ALLOC)) then mret (- EINVAL) else
  node ← rb_node_alloc_common cl rbtree key value;
  if node =? NULL then mret (- ENOMEM) else
  ret ← rb_node_insert cl rbtree node;
  if negb (ret =? 0) then rb_node_free cl rbtree node;; mret ret else
  mret 0.

(** ** Least element *)
Fixpoint rbnode_least (cl : nat) (subtree : Z) : M Z :=
  l ← rd subtree rb_left;
  if l =? NULL then mret subtree else
  match cl with O => mret subtree | S cl => rbnode_least cl l end.

(** The result is the return code and the key and value stored through the
    two pointers. *)
Definition rb_least (cl : nat) (rbtree : Z) (key value : bool) :
    M (Z * option Z * option Z) :=
  root ← rdt rbtree rt_root;
  if root =? NULL then mret (- ENOENT, None, None) else
  least ← rbnode_least cl root;
  k ← (if key then k ← rd least rb_key; mret (Some k) else mret None);
  v ← (if value then v ← rd least rb_value; mret (Some v) else mret None);
  mret (0, k, v).

(** ** Removal *)
Definition rbnode_remove_node_single_child (cl : nat) (rbtree node : Z) (free : bool) : M Z :=
  nred ← rd node rb_is_red;
  if (nred : bool) then mret (- EINVAL) else
  l ← rd node rb_left;
  child ← (if l =? NULL then rd node rb_right else mret l);
  cred ← rd child rb_is_red;
  if negb cred then mret (- EINVAL) else
  p ← rd node rb_parent;
  wr child (with_parent p);;
  (if p =? NULL then wrt rbtree (with_root child) else
     dir ← rbnode_dir node;
     wr p (with_child dir child));;
  wr child (with_red false);;
  (if free then rb_node_free cl rbtree node else mret 0);;
  mret 0.

Definition rbnode_has_red_children (node : Z) : M bool :=
  l ← rd node rb_left;
  lred ← (if l =? NULL then mret false else rd l rb_is_red);
  if (lred : bool) then mret true else
  r ← rd node rb_right;
  if r =? NULL then mret false else rd r rb_is_red.

(** How the rebalancing loop of [rb_node_remove] ends: with a [return], or by
    leaving the loop with the values of its local variables. *)
Inductive rm_exit : Type :=
| RmReturn (ret : Z)
| RmBreak (node parent sibling : Z) (dir : bool).

Fixpoint rb_node_remove_loop (cl : nat) (rbtree node parent sibling : Z) (dir : bool)
    : M rm_exit :=
  match cl with
  | O => mret (RmBreak node parent sibling dir)
  | S cl =>
      if parent =? NULL then mret (RmReturn 0) else
      sibling ← rd parent (rb_child (negb dir));
      if sibling =? NULL then mret (RmReturn (- EINVAL)) else
      sred ← rd sibling rb_is_red;
      if (sred : bool) then
        rbnode_rotate rbtree parent dir;;
        wr parent (with_red true);;
        wr sibling (with_red false);;
        sibling ← rd parent (rb_child (negb dir));
        redch ← rbnode_has_red_children sibling;
        if (redch : bool) then mret (RmBreak node parent sibling dir) else
        wr sibling (with_red true);;
        wr parent (with_red false);;
        mret (RmReturn 0)
      else
      redch ← rbnode_has_red_children sibling;
      if (redch : bool) then mret (RmBreak node parent sibling dir) else
      pred ← rd parent rb_is_red;
      if (pred : bool) then
        wr parent (with_red false);;
        wr sibling (with_red true);;
        mret (RmReturn 0)
      else
        wr sibling (with_red true);;
        let node := parent in
        parent ← rd node rb_parent;
        dir ← rbnode_dir node;
        rb_node_remove_loop cl rbtree node parent sibling dir
  end.

(** The end of [rb_node_remove], after the loop. *)
Definition rb_node_remove_tail (rbtree initial node parent sibling : Z) (dir : bool) : M Z :=
  st ← (if node =? initial then mret (dir, parent, sibling) else
          dir ← rbnode_dir node;
          parent ← rd node rb_parent;
          sibling ← rd parent (rb_child (negb dir));
          mret (dir, parent, sibling));
  let '(dir, parent, sibling) := st in
  close_nephew ← rd sibling (rb_child dir);
  distant_nephew ← rd sibling (rb_child (negb dir));
  dred ← (if distant_nephew =? NULL then mret false else rd distant_nephew rb_is_red);
  sd ← (if negb dred then
          rbnode_rotate rbtree sibling (negb dir);;
          wr sibling (with_red true);;
          wr close_nephew (with_red false);;
          mret (close_nephew, sibling)
        else mret (sibling, distant_nephew));
  let '(sibling, distant_nephew) := sd in
  rbnode_rotate rbtree parent dir;;
  pred ← rd parent rb_is_red;
  wr sibling (with_red pred);;
  wr parent (with_red false);;
  wr distant_nephew (with_red false);;
  mret 0.

Definition rb_node_remove (cl : nat) (rbtree node : Z) (free : bool) : M Z :=
  l ← rd node rb_left;
  r ← rd node rb_right;
  (if negb (l =? NULL) && negb (r =? NULL) then
     replace ← rbnode_least cl r;
     rbnode_switch rbtree replace node
   else mret tt);;
  let initial := node in
  l ← rd node rb_left;
  r ← rd node rb_right;
  if negb (Bool.eqb (l =? NULL) (r =? NULL)) then
    rbnode_remove_node_single_child cl rbtree node free
  else
  parent ← rd node rb_parent;
  if parent =? NULL then
    wrt rbtree (with_root NULL);;
    (if free then rb_node_free cl rbtree node else mret 0);;
    mret 0
  else
  dir ← rbnode_dir node;
  wr parent (with_child dir NULL);;
  nred ← rd node rb_is_red;
  (if free then rb_node_free cl rbtree node else mret 0);;
  if (nred : bool) then mret 0 else
  sibling ← rd parent (rb_child (negb dir));
  if sibling =? NULL then mret (- EINVAL) else
  e ← rb_node_remove_loop cl rbtree node parent sibling dir;
  match e with
  | RmReturn ret => mret ret
  | RmBreak node parent sibling dir =>
      rb_node_remove_tail rbtree initial node parent sibling dir
  end.

Definition rb_remove_node (cl : nat) (rbtree node : Z) : M Z :=
  if rbtree =? NULL then mret (- EINVAL) else
  alloc ← rdt rbtree rt_alloc;
  if decide (alloc = RB_ALLOC) then mret (- EINVAL) else
  rb_node_remove cl rbtree node false.

Definition rb_remove (cl : nat) (rbtree key : Z) : M Z :=
  if rbtree =? NULL then mret (- EINVAL) else
  alloc ← rdt rbtree rt_alloc;
  if negb (bool_decide (alloc = RB_ALLOC)) then mret (- EINVAL) else
  root ← rdt rbtree rt_root;
  if root =? NULL then mret (- ENOENT) else
  node ← rbnode_find cl root key;
  if node =? NULL then mret (- ENOENT) else
  k ← rd node rb_key;
  if negb (k =? key) then mret (- ENOENT) else
  rb_node_remove cl rbtree node true.

Definition rb_pop (cl : nat) (rbtree : Z) (key value : bool) : M (Z * option Z * option Z) :=
  if rbtree =? NULL then mret (- EINVAL, None, None) else
  root ← rdt rbtree rt_root;
  if root =? NULL then mret (- ENOENT, None, None) else
  node ← rbnode_least cl root;
  if node =? NULL then mret (- ENOENT, None, None) else
  k ← (if key then k ← rd node rb_key; mret (Some k) else mret None);
  v ← (if value then v ← rd node rb_value; mret (Some v) else mret None);
  ret ← rb_remove_node cl rbtree node;
  mret (ret, k, v).

(** ** Destruction *)
Fixpoint rb_destroy_drain (cl : nat) (clr : nat) (rbtree : Z) : M Z :=
  root ← rdt rbtree rt_root;
  if root =? NULL then mret 0 else
  match cl with
  | O => mret 0
  | S cl =>
      key ← rd root rb_key;
      ret ← rb_remove clr rbtree key;
      if negb (ret =? 0) then mret ret else rb_destroy_drain cl clr rbtree
  end.

Fixpoint rb_destroy_freelist (cl : nat) (node : Z) : M unit :=
  if node =? NULL then mret tt else
  match cl with
  | O => mret tt
  | S cl =>
      next ← rd node rb_parent;
      node_release node;;
      rb_destroy_freelist cl next
  end.

(** [cl] bounds the two loops, [clr] the loops of each removal. *)
Definition rb_destroy (cl clr : nat) (rbtree : Z) : M Z :=
  ret ← rb_destroy_drain cl clr rbtree;
  if negb (ret =? 0) then mret ret else
  node ← rdt rbtree rt_freelist;
  rb_destroy_freelist cl node;;
  tree_release rbtree;;
  mret 0.

(** ** The integrity check *)

(** [enum rb_print_state] *)
Inductive rb_print_state : Type := RB_NONE_VISITED | RB_LEFT_VISITED | RB_RIGHT_VISITED.

#[global] Instance rb_print_state_eq_dec : EqDecision rb_print_state.
Proof. solve_decision. Defined.

Definition RB_MAXLVL_PRINT : Z := 16.

(** The next state and [*next]. *)
Definition rb_print_next_state (rbnode : Z) (state : rb_print_state)
    : M (rb_print_state * Z) :=
  l ← (if decide (state = RB_NONE_VISITED) then rd rbnode rb_left else mret NULL);
  if negb (l =? NULL) then mret (RB_LEFT_VISITED, l) else
  r ← (if decide (state = RB_RIGHT_VISITED) then mret NULL else rd rbnode rb_right);
  if negb (r =? NULL) then mret (RB_RIGHT_VISITED, r) else
  mret (RB_RIGHT_VISITED, NULL).

(** [bpf_for (j, 0, RB_MAXLVL_PRINT)] runs [n] more iterations; [depth] is a
    [u8]. *)
Fixpoint rb_print_pop_up (n : nat) (rbnode depth : Z) (stack : list rb_print_state)
    (state : rb_print_state) : M (Z * Z * rb_print_state) :=
  match n with
  | O => mret (rbnode, depth, state)
  | S n =>
      if decide (state = RB_RIGHT_VISITED) then
        let depth := u8 (depth - 1) in
        if (depth <? 0) || (RB_MAXLVL_PRINT <=? depth) then mret (rbnode, depth, state) else
        state ← of_option (stack !! Z.to_nat (depth mod RB_MAXLVL_PRINT));
        rbnode ← rd rbnode rb_parent;
        rb_print_pop_up n rbnode depth stack state
      else mret (rbnode, depth, state)
  end.

(** The checks the loop of [rb_integrity_check] makes at one node: [false]
    when it would return [-EINVAL]. *)
Definition rb_integrity_node (rbnode : Z) : M bool :=
  n ← rd rbnode id;
  let parent := rb_parent n in
  linked ← (if parent =? NULL then mret true else
              pl ← rd parent rb_left;
              if pl =? rbnode then mret true else
              pr ← rd parent rb_right;
              mret (pr =? rbnode));
  if negb linked then mret false else
  if parent =? rbnode then mret false else
  if rb_left n =? rbnode then mret false else
  if rb_right n =? rbnode then mret false else
  if rb_is_red n then
    lred ← (if rb_left n =? NULL then mret false else rd (rb_left n) rb_is_red);
    if (lred : bool) then mret false else
    rred ← (if rb_right n =? NULL then mret false else rd (rb_right n) rb_is_red);
    mret (negb rred)
  else if parent =? NULL then mret true else
    dir ← rbnode_dir rbnode;
    sib ← rd parent (rb_child (negb dir));
    mret (negb (sib =? NULL)).

Fixpoint rb_integrity_loop (cl : nat) (rbnode depth : Z) (stack : list rb_print_state)
    (state : rb_print_state) : M Z :=
  match cl with
  | O => mret 0
  | S cl =>
      ok ← rb_integrity_node rbnode;
      if negb ok then mret (- EINVAL) else
      sn ← rb_print_next_state rbnode state;
      let '(state, next) := sn in
      if negb (next =? NULL) then
        if (depth <? 0) || (RB_MAXLVL_PRINT <=? depth) then mret 0 else
        rb_integrity_loop cl next (u8 (depth + 1)) (<[Z.to_nat depth := state]> stack)
          RB_NONE_VISITED
      else
        up ← rb_print_pop_up (Z.to_nat RB_MAXLVL_PRINT) rbnode depth stack state;
        let '(rbnode, depth, state) := up in
        if (depth <? 0) || (RB_MAXLVL_PRINT <=? depth) then mret 0 else
        rb_integrity_loop cl rbnode depth stack state
  end.

Definition rb_integrity_check (cl : nat) (rbtree : Z) : M Z :=
  root ← rdt rbtree rt_root;
  if rbtree =? NULL then mret (- EINVAL) else
  if root =? NULL then mret 0 else
  rb_integrity_loop cl root 0
    (replicate (Z.to_nat RB_MAXLVL_PRINT) RB_NONE_VISITED) RB_NONE_VISITED.
End model.
