(* ===== verification/RbtreeBase.v ===== *)
(** * Red-black tree: invariant, rotation, recolouring and search

    The representation invariant of a [struct rbtree] and the lemmas on the
    building blocks of insertion and removal. *)

From S2P Require Import Prelude Slab ArenaTree RedBlack Rbtree.

(** The payload of a node: everything but its links. *)
Record rbdata : Type := RbData { rd_key : Z; rd_value : Z; rd_red : bool }.

Definition rb_mk (p l r : Z) (d : rbdata) : rbnode :=
  Rbnode p l r (rd_key d) (rd_value d) (rd_red d).
Arguments rb_mk _ _ _ _ /.

Definition recolor (b : bool) (d : rbdata) : rbdata := RbData (rd_key d) (rd_value d) b.
Arguments recolor _ _ /.

(** What the tree stores, colours aside: address, key and value in order. *)
Definition entry (e : Z * rbdata) : Z * Z * Z := (e.1, rd_key e.2, rd_value e.2).
Arguments entry !_ /.
Definition entries (t : tree rbdata) : list (Z * Z * Z) := entry <$> elems t.

(** The key of an entry. *)
Definition ekey (e : Z * Z * Z) : Z := e.1.2.

(** In-order keys are non-decreasing: the search tree order. *)
Definition key_sorted (l : list (Z * Z * Z)) : Prop :=
  StronglySorted (λ x y, ekey x ≤ ekey y) l.

(** The header fields of a tree other than its root. *)
Record rbconf : Type := RbConf {
  cf_freelist : Z;
  cf_alloc : rbtree_alloc;
  cf_insert : rbtree_insert_mode;
}.

Definition rb_hdr (cf : rbconf) (root : Z) : rbtree :=
  Rbtree root (cf_freelist cf) (cf_alloc cf) (cf_insert cf).
Arguments rb_hdr _ _ /.

Section base.
Context {A : Type} `{SlabAllocator A}.
Implicit Types (s : rb_state A) (c : ctx rbdata) (t : tree rbdata).

(** The store [s] holds the tree [plug c t], focused at [t], under the header
    at [tr]. *)
Record rb_at s (tr : Z) (cf : rbconf) c t : Prop := RbAt {
  at_hdr : rb_trees s !! tr = Some (rb_hdr cf (croot c (addr t)));
  at_tree : tree_in rb_mk (rb_nodes s) c t;
}.

(** [s'] differs from [s] at most in the header [tr] and at the node
    addresses [l]. *)
Record rb_frame s s' (tr : Z) (l : list Z) : Prop := RbFrame {
  fr_nodes a : a ∉ l → rb_nodes s' !! a = rb_nodes s !! a;
  fr_trees a : a ≠ tr → rb_trees s' !! a = rb_trees s !! a;
  fr_slab : rb_slab s' = rb_slab s;
}.

Lemma rb_frame_refl s tr l : rb_frame s s tr l.
Proof. by split. Qed.

Lemma rb_frame_trans s1 s2 s3 tr l l' :
  rb_frame s1 s2 tr l → rb_frame s2 s3 tr l' → l' ⊆ l → rb_frame s1 s3 tr l.
Proof.
  intros [n1 t1 a1] [n2 t2 a2] Hl. split.
  - intros a Ha. rewrite n2, n1; [done|done|set_solver].
  - intros a Ha. by rewrite t2, t1.
  - congruence.
Qed.

Lemma rb_frame_mono s s' tr l l' : rb_frame s s' tr l → l ⊆ l' → rb_frame s s' tr l'.
Proof. intros [n t a] Hl. split; [|done..]. intros b Hb. apply n. set_solver. Qed.

Lemma rb_at_plug1 s tr cf f c t :
  rb_at s tr cf (f :: c) t ↔ rb_at s tr cf c (plug1 f t).
Proof.
  split; intros [Hh Ht]; (split; [|by apply tree_in_plug1]);
    rewrite Hh; simpl; by rewrite ?addr_plug1.
Qed.

Lemma rb_at_plug s tr cf c1 c t :
  rb_at s tr cf (c1 ++ c) t ↔ rb_at s tr cf c (plug c1 t).
Proof.
  split; intros [Hh Ht]; (split; [|by apply tree_in_plug]);
    rewrite Hh; by rewrite croot_app, addr_plug.
Qed.

Lemma rb_at_top s tr cf c t : rb_at s tr cf c t ↔ rb_at s tr cf [] (plug c t).
Proof. by rewrite <-rb_at_plug, app_nil_r. Qed.

(** Single steps on known cells. *)
Lemma rd_bind {X Y} (f : rbnode → X) (k : X → ST (rb_state A) Y) s a n :
  rb_nodes s !! a = Some n → (rd a f ≫= k) s = k (f n) s.
Proof. unfold mbind, ST_bind, rd. by intros ->. Qed.

Lemma rdt_bind {X Y} (f : rbtree → X) (k : X → ST (rb_state A) Y) s a n :
  rb_trees s !! a = Some n → (rdt a f ≫= k) s = k (f n) s.
Proof. unfold mbind, ST_bind, rdt. by intros ->. Qed.

Lemma ret_bind {X Y} (x : X) (k : X → ST (rb_state A) Y) s :
  ((mret x : ST (rb_state A) X) ≫= k) s = k x s.
Proof. done. Qed.

(** The cells a focused tree makes known. *)
Lemma at_root s tr cf c l a d r :
  rb_at s tr cf c (T l a d r) →
  rb_nodes s !! a = Some (rb_mk (caddr c) (addr l) (addr r) d).
Proof. intros [_ Ht]. by apply tree_in_root in Ht. Qed.

Lemma at_parent s tr cf f c t :
  rb_at s tr cf (f :: c) t →
  rb_nodes s !! fr_addr f = Some (mk_frame rb_mk (caddr c) f (addr t)).
Proof. intros [_ Ht]. by apply tree_in_parent in Ht. Qed.

Lemma at_sibling s tr cf f c t l a d r :
  rb_at s tr cf (f :: c) t → fr_sib f = T l a d r →
  rb_nodes s !! a = Some (rb_mk (fr_addr f) (addr l) (addr r) d).
Proof. intros [_ [_ _ (_ & Hs & _)]] E. rewrite E in Hs. apply Hs. Qed.

(** Recolouring the focused node. *)
Lemma recolor_spec s tr cf c l a d r b :
  rb_at s tr cf c (T l a d r) →
  ∃ s', wr a (with_red b) s = Some (tt, s') ∧
    rb_at s' tr cf c (T l a (recolor b d) r) ∧ rb_frame s s' tr [a].
Proof.
  intros [Hh [Hnd Hr Hc]]. pose proof Hnd as Hnd'. nodup_facts Hnd'.
  simpl in Hr. destruct Hr as (Ha & Hl & Hr). unfold wr. rewrite Ha.
  eexists; split; [reflexivity|]. split; [split; [done|split]|split]; simpl.
  - exact Hnd.
  - layout_tac.
  - rep_tac.
  - intros x Hx. apply lookup_insert_ne. set_solver.
  - done.
  - done.
Qed.

Lemma rbnode_dir_focus s tr cf f c l a d r :
  rb_at s tr cf (f :: c) (T l a d r) → rbnode_dir a s = Some (fr_dir f, s).
Proof.
  intros [Hh [Hnd Hr Hc]]. nodup_facts Hnd.
  destruct f as [[] ca cd cs]; simpl in *; destruct_and?;
    unfold rbnode_dir, rd, mbind, ST_bind, mret, ST_ret; by heap_run.
Qed.

Lemma rbnode_rotate_spec s tr cf c dir x a da y b db z :
  rb_at s tr cf c (bin dir x a da (bin dir y b db z)) →
  ∃ s', rbnode_rotate tr a dir s = Some (0, s') ∧
    rb_at s' tr cf c (bin dir (bin dir x a da y) b db z) ∧
    rb_frame s s' tr (addrs (bin dir x a da (bin dir y b db z)) ++ caddrs c).
Proof.
  intros [Hh [Hnd Hr Hc]].
  destruct dir, c as [|[[] ca cd cs] c], y as [|yl ya yd yr];
    simpl in Hh, Hr, Hc; destruct_and?;
    pose proof Hnd as Hnd'; nodup_facts Hnd'.
  all: unfold rbnode_rotate, rbnode_dir, rd, wr, rdt, wrt, mbind, ST_bind, mret, ST_ret.
  all: heap_run; eexists; split; [reflexivity|]; split; [split; [by heap_run|split]|split].
  all: try nodup_tac Hnd.
  all: try layout_tac.
  all: try (intros ? ?; by heap_run).
  all: intros e He; nodup_facts He; by heap_run.
Qed.

(** The same steps at a node below the focus. *)
Lemma paint_in s tr cf c c1 l a d r b :
  rb_at s tr cf c (plug c1 (T l a d r)) →
  ∃ s', wr a (with_red b) s = Some (tt, s') ∧
    rb_at s' tr cf c (plug c1 (T l a (recolor b d) r)) ∧ rb_frame s s' tr [a].
Proof.
  intros Hat. apply rb_at_plug in Hat.
  destruct (recolor_spec _ _ _ _ _ _ _ _ b Hat) as (s' & Hw & Hat' & Hfr).
  exists s'. split_and!; [done| |done]. by apply rb_at_plug.
Qed.

Lemma rotate_in s tr cf c c1 dir x a da y b db z :
  rb_at s tr cf c (plug c1 (bin dir x a da (bin dir y b db z))) →
  ∃ s', rbnode_rotate tr a dir s = Some (0, s') ∧
    rb_at s' tr cf c (plug c1 (bin dir (bin dir x a da y) b db z)) ∧
    rb_frame s s' tr (addrs (plug c1 (bin dir x a da (bin dir y b db z))) ++ caddrs c).
Proof.
  intros Hat. apply rb_at_plug in Hat.
  destruct (rbnode_rotate_spec _ _ _ _ _ _ _ _ _ _ _ _ Hat) as (s' & Hw & Hat' & Hfr).
  exists s'. split_and!; [done|by apply rb_at_plug|].
  eapply rb_frame_mono; [exact Hfr|]. intros e. rewrite addrs_plug, caddrs_app. set_solver.
Qed.
End base.

(** [step_paint H c1 b] and [step_rotate H c1 dir] run the next statement of
    the goal, a repaint or a rotation, on the tree [H] describes, at the
    position [c1] below its focus. *)
Ltac step_paint H c1 b s' Hfr :=
  let Hw := fresh "Hw" in let H' := fresh H in
  destruct (paint_in _ _ _ _ c1 _ _ _ _ b H) as (s' & Hw & H' & Hfr);
  rewrite (ST_bind_run _ _ _ _ _ Hw); clear Hw H; rename H' into H; simpl in H.

Ltac step_rotate H c1 dir x a da y b db z s' Hfr :=
  let Hw := fresh "Hw" in let H' := fresh H in
  destruct (rotate_in _ _ _ _ c1 dir x a da y b db z H) as (s' & Hw & H' & Hfr);
  rewrite (ST_bind_run _ _ _ _ _ Hw); clear Hw H; rename H' into H; simpl in H.

(** Compose the footprints of a sequence of steps. *)
Ltac frame_chain :=
  repeat match goal with
  | |- rb_frame ?s ?s ?tr _ => apply rb_frame_refl
  | H : rb_frame ?s ?s1 ?tr ?l |- rb_frame ?s _ ?tr _ =>
      let K := fresh in
      assert (∀ s2 L, l ⊆ L → rb_frame s1 s2 tr L → rb_frame s s2 tr L) as K
        by (intros; eapply rb_frame_trans; [by eapply rb_frame_mono|eassumption|done]);
      apply K; [|clear K]; clear H
  end.
