(* ===== verification/RbtreeInsert.v ===== *)
(** * Red-black tree: search and insertion

    [rb_node_insert] puts the node at its place in key order, keeps the
    red-black discipline and touches no other memory, in each of the three
    insertion modes. *)

From S2P Require Import Prelude Slab ArenaTree RedBlack Rbtree RbtreeBase.

(** The abstract effect of an insertion: before the first entry whose key is
    not smaller. *)
Fixpoint insert_entry (e : Z * Z * Z) (l : list (Z * Z * Z)) : list (Z * Z * Z) :=
  match l with
  | [] => [e]
  | x :: l' => if ekey x <? ekey e then x :: insert_entry e l' else e :: x :: l'
  end.

Lemma insert_entry_split e l1 l2 :
  Forall (λ x, ekey x < ekey e) l1 → Forall (λ x, ekey e ≤ ekey x) l2 →
  insert_entry e (l1 ++ l2) = l1 ++ e :: l2.
Proof.
  intros H1 H2. induction H1 as [|x l1 Hx H1 IH]; simpl.
  - destruct H2 as [|y l2 Hy H2]; simpl; [done|]. by rewrite (proj2 (Z.ltb_ge _ _)).
  - rewrite (proj2 (Z.ltb_lt _ _)) by done. by rewrite IH.
Qed.

Lemma insert_entry_perm e l : insert_entry e l ≡ₚ e :: l.
Proof.
  induction l as [|x l IH]; simpl; [done|]. case_match; [|done].
  rewrite IH. apply Permutation_swap.
Qed.

Lemma insert_entry_sorted e l : key_sorted l → key_sorted (insert_entry e l).
Proof.
  unfold key_sorted. induction l as [|x l IH]; simpl; [repeat constructor|].
  intros [Hx Hl]%StronglySorted_cons. destruct (Z.ltb_spec (ekey x) (ekey e)).
  - constructor; [by apply IH|]. rewrite insert_entry_perm. constructor; [lia|done].
  - constructor; [by constructor|]. constructor; [lia|].
    eapply Forall_impl; [exact Hx|]. simpl. lia.
Qed.

Lemma entries_plug c t :
  entries (plug c t) = (entry <$> cpre c) ++ entries t ++ (entry <$> cpost c).
Proof. unfold entries. by rewrite elems_plug, !fmap_app. Qed.

Lemma entries_T l a d r :
  entries (T l a d r) = entries l ++ (a, rd_key d, rd_value d) :: entries r.
Proof. unfold entries; simpl. by rewrite fmap_app. Qed.

Lemma entries_addrs t1 t2 :
  entries t1 = entries t2 → (elems t1).*1 = (elems t2).*1.
Proof.
  intros E. apply (f_equal (fmap (λ x : Z * Z * Z, x.1.1))) in E.
  unfold entries in E. by rewrite <-!list_fmap_compose in E.
Qed.

(** Same entries, whatever the shape and the colours. *)
Ltac entries_tac :=
  unfold entries; rewrite ?elems_plug;
  repeat (progress csimpl || rewrite fmap_app || rewrite <-app_assoc || rewrite app_nil_r);
  reflexivity.

Section insert.
Context {A : Type} `{SlabAllocator A}.
Implicit Types (s : rb_state A) (c : ctx rbdata) (t l r : tree rbdata).

Abbreviation klt k := (Forall (λ e : Z * rbdata, rd_key e.2 < k)).
Abbreviation kge k := (Forall (λ e : Z * rbdata, k ≤ rd_key e.2)).
Abbreviation kgt k := (Forall (λ e : Z * rbdata, k < rd_key e.2)).
Abbreviation esorted := (StronglySorted (λ x y : Z * rbdata, rd_key x.2 ≤ rd_key y.2)).

Lemma key_sorted_elems t : key_sorted (entries t) ↔ esorted (elems t).
Proof.
  unfold key_sorted, entries. induction (elems t) as [|e l IH]; simpl; [split; constructor|].
  by rewrite !StronglySorted_cons, IH, Forall_fmap.
Qed.

(** Splitting a sorted search tree at its root. *)
Lemma esorted_root (k m : list (Z * rbdata)) a d :
  esorted (k ++ (a, d) :: m) →
  esorted k ∧ esorted m ∧
  Forall (λ e, rd_key e.2 ≤ rd_key d) k ∧ Forall (λ e, rd_key d ≤ rd_key e.2) m.
Proof.
  rewrite StronglySorted_app, StronglySorted_cons. intros (Hlr & Hl & Hr & Hrs).
  repeat split; [done|done| |done]. apply Forall_forall. intros x Hx.
  apply (Hlr x (a, d)); set_solver.
Qed.

(** A child of a focused node is focused one level down, at a non-null
    address. *)
Lemma descend (h : gmap Z rbnode) c dir x a d y :
  tree_in rb_mk h c (bin dir x a d y) → x ≠ Leaf →
  tree_in rb_mk h (Fr dir a d y :: c) x ∧ (addr x =? NULL) = false.
Proof.
  intros Ht Hx. assert (tree_in rb_mk h (Fr dir a d y :: c) x) as Ht'.
  { apply tree_in_plug1. by rewrite plug1_bin. }
  split; [done|]. apply Z.eqb_neq. by eapply tree_in_addr.
Qed.

(** Where a search for [key] stops: at a node with that key, or at a node
    whose child on the key's side is missing. *)
Definition find_stop (strict : bool) (key : Z) (l : tree rbdata) (d : rbdata)
    (r : tree rbdata) : Prop :=
  (strict = true ∧ rd_key d = key) ∨
  ((if strict then key < rd_key d else key ≤ rd_key d) ∧ l = Leaf) ∨
  (rd_key d < key ∧ r = Leaf).

Lemma rbnode_find_loop_spec cl c t s key :
  tree_in rb_mk (rb_nodes s) c t → t ≠ Leaf → (height t ≤ cl)%nat →
  esorted (elems t) → klt key (cpre c) → kgt key (cpost c) →
  ∃ c' l a d r, rbnode_find_loop cl (addr t) key s = Some (a, s) ∧
    plug c t = plug c' (T l a d r) ∧ klt key (cpre c') ∧ kgt key (cpost c') ∧
    find_stop true key l d r.
Proof.
  revert c t. induction cl as [|cl IH]; intros c t Ht Hne Hh Hs Hpre Hpost;
    destruct t as [|l a d r]; try done; simpl in Hh; [lia|].
  simpl in Hs. apply esorted_root in Hs as (Hsl & Hsr & Hl & Hr).
  pose proof (tree_in_root _ _ _ _ _ _ _ Ht) as Ha. simpl in Ha.
  simpl. erewrite rd_bind; [|exact Ha]. simpl.
  destruct (Z.eqb_spec (rd_key d) key) as [Hk|Hk].
  { exists c, l, a, d, r. split_and!; try done. by left. }
  erewrite rd_bind; [|exact Ha]. simpl.
  destruct (Z.ltb_spec key (rd_key d)) as [Hlt|Hge]; simpl.
  - destruct l as [|ll la ld lr].
    { exists c, Leaf, a, d, r. split_and!; try done. right; by left. }
    destruct (descend _ c false (T ll la ld lr) a d r Ht) as [Ht' ->]; [done|].
    destruct (IH (Fr false a d r :: c) (T ll la ld lr)) as (c' & H'); try done.
    + lia.
    + simpl. by rewrite app_nil_r.
    + simpl. rewrite Forall_cons, Forall_app. split_and!; [simpl; lia| |done].
      eapply Forall_impl; [exact Hr|]. simpl; intros; lia.
    + by exists c'.
  - destruct r as [|rl ra rdd rr].
    { exists c, l, a, d, Leaf. split_and!; try done. right; right. split; [lia|done]. }
    destruct (descend _ c true (T rl ra rdd rr) a d l Ht) as [Ht' ->]; [done|].
    destruct (IH (Fr true a d l :: c) (T rl ra rdd rr)) as (c' & H'); try done.
    + lia.
    + simpl. rewrite !Forall_app, Forall_cons. split_and!; [done| |simpl; lia|done].
      eapply Forall_impl; [exact Hl|]. simpl; intros; lia.
    + by exists c'.
Qed.

Lemma rbnode_lub_loop_spec cl c t s key :
  tree_in rb_mk (rb_nodes s) c t → t ≠ Leaf → (height t ≤ cl)%nat →
  esorted (elems t) → klt key (cpre c) → kge key (cpost c) →
  ∃ c' l a d r, rbnode_least_upper_bound_loop cl (addr t) key s = Some (a, s) ∧
    plug c t = plug c' (T l a d r) ∧ klt key (cpre c') ∧ kge key (cpost c') ∧
    find_stop false key l d r.
Proof.
  revert c t. induction cl as [|cl IH]; intros c t Ht Hne Hh Hs Hpre Hpost;
    destruct t as [|l a d r]; try done; simpl in Hh; [lia|].
  simpl in Hs. apply esorted_root in Hs as (Hsl & Hsr & Hl & Hr).
  pose proof (tree_in_root _ _ _ _ _ _ _ Ht) as Ha. simpl in Ha.
  simpl. erewrite rd_bind; [|exact Ha]. erewrite rd_bind; [|exact Ha]. simpl.
  destruct (Z.leb_spec key (rd_key d)) as [Hle|Hgt]; simpl.
  - destruct l as [|ll la ld lr].
    { exists c, Leaf, a, d, r. split_and!; try done. right; by left. }
    destruct (descend _ c false (T ll la ld lr) a d r Ht) as [Ht' ->]; [done|].
    destruct (IH (Fr false a d r :: c) (T ll la ld lr)) as (c' & H'); try done.
    + lia.
    + simpl. by rewrite app_nil_r.
    + simpl. rewrite Forall_cons, Forall_app. split_and!; [simpl; lia| |done].
      eapply Forall_impl; [exact Hr|]. simpl; intros; lia.
    + by exists c'.
  - destruct r as [|rl ra rdd rr].
    { exists c, l, a, d, Leaf. split_and!; try done. right; right. split; [lia|done]. }
    destruct (descend _ c true (T rl ra rdd rr) a d l Ht) as [Ht' ->]; [done|].
    destruct (IH (Fr true a d l :: c) (T rl ra rdd rr)) as (c' & H'); try done.
    + lia.
    + simpl. rewrite !Forall_app, Forall_cons. split_and!; [done| |simpl; lia|done].
      eapply Forall_impl; [exact Hl|]. simpl; intros; lia.
    + by exists c'.
Qed.

(** [p && p->is_red] on a subtree pointer. *)
Lemma red_read s p (u : tree rbdata) :
  rep rb_mk (rb_nodes s) p u → 0 ∉ addrs u →
  (if addr u =? NULL then mret false else rd (addr u) rb_is_red) s =
    Some (is_red rd_red u, s).
Proof.
  destruct u as [|l a d r]; simpl; [done|]. intros (Ha & _) H0.
  rewrite (proj2 (Z.eqb_neq a 0)) by set_solver. unfold rd. by rewrite Ha.
Qed.

(** What the loop of [rb_node_insert] does below a black uncle, for a node on
    the outer and on the inner side of its grandparent. *)
Definition rotate_post s s' tr cf c (t0 : tree rbdata) (ps u : tree rbdata)
    (t' : tree rbdata) (node : tree rbdata) (pd : rbdata) : Prop :=
  rb_at s' tr cf c t' ∧ entries t' = entries t0 ∧
  (∀ n, rbt rd_red node n → is_red rd_red node = true → rd_red pd = true →
     rbt rd_red ps n → is_red rd_red ps = false →
     rbt rd_red u n → is_red rd_red u = false →
     rbt rd_red t' (S n) ∧ is_red rd_red t' = false) ∧
  rb_frame s s' tr (addrs t0 ++ caddrs c).

Lemma insert_rotate_outer s tr cf c dir l a d r p pd ps g gd u :
  rb_at s tr cf c (bin dir (bin dir (T l a d r) p pd ps) g gd u) →
  ∃ s' t', rb_node_insert_rotate tr a p g dir s = Some (0, s') ∧
    rotate_post s s' tr cf c (bin dir (bin dir (T l a d r) p pd ps) g gd u) ps u t' (T l a d r) pd.
Proof.
  intros Hat. assert (a ≠ addr ps) as Hne.
  { destruct (at_tree _ _ _ _ _ Hat) as [Hnd _ _].
    destruct dir; nodup_facts Hnd; ptr_neq. }
  assert (∃ n, rb_nodes s !! p = Some n ∧ rb_child (negb dir) n = addr ps) as (n & Hp & Hn).
  { destruct (at_tree _ _ _ _ _ Hat) as [_ Hr _].
    destruct dir; simpl in Hr; destruct_and?; eauto. }
  unfold rb_node_insert_rotate. rewrite (rd_bind _ _ _ _ _ Hp), Hn.
  rewrite (proj2 (Z.eqb_neq _ _)) by done. rewrite ret_bind.
  destruct dir; simpl in Hat |- *.
  - step_rotate Hat ([] : ctx rbdata) false u g gd ps p pd (T l a d r) s1 Hfr1.
    step_paint Hat ([] : ctx rbdata) false s2 Hfr2.
    step_paint Hat [Fr false p (recolor false pd) (T l a d r)] true s3 Hfr3.
    eexists s3, _. split; [reflexivity|]. split_and!; [exact Hat|entries_tac| |].
    + intros m ???????. simpl. split; [|done]. exists m. by split_and!.
    + frame_chain; addr_sub.
  - step_rotate Hat ([] : ctx rbdata) true u g gd ps p pd (T l a d r) s1 Hfr1.
    step_paint Hat ([] : ctx rbdata) false s2 Hfr2.
    step_paint Hat [Fr true p (recolor false pd) (T l a d r)] true s3 Hfr3.
    eexists s3, _. split; [reflexivity|]. split_and!; [exact Hat|entries_tac| |].
    + intros m ???????. simpl. split; [|done]. exists m. by split_and!.
    + frame_chain; addr_sub.
Qed.

Lemma insert_rotate_inner s tr cf c dir l a d r p pd ps g gd u :
  rb_at s tr cf c (bin dir (bin (negb dir) (T l a d r) p pd ps) g gd u) →
  ∃ s' t', rb_node_insert_rotate tr a p g dir s = Some (0, s') ∧
    rotate_post s s' tr cf c (bin dir (bin (negb dir) (T l a d r) p pd ps) g gd u)
      ps u t' (T l a d r) pd.
Proof.
  intros Hat.
  assert (∃ n, rb_nodes s !! p = Some n ∧ rb_child (negb dir) n = a) as (n & Hp & Hn).
  { destruct (at_tree _ _ _ _ _ Hat) as [_ Hr _].
    destruct dir; simpl in Hr; destruct_and?; eauto. }
  unfold rb_node_insert_rotate. rewrite (rd_bind _ _ _ _ _ Hp), Hn, Z.eqb_refl.
  destruct dir; simpl in Hat |- *; rewrite ST_bind_assoc.
  - step_rotate Hat [Fr true g gd u] true ps p pd r a d l s1 Hfr1.
    erewrite rd_bind; [|by eapply at_root]. simpl.
    step_rotate Hat ([] : ctx rbdata) false u g gd l a d (T r p pd ps) s2 Hfr2.
    step_paint Hat ([] : ctx rbdata) false s3 Hfr3.
    step_paint Hat [Fr false a (recolor false d) (T r p pd ps)] true s4 Hfr4.
    eexists s4, _. split; [reflexivity|]. split_and!; [exact Hat|entries_tac| |].
    + intros m Hrb Hd ?????. simpl in Hrb, Hd. rewrite Hd in Hrb.
      simpl. split; [|done]. exists m. destruct_and?. case_match; by split_and!.
    + frame_chain; addr_sub.
  - step_rotate Hat [Fr false g gd u] false ps p pd l a d r s1 Hfr1.
    erewrite rd_bind; [|by eapply at_root]. simpl.
    step_rotate Hat ([] : ctx rbdata) true u g gd r a d (T ps p pd l) s2 Hfr2.
    step_paint Hat ([] : ctx rbdata) false s3 Hfr3.
    step_paint Hat [Fr true a (recolor false d) (T ps p pd l)] true s4 Hfr4.
    eexists s4, _. split; [reflexivity|]. split_and!; [exact Hat|entries_tac| |].
    + intros m Hrb Hd ?????. simpl in Hrb, Hd. rewrite Hd in Hrb.
      simpl. split; [|done]. exists m. destruct_and?. case_match; by split_and!.
    + frame_chain; addr_sub.
Qed.

Lemma insert_rotate_spec s tr cf c f g l a d r :
  rb_at s tr cf (f :: g :: c) (T l a d r) →
  ∃ s' t', rb_node_insert_rotate tr a (fr_addr f) (fr_addr g) (fr_dir g) s = Some (0, s') ∧
    rotate_post s s' tr cf c (plug1 g (plug1 f (T l a d r))) (fr_sib f) (fr_sib g) t'
      (T l a d r) (fr_data f).
Proof.
  rewrite !rb_at_plug1, !plug1_bin. destruct f as [fd p pd ps], g as [gd ga gdat u].
  cbn [fr_dir fr_addr fr_data fr_sib].
  destruct (decide (fd = gd)) as [->|Hne]; [apply insert_rotate_outer|].
  assert (fd = negb gd) as -> by (by destruct fd, gd). apply insert_rotate_inner.
Qed.

(** Recolouring the parent and the grandparent of the focus. *)
Lemma paint_frame s tr cf f c t b :
  rb_at s tr cf (f :: c) t →
  ∃ s', wr (fr_addr f) (with_red b) s = Some (tt, s') ∧
    rb_at s' tr cf (Fr (fr_dir f) (fr_addr f) (recolor b (fr_data f)) (fr_sib f) :: c) t ∧
    rb_frame s s' tr [fr_addr f].
Proof.
  rewrite rb_at_plug1. intros Hat. setoid_rewrite rb_at_plug1.
  destruct f as [[] p pd ps]; apply (recolor_spec _ _ _ _ _ _ _ _ b Hat).
Qed.

Lemma paint_sibling s tr cf f c t l a d r b :
  rb_at s tr cf (f :: c) t → fr_sib f = T l a d r →
  ∃ s', wr a (with_red b) s = Some (tt, s') ∧
    rb_at s' tr cf (Fr (fr_dir f) (fr_addr f) (fr_data f) (T l a (recolor b d) r) :: c) t ∧
    rb_frame s s' tr [a].
Proof.
  rewrite rb_at_plug1. intros Hat E. setoid_rewrite rb_at_plug1.
  destruct f as [dir p pd ps]; simpl in E; subst ps.
  destruct dir; [apply (paint_in _ _ _ _ [Fr false p pd t] _ _ _ _ b Hat)
                |apply (paint_in _ _ _ _ [Fr true p pd t] _ _ _ _ b Hat)].
Qed.

(** The rebalancing loop started at a red node whose subtree is red-black. *)
Lemma insert_loop_spec cl s tr cf c t n :
  rb_at s tr cf c t → is_red rd_red t = true → rbt rd_red t n →
  rbc rd_red c n false → (length c < cl)%nat →
  ∃ s' t', rb_node_insert_loop cl tr (addr t) s = Some (0, s') ∧ rb_at s' tr cf [] t' ∧
    rb_tree rd_red t' ∧ entries t' = entries (plug c t) ∧
    rb_frame s s' tr (addrs t ++ caddrs c).
Proof.
  revert s c t n. induction cl as [|cl IH]; intros s c t n Hat Hd Hrb Hc Hcl; [lia|].
  destruct t as [|l a d r]; [done|].
  pose proof (at_root _ _ _ _ _ _ _ _ Hat) as Ha.
  simpl. rewrite (rd_bind _ _ _ _ _ Ha); simpl.
  destruct c as [|f c]; simpl.
  { exists s, (T l a d r). split_and!; try done. by exists n. }
  pose proof (at_parent _ _ _ _ _ _ Hat) as Hf.
  rewrite (proj2 (Z.eqb_neq _ _)) by (eapply tree_in_caddr, at_tree; exact Hat).
  rewrite (rd_bind _ _ _ _ _ Hf).
  assert (rb_is_red (mk_frame rb_mk (caddr c) f (addr (T l a d r))) = rd_red (fr_data f)) as ->
    by (by destruct f as [[] ???]).
  simpl in Hc. destruct (rd_red (fr_data f)) eqn:Hfr; simpl.
  2: { exists s, (plug (f :: c) (T l a d r)). split_and!; try done.
       - by apply rb_at_top in Hat.
       - apply rb_tree_plug. exists n. split; [done|]. simpl. by rewrite Hfr. }
  destruct Hc as (_ & Hsr & Hsb & Hc).
  rewrite (rd_bind _ _ _ _ _ Hf).
  assert (rb_parent (mk_frame rb_mk (caddr c) f (addr (T l a d r))) = caddr c) as ->
    by (by destruct f as [[] ???]).
  destruct c as [|g c]; simpl.
  { destruct (paint_frame _ _ _ _ _ _ false Hat) as (s' & Hw & Hat' & Hfr').
    rewrite (ST_bind_run _ _ _ _ _ Hw). eexists s', _. split_and!.
    - done.
    - apply rb_at_top in Hat'. exact Hat'.
    - apply rb_tree_plug. exists n. split; [done|]. simpl. done.
    - destruct f as [[] ???]; entries_tac.
    - eapply rb_frame_mono; [exact Hfr'|]. set_solver. }
  simpl in Hc. destruct (rd_red (fr_data g)) eqn:Hgr; [by destruct Hc as [? _]|].
  destruct Hc as [Hub Hc].
  pose proof Hat as HatN. rewrite rb_at_plug1 in Hat.
  rewrite (proj2 (Z.eqb_neq _ _)) by (eapply tree_in_caddr, at_tree; exact Hat).
  assert (rbnode_dir (fr_addr f) s = Some (fr_dir g, s)) as Hdir
    by (destruct f as [[] ???]; eapply rbnode_dir_focus; exact Hat).
  rewrite (ST_bind_run _ _ _ _ _ Hdir). clear Hdir.
  rewrite (rd_bind _ _ _ _ _ (at_parent _ _ _ _ _ _ Hat)).
  assert (rb_child (negb (fr_dir g)) (mk_frame rb_mk (caddr c) g (addr (plug1 f (T l a d r))))
    = addr (fr_sib g)) as -> by (by destruct g as [[] ???]).
  erewrite ST_bind_run; [|apply (red_read _ (fr_addr g))].
  2: by destruct (at_tree _ _ _ _ _ Hat) as [_ _ (_ & ? & _)].
  2: { destruct (at_tree _ _ _ _ _ Hat) as [Hnd _ _]. by nodup_facts Hnd. }
  destruct (is_red rd_red (fr_sib g)) eqn:Hu; simpl.
  - destruct g as [gdir ga gdat [|ul ua ud ur]]; [done|].
    destruct (paint_frame _ _ _ _ _ _ false HatN) as (s1 & Hw1 & Hat1 & Hfr1).
    rewrite (ST_bind_run _ _ _ _ _ Hw1). rewrite rb_at_plug1 in Hat1.
    destruct (paint_sibling _ _ _ _ _ _ _ _ _ _ false Hat1 eq_refl) as (s2 & Hw2 & Hat2 & Hfr2).
    simpl. rewrite (ST_bind_run _ _ _ _ _ Hw2).
    destruct (paint_frame _ _ _ _ _ _ true Hat2) as (s3 & Hw3 & Hat3 & Hfr3).
    simpl in Hw3. rewrite (ST_bind_run _ _ _ _ _ Hw3). rewrite rb_at_plug1 in Hat3.
    destruct (IH _ _ _ (S n) Hat3) as (s' & t' & Hrun & Hat' & Hrb' & He & Hfr').
    + by rewrite is_red_plug1.
    + apply rbt_plug1. cbn [fr_data fr_sib recolor rd_red]. rewrite is_red_plug1.
      split_and!; [done..| |apply rbt_plug1; by exists n].
      simpl in Hu, Hub. rewrite Hu in Hub. exists n. naive_solver.
    + done.
    + simpl in Hcl. lia.
    + rewrite addr_plug1 in Hrun. exists s', t'. split_and!; try done.
      * rewrite He. destruct f as [[] ???], gdir; entries_tac.
      * frame_chain; addr_sub.
  - destruct (insert_rotate_spec _ _ _ _ _ _ _ _ _ _ HatN)
      as (s' & t' & Hrun & Hat' & He & Hbal & Hfr').
    exists s', (plug c t'). split_and!; [done|by apply rb_at_top in Hat'| | |].
    + apply rb_tree_plug. exists (S n).
      by destruct (Hbal n) as [? ->].
    + by rewrite !entries_plug, He, <-!entries_plug.
    + eapply rb_frame_mono; [exact Hfr'|addr_sub].
Qed.
End insert.
