(* ===== verification/RbtreeLink.v ===== *)
(** * Red-black tree: invariant of a whole tree, linking and replacing nodes

    The representation invariant [rb_ok] of a [struct rbtree], where a search
    ends in it, and the steps of an insertion: attaching a fresh node and
    rebalancing, replacing a node by another, pushing a node on the free
    list. *)

From S2P Require Import Prelude Slab ArenaTree RedBlack Rbtree RbtreeBase RbtreeInsert.

(** Keys are in order, and distinct unless the tree takes duplicates. *)
Definition keys_ok (mode : rbtree_insert_mode) (l : list (Z * Z * Z)) : Prop :=
  key_sorted l ∧ (mode ≠ RB_DUPLICATE → NoDup (ekey <$> l)).

(** The free list: nodes chained through their parent field. *)
Fixpoint chain (h : gmap Z rbnode) (p : Z) (fl : list Z) : Prop :=
  match fl with
  | [] => p = NULL
  | a :: fl' => p = a ∧ a ≠ NULL ∧ ∃ n, h !! a = Some n ∧ chain h (rb_parent n) fl'
  end.

Section link.
Context {A : Type} `{SlabAllocator A}.
Implicit Types (s : rb_state A) (c : ctx rbdata) (t l r : tree rbdata).

Abbreviation klt k := (Forall (λ e : Z * rbdata, rd_key e.2 < k)).
Abbreviation kge k := (Forall (λ e : Z * rbdata, k ≤ rd_key e.2)).
Abbreviation kgt k := (Forall (λ e : Z * rbdata, k < rd_key e.2)).
Abbreviation esorted := (StronglySorted (λ x y : Z * rbdata, rd_key x.2 ≤ rd_key y.2)).

Lemma kgt_kge k (m : list (Z * rbdata)) : kgt k m → kge k m.
Proof. intros Hm. eapply Forall_impl; [exact Hm|]. simpl; lia. Qed.

(** A sorted tree is sorted at every focus. *)
Lemma esorted_focus c t : esorted (elems (plug c t)) → esorted (elems t).
Proof. rewrite elems_plug, !StronglySorted_app. tauto. Qed.

(** A search that stops at a node with another key stops next to the free
    place for the key, and everything before it is smaller, everything after
    it is not. *)
Lemma stop_split b key c l a d r :
  esorted (elems (plug c (T l a d r))) → klt key (cpre c) → kge key (cpost c) →
  find_stop b key l d r → (b = true → rd_key d ≠ key) →
  let dir := negb (key <=? rd_key d) in
  ∃ sib, T l a d r = bin dir Leaf a d sib ∧
    klt key (cpre (Fr dir a d sib :: c)) ∧ kge key (cpost (Fr dir a d sib :: c)).
Proof.
  intros Hs%esorted_focus Hpre Hpost Hstop Hb. simpl in Hs.
  apply esorted_root in Hs as (_ & _ & Hl & Hr).
  destruct (Z.leb_spec key (rd_key d)); simpl.
  - assert (l = Leaf) as ->.
    { destruct Hstop as [[-> ?]|[[? ?]|[? ?]]]; [by destruct Hb|done|lia]. }
    exists r. rewrite app_nil_r, Forall_cons, Forall_app. split_and!; try done.
    eapply Forall_impl; [exact Hr|]. simpl; intros; lia.
  - assert (r = Leaf) as ->.
    { destruct Hstop as [[-> ?]|[[? ?]|[? ?]]]; [by destruct Hb|destruct b; lia|done]. }
    exists l. rewrite !Forall_app, Forall_cons. split_and!; try done.
    eapply Forall_impl; [exact Hl|]. simpl; intros; lia.
Qed.

(** What [rbnode_find] returns on a nonempty sorted tree. *)
Lemma rbnode_find_spec cl s t key :
  tree_in rb_mk (rb_nodes s) [] t → t ≠ Leaf → (height t ≤ cl)%nat → key_sorted (entries t) →
  ∃ c l a d r, rbnode_find cl (addr t) key s = Some (a, s) ∧ t = plug c (T l a d r) ∧
    klt key (cpre c) ∧ kgt key (cpost c) ∧ find_stop true key l d r.
Proof.
  intros Ht Hne Hcl Hs%key_sorted_elems. unfold rbnode_find.
  rewrite (proj2 (Z.eqb_neq _ _)) by (by eapply tree_in_addr).
  by apply (rbnode_find_loop_spec cl []); try apply Forall_nil_2.
Qed.

Lemma rbnode_lub_spec cl s t key :
  tree_in rb_mk (rb_nodes s) [] t → t ≠ Leaf → (height t ≤ cl)%nat → key_sorted (entries t) →
  ∃ c l a d r, rbnode_least_upper_bound cl (addr t) key s = Some (a, s) ∧
    t = plug c (T l a d r) ∧ klt key (cpre c) ∧ kge key (cpost c) ∧ find_stop false key l d r.
Proof.
  intros Ht Hne Hcl Hs%key_sorted_elems. unfold rbnode_least_upper_bound.
  rewrite (proj2 (Z.eqb_neq _ _)) by (by eapply tree_in_addr).
  by apply (rbnode_lub_loop_spec cl []); try apply Forall_nil_2.
Qed.

(** Membership of a key, read off the node the search stops at. *)
Lemma find_absent key c l a d r :
  key_sorted (entries (plug c (T l a d r))) → klt key (cpre c) → kgt key (cpost c) →
  find_stop true key l d r → rd_key d ≠ key →
  key ∉ ekey <$> entries (plug c (T l a d r)).
Proof.
  intros Hs%key_sorted_elems Hpre Hpost Hstop Hne.
  apply esorted_focus in Hs as Hf. simpl in Hf. apply esorted_root in Hf as (_ & _ & Hl & Hr).
  assert (Forall (λ e, rd_key e.2 ≠ key) (elems (plug c (T l a d r)))) as Hall.
  { rewrite elems_plug; simpl. rewrite !Forall_app, Forall_cons. split_and!; try done.
    1,4: eapply Forall_impl; [eassumption|]; simpl; lia.
    all: destruct Hstop as [[_ ?]|[[? ->]|[? ->]]]; try done; try constructor.
    all: eapply Forall_impl; [eassumption|]; simpl; lia. }
  unfold entries. rewrite <-list_fmap_compose. intros (e & -> & Hin)%list_elem_of_fmap.
  rewrite Forall_forall in Hall. by apply (Hall e Hin).
Qed.

(** Linking a fresh node below the node a search stopped at. *)
Lemma link_spec s tr cf c dir p d sib nd k v :
  rb_at s tr cf c (bin dir Leaf p d sib) →
  rb_nodes s !! nd = Some (Rbnode 0 0 0 k v true) →
  nd ≠ 0 → nd ∉ addrs (bin dir Leaf p d sib) ++ caddrs c →
  ∃ s', (wr nd (with_parent p);; wr p (with_child dir nd)) s = Some (tt, s') ∧
    rb_at s' tr cf (Fr dir p d sib :: c) (T Leaf nd (RbData k v true) Leaf) ∧
    rb_frame s s' tr [nd; p].
Proof.
  intros [Hh [Hnd Hr Hc]] Hn Hn0 Hfresh.
  assert (NoDup (0 :: nd :: addrs (bin dir Leaf p d sib) ++ caddrs c)) as Hnd2.
  { apply NoDup_cons in Hnd as [? ?]. apply NoDup_cons. split; [set_solver|by constructor]. }
  destruct dir; simpl in Hr; destruct_and?; pose proof Hnd2 as Hnd'; nodup_facts Hnd'.
  all: unfold wr, mbind, ST_bind; heap_run; eexists; split; [reflexivity|].
  all: split; [split; [by heap_run|split]|split]; try done.
  all: try (intros x Hx; nodup_facts Hx; by heap_run).
  all: try layout_tac.
  simpl in Hnd2 |- *. by rewrite app_nil_r in Hnd2.
Qed.

(** ** The invariant *)
Record rb_ok s (tr : Z) (cf : rbconf) (fl : list Z) t : Prop := RbOk {
  ok_null : tr ≠ NULL;
  ok_at : rb_at s tr cf [] t;
  ok_rb : rb_tree rd_red t;
  ok_keys : keys_ok (cf_insert cf) (entries t);
  ok_free : chain (rb_nodes s) (cf_freelist cf) fl;
  ok_disj : NoDup (addrs t ++ fl);
}.

Lemma ok_height s tr cf fl t cl :
  rb_ok s tr cf fl t → budget cl (length (entries t)) → (S (height t) < cl)%nat.
Proof.
  intros Hok Hcl. pose proof (rb_tree_height _ _ (ok_rb _ _ _ _ _ Hok)).
  unfold budget, entries in Hcl. rewrite length_fmap in Hcl. lia.
Qed.

(** Attaching a fresh red node at the place a search found, then rebalancing. *)
Lemma attach_spec cl s tr cf c dir p d sib nd k v :
  rb_at s tr cf c (bin dir Leaf p d sib) → rb_tree rd_red (plug c (bin dir Leaf p d sib)) →
  rb_nodes s !! nd = Some (Rbnode 0 0 0 k v true) →
  nd ≠ 0 → nd ∉ addrs (bin dir Leaf p d sib) ++ caddrs c →
  klt k (cpre (Fr dir p d sib :: c)) → kge k (cpost (Fr dir p d sib :: c)) →
  (S (height (plug c (bin dir Leaf p d sib))) < cl)%nat →
  ∃ s' t', (wr nd (with_parent p);; wr p (with_child dir nd);; rb_node_insert_loop cl tr nd) s
      = Some (0, s') ∧
    rb_at s' tr cf [] t' ∧ rb_tree rd_red t' ∧
    entries t' = insert_entry (nd, k, v) (entries (plug c (bin dir Leaf p d sib))) ∧
    rb_frame s s' tr (nd :: addrs (plug c (bin dir Leaf p d sib))).
Proof.
  intros Hat Hrb Hn Hn0 Hfresh Hpre Hpost Hcl.
  destruct (link_spec _ _ _ _ _ _ _ _ _ _ _ Hat Hn Hn0 Hfresh) as (s1 & Hw & Hat1 & Hfr1).
  assert (plug c (bin dir Leaf p d sib) = plug (Fr dir p d sib :: c) Leaf) as E
    by (cbn [plug]; by rewrite plug1_bin).
  rewrite E in *. apply rb_tree_plug in Hrb as (n & -> & Hc).
  destruct (insert_loop_spec cl _ _ _ _ _ 0 Hat1) as (s' & t' & Hrun & Hat' & Hrb' & He & Hfr').
  - done.
  - done.
  - by apply Hc.
  - pose proof (length_ctx_height (Fr dir p d sib :: c) Leaf). lia.
  - exists s', t'. split_and!; try done.
    + rewrite <-ST_bind_assoc. by rewrite (ST_bind_run _ _ _ _ _ Hw).
    + rewrite He, !entries_plug. simpl.
      rewrite insert_entry_split; [by entries_tac|by apply Forall_fmap..].
    + frame_chain; intros x; rewrite addrs_plug; set_solver.
Qed.

(** [rbnode_replace] puts an unlinked node in the place and colour of an
    existing one. *)
Lemma replace_spec s tr cf c l e d r nd k v b :
  rb_at s tr cf c (T l e d r) → rb_nodes s !! nd = Some (Rbnode 0 0 0 k v b) →
  nd ≠ 0 → nd ∉ addrs (T l e d r) ++ caddrs c →
  ∃ s', rbnode_replace tr e nd s = Some (0, s') ∧
    rb_at s' tr cf c (T l nd (RbData k v (rd_red d)) r) ∧
    rb_nodes s' !! e = rb_nodes s !! e ∧
    rb_frame s s' tr (nd :: addrs l ++ addrs r ++ caddrs c).
Proof.
  intros [Hh [Hnd Hr Hc]] Hn Hn0 Hfresh.
  assert (NoDup (0 :: nd :: addrs (T l e d r) ++ caddrs c)) as Hnd2.
  { apply NoDup_cons in Hnd as [? ?]. apply NoDup_cons. split; [set_solver|by constructor]. }
  assert (NoDup (0 :: nd :: (addrs l ++ addrs r) ++ caddrs c)) as Hnew.
  { simpl in Hnd2. rewrite !NoDup_cons, !not_elem_of_cons in *. tauto. }
  clear Hnd Hfresh.
  destruct l as [|ll la ld lr], r as [|rl ra rdd rr], c as [|[[] ca cd cs] c];
    simpl in Hh, Hr, Hc; destruct_and?; pose proof Hnd2 as Hnd'; nodup_facts Hnd'.
  all: unfold rbnode_replace, rbnode_adjust_neighbors, rbnode_dir, rd, wr, rdt, wrt,
    mbind, ST_bind, mret, ST_ret.
  all: heap_run; eexists; split; [reflexivity|].
  all: split_and!; [split; [by heap_run|split]|by heap_run|split].
  all: try layout_tac.
  all: try (intros ? Hx; nodup_facts Hx; by heap_run).
  all: try (intros ? ?; by heap_run).
  all: exact Hnew.
Qed.

(** A state change outside the free list keeps it. *)
Lemma chain_agree (h h' : gmap Z rbnode) p fl :
  (∀ a, a ∈ fl → h' !! a = h !! a) → chain h p fl → chain h' p fl.
Proof.
  revert p; induction fl as [|a fl IH]; intros p Heq; simpl; [done|].
  intros (-> & Ha & n & Hn & Hc). split_and!; [done..|]. exists n. split.
  - rewrite Heq; [done|set_solver].
  - apply IH; [|done]. intros b Hb. apply Heq. set_solver.
Qed.

(** [rb_node_free] pushes a node on the free list. *)
Lemma rb_node_free_spec cl s tr cf p nd n :
  rb_trees s !! tr = Some (rb_hdr cf p) → rb_nodes s !! nd = Some n →
  rb_node_free cl tr nd s =
    Some (0, RbState (<[nd := with_parent (cf_freelist cf) n]> (rb_nodes s))
               (<[tr := rb_hdr (RbConf nd (cf_alloc cf) (cf_insert cf)) p]> (rb_trees s))
               (rb_slab s)).
Proof.
  intros Ht Hn. destruct cl; simpl;
    unfold cmpxchg_freelist, rdt, wrt, wr, mbind, ST_bind, mret, ST_ret; heap_run;
    rewrite ?Z.eqb_refl; by heap_run.
Qed.
End link.
