(* ===== verification/RbtreeRebalance.v ===== *)
(** * Red-black tree: removal's switch and rebalancing

    Moving a node with two children to its in-order successor's place, and restoring the black heights after a
    removal. *)

From S2P Require Import Prelude Slab ArenaTree RedBlack Rbtree RbtreeBase RbtreeInsert.

(** * Red-black tree: switching a node with its successor

    [rb_node_remove] first moves a node with two children to the place of its
    in-order successor; the two nodes trade links and colours and keep their
    key and value. *)

Section switch.
Context {A : Type} `{SlabAllocator A}.
Implicit Types (s : rb_state A) (c : ctx rbdata) (t l r : tree rbdata).

(** A path inside a tree, laid out below the parent [p]: [hole] is the
    address at its lower end. *)
Definition capar c (p : Z) : Z := match c with [] => p | f :: _ => fr_addr f end.

Fixpoint seg (h : gmap Z rbnode) (p : Z) c (hole : Z) : Prop :=
  match c with
  | [] => True
  | f :: c' =>
      h !! fr_addr f = Some (mk_frame rb_mk (capar c' p) f hole) ∧
      rep rb_mk h (fr_addr f) (fr_sib f) ∧ seg h p c' (fr_addr f)
  end.

Lemma rep_plug h p c t :
  rep rb_mk h p (plug c t) ↔ rep rb_mk h (capar c p) t ∧ seg h p c (addr t).
Proof.
  revert t; induction c as [|f c IH]; intros t; simpl; [tauto|].
  rewrite IH, addr_plug1. destruct f as [[] a d u]; simpl; tauto.
Qed.

Lemma seg_insert h p c hole a n :
  a ∉ caddrs c → seg h p c hole → seg (<[a := n]> h) p c hole.
Proof.
  revert hole; induction c as [|f c IH]; intros hole; simpl; [done|].
  rewrite not_elem_of_cons, not_elem_of_app. intros (? & ? & ?) (Hf & Hs & Hc). split_and!.
  - by rewrite lookup_insert_ne.
  - by apply rep_insert.
  - by apply IH.
Qed.

Ltac switch_run :=
  unfold rbnode_switch, rbnode_swap_values, rb_swap, rbnode_fixup_pointers,
    rbnode_adjust_neighbors, rbnode_dir, rd, wr, rdt, wrt, mbind, ST_bind, mret, ST_ret.

(** The successor is the right child. *)
Lemma switch_adjacent s tr cf c ll la ld lr a da b db r :
  let l := T ll la ld lr in
  rb_at s tr cf c (T l a da (T Leaf b db r)) →
  ∃ s', rbnode_switch tr b a s = Some (tt, s') ∧
    rb_at s' tr cf c
      (T l b (recolor (rd_red da) db) (T Leaf a (recolor (rd_red db) da) r)) ∧
    rb_frame s s' tr (addrs (T l a da (T Leaf b db r)) ++ caddrs c).
Proof.
  intros l [Hh [Hnd Hr Hc]].
  assert (NoDup (0 :: addrs (T l b (recolor (rd_red da) db)
    (T Leaf a (recolor (rd_red db) da) r)) ++ caddrs c)) as Hnd2.
  { nodup_facts Hnd. nodup_goal. }
  destruct c as [|[[] ca cd cs] c], r as [|rl ra rdd rr];
    simpl in Hh, Hr, Hc; destruct_and?; pose proof Hnd as Hnd'; nodup_facts Hnd'.
  all: switch_run; heap_run; eexists; split; [reflexivity|]; split; [split; [by heap_run|split]|split].
  all: try exact Hnd2.
  all: try layout_tac.
  all: try (intros ? ?; by heap_run).
  all: try (intros e He; nodup_facts He; by heap_run).
Qed.

(** The successor is the left child of the right child. *)
Lemma switch_near s tr cf c ll la ld lr a da b db r q dq u :
  let l := T ll la ld lr in
  rb_at s tr cf c (T l a da (T (T Leaf b db r) q dq u)) →
  ∃ s', rbnode_switch tr b a s = Some (tt, s') ∧
    rb_at s' tr cf c
      (T l b (recolor (rd_red da) db) (T (T Leaf a (recolor (rd_red db) da) r) q dq u)) ∧
    rb_frame s s' tr (addrs (T l a da (T (T Leaf b db r) q dq u)) ++ caddrs c).
Proof.
  intros l [Hh [Hnd Hr Hc]].
  assert (NoDup (0 :: addrs (T l b (recolor (rd_red da) db)
    (T (T Leaf a (recolor (rd_red db) da) r) q dq u)) ++ caddrs c)) as Hnd2.
  { nodup_facts Hnd. nodup_goal. }
  destruct c as [|[[] ca cd cs] c], r as [|rl ra rdd rr];
    simpl in Hh, Hr, Hc; destruct_and?; pose proof Hnd as Hnd'; nodup_facts Hnd'.
  all: switch_run; heap_run; eexists; split; [reflexivity|]; split; [split; [by heap_run|split]|split].
  all: try exact Hnd2.
  all: try layout_tac.
  all: try (intros ? ?; by heap_run).
  all: try (intros e He; nodup_facts He; by heap_run).
Qed.

Ltac far_tac :=
  simpl; repeat match goal with |- _ ∧ _ => split end; try done;
  first [ heap_run; reflexivity | rep_tac
        | repeat (apply seg_insert; [first [assumption | set_solver]|]); assumption ].

(** The successor is further down the left spine of the right child. *)
Lemma switch_far s tr cf c ll la ld lr a da b db r q dq u mid x dx w :
  let l := T ll la ld lr in
  rb_at s tr cf c (T l a da (T (plug mid (T (T Leaf b db r) q dq u)) x dx w)) →
  ∃ s', rbnode_switch tr b a s = Some (tt, s') ∧
    rb_at s' tr cf c
      (T l b (recolor (rd_red da) db)
        (T (plug mid (T (T Leaf a (recolor (rd_red db) da) r) q dq u)) x dx w)) ∧
    rb_frame s s' tr (addrs (T l a da (T (plug mid (T (T Leaf b db r) q dq u)) x dx w)) ++ caddrs c).
Proof.
  intros l [Hh [Hnd Hr Hc]].
  simpl in Hr. rewrite !rep_plug in Hr. rewrite !addr_plug in Hr.
  simpl in Hnd. rewrite addrs_plug in Hnd.
  assert (NoDup (0 :: addrs (T l b (recolor (rd_red da) db)
        (T (plug mid (T (T Leaf a (recolor (rd_red db) da) r) q dq u)) x dx w)) ++ caddrs c)) as Hnd2.
  { simpl. rewrite addrs_plug. nodup_facts Hnd. nodup_goal. }
  destruct c as [|[[] ca cd cs] c], r as [|rl ra rdd rr];
    simpl in Hh, Hr, Hc; destruct_and?; pose proof Hnd as Hnd'; nodup_facts Hnd'.
  all: switch_run; heap_run; eexists; split; [reflexivity|]; split; [split; [by heap_run|split]|split].
  all: try exact Hnd2.
  all: try (simpl; rewrite ?rep_plug, ?addr_plug; far_tac).
  all: try (intros ? ?; by heap_run).
  all: intros e He; simpl in He; rewrite addrs_plug in He; nodup_facts He; by heap_run.
Qed.

Lemma switch_spec s tr cf c l a da c' b db r :
  rb_at s tr cf c (T l a da (plug c' (T Leaf b db r))) → l ≠ Leaf →
  Forall (λ f, fr_dir f = false) c' →
  ∃ s', rbnode_switch tr b a s = Some (tt, s') ∧
    rb_at s' tr cf c
      (T l b (recolor (rd_red da) db) (plug c' (T Leaf a (recolor (rd_red db) da) r))) ∧
    rb_frame s s' tr (addrs (T l a da (plug c' (T Leaf b db r))) ++ caddrs c).
Proof.
  intros Hat Hl Hall. destruct l as [|ll la ld lr]; [done|].
  destruct c' as [|[fdir q dq u] c']; [by apply switch_adjacent|].
  apply Forall_cons in Hall as [Hf Hall]. simpl in Hf; subst fdir.
  destruct c' as [|[gdir x dx w] mid _] using rev_ind; [by apply switch_near|].
  apply Forall_app in Hall as [_ [Hg _]%Forall_cons]. simpl in Hg; subst gdir.
  change (?f :: mid ++ ?g) with ([f] ++ mid ++ g) in *. rewrite !plug_app in *.
  by apply switch_far.
Qed.
End switch.

(** * Red-black tree: rebalancing after a removal

    The rebalancing loop of [rb_node_remove] restores the red-black
    discipline after a black node was unlinked. *)

Section remove.
Context {A : Type} `{SlabAllocator A}.
Implicit Types (s : rb_state A) (c : ctx rbdata) (t l r : tree rbdata).

Abbreviation RB := (rbt rd_red).
Abbreviation black t := (is_red rd_red t = false).
Abbreviation red t := (is_red rd_red t = true).

(** Reading the colour of a subtree of the focused tree. *)
Lemma red_in s tr cf c c1 t :
  rb_at s tr cf c (plug c1 t) →
  (if addr t =? NULL then mret false else rd (addr t) rb_is_red) s =
    Some (is_red rd_red t, s).
Proof.
  intros Hat. apply rb_at_plug in Hat. destruct (at_tree _ _ _ _ _ Hat) as [Hnd Hr _].
  eapply red_read; [exact Hr|]. apply NoDup_cons in Hnd as [? _]. set_solver.
Qed.

(** Reading a node of the focused tree. *)
Lemma cell_in s tr cf c c1 l a d r :
  rb_at s tr cf c (plug c1 (T l a d r)) →
  rb_nodes s !! a = Some (rb_mk (caddr (c1 ++ c)) (addr l) (addr r) d).
Proof. intros Hat. apply rb_at_plug in Hat. by apply at_root in Hat. Qed.

Lemma cell_bin s tr cf c c1 dir x a d y :
  rb_at s tr cf c (plug c1 (bin dir x a d y)) →
  ∃ n, rb_nodes s !! a = Some n ∧ rb_child dir n = addr x ∧ rb_child (negb dir) n = addr y ∧
    rb_is_red n = rd_red d ∧ rb_parent n = caddr (c1 ++ c).
Proof. destruct dir; intros Hat%cell_in; by eexists. Qed.

Lemma paint_bin s tr cf c c1 dir x a d y b :
  rb_at s tr cf c (plug c1 (bin dir x a d y)) →
  ∃ s', wr a (with_red b) s = Some (tt, s') ∧
    rb_at s' tr cf c (plug c1 (bin dir x a (recolor b d) y)) ∧ rb_frame s s' tr [a].
Proof. destruct dir; apply paint_in. Qed.

Lemma entries_plug1_cong f t t' :
  entries t = entries t' → entries (plug1 f t) = entries (plug1 f t').
Proof.
  intros E. change (entries (plug [f] t) = entries (plug [f] t')). by rewrite !entries_plug, E.
Qed.

(** The last step of the rebalancing when the sibling's distant child is red. *)
Lemma tail_distant s tr cf c dir t p pd x q qd y z zd w :
  rb_at s tr cf c (bin dir t p pd (bin dir x q qd (bin dir y z zd w))) →
  ∃ s', (rbnode_rotate tr p dir;;
         pred ← rd p rb_is_red;
         wr q (with_red pred);;
         wr p (with_red false);;
         wr z (with_red false);;
         mret 0) s = Some (0, s') ∧
    rb_at s' tr cf c
      (bin dir (bin dir t p (recolor false pd) x) q (recolor (rd_red pd) qd)
         (bin dir y z (recolor false zd) w)) ∧
    rb_frame s s' tr (addrs (bin dir t p pd (bin dir x q qd (bin dir y z zd w))) ++ caddrs c).
Proof.
  intros Hat.
  destruct (rotate_in _ _ _ _ [] dir t p pd x q qd _ Hat) as (s1 & Hw1 & Hat1 & Hfr1).
  rewrite (ST_bind_run _ _ _ _ _ Hw1).
  destruct (cell_bin s1 tr cf c [Fr dir q qd (bin dir y z zd w)] dir t p pd x) as (n & Hp & _ & _ & Hred & _).
  { rewrite plug_bin1. exact Hat1. }
  rewrite (rd_bind _ _ _ _ _ Hp), Hred.
  destruct (paint_bin _ _ _ _ [] _ _ _ _ _ (rd_red pd) Hat1) as (s2 & Hw2 & Hat2 & Hfr2).
  rewrite (ST_bind_run _ _ _ _ _ Hw2).
  destruct (paint_bin s2 tr cf c [Fr dir q (recolor (rd_red pd) qd) (bin dir y z zd w)] dir t p pd x false)
    as (s3 & Hw3 & Hat3 & Hfr3).
  { rewrite plug_bin1. exact Hat2. }
  rewrite (ST_bind_run _ _ _ _ _ Hw3). rewrite plug_bin1 in Hat3.
  destruct (paint_bin s3 tr cf c [Fr (negb dir) q (recolor (rd_red pd) qd) (bin dir t p (recolor false pd) x)]
    dir y z zd w false) as (s4 & Hw4 & Hat4 & Hfr4).
  { rewrite plug_bin1, bin_flip. exact Hat3. }
  rewrite (ST_bind_run _ _ _ _ _ Hw4). rewrite plug_bin1, bin_flip in Hat4.
  exists s4. split_and!; [done|exact Hat4|].
  destruct dir; frame_chain; addr_sub.
Qed.

(** When only the close child is red, a rotation at the sibling brings the
    tree into that shape. *)
Lemma tail_close s tr cf c dir t p pd x1 k kd x2 q qd y :
  rb_at s tr cf c (bin dir t p pd (bin dir (bin dir x1 k kd x2) q qd y)) →
  ∃ s', (rbnode_rotate tr q (negb dir);;
         wr q (with_red true);;
         wr k (with_red false);;
         mret (k, q)) s = Some (k, q, s') ∧
    rb_at s' tr cf c (bin dir t p pd (bin dir x1 k (recolor false kd)
                        (bin dir x2 q (recolor true qd) y))) ∧
    rb_frame s s' tr (addrs (bin dir t p pd (bin dir (bin dir x1 k kd x2) q qd y)) ++ caddrs c).
Proof.
  intros Hat.
  destruct (rotate_in s tr cf c [Fr (negb dir) p pd t] (negb dir) y q qd x2 k kd x1)
    as (s1 & Hw1 & Hat1 & Hfr1).
  { by rewrite plug_bin1, !bin_flip. }
  rewrite (ST_bind_run _ _ _ _ _ Hw1). rewrite plug_bin1, !bin_flip in Hat1, Hfr1.
  destruct (paint_bin s1 tr cf c [Fr (negb dir) k kd x1; Fr (negb dir) p pd t] dir x2 q qd y true)
    as (s2 & Hw2 & Hat2 & Hfr2).
  { change (plug [?f; ?g] ?u) with (plug [g] (plug [f] u)). by rewrite !plug_bin1, !bin_flip. }
  change (plug [?f; ?g] ?u) with (plug [g] (plug [f] u)) in Hat2.
  rewrite (ST_bind_run _ _ _ _ _ Hw2). rewrite !plug_bin1, !bin_flip in Hat2.
  destruct (paint_bin s2 tr cf c [Fr (negb dir) p pd t] dir x1 k kd (bin dir x2 q (recolor true qd) y) false)
    as (s3 & Hw3 & Hat3 & Hfr3).
  { by rewrite plug_bin1, bin_flip. }
  rewrite (ST_bind_run _ _ _ _ _ Hw3). rewrite plug_bin1, bin_flip in Hat3.
  exists s3. split_and!; [done|exact Hat3|]. destruct dir; frame_chain; addr_sub.
Qed.

(** The parent, sibling and direction the tail of [rb_node_remove] works on. *)
Lemma tail_locals s tr cf c dir t p pd u initial node sib0 :
  rb_at s tr cf c (bin dir t p pd u) → sib0 = addr u →
  (node = initial ∨ (t ≠ Leaf ∧ node = addr t)) →
  (if node =? initial then mret (dir, p, sib0) else
     dir ← rbnode_dir node;
     parent ← rd node rb_parent;
     sibling ← rd parent (rb_child (negb dir));
     mret (dir, parent, sibling)) s = Some (dir, p, addr u, s).
Proof.
  intros Hat -> Hnode. destruct (Z.eqb_spec node initial) as [|Hne]; [done|].
  destruct Hnode as [|[Hne' ->]]; [done|]. destruct t as [|l a d r]; [done|].
  assert (rb_at s tr cf (Fr dir p pd u :: c) (T l a d r)) as Hf.
  { apply rb_at_plug1. by rewrite plug1_bin. }
  rewrite (ST_bind_run _ _ _ _ _ (rbnode_dir_focus _ _ _ _ _ _ _ _ _ Hf)).
  simpl. rewrite (rd_bind _ _ _ _ _ (at_root _ _ _ _ _ _ _ _ Hf)). simpl.
  rewrite (rd_bind _ _ _ _ _ (at_parent _ _ _ _ _ _ Hf)). by destruct dir.
Qed.

Lemma remove_tail_spec s tr cf c dir t p pd x q qd y initial node n :
  rb_at s tr cf c (bin dir t p pd (bin dir x q qd y)) →
  (node = initial ∨ (t ≠ Leaf ∧ node = addr t)) →
  (red x ∨ red y) → RB t n → black t → RB x n → RB y n →
  ∃ s' t', rb_node_remove_tail tr initial node p q dir s = Some (0, s') ∧
    rb_at s' tr cf c t' ∧ entries t' = entries (bin dir t p pd (bin dir x q qd y)) ∧
    RB t' (if rd_red pd then S n else S (S n)) ∧ is_red rd_red t' = rd_red pd ∧
    rb_frame s s' tr (addrs (bin dir t p pd (bin dir x q qd y)) ++ caddrs c).
Proof.
  intros Hat Hnode Hred Ht Htb Hx Hy. unfold rb_node_remove_tail.
  rewrite (ST_bind_run _ _ _ _ _ (tail_locals _ _ _ _ _ _ _ _ _ initial node q Hat
     (eq_sym (addr_bin _ _ _ _ _)) Hnode)). rewrite addr_bin.
  destruct (cell_bin s tr cf c [Fr (negb dir) p pd t] dir x q qd y) as (nq & Hq & Hcx & Hcy & _ & _).
  { by rewrite plug_bin1, bin_flip. }
  rewrite (rd_bind _ _ _ _ _ Hq), (rd_bind _ _ _ _ _ Hq), Hcx, Hcy.
  rewrite (ST_bind_run _ _ _ _ _ (red_in s tr cf c [Fr (negb dir) q qd x; Fr (negb dir) p pd t] y
    ltac:(change (plug [?f; ?g] ?u) with (plug [g] (plug [f] u)); by rewrite !plug_bin1, !bin_flip))).
  destruct (is_red rd_red y) eqn:Ey; cbn [negb].
  - destruct (tree_bin dir y (red_nonleaf _ Ey)) as (y1 & z & zd & y2 & ->).
    rewrite is_red_bin in Ey. rewrite rbt_bin, Ey in Hy. rewrite ret_bind, addr_bin.
    destruct (tail_distant _ _ _ _ _ _ _ _ _ _ _ _ _ _ _ Hat) as (s' & Hrun & Hat' & Hfr).
    eexists s', _. split_and!; [exact Hrun|exact Hat'| | | |exact Hfr].
    + destruct dir; entries_tac.
    + apply (rbt_bin_col (red := rd_red) _ _ _ (recolor (rd_red pd) _)); rewrite ?is_red_bin; try done;
        apply (rbt_bin_col (red := rd_red) _ _ _ (recolor false _)); naive_solver.
    + by rewrite is_red_bin.
  - destruct Hred as [Hred|]; [|done].
    destruct (tree_bin dir x (red_nonleaf _ Hred)) as (x1 & k & kd & x2 & ->).
    rewrite is_red_bin in Hred. rewrite rbt_bin, Hred in Hx. rewrite addr_bin.
    destruct (tail_close _ _ _ _ _ _ _ _ _ _ _ _ _ _ _ Hat) as (s1 & Hrun1 & Hat1 & Hfr1).
    rewrite (ST_bind_run _ _ _ _ _ Hrun1).
    destruct (tail_distant _ _ _ _ _ _ _ _ _ _ _ _ _ _ _ Hat1) as (s' & Hrun & Hat' & Hfr).
    eexists s', _. split_and!; [exact Hrun|exact Hat'| | | |].
    + destruct dir; entries_tac.
    + apply (rbt_bin_col (red := rd_red) _ _ _ (recolor (rd_red pd) _)); rewrite ?is_red_bin; try done;
        apply (rbt_bin_col (red := rd_red) _ _ _ (recolor false _)); naive_solver.
    + by rewrite is_red_bin.
    + destruct dir; frame_chain; addr_sub.
Qed.

Lemma has_red_children_in s tr cf c c1 dir x q qd y :
  rb_at s tr cf c (plug c1 (bin dir x q qd y)) →
  rbnode_has_red_children q s = Some (is_red rd_red x || is_red rd_red y, s).
Proof.
  intros Hat. assert (∃ l r, bin dir x q qd y = T l q qd r ∧
    is_red rd_red x || is_red rd_red y = is_red rd_red l || is_red rd_red r) as (l & r & E & ->).
  { destruct dir; simpl; eexists _, _; split; try done. apply orb_comm. }
  rewrite E in Hat. pose proof (cell_in _ _ _ _ _ _ _ _ _ Hat) as Hq.
  unfold rbnode_has_red_children. rewrite (rd_bind _ _ _ _ _ Hq). simpl.
  rewrite (ST_bind_run _ _ _ _ _ (red_in s tr cf c (Fr false q qd r :: c1) l Hat)).
  destruct (is_red rd_red l); simpl; [done|]. rewrite (rd_bind _ _ _ _ _ Hq). simpl.
  by rewrite (red_in s tr cf c (Fr true q qd l :: c1) r Hat).
Qed.

(** The direction in which a context continues upwards. *)
Definition cdir c : bool := match c with [] => false | f :: _ => fr_dir f end.

Lemma rbnode_dir_ctx s tr cf c t : rb_at s tr cf c t → t ≠ Leaf →
  rbnode_dir (addr t) s = Some (cdir c, s).
Proof.
  intros Hat Hne. destruct t as [|l a d r]; [done|]. destruct c as [|f c].
  - unfold rbnode_dir. by rewrite (rd_bind _ _ _ _ _ (at_root _ _ _ _ _ _ _ _ Hat)).
  - by eapply rbnode_dir_focus.
Qed.

(** What one run of the rebalancing ends with: the tree is red-black again and
    holds the same entries. *)
Definition rebalanced s s' (tr : Z) (cf : rbconf) (t0 : tree rbdata) (c : ctx rbdata) : Prop :=
  ∃ t', rb_at s' tr cf [] t' ∧ rb_tree rd_red t' ∧ entries t' = entries (plug c t0) ∧
    rb_frame s s' tr (addrs t0 ++ caddrs c).

Lemma rebalanced_intro s s' tr cf t0 c t' n :
  rb_at s' tr cf c t' → RB t' n → rbc rd_red c n (is_red rd_red t') →
  entries t' = entries t0 → rb_frame s s' tr (addrs t0 ++ caddrs c) →
  rebalanced s s' tr cf t0 c.
Proof.
  intros Hat Hrb Hc He Hfr. exists (plug c t'). split_and!; [| | |done].
  - by apply rb_at_top in Hat.
  - apply rb_tree_plug. eauto.
  - by rewrite !entries_plug, He.
Qed.

(** The end of [rb_node_remove]: how the loop's exit is used. *)
Definition rm_finish (tr initial : Z) (e : rm_exit) : ST (rb_state A) Z :=
  match e with
  | RmReturn ret => mret ret
  | RmBreak node parent sibling dir => rb_node_remove_tail tr initial node parent sibling dir
  end.

(** The body of the loop after the rotation at a red sibling. *)
Lemma red_sibling_spec s tr cf c dir t p pd x q qd y initial node n :
  rb_at s tr cf c (bin dir t p pd (bin dir x q qd y)) →
  (node = initial ∨ (t ≠ Leaf ∧ node = addr t)) →
  RB t n → black t → RB x (S n) → black x → RB y (S n) →
  rbc rd_red c (S (S n)) false →
  ∃ s', ((rbnode_rotate tr p dir;;
          wr p (with_red true);;
          wr q (with_red false);;
          sibling ← rd p (rb_child (negb dir));
          redch ← rbnode_has_red_children sibling;
          if (redch : bool) then mret (RmBreak node p sibling dir) else
          wr sibling (with_red true);;
          wr p (with_red false);;
          mret (RmReturn 0)) ≫= rm_finish tr initial) s = Some (0, s') ∧
    rebalanced s s' tr cf (bin dir t p pd (bin dir x q qd y)) c.
Proof.
  intros Hat Hnode Ht Htb Hx Hxb Hy Hc.
  destruct (rotate_in _ _ _ _ [] dir t p pd x q qd y Hat) as (s1 & Hw1 & Hat1 & Hfr1).
  rewrite ST_bind_assoc, (ST_bind_run _ _ _ _ _ Hw1). cbn [plug] in Hat1, Hfr1.
  destruct (paint_bin s1 tr cf c [Fr dir q qd y] dir t p pd x true) as (s2 & Hw2 & Hat2 & Hfr2).
  { by rewrite plug_bin1. }
  rewrite ST_bind_assoc, (ST_bind_run _ _ _ _ _ Hw2). rewrite plug_bin1 in Hat2.
  destruct (paint_bin _ _ _ _ [] _ _ _ _ _ false Hat2) as (s3 & Hw3 & Hat3 & Hfr3).
  rewrite ST_bind_assoc, (ST_bind_run _ _ _ _ _ Hw3). cbn [plug] in Hat3.
  destruct (tree_bin dir x) as (x1 & k & kd & x2 & ->); [by intros ->|].
  rewrite is_red_bin in Hxb. rewrite rbt_bin, Hxb in Hx. destruct Hx as (m & [= <-] & Hx1 & Hx2).
  set (f := Fr dir q (recolor false qd) y).
  assert (rb_at s3 tr cf (f :: c) (bin dir t p (recolor true pd) (bin dir x1 k kd x2))) as Hat4.
  { apply rb_at_plug1. rewrite plug1_bin. exact Hat3. }
  destruct (cell_bin s3 tr cf (f :: c) [] _ _ _ _ _ Hat4) as (np & Hp & _ & Hcx & _ & _).
  rewrite ST_bind_assoc, (rd_bind _ _ _ _ _ Hp), Hcx, addr_bin.
  rewrite ST_bind_assoc, (ST_bind_run _ _ _ _ _ (has_red_children_in s3 tr cf (f :: c)
    [Fr (negb dir) p (recolor true pd) t] dir x1 k kd x2 ltac:(by rewrite plug_bin1, bin_flip))).
  destruct (is_red rd_red x1 || is_red rd_red x2) eqn:Ered.
  - rewrite ret_bind. cbn [rm_finish]. apply orb_true_iff in Ered.
    destruct (remove_tail_spec _ _ _ _ _ _ _ _ _ _ _ _ initial node n Hat4 Hnode Ered Ht Htb Hx1 Hx2)
      as (s' & t' & Hrun & Hat' & He & Hrb & Hr & Hfr).
    exists s'. split; [exact Hrun|]. cbn [recolor rd_red] in Hrb.
    eapply (rebalanced_intro _ _ _ _ _ _ (plug1 f t') (S (S n))).
    + by apply rb_at_plug1.
    + apply rbt_plug1. cbn. eauto.
    + by rewrite is_red_plug1.
    + rewrite (entries_plug1_cong f _ _ He). destruct dir; entries_tac.
    + destruct dir; frame_chain; addr_sub.
  - apply orb_false_iff in Ered as [Hx1b Hx2b].
    destruct (paint_bin s3 tr cf (f :: c) [Fr (negb dir) p (recolor true pd) t] dir x1 k kd x2 true)
      as (s4 & Hw4 & Hat5 & Hfr4).
    { by rewrite plug_bin1, bin_flip. }
    rewrite ST_bind_assoc, (ST_bind_run _ _ _ _ _ Hw4). rewrite plug_bin1, bin_flip in Hat5.
    destruct (paint_bin _ _ _ _ [] _ _ _ _ _ false Hat5) as (s5 & Hw5 & Hat6 & Hfr5).
    rewrite ST_bind_assoc, (ST_bind_run _ _ _ _ _ Hw5), ret_bind. cbn [plug] in Hat6.
    exists s5. split; [done|]. apply rb_at_plug1 in Hat6.
    eapply (rebalanced_intro _ _ _ _ _ _ _ (S (S n)) Hat6).
    + apply rbt_plug1. cbn [f fr_data recolor rd_red fr_sib]. exists (S n).
      split_and!; [done|done|]. apply (rbt_bin_col (red := rd_red) _ _ _ (recolor false _)); [done|done|].
      apply (rbt_bin_col (red := rd_red) _ _ _ (recolor true _)); auto.
    + by rewrite is_red_plug1.
    + destruct dir; entries_tac.
    + destruct dir; frame_chain; addr_sub.
Qed.

(** The body of the loop at a black sibling with no red child, below a red
    parent. *)
Lemma recolour_sibling_spec s tr cf c dir t p pd x q qd y n :
  rb_at s tr cf c (bin dir t p pd (bin dir x q qd y)) →
  RB t n → RB x n → black x → RB y n → black y → rbc rd_red c (S n) false →
  ∃ s', (wr p (with_red false);; wr q (with_red true);; mret (RmReturn 0)) s
      = Some (RmReturn 0, s') ∧
    rebalanced s s' tr cf (bin dir t p pd (bin dir x q qd y)) c.
Proof.
  intros Hat Ht Hx Hxb Hy Hyb Hc.
  destruct (paint_bin _ _ _ _ [] _ _ _ _ _ false Hat) as (s1 & Hw1 & Hat1 & Hfr1).
  rewrite (ST_bind_run _ _ _ _ _ Hw1).
  destruct (paint_bin s1 tr cf c [Fr (negb dir) p (recolor false pd) t] dir x q qd y true)
    as (s2 & Hw2 & Hat2 & Hfr2).
  { rewrite plug_bin1, bin_flip. exact Hat1. }
  rewrite (ST_bind_run _ _ _ _ _ Hw2). rewrite plug_bin1, bin_flip in Hat2.
  exists s2. split; [done|]. eapply (rebalanced_intro _ _ _ _ _ _ _ (S n) Hat2).
  - apply (rbt_bin_col (red := rd_red) _ _ _ (recolor false _)); [done|done|].
    apply (rbt_bin_col (red := rd_red) _ _ _ (recolor true _)); auto.
  - by rewrite is_red_bin.
  - destruct dir; entries_tac.
  - destruct dir; frame_chain; addr_sub.
Qed.

(** Moving the focus of [rebalanced] down one edge. *)
Lemma rebalanced_down s s' tr cf dir t p pd u c :
  rebalanced s s' tr cf (bin dir t p pd u) c → rebalanced s s' tr cf t (Fr dir p pd u :: c).
Proof.
  intros (t' & Hat & Hrb & He & Hfr). exists t'. split_and!; [done..| |].
  - rewrite He. cbn [plug]. by rewrite plug1_bin.
  - eapply rb_frame_mono; [exact Hfr|]. destruct dir; addr_sub.
Qed.

Lemma remove_loop_spec cl s tr cf c t n node sib0 initial :
  rb_at s tr cf c t → RB t n → black t → rbc rd_red c (S n) false → (length c < cl)%nat →
  (node = initial ∨ (t ≠ Leaf ∧ node = addr t)) →
  ∃ s', (rb_node_remove_loop cl tr node (caddr c) sib0 (cdir c) ≫= rm_finish tr initial) s
      = Some (0, s') ∧
    rebalanced s s' tr cf t c.
Proof.
  revert s c t n node sib0.
  induction cl as [|cl IH]; intros s c t n node sib0 Hat Ht Htb Hc Hcl Hnode; [lia|]. simpl.
  destruct c as [|f c]; simpl.
  { exists s. split; [done|]. eapply rebalanced_intro; eauto using rb_frame_refl. }
  rewrite (proj2 (Z.eqb_neq _ _)) by (eapply tree_in_caddr, at_tree; exact Hat).
  destruct f as [dir p pd u]. simpl in Hc.
  assert (RB u (S n)) as Hu by (case_match; naive_solver).
  destruct (tree_bin dir u) as (x & q & qd & y & ->); [by intros ->|].
  rewrite rb_at_plug1, plug1_bin in Hat. cbn [fr_dir fr_addr fr_data fr_sib] in *.
  destruct (cell_bin s tr cf c [] _ _ _ _ _ Hat) as (np & Hp & _ & Hcu & Hpred & Hpp).
  rewrite ST_bind_assoc, (rd_bind _ _ _ _ _ Hp), Hcu, addr_bin.
  assert (rb_at s tr cf c (plug [Fr (negb dir) p pd t] (bin dir x q qd y))) as Hat'
    by (by rewrite plug_bin1, bin_flip).
  destruct (cell_bin s tr cf c _ _ _ _ _ _ Hat') as (nq & Hq & _ & _ & Hqred & _).
  rewrite (proj2 (Z.eqb_neq q _)).
  2: { eapply tree_in_nonnull; [exact (at_tree _ _ _ _ _ Hat)|]. destruct dir; simpl; set_solver. }
  rewrite ST_bind_assoc, (rd_bind _ _ _ _ _ Hq), Hqred.
  destruct (rd_red qd) eqn:Eq.
  - (* red sibling: the parent is black *)
    destruct (rd_red pd) eqn:Epd.
    { destruct Hc as (_ & Hb & _). rewrite is_red_bin in Hb. congruence. }
    rewrite rbt_bin, Eq in Hu. destruct Hu as (Hxb & Hyb & Hx & Hy). destruct Hc as [_ Hc].
    destruct (red_sibling_spec _ _ _ _ _ _ _ _ _ _ _ _ initial node n Hat Hnode Ht Htb Hx Hxb Hy Hc)
      as (s' & Hrun & Hreb).
    exists s'. split; [exact Hrun|by apply rebalanced_down].
  - rewrite rbt_bin, Eq in Hu. destruct Hu as (m & [= <-] & Hx & Hy).
    rewrite ST_bind_assoc, (ST_bind_run _ _ _ _ _ (has_red_children_in s tr cf c _ dir x q qd y Hat')).
    destruct (is_red rd_red x || is_red rd_red y) eqn:Ered.
    + rewrite ret_bind. cbn [rm_finish]. apply orb_true_iff in Ered.
      destruct (remove_tail_spec _ _ _ _ _ _ _ _ _ _ _ _ initial node n Hat Hnode Ered Ht Htb Hx Hy)
        as (s' & t' & Hrun & Hat2 & He & Hrb & Hr & Hfr).
      exists s'. split; [exact Hrun|]. apply rebalanced_down.
      eapply rebalanced_intro; [exact Hat2|exact Hrb| |exact He|exact Hfr].
      rewrite Hr. destruct (rd_red pd); naive_solver.
    + apply orb_false_iff in Ered as [Hxb Hyb].
      rewrite ST_bind_assoc, (rd_bind _ _ _ _ _ Hp), Hpred.
      destruct (rd_red pd) eqn:Epd.
      * destruct Hc as (_ & _ & _ & Hc).
        destruct (recolour_sibling_spec _ _ _ _ _ _ _ _ _ _ _ _ _ Hat Ht Hx Hxb Hy Hyb)
          as (s' & Hrun & Hreb); [by apply rbc_weaken|].
        rewrite (ST_bind_run _ _ _ _ _ Hrun). exists s'. split; [done|by apply rebalanced_down].
      * destruct Hc as [_ Hc].
        destruct (paint_bin s tr cf c _ dir x q qd y true Hat') as (s1 & Hw1 & Hat1 & Hfr1).
        rewrite plug_bin1, bin_flip in Hat1.
        rewrite ST_bind_assoc, (ST_bind_run _ _ _ _ _ Hw1).
        destruct (cell_bin s1 tr cf c [] _ _ _ _ _ Hat1) as (np' & Hp' & _ & _ & _ & Hpp').
        rewrite ST_bind_assoc, (rd_bind _ _ _ _ _ Hp'), Hpp'.
        destruct (bin_T dir t (bin dir x q (recolor true qd) y) p pd) as (l1 & r1 & E1).
        pose proof (rbnode_dir_ctx _ _ _ _ _ Hat1) as Hdir. rewrite addr_bin in Hdir.
        rewrite ST_bind_assoc, (ST_bind_run _ _ _ _ _ (Hdir ltac:(by rewrite E1))).
        destruct (IH _ _ _ (S n) p q Hat1) as (s' & Hrun & Hreb).
        -- apply rbt_bin. rewrite Epd. exists n. split_and!; [done|done|].
           apply (rbt_bin_col (red := rd_red) _ _ _ (recolor true qd)); auto.
        -- by rewrite is_red_bin.
        -- done.
        -- simpl in Hcl. lia.
        -- right. rewrite addr_bin. by rewrite E1.
        -- exists s'. split; [exact Hrun|]. apply rebalanced_down.
           destruct Hreb as (t' & ? & ? & He & Hfr). exists t'. split_and!; [done..| |].
           ++ rewrite He, !entries_plug. f_equal. destruct dir; entries_tac.
           ++ destruct dir; frame_chain; addr_sub.
Qed.
End remove.
