(* ===== verification/RbtreeOps.v ===== *)
(** * Red-black tree: search and insertion

    The functional behaviour of [rb_find], [rb_least], [rb_insert_node] and
    [rb_insert] on a tree that satisfies [rb_ok]. *)

From S2P Require Import Prelude Slab ArenaTree RedBlack Rbtree RbtreeBase RbtreeInsert RbtreeLink.

(** What an insertion does to the contents, by mode: the return code and the
    new contents. *)
Definition insert_result (mode : rbtree_insert_mode) (e : Z * Z * Z)
    (l : list (Z * Z * Z)) : Z * list (Z * Z * Z) :=
  if decide (ekey e ∈ ekey <$> l) then
    match mode with
    | RB_DUPLICATE => (0, insert_entry e l)
    | RB_DEFAULT => (- EALREADY, l)
    | RB_UPDATE => (0, (λ x, if ekey x =? ekey e then e else x) <$> l)
    end
  else (0, insert_entry e l).

Lemma insert_result_dup e l : insert_result RB_DUPLICATE e l = (0, insert_entry e l).
Proof. unfold insert_result. by case_match. Qed.

Section ops.
Context {A : Type} `{SlabAllocator A}.
Implicit Types (s : rb_state A) (c : ctx rbdata) (t l r : tree rbdata).

Abbreviation klt k := (Forall (λ e : Z * rbdata, rd_key e.2 < k)).
Abbreviation kge k := (Forall (λ e : Z * rbdata, k ≤ rd_key e.2)).
Abbreviation kgt k := (Forall (λ e : Z * rbdata, k < rd_key e.2)).
Abbreviation esorted := (StronglySorted (λ x y : Z * rbdata, rd_key x.2 ≤ rd_key y.2)).

(** Contents determine the addresses a tree occupies. *)
Lemma addrs_entries t : addrs t ≡ₚ (λ e, e.1.1) <$> entries t.
Proof. unfold entries. by rewrite addrs_elems, <-list_fmap_compose. Qed.

Lemma keys_ok_insert mode e (l : list (Z * Z * Z)) :
  keys_ok mode l → (mode ≠ RB_DUPLICATE → ekey e ∉ ekey <$> l) →
  keys_ok mode (insert_entry e l).
Proof.
  intros [Hs Hd] Hnew. split; [by apply insert_entry_sorted|]. intros Hm.
  rewrite insert_entry_perm. simpl. constructor; auto.
Qed.

(** What every successful or refused insertion of the node [nd] ends with. *)
Definition insert_post s (tr : Z) (cf : rbconf) (fl : list Z) t (nd ret : Z)
    (contents : list (Z * Z * Z)) s' : Prop :=
  ∃ cf' fl' t', rb_ok s' tr cf' fl' t' ∧ entries t' = contents ∧
    cf_alloc cf' = cf_alloc cf ∧ cf_insert cf' = cf_insert cf ∧
    rb_frame s s' tr (nd :: addrs t) ∧
    (cf_alloc cf = RB_NOALLOC → fl' = fl) ∧
    (if ret =? 0 then cf_alloc cf = RB_ALLOC → addrs t' ++ fl' ≡ₚ nd :: addrs t ++ fl
     else s' = s ∧ fl' = fl).

Lemma attached_post s tr cf fl t nd k v s' t' :
  rb_ok s tr cf fl t → nd ≠ 0 → nd ∉ addrs t ++ fl →
  (cf_insert cf ≠ RB_DUPLICATE → k ∉ ekey <$> entries t) →
  rb_at s' tr cf [] t' → rb_tree rd_red t' →
  entries t' = insert_entry (nd, k, v) (entries t) → rb_frame s s' tr (nd :: addrs t) →
  insert_post s tr cf fl t nd 0 (insert_entry (nd, k, v) (entries t)) s'.
Proof.
  intros [Hnull Hat0 Hrb0 Hkeys Hfree Hdisj] Hn0 Hfresh Hk Hat Hrb He Hfr.
  assert (addrs t' ≡ₚ nd :: addrs t) as Hp.
  { by rewrite !addrs_entries, He, insert_entry_perm. }
  exists cf, fl, t'. split_and!; try done.
  - split; try done.
    + rewrite He. by apply keys_ok_insert.
    + eapply chain_agree; [|done]. intros b Hb. apply (fr_nodes _ _ _ _ Hfr).
      apply NoDup_app in Hdisj as (_ & Hd & _). set_solver.
    + rewrite Hp. simpl. by constructor.
  - simpl. intros _. by rewrite Hp.
Qed.

Lemma insert_new cl s tr cf fl t b c l p d r nd k v :
  rb_ok s tr cf fl t → rb_nodes s !! nd = Some (Rbnode 0 0 0 k v true) → nd ≠ 0 →
  nd ∉ addrs t ++ fl → budget cl (length (entries t)) →
  t = plug c (T l p d r) → klt k (cpre c) → kge k (cpost c) → find_stop b k l d r →
  (b = true → rd_key d ≠ k) → (cf_insert cf ≠ RB_DUPLICATE → k ∉ ekey <$> entries t) →
  ∃ s', (wr nd (with_parent p);;
         (if k <=? rd_key d then wr p (with_left nd) else wr p (with_right nd));;
         rb_node_insert_loop cl tr nd) s = Some (0, s') ∧
    insert_post s tr cf fl t nd 0 (insert_entry (nd, k, v) (entries t)) s'.
Proof.
  intros Hok Hn Hn0 Hfresh Hcl Et Hpre Hpost Hstop Hb Hk.
  pose proof (ok_height _ _ _ _ _ _ Hok Hcl) as Hh.
  destruct (ok_keys _ _ _ _ _ Hok) as [Hs _]. rewrite key_sorted_elems, Et in Hs.
  destruct (stop_split b k c l p d r Hs Hpre Hpost Hstop Hb) as (sib & E & Hpre' & Hpost').
  destruct (attach_spec cl s tr cf c (negb (k <=? rd_key d)) p d sib nd k v)
    as (s' & t' & Hrun & Hat' & Hrb' & He & Hfr); rewrite <-?E, <-?Et; try done.
  - apply rb_at_top. rewrite <-Et. apply Hok.
  - apply Hok.
  - rewrite <-addrs_plug, <-Et. set_solver.
  - rewrite <-E, <-Et in *. exists s'. split; [|by eapply attached_post].
    by destruct (k <=? rd_key d).
Qed.

Abbreviation upd e := (λ x : Z * Z * Z, if ekey x =? ekey e then e else x).

Lemma upd_other e (m : list (Z * Z * Z)) : ekey e ∉ ekey <$> m → upd e <$> m = m.
Proof.
  induction m as [|x m IH]; csimpl; [done|]. intros [Hx Hm]%not_elem_of_cons.
  rewrite (proj2 (Z.eqb_neq _ _)) by congruence. by rewrite IH.
Qed.

Lemma keys_upd e (m : list (Z * Z * Z)) : ekey <$> (upd e <$> m) = ekey <$> m.
Proof.
  rewrite <-list_fmap_compose. apply list_fmap_ext. intros _ x _. simpl.
  by case_match eqn:E; [apply Z.eqb_eq in E|].
Qed.

Lemma key_sorted_keys (m m' : list (Z * Z * Z)) :
  ekey <$> m = ekey <$> m' → key_sorted m → key_sorted m'.
Proof.
  unfold key_sorted. revert m'; induction m as [|x m IH]; intros [|y m'] E; try done.
  csimpl in E. injection E as E1 E2. rewrite !StronglySorted_cons. intros [Hx Hm].
  split; [|by apply IH]. rewrite <-E1.
  apply (Forall_fmap ekey (λ k, ekey x <= k)). rewrite <-E2. by apply Forall_fmap.
Qed.

(** Replacing a node of a tree with distinct keys by one with the same key. *)
Lemma replaced_entries c l e d r nd v :
  NoDup (ekey <$> entries (plug c (T l e d r))) →
  entries (plug c (T l nd (RbData (rd_key d) v (rd_red d)) r)) =
    upd (nd, rd_key d, v) <$> entries (plug c (T l e d r)).
Proof.
  rewrite !entries_plug, !entries_T. rewrite <-!app_assoc, !(assoc_L (++) (entry <$> cpre c)).
  simpl. rewrite !fmap_app. csimpl. intros (_ & Hd & [Hr _]%NoDup_cons)%NoDup_app.
  rewrite !upd_other; try done.
  2,3: intros Hin; eapply Hd; [apply elem_of_app; eauto|left].
  unfold ekey at 2; simpl. by rewrite Z.eqb_refl.
Qed.

Lemma recolored_rb c l e d r nd k v :
  rb_tree rd_red (plug c (T l e d r)) →
  rb_tree rd_red (plug c (T l nd (RbData k v (rd_red d)) r)).
Proof. by rewrite !rb_tree_plug. Qed.

(** Freeing a node that is in neither the tree nor the free list. *)
Lemma free_ok cl s tr cf fl t e n :
  rb_ok s tr cf fl t → rb_nodes s !! e = Some n → e ≠ 0 → e ∉ addrs t ++ fl →
  ∃ s', rb_node_free cl tr e s = Some (0, s') ∧
    rb_ok s' tr (RbConf e (cf_alloc cf) (cf_insert cf)) (e :: fl) t ∧ rb_frame s s' tr [e].
Proof.
  intros [Hnull [Hh Ht] Hrb Hk Hfree Hdisj] He He0 Hfresh.
  rewrite (rb_node_free_spec _ _ _ _ _ _ _ Hh He). eexists; split; [reflexivity|].
  split; [split; try done; [split|..]|split]; simpl.
  - by rewrite lookup_insert_eq.
  - eapply tree_in_agree; [|done]. intros b Hb. apply lookup_insert_ne.
    rewrite app_nil_r in Hb. set_solver.
  - split_and!; [done..|]. eexists. split; [apply lookup_insert_eq|]. simpl.
    eapply chain_agree; [|done]. intros b Hb. apply lookup_insert_ne. set_solver.
  - rewrite <-Permutation_middle. by constructor.
  - intros b Hb. apply lookup_insert_ne. set_solver.
  - intros b Hb. by apply lookup_insert_ne.
  - done.
Qed.

Lemma insert_update cl s tr cf fl t c l e d r nd v :
  rb_ok s tr cf fl t → rb_nodes s !! nd = Some (Rbnode 0 0 0 (rd_key d) v true) → nd ≠ 0 →
  nd ∉ addrs t ++ fl → t = plug c (T l e d r) → cf_insert cf = RB_UPDATE →
  ∃ s', (ret ← rbnode_replace tr e nd;
         if negb (ret =? 0) then mret ret else
         alloc ← rdt tr rt_alloc;
         (if decide (alloc = RB_ALLOC) then rb_node_free cl tr e else mret 0);;
         mret 0) s = Some (0, s') ∧
    insert_post s tr cf fl t nd 0 (upd (nd, rd_key d, v) <$> entries t) s'.
Proof.
  intros [Hnull Hat Hrb [Hks Hkd] Hfree Hdisj] Hn Hn0 Hfresh -> Hm.
  pose proof Hat as Hat0. apply rb_at_top in Hat.
  destruct (replace_spec _ _ _ _ _ _ _ _ _ _ _ _ Hat Hn Hn0) as (s1 & Hrun & Hat1 & He & Hfr).
  { rewrite <-addrs_plug. set_solver. }
  rewrite (ST_bind_run _ _ _ _ _ Hrun). simpl. rewrite (rdt_bind _ _ _ _ _ (at_hdr _ _ _ _ _ Hat1)).
  pose proof (replaced_entries c l e d r nd v) as Hents. rewrite Hm in Hkd.
  specialize (Hents (Hkd ltac:(done))).
  apply (recolored_rb _ _ _ _ _ nd (rd_key d) v) in Hrb.
  set (t' := plug c (T l nd (RbData (rd_key d) v (rd_red d)) r)) in *.
  assert (e :: addrs t' ≡ₚ nd :: addrs (plug c (T l e d r))) as Hp.
  { unfold t'. rewrite !addrs_plug. simpl. apply Permutation_swap. }
  assert (NoDup (e :: addrs t' ++ fl)) as [Hefl Hnd']%NoDup_cons.
  { rewrite app_comm_cons, Hp. by constructor. }
  assert (rb_frame s s1 tr (nd :: addrs (plug c (T l e d r)))) as Hfr'.
  { eapply rb_frame_mono; [exact Hfr|]. intros x. rewrite addrs_plug. simpl. set_solver. }
  assert (rb_ok s1 tr cf fl t') as Hok.
  { split; try done.
    - by apply rb_at_top in Hat1.
    - unfold keys_ok. rewrite Hents, keys_upd. split; [|by rewrite Hm].
      eapply key_sorted_keys; [|exact Hks]. by rewrite keys_upd.
    - eapply chain_agree; [|done]. intros b Hb. apply (fr_nodes _ _ _ _ Hfr').
      apply NoDup_app in Hdisj as (_ & Hd & _). set_solver. }
  simpl. destruct (decide (cf_alloc cf = RB_ALLOC)) as [Ha|Ha].
  - destruct (free_ok cl s1 tr cf fl t' e (rb_mk (caddr c) (addr l) (addr r) d) Hok)
      as (s2 & Hrun2 & Hok2 & Hfr2); [rewrite He; by eapply at_root| |done|].
    { eapply tree_in_nonnull; [apply Hat|]. simpl; left. }
    rewrite (ST_bind_run _ _ _ _ _ Hrun2). eexists; split; [reflexivity|].
    eexists _, _, _. split_and!; [exact Hok2|done|done|done| |by rewrite Ha|].
    + eapply rb_frame_trans; [exact Hfr'|exact Hfr2|]. intros x. rewrite addrs_plug. simpl.
      set_solver.
    + simpl. intros _. by rewrite <-Permutation_middle, app_comm_cons, Hp.
  - rewrite ret_bind. eexists; split; [reflexivity|]. exists cf, fl, t'.
    split_and!; try done. by intros ?%Ha.
Qed.

(** The first node of an empty tree. *)
Lemma insert_empty s tr cf fl nd k v :
  rb_ok s tr cf fl Leaf → rb_nodes s !! nd = Some (Rbnode 0 0 0 k v true) → nd ≠ 0 → nd ∉ fl →
  ∃ s', (wrt tr (with_root nd);; mret 0) s = Some (0, s') ∧
    insert_post s tr cf fl Leaf nd 0 [(nd, k, v)] s'.
Proof.
  intros Hok Hn Hn0 Hfresh. destruct (ok_at _ _ _ _ _ Hok) as [Hh _].
  unfold wrt, mbind, ST_bind. rewrite Hh. eexists; split; [reflexivity|].
  apply (attached_post s tr cf fl Leaf nd k v _ (T Leaf nd (RbData k v true) Leaf)); try done.
  - intros _. set_solver.
  - split; simpl; [by rewrite lookup_insert_eq|]. split; simpl; [|done..].
    repeat constructor; set_solver.
  - by exists 0%nat.
  - split; simpl; try done. intros b Hb. by apply lookup_insert_ne.
Qed.

Lemma rb_node_insert_spec cl s tr cf fl t nd k v :
  rb_ok s tr cf fl t → rb_nodes s !! nd = Some (Rbnode 0 0 0 k v true) → nd ≠ 0 →
  nd ∉ addrs t ++ fl → budget cl (length (entries t)) →
  let '(ret, contents) := insert_result (cf_insert cf) (nd, k, v) (entries t) in
  ∃ s', rb_node_insert cl tr nd s = Some (ret, s') ∧
    insert_post s tr cf fl t nd ret contents s'.
Proof.
  intros Hok Hn Hn0 Hfresh Hcl. pose proof (ok_height _ _ _ _ _ _ Hok Hcl) as Hh.
  pose proof Hok as [Hnull Hat Hrb Hkeys Hfree Hdisj].
  unfold rb_node_insert. rewrite (rdt_bind _ _ _ _ _ (at_hdr _ _ _ _ _ Hat)).
  rewrite (rd_bind _ _ _ _ _ Hn). rewrite (proj2 (Z.eqb_neq tr _)) by done. simpl.
  destruct (decide (t = Leaf)) as [->|Hne].
  { simpl. unfold insert_result; simpl. apply insert_empty; try done. }
  rewrite (proj2 (Z.eqb_neq (addr t) _)) by (eapply tree_in_addr; [apply Hat|done]).
  rewrite (rdt_bind _ _ _ _ _ (at_hdr _ _ _ _ _ Hat)). simpl.
  destruct (decide (cf_insert cf = RB_DUPLICATE)) as [Hm|Hm].
  - destruct (rbnode_lub_spec cl s t k (at_tree _ _ _ _ _ Hat) Hne) as
      (c & l & p & d & r & Hrun & Et & Hpre & Hpost & Hstop); [lia|apply Hkeys|].
    rewrite (ST_bind_run _ _ _ _ _ Hrun). 
    erewrite rd_bind; [|eapply at_root, rb_at_top; rewrite <-Et; exact Hat]. simpl.
    rewrite bool_decide_true by done. rewrite andb_false_r, Hm, insert_result_dup.
    by eapply (insert_new _ _ _ _ _ _ false).
  - destruct (rbnode_find_spec cl s t k (at_tree _ _ _ _ _ Hat) Hne) as
      (c & l & p & d & r & Hrun & Et & Hpre & Hpost & Hstop); [lia|apply Hkeys|].
    rewrite (ST_bind_run _ _ _ _ _ Hrun). 
    erewrite rd_bind; [|eapply at_root, rb_at_top; rewrite <-Et; exact Hat]. simpl.
    rewrite bool_decide_false by done. rewrite andb_true_r.
    unfold insert_result. unfold ekey at 1; simpl.
    destruct (Z.eqb_spec k (rd_key d)) as [->|Hk].
    + rewrite (decide_True (P := _ ∈ _)).
      2: { rewrite Et, entries_plug, entries_T, !fmap_app. csimpl. set_solver. }
      destruct (cf_insert cf) eqn:Em; simpl.
      * exists s. split; [done|]. by exists cf, fl, t.
      * by eapply insert_update.
      * done.
    + assert (k ∉ ekey <$> entries t) as Habs.
      { rewrite Et. apply find_absent; try done. rewrite <-Et. apply Hkeys. }
      rewrite decide_False by done.
      eapply (insert_new _ _ _ _ _ _ true); try done; by apply kgt_kge.
Qed.

(** ** Allocation *)

(** Every node comes from the allocator. *)
Definition rb_heap s : Prop := ∀ a, is_Some (rb_nodes s !! a) → a ∈ slab_live (rb_slab s).

(** What an operation on the tree at [tr] leaves alone: the other trees and
    every node outside [l] that existed before. *)
Definition rb_others s s' (tr : Z) (l : list Z) : Prop :=
  (∀ a, a ∉ l → is_Some (rb_nodes s !! a) → rb_nodes s' !! a = rb_nodes s !! a) ∧
  (∀ a, a ≠ tr → rb_trees s' !! a = rb_trees s !! a).

Lemma rb_frame_others s s' tr (L : list Z) : rb_frame s s' tr L → rb_others s s' tr L.
Proof. intros [Hn Ht _]. split; auto. Qed.

(** Initializing a node to its fresh state. *)
Lemma init_node_run s nd n k v (m : ST (rb_state A) Z) :
  rb_nodes s !! nd = Some n →
  (wr nd (with_left NULL);; wr nd (with_right NULL);; wr nd (with_parent NULL);;
   wr nd (with_kv k v);; wr nd (with_red true);; m) s =
  m (RbState (<[nd := Rbnode 0 0 0 k v true]> (rb_nodes s)) (rb_trees s) (rb_slab s)).
Proof.
  intros Hn. unfold wr, mbind, ST_bind. heap_run. by rewrite !insert_insert_eq.
Qed.

(** Overwriting a node that is in neither the tree nor the free list. *)
Lemma ok_write s tr cf fl t nd n :
  rb_ok s tr cf fl t → nd ∉ addrs t ++ fl →
  rb_ok (RbState (<[nd := n]> (rb_nodes s)) (rb_trees s) (rb_slab s)) tr cf fl t.
Proof.
  intros [Hnull [Hh Ht] Hrb Hk Hfree Hdisj] Hfresh. split; try done.
  - split; [done|]. eapply tree_in_agree; [|done]. intros b Hb. apply lookup_insert_ne.
    rewrite app_nil_r in Hb. set_solver.
  - eapply chain_agree; [|done]. intros b Hb. apply lookup_insert_ne. set_solver.
Qed.

Lemma ok_slab s tr cf fl t (a : A) :
  rb_ok s tr cf fl t → rb_ok (RbState (rb_nodes s) (rb_trees s) a) tr cf fl t.
Proof. intros [? [] ???]. split; try done. Qed.

Lemma tree_in_dom (h : gmap Z rbnode) t a :
  tree_in rb_mk h [] t → a ∈ addrs t → is_Some (h !! a).
Proof.
  intros Ht (c & l & d & r & ->)%addr_focus. apply tree_in_top in Ht.
  rewrite (tree_in_root _ _ _ _ _ _ _ Ht). eauto.
Qed.

Lemma chain_dom (h : gmap Z rbnode) p fl a : chain h p fl → a ∈ fl → is_Some (h !! a) ∧ a ≠ 0.
Proof.
  revert p; induction fl as [|b fl IH]; intros p; simpl; [by intros _ ?%not_elem_of_nil|].
  intros (-> & ? & n & ? & Hc) [->|Hin]%elem_of_cons; eauto.
Qed.

(** What [rb_node_alloc_common] ends with: the node [nd] is [NULL], or it is
    initialized and was the head of the free list or new. *)
Definition alloc_post s tr cf fl t (k v nd : Z) s1 : Prop :=
  ∃ cf1 fl1, rb_ok s1 tr cf1 fl1 t ∧ rb_heap s1 ∧
    cf_alloc cf1 = cf_alloc cf ∧ cf_insert cf1 = cf_insert cf ∧ rb_others s s1 tr fl ∧
    ((nd = 0 ∧ fl = [] ∧ fl1 = []) ∨
     (nd ≠ 0 ∧ rb_nodes s1 !! nd = Some (Rbnode 0 0 0 k v true) ∧ nd ∉ addrs t ++ fl1 ∧
      (fl = nd :: fl1 ∨ fl = [] ∧ fl1 = [] ∧ rb_nodes s !! nd = None))).

Lemma alloc_fresh s tr cf t k v p a' :
  rb_ok s tr cf [] t → rb_heap s → scx_alloc (rb_slab s) = (p, a') → p ≠ 0 →
  alloc_post s tr cf [] t k v p
    (RbState (<[p := Rbnode 0 0 0 k v true]> (rb_nodes s)) (rb_trees s) a').
Proof.
  intros Hok Hheap Ea Hp. destruct (scx_alloc_spec _ _ _ Ea Hp) as [Hlive Hlive'].
  assert (rb_nodes s !! p = None) as Hnone.
  { apply eq_None_not_Some. intros Hin. by apply Hlive, Hheap. }
  assert (p ∉ addrs t ++ []) as Hfresh.
  { rewrite app_nil_r. intros Hin. apply Hlive, Hheap.
    eapply tree_in_dom; [|done]. apply Hok. }
  exists cf, []. split_and!; try done.
  - apply (ok_write (RbState (rb_nodes s) (rb_trees s) a')); [by apply (ok_slab s)|done].
  - intros b. simpl. rewrite Hlive'. destruct (decide (b = p)) as [->|Hb]; [set_solver|].
    rewrite lookup_insert_ne by done. intros ?%Hheap. set_solver.
  - split; [|done]. intros b _ [? Hb]. simpl. rewrite lookup_insert_ne; [done|congruence].
  - right. split_and!; [done|apply lookup_insert_eq|done|by right].
Qed.

Lemma alloc_reuse s tr cf nd fl t k v n :
  rb_ok s tr cf (nd :: fl) t → rb_heap s → rb_nodes s !! nd = Some n →
  let cf1 := RbConf (rb_parent n) (cf_alloc cf) (cf_insert cf) in
  alloc_post s tr cf (nd :: fl) t k v nd
    (RbState (<[nd := Rbnode 0 0 0 k v true]> (rb_nodes s))
       (<[tr := rb_hdr cf1 (addr t)]> (rb_trees s)) (rb_slab s)).
Proof.
  intros [Hnull [Hh Ht] Hrb Hk Hfree Hdisj] Hheap Hn cf1.
  destruct Hfree as (Hfl & Hnd & n' & Hn' & Hfree). rewrite Hn in Hn'. injection Hn' as <-.
  rewrite <-Permutation_middle in Hdisj. apply NoDup_cons in Hdisj as [Hfresh Hdisj].
  exists cf1, fl. split_and!; try done.
  - set (s0 := RbState (rb_nodes s) (<[tr := rb_hdr cf1 (addr t)]> (rb_trees s)) (rb_slab s)).
    apply (ok_write s0 tr cf1 fl t nd); [|done]. split; try done. split; simpl; [by rewrite lookup_insert_eq|done].
  - intros b. simpl. destruct (decide (b = nd)) as [->|Hb].
    + intros _. by apply Hheap.
    + rewrite lookup_insert_ne by done. apply Hheap.
  - split; simpl; intros b Hb; [intros _|]; apply lookup_insert_ne; set_solver.
  - right. split_and!; [done|apply lookup_insert_eq|done|by left].
Qed.

(** The node an allocation gets, the head of the free list or what the allocator returns, and the allocator after it. *)
Definition new_node s (fl : list Z) : Z := match fl with [] => (scx_alloc (rb_slab s)).1 | nd :: _ => nd end.
Definition new_slab s (fl : list Z) : A := match fl with [] => (scx_alloc (rb_slab s)).2 | _ => rb_slab s end.

Lemma alloc_common_spec cl s tr cf fl t k v :
  rb_ok s tr cf fl t → rb_heap s →
  ∃ s1, rb_node_alloc_common cl tr k v s = Some (new_node s fl, s1) ∧ alloc_post s tr cf fl t k v (new_node s fl) s1 ∧
    rb_slab s1 = new_slab s fl.
Proof.
  intros Hok Hheap. pose proof Hok as [Hnull [Hh Ht] Hrb Hk Hfree Hdisj].
  unfold rb_node_alloc_common, new_node, new_slab. destruct fl as [|nd fl]; simpl in Hfree.
  - assert (freelist_pop_loop cl tr s = Some (0, s)) as Hpop.
    { destruct cl; simpl; rewrite (rdt_bind _ _ _ _ _ Hh); simpl; by rewrite Hfree. }
    rewrite (ST_bind_run _ _ _ _ _ Hpop). simpl. unfold node_alloc.
    destruct (scx_alloc (rb_slab s)) as [p a'] eqn:Ea.
    unfold mbind at 1, ST_bind at 1. rewrite Ea. destruct (Z.eqb_spec p 0) as [->|Hp].
    + eexists _. split; [reflexivity|]. split; [|done]. exists cf, []. split_and!; try done.
      * intros b Hb. simpl in *. rewrite (scx_alloc_null _ _ Ea). by apply Hheap.
      * by left.
    + rewrite (init_node_run _ _ (Rbnode 0 0 0 0 0 false)) by apply lookup_insert_eq.
      simpl. rewrite insert_insert_eq. eexists _. split; [reflexivity|]. split; [|done]. by apply alloc_fresh.
  - destruct Hfree as (Hfl & Hnd & n & Hn & Hfree).
    set (cf1 := RbConf (rb_parent n) (cf_alloc cf) (cf_insert cf)).
    assert (freelist_pop_loop cl tr s = Some (nd,
      RbState (rb_nodes s) (<[tr := rb_hdr cf1 (addr t)]> (rb_trees s)) (rb_slab s))) as Hpop.
    { simpl in Hh. rewrite Hfl in Hh.
      destruct cl; simpl; unfold cmpxchg_freelist, rdt, wrt, rd, mbind, ST_bind, mret, ST_ret;
        heap_run; reflexivity. }
    rewrite (ST_bind_run _ _ _ _ _ Hpop). rewrite (proj2 (Z.eqb_neq nd _)), ret_bind by done.
    rewrite (proj2 (Z.eqb_neq nd _)) by done. rewrite (init_node_run _ _ n) by done.
    eexists _. split; [reflexivity|]. split; [|done].
    exact (alloc_reuse _ _ _ _ _ _ k v n Hok Hheap Hn).
Qed.

(** The leftmost node. *)
Lemma rbnode_least_spec cl c t s :
  tree_in rb_mk (rb_nodes s) c t → t ≠ Leaf → (height t ≤ S cl)%nat →
  ∃ c' a d r, rbnode_least cl (addr t) s = Some (a, s) ∧ t = plug c' (T Leaf a d r) ∧
    Forall (λ f, fr_dir f = false) c'.
Proof.
  revert c t. induction cl as [|cl IH]; intros c t Ht Hne Hh; destruct t as [|l a d r]; try done;
    simpl in Hh; pose proof (tree_in_root _ _ _ _ _ _ _ Ht) as Ha; simpl;
    erewrite rd_bind by exact Ha; simpl; destruct l as [|ll la ld lr]; simpl in *;
    try (exists [], a, d, r; by split_and!); [lia|].
  destruct (descend _ c false (T ll la ld lr) a d r Ht) as [Ht' E]; [done|].
  simpl in E. rewrite E.
  destruct (IH _ _ Ht') as (c' & a' & d' & r' & Hrun & -> & Hall); [done|simpl; lia|].
  simpl in Hrun. exists (c' ++ [Fr false a d r]), a', d', r'. rewrite plug_app. split_and!; try done.
  apply Forall_app. by repeat constructor.
Qed.

Lemma cpre_left c : Forall (λ f : frame rbdata, fr_dir f = false) c → cpre c = [].
Proof. induction 1 as [|f c Hf Hc IH]; simpl; [done|]. by rewrite IH, Hf. Qed.

End ops.
