(* ===== verification/RbtreeRemove.v ===== *)
(** * Red-black tree: removal

    [rb_node_remove] deletes exactly the entry of the removed node, keeps the
    invariant and, for a tree that owns its nodes, puts the node on the free
    list. *)

From S2P Require Import Prelude Slab ArenaTree RedBlack Rbtree RbtreeBase RbtreeInsert RbtreeLink.
From S2P Require Import RbtreeRebalance RbtreeOps.

Section remove.
Context {A : Type} `{SlabAllocator A}.
Implicit Types (s : rb_state A) (c : ctx rbdata) (t l r : tree rbdata).

Lemma unlink_spec s tr cf f c a d :
  rb_at s tr cf (f :: c) (T Leaf a d Leaf) →
  ∃ s', wr (fr_addr f) (with_child (fr_dir f) NULL) s = Some (tt, s') ∧
    rb_at s' tr cf (f :: c) Leaf ∧ rb_frame s s' tr [fr_addr f].
Proof.
  intros [Hh [Hnd Hr Hc]]. pose proof Hnd as Hnd'.
  destruct f as [[] p pd u]; simpl in Hh, Hc; destruct_and?; nodup_facts Hnd'.
  all: unfold wr; heap_run; eexists; split; [reflexivity|].
  all: split; [split; [by heap_run|split]|split].
  all: try layout_tac.
  all: try (intros x Hx; nodup_facts Hx; by heap_run).
  all: simpl in Hnd |- *; rewrite !NoDup_cons, !not_elem_of_cons in *; tauto.
Qed.

(** Removing the root of a one-node tree. *)
Lemma unlink_root_spec s tr cf a d :
  rb_at s tr cf [] (T Leaf a d Leaf) →
  ∃ s', wrt tr (with_root NULL) s = Some (tt, s') ∧
    rb_at s' tr cf [] Leaf ∧ rb_frame s s' tr [].
Proof.
  intros [Hh _]. unfold wrt. rewrite Hh. eexists; split; [reflexivity|].
  split; [split; simpl|split; simpl]; try done.
  - by rewrite lookup_insert_eq.
  - split; [|done..]. simpl. repeat constructor. set_solver.
  - intros b Hb. by apply lookup_insert_ne.
Qed.

(** Replacing a black node by its only child. *)
Lemma splice_spec s tr cf c (side : bool) a d b db :
  rb_at s tr cf c (bin side (T Leaf b db Leaf) a d Leaf) →
  ∃ s', (∀ k : ST (rb_state A) Z,
      (p ← rd a rb_parent;
       wr b (with_parent p);;
       (if p =? NULL then wrt tr (with_root b) else
          dir ← rbnode_dir a;
          wr p (with_child dir b));;
       wr b (with_red false);; k) s = k s') ∧
    rb_at s' tr cf c (T Leaf b (recolor false db) Leaf) ∧
    rb_nodes s' !! a = rb_nodes s !! a ∧ rb_frame s s' tr (b :: caddrs c).
Proof.
  intros [Hh [Hnd Hr Hc]].
  assert (NoDup (0 :: addrs (T Leaf b (recolor false db) Leaf) ++ caddrs c)) as Hnd2.
  { destruct side; simpl in *; rewrite !NoDup_cons, !not_elem_of_cons in *; tauto. }
  destruct side, c as [|[[] ca cd cs] c];
    simpl in Hh, Hr, Hc; destruct_and?; pose proof Hnd as Hnd'; nodup_facts Hnd'.
  all: unfold rbnode_dir, rd, wr, rdt, wrt, mbind, ST_bind, mret, ST_ret.
  all: eexists; split; [intros k; heap_run; reflexivity|].
  all: split_and!; [split; [by heap_run|split]|by heap_run|split].
  all: try exact Hnd2.
  all: try layout_tac.
  all: try (intros ? Hx; nodup_facts Hx; by heap_run).
  all: intros ? ?; by heap_run.
Qed.

(** The optional release of an unlinked node. *)
Lemma maybe_free_spec cl s tr cf c t a n fl (free : bool) :
  rb_at s tr cf c t → rb_nodes s !! a = Some n → a ≠ 0 → a ∉ addrs t ++ caddrs c → a ∉ fl →
  chain (rb_nodes s) (cf_freelist cf) fl →
  let cf' := if free then RbConf a (cf_alloc cf) (cf_insert cf) else cf in
  ∃ s', (if free then rb_node_free cl tr a else mret 0) s = Some (0, s') ∧
    rb_at s' tr cf' c t ∧
    chain (rb_nodes s') (cf_freelist cf') (if free then a :: fl else fl) ∧
    rb_frame s s' tr [a].
Proof.
  intros [Hh Ht] Ha Ha0 Hfresh Hfl Hch. destruct free.
  2: { exists s. by split_and!. }
  rewrite (rb_node_free_spec _ _ _ _ _ _ _ Hh Ha). eexists; split; [reflexivity|].
  split_and!; [split; simpl|simpl|split; simpl].
  - by rewrite lookup_insert_eq.
  - eapply tree_in_agree; [|done]. intros b Hb. apply lookup_insert_ne. set_solver.
  - split_and!; [done..|]. eexists. split; [apply lookup_insert_eq|]. simpl.
    eapply chain_agree; [|done]. intros b Hb. apply lookup_insert_ne. set_solver.
  - intros b Hb. apply lookup_insert_ne. set_solver.
  - intros b Hb. by apply lookup_insert_ne.
  - done.
Qed.

(** What the removal of the node [a] ends with, before the key order is
    considered. *)
Definition removed s s' (tr : Z) (cf : rbconf) (fl : list Z) (a : Z) (free : bool)
    (foot : list Z) (contents : list (Z * Z * Z)) : Prop :=
  ∃ cf' t', rb_at s' tr cf' [] t' ∧ rb_tree rd_red t' ∧ entries t' = contents ∧
    cf_alloc cf' = cf_alloc cf ∧ cf_insert cf' = cf_insert cf ∧
    chain (rb_nodes s') (cf_freelist cf') (if free then a :: fl else fl) ∧
    rb_frame s s' tr foot.

(** Freeing the unlinked node, then what is left to do to the tree. *)
Lemma removed_after_free cl s s1 tr cf c t0 a n fl (free : bool) (L : list Z) (k : ST (rb_state A) Z) :
  rb_at s1 tr cf c t0 → rb_nodes s1 !! a = Some n → a ≠ 0 →
  NoDup (a :: (addrs t0 ++ caddrs c) ++ fl) → chain (rb_nodes s) (cf_freelist cf) fl →
  rb_frame s s1 tr (addrs t0 ++ caddrs c) → a :: addrs t0 ++ caddrs c ⊆ L →
  (∀ (cf' : rbconf) s2, rb_at s2 tr cf' c t0 → ∃ s3, k s2 = Some (0, s3) ∧ rebalanced s2 s3 tr cf' t0 c) →
  ∃ s', ((if free then rb_node_free cl tr a else mret 0);; k) s1 = Some (0, s') ∧
    removed s s' tr cf fl a free L (entries (plug c t0)).
Proof.
  intros Hat Ha Ha0 [Ha' Hnd]%NoDup_cons Hch Hfr HL Hk.
  apply NoDup_app in Hnd as (_ & Hd & _).
  destruct (maybe_free_spec cl s1 tr cf c t0 a n fl free Hat Ha Ha0)
    as (s2 & Hrun2 & Hat2 & Hch2 & Hfr2); [set_solver..| |].
  { eapply chain_agree; [|exact Hch]. intros x Hx. apply (fr_nodes _ _ _ _ Hfr). set_solver. }
  rewrite (ST_bind_run _ _ _ _ _ Hrun2).
  destruct (Hk _ _ Hat2) as (s3 & Hrun3 & t' & Hat3 & Hrb & He & Hfr3).
  exists s3. split; [done|]. eexists _, t'. split_and!; [exact Hat3|done|done| | | |].
  1,2: by destruct free.
  - eapply chain_agree; [|exact Hch2]. intros x Hx. apply (fr_nodes _ _ _ _ Hfr3).
    destruct free; set_solver.
  - eapply rb_frame_trans; [eapply rb_frame_trans|exact Hfr3|]; [|exact Hfr2|..].
    1: eapply rb_frame_mono; [exact Hfr|]. all: set_solver.
Qed.

(** A node with a single child is black and its child is a red leaf node. *)
Lemma single_child_colors c (side : bool) u a d :
  rb_tree rd_red (plug c (bin side u a d Leaf)) → u ≠ Leaf →
  ∃ b db, u = T Leaf b db Leaf ∧ rd_red d = false ∧ rd_red db = true ∧ rbc rd_red c 1 false.
Proof.
  rewrite rb_tree_plug. intros (n & Hrb & Hc) Hne. rewrite is_red_bin in Hc.
  rewrite rbt_bin in Hrb. destruct u as [|l b db r]; [done|]. destruct (rd_red d) eqn:Ed.
  - destruct Hrb as (Hb & _ & Hu & ->). simpl in Hb, Hu. rewrite Hb in Hu.
    by destruct Hu as (m & ? & _).
  - destruct Hrb as (m & -> & Hu & ->). simpl in Hu. destruct (rd_red db) eqn:Edb.
    + destruct Hu as (Hlb & Hrb & Hl & Hr). exists b, db. split_and!; try done.
      assert (∀ t, is_red rd_red t = false → rbt rd_red t 0 → t = Leaf) as Hleaf.
      { intros [|? ? dd ?]; simpl; [done|]. intros ->. by intros (? & ? & _). }
      by rewrite (Hleaf l Hlb Hl), (Hleaf r Hrb Hr).
    + by destruct Hu as (? & ? & _).
Qed.

Lemma remove_single_child cl s tr cf c (side : bool) u a d fl free :
  rb_at s tr cf c (bin side u a d Leaf) → rb_tree rd_red (plug c (bin side u a d Leaf)) →
  u ≠ Leaf → chain (rb_nodes s) (cf_freelist cf) fl →
  NoDup (addrs (plug c (bin side u a d Leaf)) ++ fl) →
  ∃ s', rbnode_remove_node_single_child cl tr a free s = Some (0, s') ∧
    removed s s' tr cf fl a free (addrs (plug c (bin side u a d Leaf)))
      (entries (plug c u)).
Proof.
  intros Hat Hrb Hne Hch Hnd.
  destruct (single_child_colors _ _ _ _ _ Hrb Hne) as (b & db & -> & Hd & Hdb & Hc).
  destruct (splice_spec _ _ _ _ _ _ _ _ _ Hat) as (s1 & Hrun & Hat1 & Ha & Hfr1).
  destruct (cell_bin s tr cf c [] side _ a d Leaf Hat) as (na & Hna & Hcl & Hcr & Hra & _).
  destruct (cell_bin s tr cf c [Fr side a d Leaf] side Leaf b db Leaf) as (nb & Hnb & _ & _ & Hrb' & _).
  { rewrite plug_bin1. by destruct side. }
  unfold rbnode_remove_node_single_child.
  rewrite (rd_bind _ _ _ _ _ Hna), Hra, Hd, (rd_bind _ _ _ _ _ Hna).
  assert (∀ k : Z → ST (rb_state A) Z,
    ((if rb_left na =? NULL then rd a rb_right else mret (rb_left na)) ≫= k) s = k b s) as Hchild.
  { assert (b ≠ 0) as Hb0 by (eapply tree_in_nonnull; [apply Hat|]; destruct side; simpl; set_solver).
    intros k. destruct side; cbn in Hcl, Hcr; rewrite ?Hcl, ?Hcr; simpl.
    - rewrite (rd_bind _ _ _ _ _ Hna). by rewrite Hcl.
    - by rewrite (proj2 (Z.eqb_neq b _)), ret_bind. }
  rewrite Hchild, (rd_bind _ _ _ _ _ Hnb), Hrb', Hdb. cbn [negb]. rewrite Hrun.
  replace (entries (plug c (T Leaf b db Leaf)))
    with (entries (plug c (T Leaf b (recolor false db) Leaf))) by (by rewrite !entries_plug).
  rewrite addrs_plug in Hnd.
  eapply (removed_after_free cl s s1 tr cf c _ a na fl free); try done.
  - by rewrite Ha.
  - eapply tree_in_nonnull; [apply Hat|]; destruct side; simpl; set_solver.
  - by destruct side.
  - intros x. rewrite addrs_plug. by destruct side.
  - intros cf' s2 Hat2. exists s2. split; [done|].
    eapply (rebalanced_intro _ _ _ _ _ _ _ 1); try done. by exists 0%nat.
Qed.

(** A node with no children. *)
Lemma remove_no_child cl s tr cf c a d fl (free : bool) :
  rb_at s tr cf c (T Leaf a d Leaf) → rb_tree rd_red (plug c (T Leaf a d Leaf)) →
  chain (rb_nodes s) (cf_freelist cf) fl → NoDup (addrs (plug c (T Leaf a d Leaf)) ++ fl) →
  (length c < cl)%nat →
  ∃ s', (parent ← rd a rb_parent;
    if parent =? NULL then
      wrt tr (with_root NULL);;
      (if free then rb_node_free cl tr a else mret 0);;
      mret 0
    else
    dir ← rbnode_dir a;
    wr parent (with_child dir NULL);;
    nred ← rd a rb_is_red;
    (if free then rb_node_free cl tr a else mret 0);;
    if (nred : bool) then mret 0 else
    sibling ← rd parent (rb_child (negb dir));
    if sibling =? NULL then mret (- EINVAL) else
    e ← rb_node_remove_loop cl tr a parent sibling dir;
    rm_finish tr a e) s = Some (0, s') ∧
    removed s s' tr cf fl a free (addrs (plug c (T Leaf a d Leaf))) (entries (plug c Leaf)).
Proof.
  intros Hat Hrb Hch Hnd Hcl. pose proof (at_root _ _ _ _ _ _ _ _ Hat) as Ha.
  assert (a ≠ 0) as Ha0 by (eapply tree_in_nonnull; [apply Hat|]; simpl; left).
  rewrite addrs_plug in Hnd. simpl in Hnd.
  rewrite (rd_bind _ _ _ _ _ Ha). apply rb_tree_plug in Hrb as (n & Hrb & Hc). simpl.
  destruct c as [|f c]; simpl.
  - destruct (unlink_root_spec _ _ _ _ _ Hat) as (s1 & Hw & Hat1 & Hfr1).
    rewrite (ST_bind_run _ _ _ _ _ Hw).
    eapply (removed_after_free cl s s1 tr cf [] Leaf); try done.
    + rewrite (fr_nodes _ _ _ _ Hfr1); [exact Ha|set_solver].
    + intros cf' s2 Hat2. exists s2. split; [done|]. by eapply (rebalanced_intro _ _ _ _ _ _ _ 0).
  - rewrite (proj2 (Z.eqb_neq _ _)) by (eapply tree_in_caddr, at_tree; exact Hat).
    rewrite (ST_bind_run _ _ _ _ _ (rbnode_dir_focus _ _ _ _ _ _ _ _ _ Hat)).
    destruct (unlink_spec _ _ _ _ _ _ _ Hat) as (s1 & Hw & Hat1 & Hfr1).
    rewrite (ST_bind_run _ _ _ _ _ Hw).
    assert (rb_nodes s1 !! a = Some (rb_mk (caddr (f :: c)) 0 0 d)) as Ha1.
    { rewrite (fr_nodes _ _ _ _ Hfr1); [exact Ha|]. apply NoDup_cons in Hnd. set_solver. }
    rewrite (rd_bind _ _ _ _ _ Ha1). simpl.
    eapply (removed_after_free cl s s1 tr cf (f :: c) Leaf a _ fl free); try done.
    + eapply rb_frame_mono; [exact Hfr1|]. simpl. set_solver.
    + intros x. rewrite (addrs_plug (f :: c) (T Leaf a d Leaf) : addrs (plug c _) ≡ₚ _). done.
    + intros cf' s2 Hat2. cbn [is_red] in Hc. cbn [rbt is_red] in Hrb. destruct (rd_red d).
      * destruct Hrb as (_ & _ & -> & _). exists s2. split; [done|].
        eapply (rebalanced_intro _ _ _ _ _ _ _ 0); try done. by apply rbc_weaken.
      * destruct Hrb as (m & -> & -> & _).
        assert (fr_sib f ≠ Leaf) as Hsib.
        { intros E. simpl in Hc. rewrite E in Hc. simpl in Hc. case_match; naive_solver. }
        pose proof (at_parent _ _ _ _ _ _ Hat2) as Hf. rewrite (rd_bind _ _ _ _ _ Hf).
        assert (rb_child (negb (fr_dir f)) (mk_frame rb_mk (caddr c) f (addr (Leaf (D := rbdata))))
          = addr (fr_sib f)) as -> by (by destruct f as [[] ???]).
        rewrite (proj2 (Z.eqb_neq _ _)).
        2: { eapply tree_in_nonnull; [apply Hat2|]. simpl. pose proof (addr_in _ Hsib). set_solver. }
        by apply (remove_loop_spec cl s2 tr cf' (f :: c) Leaf 0); [..|left].
Qed.

(** Colours and shape decide the red-black discipline. *)
Lemma rbt_plug_cong c t t' :
  is_red rd_red t = is_red rd_red t' → (∀ n, rbt rd_red t n ↔ rbt rd_red t' n) →
  is_red rd_red (plug c t) = is_red rd_red (plug c t') ∧
  ∀ n, rbt rd_red (plug c t) n ↔ rbt rd_red (plug c t') n.
Proof.
  revert t t'; induction c as [|f c IH]; intros t t' Hr Hn; simpl; [done|].
  apply IH; [by rewrite !is_red_plug1|]. intros n. rewrite !rbt_plug1, Hr.
  destruct (rd_red (fr_data f)); [by rewrite Hn|by setoid_rewrite Hn].
Qed.

Lemma height_plug_cong c (t t' : tree rbdata) :
  height t = height t' → height (plug c t) = height (plug c t').
Proof.
  revert t t'; induction c as [|f c IH]; intros t t' E; simpl; [done|].
  apply IH. destruct f as [[] ???]; simpl; by rewrite E.
Qed.

(** Moving a node with two children to the place of its successor. *)
Lemma remove_switch cl s tr cf c l a d r :
  rb_at s tr cf c (T l a d r) → l ≠ Leaf → r ≠ Leaf → (height r ≤ S cl)%nat →
  ∃ s1 c2 d2 r2, (replace ← rbnode_least cl (addr r); rbnode_switch tr replace a) s = Some (tt, s1) ∧
    rb_at s1 tr cf c2 (T Leaf a d2 r2) ∧
    (rb_tree rd_red (plug c (T l a d r)) → rb_tree rd_red (plug c2 (T Leaf a d2 r2))) ∧
    entries (plug c2 r2) = (entry <$> cpre c) ++ entries l ++ entries r ++ (entry <$> cpost c) ∧
    addrs (plug c2 (T Leaf a d2 r2)) ≡ₚ addrs (plug c (T l a d r)) ∧
    height (plug c2 (T Leaf a d2 r2)) = height (plug c (T l a d r)) ∧
    rb_frame s s1 tr (addrs (plug c (T l a d r))).
Proof.
  intros Hat Hl Hr Hh.
  assert (rb_at s tr cf (Fr true a d l :: c) r) as Hatr by (by apply rb_at_plug1).
  destruct (rbnode_least_spec cl _ r s (at_tree _ _ _ _ _ Hatr) Hr Hh)
    as (c' & b & db & r2 & Hrun & -> & Hall).
  rewrite (ST_bind_run _ _ _ _ _ Hrun).
  destruct (switch_spec _ _ _ _ _ _ _ _ _ _ _ Hat Hl Hall) as (s1 & Hw & Hat1 & Hfr).
  set (d2 := recolor (rd_red db) d) in *. set (db2 := recolor (rd_red d) db) in *.
  exists s1, (c' ++ Fr true b db2 l :: c), d2, r2. rewrite !plug_app.
  assert (addrs (plug c' (T Leaf a d2 r2)) ≡ₚ a :: addrs r2 ++ caddrs c') as E1 by (by rewrite addrs_plug).
  assert (addrs (plug c' (T Leaf b db r2)) ≡ₚ b :: addrs r2 ++ caddrs c') as E2 by (by rewrite addrs_plug).
  split_and!; [done| | | | | |].
  - apply rb_at_plug. by apply rb_at_plug1.
  - intros (n & Hn). exists n. cbn [plug]. eapply (rbt_plug_cong c); [| |exact Hn]; [done|].
    intros m. simpl.
    destruct (rbt_plug_cong c' (T Leaf a d2 r2) (T Leaf b db r2)) as [Hr' Hn']; [done|done|].
    rewrite Hr'. destruct (rd_red d); [by rewrite Hn'|by setoid_rewrite Hn'].
  - cbn [plug]. change (plug1 (Fr true b db2 l) ?t) with (T l b db2 t).
    rewrite (entries_plug c), entries_T, !(entries_plug c'), (cpre_left c') by done.
    entries_tac.
  - cbn [plug plug1]. rewrite !addrs_plug. simpl. rewrite E1, E2.
    rewrite <-!Permutation_middle. apply Permutation_swap.
  - cbn [plug]. apply height_plug_cong. simpl. f_equal. f_equal. by apply height_plug_cong.
  - eapply rb_frame_mono; [exact Hfr|]. intros x. by rewrite addrs_plug.
Qed.

(** The part of [rb_node_remove] after the switch, at a node with at most one
    child. *)
Lemma remove_detached cl s tr cf c l a d r fl (free : bool) :
  rb_at s tr cf c (T l a d r) → rb_tree rd_red (plug c (T l a d r)) → l = Leaf ∨ r = Leaf →
  chain (rb_nodes s) (cf_freelist cf) fl → NoDup (addrs (plug c (T l a d r)) ++ fl) →
  (length c < cl)%nat →
  ∃ s', (l ← rd a rb_left;
    r ← rd a rb_right;
    if negb (Bool.eqb (l =? NULL) (r =? NULL)) then
      rbnode_remove_node_single_child cl tr a free
    else
    parent ← rd a rb_parent;
    if parent =? NULL then
      wrt tr (with_root NULL);;
      (if free then rb_node_free cl tr a else mret 0);;
      mret 0
    else
    dir ← rbnode_dir a;
    wr parent (with_child dir NULL);;
    nred ← rd a rb_is_red;
    (if free then rb_node_free cl tr a else mret 0);;
    if (nred : bool) then mret 0 else
    sibling ← rd parent (rb_child (negb dir));
    if sibling =? NULL then mret (- EINVAL) else
    e ← rb_node_remove_loop cl tr a parent sibling dir;
    rm_finish tr a e) s = Some (0, s') ∧
    removed s s' tr cf fl a free (addrs (plug c (T l a d r)))
      ((entry <$> cpre c) ++ entries l ++ entries r ++ (entry <$> cpost c)).
Proof.
  intros Hat Hrb Hone Hch Hnd Hcl. pose proof (at_root _ _ _ _ _ _ _ _ Hat) as Ha.
  rewrite (rd_bind _ _ _ _ _ Ha), (rd_bind _ _ _ _ _ Ha). simpl.
  assert (∀ t, t ≠ Leaf → t = l ∨ t = r → (addr t =? 0) = false) as Hnz.
  { intros t Ht Hin. apply Z.eqb_neq. eapply tree_in_nonnull; [apply Hat|].
    pose proof (addr_in t Ht). destruct Hin as [-> | ->]; simpl; set_solver. }
  destruct (decide (l = Leaf)) as [->|Hl]; [destruct (decide (r = Leaf)) as [->|Hr]|].
  - simpl. destruct (remove_no_child cl s tr cf c a d fl free Hat Hrb Hch Hnd Hcl) as (s' & Hrun & Hpost).
    exists s'. split; [exact Hrun|]. by rewrite entries_plug in Hpost.
  - rewrite (Hnz r) by auto. simpl.
    destruct (remove_single_child cl s tr cf c true r a d fl free Hat Hrb Hr Hch Hnd) as (s' & Hrun & Hpost).
    exists s'. split; [exact Hrun|]. by rewrite entries_plug in Hpost.
  - destruct Hone as [?| ->]; [done|]. rewrite (Hnz l) by auto. simpl.
    destruct (remove_single_child cl s tr cf c false l a d fl free Hat Hrb Hl Hch Hnd) as (s' & Hrun & Hpost).
    exists s'. split; [exact Hrun|]. by rewrite entries_plug in Hpost.
Qed.

(** The abstract effect: the entry of the node disappears. *)
Definition remove_addr (a : Z) : list (Z * Z * Z) → list (Z * Z * Z) :=
  filter (λ e, e.1.1 ≠ a).

Lemma remove_addr_split c l a d r :
  NoDup (addrs (plug c (T l a d r))) →
  remove_addr a (entries (plug c (T l a d r))) =
    (entry <$> cpre c) ++ entries l ++ entries r ++ (entry <$> cpost c).
Proof.
  rewrite addrs_entries, entries_plug, entries_T. unfold remove_addr.
  rewrite <-!app_assoc. simpl. rewrite !fmap_app. csimpl. intros Hnd.
  assert (∀ m : list (Z * Z * Z), a ∉ (λ e, e.1.1) <$> m → filter (λ e, e.1.1 ≠ a) m = m) as Hall.
  { intros m Hm. apply filter_all, Forall_forall. intros x Hx <-. apply Hm.
    apply (list_elem_of_fmap_2 (λ e : Z * Z * Z, e.1.1) m x Hx). }
  rewrite !filter_app, filter_cons_False by (intros Hx; by apply Hx).
  rewrite !filter_app. rewrite <-!Permutation_middle in Hnd. apply NoDup_cons in Hnd as [Hnd _].
  rewrite ?fmap_app, !not_elem_of_app in Hnd. destruct_and!. by rewrite !Hall.
Qed.

Lemma keys_ok_remove mode a (m : list (Z * Z * Z)) :
  keys_ok mode m → keys_ok mode (remove_addr a m).
Proof.
  intros [Hs Hd]. unfold remove_addr. split.
  - unfold key_sorted in *. clear Hd. induction Hs as [|x m Hs IH Hx]; [constructor|].
    rewrite filter_cons. case_decide; [|done]. constructor; [done|].
    apply Forall_forall. intros y [_ Hy]%list_elem_of_filter. rewrite Forall_forall in Hx. auto.
  - intros Hm. eapply sublist_NoDup; [by apply Hd|]. apply fmap_sublist, sublist_filter.
Qed.

Lemma addrs_removed c l a d r t' :
  NoDup (addrs (plug c (T l a d r))) →
  entries t' = remove_addr a (entries (plug c (T l a d r))) →
  a :: addrs t' ≡ₚ addrs (plug c (T l a d r)).
Proof.
  intros Hnd He. rewrite !addrs_entries, He, remove_addr_split by done.
  rewrite entries_plug, entries_T, !fmap_app. csimpl. rewrite ?fmap_app.
  rewrite <-!app_assoc. simpl. by rewrite <-!Permutation_middle.
Qed.

(** The first part of [rb_node_remove]: afterwards the node has at most one
    child and nothing else moved in in-order. *)
Lemma remove_prepare cl s tr cf c l a d r :
  rb_at s tr cf c (T l a d r) → rb_tree rd_red (plug c (T l a d r)) →
  (S (height (plug c (T l a d r))) < cl)%nat →
  ∃ s1 c2 l2 d2 r2,
    (∀ k : ST (rb_state A) Z, (l ← rd a rb_left;
     r ← rd a rb_right;
     (if negb (l =? NULL) && negb (r =? NULL) then
       replace ← rbnode_least cl r;
       rbnode_switch tr replace a
     else mret tt);; k) s = k s1) ∧
    rb_at s1 tr cf c2 (T l2 a d2 r2) ∧ rb_tree rd_red (plug c2 (T l2 a d2 r2)) ∧
    (l2 = Leaf ∨ r2 = Leaf) ∧ (length c2 < cl)%nat ∧
    (entry <$> cpre c2) ++ entries l2 ++ entries r2 ++ (entry <$> cpost c2) =
      (entry <$> cpre c) ++ entries l ++ entries r ++ (entry <$> cpost c) ∧
    addrs (plug c2 (T l2 a d2 r2)) ≡ₚ addrs (plug c (T l a d r)) ∧
    rb_frame s s1 tr (addrs (plug c (T l a d r))).
Proof.
  intros Hat Hrb Hh. pose proof (at_root _ _ _ _ _ _ _ _ Hat) as Ha.
  setoid_rewrite (rd_bind _ _ _ _ _ Ha). setoid_rewrite (rd_bind _ _ _ _ _ Ha). simpl.
  pose proof (length_ctx_height c (T l a d r)) as Hlen.
  destruct (decide (l = Leaf ∨ r = Leaf)) as [Hone|[Hl Hr]%Decidable.not_or].
  - exists s, c, l, d, r. split_and!; try done; [|lia]. intros k.
    rewrite <-negb_orb.
    replace ((addr l =? 0) || (addr r =? 0)) with true; [done|].
    symmetry. apply orb_true_iff. destruct Hone as [-> | ->]; auto.
  - destruct (remove_switch cl s tr cf c l a d r Hat Hl Hr)
      as (s1 & c2 & d2 & r2 & Hrun & Hat1 & Hrb1 & He & Hp & Hh1 & Hfr).
    { simpl in Hlen. lia. }
    exists s1, c2, Leaf, d2, r2. split_and!; auto.
    + intros k. rewrite !(proj2 (Z.eqb_neq _ _)); [|..]; cbn [negb andb].
      * by rewrite (ST_bind_run _ _ _ _ _ Hrun).
      * eapply tree_in_nonnull; [apply Hat|]. pose proof (addr_in _ Hr). simpl. set_solver.
      * eapply tree_in_nonnull; [apply Hat|]. pose proof (addr_in _ Hl). simpl. set_solver.
    + pose proof (length_ctx_height c2 (T Leaf a d2 r2)). lia.
    + by rewrite <-He, entries_plug.
Qed.

(** [rb_node_remove] on a node of the tree. *)
Lemma rb_node_remove_spec cl s tr cf fl t c l a d r free :
  rb_ok s tr cf fl t → t = plug c (T l a d r) → budget cl (length (entries t)) →
  ∃ s' cf' t', rb_node_remove cl tr a free s = Some (0, s') ∧
    rb_ok s' tr cf' (if free then a :: fl else fl) t' ∧ entries t' = remove_addr a (entries t) ∧
    cf_alloc cf' = cf_alloc cf ∧ cf_insert cf' = cf_insert cf ∧ rb_frame s s' tr (addrs t).
Proof.
  intros Hok Et Hcl. pose proof (ok_height _ _ _ _ _ _ Hok Hcl) as Hh.
  destruct Hok as [Hnull Hat Hrb Hkeys Hch Hnd]. rewrite Et in *. apply rb_at_top in Hat.
  destruct (remove_prepare cl s tr cf c l a d r Hat Hrb Hh)
    as (s1 & c2 & l2 & d2 & r2 & Hsw & Hat1 & Hrb1 & Hone & Hlen & He & Hp & Hfr1).
  unfold rb_node_remove. rewrite Hsw.
  destruct (remove_detached cl s1 tr cf c2 l2 a d2 r2 fl free Hat1 Hrb1 Hone)
    as (s' & Hrun & cf' & t' & Hat' & Hrb' & He' & Ha' & Hi' & Hch' & Hfr'); [| |done|].
  - eapply chain_agree; [|exact Hch]. intros x Hx. apply (fr_nodes _ _ _ _ Hfr1).
    apply NoDup_app in Hnd as (_ & Hd & _). set_solver.
  - by rewrite Hp.
  - pose proof Hnd as (Hnd1 & _ & _)%NoDup_app.
    rewrite He, <-(remove_addr_split c l a d r Hnd1) in He'.
    rewrite <-(addrs_removed _ _ _ _ _ _ Hnd1 He') in Hnd.
    exists s', cf', t'. split_and!; try done.
    + split; try done.
      * rewrite He', Hi'. by apply keys_ok_remove.
      * destruct free; [by rewrite <-Permutation_middle|]. by apply NoDup_cons in Hnd as [_ ?].
    + eapply rb_frame_trans; [exact Hfr1|exact Hfr'|]. intros x. by rewrite Hp.
Qed.
End remove.
