(* ===== verification/RbtreeCorrect.v ===== *)
(** * Red-black tree: the theorems

    The functional correctness of every exported operation of
    [lib/rbtree.bpf.c] on a tree that satisfies [rb_ok]: each operation
    terminates without a fault within the [can_loop] budget, returns the code
    the contents call for, changes the contents as its abstract counterpart
    does, re-establishes [rb_ok], and leaves every other tree and node
    alone. *)

From S2P Require Import Prelude Slab ArenaTree RedBlack Rbtree RbtreeBase RbtreeInsert RbtreeLink.
From S2P Require Import RbtreeRebalance RbtreeOps RbtreeRemove.

Section claims.
Context {A : Type} `{SlabAllocator A}.
Implicit Types (s : rb_state A) (c : ctx rbdata) (t l r : tree rbdata).

(** Frames of operations that only touch known nodes keep the heap closed. *)
Lemma heap_frame s s' tr L :
  rb_frame s s' tr L → (∀ a, a ∈ L → is_Some (rb_nodes s !! a)) → rb_heap s → rb_heap s'.
Proof.
  intros [Hn _ Hs] HL Hheap a Ha. rewrite Hs. apply Hheap.
  destruct (decide (a ∈ L)) as [Hin|Hin]; [by apply HL|]. by rewrite <-Hn.
Qed.

Lemma rb_insert_node_spec cl s tr cf fl t nd n :
  rb_ok s tr cf fl t → cf_alloc cf = RB_NOALLOC → rb_nodes s !! nd = Some n →
  nd ≠ NULL → nd ∉ addrs t ++ fl → budget cl (length (entries t)) →
  ∃ ret s' cf' t',
    rb_insert_node cl tr nd s = Some (ret, s') ∧
    rb_ok s' tr cf' fl t' ∧ cf_alloc cf' = cf_alloc cf ∧ cf_insert cf' = cf_insert cf ∧
    rb_frame s s' tr (nd :: addrs t) ∧
    (ret, entries t') = insert_result (cf_insert cf) (nd, rb_key n, rb_value n) (entries t).
Proof.
  intros Hok Ha Hn Hn0 Hfresh Hcl. pose proof (at_hdr _ _ _ _ _ (ok_at _ _ _ _ _ Hok)) as Hh.
  unfold rb_insert_node. rewrite (proj2 (Z.eqb_neq tr _)) by apply Hok.
  rewrite (rdt_bind _ _ _ _ _ Hh). simpl. rewrite Ha. simpl.
  set (s1 := RbState (<[nd := Rbnode 0 0 0 (rb_key n) (rb_value n) true]> (rb_nodes s))
               (rb_trees s) (rb_slab s)).
  assert (∀ m : ST (rb_state A) Z,
    (wr nd (with_red true);; wr nd (with_left NULL);; wr nd (with_right NULL);;
     wr nd (with_parent NULL);; m) s = m s1) as Hinit.
  { intros m. unfold wr, mbind, ST_bind. heap_run. by rewrite !insert_insert_eq. }
  rewrite Hinit.
  pose proof (rb_node_insert_spec cl s1 tr cf fl t nd (rb_key n) (rb_value n)) as Hspec.
  destruct (insert_result _ _ _) as [ret contents].
  destruct Hspec as (s' & Hrun & cf' & fl' & t' & Hok' & He & Ha' & Hi' & Hfr & Hfl & _);
    try done.
  1: by apply ok_write.
  1: apply lookup_insert_eq.
  rewrite (Hfl Ha) in Hok'. clear fl' Hfl.
  exists ret, s', cf', t'. split_and!; try done; [congruence| |congruence].
  eapply (rb_frame_trans _ s1); [|exact Hfr|done].
  split; try done. intros b Hb. apply lookup_insert_ne. set_solver.
Qed.

(** insertion of a caller-owned node ([rb_insert_node], [RB_NOALLOC]).  On every tree that satisfies [rb_ok], within a logarithmic [can_loop] budget, the call returns the code and produces the contents that [insert_result] prescribes for the tree's insertion mode, the red-black and search-tree invariants hold again, and no memory other than the node, the tree's nodes and its header changes. *)
Theorem rb_insert_node_correct cl s tr cf fl t nd n :
  rb_ok s tr cf fl t → cf_alloc cf = RB_NOALLOC → rb_nodes s !! nd = Some n →
  nd ≠ NULL → nd ∉ addrs t ++ fl → budget cl (length (entries t)) →
  ∃ ret s' cf' t',
    rb_insert_node cl tr nd s = Some (ret, s') ∧
    rb_ok s' tr cf' fl t' ∧ cf_alloc cf' = cf_alloc cf ∧ cf_insert cf' = cf_insert cf ∧
    rb_frame s s' tr (nd :: addrs t) ∧
    (ret, entries t') = insert_result (cf_insert cf) (nd, rb_key n, rb_value n) (entries t).
Proof. apply rb_insert_node_spec. Qed.

Lemma insert_result_fail mode e (m : list (Z * Z * Z)) ret contents :
  insert_result mode e m = (ret, contents) → ret ≠ 0 → contents = m.
Proof. unfold insert_result. repeat case_match; naive_solver. Qed.

Lemma others_weaken s s' tr (L L' : list Z) : rb_others s s' tr L → L ⊆ L' → rb_others s s' tr L'.
Proof. intros [Hn Ht] HL. split; [|done]. intros a Ha. apply Hn. set_solver. Qed.

Lemma others_trans s s1 s2 tr (L L' : list Z) :
  rb_others s s1 tr L → rb_frame s1 s2 tr L' →
  (∀ a, a ∈ L' → a ∈ L ∨ rb_nodes s !! a = None) → rb_others s s2 tr L.
Proof.
  intros [Hn Ht] [Hn' Ht' _] HL. split.
  - intros a Ha Hs. rewrite Hn'; [by apply Hn|]. intros Hin.
    destruct (HL _ Hin) as [|E]; [done|]. rewrite E in Hs. by apply is_Some_None in Hs.
  - intros a Ha. by rewrite Ht', Ht.
Qed.

(** Once the node is allocated: insert it, or put it back on the free list. *)
Lemma insert_or_free cl s tr cf fl t nd key value :
  rb_ok s tr cf fl t → rb_heap s → cf_alloc cf = RB_ALLOC →
  rb_nodes s !! nd = Some (Rbnode 0 0 0 key value true) → nd ≠ 0 → nd ∉ addrs t ++ fl →
  budget cl (length (entries t)) →
  ∃ ret s' cf' fl' t',
    (ret ← rb_node_insert cl tr nd;
     if negb (ret =? 0) then rb_node_free cl tr nd;; mret ret else mret 0) s = Some (ret, s') ∧
    rb_ok s' tr cf' fl' t' ∧ rb_heap s' ∧ rb_frame s s' tr (nd :: addrs t) ∧
    cf_alloc cf' = cf_alloc cf ∧ cf_insert cf' = cf_insert cf ∧
    (ret, entries t') = insert_result (cf_insert cf) (nd, key, value) (entries t) ∧
    addrs t' ++ fl' ≡ₚ nd :: addrs t ++ fl.
Proof.
  intros Hok Hheap Ha Hn Hn0 Hfresh Hcl.
  assert (∀ a, a ∈ nd :: addrs t → is_Some (rb_nodes s !! a)) as Hdom.
  { intros a [->|Hin]%elem_of_cons; [by eexists|]. eapply tree_in_dom; [|done]. apply Hok. }
  pose proof (rb_node_insert_spec cl s tr cf fl t nd key value Hok Hn Hn0 Hfresh Hcl) as Hspec.
  destruct (insert_result _ _ _) as [ret contents] eqn:Eres.
  destruct Hspec as (s2 & Hrun & cf2 & fl2 & t2 & Hok2 & He & Ha2 & Hi2 & Hfr & _ & Hret).
  rewrite (ST_bind_run _ _ _ _ _ Hrun). destruct (Z.eqb_spec ret 0) as [->|Hr]; simpl.
  { exists 0, s2, cf2, fl2, t2. split_and!; try done; [|by rewrite He|by apply Hret].
    by eapply heap_frame. }
  destruct Hret as [-> ->]. apply insert_result_fail in Eres as ->; [|done].
  assert (addrs t2 ≡ₚ addrs t) as Hp by (by rewrite !addrs_entries, He).
  destruct (free_ok cl s tr cf2 fl t2 nd _ Hok2 Hn Hn0) as (s3 & Hrun3 & Hok3 & Hfr3).
  { by rewrite Hp. }
  rewrite (ST_bind_run _ _ _ _ _ Hrun3).
  assert (rb_frame s s3 tr (nd :: addrs t)) as Hfr3' by (eapply rb_frame_mono; [done|set_solver]).
  eexists ret, s3, _, _, t2. split_and!; try done; [by eapply heap_frame|by rewrite He|].
  by rewrite <-Permutation_middle, Hp.
Qed.

(** C3: insertion of a key/value pair ([rb_insert], [RB_ALLOC]).  The node is the head of the free list, or what the allocator returns when that list is empty.  When it returns [NULL] the call fails with [-ENOMEM] and the contents stay; otherwise code and contents are those [insert_result] prescribes for this node.  Either way [rb_ok] holds again, the allocator is called only for an empty free list, and no node is leaked: tree and free list together hold the old nodes and the new one, a refused or replaced node on the free list. *)
Theorem rb_insert_correct cl s tr cf fl t key value :
  rb_ok s tr cf fl t → rb_heap s → cf_alloc cf = RB_ALLOC → budget cl (length (entries t)) →
  let nd := new_node s fl in
  ∃ ret s' cf' fl' t',
    rb_insert cl tr key value s = Some (ret, s') ∧
    rb_ok s' tr cf' fl' t' ∧ rb_heap s' ∧ rb_others s s' tr (addrs t ++ fl) ∧ rb_slab s' = new_slab s fl ∧
    cf_alloc cf' = cf_alloc cf ∧ cf_insert cf' = cf_insert cf ∧
    if decide (nd = NULL) then ret = - ENOMEM ∧ entries t' = entries t ∧ fl' = fl
    else (ret, entries t') = insert_result (cf_insert cf) (nd, key, value) (entries t) ∧
       addrs t' ++ fl' ≡ₚ (match fl with [] => [nd] | _ => [] end) ++ addrs t ++ fl.
Proof.
  intros Hok Hheap Ha Hcl nd. pose proof (at_hdr _ _ _ _ _ (ok_at _ _ _ _ _ Hok)) as Hh.
  unfold rb_insert. rewrite (proj2 (Z.eqb_neq tr _)) by apply Hok.
  rewrite (rdt_bind _ _ _ _ _ Hh). simpl. rewrite bool_decide_true by done. simpl.
  destruct (alloc_common_spec cl s tr cf fl t key value Hok Hheap)
    as (s1 & Hrun & (cf1 & fl1 & Hok1 & Hheap1 & Ha1 & Hi1 & Ho1 & Hcase) & Hslab).
  fold nd in Hrun, Hcase. rewrite (ST_bind_run _ _ _ _ _ Hrun).
  destruct Hcase as [(-> & -> & ->)|(Hn0 & Hn & Hfresh & Hfl)].
  { simpl. eexists _, s1, cf1, [], t. split_and!; try done.
    eapply others_weaken; [done|set_solver]. }
  rewrite (proj2 (Z.eqb_neq nd _)) by done.
  destruct (insert_or_free cl s1 tr cf1 fl1 t nd key value)
    as (ret & s2 & cf2 & fl2 & t2 & Hrun2 & Hok2 & Hheap2 & Hfr2 & Ha2 & Hi2 & Hres & Hp);
    try done; [congruence|].
  exists ret, s2, cf2, fl2, t2. rewrite (decide_False (P := nd = NULL)), Ha2, Hi2, <-Hi1 by done. split_and!; try done.
  - eapply others_trans; [eapply others_weaken; [exact Ho1|]|exact Hfr2|]; [set_solver|].
    intros a [->|Hin]%elem_of_cons; [|left; set_solver].
    destruct Hfl as [E|(E & _ & ?)]; rewrite E; [left; set_solver|by right].
  - by rewrite (fr_slab _ _ _ _ Hfr2).
  - rewrite Hp. destruct Hfl as [E|(E & -> & _)]; rewrite E; [|done]. by rewrite <-Permutation_middle.
Qed.

(** [rb_find] returns the value of an entry with the key when there is one and [-EINVAL] exactly when there is none; the state does not change. *)
Theorem rb_find_correct cl s tr cf fl t key :
  rb_ok s tr cf fl t → budget cl (length (entries t)) →
  (∃ nd v, rb_find cl tr key true s = Some (0, Some v, s) ∧ (nd, key, v) ∈ entries t) ∨
  (rb_find cl tr key true s = Some (- EINVAL, None, s) ∧ key ∉ ekey <$> entries t).
Proof.
  intros Hok Hcl. pose proof (ok_height _ _ _ _ _ _ Hok Hcl) as Hh.
  destruct Hok as [Hnull Hat Hrb Hkeys Hfree Hdisj].
  unfold rb_find. rewrite (rdt_bind _ _ _ _ _ (at_hdr _ _ _ _ _ Hat)). simpl.
  destruct (decide (t = Leaf)) as [->|Hne].
  { right. split; [|apply not_elem_of_nil].
    unfold mbind, ST_bind; simpl. by rewrite (proj2 (Z.eqb_neq tr _)). }
  destruct (rbnode_find_spec cl s t key (at_tree _ _ _ _ _ Hat) Hne) as
    (c & l & p & d & r & Hrun & Et & Hpre & Hpost & Hstop); [lia|apply Hkeys|].
  rewrite (ST_bind_run _ _ _ _ _ Hrun). rewrite (proj2 (Z.eqb_neq tr _)) by done. simpl.
  rewrite Et in Hat. apply rb_at_top in Hat.
  pose proof (at_root _ _ _ _ _ _ _ _ Hat) as Hp.
  rewrite (proj2 (Z.eqb_neq p _)) by (eapply tree_in_nonnull; [apply Hat|simpl; left]).
  rewrite (rd_bind _ _ _ _ _ Hp). simpl. destruct (Z.eqb_spec (rd_key d) key) as [<-|Hk]; simpl.
  - left. exists p, (rd_value d). rewrite (rd_bind _ _ _ _ _ Hp). split; [done|].
    rewrite Et, entries_plug, entries_T. set_solver.
  - right. split; [done|]. rewrite Et. apply find_absent; try done. rewrite <-Et. apply Hkeys.
Qed.

Lemma rb_least_spec cl s tr cf fl t :
  rb_ok s tr cf fl t → budget cl (length (entries t)) →
  rb_least cl tr true true s =
    Some (match entries t with
          | [] => (- ENOENT, None, None)
          | (_, k, v) :: _ => (0, Some k, Some v)
          end, s).
Proof.
  intros Hok Hcl. pose proof (ok_height _ _ _ _ _ _ Hok Hcl) as Hh.
  destruct Hok as [Hnull Hat Hrb Hkeys Hfree Hdisj].
  unfold rb_least. rewrite (rdt_bind _ _ _ _ _ (at_hdr _ _ _ _ _ Hat)). simpl.
  destruct (decide (t = Leaf)) as [->|Hne]; [done|].
  rewrite (proj2 (Z.eqb_neq (addr t) _)) by (eapply tree_in_addr; [apply Hat|done]).
  destruct (rbnode_least_spec cl [] t s (at_tree _ _ _ _ _ Hat) Hne)
    as (c & a & d & r & Hrun & Et & Hall); [lia|].
  rewrite (ST_bind_run _ _ _ _ _ Hrun).
  rewrite Et, entries_plug, entries_T, cpre_left by done. csimpl.
  rewrite Et in Hat. apply rb_at_top, at_root in Hat.
  unfold rd, mbind, ST_bind. by heap_run.
Qed.

(** [rb_least] returns the first entry in key order, or [-ENOENT] on an empty tree, and changes nothing. *)
Theorem rb_least_correct cl s tr cf fl t :
  rb_ok s tr cf fl t → budget cl (length (entries t)) →
  rb_least cl tr true true s =
    Some (match entries t with
          | [] => (- ENOENT, None, None)
          | (_, k, v) :: _ => (0, Some k, Some v)
          end, s).
Proof. apply rb_least_spec. Qed.

(** Removal by key, on a tree that owns its nodes. *)
Lemma rb_remove_spec cl s tr cf fl t key :
  rb_ok s tr cf fl t → cf_alloc cf = RB_ALLOC → budget cl (length (entries t)) →
  (key ∉ ekey <$> entries t ∧ rb_remove cl tr key s = Some (- ENOENT, s)) ∨
  ∃ a v s' cf' t', (a, key, v) ∈ entries t ∧ rb_remove cl tr key s = Some (0, s') ∧
    rb_ok s' tr cf' (a :: fl) t' ∧ entries t' = remove_addr a (entries t) ∧
    cf_alloc cf' = cf_alloc cf ∧ cf_insert cf' = cf_insert cf ∧ rb_frame s s' tr (addrs t).
Proof.
  intros Hok Ha Hcl. pose proof (ok_height _ _ _ _ _ _ Hok Hcl) as Hh.
  pose proof Hok as [Hnull Hat Hrb Hkeys Hfree Hdisj]. unfold rb_remove.
  rewrite (proj2 (Z.eqb_neq tr _)) by done.
  rewrite (rdt_bind _ _ _ _ _ (at_hdr _ _ _ _ _ Hat)). simpl. rewrite bool_decide_true by done.
  simpl. rewrite (rdt_bind _ _ _ _ _ (at_hdr _ _ _ _ _ Hat)). simpl.
  destruct (decide (t = Leaf)) as [->|Hne].
  { left. split; [apply not_elem_of_nil|done]. }
  rewrite (proj2 (Z.eqb_neq (addr t) _)) by (eapply tree_in_addr; [apply Hat|done]).
  destruct (rbnode_find_spec cl s t key (at_tree _ _ _ _ _ Hat) Hne) as
    (c & l & p & d & r & Hrun & Et & Hpre & Hpost & Hstop); [lia|apply Hkeys|].
  rewrite (ST_bind_run _ _ _ _ _ Hrun). pose proof Hat as Hatf. rewrite Et in Hatf.
  apply rb_at_top in Hatf. pose proof (at_root _ _ _ _ _ _ _ _ Hatf) as Hp.
  rewrite (proj2 (Z.eqb_neq p _)) by (eapply tree_in_nonnull; [apply Hatf|simpl; left]).
  rewrite (rd_bind _ _ _ _ _ Hp). simpl. destruct (Z.eqb_spec (rd_key d) key) as [<-|Hk]; simpl.
  - right. destruct (rb_node_remove_spec cl s tr cf fl t c l p d r true Hok Et Hcl)
      as (s' & cf' & t' & Hrem). exists p, (rd_value d), s', cf', t'.
    split; [rewrite Et, entries_plug, entries_T; set_solver|done].
  - left. split; [|done]. rewrite Et. apply find_absent; try done. rewrite <-Et. apply Hkeys.
Qed.

Lemma rb_remove_node_spec cl s tr cf fl t nd :
  rb_ok s tr cf fl t → cf_alloc cf = RB_NOALLOC → nd ∈ addrs t →
  budget cl (length (entries t)) →
  ∃ s' cf' t', rb_remove_node cl tr nd s = Some (0, s') ∧
    rb_ok s' tr cf' fl t' ∧ cf_alloc cf' = cf_alloc cf ∧ cf_insert cf' = cf_insert cf ∧
    entries t' = remove_addr nd (entries t) ∧ rb_frame s s' tr (addrs t).
Proof.
  intros Hok Ha Hin Hcl. destruct (addr_focus _ _ Hin) as (c & l & d & r & Et).
  destruct (rb_node_remove_spec cl s tr cf fl t c l nd d r false Hok Et Hcl)
    as (s' & cf' & t' & Hrun & Hok' & He & Ha' & Hi' & Hfr).
  exists s', cf', t'. split_and!; try done. unfold rb_remove_node.
  rewrite (proj2 (Z.eqb_neq tr _)) by apply Hok.
  rewrite (rdt_bind _ _ _ _ _ (at_hdr _ _ _ _ _ (ok_at _ _ _ _ _ Hok))). simpl.
  by rewrite Ha.
Qed.

(** [rb_remove_node] on a linked node succeeds, deletes exactly that node's entry, keeps every invariant of the tree and touches only the tree's own nodes. *)
Theorem rb_remove_node_correct cl s tr cf fl t nd :
  rb_ok s tr cf fl t → cf_alloc cf = RB_NOALLOC → nd ∈ addrs t →
  budget cl (length (entries t)) →
  ∃ s' cf' t', rb_remove_node cl tr nd s = Some (0, s') ∧
    rb_ok s' tr cf' fl t' ∧ cf_alloc cf' = cf_alloc cf ∧ cf_insert cf' = cf_insert cf ∧
    entries t' = remove_addr nd (entries t) ∧ rb_frame s s' tr (addrs t).
Proof. apply rb_remove_node_spec. Qed.

Lemma rb_pop_spec cl s tr cf fl t :
  rb_ok s tr cf fl t → cf_alloc cf = RB_NOALLOC → budget cl (length (entries t)) →
  match entries t with
  | [] => rb_pop cl tr true true s = Some (- ENOENT, None, None, s)
  | (a, k, v) :: rest =>
      ∃ s' cf' t', rb_pop cl tr true true s = Some (0, Some k, Some v, s') ∧
        rb_ok s' tr cf' fl t' ∧ cf_alloc cf' = cf_alloc cf ∧ cf_insert cf' = cf_insert cf ∧
        entries t' = rest ∧ rb_frame s s' tr (addrs t)
  end.
Proof.
  intros Hok Ha Hcl. pose proof (ok_height _ _ _ _ _ _ Hok Hcl) as Hh.
  pose proof Hok as [Hnull Hat Hrb Hkeys Hfree Hdisj]. unfold rb_pop.
  rewrite (proj2 (Z.eqb_neq tr _)) by done.
  rewrite (rdt_bind _ _ _ _ _ (at_hdr _ _ _ _ _ Hat)). simpl.
  destruct (decide (t = Leaf)) as [->|Hne]; [done|].
  rewrite (proj2 (Z.eqb_neq (addr t) _)) by (eapply tree_in_addr; [apply Hat|done]).
  destruct (rbnode_least_spec cl [] t s (at_tree _ _ _ _ _ Hat) Hne)
    as (c & a & d & r & Hrun & Et & Hall); [lia|].
  assert (entries t = (a, rd_key d, rd_value d) :: entries r ++ (entry <$> cpost c)) as He.
  { rewrite Et, entries_plug, entries_T, (cpre_left c) by done. done. }
  rewrite He.
  destruct (rb_node_remove_spec cl s tr cf fl t c Leaf a d r false Hok Et Hcl)
    as (s' & cf' & t' & Hrem & Hok' & He' & Ha' & Hi' & Hfr).
  exists s', cf', t'. split_and!; try done.
  - rewrite (ST_bind_run _ _ _ _ _ Hrun). pose proof Hat as Hatf. rewrite Et in Hatf.
    apply rb_at_top in Hatf. pose proof (at_root _ _ _ _ _ _ _ _ Hatf) as Hp.
    rewrite (proj2 (Z.eqb_neq a _)) by (eapply tree_in_nonnull; [apply Hatf|simpl; left]).
    unfold rb_remove_node. rewrite (proj2 (Z.eqb_neq tr _)) by done.
    pose proof (at_hdr _ _ _ _ _ Hat) as Hhdr.
    unfold rd, rdt, mbind, ST_bind in *. heap_run. rewrite Ha. simpl. by rewrite Hrem.
  - rewrite He'. rewrite Et in Hdisj |- *. apply NoDup_app in Hdisj as (Hnd & _ & _).
    by rewrite remove_addr_split, (cpre_left c).
Qed.

(** [rb_pop] on a tree of caller-owned nodes returns the smallest entry and removes exactly it; on an empty tree it returns [-ENOENT]. *)
Theorem rb_pop_correct cl s tr cf fl t :
  rb_ok s tr cf fl t → cf_alloc cf = RB_NOALLOC → budget cl (length (entries t)) →
  match entries t with
  | [] => rb_pop cl tr true true s = Some (- ENOENT, None, None, s)
  | (a, k, v) :: rest =>
      ∃ s' cf' t', rb_pop cl tr true true s = Some (0, Some k, Some v, s') ∧
        rb_ok s' tr cf' fl t' ∧ cf_alloc cf' = cf_alloc cf ∧ cf_insert cf' = cf_insert cf ∧
        entries t' = rest ∧ rb_frame s s' tr (addrs t)
  end.
Proof. apply rb_pop_spec. Qed.

(** The draining loop of [rb_destroy] moves every node to the free list. *)
Lemma destroy_drain_spec cl clr s tr cf fl t :
  rb_ok s tr cf fl t → cf_alloc cf = RB_ALLOC → budget clr (length (entries t)) →
  (length (entries t) ≤ cl)%nat →
  ∃ s' cf' fl', rb_destroy_drain cl clr tr s = Some (0, s') ∧ rb_ok s' tr cf' fl' Leaf ∧
    fl' ≡ₚ addrs t ++ fl ∧ rb_frame s s' tr (addrs t).
Proof.
  revert s cf fl t. induction cl as [|cl IH]; intros s cf fl t Hok Ha Hcl Hlen;
    pose proof (at_hdr _ _ _ _ _ (ok_at _ _ _ _ _ Hok)) as Hh;
    cbn [rb_destroy_drain]; rewrite (rdt_bind _ _ _ _ _ Hh); simpl;
    destruct t as [|l a d r]; simpl;
    try (exists s, cf, fl; split_and!; [done|done|done|apply rb_frame_refl]).
  { exfalso. rewrite entries_T, length_app in Hlen. simpl in Hlen. lia. }
  pose proof (at_root _ _ _ _ _ _ _ _ (ok_at _ _ _ _ _ Hok)) as Hroot.
  rewrite (proj2 (Z.eqb_neq a _)) by (eapply tree_in_nonnull; [apply Hok|simpl; left]).
  rewrite (rd_bind _ _ _ _ _ Hroot). simpl.
  destruct (rb_remove_spec clr s tr cf fl _ (rd_key d) Hok Ha Hcl)
    as [[Habs _]|(b & v & s1 & cf1 & t1 & Hin & Hrun & Hok1 & He & Ha1 & _ & Hfr)].
  { exfalso. apply Habs. rewrite entries_T, fmap_app. csimpl. set_solver. }
  rewrite (ST_bind_run _ _ _ _ _ Hrun). simpl.
  assert (b ∈ addrs (T l a d r)) as Hb.
  { rewrite addrs_entries. apply (list_elem_of_fmap_2 (λ e, e.1.1) _ _ Hin). }
  change (a :: addrs l ++ addrs r) with (addrs (T l a d r)).
  change (a :: (addrs l ++ addrs r) ++ fl) with (addrs (T l a d r) ++ fl).
  destruct (addr_focus _ _ Hb) as (c & l' & d' & r' & Et). rewrite Et in *.
  pose proof (ok_disj _ _ _ _ _ Hok) as (Hnd & _ & _)%NoDup_app.
  pose proof (addrs_removed _ _ _ _ _ _ Hnd He) as Hp.
  assert (length (entries (plug c (T l' b d' r'))) = S (length (entries t1))) as Hlen1.
  { apply Permutation_length in Hp. by rewrite !addrs_entries in Hp; simpl in Hp; rewrite !length_fmap in Hp. }
  destruct (IH s1 cf1 (b :: fl) t1 Hok1) as (s2 & cf2 & fl2 & Hrun2 & Hok2 & Hp2 & Hfr2).
  - congruence.
  - unfold budget in *. pose proof (Nat.log2_le_mono (S (length (entries t1)))
      (S (length (entries (plug c (T l' b d' r')))))). lia.
  - lia.
  - exists s2, cf2, fl2. split_and!; [done|done| |].
    + rewrite Hp2, <-Hp. by rewrite <-Permutation_middle.
    + eapply rb_frame_trans; [exact Hfr|exact Hfr2|]. intros x Hx. rewrite <-Hp. by right.
Qed.

(** The second loop of [rb_destroy] returns the free list to the allocator. *)
Lemma destroy_freelist_spec cl s p fl :
  chain (rb_nodes s) p fl → NoDup fl → (length fl ≤ cl)%nat →
  ∃ s', rb_destroy_freelist cl p s = Some (tt, s') ∧ rb_trees s' = rb_trees s ∧
    (∀ a, a ∈ fl → rb_nodes s' !! a = None) ∧
    (∀ a, a ∉ fl → rb_nodes s' !! a = rb_nodes s !! a) ∧
    slab_live (rb_slab s') = slab_live (rb_slab s) ∖ list_to_set fl.
Proof.
  revert s p fl. induction cl as [|cl IH]; intros s p [|a fl] Hc Hnd Hlen; simpl in *; subst;
    try lia; try (exists s; split_and!; [done|done|set_solver|done|set_solver]).
  destruct Hc as (-> & Ha & n & Hn & Hc). apply NoDup_cons in Hnd as [Hnin Hnd].
  rewrite (proj2 (Z.eqb_neq a _)) by done. rewrite (rd_bind _ _ _ _ _ Hn).
  set (s1 := RbState (delete a (rb_nodes s)) (rb_trees s) (scx_free a (rb_slab s))).
  rewrite (ST_bind_run (node_release a) _ s tt s1) by done.
  destruct (IH s1 (rb_parent n) fl) as (s' & Hrun & Ht & Hin & Hout & Hlive); [|done|lia|].
  { eapply chain_agree; [|exact Hc]. intros b Hb. simpl. apply lookup_delete_ne. set_solver. }
  exists s'. split_and!; [done|done| | |].
  - intros b Hb. destruct (decide (b ∈ fl)); [by apply Hin|].
    rewrite Hout by done. simpl. assert (b = a) as -> by set_solver. apply lookup_delete_eq.
  - intros b Hb. rewrite Hout by set_solver. simpl. apply lookup_delete_ne. set_solver.
  - rewrite Hlive. simpl. rewrite scx_free_spec. set_solver.
Qed.

(** [rb_destroy] frees the header, every node of the tree and every node of the free list, and nothing else. *)
Theorem rb_destroy_correct cl clr s tr cf fl t :
  rb_ok s tr cf fl t → cf_alloc cf = RB_ALLOC → budget clr (length (entries t)) →
  (length (addrs t ++ fl) ≤ cl)%nat →
  ∃ s', rb_destroy cl clr tr s = Some (0, s') ∧
    rb_trees s' !! tr = None ∧ (∀ a, a ≠ tr → rb_trees s' !! a = rb_trees s !! a) ∧
    (∀ a, a ∈ addrs t ++ fl → rb_nodes s' !! a = None) ∧
    (∀ a, a ∉ addrs t ++ fl → rb_nodes s' !! a = rb_nodes s !! a) ∧
    slab_live (rb_slab s') = slab_live (rb_slab s) ∖ ({[tr]} ∪ list_to_set (addrs t ++ fl)).
Proof.
  intros Hok Ha Hcl Hlen.
  destruct (destroy_drain_spec cl clr s tr cf fl t Hok Ha Hcl)
    as (s1 & cf1 & fl1 & Hrun & Hok1 & Hp & Hfr).
  { unfold entries. rewrite length_app in Hlen. rewrite length_fmap, <-length_addrs_elems. lia. }
  unfold rb_destroy. rewrite (ST_bind_run _ _ _ _ _ Hrun). simpl.
  rewrite (rdt_bind _ _ _ _ _ (at_hdr _ _ _ _ _ (ok_at _ _ _ _ _ Hok1))). simpl.
  destruct (destroy_freelist_spec cl s1 (cf_freelist cf1) fl1) as (s2 & Hrun2 & Ht & Hin & Hout & Hlive).
  - apply Hok1.
  - apply (ok_disj _ _ _ _ _ Hok1).
  - by rewrite Hp.
  - rewrite (ST_bind_run _ _ _ _ _ Hrun2). eexists; split; [reflexivity|]. simpl.
    split_and!.
    + apply lookup_delete_eq.
    + intros a Hne. rewrite lookup_delete_ne, Ht by done. by apply (fr_trees _ _ _ _ Hfr).
    + intros a Hin'. apply Hin. by rewrite Hp.
    + intros a Hout'. rewrite Hout by (by rewrite Hp). apply (fr_nodes _ _ _ _ Hfr). set_solver.
    + rewrite scx_free_spec, Hlive, (fr_slab _ _ _ _ Hfr).
      apply set_eq. intros x. rewrite !elem_of_difference, elem_of_union, elem_of_singleton,
        !elem_of_list_to_set, Hp. tauto.
Qed.

(** C8: removal by key ([rb_remove], [RB_ALLOC]).  When no entry has the key the call returns [-ENOENT] and changes nothing; otherwise it returns 0, exactly one entry with that key disappears, its node goes to the free list and the red-black and search-tree invariants hold again. *)
Theorem rb_remove_correct cl s tr cf fl t key :
  rb_ok s tr cf fl t → cf_alloc cf = RB_ALLOC → budget cl (length (entries t)) →
  if decide (key ∈ ekey <$> entries t) then
    ∃ a v s' cf' t', (a, key, v) ∈ entries t ∧ rb_remove cl tr key s = Some (0, s') ∧
      rb_ok s' tr cf' (a :: fl) t' ∧ entries t' = remove_addr a (entries t) ∧
      rb_frame s s' tr (addrs t)
  else rb_remove cl tr key s = Some (- ENOENT, s).
Proof.
  intros Hok Ha Hcl. destruct (rb_remove_spec cl s tr cf fl t key Hok Ha Hcl)
    as [[Hout ?]|(a & v & s' & cf' & t' & Hin & ? & ? & ? & ? & ? & ?)].
  - by rewrite decide_False.
  - rewrite decide_True; [by exists a, v, s', cf', t'|].
    apply (list_elem_of_fmap_2 ekey _ _ Hin).
Qed.

Lemma rb_create_spec s alloc insert :
  (∀ a, is_Some (rb_trees s !! a) → a ∈ slab_live (rb_slab s)) →
  ∃ p s', rb_create_internal alloc insert s = Some (p, s') ∧ rb_nodes s' = rb_nodes s ∧
    (∀ a, is_Some (rb_trees s !! a) → rb_trees s' !! a = rb_trees s !! a) ∧
    (if decide (p = NULL) then
       rb_trees s' = rb_trees s ∧ slab_live (rb_slab s') = slab_live (rb_slab s)
     else p ∉ slab_live (rb_slab s) ∧ slab_live (rb_slab s') = {[p]} ∪ slab_live (rb_slab s) ∧
       (∀ a, a ≠ p → rb_trees s' !! a = rb_trees s !! a) ∧
       rb_ok s' p (RbConf NULL alloc insert) [] Leaf).
Proof.
  intros Hlive. unfold rb_create_internal, tree_alloc, wrt, mbind, ST_bind, mret, ST_ret.
  destruct (scx_alloc (rb_slab s)) as [p a'] eqn:Ea. destruct (Z.eqb_spec p 0) as [->|Hp].
  - eexists 0, _. split_and!; try done. simpl. split; [done|]. by apply scx_alloc_null.
  - simpl. rewrite lookup_insert_eq. destruct (scx_alloc_spec _ _ _ Ea Hp) as [Hfresh Hlive'].
    assert (rb_trees s !! p = None) as Hnone.
    { apply eq_None_not_Some. intros Hin. by apply Hfresh, Hlive. }
    eexists p, _. split_and!; [done|done| |].
    + simpl. intros a [x Hx]. rewrite !lookup_insert_ne; [done|congruence..].
    + rewrite decide_False by done. split_and!; [done|done| |].
      { intros a Ha. simpl. by rewrite !lookup_insert_ne. }
      split; try done.
      * split; [simpl; by rewrite lookup_insert_eq|]. split; [|done..]. simpl.
        repeat constructor. set_solver.
      * by exists 0%nat.
      * split; [constructor|intros; constructor].
      * constructor.
Qed.

(** [rb_create] returns [NULL] without creating a tree, or the address of a new empty tree of the requested kind that satisfies [rb_ok]; existing nodes and trees are unchanged. *)
Theorem rb_create_correct s alloc insert :
  (∀ a, is_Some (rb_trees s !! a) → a ∈ slab_live (rb_slab s)) →
  ∃ p s', rb_create_internal alloc insert s = Some (p, s') ∧ rb_nodes s' = rb_nodes s ∧
    (∀ a, is_Some (rb_trees s !! a) → rb_trees s' !! a = rb_trees s !! a) ∧
    (if decide (p = NULL) then
       rb_trees s' = rb_trees s ∧ slab_live (rb_slab s') = slab_live (rb_slab s)
     else p ∉ slab_live (rb_slab s) ∧ slab_live (rb_slab s') = {[p]} ∪ slab_live (rb_slab s) ∧
       (∀ a, a ≠ p → rb_trees s' !! a = rb_trees s !! a) ∧
       rb_ok s' p (RbConf NULL alloc insert) [] Leaf).
Proof. apply rb_create_spec. Qed.
End claims.

(** ** A concrete allocator and tree *)

(** A tree of three nodes at address 1000. *)
Definition ex_tree : tree rbdata :=
  T (T Leaf 1 (RbData 10 100 true) Leaf) 2 (RbData 20 200 false) (T Leaf 3 (RbData 30 300 true) Leaf).

Definition ex_state (alloc : rbtree_alloc) (mode : rbtree_insert_mode) : rb_state (gset Z) :=
  RbState
    (<[1 := Rbnode 2 0 0 10 100 true]> (<[2 := Rbnode 0 1 3 20 200 false]>
      (<[3 := Rbnode 2 0 0 30 300 true]> (<[4 := Rbnode 7 7 7 25 250 false]> ∅))))
    (<[1000 := Rbtree 2 0 alloc mode]> ∅) {[1; 2; 3; 4; 1000]}.

Lemma ex_ok alloc mode : rb_ok (ex_state alloc mode) 1000 (RbConf 0 alloc mode) [] ex_tree.
Proof.
  split; [done| | | |done|].
  - split; [done|]. split; [|done|done]. vm_compute addrs. decide_now.
  - by exists 1%nat, 0%nat.
  - split; [|intros _; decide_now].
    repeat constructor; unfold ekey; simpl; lia.
  - decide_now.
Qed.

Lemma ex_heap alloc mode : rb_heap (ex_state alloc mode).
Proof.
  intros a. simpl. rewrite !lookup_insert_is_Some', lookup_empty. unfold id.
  intros [<-|[<-|[<-|[<-|[? ?]]]]]; set_solver.
Qed.

Ltac ex_hyps := first [apply ex_ok | apply ex_heap | reflexivity | vm_compute; lia].

Lemma rb_insert_correct_witness :
  ∃ s' cf' fl' t', rb_insert 131 1000 25 5 (ex_state RB_ALLOC RB_DUPLICATE) = Some (0, s') ∧
    rb_ok s' 1000 cf' fl' t' ∧ rb_heap s' ∧
    entries t' = [(1, 10, 100); (2, 20, 200); (1064, 25, 5); (3, 30, 300)].
Proof.
  destruct (rb_insert_correct 131 (ex_state RB_ALLOC RB_DUPLICATE) 1000
    (RbConf 0 RB_ALLOC RB_DUPLICATE) [] ex_tree 25 5) as (ret & s' & cf' & fl' & t' & ? & ? & ? & _ & _ & _ & _ & Hres);
    [ex_hyps..|].
  change (new_node (ex_state RB_ALLOC RB_DUPLICATE) []) with 1064 in Hres. rewrite decide_False in Hres by discriminate.
  destruct Hres as [E _]. injection E as -> E. exists s', cf', fl', t'. split_and!; assumption.
Defined.

Lemma rb_insert_node_correct_witness :
  ∃ ret s' cf' t', rb_insert_node 131 1000 4 (ex_state RB_NOALLOC RB_DEFAULT) = Some (ret, s') ∧
    rb_ok s' 1000 cf' [] t' ∧ entries t' = [(1, 10, 100); (2, 20, 200); (4, 25, 250); (3, 30, 300)].
Proof.
  destruct (rb_insert_node_correct 131 (ex_state RB_NOALLOC RB_DEFAULT) 1000
    (RbConf 0 RB_NOALLOC RB_DEFAULT) [] ex_tree 4 (Rbnode 7 7 7 25 250 false))
    as (ret & s' & cf' & t' & ? & ? & _ & _ & _ & E).
  1-3,6: ex_hyps.
  - done.
  - decide_now.
  - injection E as -> E. exists 0, s', cf', t'. split_and!; assumption.
Defined.

Lemma rb_find_correct_witness :
  (∃ nd v, rb_find 131 1000 30 true (ex_state RB_ALLOC RB_DEFAULT)
     = Some (0, Some v, ex_state RB_ALLOC RB_DEFAULT) ∧ (nd, 30, v) ∈ entries ex_tree) ∨
  (rb_find 131 1000 30 true (ex_state RB_ALLOC RB_DEFAULT)
     = Some (- EINVAL, None, ex_state RB_ALLOC RB_DEFAULT) ∧ 30 ∉ ekey <$> entries ex_tree).
Proof.
  apply (rb_find_correct 131 _ 1000 (RbConf 0 RB_ALLOC RB_DEFAULT) [] ex_tree 30); ex_hyps.
Defined.

Lemma rb_least_correct_witness :
  rb_least 131 1000 true true (ex_state RB_ALLOC RB_DEFAULT)
    = Some (0, Some 10, Some 100, ex_state RB_ALLOC RB_DEFAULT).
Proof. apply (rb_least_correct 131 _ 1000 (RbConf 0 RB_ALLOC RB_DEFAULT) [] ex_tree); ex_hyps. Defined.

Lemma rb_remove_correct_witness :
  ∃ a v s' cf' t', (a, 20, v) ∈ entries ex_tree ∧
    rb_remove 131 1000 20 (ex_state RB_ALLOC RB_DEFAULT) = Some (0, s') ∧
    rb_ok s' 1000 cf' [a] t' ∧ entries t' = remove_addr a (entries ex_tree).
Proof.
  pose proof (rb_remove_correct 131 (ex_state RB_ALLOC RB_DEFAULT) 1000
    (RbConf 0 RB_ALLOC RB_DEFAULT) [] ex_tree 20 ltac:(ex_hyps) ltac:(ex_hyps) ltac:(ex_hyps)) as H.
  rewrite decide_True in H; [|decide_now].
  destruct H as (a & v & s' & cf' & t' & ? & ? & ? & ? & _). exists a, v, s', cf', t'. split_and!; assumption.
Defined.

Lemma rb_remove_node_correct_witness :
  ∃ s' cf' t', rb_remove_node 131 1000 2 (ex_state RB_NOALLOC RB_DUPLICATE) = Some (0, s') ∧
    rb_ok s' 1000 cf' [] t' ∧ entries t' = [(1, 10, 100); (3, 30, 300)].
Proof.
  destruct (rb_remove_node_correct 131 (ex_state RB_NOALLOC RB_DUPLICATE) 1000
    (RbConf 0 RB_NOALLOC RB_DUPLICATE) [] ex_tree 2) as (s' & cf' & t' & ? & ? & _ & _ & ? & _).
  1,2,4: ex_hyps.
  - decide_now.
  - exists s', cf', t'. split_and!; assumption.
Defined.

Lemma rb_pop_correct_witness :
  ∃ s' cf' t', rb_pop 131 1000 true true (ex_state RB_NOALLOC RB_DUPLICATE)
      = Some (0, Some 10, Some 100, s') ∧
    rb_ok s' 1000 cf' [] t' ∧ entries t' = [(2, 20, 200); (3, 30, 300)].
Proof.
  destruct (rb_pop_correct 131 (ex_state RB_NOALLOC RB_DUPLICATE) 1000
    (RbConf 0 RB_NOALLOC RB_DUPLICATE) [] ex_tree) as (s' & cf' & t' & ? & ? & _ & _ & ? & _); [ex_hyps..|].
  exists s', cf', t'. split_and!; assumption.
Defined.

Lemma rb_destroy_correct_witness :
  ∃ s', rb_destroy 16 131 1000 (ex_state RB_ALLOC RB_DEFAULT) = Some (0, s') ∧
    rb_trees s' !! 1000 = None.
Proof.
  destruct (rb_destroy_correct 16 131 (ex_state RB_ALLOC RB_DEFAULT) 1000
    (RbConf 0 RB_ALLOC RB_DEFAULT) [] ex_tree) as (s' & ? & ? & _); [ex_hyps..|].
  exists s'. split_and!; assumption.
Defined.

Lemma rb_create_correct_witness :
  ∃ p s', rb_create_internal RB_ALLOC RB_UPDATE (ex_state RB_NOALLOC RB_DUPLICATE) = Some (p, s').
Proof.
  destruct (rb_create_correct (ex_state RB_NOALLOC RB_DUPLICATE) RB_ALLOC RB_UPDATE)
    as (p & s' & ? & _); [|exists p, s'; assumption].
  intros a. simpl. rewrite lookup_insert_is_Some', lookup_empty. unfold id.
  intros [<-|[? ?]]; set_solver.
Defined.
