(* ===== verification/RbtreeContract.v ===== *)
(** * What the red-black tree promises to its clients

    The task queues use a tree of caller-owned nodes that accepts duplicate
    keys ([rb_create(RB_NOALLOC, RB_DUPLICATE)]).  [RbQueue] is the contract
    they rely on: an abstract view of a tree as the list of its entries in key
    order, and the effect of each operation on that view.  The last part of
    the file discharges the contract with the theorems on the pointer
    structure. *)

From S2P Require Import Prelude Slab ArenaTree RedBlack Rbtree RbtreeBase RbtreeInsert RbtreeLink.
From S2P Require Import RbtreeOps RbtreeRemove RbtreeCorrect.

(** ** No operation on caller-owned nodes makes a node disappear

    [keeps m]: every node that exists before [m] runs exists afterwards. *)
Section keeps.
Context {A : Type} `{SlabAllocator A}.

Definition keeps {X} (m : ST (rb_state A) X) : Prop :=
  ∀ s x s', m s = Some (x, s') →
  ∀ a, is_Some (rb_nodes s !! a) → is_Some (rb_nodes s' !! a).

Lemma keeps_ret {X} (x : X) : keeps (mret x).
Proof. by intros s y s' [= <- <-]. Qed.

Lemma keeps_bind {X Y} (m : ST (rb_state A) X) (f : X → ST (rb_state A) Y) :
  keeps m → (∀ x, keeps (f x)) → keeps (m ≫= f).
Proof.
  intros Hm Hf s y s' (x & s1 & H1 & H2)%ST_bind_inv a Ha.
  eapply Hf; [done|]. by eapply Hm.
Qed.

Lemma keeps_rd {X} a (f : rbnode → X) : keeps (rd a f).
Proof. intros s x s'. unfold rd. case_match; naive_solver. Qed.

Lemma keeps_rdt {X} a (f : rbtree → X) : keeps (rdt a f).
Proof. intros s x s'. unfold rdt. case_match; naive_solver. Qed.

Lemma keeps_wr a f : keeps (wr a f).
Proof.
  intros s x s'. unfold wr. case_match; [|done]. intros [= <- <-] b Hb. simpl.
  apply lookup_insert_is_Some'. auto.
Qed.

Lemma keeps_wrt a f : keeps (wrt a f).
Proof. intros s x s'. unfold wrt. case_match; naive_solver. Qed.
End keeps.

Create HintDb keeps.
#[export] Hint Resolve keeps_ret keeps_bind keeps_rd keeps_rdt keeps_wr keeps_wrt : keeps.

(** Walk through the statements of a computation. *)
Ltac keeps_tac :=
  repeat first
    [ progress intros
    | solve [auto with keeps]
    | apply keeps_bind
    | match goal with |- keeps (match ?e with _ => _ end) => destruct e end
    | match goal with |- keeps (let '_ := ?e in _) => destruct e end ].

Section keeps_ops.
Context {A : Type} `{SlabAllocator A}.

Lemma keeps_free cl tr a : keeps (A := A) (rb_node_free cl tr a).
Proof. revert a; induction cl; intros; simpl; unfold cmpxchg_freelist; keeps_tac. Qed.
Hint Resolve keeps_free : keeps.

Lemma keeps_dir a : keeps (A := A) (rbnode_dir a).
Proof. unfold rbnode_dir. keeps_tac. Qed.
Hint Resolve keeps_dir : keeps.

Lemma keeps_rotate tr a dir : keeps (A := A) (rbnode_rotate tr a dir).
Proof. unfold rbnode_rotate. keeps_tac. Qed.
Hint Resolve keeps_rotate : keeps.

Lemma keeps_adjust tr a dir : keeps (A := A) (rbnode_adjust_neighbors tr a dir).
Proof. unfold rbnode_adjust_neighbors. keeps_tac. Qed.
Hint Resolve keeps_adjust : keeps.

Lemma keeps_swap {X} a b (g : rbnode → X) p : keeps (A := A) (rb_swap a b g p).
Proof. unfold rb_swap. keeps_tac. Qed.
Hint Resolve keeps_swap : keeps.

Lemma keeps_fixup a b : keeps (A := A) (rbnode_fixup_pointers a b).
Proof. unfold rbnode_fixup_pointers. keeps_tac. Qed.
Hint Resolve keeps_fixup : keeps.

Lemma keeps_switch tr a b : keeps (A := A) (rbnode_switch tr a b).
Proof. unfold rbnode_switch, rbnode_swap_values. keeps_tac. Qed.
Hint Resolve keeps_switch : keeps.

Lemma keeps_find cl a k : keeps (A := A) (rbnode_find cl a k).
Proof.
  unfold rbnode_find. assert (∀ a, keeps (A := A) (rbnode_find_loop cl a k)); [|keeps_tac].
  induction cl; simpl; keeps_tac.
Qed.
Hint Resolve keeps_find : keeps.

Lemma keeps_lub cl a k : keeps (A := A) (rbnode_least_upper_bound cl a k).
Proof.
  unfold rbnode_least_upper_bound.
  assert (∀ a, keeps (A := A) (rbnode_least_upper_bound_loop cl a k)); [|keeps_tac].
  induction cl; simpl; keeps_tac.
Qed.
Hint Resolve keeps_lub : keeps.

Lemma keeps_replace tr a b : keeps (A := A) (rbnode_replace tr a b).
Proof. unfold rbnode_replace. keeps_tac. Qed.
Hint Resolve keeps_replace : keeps.

Lemma keeps_insert_loop cl tr a : keeps (A := A) (rb_node_insert_loop cl tr a).
Proof.
  revert a; induction cl; intros; simpl; unfold rb_node_insert_rotate; keeps_tac.
Qed.
Hint Resolve keeps_insert_loop : keeps.

Lemma keeps_insert_node cl tr a : keeps (A := A) (rb_insert_node cl tr a).
Proof. unfold rb_insert_node, rb_node_insert. keeps_tac. Qed.

Lemma keeps_least cl a : keeps (A := A) (rbnode_least cl a).
Proof. revert a; induction cl; intros; simpl; keeps_tac. Qed.
Hint Resolve keeps_least : keeps.

Lemma keeps_has_red a : keeps (A := A) (rbnode_has_red_children a).
Proof. unfold rbnode_has_red_children. keeps_tac. Qed.
Hint Resolve keeps_has_red : keeps.

Lemma keeps_remove_loop cl tr n p s d : keeps (A := A) (rb_node_remove_loop cl tr n p s d).
Proof. revert n p s d; induction cl; intros; simpl; keeps_tac. Qed.
Hint Resolve keeps_remove_loop : keeps.

Lemma keeps_remove_tail tr i n p s d : keeps (A := A) (rb_node_remove_tail tr i n p s d).
Proof. unfold rb_node_remove_tail. keeps_tac. Qed.
Hint Resolve keeps_remove_tail : keeps.

Lemma keeps_remove_node cl tr a : keeps (A := A) (rb_remove_node cl tr a).
Proof.
  unfold rb_remove_node, rb_node_remove, rbnode_remove_node_single_child. keeps_tac.
Qed.
Hint Resolve keeps_remove_node : keeps.

Lemma keeps_pop cl tr k v : keeps (A := A) (rb_pop cl tr k v).
Proof. unfold rb_pop. keeps_tac. Qed.
End keeps_ops.

(** ** The contract *)

(** The addresses of the nodes of a list of entries. *)
Abbreviation eaddrs l := ((λ e : Z * Z * Z, e.1.1) <$> l).

Class RbQueue (A : Type) `{SlabAllocator A} : Type := {
  (** The tree at an address holds these entries, in order. *)
  rb_view : rb_state A → Z → list (Z * Z * Z) → Prop;
  view_null s tr l : rb_view s tr l → tr ≠ NULL;
  view_header s tr l : rb_view s tr l → is_Some (rb_trees s !! tr);
  view_nodup s tr l : rb_view s tr l → NoDup (eaddrs l);
  view_sorted s tr l : rb_view s tr l → key_sorted l;
  view_frame s s' tr l :
    rb_view s tr l → rb_trees s' !! tr = rb_trees s !! tr →
    (∀ a, a ∈ eaddrs l → rb_nodes s' !! a = rb_nodes s !! a) → rb_view s' tr l;
  view_node s tr l a n :
    rb_view s tr l → a ∉ eaddrs l →
    rb_view (RbState (<[a := n]> (rb_nodes s)) (rb_trees s) (rb_slab s)) tr l;
  view_insert cl s tr l a n :
    rb_view s tr l → rb_nodes s !! a = Some n → a ≠ NULL → a ∉ eaddrs l →
    budget cl (length l) →
    ∃ s', rb_insert_node cl tr a s = Some (0, s') ∧
      rb_view s' tr (insert_entry (a, rb_key n, rb_value n) l) ∧
      rb_frame s s' tr (a :: eaddrs l);
  view_remove cl s tr l a :
    rb_view s tr l → a ∈ eaddrs l → budget cl (length l) →
    ∃ s', rb_remove_node cl tr a s = Some (0, s') ∧ rb_view s' tr (remove_addr a l) ∧
      rb_frame s s' tr (eaddrs l);
  view_pop cl s tr a k v l :
    rb_view s tr ((a, k, v) :: l) → budget cl (S (length l)) →
    ∃ s', rb_pop cl tr true true s = Some (0, Some k, Some v, s') ∧ rb_view s' tr l ∧
      rb_frame s s' tr (eaddrs ((a, k, v) :: l));
  view_least cl s tr a k v l :
    rb_view s tr ((a, k, v) :: l) → budget cl (S (length l)) →
    rb_least cl tr true true s = Some (0, Some k, Some v, s);
  view_create s :
    (∀ a, is_Some (rb_trees s !! a) → a ∈ slab_live (rb_slab s)) →
    ∃ p s', rb_create_internal RB_NOALLOC RB_DUPLICATE s = Some (p, s') ∧
      rb_nodes s' = rb_nodes s ∧
      (p = NULL ∧ rb_trees s' = rb_trees s ∧ slab_live (rb_slab s') = slab_live (rb_slab s) ∨
       p ≠ NULL ∧ p ∉ slab_live (rb_slab s) ∧
       slab_live (rb_slab s') = {[p]} ∪ slab_live (rb_slab s) ∧
       (∀ a, a ≠ p → rb_trees s' !! a = rb_trees s !! a) ∧ rb_view s' p []);
  view_destroy cl clr s tr :
    rb_view s tr [] →
    ∃ s', rb_destroy cl clr tr s = Some (0, s') ∧ rb_nodes s' = rb_nodes s ∧
      rb_trees s' = delete tr (rb_trees s) ∧
      slab_live (rb_slab s') = slab_live (rb_slab s) ∖ {[tr]};
}.

Section instance.
Context {A : Type} `{SlabAllocator A}.
Implicit Types (s : rb_state A).

(** The view of a concrete tree. *)
Definition dup_view s (tr : Z) (l : list (Z * Z * Z)) : Prop :=
  ∃ cf t, rb_ok s tr cf [] t ∧ cf_alloc cf = RB_NOALLOC ∧ cf_insert cf = RB_DUPLICATE ∧
    entries t = l.

Lemma dup_view_frame s s' tr l :
  dup_view s tr l → rb_trees s' !! tr = rb_trees s !! tr →
  (∀ a, a ∈ eaddrs l → rb_nodes s' !! a = rb_nodes s !! a) → dup_view s' tr l.
Proof.
  intros (cf & t & [Hnull [Hh Ht] Hrb Hk Hch Hnd] & Ha & Hi & <-) Htr Hn.
  exists cf, t. split_and!; try done. split; try done. split; [by rewrite Htr|].
  eapply tree_in_agree; [|done]. intros a Hin. apply Hn.
  rewrite app_nil_r in Hin. by rewrite <-addrs_entries.
Qed.

Lemma dup_view_addrs s tr l :
  dup_view s tr l → ∃ t, entries t = l ∧ addrs t ≡ₚ eaddrs l.
Proof. intros (cf & t & _ & _ & _ & <-). exists t. by rewrite addrs_entries. Qed.

Lemma dup_view_insert cl s tr l a n :
  dup_view s tr l → rb_nodes s !! a = Some n → a ≠ NULL → a ∉ eaddrs l →
  budget cl (length l) →
  ∃ s', rb_insert_node cl tr a s = Some (0, s') ∧
    dup_view s' tr (insert_entry (a, rb_key n, rb_value n) l) ∧
    rb_frame s s' tr (a :: eaddrs l).
Proof.
  intros (cf & t & Hok & Ha & Hi & <-) Hn Hn0 Hfresh Hcl.
  destruct (rb_insert_node_spec cl s tr cf [] t a n) as (ret & s' & cf' & t' & Hrun & Hok' & Ha' & Hi' & Hfr & E);
    try done; [by rewrite app_nil_r, addrs_entries|].
  rewrite Hi, insert_result_dup in E. injection E as -> E.
  exists s'. split_and!; [done|exists cf', t'; split_and!; congruence|].
  eapply rb_frame_mono; [exact Hfr|]. intros x. by rewrite addrs_entries.
Qed.

Lemma dup_view_remove cl s tr l a :
  dup_view s tr l → a ∈ eaddrs l → budget cl (length l) →
  ∃ s', rb_remove_node cl tr a s = Some (0, s') ∧ dup_view s' tr (remove_addr a l) ∧
    rb_frame s s' tr (eaddrs l).
Proof.
  intros (cf & t & Hok & Ha & Hi & <-) Hin Hcl. rewrite <-addrs_entries in Hin.
  destruct (rb_remove_node_spec cl s tr cf [] t a Hok Ha Hin Hcl)
    as (s' & cf' & t' & Hrun & Hok' & Ha' & Hi' & E & Hfr).
  exists s'. split_and!; [done|exists cf', t'; split_and!; congruence|].
  eapply rb_frame_mono; [exact Hfr|]. intros x. by rewrite addrs_entries.
Qed.

Lemma dup_view_pop cl s tr a k v l :
  dup_view s tr ((a, k, v) :: l) → budget cl (S (length l)) →
  ∃ s', rb_pop cl tr true true s = Some (0, Some k, Some v, s') ∧ dup_view s' tr l ∧
    rb_frame s s' tr (eaddrs ((a, k, v) :: l)).
Proof.
  intros (cf & t & Hok & Ha & Hi & He) Hcl.
  pose proof (rb_pop_spec cl s tr cf [] t Hok Ha) as Hpop. rewrite He in Hpop.
  destruct (Hpop Hcl) as (s' & cf' & t' & Hrun & Hok' & Ha' & Hi' & E & Hfr).
  exists s'. split_and!; [done|exists cf', t'; split_and!; congruence|].
  eapply rb_frame_mono; [exact Hfr|]. intros x. by rewrite addrs_entries, He.
Qed.

Lemma dup_view_create s :
  (∀ a, is_Some (rb_trees s !! a) → a ∈ slab_live (rb_slab s)) →
  ∃ p s', rb_create_internal RB_NOALLOC RB_DUPLICATE s = Some (p, s') ∧
    rb_nodes s' = rb_nodes s ∧
    (p = NULL ∧ rb_trees s' = rb_trees s ∧ slab_live (rb_slab s') = slab_live (rb_slab s) ∨
     p ≠ NULL ∧ p ∉ slab_live (rb_slab s) ∧
     slab_live (rb_slab s') = {[p]} ∪ slab_live (rb_slab s) ∧
     (∀ a, a ≠ p → rb_trees s' !! a = rb_trees s !! a) ∧ dup_view s' p []).
Proof.
  intros Hlive. destruct (rb_create_spec s RB_NOALLOC RB_DUPLICATE Hlive)
    as (p & s' & Hrun & Hn & _ & Hp).
  exists p, s'. split_and!; try done. case_decide; [left; naive_solver|]. right.
  destruct Hp as (? & ? & ? & Hok). split_and!; try done.
  by exists (RbConf 0 RB_NOALLOC RB_DUPLICATE), Leaf.
Qed.

Lemma dup_view_destroy cl clr s tr :
  dup_view s tr [] →
  ∃ s', rb_destroy cl clr tr s = Some (0, s') ∧ rb_nodes s' = rb_nodes s ∧
    rb_trees s' = delete tr (rb_trees s) ∧
    slab_live (rb_slab s') = slab_live (rb_slab s) ∖ {[tr]}.
Proof.
  intros (cf & t & [Hnull [Hh Ht] _ _ Hch _] & Ha & Hi & He).
  assert (t = Leaf) as ->.
  { destruct t as [|l a d r]; [done|]. rewrite entries_T in He. by destruct (entries l). }
  simpl in Hch, Hh. rewrite Hch in Hh. eexists. split_and!.
  - unfold rb_destroy. destruct cl; simpl; unfold rdt, mbind, ST_bind; heap_run; reflexivity.
  - done.
  - done.
  - apply scx_free_spec.
Qed.

#[global, refine] Instance dup_queue : RbQueue A := {|
  rb_view := dup_view;
  view_null := _; view_header := _; view_nodup := _; view_sorted := _;
  view_frame := dup_view_frame;
  view_node := _;
  view_insert := dup_view_insert;
  view_remove := dup_view_remove;
  view_pop := dup_view_pop;
  view_least := _;
  view_create := dup_view_create;
  view_destroy := dup_view_destroy;
|}.
Proof.
  - intros s tr l (cf & t & Hok & _). apply Hok.
  - intros s tr l (cf & t & Hok & _). eexists. apply Hok.
  - intros s tr l (cf & t & Hok & _ & _ & <-). rewrite <-addrs_entries.
    pose proof (ok_disj _ _ _ _ _ Hok) as Hnd. by rewrite app_nil_r in Hnd.
  - intros s tr l (cf & t & Hok & _ & _ & <-). apply Hok.
  - intros s tr l a n (cf & t & Hok & Ha & Hi & <-) Hfresh. exists cf, t. split_and!; try done.
    apply ok_write; [done|]. by rewrite app_nil_r, addrs_entries.
  - intros cl s tr a k v l (cf & t & Hok & Ha & Hi & He) Hcl.
    rewrite (rb_least_spec cl s tr cf [] t Hok) by (by rewrite He). by rewrite He.
Defined.
End instance.
