(* ===== verification/Atq.v ===== *)
(** * Arena task queues: [lib/atq.bpf.c], [include/lib/atq.h]

    A queue ([struct scx_atq]) orders tasks by virtual time, or by arrival in
    FIFO mode, in a red-black tree whose nodes are embedded in the tasks.  A
    task is in at most one queue: [taskc->atq] is claimed with a
    compare-and-exchange and holds the queue, [NULL] or [SCX_ATQ_DEAD].

    Everything between [scx_spin_lock] and [scx_spin_unlock] is one
    transition of the model.  The detach and fini loops read [taskc->atq]
    outside the lock; their models take the transitions of other CPUs at that
    point as an argument.

    [struct rbnode node] is the first member of [struct scx_task_common], so
    a task and its node have the same address. *)

From S2P Require Import Prelude Slab ArenaTree RedBlack Rbtree RbtreeBase RbtreeInsert RbtreeLink.
From S2P Require Import RbtreeOps RbtreeRemove RbtreeCorrect RbtreeContract.

(** [enum scx_atq_consts] *)
Definition SCX_ATQ_INF_CAPACITY : Z := two64 - 1.
Definition SCX_ATQ_FIFO : Z := two64 - 1.
Definition SCX_ATQ_DEAD : Z := 1.

(** [struct scx_atq], its lock aside. *)
Record scx_atq : Type := ScxAtq {
  at_tree : Z;
  at_capacity : Z;
  at_size : Z;
  at_seq : Z;
  at_fifo : bool;
}.

(** [struct scx_task_common], its [node] aside. *)
Record scx_task_common : Type := ScxTask {
  tk_holdcnt : Z;
  tk_atq : Z;
}.

Record atq_state (A : Type) : Type := AtqState {
  aq_rb : rb_state A;
  aq_atqs : gmap Z scx_atq;
  aq_tasks : gmap Z scx_task_common;
}.
Arguments AtqState {A} _ _ _.
Arguments aq_rb {A} _.
Arguments aq_atqs {A} _.
Arguments aq_tasks {A} _.

Definition with_size (z : Z) (q : scx_atq) : scx_atq :=
  ScxAtq (at_tree q) (at_capacity q) z (at_seq q) (at_fifo q).
Definition with_seq (z : Z) (q : scx_atq) : scx_atq :=
  ScxAtq (at_tree q) (at_capacity q) (at_size q) z (at_fifo q).
Definition with_atq (z : Z) (t : scx_task_common) : scx_task_common :=
  ScxTask (tk_holdcnt t) z.
Definition with_holdcnt (z : Z) (t : scx_task_common) : scx_task_common :=
  ScxTask z (tk_atq t).

Section model.
Context {A : Type} `{SlabAllocator A}.
Abbreviation M X := (ST (atq_state A) X).

(** ** Memory accesses *)
Definition rdq {X} (q : Z) (f : scx_atq → X) : M X := λ s,
  match aq_atqs s !! q with Some x => Some (f x, s) | None => None end.
Definition wrq (q : Z) (f : scx_atq → scx_atq) : M unit := λ s,
  match aq_atqs s !! q with
  | Some x => Some (tt, AtqState (aq_rb s) (<[q := f x]> (aq_atqs s)) (aq_tasks s))
  | None => None
  end.
Definition rdk {X} (t : Z) (f : scx_task_common → X) : M X := λ s,
  match aq_tasks s !! t with Some x => Some (f x, s) | None => None end.
Definition wrk (t : Z) (f : scx_task_common → scx_task_common) : M unit := λ s,
  match aq_tasks s !! t with
  | Some x => Some (tt, AtqState (aq_rb s) (aq_atqs s) (<[t := f x]> (aq_tasks s)))
  | None => None
  end.

(** Run a tree operation on the arena. *)
Definition on_rb {X} (m : ST (rb_state A) X) : M X := λ s,
  match m (aq_rb s) with
  | Some (x, r) => Some (x, AtqState r (aq_atqs s) (aq_tasks s))
  | None => None
  end.

(** [scx_alloc(&scx_atq_allocator)] and [scx_free(&scx_atq_allocator, atq)] *)
Definition atq_alloc : M Z := λ s,
  let r := aq_rb s in
  let '(p, a) := scx_alloc (rb_slab r) in
  Some (p, AtqState (RbState (rb_nodes r) (rb_trees r) a)
             (if p =? NULL then aq_atqs s else <[p := ScxAtq 0 0 0 0 false]> (aq_atqs s))
             (aq_tasks s)).
Definition atq_release (p : Z) : M unit := λ s,
  let r := aq_rb s in
  Some (tt, AtqState (RbState (rb_nodes r) (rb_trees r) (scx_free p (rb_slab r)))
              (delete p (aq_atqs s)) (aq_tasks s)).

(** [cmpxchg(&taskc->atq, old, new)] *)
Definition cmpxchg_atq (taskc old new : Z) : M Z :=
  cur ← rdk taskc tk_atq;
  (if cur =? old then wrk taskc (with_atq new) else mret tt);;
  mret cur.

(** ** Operations *)
Definition scx_atq_create_internal (fifo : bool) (capacity : Z) : M Z :=
  atq ← atq_alloc;
  if atq =? NULL then mret NULL else
  tree ← on_rb (rb_create_internal RB_NOALLOC RB_DUPLICATE);
  wrq atq (λ q, ScxAtq tree (at_capacity q) (at_size q) (at_seq q) (at_fifo q));;
  if tree =? NULL then atq_release atq;; mret NULL else
  wrq atq (λ q, ScxAtq (at_tree q) capacity (at_size q) (at_seq q) fifo);;
  mret atq.

Definition scx_atq_insert_vtime_unlocked (cl : nat) (atq taskc vtime : Z) : M Z :=
  size ← rdq atq at_size;
  capacity ← rdq atq at_capacity;
  if size =? capacity then mret (- ENOSPC) else
  fifo ← rdq atq at_fifo;
  if negb (Bool.eqb (vtime =? SCX_ATQ_FIFO) fifo) then mret (- EINVAL) else
  old_atq ← cmpxchg_atq taskc NULL atq;
  if negb (old_atq =? NULL) then
    mret (if old_atq =? SCX_ATQ_DEAD then - ECANCELED else - EALREADY)
  else
  key ← (if vtime =? SCX_ATQ_FIFO then
           seq ← rdq atq at_seq;
           wrq atq (with_seq (u64 (seq + 1)));;
           mret seq
         else mret vtime);
  on_rb (wr taskc (with_kv key taskc));;
  tree ← rdq atq at_tree;
  ret ← on_rb (rb_insert_node cl tree taskc);
  if negb (ret =? 0) then wrk taskc (with_atq NULL);; mret ret else
  size ← rdq atq at_size;
  wrq atq (with_size (u64 (size + 1)));;
  mret 0.

Definition scx_atq_insert_vtime (cl : nat) (atq taskc vtime : Z) : M Z :=
  scx_atq_insert_vtime_unlocked cl atq taskc vtime.

Definition scx_atq_insert_unlocked (cl : nat) (atq taskc : Z) : M Z :=
  scx_atq_insert_vtime_unlocked cl atq taskc SCX_ATQ_FIFO.

Definition scx_atq_insert (cl : nat) (atq taskc : Z) : M Z :=
  scx_atq_insert_vtime cl atq taskc SCX_ATQ_FIFO.

Definition scx_atq_remove_internal (cl : nat) (atq taskc : Z) (dead : bool) : M Z :=
  cur ← rdk taskc tk_atq;
  if negb (cur =? atq) then mret (- EINVAL) else
  tree ← rdq atq at_tree;
  ret ← on_rb (rb_remove_node cl tree taskc);
  if negb (ret =? 0) then mret ret else
  wrk taskc (with_atq (if dead then SCX_ATQ_DEAD else NULL));;
  size ← rdq atq at_size;
  wrq atq (with_size (u64 (size - 1)));;
  mret 0.

Definition scx_atq_remove_unlocked (cl : nat) (atq taskc : Z) : M Z :=
  scx_atq_remove_internal cl atq taskc false.

Definition scx_atq_remove (cl : nat) (atq taskc : Z) : M Z :=
  scx_atq_remove_internal cl atq taskc false.

(** The [u64] size is returned as an [int]. *)
Definition scx_atq_nr_queued (atq : Z) : M Z :=
  size ← rdq atq at_size;
  mret (s32 size).

Definition scx_atq_task_hold (taskc : Z) : M unit :=
  wrk taskc (λ t, with_holdcnt (s32 (tk_holdcnt t + 1)) t).

Definition scx_atq_task_drop (taskc : Z) : M unit :=
  wrk taskc (λ t, with_holdcnt (s32 (tk_holdcnt t - 1)) t).

Definition scx_atq_pop (cl : nat) (atq : Z) (hold : bool) : M Z :=
  nr ← scx_atq_nr_queued atq;
  if nr =? 0 then mret NULL else
  tree ← rdq atq at_tree;
  r ← on_rb (rb_pop cl tree true true);
  let '(ret, _, value) := r in
  if negb (ret =? 0) then mret NULL else
  size ← rdq atq at_size;
  wrq atq (with_size (u64 (size - 1)));;
  taskc ← of_option value;
  (if hold then scx_atq_task_hold taskc else mret tt);;
  wrk taskc (with_atq NULL);;
  mret taskc.

Definition scx_atq_peek (cl : nat) (atq : Z) : M Z :=
  nr ← scx_atq_nr_queued atq;
  if nr =? 0 then mret NULL else
  tree ← rdq atq at_tree;
  r ← on_rb (rb_least cl tree true true);
  of_option (r.2).

(** The draining loop of [scx_atq_destroy]. *)
Fixpoint scx_atq_drain (cl clr : nat) (atq : Z) : M unit :=
  taskc ← scx_atq_pop clr atq false;
  if taskc =? NULL then mret tt else
  match cl with O => mret tt | S cl => scx_atq_drain cl clr atq end.

Definition scx_atq_destroy (cl clr : nat) (atq : Z) : M Z :=
  scx_atq_drain cl clr atq;;
  tree ← rdq atq at_tree;
  on_rb (rb_destroy cl clr tree);;
  atq_release atq;;
  mret 0.

(** ** Detaching a task

    [env] is what the other CPUs do between the unlocked read of
    [taskc->atq] in an iteration and the lock (or the compare-and-exchange)
    that follows it: one function per iteration. *)
Inductive loop_exit : Type := LoopReturn (ret : Z) | LoopBreak | LoopSpent.

Fixpoint detach_loop (cl clr : nat) (env : nat → atq_state A → atq_state A) (taskc : Z)
    : M loop_exit :=
  match cl with
  | O => mret LoopSpent
  | S cl =>
      atq ← rdk taskc tk_atq;
      if atq =? SCX_ATQ_DEAD then mret LoopBreak else
      modifies (env cl);;
      if atq =? NULL then
        old ← cmpxchg_atq taskc NULL SCX_ATQ_DEAD;
        if old =? NULL then mret LoopBreak else detach_loop cl clr env taskc
      else
        cur ← rdk taskc tk_atq;
        if negb (cur =? atq) then detach_loop cl clr env taskc else
        ret ← scx_atq_remove_internal clr atq taskc true;
        mret (if ret =? 0 then LoopBreak else LoopReturn ret)
  end.

(** The wait for the holders; [env] runs between two reads. *)
Fixpoint wait_loop (cl : nat) (env : nat → atq_state A → atq_state A) (taskc : Z) : M unit :=
  holdcnt ← rdk taskc tk_holdcnt;
  if holdcnt <=? 0 then mret tt else
  match cl with
  | O => mret tt
  | S cl => modifies (env cl);; wait_loop cl env taskc
  end.

Definition scx_atq_task_detach (cl clr : nat) (env env' : nat → atq_state A → atq_state A)
    (taskc : Z) : M Z :=
  e ← detach_loop cl clr env taskc;
  match e with
  | LoopReturn ret => mret ret
  | _ => wait_loop cl env' taskc;; mret 0
  end.

Fixpoint scx_atq_task_fini (cl clr : nat) (env : nat → atq_state A → atq_state A) (taskc : Z)
    : M Z :=
  match cl with
  | O => mret 0
  | S cl =>
      atq ← rdk taskc tk_atq;
      if (atq =? NULL) || (atq =? SCX_ATQ_DEAD) then mret 0 else
      modifies (env cl);;
      cur ← rdk taskc tk_atq;
      if negb (cur =? atq) then scx_atq_task_fini cl clr env taskc else
      ret ← scx_atq_remove_unlocked clr cur taskc;
      mret (if ret =? 0 then 1 else ret)
  end.
End model.
