(* ===== verification/AtqCorrect.v ===== *)
(** * Arena task queues: invariant and theorems

    [atq_inv]: every queue's tree holds exactly the tasks whose [atq] field
    names the queue, the size counter is the number of tasks, and in a FIFO
    queue keys are sequence numbers.  Every operation keeps it, and acts on
    the list of queued tasks as the corresponding list operation. *)

From S2P Require Import Prelude Slab ArenaTree RedBlack Rbtree RbtreeBase RbtreeInsert RbtreeLink.
From S2P Require Import RbtreeOps RbtreeRemove RbtreeCorrect RbtreeContract Atq.

Section atq.
Context {A : Type} `{RbQueue A}.
Implicit Types (st : atq_state A) (l : list (Z * Z * Z)).

(** Sequence numbers: strictly increasing and below the next one. *)
Definition fifo_keys (seq : Z) l : Prop :=
  StronglySorted (λ x y, ekey x < ekey y) l ∧ Forall (λ e, 0 ≤ ekey e < seq) l.

(** The queue object at [q] holds the entries [l]. *)
Record queue st (q : Z) (at_ : scx_atq) l : Prop := Queue {
  q_lookup : aq_atqs st !! q = Some at_;
  q_view : rb_view (aq_rb st) (at_tree at_) l;
  q_size : at_size at_ = Z.of_nat (length l);
  q_value a k v : (a, k, v) ∈ l → v = a;
  q_claim a : a ∈ eaddrs l ↔ ∃ tk, aq_tasks st !! a = Some tk ∧ tk_atq tk = q;
  q_fifo : at_fifo at_ = true → fifo_keys (at_seq at_) l;
}.

Record atq_inv st : Prop := AtqInv {
  inv_queue q at_ : aq_atqs st !! q = Some at_ → ∃ l, queue st q at_ l;
  inv_trees q q' at_ at_' :
    aq_atqs st !! q = Some at_ → aq_atqs st !! q' = Some at_' → at_tree at_ = at_tree at_' →
    q = q';
  inv_addr q : is_Some (aq_atqs st !! q) → q ≠ NULL ∧ q ≠ SCX_ATQ_DEAD;
  inv_task a tk : aq_tasks st !! a = Some tk →
    a ≠ NULL ∧ is_Some (rb_nodes (aq_rb st) !! a) ∧
    (tk_atq tk = NULL ∨ tk_atq tk = SCX_ATQ_DEAD ∨ is_Some (aq_atqs st !! tk_atq tk));
  inv_live q : is_Some (aq_atqs st !! q) → q ∈ slab_live (rb_slab (aq_rb st));
  inv_header p : is_Some (rb_trees (aq_rb st) !! p) →
    p ∈ slab_live (rb_slab (aq_rb st)) ∧ aq_atqs st !! p = None;
}.

(** Frames keep the domain of the node store. *)
Definition same_dom (r r' : rb_state A) : Prop :=
  ∀ a, is_Some (rb_nodes r !! a) → is_Some (rb_nodes r' !! a).

(** One operation on the queue [q] and the task [a]: every other queue is
    untouched. *)
Lemma inv_update st q at_ l a r' at_' tk tk' l' :
  atq_inv st → queue st q at_ l → aq_tasks st !! a = Some tk →
  rb_frame (aq_rb st) r' (at_tree at_) (a :: eaddrs l) → same_dom (aq_rb st) r' →
  tk_atq tk = NULL ∨ tk_atq tk = q →
  tk_atq tk' = NULL ∨ tk_atq tk' = SCX_ATQ_DEAD ∨ tk_atq tk' = q →
  at_tree at_' = at_tree at_ →
  let st' := AtqState r' (<[q := at_']> (aq_atqs st)) (<[a := tk']> (aq_tasks st)) in
  queue st' q at_' l' → atq_inv st'.
Proof.
  intros Hinv Hq Hta Hfr Hdom Htk Htk' Htree st' Hq'.
  assert (∀ q', is_Some (aq_atqs st !! q') → is_Some (aq_atqs st' !! q')) as Hsome.
  { intros q' Hs. simpl. apply lookup_insert_is_Some'. auto. }
  pose proof (q_lookup _ _ _ _ Hq) as Hql.
  destruct (inv_addr _ Hinv q) as [Hq0 HqD]; [by eexists|].
  split.
  - intros q2 at2 H2. simpl in H2. destruct (decide (q2 = q)) as [->|Hne].
    { rewrite lookup_insert_eq in H2. injection H2 as <-. by exists l'. }
    rewrite lookup_insert_ne in H2 by done.
    destruct (inv_queue _ Hinv _ _ H2) as [l2 Hq2]. exists l2.
    destruct (inv_addr _ Hinv q2) as [Hq20 Hq2D]; [by eexists|].
    assert (∀ x, x ∈ eaddrs l2 → x ∉ a :: eaddrs l) as Hdis.
    { intros x (tkx & Hx & Ex)%(q_claim _ _ _ _ Hq2) [->|Hin]%elem_of_cons.
      - rewrite Hta in Hx. injection Hx as <-. destruct Htk; congruence.
      - apply (q_claim _ _ _ _ Hq) in Hin as (tkx' & Hx' & Ex'). congruence. }
    destruct Hq2 as [Hl2 Hv2 Hs2 Hval2 Hc2 Hf2]. split; try done.
    + simpl. by rewrite lookup_insert_ne.
    + simpl. eapply view_frame; [done| |].
      * apply (fr_trees _ _ _ _ Hfr). intros E. apply Hne. by eapply (inv_trees _ Hinv).
      * intros x Hx. by apply (fr_nodes _ _ _ _ Hfr), Hdis.
    + intros x. rewrite Hc2. simpl. destruct (decide (x = a)) as [->|Hx].
      * rewrite lookup_insert_eq, Hta. split; intros (tkx & [= <-] & E); exfalso;
          [destruct Htk; congruence|destruct Htk' as [|[|]]; congruence].
      * by rewrite lookup_insert_ne.
  - intros q1 q2 at1 at2 H1 H2 E. simpl in H1, H2.
    destruct (decide (q1 = q)) as [->|Hn1], (decide (q2 = q)) as [->|Hn2]; [done|..];
      rewrite ?lookup_insert_eq in H1; rewrite ?lookup_insert_eq in H2;
      rewrite ?lookup_insert_ne in H1 by done; rewrite ?lookup_insert_ne in H2 by done;
      simplify_eq; try (eapply (inv_trees _ Hinv); [done|done|congruence]).
  - intros q1 Hs. simpl in Hs. apply lookup_insert_is_Some' in Hs as [<-|Hs]; [done|].
    by apply (inv_addr _ Hinv).
  - intros x tkx Hx. simpl in Hx. destruct (decide (x = a)) as [->|Hne].
    + rewrite lookup_insert_eq in Hx. injection Hx as <-.
      destruct (inv_task _ Hinv _ _ Hta) as (? & ? & _). split_and!; [done|by apply Hdom|].
      destruct Htk' as [?|[?| ->]]; auto.
    + rewrite lookup_insert_ne in Hx by done. destruct (inv_task _ Hinv _ _ Hx) as (? & ? & Ho).
      split_and!; [done|by apply Hdom|]. destruct Ho as [?|[?|?]]; auto.
  - simpl. rewrite (fr_slab _ _ _ _ Hfr). intros q1 [<-|Hs]%lookup_insert_is_Some';
      apply (inv_live _ Hinv); [by eexists|done].
  - simpl. rewrite (fr_slab _ _ _ _ Hfr). intros p1 Hp1.
    assert (is_Some (rb_trees (aq_rb st) !! p1)) as Hs.
    { destruct (decide (p1 = at_tree at_)) as [->|Hne].
      - eapply view_header, (q_view _ _ _ _ Hq).
      - by rewrite <-(fr_trees _ _ _ _ Hfr). }
    destruct (inv_header _ Hinv _ Hs) as [? Hnone]. split; [done|].
    rewrite lookup_insert_ne; [done|]. congruence.
Qed.

(** The return code of an insertion. *)
Definition insert_code (at_ : scx_atq) (tk : scx_task_common) (vtime : Z) : Z :=
  if at_size at_ =? at_capacity at_ then - ENOSPC
  else if negb (Bool.eqb (vtime =? SCX_ATQ_FIFO) (at_fifo at_)) then - EINVAL
  else if tk_atq tk =? NULL then 0
  else if tk_atq tk =? SCX_ATQ_DEAD then - ECANCELED
  else - EALREADY.

(** The entry it adds: keyed by the sequence number in a FIFO queue. *)
Definition insert_key (at_ : scx_atq) (vtime : Z) : Z :=
  if at_fifo at_ then at_seq at_ else vtime.

Definition inserted (at_ : scx_atq) : scx_atq :=
  ScxAtq (at_tree at_) (at_capacity at_) (at_size at_ + 1)
    (if at_fifo at_ then at_seq at_ + 1 else at_seq at_) (at_fifo at_).

Lemma small_budget cl n : Z.of_nat n < two32 → (131 ≤ cl)%nat → budget cl n.
Proof.
  intros Hn Hcl. unfold budget. assert (Nat.log2 (S n) < 64)%nat; [|lia].
  apply Nat.log2_lt_pow2; [lia|]. apply Nat2Z.inj_lt. rewrite Nat2Z.inj_pow.
  unfold two32 in Hn. change (Z.of_nat 2 ^ Z.of_nat 64) with 18446744073709551616. lia.
Qed.

Lemma on_rb_bind {X Y} (m : ST (rb_state A) X) (k : X → ST (atq_state A) Y) st x r :
  m (aq_rb st) = Some (x, r) →
  (on_rb m ≫= k) st = k x (AtqState r (aq_atqs st) (aq_tasks st)).
Proof. unfold on_rb, mbind, ST_bind. by intros ->. Qed.

Lemma rdq_bind {X Y} (f : scx_atq → X) (k : X → ST (atq_state A) Y) st q x :
  aq_atqs st !! q = Some x → (rdq q f ≫= k) st = k (f x) st.
Proof. unfold rdq, mbind, ST_bind. by intros ->. Qed.

Lemma rdk_bind {X Y} (f : scx_task_common → X) (k : X → ST (atq_state A) Y) st q x :
  aq_tasks st !! q = Some x → (rdk q f ≫= k) st = k (f x) st.
Proof. unfold rdk, mbind, ST_bind. by intros ->. Qed.

Lemma wrq_bind {Y} f (k : unit → ST (atq_state A) Y) st q x :
  aq_atqs st !! q = Some x →
  (wrq q f ≫= k) st = k tt (AtqState (aq_rb st) (<[q := f x]> (aq_atqs st)) (aq_tasks st)).
Proof. unfold wrq, mbind, ST_bind. by intros ->. Qed.

Lemma wrk_bind {Y} f (k : unit → ST (atq_state A) Y) st q x :
  aq_tasks st !! q = Some x →
  (wrk q f ≫= k) st = k tt (AtqState (aq_rb st) (aq_atqs st) (<[q := f x]> (aq_tasks st))).
Proof. unfold wrk, mbind, ST_bind. by intros ->. Qed.

(** Inserting a new maximum at the end. *)
Lemma insert_entry_last e l : Forall (λ x, ekey x < ekey e) l → insert_entry e l = l ++ [e].
Proof.
  intros Hl. rewrite <-(app_nil_r l) at 1. by apply insert_entry_split.
Qed.

Lemma insert_refused cl st q at_ l a tk vtime :
  atq_inv st → queue st q at_ l → aq_tasks st !! a = Some tk → insert_code at_ tk vtime ≠ 0 →
  scx_atq_insert_vtime_unlocked cl q a vtime st = Some (insert_code at_ tk vtime, st).
Proof.
  intros Hinv Hq Ha. pose proof (q_lookup _ _ _ _ Hq) as Hl.
  unfold insert_code, scx_atq_insert_vtime_unlocked.
  rewrite !(rdq_bind _ _ _ _ _ Hl). destruct (at_size at_ =? at_capacity at_); [done|].
  rewrite (rdq_bind _ _ _ _ _ Hl). case_match; [done|].
  unfold cmpxchg_atq. rewrite !ST_bind_assoc, (rdk_bind _ _ _ _ _ Ha).
  destruct (tk_atq tk =? 0) eqn:E; [done|]. intros _.
  unfold mbind, ST_bind, mret, ST_ret; simpl. by rewrite E.
Qed.

(** The state right after a successful insertion. *)
Lemma insert_accepted cl st q at_ l a tk vtime :
  atq_inv st → queue st q at_ l → aq_tasks st !! a = Some tk → insert_code at_ tk vtime = 0 →
  Z.of_nat (length l) < two32 → (131 ≤ cl)%nat → is_u64 (at_seq at_ + 1) → 
  ∃ r', scx_atq_insert_vtime_unlocked cl q a vtime st =
      Some (0, AtqState r' (<[q := inserted at_]> (aq_atqs st))
                 (<[a := with_atq q tk]> (aq_tasks st))) ∧
    rb_view r' (at_tree at_) (insert_entry (a, insert_key at_ vtime, a) l) ∧
    rb_frame (aq_rb st) r' (at_tree at_) (a :: eaddrs l) ∧ same_dom (aq_rb st) r'.
Proof.
  intros Hinv Hq Ha Hcode Hlen Hcl Hseq. pose proof (q_lookup _ _ _ _ Hq) as Hl.
  destruct (inv_task _ Hinv _ _ Ha) as (Ha0 & (n & Hn) & _).
  unfold insert_code in Hcode. unfold scx_atq_insert_vtime_unlocked.
  rewrite !(rdq_bind _ _ _ _ _ Hl). destruct (at_size at_ =? at_capacity at_); [done|].
  rewrite (rdq_bind _ _ _ _ _ Hl).
  destruct (Bool.eqb (vtime =? SCX_ATQ_FIFO) (at_fifo at_)) eqn:Ef; [|done].
  apply eqb_prop in Ef. simpl in Hcode |- *.
  destruct (tk_atq tk =? 0) eqn:E0; [|by case_match].
  unfold cmpxchg_atq. rewrite !ST_bind_assoc, (rdk_bind _ _ _ _ _ Ha), E0.
  rewrite ST_bind_assoc, (wrk_bind _ _ _ _ _ Ha), ST_ret_bind, E0. simpl.
  set (tasks := <[a := with_atq q tk]> (aq_tasks st)).
  set (at1 := with_seq (if at_fifo at_ then at_seq at_ + 1 else at_seq at_) at_).
  assert (∀ k : Z → ST (atq_state A) Z,
    ((if vtime =? SCX_ATQ_FIFO then
        seq ← rdq q at_seq; wrq q (with_seq (u64 (seq + 1)));; mret seq
      else mret vtime) ≫= k) (AtqState (aq_rb st) (aq_atqs st) tasks) =
    k (insert_key at_ vtime) (AtqState (aq_rb st) (<[q := at1]> (aq_atqs st)) tasks)) as Hkey.
  { intros k. unfold insert_key. subst at1. rewrite Ef. destruct (at_fifo at_) eqn:Efifo.
    - rewrite ST_bind_assoc, (rdq_bind _ _ _ q at_) by done.
      rewrite ST_bind_assoc, (wrq_bind _ _ _ q at_) by done.
      by rewrite ST_ret_bind, u64_small.
    - rewrite ST_ret_bind. rewrite insert_id; [done|]. rewrite Hl. by destruct at_. }
  rewrite Hkey. clear Hkey.
  set (key := insert_key at_ vtime). set (n1 := with_kv key a n).
  set (r1 := RbState (<[a := n1]> (rb_nodes (aq_rb st))) (rb_trees (aq_rb st)) (rb_slab (aq_rb st))).
  rewrite (on_rb_bind _ _ _ tt r1) by (unfold wr; simpl; by rewrite Hn). simpl.
  assert (∀ x, (<[q:=x]> (aq_atqs st) : gmap Z scx_atq) !! q = Some x) as Hlq
    by (intros; apply lookup_insert_eq).
  rewrite (rdq_bind _ _ _ q at1) by apply Hlq. simpl.
  assert (a ∉ eaddrs l) as Hfresh.
  { intros (tk' & Ha' & E)%(q_claim _ _ _ _ Hq). rewrite Ha in Ha'. injection Ha' as <-.
    destruct (inv_addr _ Hinv q) as [? _]; [by eexists|]. apply Z.eqb_eq in E0. congruence. }
  destruct (view_insert cl r1 (at_tree at_) l a n1) as (r2 & Hrun & Hv & Hfr).
  - apply view_node; [apply Hq|done].
  - apply lookup_insert_eq.
  - done.
  - done.
  - by apply small_budget.
  - erewrite on_rb_bind; [|exact Hrun]. simpl.
    rewrite (rdq_bind _ _ _ q at1) by apply Hlq. rewrite (wrq_bind _ _ _ q at1) by apply Hlq. simpl.
    rewrite insert_insert_eq, u64_small.
    2: { rewrite (q_size _ _ _ _ Hq). unfold is_u64, two64, two32 in *. lia. }
    exists r2. split_and!; [done|done| |].
    + eapply (rb_frame_trans _ r1); [|exact Hfr|done]. split; try done.
      intros b Hb. apply lookup_insert_ne. set_solver.
    + intros b Hb. eapply keeps_insert_node; [exact Hrun|]. simpl.
      apply lookup_insert_is_Some'. auto.
Qed.

Lemma queue_inserted st q at_ l a tk r' vtime :
  queue st q at_ l → aq_tasks st !! a = Some tk → a ∉ eaddrs l → 0 ≤ at_seq at_ →
  rb_view r' (at_tree at_) (insert_entry (a, insert_key at_ vtime, a) l) →
  queue (AtqState r' (<[q := inserted at_]> (aq_atqs st)) (<[a := with_atq q tk]> (aq_tasks st)))
    q (inserted at_) (insert_entry (a, insert_key at_ vtime, a) l).
Proof.
  intros [Hl Hv Hs Hval Hc Hf] Ha Hfresh Hseq Hv'. split; simpl.
  - apply lookup_insert_eq.
  - done.
  - rewrite (Permutation_length (insert_entry_perm _ _)). simpl. lia.
  - intros b k v. rewrite insert_entry_perm. intros [[=]|Hin]%elem_of_cons; [congruence|eauto].
  - intros b. rewrite insert_entry_perm. csimpl. rewrite elem_of_cons, Hc. simpl.
    destruct (decide (b = a)) as [->|Hne].
    + rewrite lookup_insert_eq. split; [eauto|auto].
    + rewrite lookup_insert_ne by done. split; [intros [?|?]; [done|done]|auto].
  - intros Hfifo. destruct (Hf Hfifo) as [Hsort Hall]. unfold insert_key. rewrite Hfifo.
    assert (Forall (λ x, ekey x < ekey (a, at_seq at_, a)) l) as Hlt.
    { eapply Forall_impl; [exact Hall|]. unfold ekey; simpl. lia. }
    rewrite insert_entry_last by done. split.
    + apply StronglySorted_app. split_and!; [|done|repeat constructor].
      intros x1 x2 Hx1 ->%list_elem_of_singleton. rewrite Forall_forall in Hlt. by apply Hlt.
    + apply Forall_app. split; [|repeat constructor; unfold ekey; simpl; lia].
      eapply Forall_impl; [exact Hall|]. simpl; lia.
Qed.

Lemma eaddrs_removed l a :
  NoDup (eaddrs l) → a ∈ eaddrs l → eaddrs l ≡ₚ a :: eaddrs (remove_addr a l).
Proof.
  unfold remove_addr. induction l as [|[[b k] v] l IH]; csimpl; [by intros _ ?%not_elem_of_nil|].
  intros [Hb Hnd]%NoDup_cons Hin. destruct (decide (b = a)) as [->|Hne].
  - rewrite filter_cons_False by (intros Hx; by apply Hx). rewrite filter_all; [done|].
    apply Forall_forall. intros x Hx <-. apply Hb.
    apply (list_elem_of_fmap_2 (λ e : Z * Z * Z, e.1.1) l x Hx).
  - rewrite filter_cons_True by done. csimpl. rewrite Permutation_swap. constructor.
    apply IH; [done|]. set_solver.
Qed.

Lemma queue_removed st q at_ l l' a tk' r' :
  queue st q at_ l → sublist l' l → eaddrs l ≡ₚ a :: eaddrs l' →
  rb_view r' (at_tree at_) l' → tk_atq tk' ≠ q →
  queue (AtqState r' (<[q := with_size (at_size at_ - 1) at_]> (aq_atqs st))
           (<[a := tk']> (aq_tasks st))) q (with_size (at_size at_ - 1) at_) l'.
Proof.
  intros [Hl Hv Hs Hval Hc Hf] Hsub Hp Hv' Htk.
  pose proof (view_nodup _ _ _ Hv) as Hnd. rewrite Hp in Hnd. apply NoDup_cons in Hnd as [Hna _].
  split; simpl.
  - apply lookup_insert_eq.
  - done.
  - apply Permutation_length in Hp. simpl in Hp. rewrite !length_fmap in Hp. lia.
  - intros b k v Hin. eapply Hval. by eapply elem_of_sublist.
  - intros b. destruct (decide (b = a)) as [->|Hne].
    + rewrite lookup_insert_eq. split; [done|]. by intros (? & [= <-] & ?).
    + rewrite lookup_insert_ne, <-Hc, Hp, elem_of_cons by done. naive_solver.
  - intros Hfifo. destruct (Hf Hfifo) as [Hsort Hall]. split.
    + by eapply StronglySorted_sublist.
    + by eapply Forall_sublist.
Qed.

Lemma insert_fresh st q at_ l a tk :
  atq_inv st → queue st q at_ l → aq_tasks st !! a = Some tk → tk_atq tk = NULL → a ∉ eaddrs l.
Proof.
  intros Hinv Hq Ha E0 (tk' & Ha' & E)%(q_claim _ _ _ _ Hq). rewrite Ha in Ha'.
  injection Ha' as <-. destruct (inv_addr _ Hinv q); [|congruence].
  eexists. apply (q_lookup _ _ _ _ Hq).
Qed.

Lemma insert_spec cl st q at_ l a tk vtime :
  atq_inv st → queue st q at_ l → aq_tasks st !! a = Some tk →
  Z.of_nat (length l) < two32 → (131 ≤ cl)%nat → 0 ≤ at_seq at_ < two64 - 1 →
  insert_code at_ tk vtime = 0 →
  ∃ st', scx_atq_insert_vtime_unlocked cl q a vtime st = Some (0, st') ∧ atq_inv st' ∧
    aq_tasks st' = <[a := with_atq q tk]> (aq_tasks st) ∧ tk_atq tk = NULL ∧
    queue st' q (inserted at_)
      (if at_fifo at_ then l ++ [(a, at_seq at_, a)] else insert_entry (a, vtime, a) l).
Proof.
  intros Hinv Hq Ha Hlen Hcl Hseq Hc.
  destruct (insert_accepted cl st q at_ l a tk vtime) as (r' & Hrun & Hv & Hfr & Hdom);
    try done; [unfold is_u64; lia|].
  assert (tk_atq tk = NULL) as E0.
  { unfold insert_code in Hc. repeat case_match; try done. by apply Z.eqb_eq. }
  pose proof (queue_inserted st q at_ l a tk r' vtime Hq Ha (insert_fresh _ _ _ _ _ _ Hinv Hq Ha E0)
    ltac:(lia) Hv) as Hq'.
  eexists. split; [exact Hrun|]. split_and!; try done.
  - by eapply (inv_update st q at_ l a r' (inserted at_) tk); eauto.
  - unfold insert_key in Hq'. destruct (at_fifo at_) eqn:Ef; [|done].
    rewrite insert_entry_last in Hq'; [done|]. destruct (q_fifo _ _ _ _ Hq Ef) as [_ Hall].
    eapply Forall_impl; [exact Hall|]. unfold ekey; simpl. lia.
Qed.

(** C30: inserting a task into a queue ([scx_atq_insert_vtime], and [scx_atq_insert] with [vtime = SCX_ATQ_FIFO]).  A full queue, a wrong mode, a dying and an already queued task are refused with [-ENOSPC], [-EINVAL], [-ECANCELED] and [-EALREADY] and nothing changes.  Otherwise the call returns 0, the task is claimed by this queue, and it enters the queue's list before the first task with a key that is not smaller, or at the very end of a FIFO queue; the invariant holds again. *)
Theorem atq_insert_correct cl st q at_ l a tk vtime :
  atq_inv st → queue st q at_ l → aq_tasks st !! a = Some tk →
  Z.of_nat (length l) < two32 → (131 ≤ cl)%nat → 0 ≤ at_seq at_ < two64 - 1 →
  if decide (insert_code at_ tk vtime = 0) then
    ∃ st', scx_atq_insert_vtime cl q a vtime st = Some (0, st') ∧ atq_inv st' ∧
      aq_tasks st' = <[a := with_atq q tk]> (aq_tasks st) ∧
      queue st' q (inserted at_)
        (if at_fifo at_ then l ++ [(a, at_seq at_, a)] else insert_entry (a, vtime, a) l)
  else scx_atq_insert_vtime cl q a vtime st = Some (insert_code at_ tk vtime, st).
Proof.
  intros Hinv Hq Ha Hlen Hcl Hseq. unfold scx_atq_insert_vtime.
  destruct (decide _) as [Hc|Hc]; [|by eapply insert_refused].
  destruct (insert_spec cl st q at_ l a tk vtime) as (st' & Hins); try done.
  exists st'. naive_solver.
Qed.

Lemma remove_internal_spec cl st q at_ l a tk dead :
  atq_inv st → queue st q at_ l → aq_tasks st !! a = Some tk → tk_atq tk = q →
  Z.of_nat (length l) < two32 → (131 ≤ cl)%nat →
  ∃ st', scx_atq_remove_internal cl q a dead st = Some (0, st') ∧ atq_inv st' ∧
    aq_tasks st' = <[a := with_atq (if dead then SCX_ATQ_DEAD else NULL) tk]> (aq_tasks st) ∧
    queue st' q (with_size (at_size at_ - 1) at_) (remove_addr a l) ∧
    aq_atqs st' = <[q := with_size (at_size at_ - 1) at_]> (aq_atqs st).
Proof.
  intros Hinv Hq Ha E Hlen Hcl. pose proof (q_lookup _ _ _ _ Hq) as Hl.
  assert (a ∈ eaddrs l) as Hin by (apply (q_claim _ _ _ _ Hq); eauto).
  pose proof (view_nodup _ _ _ (q_view _ _ _ _ Hq)) as Hnd.
  destruct (view_remove cl (aq_rb st) (at_tree at_) l a) as (r' & Hrun & Hv & Hfr);
    [apply Hq|done|by apply small_budget|].
  unfold scx_atq_remove_internal. rewrite (rdk_bind _ _ _ _ _ Ha), E, Z.eqb_refl. simpl.
  rewrite (rdq_bind _ _ _ _ _ Hl), (on_rb_bind _ _ _ _ _ Hrun). simpl.
  rewrite (wrk_bind _ _ _ a tk) by done. rewrite (rdq_bind _ _ _ q at_) by done.
  rewrite (wrq_bind _ _ _ q at_) by done. simpl. rewrite u64_small.
  2: { rewrite (q_size _ _ _ _ Hq). destruct l; [by apply not_elem_of_nil in Hin|].
       simpl in *. unfold is_u64, two64, two32 in *. lia. }
  assert (queue (AtqState r' (<[q := with_size (at_size at_ - 1) at_]> (aq_atqs st))
    (<[a := with_atq (if dead then SCX_ATQ_DEAD else NULL) tk]> (aq_tasks st))) q
    (with_size (at_size at_ - 1) at_) (remove_addr a l)) as Hq'.
  { destruct (inv_addr _ Hinv q) as [? ?]; [by eexists|].
    eapply queue_removed; [done|apply sublist_filter| |done|by destruct dead].
    by apply eaddrs_removed. }
  eexists. split; [reflexivity|]. split_and!; [|done|exact Hq'|done].
  eapply (inv_update st q at_ l a r' _ tk); eauto.
  - eapply rb_frame_mono; [exact Hfr|]. set_solver.
  - intros b. by eapply keeps_remove_node.
  - destruct dead; simpl; auto.
Qed.

(** [scx_atq_remove] takes a queued task out of its queue: the task leaves the list, the others keep their order, the claim is released and the size counter follows.  A task that is not in this queue is refused with [-EINVAL] and nothing changes. *)
Theorem atq_remove_correct cl st q at_ l a tk :
  atq_inv st → queue st q at_ l → aq_tasks st !! a = Some tk →
  Z.of_nat (length l) < two32 → (131 ≤ cl)%nat →
  if decide (tk_atq tk = q) then
    ∃ st', scx_atq_remove cl q a st = Some (0, st') ∧ atq_inv st' ∧
      aq_tasks st' = <[a := with_atq NULL tk]> (aq_tasks st) ∧
      queue st' q (with_size (at_size at_ - 1) at_) (remove_addr a l)
  else scx_atq_remove cl q a st = Some (- EINVAL, st).
Proof.
  intros Hinv Hq Ha Hlen Hcl. destruct (decide (tk_atq tk = q)) as [E|E].
  - destruct (remove_internal_spec cl st q at_ l a tk false) as (st' & ? & ? & ? & ? & _);
      [done..|]. by exists st'.
  - unfold scx_atq_remove, scx_atq_remove_internal. rewrite (rdk_bind _ _ _ _ _ Ha).
    by rewrite (proj2 (Z.eqb_neq _ _)).
Qed.

Lemma s32_nonzero n : 0 < n < two32 → s32 n ≠ 0.
Proof.
  intros Hn. unfold s32. rewrite Z.mod_small by lia. case_match; unfold two32 in *; lia.
Qed.

Lemma pop_spec cl st q at_ a k l (hold : bool) :
  atq_inv st → queue st q at_ ((a, k, a) :: l) →
  Z.of_nat (S (length l)) < two32 → (131 ≤ cl)%nat →
  ∃ st' tk tk', scx_atq_pop cl q hold st = Some (a, st') ∧ atq_inv st' ∧
    aq_tasks st !! a = Some tk ∧ aq_tasks st' = <[a := tk']> (aq_tasks st) ∧
    tk_atq tk' = NULL ∧
    tk_holdcnt tk' = (if hold then s32 (tk_holdcnt tk + 1) else tk_holdcnt tk) ∧
    queue st' q (with_size (at_size at_ - 1) at_) l ∧
    aq_atqs st' = <[q := with_size (at_size at_ - 1) at_]> (aq_atqs st).
Proof.
  intros Hinv Hq Hlen Hcl. pose proof (q_lookup _ _ _ _ Hq) as Hl.
  destruct (proj1 (q_claim _ _ _ _ Hq a)) as (tk & Ha & E); [csimpl; left|].
  destruct (inv_addr _ Hinv q) as [Hq0 HqD]; [by eexists|].
  destruct (view_pop cl (aq_rb st) (at_tree at_) a k a l (q_view _ _ _ _ Hq))
    as (r' & Hrun & Hv & Hfr); [by apply small_budget|].
  set (tk' := with_atq NULL (if hold then with_holdcnt (s32 (tk_holdcnt tk + 1)) tk else tk)).
  unfold scx_atq_pop, scx_atq_nr_queued. rewrite ST_bind_assoc, (rdq_bind _ _ _ _ _ Hl), ST_ret_bind.
  rewrite (proj2 (Z.eqb_neq _ _)) by (rewrite (q_size _ _ _ _ Hq); apply s32_nonzero; simpl; lia).
  rewrite (rdq_bind _ _ _ _ _ Hl), (on_rb_bind _ _ _ _ _ Hrun). simpl.
  rewrite (rdq_bind _ _ _ q at_) by done. rewrite (wrq_bind _ _ _ q at_) by done. simpl.
  rewrite u64_small by (rewrite (q_size _ _ _ _ Hq); simpl; unfold is_u64, two64, two32 in *; lia).
  assert (queue (AtqState r' (<[q := with_size (at_size at_ - 1) at_]> (aq_atqs st))
    (<[a := tk']> (aq_tasks st))) q (with_size (at_size at_ - 1) at_) l) as Hq'.
  { eapply queue_removed; [done|by apply sublist_cons|done|done|].
    unfold tk'; simpl. congruence. }
  exists (AtqState r' (<[q := with_size (at_size at_ - 1) at_]> (aq_atqs st))
    (<[a := tk']> (aq_tasks st))), tk, tk'. split_and!; try done.
  - unfold tk'. destruct hold; unfold scx_atq_task_hold, wrk, of_option, mbind, ST_bind, mret, ST_ret;
      heap_run; by rewrite ?insert_insert_eq.
  - eapply (inv_update st q at_ _ a r' _ tk); eauto.
    + eapply rb_frame_mono; [exact Hfr|]. set_solver.
    + intros b. by eapply keeps_pop.
  - unfold tk'. by destruct hold.
Qed.

Lemma pop_empty cl st q at_ (hold : bool) :
  queue st q at_ [] → scx_atq_pop cl q hold st = Some (NULL, st).
Proof.
  intros Hq. unfold scx_atq_pop, scx_atq_nr_queued.
  rewrite ST_bind_assoc, (rdq_bind _ _ _ _ _ (q_lookup _ _ _ _ Hq)), ST_ret_bind.
  by rewrite (q_size _ _ _ _ Hq).
Qed.

(** [scx_atq_pop] returns the first task of the queue, the one with the smallest virtual time or the oldest of a FIFO queue, takes exactly it out of the queue, releases its claim and, with [hold], pins it; on an empty queue it returns [NULL] and changes nothing. *)
Theorem atq_pop_correct cl st q at_ l (hold : bool) :
  atq_inv st → queue st q at_ l → Z.of_nat (length l) < two32 → (131 ≤ cl)%nat →
  match l with
  | [] => scx_atq_pop cl q hold st = Some (NULL, st)
  | (a, k, v) :: rest =>
      ∃ st' tk tk', scx_atq_pop cl q hold st = Some (a, st') ∧ atq_inv st' ∧
        aq_tasks st !! a = Some tk ∧ aq_tasks st' = <[a := tk']> (aq_tasks st) ∧
        tk_atq tk' = NULL ∧
        tk_holdcnt tk' = (if hold then s32 (tk_holdcnt tk + 1) else tk_holdcnt tk) ∧
        queue st' q (with_size (at_size at_ - 1) at_) rest ∧
        Forall (λ e, k ≤ ekey e) rest
  end.
Proof.
  intros Hinv Hq Hlen Hcl. destruct l as [|[[a k] v] l]; [by eapply pop_empty|].
  assert (v = a) as -> by (eapply (q_value _ _ _ _ Hq); left).
  destruct (pop_spec cl st q at_ a k l hold Hinv Hq Hlen Hcl) as (st' & tk & tk' & Hpop).
  exists st', tk, tk'. destruct_and!. split_and!; try done.
  pose proof (view_sorted _ _ _ (q_view _ _ _ _ Hq)) as Hs.
  by apply StronglySorted_cons in Hs as [? _].
Qed.

(** [scx_atq_peek] returns the task the next [scx_atq_pop] will return, or [NULL] on an empty queue, and changes nothing. *)
Theorem atq_peek_correct cl st q at_ l :
  atq_inv st → queue st q at_ l → Z.of_nat (length l) < two32 → (131 ≤ cl)%nat →
  scx_atq_peek cl q st = Some (match l with [] => NULL | (a, _, _) :: _ => a end, st) ∧
  result (scx_atq_pop cl q false st) = result (scx_atq_peek cl q st).
Proof.
  intros Hinv Hq Hlen Hcl. pose proof (q_lookup _ _ _ _ Hq) as Hl.
  assert (scx_atq_peek cl q st = Some (match l with [] => NULL | (a, _, _) :: _ => a end, st)) as Hp.
  { unfold scx_atq_peek, scx_atq_nr_queued. rewrite ST_bind_assoc, (rdq_bind _ _ _ _ _ Hl), ST_ret_bind.
    rewrite (q_size _ _ _ _ Hq). destruct l as [|[[a k] v] l]; [done|].
    rewrite (proj2 (Z.eqb_neq _ _)) by (apply s32_nonzero; simpl in *; lia).
    rewrite (rdq_bind _ _ _ _ _ Hl). erewrite on_rb_bind.
    2: { eapply view_least; [apply (q_view _ _ _ _ Hq)|by apply small_budget]. }
    simpl. assert (v = a) as -> by (eapply (q_value _ _ _ _ Hq); left). by destruct st. }
  split; [done|]. rewrite Hp. destruct l as [|[[a k] v] l]; [by rewrite (pop_empty _ _ _ _ _ Hq)|].
  assert (v = a) as -> by (eapply (q_value _ _ _ _ Hq); left).
  destruct (pop_spec cl st q at_ a k l false Hinv Hq Hlen Hcl) as (st' & tk & tk' & -> & _).
  done.
Qed.

(** ** Transitions that only touch a task *)
Lemma inv_retag st a tk tk' :
  atq_inv st → aq_tasks st !! a = Some tk →
  tk_atq tk' = tk_atq tk ∨ (tk_atq tk = NULL ∧ tk_atq tk' = SCX_ATQ_DEAD) →
  atq_inv (AtqState (aq_rb st) (aq_atqs st) (<[a := tk']> (aq_tasks st))).
Proof.
  intros Hinv Ha Htk. split; simpl; [|apply Hinv|apply Hinv| |apply Hinv|apply Hinv].
  - intros q at_ Hq. destruct (inv_queue _ Hinv _ _ Hq) as [l [Hl Hv Hs Hval Hc Hf]].
    destruct (inv_addr _ Hinv q) as [Hq0 HqD]; [by eexists|].
    exists l. split; try done. intros b. simpl. rewrite Hc. destruct (decide (b = a)) as [->|Hne].
    + rewrite lookup_insert_eq, Ha. split; intros (x & [= <-] & <-); eexists; split; [done| |done|];
        destruct Htk as [?|[? ?]]; congruence.
    + by rewrite lookup_insert_ne.
  - intros b x Hb. destruct (decide (b = a)) as [->|Hne].
    + rewrite lookup_insert_eq in Hb. injection Hb as <-.
      destruct (inv_task _ Hinv _ _ Ha) as (? & ? & Ho). split_and!; [done..|].
      destruct Htk as [->|[_ ->]]; auto.
    + rewrite lookup_insert_ne in Hb by done. by apply (inv_task _ Hinv) in Hb.
Qed.

(** No queue is so long or so old that a counter would wrap. *)
Definition bounded st : Prop :=
  ∀ q at_, aq_atqs st !! q = Some at_ → at_size at_ < two32 ∧ 0 ≤ at_seq at_ < two64 - 1.

Lemma bounded_length st q at_ l : bounded st → queue st q at_ l → Z.of_nat (length l) < two32.
Proof.
  intros Hb Hq. destruct (Hb _ _ (q_lookup _ _ _ _ Hq)) as [Hs _].
  by rewrite (q_size _ _ _ _ Hq) in Hs.
Qed.

(** ** All interleavings

    One transition of the system: a critical section of some CPU, or one of
    the atomic accesses outside a lock. *)
Inductive atq_step (cl : nat) : atq_state A → atq_state A → Prop :=
| step_insert q a vtime ret st st' :
    is_Some (aq_atqs st !! q) → is_Some (aq_tasks st !! a) → bounded st →
    scx_atq_insert_vtime cl q a vtime st = Some (ret, st') → atq_step cl st st'
| step_remove q a dead ret st st' :
    is_Some (aq_atqs st !! q) → is_Some (aq_tasks st !! a) → bounded st →
    scx_atq_remove_internal cl q a dead st = Some (ret, st') → atq_step cl st st'
| step_pop q hold p st st' :
    is_Some (aq_atqs st !! q) → bounded st →
    scx_atq_pop cl q hold st = Some (p, st') → atq_step cl st st'
| step_latch a old st st' :
    is_Some (aq_tasks st !! a) →
    cmpxchg_atq a NULL SCX_ATQ_DEAD st = Some (old, st') → atq_step cl st st'
| step_hold a st st' :
    scx_atq_task_hold a st = Some (tt, st') → atq_step cl st st'
| step_drop a st st' :
    scx_atq_task_drop a st = Some (tt, st') → atq_step cl st st'.

(** What every transition does to the tasks: one task changes, and a dead one
    only in its hold count. *)
Definition task_change st st' : Prop :=
  aq_tasks st' = aq_tasks st ∨
  ∃ a tk tk', aq_tasks st !! a = Some tk ∧ aq_tasks st' = <[a := tk']> (aq_tasks st) ∧
    (tk_atq tk = SCX_ATQ_DEAD → tk_atq tk' = SCX_ATQ_DEAD).

Lemma step_inv cl st st' :
  atq_step cl st st' → (131 ≤ cl)%nat → atq_inv st → atq_inv st' ∧ task_change st st'.
Proof.
  intros Hstep Hcl Hinv. destruct Hstep as
    [q a vtime ret st st' [at_ Hq] [tk Ha] Hb Hrun|q a dead ret st st' [at_ Hq] [tk Ha] Hb Hrun
    |q hold p st st' [at_ Hq] Hb Hrun|a old st st' [tk Ha] Hrun|a st st' Hrun|a st st' Hrun].
  - destruct (inv_queue _ Hinv _ _ Hq) as [l Hql]. unfold scx_atq_insert_vtime in Hrun.
    destruct (decide (insert_code at_ tk vtime = 0)) as [Hc|Hc].
    2: { rewrite (insert_refused cl st q at_ l) with (tk := tk) in Hrun by done.
         injection Hrun as <- <-. by split; [|left]. }
    destruct (insert_spec cl st q at_ l a tk vtime) as (st1 & Hrun1 & Hinv1 & Htk & E0 & _);
      try done; [by eapply bounded_length|by eapply Hb|].
    rewrite Hrun1 in Hrun. injection Hrun as <- <-. split; [done|]. right.
    exists a, tk, (with_atq q tk). split_and!; [done..|]. rewrite E0. done.
  - destruct (inv_queue _ Hinv _ _ Hq) as [l Hql]. destruct (decide (tk_atq tk = q)) as [E|E].
    + destruct (remove_internal_spec cl st q at_ l a tk dead) as (st1 & Hrun1 & Hinv1 & Htk & _);
        try done; [by eapply bounded_length|].
      rewrite Hrun1 in Hrun. injection Hrun as <- <-. split; [done|]. right.
      eexists a, tk, _. split_and!; [done|exact Htk|]. intros ED. exfalso.
      destruct (inv_addr _ Hinv q); [by eexists|]. congruence.
    + unfold scx_atq_remove_internal in Hrun. rewrite (rdk_bind _ _ _ _ _ Ha) in Hrun.
      rewrite (proj2 (Z.eqb_neq _ _)) in Hrun by done. injection Hrun as <- <-. by split; [|left].
  - destruct (inv_queue _ Hinv _ _ Hq) as [[|[[a k] v] l] Hql].
    { rewrite (pop_empty _ _ _ _ _ Hql) in Hrun. injection Hrun as <- <-. by split; [|left]. }
    assert (v = a) as -> by (eapply (q_value _ _ _ _ Hql); left).
    destruct (pop_spec cl st q at_ a k l hold) as (st1 & tk & tk' & Hrun1 & Hinv1 & Ha & Htk & _);
      try done; [by eapply (bounded_length _ _ _ _ Hb Hql)|].
    rewrite Hrun1 in Hrun. injection Hrun as <- <-. split; [done|]. right.
    exists a, tk, tk'. split_and!; [done..|]. intros ED. exfalso.
    destruct (proj1 (q_claim _ _ _ _ Hql a)) as (tk2 & Ha2 & E2); [csimpl; left|].
    destruct (inv_addr _ Hinv q); [by eexists|]. congruence.
  - unfold cmpxchg_atq in Hrun. rewrite (rdk_bind _ _ _ _ _ Ha) in Hrun.
    destruct (Z.eqb_spec (tk_atq tk) 0) as [E|E].
    + rewrite (wrk_bind _ _ _ _ _ Ha) in Hrun. injection Hrun as <- <-.
      split; [by eapply inv_retag; eauto|]. right. by exists a, tk, (with_atq SCX_ATQ_DEAD tk).
    + injection Hrun as <- <-. by split; [|left].
  - unfold scx_atq_task_hold, wrk in Hrun. destruct (aq_tasks st !! a) as [tk|] eqn:Ha; [|done].
    injection Hrun as <-. split; [eapply inv_retag; eauto|]. right. by eexists a, tk, _.
  - unfold scx_atq_task_drop, wrk in Hrun. destruct (aq_tasks st !! a) as [tk|] eqn:Ha; [|done].
    injection Hrun as <-. split; [eapply inv_retag; eauto|]. right. by eexists a, tk, _.
Qed.

(** A dying task, out of every queue. *)
Definition dead st (a : Z) : Prop :=
  ∃ tk, aq_tasks st !! a = Some tk ∧ tk_atq tk = SCX_ATQ_DEAD.

Lemma dead_unqueued st a q at_ l : atq_inv st → dead st a → queue st q at_ l → a ∉ eaddrs l.
Proof.
  intros Hinv (tk & Ha & E) Hq (tk' & Ha' & E')%(q_claim _ _ _ _ Hq).
  destruct (inv_addr _ Hinv q); [eexists; apply (q_lookup _ _ _ _ Hq)|]. congruence.
Qed.

Lemma change_keeps st st' a :
  task_change st st' →
  (is_Some (aq_tasks st !! a) → is_Some (aq_tasks st' !! a)) ∧ (dead st a → dead st' a).
Proof.
  intros [E|(b & tk & tk' & Hb & E & HD)]; unfold dead; rewrite E; [done|].
  rewrite lookup_insert_is_Some'. split; [auto|]. intros (tk2 & Ha & E2).
  destruct (decide (a = b)) as [->|Hne].
  - exists tk'. rewrite lookup_insert_eq. split; [done|]. apply HD. congruence.
  - exists tk2. by rewrite lookup_insert_ne.
Qed.

Lemma steps_inv cl st st' a :
  rtc (atq_step cl) st st' → (131 ≤ cl)%nat → atq_inv st →
  atq_inv st' ∧ (is_Some (aq_tasks st !! a) → is_Some (aq_tasks st' !! a)) ∧
  (dead st a → dead st' a).
Proof.
  intros Hsteps Hcl. induction Hsteps as [st|st1 st2 st3 Hstep Hsteps IH]; intros Hinv; [done|].
  destruct (step_inv _ _ _ Hstep Hcl Hinv) as [Hinv2 Hch].
  destruct (change_keeps _ _ a Hch) as [H1 H2]. destruct (IH Hinv2) as (? & ? & ?). auto.
Qed.

(** C9: over every interleaving of critical sections and atomic accesses of any number of CPUs the queue invariant is preserved (sizes, claims, FIFO sequence numbers and tree contents agree in every queue), and every task that is latched [SCX_ATQ_DEAD] stays so and never shows up in a queue again. *)
Theorem atq_interleavings cl st st' :
  rtc (atq_step cl) st st' → (131 ≤ cl)%nat → atq_inv st →
  atq_inv st' ∧ ∀ a, dead st a → dead st' a ∧ ∀ q at_ l, queue st' q at_ l → a ∉ eaddrs l.
Proof.
  intros Hsteps Hcl Hinv. split; [by apply (steps_inv cl st st' NULL)|]. intros a Hd.
  destruct (steps_inv cl st st' a Hsteps Hcl Hinv) as (Hinv' & _ & Hd'). split; [auto|]. intros q at_ l. by apply dead_unqueued; auto.
Qed.

(** What other CPUs may do between two accesses of a loop. *)
Definition env_ok (cl : nat) (env : nat → atq_state A → atq_state A) : Prop :=
  ∀ i st, atq_inv st → bounded st → rtc (atq_step cl) st (env i st) ∧ bounded (env i st).

(** In round [i] the other CPUs leave the owner of [a] alone; they let go of it. *)
Definition left_alone (env : nat → atq_state A → atq_state A) (a : Z) (i : nat) : Prop :=
  ∀ st tk, aq_tasks st !! a = Some tk → ∃ tk', aq_tasks (env i st) !! a = Some tk' ∧ tk_atq tk' = tk_atq tk.
Definition let_go (env : nat → atq_state A → atq_state A) (a : Z) (i : nat) : Prop :=
  ∀ st tk, aq_tasks (env i st) !! a = Some tk → tk_holdcnt tk <= 0.
(** A round among the last [cl], and among the rest after the first one missed it. *)
Definition some_round (P : nat → Prop) (cl : nat) : Prop := ∃ i, (i < cl)%nat ∧ P i.
Lemma later_round P cl : some_round P (S cl) → ¬ P cl → some_round P cl.
Proof. intros (i & Hi & HP) Hn. exists i. split; [|done]. destruct (decide (i = cl)) as [->|]; [done|lia]. Qed.

Lemma bounded_removed st st' q at_ :
  bounded st → aq_atqs st !! q = Some at_ →
  aq_atqs st' = <[q := with_size (at_size at_ - 1) at_]> (aq_atqs st) → bounded st'.
Proof.
  intros Hb Hq E q2 at2. rewrite E, lookup_insert_Some. intros [[<- <-]|[_ H2]]; [|by eapply Hb].
  apply Hb in Hq. simpl. lia.
Qed.

Lemma detach_loop_spec cl clr env a st :
  env_ok clr env → (131 ≤ clr)%nat → atq_inv st → bounded st → is_Some (aq_tasks st !! a) →
  ∃ e st', detach_loop cl clr env a st = Some (e, st') ∧ atq_inv st' ∧ bounded st' ∧
    is_Some (aq_tasks st' !! a) ∧ (e = LoopSpent ∧ ¬ some_round (left_alone env a) cl ∨ e = LoopBreak ∧ dead st' a).
Proof.
  intros Henv Hclr. revert st. induction cl as [|cl IH]; intros st Hinv Hbd [tk Ha]; simpl.
  { exists LoopSpent, st. split_and!; eauto. left. split; [done|]. intros (i & ? & _). lia. }
  rewrite (rdk_bind _ _ _ _ _ Ha). destruct (Z.eqb_spec (tk_atq tk) SCX_ATQ_DEAD) as [ED|ED].
  { exists LoopBreak, st. split_and!; eauto. right. split; [done|]. by exists tk. }
  destruct (Henv cl st Hinv Hbd) as [Hsteps Hb].
  destruct (steps_inv _ _ _ a Hsteps Hclr Hinv) as (Hinv1 & Hs1 & _).
  destruct (Hs1 ltac:(by eexists)) as [tk1 Ha1].
  assert (tk_atq tk1 ≠ tk_atq tk → ∃ e st', detach_loop cl clr env a (env cl st) = Some (e, st') ∧ atq_inv st' ∧ bounded st' ∧
    is_Some (aq_tasks st' !! a) ∧ (e = LoopSpent ∧ ¬ some_round (left_alone env a) (S cl) ∨ e = LoopBreak ∧ dead st' a)) as Hagain.
  { intros Hne. destruct (IH _ Hinv1 Hb ltac:(by eexists)) as (e & st' & ? & ? & ? & ? & He). exists e, st'. split_and!; [done..|].
    destruct He as [[? Hno]|?]; [left|by right]. split; [done|]. intros Hr%later_round; [done|]. intros Hal. destruct (Hal st tk Ha) as (tk2 & Ha2 & E). congruence. }
  unfold modifies at 1, mbind at 1, ST_bind at 1.
  destruct (Z.eqb_spec (tk_atq tk) 0) as [E0|E0].
  - unfold cmpxchg_atq. rewrite !ST_bind_assoc, (rdk_bind _ _ _ _ _ Ha1).
    destruct (Z.eqb_spec (tk_atq tk1) 0) as [E1|E1].
    + rewrite ST_bind_assoc, (wrk_bind _ _ _ _ _ Ha1), ST_ret_bind, E1. simpl.
      eexists LoopBreak, _. split; [reflexivity|]. split_and!.
      * by eapply inv_retag; eauto.
      * exact Hb.
      * simpl. rewrite lookup_insert_eq. by eexists.
      * right. split; [done|]. eexists. simpl. by rewrite lookup_insert_eq.
    + rewrite ST_bind_assoc, !ST_ret_bind. rewrite (proj2 (Z.eqb_neq _ _)) by done. apply Hagain. congruence.
  - rewrite (rdk_bind _ _ _ _ _ Ha1).
    destruct (Z.eqb_spec (tk_atq tk1) (tk_atq tk)) as [E1|E1]; [|by apply Hagain].
    destruct (inv_task _ Hinv1 _ _ Ha1) as (_ & _ & [?|[?|[at_ Hq]]]); [congruence..|].
    destruct (inv_queue _ Hinv1 _ _ Hq) as [l Hql]. rewrite <-E1. simpl.
    destruct (remove_internal_spec clr _ _ _ l a tk1 true Hinv1 Hql Ha1)
      as (st2 & Hrun & Hinv2 & Htk & _ & Hat); [done|by eapply bounded_length|done|].
    rewrite (ST_bind_run _ _ _ _ _ Hrun). exists LoopBreak, st2.
    rewrite Htk, lookup_insert_eq. split_and!; [done|done|by eapply bounded_removed|by eexists|]. right. split; [done|].
    eexists. rewrite Htk, lookup_insert_eq. done.
Qed.

Lemma wait_loop_spec cl clr env a st :
  env_ok clr env → (131 ≤ clr)%nat → atq_inv st → bounded st → is_Some (aq_tasks st !! a) →
  ∃ st' tk, wait_loop cl env a st = Some (tt, st') ∧ atq_inv st' ∧ (dead st a → dead st' a) ∧
    aq_tasks st' !! a = Some tk ∧ (some_round (let_go env a) cl → tk_holdcnt tk <= 0).
Proof.
  intros Henv Hclr. revert st. induction cl as [|cl IH]; intros st Hinv Hbd [tk Ha]; simpl;
    rewrite (rdk_bind _ _ _ _ _ Ha); destruct (Z.leb_spec (tk_holdcnt tk) 0).
  1,3: by exists st, tk.
  { exists st, tk. split_and!; try done. intros (i & ? & _). lia. }
  unfold modifies, mbind, ST_bind. destruct (Henv cl st Hinv Hbd) as [Hsteps Hb].
  destruct (steps_inv _ _ _ a Hsteps Hclr Hinv) as (Hinv1 & Hs1 & Hd1). destruct (Hs1 ltac:(by eexists)) as [tk1 Ha1].
  destruct (decide (tk_holdcnt tk1 <= 0)) as [Hle|Hgt].
  { exists (env cl st), tk1. split_and!; [|done..]. destruct cl; simpl; rewrite (rdk_bind _ _ _ _ _ Ha1); by rewrite (proj2 (Z.leb_le _ _)). }
  destruct (IH (env cl st)) as (st' & tk' & ? & ? & ? & ? & Hgo); [done|done|by eexists|].
  exists st', tk'. split_and!; auto. intros Hr%later_round; [auto|]. intros Hlet. by apply Hgt, (Hlet st tk1 Ha1).
Qed.

(** C31: [scx_atq_task_detach] under arbitrary interference by other CPUs never faults, returns 0 and keeps the invariant.  If in one of its [cl] iterations the other CPUs leave the owner of the task alone, the task is latched [SCX_ATQ_DEAD] afterwards and out of every queue; if in one round of the wait they let go of it, nobody holds it afterwards. *)
Theorem atq_detach_correct cl clr env env' a st :
  env_ok clr env → env_ok clr env' → (131 ≤ clr)%nat → atq_inv st → bounded st →
  is_Some (aq_tasks st !! a) →
  ∃ st' tk, scx_atq_task_detach cl clr env env' a st = Some (0, st') ∧ atq_inv st' ∧ aq_tasks st' !! a = Some tk ∧
    (some_round (left_alone env a) cl → tk_atq tk = SCX_ATQ_DEAD ∧ ∀ q at_ l, queue st' q at_ l → a ∉ eaddrs l) ∧
    (some_round (let_go env' a) cl → tk_holdcnt tk <= 0).
Proof.
  intros Henv Henv' Hclr Hinv Hbd Ha.
  destruct (detach_loop_spec cl clr env a st) as (e & st1 & Hrun & Hinv1 & Hbd1 & Ha1 & He); try done.
  destruct (wait_loop_spec cl clr env' a st1) as (st2 & tk & Hrun2 & Hinv2 & Hd & Ha2 & Hgo); try done.
  exists st2, tk. split_and!; [|done|done| |done].
  - unfold scx_atq_task_detach. rewrite (ST_bind_run _ _ _ _ _ Hrun).
    destruct He as [[-> _]|[-> _]]; by rewrite (ST_bind_run _ _ _ _ _ Hrun2).
  - intros Hr. destruct He as [[_ ?]|[_ Hd1]]; [done|]. pose proof (Hd Hd1) as Hdead. split.
    + destruct Hdead as (tk' & Ha' & E). congruence.
    + intros q at_ l. by apply dead_unqueued.
Qed.

(** [scx_atq_task_fini] under arbitrary interference returns 0 or 1 and keeps the invariant; when it returns 1 the task was removed by this call: its claim is released, so it is in no queue and can be queued again. *)
Theorem atq_fini_correct cl clr env a st :
  env_ok clr env → (131 ≤ clr)%nat → atq_inv st → bounded st → is_Some (aq_tasks st !! a) →
  ∃ ret st', scx_atq_task_fini cl clr env a st = Some (ret, st') ∧ atq_inv st' ∧
    (ret = 0 ∨ ret = 1 ∧ ∃ tk, aq_tasks st' !! a = Some tk ∧ tk_atq tk = NULL).
Proof.
  intros Henv Hclr. revert st. induction cl as [|cl IH]; intros st Hinv Hbd [tk Ha]; simpl.
  { exists 0, st. auto. }
  rewrite (rdk_bind _ _ _ _ _ Ha). destruct ((tk_atq tk =? 0) || (tk_atq tk =? SCX_ATQ_DEAD)) eqn:E.
  { exists 0, st. auto. }
  apply orb_false_iff in E as [E0%Z.eqb_neq ED%Z.eqb_neq].
  destruct (Henv cl st Hinv Hbd) as [Hsteps Hb].
  destruct (steps_inv _ _ _ a Hsteps Hclr Hinv) as (Hinv1 & Hs1 & _).
  destruct (Hs1 ltac:(by eexists)) as [tk1 Ha1].
  unfold modifies at 1, mbind at 1, ST_bind at 1. rewrite (rdk_bind _ _ _ _ _ Ha1).
  destruct (Z.eqb_spec (tk_atq tk1) (tk_atq tk)) as [E1|E1]; [|apply IH; [done|done|by eexists]].
  destruct (inv_task _ Hinv1 _ _ Ha1) as (_ & _ & [?|[?|[at_ Hq]]]); [congruence..|].
  destruct (inv_queue _ Hinv1 _ _ Hq) as [l Hql]. simpl. unfold scx_atq_remove_unlocked.
  destruct (remove_internal_spec clr _ _ _ l a tk1 false Hinv1 Hql Ha1)
    as (st2 & Hrun & Hinv2 & Htk & _); [done|by eapply bounded_length|done|].
  rewrite (ST_bind_run _ _ _ _ _ Hrun). exists 1, st2. split_and!; [done|done|]. right.
  split; [done|]. eexists. by rewrite Htk, lookup_insert_eq.
Qed.

(** ** Creation and destruction *)

(** Views of other trees do not depend on the allocator state. *)
Lemma queue_transfer st st' q at_ l :
  queue st q at_ l → aq_atqs st' !! q = Some at_ → aq_tasks st' = aq_tasks st →
  rb_nodes (aq_rb st') = rb_nodes (aq_rb st) →
  rb_trees (aq_rb st') !! at_tree at_ = rb_trees (aq_rb st) !! at_tree at_ →
  queue st' q at_ l.
Proof.
  intros [Hl Hv Hs Hval Hc Hf] Hl' Ht Hn Htr. split; try done.
  - eapply view_frame; [done|done|]. intros a _. by rewrite Hn.
  - intros a. by rewrite Ht.
Qed.

(** Only the allocator state changed. *)
Lemma inv_slab st r' :
  atq_inv st → rb_nodes r' = rb_nodes (aq_rb st) → rb_trees r' = rb_trees (aq_rb st) →
  slab_live (rb_slab r') = slab_live (rb_slab (aq_rb st)) →
  atq_inv (AtqState r' (aq_atqs st) (aq_tasks st)).
Proof.
  intros Hinv Hn Ht Hs. split; simpl; try apply Hinv.
  - intros q at_ Hq. destruct (inv_queue _ Hinv _ _ Hq) as [l Hl]. exists l.
    eapply queue_transfer; try done. simpl. by rewrite Ht.
  - intros a tk Ha. rewrite Hn. by apply (inv_task _ Hinv).
  - rewrite Hs. apply Hinv.
  - rewrite Ht, Hs. apply Hinv.
Qed.

(** A new queue object with an empty tree joins the others. *)
Lemma inv_create st q at_ r' :
  atq_inv st → q ∉ slab_live (rb_slab (aq_rb st)) → q ≠ NULL → q ≠ SCX_ATQ_DEAD →
  at_tree at_ ∉ {[q]} ∪ slab_live (rb_slab (aq_rb st)) →
  slab_live (rb_slab r') = {[at_tree at_]} ∪ ({[q]} ∪ slab_live (rb_slab (aq_rb st))) →
  rb_nodes r' = rb_nodes (aq_rb st) →
  (∀ a, a ≠ at_tree at_ → rb_trees r' !! a = rb_trees (aq_rb st) !! a) →
  rb_view r' (at_tree at_) [] → at_size at_ = 0 →
  let st' := AtqState r' (<[q := at_]> (aq_atqs st)) (aq_tasks st) in
  atq_inv st' ∧ queue st' q at_ [].
Proof.
  intros Hinv Hq Hq0 HqD Htr Hlive Hnodes Htrees Hv Hs st'.
  assert (aq_atqs st !! q = None) as Hqn.
  { apply eq_None_not_Some. intros ?%(inv_live _ Hinv). done. }
  assert (∀ q2 at2, aq_atqs st !! q2 = Some at2 → at_tree at2 ≠ at_tree at_) as Hdist.
  { intros q2 at2 H2 E. destruct (inv_queue _ Hinv _ _ H2) as [l2 Hq2].
    apply Htr, elem_of_union_r. rewrite <-E. eapply (inv_header _ Hinv).
    eapply view_header, (q_view _ _ _ _ Hq2). }
  rewrite not_elem_of_union, not_elem_of_singleton in Htr. destruct Htr as [Htq Htr].
  assert (queue st' q at_ []) as Hqq.
  { split; simpl; [apply lookup_insert_eq|exact Hv|exact Hs| | |].
    - by intros a k v ?%not_elem_of_nil.
    - intros a. split; [by intros ?%not_elem_of_nil|]. intros (tk & Ha & E).
      destruct (inv_task _ Hinv _ _ Ha) as (_ & _ & [?|[?|[x Hx]]]); congruence.
    - intros _. by split; constructor. }
  split; [|done]. split; simpl.
  - intros q2 at2. destruct (decide (q2 = q)) as [->|Hne].
    + rewrite lookup_insert_eq. intros [= <-]. by exists [].
    + rewrite lookup_insert_ne by done. intros H2. destruct (inv_queue _ Hinv _ _ H2) as [l2 Hq2].
      exists l2. eapply queue_transfer; try done; simpl; [by rewrite lookup_insert_ne|].
      by apply Htrees, (Hdist _ _ H2).
  - intros q1 q2 at1 at2. rewrite !lookup_insert_Some.
    intros [[<- <-]|[_ Hq1]] [[<- <-]|[_ Hq2]] E; [done| | |by eapply (inv_trees _ Hinv)].
    + by apply Hdist in Hq2.
    + by apply Hdist in Hq1.
  - intros q2 [<-|Hs2]%lookup_insert_is_Some'; [done|]. by apply (inv_addr _ Hinv).
  - intros a tk Ha. destruct (inv_task _ Hinv _ _ Ha) as (? & ? & Ho). rewrite Hnodes.
    split_and!; [done..|]. destruct Ho as [?|[?|?]]; auto.
    right; right. apply lookup_insert_is_Some'. auto.
  - rewrite Hlive. intros q2 [<-|Hs2%(inv_live _ Hinv)]%lookup_insert_is_Some';
      rewrite !elem_of_union, ?elem_of_singleton; auto.
  - rewrite Hlive. intros p Hp. rewrite !elem_of_union, ?elem_of_singleton.
    destruct (decide (p = at_tree at_)) as [->|Hne].
    + split; [auto|]. rewrite lookup_insert_ne by done.
      apply eq_None_not_Some. by intros ?%(inv_live _ Hinv).
    + rewrite Htrees in Hp by done. destruct (inv_header _ Hinv _ Hp) as [? ?].
      split; [auto|]. rewrite lookup_insert_ne; [done|congruence].
Qed.

(** [scx_atq_create] returns [NULL], leaving every existing queue as it was, or the address of a new empty queue of the requested kind and capacity; the invariant holds either way.  Allocated objects are cache-line aligned, so an address is never [SCX_ATQ_DEAD]. *)
Theorem atq_create_correct st fifo capacity :
  atq_inv st → (∀ a p a', scx_alloc (A := A) a = (p, a') → p ≠ SCX_ATQ_DEAD) →
  ∃ q st', scx_atq_create_internal fifo capacity st = Some (q, st') ∧ atq_inv st' ∧
    aq_tasks st' = aq_tasks st ∧
    (if decide (q = NULL) then aq_atqs st' = aq_atqs st
     else ∃ tree, aq_atqs st' = <[q := ScxAtq tree capacity 0 0 fifo]> (aq_atqs st) ∧
       queue st' q (ScxAtq tree capacity 0 0 fifo) []).
Proof.
  intros Hinv Halign. unfold scx_atq_create_internal, atq_alloc.
  destruct (scx_alloc (rb_slab (aq_rb st))) as [q a'] eqn:Ea.
  unfold mbind at 1, ST_bind at 1. rewrite Ea. destruct (Z.eqb_spec q 0) as [->|Hq].
  { eexists 0, _. split; [reflexivity|]. split_and!; [|done|done].
    apply inv_slab; [done..|]. simpl. by apply scx_alloc_null. }
  destruct (scx_alloc_spec _ _ _ Ea Hq) as [Hfresh Hlive].
  assert (aq_atqs st !! q = None) as Hqn.
  { apply eq_None_not_Some. by intros ?%(inv_live _ Hinv). }
  set (r1 := RbState (rb_nodes (aq_rb st)) (rb_trees (aq_rb st)) a').
  destruct (view_create r1) as (tree & r2 & Hrun & Hnodes & Hcase).
  { intros p Hp. simpl. rewrite Hlive. apply elem_of_union_r. by apply (inv_header _ Hinv). }
  erewrite on_rb_bind by exact Hrun. simpl.
  erewrite wrq_bind by apply lookup_insert_eq. simpl.
  destruct Hcase as [(-> & Htrees & Hlive2)|(Ht0 & Htf & Hlive2 & Htrees & Hv)].
  - simpl. eexists 0, _. split; [reflexivity|]. simpl. rewrite insert_insert_eq, delete_insert_id by done.
    split_and!; [|done|done].
    apply inv_slab; try done; simpl. rewrite scx_free_spec, Hlive2. simpl. rewrite Hlive.
    apply set_eq. intros x. rewrite elem_of_difference, elem_of_union, elem_of_singleton.
    naive_solver.
  - rewrite (proj2 (Z.eqb_neq _ _)) by done. erewrite wrq_bind by apply lookup_insert_eq. simpl.
    rewrite !insert_insert_eq. exists q. eexists. split; [reflexivity|].
    simpl in Htf, Hlive2. rewrite Hlive in Htf, Hlive2.
    destruct (inv_create st q (ScxAtq tree capacity 0 0 fifo) r2) as [Hinv' Hq']; try done.
    { by eapply Halign. }
    split_and!; [done|done|]. rewrite decide_False by done. by exists tree.
Qed.

Lemma drain_spec cl clr st q at_ l :
  atq_inv st → queue st q at_ l → Z.of_nat (length l) < two32 → (131 ≤ clr)%nat →
  (length l ≤ cl)%nat →
  ∃ st' at_', scx_atq_drain cl clr q st = Some (tt, st') ∧ atq_inv st' ∧ queue st' q at_' [] ∧
    at_tree at_' = at_tree at_ ∧ aq_atqs st' = <[q := at_']> (aq_atqs st).
Proof.
  revert st at_ l. induction cl as [|cl IH]; intros st at_ l Hinv Hq Hlen Hclr Hcl; simpl;
    destruct l as [|[[a k] v] l]; simpl in Hcl; try lia;
    try (rewrite (ST_bind_run _ _ _ _ _ (pop_empty _ _ _ _ _ Hq)); exists st, at_;
         split_and!; [done..|]; by rewrite insert_id by apply Hq).
  assert (v = a) as -> by (eapply (q_value _ _ _ _ Hq); left).
  destruct (pop_spec clr st q at_ a k l false Hinv Hq Hlen Hclr)
    as (st1 & tk & tk' & Hrun & Hinv1 & Ha & _ & _ & _ & Hq1 & Hat1).
  destruct (inv_task _ Hinv _ _ Ha) as [Ha0 _].
  rewrite (ST_bind_run _ _ _ _ _ Hrun), (proj2 (Z.eqb_neq _ _)) by done.
  destruct (IH st1 _ l Hinv1 Hq1) as (st' & at_' & Hrun' & ? & ? & ? & Hat'); [simpl in Hlen; lia|done|lia|].
  exists st', at_'. split_and!; try done. by rewrite Hat', Hat1, insert_insert_eq.
Qed.

Lemma inv_destroy st q at_ r' :
  atq_inv st → queue st q at_ [] → rb_nodes r' = rb_nodes (aq_rb st) →
  rb_trees r' = delete (at_tree at_) (rb_trees (aq_rb st)) →
  slab_live (rb_slab r') = slab_live (rb_slab (aq_rb st)) ∖ {[at_tree at_]} ∖ {[q]} →
  atq_inv (AtqState r' (delete q (aq_atqs st)) (aq_tasks st)).
Proof.
  intros Hinv Hq Hn Ht Hlive. pose proof (q_lookup _ _ _ _ Hq) as Hl.
  pose proof (view_header _ _ _ (q_view _ _ _ _ Hq)) as Hhdr.
  destruct (inv_header _ Hinv _ Hhdr) as [_ Hkind].
  split; simpl.
  - intros q2 at2 [Hne H2]%lookup_delete_Some. destruct (inv_queue _ Hinv _ _ H2) as [l2 Hq2].
    exists l2. eapply queue_transfer; try done; simpl; [by rewrite lookup_delete_ne|].
    rewrite Ht, lookup_delete_ne; [done|]. intros E. apply Hne. by eapply (inv_trees _ Hinv).
  - intros q1 q2 at1 at2 [_ H1]%lookup_delete_Some [_ H2']%lookup_delete_Some.
    by apply (inv_trees _ Hinv).
  - intros q2 [at2 [_ H2]%lookup_delete_Some]. apply (inv_addr _ Hinv). by eexists.
  - intros a tk Ha. rewrite Hn. destruct (inv_task _ Hinv _ _ Ha) as (? & ? & Ho).
    split_and!; [done..|]. destruct Ho as [?|[?|Ho]]; auto. right; right.
    rewrite lookup_delete_ne; [done|]. intros E.
    apply (not_elem_of_nil a). apply (q_claim _ _ _ _ Hq). eauto.
  - rewrite Hlive. intros q2 [at2 [Hne H2]%lookup_delete_Some].
    rewrite !elem_of_difference, !elem_of_singleton.
    split_and!; [apply (inv_live _ Hinv); by eexists| |done]. intros ->. congruence.
  - rewrite Hlive, Ht. intros p [x [Hne Hp]%lookup_delete_Some].
    destruct (inv_header _ Hinv p) as [? Hpn]; [by eexists|].
    rewrite !elem_of_difference, !elem_of_singleton. split_and!; [done|done| |].
    + intros ->. congruence.
    + by apply lookup_delete_None; right.
Qed.

(** [scx_atq_destroy] releases every queued task, frees the tree and the queue object, leaves every other queue alone and keeps the invariant; no task is left claiming the destroyed queue. *)
Theorem atq_destroy_correct cl clr st q at_ l :
  atq_inv st → queue st q at_ l → Z.of_nat (length l) < two32 → (131 ≤ clr)%nat →
  (length l ≤ cl)%nat →
  ∃ st', scx_atq_destroy cl clr q st = Some (0, st') ∧ atq_inv st' ∧
    aq_atqs st' = delete q (aq_atqs st) ∧
    ∀ a tk, aq_tasks st' !! a = Some tk → tk_atq tk ≠ q.
Proof.
  intros Hinv Hq Hlen Hclr Hcl.
  destruct (drain_spec cl clr st q at_ l) as (st1 & at1 & Hrun & Hinv1 & Hq1 & Htree & Hat1); try done.
  destruct (view_destroy cl clr (aq_rb st1) (at_tree at1)) as (r2 & Hrun2 & Hn2 & Ht2 & Hl2);
    [apply Hq1|].
  unfold scx_atq_destroy. rewrite (ST_bind_run _ _ _ _ _ Hrun).
  rewrite (rdq_bind _ _ _ _ _ (q_lookup _ _ _ _ Hq1)), (on_rb_bind _ _ _ _ _ Hrun2).
  eexists. split; [reflexivity|]. simpl. split_and!.
  - eapply inv_destroy; try done; simpl. by rewrite scx_free_spec, Hl2.
  - rewrite Hat1. by rewrite delete_insert_eq.
  - intros a tk Ha E. apply (not_elem_of_nil a). apply (q_claim _ _ _ _ Hq1). eauto.
Qed.
End atq.

(** ** A concrete system

    One FIFO queue at address 2000 with the tasks 10 and 20, and an idle task
    30. *)
Definition ex_atq_state : atq_state (gset Z) :=
  AtqState
    (RbState
       (<[10 := Rbnode 0 0 20 0 10 false]> (<[20 := Rbnode 10 0 0 1 20 true]>
          (<[30 := Rbnode 0 0 0 0 0 false]> ∅)))
       (<[1000 := Rbtree 10 0 RB_NOALLOC RB_DUPLICATE]> ∅) {[1000; 2000]})
    (<[2000 := ScxAtq 1000 8 2 2 true]> ∅)
    (<[10 := ScxTask 0 2000]> (<[20 := ScxTask 0 2000]> (<[30 := ScxTask 0 0]> ∅))).

Definition ex_entries : list (Z * Z * Z) := [(10, 0, 10); (20, 1, 20)].

Lemma ex_queue : queue ex_atq_state 2000 (ScxAtq 1000 8 2 2 true) ex_entries.
Proof.
  split.
  - done.
  - exists (RbConf 0 RB_NOALLOC RB_DUPLICATE),
      (T Leaf 10 (RbData 0 10 false) (T Leaf 20 (RbData 1 20 true) Leaf)).
    split_and!; [|done..]. split; [done| | | |done|].
    + split; [done|]. split; [decide_now|done|done].
    + by exists 1%nat, 0%nat.
    + split; [|done]. repeat constructor; unfold ekey; simpl; lia.
    + decide_now.
  - done.
  - intros a k v. unfold ex_entries. rewrite !elem_of_cons, elem_of_nil. naive_solver.
  - intros a. unfold ex_entries. csimpl. rewrite !elem_of_cons. simpl. split.
    + intros [->|[->|?%not_elem_of_nil]]; [by eexists|by eexists|done].
    + intros (tk & Ha & E). rewrite !lookup_insert_Some, lookup_empty in Ha. naive_solver.
  - intros _. split; repeat constructor; unfold ekey; simpl; lia.
Qed.

Lemma ex_atq_inv : atq_inv ex_atq_state.
Proof.
  split; simpl.
  - intros q at_ [[<- <-]|[_ ?]]%lookup_insert_Some; [|done]. exists ex_entries. apply ex_queue.
  - intros q q' ? ? [[<- <-]|[_ ?]]%lookup_insert_Some [[<- <-]|[_ ?]]%lookup_insert_Some; done.
  - intros q [x [[<- _]|[_ ?]]%lookup_insert_Some]; done.
  - intros a tk Ha. rewrite !lookup_insert_Some, lookup_empty in Ha.
    assert (a = 10 ∨ a = 20 ∨ a = 30) as Hc by naive_solver.
    split_and!; [lia|destruct Hc as [->|[->| ->]]; by eexists|].
    destruct (decide (tk_atq tk = 0)); [by left|]. right; right.
    assert (tk_atq tk = 2000) as -> by naive_solver. by eexists.
  - intros q [x [[<- _]|[_ ?]]%lookup_insert_Some]; [|done]. decide_now.
  - intros q [x [[<- _]|[_ ?]]%lookup_insert_Some]; [|done]. split; [decide_now|done].
Qed.

Lemma ex_bounded : bounded ex_atq_state.
Proof.
  intros q at_. simpl. intros [[<- <-]|[_ ?]]%lookup_insert_Some; [by vm_compute|done].
Qed.

Ltac ex_atq :=
  first [apply ex_atq_inv | apply ex_queue | reflexivity | unfold two32, two64; simpl; lia].

Lemma atq_insert_correct_witness :
  ∃ st', scx_atq_insert_vtime 131 2000 30 SCX_ATQ_FIFO ex_atq_state = Some (0, st') ∧
    atq_inv st' ∧ queue st' 2000 (ScxAtq 1000 8 3 3 true) (ex_entries ++ [(30, 2, 30)]).
Proof.
  pose proof (atq_insert_correct 131 ex_atq_state 2000 (ScxAtq 1000 8 2 2 true) ex_entries 30
    (ScxTask 0 0) SCX_ATQ_FIFO ltac:(ex_atq) ltac:(ex_atq) ltac:(ex_atq) ltac:(ex_atq)
    ltac:(ex_atq) ltac:(ex_atq)) as H.
  rewrite decide_True in H by reflexivity. destruct H as (st' & ? & ? & _ & ?).
  exists st'. split_and!; assumption.
Defined.

Lemma atq_remove_correct_witness :
  ∃ st', scx_atq_remove 131 2000 10 ex_atq_state = Some (0, st') ∧
    queue st' 2000 (ScxAtq 1000 8 1 2 true) [(20, 1, 20)].
Proof.
  pose proof (atq_remove_correct 131 ex_atq_state 2000 (ScxAtq 1000 8 2 2 true) ex_entries 10
    (ScxTask 0 2000) ltac:(ex_atq) ltac:(ex_atq) ltac:(ex_atq) ltac:(ex_atq) ltac:(ex_atq)) as H.
  rewrite decide_True in H by reflexivity. destruct H as (st' & ? & _ & _ & ?).
  exists st'. split; assumption.
Defined.

Lemma atq_pop_correct_witness :
  ∃ st', scx_atq_pop 131 2000 true ex_atq_state = Some (10, st') ∧
    queue st' 2000 (ScxAtq 1000 8 1 2 true) [(20, 1, 20)].
Proof.
  destruct (atq_pop_correct 131 ex_atq_state 2000 (ScxAtq 1000 8 2 2 true) ex_entries true
    ltac:(ex_atq) ltac:(ex_atq) ltac:(ex_atq) ltac:(ex_atq))
    as (st' & tk & tk' & ? & _ & _ & _ & _ & _ & ? & _).
  exists st'. split; assumption.
Defined.

Lemma atq_peek_correct_witness : scx_atq_peek 131 2000 ex_atq_state = Some (10, ex_atq_state).
Proof.
  apply (atq_peek_correct 131 ex_atq_state 2000 (ScxAtq 1000 8 2 2 true) ex_entries); ex_atq.
Defined.

Lemma ex_dead_step :
  atq_step 131 ex_atq_state
    (AtqState (aq_rb ex_atq_state) (aq_atqs ex_atq_state)
       (<[30 := ScxTask 0 SCX_ATQ_DEAD]> (aq_tasks ex_atq_state))).
Proof. eapply (step_latch _ 30 0); [by eexists|reflexivity]. Qed.

Lemma atq_interleavings_witness :
  let st := AtqState (aq_rb ex_atq_state) (aq_atqs ex_atq_state)
       (<[30 := ScxTask 0 SCX_ATQ_DEAD]> (aq_tasks ex_atq_state)) in
  let st' := AtqState (aq_rb ex_atq_state) (aq_atqs ex_atq_state)
       (<[30 := ScxTask 1 SCX_ATQ_DEAD]> (aq_tasks st)) in
  dead st' 30.
Proof.
  intros st st'. apply (atq_interleavings 131 st st').
  - apply rtc_once. apply (step_hold _ 30). reflexivity.
  - lia.
  - apply (step_inv 131 ex_atq_state st ex_dead_step); [lia|apply ex_atq_inv].
  - exists (ScxTask 0 SCX_ATQ_DEAD). by split.
Defined.

(** Interference that happens to do nothing. *)
Lemma ex_env_ok : env_ok 131 (λ _ (st : atq_state (gset Z)), st).
Proof. by intros i st _ Hb. Qed.

Lemma atq_detach_correct_witness :
  ∃ st' tk, scx_atq_task_detach 4 131 (λ _ st, st) (λ _ st, st) 10 ex_atq_state = Some (0, st') ∧
    atq_inv st' ∧ aq_tasks st' !! 10 = Some tk ∧ tk_atq tk = SCX_ATQ_DEAD.
Proof.
  destruct (atq_detach_correct 4 131 (λ _ st, st) (λ _ st, st) 10 ex_atq_state ex_env_ok ex_env_ok)
    as (st' & tk & ? & ? & ? & Hdead & _); [lia|apply ex_atq_inv|apply ex_bounded|by eexists|].
  exists st', tk. split_and!; [assumption..|]. apply Hdead. exists 0%nat. split; [lia|]. intros st tk' Ha. by exists tk'.
Defined.

Lemma atq_fini_correct_witness :
  ∃ ret st', scx_atq_task_fini 4 131 (λ _ st, st) 10 ex_atq_state = Some (ret, st') ∧ atq_inv st'.
Proof.
  destruct (atq_fini_correct 4 131 _ 10 ex_atq_state ex_env_ok) as (ret & st' & ? & ? & _);
    [lia|apply ex_atq_inv|apply ex_bounded|by eexists|].
  exists ret, st'. split; assumption.
Defined.

Lemma atq_create_correct_witness :
  ∃ q st', scx_atq_create_internal true 16 ex_atq_state = Some (q, st') ∧ atq_inv st'.
Proof.
  destruct (atq_create_correct ex_atq_state true 16) as (q & st' & ? & ? & _).
  - apply ex_atq_inv.
  - intros a p a' [= <- _]. pose proof (slab_top_nonneg a). unfold SCX_ATQ_DEAD. lia.
  - exists q, st'. split; assumption.
Defined.

Lemma atq_destroy_correct_witness :
  ∃ st', scx_atq_destroy 4 131 2000 ex_atq_state = Some (0, st') ∧ atq_inv st' ∧
    aq_atqs st' = delete 2000 (aq_atqs ex_atq_state).
Proof.
  destruct (atq_destroy_correct 4 131 ex_atq_state 2000 (ScxAtq 1000 8 2 2 true) ex_entries)
    as (st' & ? & ? & ? & _); [ex_atq..|].
  exists st'. split_and!; assumption.
Defined.
