(* ===== verification/Minheap.v ===== *)
(** * The bounded min heap: [lib/minheap.bpf.c], [include/lib/minheap.h]

    A binary heap in an arena array.  [int] indices are wrapped to 32 bits
    and compared with the [u64] size after sign extension, as the compiler
    does; an access outside the array faults. *)

From S2P Require Import Prelude.

(** [struct scx_minheap_elem] *)
Record scx_minheap_elem : Type := HeapElem { he_elem : Z; he_weight : Z }.

(** [struct scx_minheap]; [mh_helems] is the array [helems] points to. *)
Record scx_minheap : Type := Minheap {
  mh_size : Z;
  mh_capacity : Z;
  mh_helems : list scx_minheap_elem;
}.

Definition with_hsize (n : Z) (h : scx_minheap) : scx_minheap :=
  Minheap n (mh_capacity h) (mh_helems h).
Definition with_helems (l : list scx_minheap_elem) (h : scx_minheap) : scx_minheap :=
  Minheap (mh_size h) (mh_capacity h) l.

Abbreviation HM X := (ST scx_minheap X).

(** [heap->helems[i]] *)
Definition rdh (i : Z) : HM scx_minheap_elem := λ h,
  if i <? 0 then None else
  match mh_helems h !! Z.to_nat i with Some e => Some (e, h) | None => None end.
Definition wrh (i : Z) (e : scx_minheap_elem) : HM unit := λ h,
  if i <? 0 then None else
  match mh_helems h !! Z.to_nat i with
  | Some _ => Some (tt, with_helems (<[Z.to_nat i := e]> (mh_helems h)) h)
  | None => None
  end.

(** [scx_minheap_swap_elems(&heap->helems[a], &heap->helems[b])] *)
Definition scx_minheap_swap_elems (a b : Z) : HM unit :=
  tmp ← rdh a;
  eb ← rdh b;
  wrh a eb;;
  wrh b tmp.

(** [scx_static_alloc] returns zeroed memory: an allocation of [bytes] bytes
    holds [bytes / sizeof(struct scx_minheap_elem)] elements. *)
Definition zeroed_elems (bytes : Z) : list scx_minheap_elem :=
  replicate (Z.to_nat (bytes / 16)) (HeapElem 0 0).

(** [hdr_ok] and [elems_ok] say whether the static allocator serves the two
    requests, for the header and for the array of [capacity * 16] bytes; the
    product is computed in [size_t]. *)
Definition scx_minheap_alloc_internal (capacity : Z) (hdr_ok elems_ok : bool) : option scx_minheap :=
  if negb hdr_ok then None else
  if negb elems_ok then None else
  Some (Minheap 0 capacity (zeroed_elems (u64 (capacity * 16)))).

(** The inner [for (off = 1; off < 3; off++)] loop, [n] iterations left: the
    index of the smallest of a node and its children. *)
Fixpoint min_child_loop (n : nat) (off ind next : Z) : HM Z :=
  match n with
  | O => mret next
  | S n =>
      let child := s32 (2 * ind + off) in
      size ← gets mh_size;
      if size <=? u64 child then min_child_loop n (off + 1) ind next else
      en ← rdh next;
      ec ← rdh child;
      if he_weight en <=? he_weight ec then min_child_loop n (off + 1) ind next else
      min_child_loop n (off + 1) ind child
  end.

Fixpoint top_down_loop (cl : nat) (ind : Z) : HM unit :=
  size ← gets mh_size;
  if size <=? u64 ind then mret tt else
  match cl with
  | O => mret tt
  | S cl =>
      next ← min_child_loop 2 1 ind ind;
      if next =? ind then mret tt else
      scx_minheap_swap_elems next ind;;
      top_down_loop cl next
  end.

Definition scx_minheap_balance_top_down (cl : nat) : HM Z :=
  top_down_loop cl 0;; mret 0.

Fixpoint bottom_up_loop (cl : nat) (ind : Z) : HM unit :=
  if ind <=? 0 then mret tt else
  match cl with
  | O => mret tt
  | S cl =>
      let parent := Z.shiftr (ind - 1) 1 in
      ep ← rdh parent;
      ei ← rdh ind;
      if he_weight ep <=? he_weight ei then mret tt else
      scx_minheap_swap_elems parent ind;;
      bottom_up_loop cl parent
  end.

Definition scx_minheap_balance_bottom_up (cl : nat) : HM Z :=
  size ← gets mh_size;
  bottom_up_loop cl (s32 (size - 1));; mret 0.

Definition scx_minheap_insert (cl : nat) (elem weight : Z) : HM Z :=
  size ← gets mh_size;
  capacity ← gets mh_capacity;
  if size =? capacity then mret (- ENOSPC) else
  wrh size (HeapElem elem weight);;
  modifies (with_hsize (u64 (size + 1)));;
  scx_minheap_balance_bottom_up cl;;
  mret 0.

(** The result is the return code and what is stored through [helem]. *)
Definition scx_minheap_pop (cl : nat) : HM (Z * option scx_minheap_elem) :=
  size ← gets mh_size;
  if size =? 0 then mret (- EINVAL, None) else
  e ← rdh 0;
  last ← rdh (size - 1);
  wrh 0 last;;
  modifies (with_hsize (size - 1));;
  scx_minheap_balance_top_down cl;;
  mret (0, Some e).

(** ** Invariant *)
#[global] Instance heap_elem_inhabited : Inhabited scx_minheap_elem := populate (HeapElem 0 0).

Abbreviation wt := he_weight.
Abbreviation parent i := ((i - 1) / 2)%nat.

(** Every element is at least as heavy as its parent. *)
Definition heap_ordered (l : list scx_minheap_elem) : Prop :=
  ∀ i, (0 < i < length l)%nat → wt (l !!! parent i) ≤ wt (l !!! i).

(** The heap [h] holds the elements [l], in array order; its capacity is the
    length of the array and fits the [int] indices. *)
Record heap_ok (h : scx_minheap) (l : list scx_minheap_elem) : Prop := HeapOk {
  ho_size : mh_size h = Z.of_nat (length l);
  ho_mem : ∃ junk, mh_helems h = l ++ junk;
  ho_cap : mh_capacity h = Z.of_nat (length (mh_helems h));
  ho_int : mh_capacity h < 1073741824;
  ho_order : heap_ordered l;
}.
