(* ===== verification/MinheapCorrect.v ===== *)
(** * The bounded min heap: theorems

    Insertion and removal keep the heap order and the multiset of elements,
    and removal returns an element of least weight. *)

From S2P Require Import Prelude Minheap.
From Stdlib Require Import ZifyNat.

Ltac Zify.zify_post_hook ::= Z.to_euclidean_division_equations.

(** ** Lists under swaps *)
Definition lswap {X} (i j : nat) (l : list X) : list X :=
  match l !! i, l !! j with
  | Some x, Some y => <[j := x]> (<[i := y]> l)
  | _, _ => l
  end.

Lemma lswap_perm {X} i j (l : list X) : lswap i j l ≡ₚ l.
Proof.
  unfold lswap. destruct (l !! i) as [x|] eqn:Hi; [|done]. destruct (l !! j) as [y|] eqn:Hj; [|done].
  destruct (decide (i = j)) as [->|Hne].
  { rewrite list_insert_insert_eq. by rewrite list_insert_id by congruence. }
  symmetry. apply Permutation_inj. split; [by rewrite !length_insert|].
  exists (λ k, if decide (k = i) then j else if decide (k = j) then i else k). split.
  - intros a b. repeat case_decide; congruence.
  - intros k. repeat case_decide; subst.
    + rewrite list_lookup_insert_eq; [done|]. rewrite length_insert. by eapply lookup_lt_Some.
    + rewrite list_lookup_insert_ne, list_lookup_insert_eq; [done| |done]. by eapply lookup_lt_Some.
    + by rewrite !list_lookup_insert_ne.
Qed.

Lemma length_lswap {X} i j (l : list X) : length (lswap i j l) = length l.
Proof. apply Permutation_length, lswap_perm. Qed.

Lemma lookup_lswap `{Inhabited X} i j k (l : list X) :
  (i < length l)%nat → (j < length l)%nat →
  lswap i j l !!! k =
    if decide (k = j) then l !!! i else if decide (k = i) then l !!! j else l !!! k.
Proof.
  intros Hi Hj. unfold lswap.
  rewrite (list_lookup_lookup_total_lt l i), (list_lookup_lookup_total_lt l j) by done.
  repeat case_decide; subst.
  - apply list_lookup_total_insert_eq. by rewrite length_insert.
  - rewrite list_lookup_total_insert_ne by done. by apply list_lookup_total_insert_eq.
  - by rewrite !list_lookup_total_insert_ne.
Qed.

(** ** Steps on the array *)
Section steps.
Implicit Types (h : scx_minheap) (l junk : list scx_minheap_elem).

Lemma rdh_run h l junk i :
  mh_helems h = l ++ junk → (i < length l)%nat → rdh (Z.of_nat i) h = Some (l !!! i, h).
Proof.
  intros Hm Hi. unfold rdh. rewrite (proj2 (Z.ltb_ge _ _)) by lia.
  rewrite Nat2Z.id, Hm, lookup_app_l by done. by rewrite (list_lookup_lookup_total_lt l i).
Qed.

Lemma swap_run h l junk i j :
  mh_helems h = l ++ junk → (i < length l)%nat → (j < length l)%nat → i ≠ j →
  scx_minheap_swap_elems (Z.of_nat i) (Z.of_nat j) h =
    Some (tt, with_helems (lswap i j l ++ junk) h).
Proof.
  intros Hm Hi Hj Hne. unfold scx_minheap_swap_elems.
  rewrite (ST_bind_run _ _ _ _ _ (rdh_run _ _ _ _ Hm Hi)).
  rewrite (ST_bind_run _ _ _ _ _ (rdh_run _ _ _ _ Hm Hj)).
  unfold wrh, mbind, ST_bind. rewrite !(proj2 (Z.ltb_ge _ _)) by lia.
  rewrite !Nat2Z.id, Hm, lookup_app_l by done. rewrite (list_lookup_lookup_total_lt l i) by done.
  simpl. rewrite insert_app_l, lookup_app_l by (by rewrite ?length_insert).
  rewrite list_lookup_insert_ne by done. rewrite (list_lookup_lookup_total_lt l j) by done.
  rewrite insert_app_l by (by rewrite length_insert). unfold lswap, with_helems; simpl.
  by rewrite (list_lookup_lookup_total_lt l i), (list_lookup_lookup_total_lt l j) by done.
Qed.

(** ** Sifting up *)

(** Heap order except between [i] and its parent. *)
Definition order_up l (i : nat) : Prop :=
  (∀ k, (0 < k < length l)%nat → k ≠ i → wt (l !!! parent k) ≤ wt (l !!! k)) ∧
  (∀ k, (0 < k < length l)%nat → parent k = i → (0 < i)%nat →
     wt (l !!! parent i) ≤ wt (l !!! k)).

Lemma order_up_swap l i :
  (0 < i < length l)%nat → order_up l i → wt (l !!! i) < wt (l !!! parent i) →
  order_up (lswap (parent i) i l) (parent i).
Proof.
  intros Hi [H1 H2] Hlt. set (p := parent i) in *.
  assert (p < i)%nat as Hp by (unfold p; lia).
  assert (∀ k, lswap p i l !!! k =
    if decide (k = i) then l !!! p else if decide (k = p) then l !!! i else l !!! k) as Hlk.
  { intros k. apply lookup_lswap; lia. }
  split; intros k; rewrite length_lswap, !Hlk.
  - intros Hk Hne. destruct (decide (k = i)) as [->|Hki].
    + fold p. rewrite decide_False, decide_True by lia. lia.
    + destruct (decide (parent k = i)) as [E|E].
      * rewrite (decide_False (P := k = p)) by done. apply H2; [done|done|lia].
      * destruct (decide (parent k = p)) as [E'|E'].
        -- rewrite (decide_False (P := k = p)) by done. specialize (H1 k Hk Hki).
           rewrite E' in H1. lia.
        -- rewrite (decide_False (P := k = p)) by done. by apply H1.
  - intros Hk E Hp0. assert (parent p < p)%nat by lia.
    rewrite (decide_False (P := parent p = i)), (decide_False (P := parent p = p)) by lia.
    assert (wt (l !!! parent p) ≤ wt (l !!! p)) as Hpp by (apply H1; lia).
    destruct (decide (k = i)) as [->|Hki]; [done|].
    rewrite (decide_False (P := k = p)) by lia. specialize (H1 k Hk Hki). rewrite E in H1. lia.
Qed.

Lemma log2_parent i : (0 < i)%nat → Nat.log2 (S i) = S (Nat.log2 (S (parent i))).
Proof.
  intros Hi. replace (S i) with (2 * S (parent i) + (i + 1) mod 2)%nat by lia.
  destruct ((i + 1) mod 2)%nat as [|[|]] eqn:E; [|..|lia].
  - rewrite Nat.add_0_r. apply Nat.log2_double. lia.
  - rewrite Nat.log2_succ_double by lia. done.
Qed.

Lemma bottom_up_spec cl h l junk i :
  mh_helems h = l ++ junk → (i < length l)%nat → order_up l i → (Nat.log2 (S i) ≤ cl)%nat →
  ∃ l', bottom_up_loop cl (Z.of_nat i) h = Some (tt, with_helems (l' ++ junk) h) ∧
    l' ≡ₚ l ∧ heap_ordered l'.
Proof.
  revert h l i. induction cl as [|cl IH]; intros h l i Hm Hi Ho Hcl; cbn [bottom_up_loop];
    destruct (decide (i = 0%nat)) as [->|Hi0].
  1,3: exists l; split_and!; [by rewrite <-Hm; destruct h|done|];
    intros k Hk; apply Ho; lia.
  { rewrite log2_parent in Hcl by lia. lia. }
  rewrite (proj2 (Z.leb_gt _ _)) by lia.
  replace (Z.shiftr (Z.of_nat i - 1) 1) with (Z.of_nat (parent i))
    by (rewrite Z.shiftr_div_pow2 by lia; change (2 ^ 1) with 2; lia).
  rewrite (ST_bind_run _ _ _ _ _ (rdh_run h l junk (parent i) Hm ltac:(lia))).
  rewrite (ST_bind_run _ _ _ _ _ (rdh_run h l junk i Hm Hi)).
  destruct (Z.leb_spec (wt (l !!! parent i)) (wt (l !!! i))) as [Hle|Hgt].
  - exists l. split_and!; [by rewrite <-Hm; destruct h|done|]. intros k Hk.
    destruct (decide (k = i)) as [->|Hne]; [done|]. by apply Ho.
  - rewrite (ST_bind_run _ _ _ _ _ (swap_run h l junk (parent i) i Hm ltac:(lia) Hi ltac:(lia))).
    destruct (IH (with_helems (lswap (parent i) i l ++ junk) h) (lswap (parent i) i l) (parent i))
      as (l' & Hrun & Hp & Hord); [done|rewrite length_lswap; lia|by apply order_up_swap; [lia|..]| |].
    + rewrite (log2_parent i) in Hcl by lia. lia.
    + exists l'. split_and!; [exact Hrun| |done]. by rewrite Hp, lswap_perm.
Qed.

(** ** Sifting down *)

(** Heap order except between [i] and its children. *)
Definition order_down l (i : nat) : Prop :=
  (∀ k, (0 < k < length l)%nat → parent k ≠ i → wt (l !!! parent k) ≤ wt (l !!! k)) ∧
  (∀ k, (0 < k < length l)%nat → parent k = i → (0 < i)%nat →
     wt (l !!! parent i) ≤ wt (l !!! k)).

Lemma order_down_swap l i m :
  (i < length l)%nat → (0 < m < length l)%nat → parent m = i → order_down l i →
  wt (l !!! m) < wt (l !!! i) →
  (∀ k, (0 < k < length l)%nat → parent k = i → wt (l !!! m) ≤ wt (l !!! k)) →
  order_down (lswap m i l) m.
Proof.
  intros Hi Hm Hpm [H1 H2] Hlt Hmin.
  assert (i < m)%nat as Him by lia.
  assert (∀ k, lswap m i l !!! k =
    if decide (k = i) then l !!! m else if decide (k = m) then l !!! i else l !!! k) as Hlk.
  { intros k. apply lookup_lswap; lia. }
  split; intros k; rewrite length_lswap, !Hlk.
  - intros Hk Hne. rewrite (decide_False (P := parent k = m)) by done.
    destruct (decide (parent k = i)) as [E|E].
    + rewrite (decide_False (P := k = i)) by lia. destruct (decide (k = m)) as [->|]; [lia|].
      by apply Hmin.
    + destruct (decide (k = i)) as [->|Hki]; [|destruct (decide (k = m)) as [->|]; [done|auto]].
      apply H2; [lia|done|lia].
  - intros Hk E Hm0. rewrite Hpm, (decide_True (P := i = i)) by done.
    rewrite (decide_False (P := k = i)), (decide_False (P := k = m)) by lia.
    rewrite <-E. apply H1; [done|]. lia.
Qed.

(** One comparison of the inner loop. *)
Lemma min_child_step n off h l junk i m :
  mh_helems h = l ++ junk → mh_size h = Z.of_nat (length l) → Z.of_nat (length l) < 1073741824 →
  (i < length l)%nat → (m < length l)%nat → (1 ≤ off ≤ 2)%nat →
  let c := (2 * i + off)%nat in
  min_child_loop (S n) (Z.of_nat off) (Z.of_nat i) (Z.of_nat m) h =
    min_child_loop n (Z.of_nat (S off)) (Z.of_nat i)
      (Z.of_nat (if decide ((c < length l)%nat ∧ wt (l !!! c) < wt (l !!! m)) then c else m)) h.
Proof.
  intros Hmem Hsz Hint Hi Hm Hoff c. cbn [min_child_loop].
  assert (s32 (2 * Z.of_nat i + Z.of_nat off) = Z.of_nat c) as ->.
  { unfold s32, c. rewrite Z.mod_small by (unfold two32; lia).
    rewrite (proj2 (Z.ltb_lt _ _)) by (unfold two31; lia). lia. }
  unfold gets, mbind at 1, ST_bind at 1. rewrite Hsz, u64_small by (unfold is_u64, two64, c; lia).
  replace (Z.of_nat (S off)) with (Z.of_nat off + 1) by lia.
  destruct (Z.leb_spec (Z.of_nat (length l)) (Z.of_nat c)) as [Hc|Hc].
  { rewrite decide_False; [done|]. lia. }
  rewrite (ST_bind_run _ _ _ _ _ (rdh_run h l junk m Hmem Hm)).
  rewrite (ST_bind_run _ _ _ _ _ (rdh_run h l junk c Hmem ltac:(lia))).
  destruct (Z.leb_spec (wt (l !!! m)) (wt (l !!! c))) as [Hle|Hgt].
  - rewrite decide_False; [done|]. lia.
  - rewrite decide_True; [done|]. lia.
Qed.

Lemma min_child_spec h l junk i :
  mh_helems h = l ++ junk → mh_size h = Z.of_nat (length l) → Z.of_nat (length l) < 1073741824 →
  (i < length l)%nat →
  ∃ m, min_child_loop 2 1 (Z.of_nat i) (Z.of_nat i) h = Some (Z.of_nat m, h) ∧
    (m < length l)%nat ∧ (m = i ∨ (0 < m)%nat ∧ parent m = i ∧ wt (l !!! m) < wt (l !!! i)) ∧
    (∀ k, (0 < k < length l)%nat → parent k = i → wt (l !!! m) ≤ wt (l !!! k)).
Proof.
  intros Hmem Hsz Hint Hi. change 1 with (Z.of_nat 1).
  rewrite (min_child_step 1 1 h l junk i i) by (done || lia). set (m1 := if decide _ then _ else _).
  assert (m1 = i ∧ ((2 * i + 1 < length l)%nat → wt (l !!! i) ≤ wt (l !!! (2 * i + 1)%nat)) ∨
          m1 = (2 * i + 1)%nat ∧ (m1 < length l)%nat ∧ wt (l !!! m1) < wt (l !!! i)) as Hm1.
  { unfold m1. case_decide as Hd; [right|left]; lia. }
  rewrite (min_child_step 0 2 h l junk i m1) by (done || lia). set (m2 := if decide _ then _ else _).
  exists m2. split; [done|].
  assert (∀ k, (0 < k)%nat → parent k = i → k = (2 * i + 1)%nat ∨ k = (2 * i + 2)%nat) as Hch by lia.
  unfold m2. case_decide as Hd.
  - split_and!; [lia| |].
    + right. split_and!; [lia|lia|]. destruct Hm1 as [[-> _]|(_ & _ & ?)]; lia.
    + intros k Hk E. destruct (Hch k) as [-> | ->]; [lia|done| |lia].
      destruct Hm1 as [[-> ?]|(-> & _ & _)]; lia.
  - split_and!; [lia| |].
    + destruct Hm1 as [[-> _]|(-> & ? & ?)]; [by left|right; split_and!; lia].
    + intros k Hk E. destruct (Hch k) as [-> | ->]; [lia|done| |].
      * destruct Hm1 as [[-> ?]|(-> & _ & _)]; lia.
      * lia.
Qed.

Lemma top_down_spec cl h l junk i :
  mh_helems h = l ++ junk → mh_size h = Z.of_nat (length l) → Z.of_nat (length l) < 1073741824 →
  (i < length l)%nat → order_down l i → (Nat.log2 (length l) < cl + Nat.log2 (S i))%nat →
  ∃ l', top_down_loop cl (Z.of_nat i) h = Some (tt, with_helems (l' ++ junk) h) ∧
    l' ≡ₚ l ∧ heap_ordered l'.
Proof.
  revert h l i. induction cl as [|cl IH]; intros h l i Hmem Hsz Hint Hi Ho Hcl.
  { pose proof (Nat.log2_le_mono (S i) (length l)). lia. }
  cbn [top_down_loop]. unfold gets, mbind at 1, ST_bind at 1.
  rewrite Hsz, u64_small by (unfold is_u64, two64; lia).
  rewrite (proj2 (Z.leb_gt _ _)) by lia.
  destruct (min_child_spec h l junk i Hmem Hsz Hint Hi) as (m & Hrun & Hm & Hcase & Hmin).
  rewrite (ST_bind_run _ _ _ _ _ Hrun). destruct Hcase as [->|(Hm0 & Hpm & Hlt)].
  - rewrite Z.eqb_refl. exists l. split_and!; [by rewrite <-Hmem; destruct h|done|].
    intros k Hk. destruct (decide (parent k = i)) as [E|E]; [rewrite E; auto|by apply Ho].
  - rewrite (proj2 (Z.eqb_neq _ _)) by lia.
    rewrite (ST_bind_run _ _ _ _ _ (swap_run h l junk m i Hmem Hm Hi ltac:(lia))).
    destruct (IH (with_helems (lswap m i l ++ junk) h) (lswap m i l) m)
      as (l' & Hrun' & Hp & Hord); rewrite ?length_lswap; try done.
    + by apply order_down_swap.
    + rewrite (log2_parent m), Hpm by lia. lia.
    + exists l'. split_and!; [exact Hrun'| |done]. by rewrite Hp, lswap_perm.
Qed.
End steps.

(** ** The operations *)
Section ops.
Implicit Types (h : scx_minheap) (l junk : list scx_minheap_elem).

(** The root of a heap is a least element. *)
Lemma heap_root_min l k :
  heap_ordered l → (k < length l)%nat → wt (l !!! 0%nat) ≤ wt (l !!! k).
Proof.
  intros Ho. induction k as [k IH] using lt_wf_ind. intros Hk.
  destruct (decide (k = 0%nat)) as [->|Hk0]; [lia|].
  specialize (IH (parent k) ltac:(lia) ltac:(lia)). specialize (Ho k ltac:(lia)). lia.
Qed.

Lemma heap_head_min e l x : heap_ordered (e :: l) → x ∈ e :: l → wt e ≤ wt x.
Proof.
  intros Ho [k Hk]%list_elem_of_lookup. pose proof (lookup_lt_Some _ _ _ Hk).
  apply list_lookup_total_correct in Hk. rewrite <-Hk. by apply (heap_root_min (e :: l) k).
Qed.

Lemma log2_small n : Z.of_nat n < 1073741824 → (Nat.log2 n ≤ 29)%nat.
Proof.
  intros Hn. destruct (decide (n = 0%nat)) as [->|Hn0]; [rewrite Nat.log2_nonpos by lia; lia|].
  assert (Nat.log2 n < 30)%nat; [|lia]. apply Nat.log2_lt_pow2; [lia|].
  apply Nat2Z.inj_lt. rewrite Nat2Z.inj_pow. change (Z.of_nat 2 ^ Z.of_nat 30) with 1073741824. lia.
Qed.

Lemma heap_insert_spec cl h l elem weight :
  heap_ok h l → (30 ≤ cl)%nat → Z.of_nat (length l) < mh_capacity h →
  ∃ h' l', scx_minheap_insert cl elem weight h = Some (0, h') ∧ heap_ok h' l' ∧
    l' ≡ₚ HeapElem elem weight :: l ∧ mh_capacity h' = mh_capacity h.
Proof.
  intros [Hs [junk Hm] Hc Hi Ho] Hcl Hlt. set (e := HeapElem elem weight).
  rewrite Hm, length_app in Hc. destruct junk as [|j junk]; [simpl in Hc; lia|].
  set (h1 := Minheap (Z.of_nat (length (l ++ [e]))) (mh_capacity h) ((l ++ [e]) ++ junk)).
  assert (order_up (l ++ [e]) (length l)) as Hup.
  { split; intros k; rewrite length_app; cbn [length].
    - intros Hk Hne. rewrite !lookup_total_app_l by lia. apply Ho. lia.
    - intros Hk E Hl. lia. }
  destruct (bottom_up_spec cl h1 (l ++ [e]) junk (length l)) as (l' & Hrun & Hp & Hord); try done.
  { rewrite length_app; simpl; lia. }
  { pose proof (log2_small (S (length l)) ltac:(lia)). lia. }
  exists (with_helems (l' ++ junk) h1), l'. split_and!.
  - unfold scx_minheap_insert, gets, mbind, ST_bind, mret, ST_ret. rewrite Hs.
    rewrite (proj2 (Z.eqb_neq _ _)) by lia. unfold wrh.
    rewrite (proj2 (Z.ltb_ge _ _)), Nat2Z.id, Hm by lia.
    rewrite lookup_app_r, Nat.sub_diag by lia. simpl.
    rewrite insert_app_r_alt, Nat.sub_diag by lia. simpl.
    unfold scx_minheap_balance_bottom_up, gets, mbind, ST_bind, mret, ST_ret. simpl.
    rewrite u64_small by (unfold is_u64, two64; lia).
    replace (s32 (Z.of_nat (length l) + 1 - 1)) with (Z.of_nat (length l)).
    2: { unfold s32. rewrite Z.mod_small by (unfold two32; lia).
         rewrite (proj2 (Z.ltb_lt _ _)) by (unfold two31; lia). lia. }
    replace (with_hsize _ _) with h1; [by rewrite Hrun|].
    unfold h1, with_hsize, with_helems; simpl. rewrite <-app_assoc, length_app. simpl. f_equal. lia.
  - split; simpl; [|by exists junk| |lia|done].
    + by rewrite (Permutation_length Hp).
    + rewrite (Permutation_app_tail junk Hp), !length_app in *. simpl in *. lia.
  - by rewrite Hp, Permutation_app_comm.
  - done.
Qed.

Lemma heap_pop_spec cl h e l :
  heap_ok h (e :: l) → (30 ≤ cl)%nat →
  ∃ h' l', scx_minheap_pop cl h = Some (0, Some e, h') ∧ heap_ok h' l' ∧ l' ≡ₚ l ∧
    mh_capacity h' = mh_capacity h.
Proof.
  intros [Hs [junk Hm] Hc Hi Ho] Hcl.
  destruct (exists_last (l := e :: l)) as (init & last & E); [done|].
  rewrite Hm, length_app in Hc.
  assert (length init = length l) as Hlen.
  { apply (f_equal length) in E. rewrite length_app in E. simpl in E. lia. }
  set (h0 := Minheap (Z.of_nat (length l)) (mh_capacity h) (<[0%nat := last]> (mh_helems h))).
  assert (scx_minheap_pop cl h = (top_down_loop cl 0 ≫= λ _, mret (0, Some e)) h0) as Hrun.
  { unfold scx_minheap_pop, gets, mbind, ST_bind, mret, ST_ret. rewrite Hs. change (length (e :: l)) with (S (length l)).
    rewrite (proj2 (Z.eqb_neq _ _)) by lia. change (rdh 0 h) with (rdh (Z.of_nat 0) h).
    rewrite (rdh_run h (e :: l) junk 0 Hm) by (simpl; lia).
    replace (Z.of_nat (S (length l)) - 1) with (Z.of_nat (length init)) by lia.
    rewrite (rdh_run h (e :: l) junk (length init) Hm) by (simpl; lia).
    unfold wrh. simpl (0 <? 0). rewrite Hm. simpl. rewrite E, lookup_total_app_r, Nat.sub_diag by lia.
    unfold h0, with_hsize, with_helems. rewrite Hm, Hlen. simpl.
    unfold scx_minheap_balance_top_down, mbind, ST_bind, mret, ST_ret. by destruct (top_down_loop _ _ _) as [[]|]. }
  rewrite Hrun. destruct init as [|x init].
  { destruct l; [|done]. exists h0, []. split_and!; [by destruct cl| |done|done].
    split; simpl; [done|by eexists|by rewrite length_insert, Hm, length_app, Hc|lia|].
    intros k Hk. simpl in Hk. lia. }
  injection E as <- ->.
  assert (mh_helems h0 = (last :: init) ++ last :: junk) as Hm0.
  { unfold h0. simpl. rewrite Hm. simpl. by rewrite <-app_assoc. }
  simpl in Hlen. rewrite length_app in Hlen; simpl in Hlen.
  destruct (top_down_spec cl h0 (last :: init) (last :: junk) 0) as (l' & Hrun' & Hp & Hord); try done.
  - simpl. rewrite length_app. simpl. lia.
  - simpl in Hc |- *. rewrite length_app in Hc. simpl in Hc. lia.
  - simpl. lia.
  - split; [|lia]. intros k Hk Hpk. simpl in Hk.
    specialize (Ho k ltac:(simpl; rewrite length_app; simpl; lia)).
    destruct k as [|k]; [lia|]. destruct (parent (S k)) as [|pk] eqn:Ep; [done|].
    simpl in Ho |- *. by rewrite !lookup_total_app_l in Ho by lia.
  - simpl in Hc. rewrite length_app in Hc. simpl in Hc.
    pose proof (log2_small (length (last :: init)) ltac:(simpl; lia)). simpl in *. lia.
  - exists (with_helems (l' ++ last :: junk) h0), l'. split_and!.
    + change 0 with (Z.of_nat 0). by rewrite (ST_bind_run _ _ _ _ _ Hrun').
    + split; simpl; [| |rewrite length_app|lia|done].
      * rewrite (Permutation_length Hp). rewrite length_app. simpl. lia.
      * by exists (last :: junk).
      * rewrite (Permutation_length Hp). simpl in Hc |- *. rewrite length_app in Hc. simpl in Hc. lia.
    + rewrite Hp. by rewrite Permutation_app_comm.
    + done.
Qed.
End ops.

(** A fresh heap is empty and well formed, if its array fits the address space. *)
Lemma heap_alloc_spec capacity h :
  0 <= capacity < 1073741824 →
  scx_minheap_alloc_internal capacity true true = Some h →
  heap_ok h [] ∧ mh_capacity h = capacity.
Proof.
  intros Hc [= <-]. split; [|done]. split; simpl; [done|by eexists| |lia|].
  - unfold zeroed_elems. rewrite length_replicate, u64_small by (unfold is_u64, two64; lia). lia.
  - intros k Hk. simpl in Hk. lia.
Qed.

(** ** Claims *)

(** A well-formed heap either refuses an insertion with -ENOSPC, exactly when it is full and then unchanged, or accepts it: it stays well formed and holds the old elements and the new one. *)
Theorem minheap_insert_correct cl h l elem weight :
  heap_ok h l → (30 ≤ cl)%nat →
  (Z.of_nat (length l) = mh_capacity h ∧
   scx_minheap_insert cl elem weight h = Some (- ENOSPC, h)) ∨
  ∃ h' l', scx_minheap_insert cl elem weight h = Some (0, h') ∧ heap_ok h' l' ∧
    l' ≡ₚ HeapElem elem weight :: l ∧ mh_capacity h' = mh_capacity h.
Proof.
  intros Hok Hcl. destruct (decide (Z.of_nat (length l) = mh_capacity h)) as [E|E].
  - left. split; [done|]. unfold scx_minheap_insert, gets, mbind, ST_bind, mret, ST_ret.
    by rewrite (ho_size _ _ Hok), E, Z.eqb_refl.
  - right. apply heap_insert_spec; try done. pose proof (ho_cap _ _ Hok).
    destruct (ho_mem _ _ Hok) as [junk Hm]. rewrite Hm, length_app in *. lia.
Qed.

Definition ex_heap : scx_minheap :=
  Minheap 3 4 [HeapElem 10 1; HeapElem 11 5; HeapElem 12 2; HeapElem 0 0].

Lemma ex_heap_ok : heap_ok ex_heap [HeapElem 10 1; HeapElem 11 5; HeapElem 12 2].
Proof.
  split; [done|by eexists|done|done|].
  intros [|[|[|i]]] Hi; simpl in Hi; [lia|vm_compute; done..|lia].
Qed.

Lemma minheap_insert_correct_witness :
  scx_minheap_insert 30 13 0 ex_heap =
    Some (0, Minheap 4 4 [HeapElem 13 0; HeapElem 10 1; HeapElem 12 2; HeapElem 11 5]) ∧
  ((Z.of_nat 3 = 4 ∧ scx_minheap_insert 30 13 0 ex_heap = Some (- ENOSPC, ex_heap)) ∨
   ∃ h' l', scx_minheap_insert 30 13 0 ex_heap = Some (0, h') ∧ heap_ok h' l' ∧
     l' ≡ₚ [HeapElem 13 0; HeapElem 10 1; HeapElem 11 5; HeapElem 12 2] ∧ mh_capacity h' = 4).
Proof.
  split; [vm_compute; reflexivity|].
  apply (minheap_insert_correct 30 ex_heap [HeapElem 10 1; HeapElem 11 5; HeapElem 12 2] 13 0);
    [exact ex_heap_ok|lia].
Defined.

(** C38: Pop fails with -EINVAL exactly on an empty heap; otherwise it returns an element of least weight, and the heap stays well formed and holds exactly the other elements. *)
Theorem minheap_pop_correct cl h l :
  heap_ok h l → (30 ≤ cl)%nat →
  match l with
  | [] => scx_minheap_pop cl h = Some (- EINVAL, None, h)
  | _ => ∃ e h' l', scx_minheap_pop cl h = Some (0, Some e, h') ∧ heap_ok h' l' ∧
      l ≡ₚ e :: l' ∧ (∀ x, x ∈ l → wt e <= wt x) ∧ mh_capacity h' = mh_capacity h
  end.
Proof.
  intros Hok Hcl. destruct l as [|e l].
  { unfold scx_minheap_pop, gets, mbind, ST_bind, mret, ST_ret. by rewrite (ho_size _ _ Hok). }
  destruct (heap_pop_spec cl h e l Hok Hcl) as (h' & l' & ? & ? & Hp & ?).
  exists e, h', l'. split_and!; [done|done|by rewrite Hp|by intros x; apply heap_head_min, Hok|done].
Qed.

Lemma minheap_pop_correct_witness :
  ∃ e h' l', scx_minheap_pop 30 ex_heap = Some (0, Some e, h') ∧ heap_ok h' l' ∧
    [HeapElem 10 1; HeapElem 11 5; HeapElem 12 2] ≡ₚ e :: l' ∧
    (∀ x, x ∈ [HeapElem 10 1; HeapElem 11 5; HeapElem 12 2] → wt e <= wt x) ∧
    mh_capacity h' = mh_capacity ex_heap.
Proof.
  apply (minheap_pop_correct 30 ex_heap [HeapElem 10 1; HeapElem 11 5; HeapElem 12 2]);
    [exact ex_heap_ok|lia].
Defined.
