(* ===== verification/Dhq.v ===== *)
(** * The double helix queue: [lib/dhq.bpf.c], [include/lib/dhq.h]

    Two bounded min heaps, the strands, under one spin lock.  Each operation
    runs between [scx_spin_lock] and [scx_spin_unlock], so it is one
    transition of the queue; the strands are separate allocations and are
    embedded in the record. *)

From S2P Require Import Prelude Minheap.

(** Dequeue modes and strand identifiers *)
Definition SCX_DHQ_MODE_ALTERNATING : Z := 0.
Definition SCX_DHQ_MODE_PRIORITY : Z := 1.
Definition SCX_DHQ_MODE_BALANCED : Z := 2.
Definition SCX_DHQ_STRAND_A : Z := 0.
Definition SCX_DHQ_STRAND_B : Z := 1.
Definition SCX_DHQ_STRAND_AUTO : Z := 2.

(** [(u64)-1] *)
Definition U64_MAX : Z := two64 - 1.

(** The fields kept per strand: the heap, [size_x], [seq_x] and
    [dequeue_count_x]. *)
Record dhq_strand : Type := DhqStrand {
  ds_heap : scx_minheap;
  ds_size : Z;
  ds_seq : Z;
  ds_dequeue_count : Z;
}.

(** [struct scx_dhq] *)
Record scx_dhq : Type := Dhq {
  dq_a : dhq_strand;
  dq_b : dhq_strand;
  dq_capacity : Z;
  dq_max_imbalance : Z;
  dq_fifo : bool;
  dq_last_strand : Z;
  dq_mode : Z;
}.

Abbreviation DM X := (ST scx_dhq X).

(** [(strand == SCX_DHQ_STRAND_A) ? dhq->x_a : dhq->x_b] *)
Definition strand_of (strand : Z) (d : scx_dhq) : dhq_strand :=
  if strand =? SCX_DHQ_STRAND_A then dq_a d else dq_b d.

Definition with_strand (strand : Z) (s : dhq_strand) (d : scx_dhq) : scx_dhq :=
  if strand =? SCX_DHQ_STRAND_A
  then Dhq s (dq_b d) (dq_capacity d) (dq_max_imbalance d) (dq_fifo d) (dq_last_strand d) (dq_mode d)
  else Dhq (dq_a d) s (dq_capacity d) (dq_max_imbalance d) (dq_fifo d) (dq_last_strand d) (dq_mode d).

Definition with_last_strand (strand : Z) (d : scx_dhq) : scx_dhq :=
  Dhq (dq_a d) (dq_b d) (dq_capacity d) (dq_max_imbalance d) (dq_fifo d) strand (dq_mode d).

Definition with_heap (h : scx_minheap) (s : dhq_strand) : dhq_strand :=
  DhqStrand h (ds_size s) (ds_seq s) (ds_dequeue_count s).
Definition with_size (n : Z) (s : dhq_strand) : dhq_strand :=
  DhqStrand (ds_heap s) n (ds_seq s) (ds_dequeue_count s).
Definition with_seq (n : Z) (s : dhq_strand) : dhq_strand :=
  DhqStrand (ds_heap s) (ds_size s) n (ds_dequeue_count s).
Definition with_dequeue_count (n : Z) (s : dhq_strand) : dhq_strand :=
  DhqStrand (ds_heap s) (ds_size s) (ds_seq s) n.

(** Update a field of a strand in place. *)
Definition upd_strand (strand : Z) (f : dhq_strand → dhq_strand) : DM unit :=
  modifies (λ d, with_strand strand (f (strand_of strand d)) d).

(** Run a heap operation on the heap of a strand. *)
Definition on_heap {X} (strand : Z) (m : ST scx_minheap X) : DM X := λ d,
  match m (ds_heap (strand_of strand d)) with
  | Some (x, h) => Some (x, with_strand strand (with_heap h (strand_of strand d)) d)
  | None => None
  end.

(** [q_ok], [a_hdr], [a_elems], [b_hdr] and [b_elems] say which of the five
    static allocations succeed, in program order. *)
Definition scx_dhq_create_internal (fifo : bool) (capacity mode max_imbalance : Z)
    (q_ok a_hdr a_elems b_hdr b_elems : bool) : option scx_dhq :=
  if negb q_ok then None else
  let heap_capacity := capacity / 2 in
  match scx_minheap_alloc_internal heap_capacity a_hdr a_elems with
  | None => None
  | Some ha =>
      match scx_minheap_alloc_internal heap_capacity b_hdr b_elems with
      | None => None
      | Some hb =>
          Some (Dhq (DhqStrand ha 0 0 0) (DhqStrand hb 0 0 0) capacity max_imbalance fifo
                  SCX_DHQ_STRAND_B (u8 mode))
      end
  end.

Section ops.
(** Iterations the verifier's [can_loop] grants each loop of the heap. *)
Context (cl : nat).

Definition __scx_dhq_insert_strand (taskc_ptr strand key : Z) : DM Z :=
  size_a ← gets (λ d, ds_size (dq_a d));
  size_b ← gets (λ d, ds_size (dq_b d));
  capacity ← gets dq_capacity;
  if u64 (size_a + size_b) =? capacity then mret (- ENOSPC) else
  max_imbalance ← gets dq_max_imbalance;
  let my_size := if strand =? SCX_DHQ_STRAND_A then size_a else size_b in
  let other_size := if strand =? SCX_DHQ_STRAND_A then size_b else size_a in
  if (0 <? max_imbalance) && (u64 (other_size + max_imbalance) <=? my_size)
  then mret (- EAGAIN) else
  ret ← on_heap strand (scx_minheap_insert cl taskc_ptr key);
  if negb (ret =? 0) then mret ret else
  upd_strand strand (λ s, with_size (u64 (ds_size s + 1)) s);;
  mret 0.

(** The strand an insertion goes to. *)
Definition select_strand (strand : Z) (d : scx_dhq) : Z :=
  if strand =? SCX_DHQ_STRAND_AUTO then
    if ds_size (dq_a d) <=? ds_size (dq_b d) then SCX_DHQ_STRAND_A else SCX_DHQ_STRAND_B
  else strand.

Definition scx_dhq_insert (taskc_ptr strand : Z) : DM Z :=
  fifo ← gets dq_fifo;
  if negb fifo then mret (- EINVAL) else
  selected_strand ← gets (select_strand strand);
  key ← gets (λ d, ds_seq (strand_of selected_strand d));
  upd_strand selected_strand (λ s, with_seq (u64 (key + 1)) s);;
  __scx_dhq_insert_strand taskc_ptr selected_strand key.

Definition scx_dhq_insert_vtime (taskc_ptr vtime strand : Z) : DM Z :=
  fifo ← gets dq_fifo;
  if (fifo : bool) then mret (- EINVAL) else
  selected_strand ← gets (select_strand strand);
  __scx_dhq_insert_strand taskc_ptr selected_strand vtime.

Definition __scx_dhq_pop_strand_nolock (strand : Z) : DM Z :=
  size_a ← gets (λ d, ds_size (dq_a d));
  size_b ← gets (λ d, ds_size (dq_b d));
  if (strand =? SCX_DHQ_STRAND_A) && (size_a =? 0) || (strand =? SCX_DHQ_STRAND_B) && (size_b =? 0)
  then mret NULL else
  '(ret, helem) ← on_heap strand (scx_minheap_pop cl);
  match (helem : option scx_minheap_elem) with
  | Some e =>
      if negb (ret =? 0) then mret NULL else
      upd_strand strand (λ s, with_size (u64 (ds_size s - 1)) s);;
      upd_strand strand (λ s, with_dequeue_count (u64 (ds_dequeue_count s + 1)) s);;
      mret (he_elem e)
  | None => mret NULL
  end.

Definition scx_dhq_pop_strand (strand : Z) : DM Z := __scx_dhq_pop_strand_nolock strand.

(** [dhq->size_a + dhq->size_b] returned as an [int] *)
Definition scx_dhq_nr_queued : DM Z := gets (λ d, s32 (ds_size (dq_a d) + ds_size (dq_b d))).

Definition scx_dhq_nr_queued_strand (strand : Z) : DM Z :=
  gets (λ d, s32 (ds_size (strand_of strand d))).

Definition other_strand (strand : Z) : Z :=
  if strand =? SCX_DHQ_STRAND_A then SCX_DHQ_STRAND_B else SCX_DHQ_STRAND_A.

(** The key at the root of a strand, the largest value if it is empty. *)
Definition head_vtime (strand : Z) : DM Z :=
  size ← gets (λ d, mh_size (ds_heap (strand_of strand d)));
  if 0 <? size then e ← on_heap strand (rdh 0); mret (he_weight e) else mret U64_MAX.

(** Pop [strand], or the other strand if nothing came out; remember in
    [last_strand] where the task came from. *)
Definition pop_alternating : DM Z :=
  last ← gets dq_last_strand;
  let strand := other_strand last in
  taskc_ptr ← __scx_dhq_pop_strand_nolock strand;
  if taskc_ptr =? NULL then
    let strand := other_strand strand in
    taskc_ptr ← __scx_dhq_pop_strand_nolock strand;
    if taskc_ptr =? NULL then mret taskc_ptr else
    modifies (with_last_strand strand);; mret taskc_ptr
  else modifies (with_last_strand strand);; mret taskc_ptr.

(** One arm of the [if] in the priority mode. *)
Definition pop_priority_arm (first second : Z) : DM Z :=
  taskc_ptr ← __scx_dhq_pop_strand_nolock first;
  if taskc_ptr =? NULL then
    taskc_ptr ← __scx_dhq_pop_strand_nolock second;
    if taskc_ptr =? NULL then mret taskc_ptr else
    modifies (with_last_strand second);; mret taskc_ptr
  else modifies (with_last_strand first);; mret taskc_ptr.

(** One arm of the [if] in the balanced mode: the fallback does not touch
    [last_strand]. *)
Definition pop_balanced_arm (first second : Z) : DM Z :=
  taskc_ptr ← __scx_dhq_pop_strand_nolock first;
  if taskc_ptr =? NULL then __scx_dhq_pop_strand_nolock second
  else modifies (with_last_strand first);; mret taskc_ptr.

Definition scx_dhq_pop : DM Z :=
  nr ← scx_dhq_nr_queued;
  if nr =? 0 then mret NULL else
  mode ← gets dq_mode;
  if mode =? SCX_DHQ_MODE_ALTERNATING then pop_alternating else
  if mode =? SCX_DHQ_MODE_PRIORITY then
    vtime_a ← head_vtime SCX_DHQ_STRAND_A;
    vtime_b ← head_vtime SCX_DHQ_STRAND_B;
    if vtime_a <=? vtime_b then pop_priority_arm SCX_DHQ_STRAND_A SCX_DHQ_STRAND_B
    else pop_priority_arm SCX_DHQ_STRAND_B SCX_DHQ_STRAND_A
  else if mode =? SCX_DHQ_MODE_BALANCED then
    size_a ← gets (λ d, ds_size (dq_a d));
    size_b ← gets (λ d, ds_size (dq_b d));
    if size_b <=? size_a then pop_balanced_arm SCX_DHQ_STRAND_A SCX_DHQ_STRAND_B
    else pop_balanced_arm SCX_DHQ_STRAND_B SCX_DHQ_STRAND_A
  else mret NULL.

Definition __scx_dhq_peek_strand_nolock (strand : Z) : DM Z :=
  size ← gets (λ d, mh_size (ds_heap (strand_of strand d)));
  if size =? 0 then mret NULL else
  e ← on_heap strand (rdh 0);
  mret (he_elem e).

Definition scx_dhq_peek_strand (strand : Z) : DM Z := __scx_dhq_peek_strand_nolock strand.

(** Peek [first], then [second] if nothing is there. *)
Definition peek_either (first second : Z) : DM Z :=
  taskc_ptr ← __scx_dhq_peek_strand_nolock first;
  if taskc_ptr =? NULL then __scx_dhq_peek_strand_nolock second else mret taskc_ptr.

Definition scx_dhq_peek : DM Z :=
  nr ← scx_dhq_nr_queued;
  if nr =? 0 then mret NULL else
  mode ← gets dq_mode;
  if mode =? SCX_DHQ_MODE_ALTERNATING then
    last ← gets dq_last_strand;
    peek_either (other_strand last) (other_strand (other_strand last))
  else if mode =? SCX_DHQ_MODE_PRIORITY then
    vtime_a ← head_vtime SCX_DHQ_STRAND_A;
    vtime_b ← head_vtime SCX_DHQ_STRAND_B;
    if vtime_a <=? vtime_b then __scx_dhq_peek_strand_nolock SCX_DHQ_STRAND_A
    else __scx_dhq_peek_strand_nolock SCX_DHQ_STRAND_B
  else if mode =? SCX_DHQ_MODE_BALANCED then
    size_a ← gets (λ d, ds_size (dq_a d));
    size_b ← gets (λ d, ds_size (dq_b d));
    if size_b <=? size_a then peek_either SCX_DHQ_STRAND_A SCX_DHQ_STRAND_B
    else peek_either SCX_DHQ_STRAND_B SCX_DHQ_STRAND_A
  else mret NULL.
End ops.
