(* ===== verification/DhqCorrect.v ===== *)
(** * The double helix queue: theorems

    The contents of a queue are the two lists its heaps hold.  Insertion
    obeys the capacity and imbalance limits, pop takes the least element of
    the strand its mode chooses, peek agrees with pop up to one corner of the
    priority mode, and in FIFO mode a strand is a first-in first-out queue. *)

From S2P Require Import Prelude Minheap MinheapCorrect Dhq.

Abbreviation contents := (list scx_minheap_elem * list scx_minheap_elem)%type.

Definition cget (strand : Z) (c : contents) : list scx_minheap_elem :=
  if strand =? SCX_DHQ_STRAND_A then c.1 else c.2.
Definition cset (strand : Z) (l : list scx_minheap_elem) (c : contents) : contents :=
  if strand =? SCX_DHQ_STRAND_A then (l, c.2) else (c.1, l).

(** An element the queue may hold: a task is never null, keys are [u64]. *)
Definition elem_ok (e : scx_minheap_elem) : Prop := he_elem e ≠ NULL ∧ is_u64 (wt e).

(** A strand whose heap of capacity [cap] holds [l]. *)
Record strand_ok (cap : Z) (s : dhq_strand) (l : list scx_minheap_elem) : Prop := StrandOk {
  so_heap : heap_ok (ds_heap s) l;
  so_size : ds_size s = Z.of_nat (length l);
  so_cap : mh_capacity (ds_heap s) = cap;
  so_elems : Forall elem_ok l;
}.

(** The queue [d] holds [c]. *)
Record dhq_ok (d : scx_dhq) (c : contents) : Prop := DhqOk {
  do_a : strand_ok (dq_capacity d / 2) (dq_a d) c.1;
  do_b : strand_ok (dq_capacity d / 2) (dq_b d) c.2;
  do_imb : 0 <= dq_max_imbalance d < two63;
}.

(** The fields fixed at creation. *)
Definition config (d : scx_dhq) : Z * Z * bool * Z :=
  (dq_capacity d, dq_max_imbalance d, dq_fifo d, dq_mode d).

Section strands.
Implicit Types (d : scx_dhq) (c : contents) (s : Z).

Lemma ok_strand d c s : dhq_ok d c → strand_ok (dq_capacity d / 2) (strand_of s d) (cget s c).
Proof. intros []. unfold strand_of, cget. by case_match. Qed.

Lemma ok_with_strand d c s t l :
  dhq_ok d c → strand_ok (dq_capacity d / 2) t l → dhq_ok (with_strand s t d) (cset s l c).
Proof. intros [] ?. unfold with_strand, cset. case_match; by split. Qed.

Lemma ok_last_strand d c s : dhq_ok d c → dhq_ok (with_last_strand s d) c.
Proof. by intros []. Qed.

Lemma with_strand_id d s : with_strand s (strand_of s d) d = d.
Proof. unfold with_strand, strand_of. by destruct d; case_match. Qed.

Lemma strand_with_strand d s t : strand_of s (with_strand s t d) = t.
Proof. unfold strand_of, with_strand. by case_match. Qed.

Lemma with_with_strand d s t t' : with_strand s t' (with_strand s t d) = with_strand s t' d.
Proof. unfold with_strand. by case_match. Qed.

Lemma config_with_strand d s t : config (with_strand s t d) = config d.
Proof. unfold with_strand. by case_match. Qed.

Lemma last_with_strand d s t : dq_last_strand (with_strand s t d) = dq_last_strand d.
Proof. unfold with_strand. by case_match. Qed.

Lemma with_heap_id t : with_heap (ds_heap t) t = t.
Proof. by destruct t. Qed.

Lemma on_heap_run {X} s (m : ST scx_minheap X) d x h :
  m (ds_heap (strand_of s d)) = Some (x, h) →
  on_heap s m d = Some (x, with_strand s (with_heap h (strand_of s d)) d).
Proof. unfold on_heap. by intros ->. Qed.

Lemma on_heap_read {X} s (m : ST scx_minheap X) d x :
  m (ds_heap (strand_of s d)) = Some (x, ds_heap (strand_of s d)) → on_heap s m d = Some (x, d).
Proof. intros H. by rewrite (on_heap_run _ _ _ _ _ H), with_heap_id, with_strand_id. Qed.

Lemma strand_len d c s : dhq_ok d c → Z.of_nat (length (cget s c)) < 1073741824.
Proof.
  intros [Hh _ _ _]%(ok_strand _ _ s). destruct Hh as [_ [junk Hm] Hc Hi _].
  rewrite Hm, length_app in Hc. lia.
Qed.

Lemma nr_queued_run d c :
  dhq_ok d c → scx_dhq_nr_queued d = Some (Z.of_nat (length c.1 + length c.2), d).
Proof.
  intros Hd. unfold scx_dhq_nr_queued, gets. rewrite (so_size _ _ _ (do_a _ _ Hd)), (so_size _ _ _ (do_b _ _ Hd)).
  pose proof (strand_len d c SCX_DHQ_STRAND_A Hd) as Ha. pose proof (strand_len d c SCX_DHQ_STRAND_B Hd) as Hb.
  unfold cget in *. simpl in Ha, Hb. unfold s32.
  rewrite Z.mod_small by (unfold two32; lia). rewrite (proj2 (Z.ltb_lt _ _)) by (unfold two31; lia).
  do 2 f_equal. lia.
Qed.

(** Reading the root of a non-empty strand. *)
Lemma root_run d c s e l :
  dhq_ok d c → cget s c = e :: l → on_heap s (rdh 0) d = Some (e, d).
Proof.
  intros [Hh _ _ _]%(ok_strand _ _ s) E. rewrite E in Hh. destruct Hh as [_ [junk Hm] _ _ _].
  apply on_heap_read. unfold rdh. simpl (0 <? 0). by rewrite Hm.
Qed.

Lemma heap_size_run d c s :
  dhq_ok d c → mh_size (ds_heap (strand_of s d)) = Z.of_nat (length (cget s c)).
Proof. intros H. apply (ho_size _ _ (so_heap _ _ _ (ok_strand d c s H))). Qed.

Lemma head_vtime_run d c s :
  dhq_ok d c →
  head_vtime s d = Some (match cget s c with [] => U64_MAX | e :: _ => wt e end, d).
Proof.
  intros Hd. unfold head_vtime. rewrite (ST_bind_run _ _ d _ d eq_refl), (heap_size_run d c s Hd).
  destruct (cget s c) as [|e l] eqn:E; [done|].
  change (0 <? Z.of_nat (length (e :: l))) with true. cbv iota.
  by rewrite (ST_bind_run _ _ _ _ _ (root_run d c s e l Hd E)).
Qed.

Lemma peek_strand_run d c s :
  dhq_ok d c →
  __scx_dhq_peek_strand_nolock s d =
    Some (match cget s c with [] => NULL | e :: _ => he_elem e end, d).
Proof.
  intros Hd. unfold __scx_dhq_peek_strand_nolock.
  rewrite (ST_bind_run _ _ d _ d eq_refl), (heap_size_run d c s Hd).
  destruct (cget s c) as [|e l] eqn:E; [done|].
  change (Z.of_nat (length (e :: l)) =? 0) with false. cbv iota.
  by rewrite (ST_bind_run _ _ _ _ _ (root_run d c s e l Hd E)).
Qed.

Lemma cget_elem_ok d c s e l : dhq_ok d c → cget s c = e :: l → elem_ok e.
Proof. intros [_ _ _ He]%(ok_strand _ _ s) E. rewrite E in He. by apply Forall_cons in He as [? _]. Qed.
End strands.

(** ** Popping one strand *)
Section pop.
Context (cl : nat) (Hcl : (30 ≤ cl)%nat).

(** What popping [s] does to a queue holding [e] as the root of that strand. *)
Record popped (d : scx_dhq) (c : contents) (s : Z) (e : scx_minheap_elem) (l' : list scx_minheap_elem)
    (d' : scx_dhq) : Prop := Popped {
  po_ok : dhq_ok d' (cset s l' c);
  po_perm : cget s c ≡ₚ e :: l';
  po_min : ∀ x, x ∈ cget s c → wt e <= wt x;
  po_count : ds_dequeue_count (strand_of s d') = u64 (ds_dequeue_count (strand_of s d) + 1);
  po_seq : ds_seq (strand_of s d') = ds_seq (strand_of s d);
  po_config : config d' = config d;
}.

Lemma pop_strand_empty d c s :
  dhq_ok d c → cget s c = [] → __scx_dhq_pop_strand_nolock cl s d = Some (NULL, d).
Proof.
  intros Hd E. unfold __scx_dhq_pop_strand_nolock.
  rewrite !(ST_bind_run _ _ d _ d eq_refl). case_match; [done|].
  pose proof (heap_size_run d c s Hd) as Hs. rewrite E in Hs.
  assert (scx_minheap_pop cl (ds_heap (strand_of s d)) = Some (- EINVAL, None, ds_heap (strand_of s d))) as Hrun.
  { unfold scx_minheap_pop, gets, mbind, ST_bind, mret, ST_ret. by rewrite Hs. }
  by rewrite (ST_bind_run _ _ _ _ _ (on_heap_read _ _ _ _ Hrun)).
Qed.

Lemma pop_strand_spec d c s e l :
  dhq_ok d c → cget s c = e :: l →
  ∃ l' d', __scx_dhq_pop_strand_nolock cl s d = Some (he_elem e, d') ∧ popped d c s e l' d' ∧
    dq_last_strand d' = dq_last_strand d.
Proof.
  intros Hd E. pose proof (ok_strand d c s Hd) as [Hh Hs Hc He]. rewrite E in Hh, Hs, He.
  destruct (heap_pop_spec cl _ e l Hh Hcl) as (h' & l' & Hrun & Hh' & Hp & Hcap).
  pose proof (strand_len d c s Hd) as Hlen. rewrite E in Hlen. simpl in Hlen.
  set (t := strand_of s d) in *.
  exists l', (with_strand s (DhqStrand h' (Z.of_nat (length l')) (ds_seq t) (u64 (ds_dequeue_count t + 1))) d).
  split_and!; [|split|by apply last_with_strand].
  - unfold __scx_dhq_pop_strand_nolock. rewrite !(ST_bind_run _ _ d _ d eq_refl).
    assert ((s =? SCX_DHQ_STRAND_A) && (ds_size (dq_a d) =? 0)
      || (s =? SCX_DHQ_STRAND_B) && (ds_size (dq_b d) =? 0) = false) as ->.
    { unfold t, strand_of in Hs. simpl in Hs. destruct (s =? SCX_DHQ_STRAND_A) eqn:EA; simpl.
      - rewrite (proj2 (Z.eqb_neq _ _)) by lia. simpl. destruct (s =? SCX_DHQ_STRAND_B) eqn:EB; [|done].
        unfold SCX_DHQ_STRAND_A, SCX_DHQ_STRAND_B in *. lia.
      - rewrite andb_false_iff. right. apply Z.eqb_neq. lia. }
    rewrite (ST_bind_run _ _ _ _ _ (on_heap_run _ _ _ _ _ Hrun)). simpl.
    unfold upd_strand, modifies, mbind, ST_bind, mret, ST_ret.
    rewrite !strand_with_strand, !with_with_strand. unfold with_size, with_dequeue_count, with_heap. simpl.
    fold t. rewrite Hs. do 3 f_equal. rewrite (Permutation_length Hp). cbn [length].
    rewrite u64_small by (unfold is_u64, two64; lia). f_equal. lia.
  - apply ok_with_strand; [done|]. split; simpl; [done|done|congruence|].
    rewrite Hp. by apply Forall_cons in He as [_ ?].
  - by rewrite E, Hp.
  - rewrite E. intros x. apply heap_head_min, Hh.
  - by rewrite strand_with_strand.
  - by rewrite strand_with_strand.
  - apply config_with_strand.
Qed.

(** ** The strand a mode chooses

    An empty strand is never chosen; between two non-empty ones the mode
    decides. *)
Definition dhq_choice (d : scx_dhq) (c : contents) : option Z :=
  if 2 <? dq_mode d then None else
  match c.1, c.2 with
  | [], [] => None
  | _ :: _, [] => Some SCX_DHQ_STRAND_A
  | [], _ :: _ => Some SCX_DHQ_STRAND_B
  | ea :: _, eb :: _ =>
      if dq_mode d =? SCX_DHQ_MODE_ALTERNATING then Some (other_strand (dq_last_strand d))
      else if dq_mode d =? SCX_DHQ_MODE_PRIORITY then
        Some (if wt ea <=? wt eb then SCX_DHQ_STRAND_A else SCX_DHQ_STRAND_B)
      else Some (if (length c.2 <=? length c.1)%nat then SCX_DHQ_STRAND_A else SCX_DHQ_STRAND_B)
  end.

(** A pop attempt at [first] that falls back to [second]: which strand gives
    the task. *)
Definition either (c : contents) (first second : Z) : option Z :=
  match cget first c, cget second c with
  | _ :: _, _ => Some first
  | [], _ :: _ => Some second
  | [], [] => None
  end.

(** [m] pops from the strand [o], and records it in [last_strand]. *)
Definition pops (m : ST scx_dhq Z) (d : scx_dhq) (c : contents) (o : option Z) : Prop :=
  match o with
  | None => m d = Some (NULL, d)
  | Some s => ∃ e l l' d', cget s c = e :: l ∧ m d = Some (he_elem e, d') ∧
      popped d c s e l' d' ∧ dq_last_strand d' = s
  end.

Lemma popped_last d c s e l' d' z : popped d c s e l' d' → popped d c s e l' (with_last_strand z d').
Proof. intros []. split; try done. by apply ok_last_strand. Qed.

Lemma pop_then_record d c s e l :
  dhq_ok d c → cget s c = e :: l →
  ∃ l' d', (∀ k : Z → ST scx_dhq Z,
      (__scx_dhq_pop_strand_nolock cl s ≫= k) d = k (he_elem e) d') ∧ popped d c s e l' d' ∧
    he_elem e ≠ NULL.
Proof.
  intros Hd E. destruct (pop_strand_spec d c s e l Hd E) as (l' & d' & Hrun & Hp & _).
  exists l', d'. split_and!; [intros k; by rewrite (ST_bind_run _ _ _ _ _ Hrun)|done|].
  by apply (cget_elem_ok d c s e l).
Qed.

Lemma pop_priority_spec d c first second :
  dhq_ok d c → pops (pop_priority_arm cl first second) d c (either c first second).
Proof.
  intros Hd. unfold either, pops, pop_priority_arm. destruct (cget first c) as [|e l] eqn:E1.
  - rewrite (ST_bind_run _ _ _ _ _ (pop_strand_empty d c first Hd E1)). cbn [Z.eqb].
    destruct (cget second c) as [|e l] eqn:E2.
    + by rewrite (ST_bind_run _ _ _ _ _ (pop_strand_empty d c second Hd E2)).
    + destruct (pop_then_record d c second e l) as (l' & d' & Hrun & Hp & Hn); [done..|].
      rewrite Hrun, (proj2 (Z.eqb_neq _ _)) by done.
      exists e, l, l', (with_last_strand second d'). split_and!; [done|done|by apply popped_last|done].
  - destruct (pop_then_record d c first e l) as (l' & d' & Hrun & Hp & Hn); [done..|].
    rewrite Hrun, (proj2 (Z.eqb_neq _ _)) by done.
    exists e, l, l', (with_last_strand first d'). split_and!; [done|done|by apply popped_last|done].
Qed.

Lemma pop_balanced_spec d c first second :
  dhq_ok d c → cget first c ≠ [] → pops (pop_balanced_arm cl first second) d c (Some first).
Proof.
  intros Hd Hne. unfold pops, pop_balanced_arm. destruct (cget first c) as [|e l] eqn:E1; [done|].
  destruct (pop_then_record d c first e l) as (l' & d' & Hrun & Hp & Hn); [done..|].
  rewrite Hrun, (proj2 (Z.eqb_neq _ _)) by done.
  exists e, l, l', (with_last_strand first d'). split_and!; [done|done|by apply popped_last|done].
Qed.

Lemma pop_alternating_is_arm d :
  pop_alternating cl d =
  pop_priority_arm cl (other_strand (dq_last_strand d)) (other_strand (other_strand (dq_last_strand d))) d.
Proof. done. Qed.

Lemma other_other z : {other_strand z = SCX_DHQ_STRAND_A ∧ other_strand (other_strand z) = SCX_DHQ_STRAND_B} +
  {other_strand z = SCX_DHQ_STRAND_B ∧ other_strand (other_strand z) = SCX_DHQ_STRAND_A}.
Proof. unfold other_strand. destruct (z =? SCX_DHQ_STRAND_A); [by right|by left]. Qed.

Lemma pops_eq m m' d c o : m d = m' d → pops m' d c o → pops m d c o.
Proof. intros E. unfold pops. by rewrite E. Qed.

(** The dispatch of a pop on a non-empty queue. *)
Lemma pop_dispatch d c :
  dhq_ok d c → (length c.1 + length c.2 ≠ 0)%nat → 0 <= dq_mode d →
  scx_dhq_pop cl d =
    (if dq_mode d =? 0 then pop_alternating cl d
     else if dq_mode d =? 1 then
       if match c.1 with [] => U64_MAX | e :: _ => wt e end <=? match c.2 with [] => U64_MAX | e :: _ => wt e end
       then pop_priority_arm cl 0 1 d else pop_priority_arm cl 1 0 d
     else if dq_mode d =? 2 then
       if (length c.2 <=? length c.1)%nat then pop_balanced_arm cl 0 1 d else pop_balanced_arm cl 1 0 d
     else Some (NULL, d)).
Proof.
  intros Hd Hne Hm. unfold scx_dhq_pop. rewrite (ST_bind_run _ _ _ _ _ (nr_queued_run d c Hd)).
  rewrite (proj2 (Z.eqb_neq _ _)) by lia. rewrite (ST_bind_run _ _ d _ d eq_refl).
  unfold SCX_DHQ_MODE_ALTERNATING, SCX_DHQ_MODE_PRIORITY, SCX_DHQ_MODE_BALANCED.
  destruct (dq_mode d =? 0); [done|]. destruct (dq_mode d =? 1).
  - rewrite (ST_bind_run _ _ _ _ _ (head_vtime_run d c SCX_DHQ_STRAND_A Hd)).
    rewrite (ST_bind_run _ _ _ _ _ (head_vtime_run d c SCX_DHQ_STRAND_B Hd)).
    unfold cget. cbn [SCX_DHQ_STRAND_A SCX_DHQ_STRAND_B Z.eqb]. by destruct (_ <=? _).
  - destruct (dq_mode d =? 2); [|done]. rewrite !(ST_bind_run _ _ d _ d eq_refl).
    rewrite (so_size _ _ _ (do_a _ _ Hd)), (so_size _ _ _ (do_b _ _ Hd)).
    destruct (Nat.leb_spec (length c.2) (length c.1));
      [rewrite (proj2 (Z.leb_le _ _)) by lia|rewrite (proj2 (Z.leb_gt _ _)) by lia]; done.
Qed.

(** In priority mode with only one non-empty strand, either arm of the
    comparison ends at that strand. *)
Lemma either_choice d c :
  (2 <? dq_mode d) = false → dq_mode d ≠ SCX_DHQ_MODE_BALANCED →
  (dq_mode d = SCX_DHQ_MODE_ALTERNATING →
     dhq_choice d c = either c (other_strand (dq_last_strand d)) (other_strand (other_strand (dq_last_strand d)))) ∧
  (dq_mode d = SCX_DHQ_MODE_PRIORITY →
     dhq_choice d c =
       if match c.1 with [] => U64_MAX | e :: _ => wt e end <=? match c.2 with [] => U64_MAX | e :: _ => wt e end
       then either c 0 1 else either c 1 0).
Proof.
  intros Hm Hb. unfold dhq_choice. rewrite Hm. destruct c as [la lb]. split; intros E; rewrite E; simpl.
  - destruct (other_other (dq_last_strand d)) as [[-> ->]|[-> ->]]; unfold either, cget; simpl;
      by destruct la, lb.
  - destruct la, lb; unfold either, cget; simpl; try case_match; done.
Qed.

Lemma dhq_pop_spec d c : dhq_ok d c → 0 <= dq_mode d → pops (scx_dhq_pop cl) d c (dhq_choice d c).
Proof.
  intros Hd Hm. destruct (decide (length c.1 + length c.2 = 0)%nat) as [E0|E0].
  { assert (dhq_choice d c = None) as ->.
    { unfold dhq_choice. destruct c.1, c.2; simpl in E0; try lia. by case_match. }
    unfold pops, scx_dhq_pop. rewrite (ST_bind_run _ _ _ _ _ (nr_queued_run d c Hd)). by rewrite E0. }
  pose proof (pop_dispatch d c Hd E0 Hm) as Hrun. destruct (Z.ltb_spec 2 (dq_mode d)) as [H2|H2].
  { unfold pops, dhq_choice. rewrite (proj2 (Z.ltb_lt _ _)), Hrun by lia.
    by rewrite !(proj2 (Z.eqb_neq _ _)) by lia. }
  assert (dq_mode d = 0 ∨ dq_mode d = 1 ∨ dq_mode d = 2) as [E|[E|E]] by lia; rewrite E in Hrun; simpl in Hrun.
  - rewrite (proj1 (either_choice d c (proj2 (Z.ltb_ge _ _) H2) ltac:(rewrite E; done)) E).
    rewrite pop_alternating_is_arm in Hrun. by eapply pops_eq, pop_priority_spec.
  - rewrite (proj2 (either_choice d c (proj2 (Z.ltb_ge _ _) H2) ltac:(rewrite E; done)) E).
    case_match; by eapply pops_eq, pop_priority_spec.
  - assert (dhq_choice d c = Some (if (length c.2 <=? length c.1)%nat then 0 else 1)) as ->.
    { unfold dhq_choice. rewrite E. simpl. destruct c as [[|??] [|??]]; simpl in *; try done; lia. }
    destruct (Nat.leb_spec (length c.2) (length c.1)); (eapply pops_eq; [exact Hrun|]);
      apply pop_balanced_spec; [done| |done|]; unfold cget; simpl; destruct c as [[|??] [|??]]; simpl in *; done || lia.
Qed.
End pop.

(** ** Peeking *)
Definition root_elem (c : contents) (o : option Z) : Z :=
  match o with
  | Some s => match cget s c with [] => NULL | e :: _ => he_elem e end
  | None => NULL
  end.

Lemma peek_either_run d c first second :
  dhq_ok d c → peek_either first second d = Some (root_elem c (either c first second), d).
Proof.
  intros Hd. unfold peek_either, either, root_elem.
  rewrite (ST_bind_run _ _ _ _ _ (peek_strand_run d c first Hd)).
  destruct (cget first c) as [|e l] eqn:E1.
  - cbn [Z.eqb]. rewrite (peek_strand_run d c second Hd). by destruct (cget second c) eqn:E2; rewrite ?E2.
  - rewrite E1, (proj2 (Z.eqb_neq _ _)); [done|]. by apply (cget_elem_ok d c first e l).
Qed.

(** The corner in which peek misses the next task. *)
Definition peek_corner (d : scx_dhq) (c : contents) : bool :=
  (dq_mode d =? SCX_DHQ_MODE_PRIORITY) &&
  match c.1, c.2 with [], e :: _ => wt e =? U64_MAX | _, _ => false end.

Lemma peek_priority_run d c :
  dhq_ok d c → dq_mode d = SCX_DHQ_MODE_PRIORITY → (length c.1 + length c.2 ≠ 0)%nat →
  scx_dhq_peek d = Some (if peek_corner d c then NULL else root_elem c (dhq_choice d c), d).
Proof.
  intros Hd E E0. unfold scx_dhq_peek. rewrite (ST_bind_run _ _ _ _ _ (nr_queued_run d c Hd)).
  rewrite (proj2 (Z.eqb_neq _ _)) by lia. rewrite (ST_bind_run _ _ d _ d eq_refl). rewrite E. cbn [Z.eqb Pos.eqb SCX_DHQ_MODE_ALTERNATING SCX_DHQ_MODE_PRIORITY].
  rewrite (ST_bind_run _ _ _ _ _ (head_vtime_run d c SCX_DHQ_STRAND_A Hd)).
  rewrite (ST_bind_run _ _ _ _ _ (head_vtime_run d c SCX_DHQ_STRAND_B Hd)).
  unfold peek_corner, dhq_choice. rewrite E.
  pose proof (peek_strand_run d c SCX_DHQ_STRAND_A Hd) as Ha. pose proof (peek_strand_run d c SCX_DHQ_STRAND_B Hd) as Hb.
  pose proof (cget_elem_ok d c SCX_DHQ_STRAND_A) as Ka. pose proof (cget_elem_ok d c SCX_DHQ_STRAND_B) as Kb.
  unfold root_elem, cget in *. destruct c as [[|ea la] [|eb lb]]; cbn in *; [lia|..].
  - destruct (Kb eb lb Hd eq_refl) as [_ Hw]. unfold is_u64 in Hw. change (wt eb =? U64_MAX) with (wt eb =? two64 - 1).
    change (U64_MAX <=? wt eb) with (two64 - 1 <=? wt eb).
    destruct (Z.leb_spec (two64 - 1) (wt eb)), (Z.eqb_spec (wt eb) (two64 - 1)); try lia; done.
  - destruct (Ka ea la Hd eq_refl) as [_ Hw]. unfold is_u64 in Hw. change (wt ea <=? U64_MAX) with (wt ea <=? two64 - 1).
    rewrite (proj2 (Z.leb_le _ _)) by lia. done.
  - by destruct (_ <=? _).
Qed.

Lemma peek_spec d c :
  dhq_ok d c → 0 <= dq_mode d →
  scx_dhq_peek d = Some (if peek_corner d c then NULL else root_elem c (dhq_choice d c), d).
Proof.
  intros Hd Hm. destruct (decide (length c.1 + length c.2 = 0)%nat) as [E0|E0].
  { unfold scx_dhq_peek. rewrite (ST_bind_run _ _ _ _ _ (nr_queued_run d c Hd)). rewrite E0.
    destruct c as [[] []]; simpl in E0; try lia. unfold peek_corner, dhq_choice. simpl.
    by rewrite andb_false_r; case_match. }
  destruct (decide (dq_mode d = SCX_DHQ_MODE_PRIORITY)) as [E|E]; [by apply peek_priority_run|].
  assert (peek_corner d c = false) as ->.
  { unfold peek_corner. by rewrite (proj2 (Z.eqb_neq _ _)). }
  unfold scx_dhq_peek. rewrite (ST_bind_run _ _ _ _ _ (nr_queued_run d c Hd)).
  rewrite (proj2 (Z.eqb_neq _ _)) by lia. rewrite (ST_bind_run _ _ d _ d eq_refl).
  rewrite (proj2 (Z.eqb_neq (dq_mode d) SCX_DHQ_MODE_PRIORITY) E).
  destruct (Z.ltb_spec 2 (dq_mode d)) as [H2|H2].
  { unfold dhq_choice, SCX_DHQ_MODE_ALTERNATING, SCX_DHQ_MODE_BALANCED.
    by rewrite (proj2 (Z.ltb_lt _ _)), !(proj2 (Z.eqb_neq _ _)) by lia. }
  assert (dq_mode d = 0 ∨ dq_mode d = 2) as [E'|E'] by (unfold SCX_DHQ_MODE_PRIORITY in E; lia); rewrite E'.
  - cbn [Z.eqb SCX_DHQ_MODE_ALTERNATING]. rewrite (ST_bind_run _ _ d _ d eq_refl), (peek_either_run d c) by done.
    by rewrite (proj1 (either_choice d c (proj2 (Z.ltb_ge _ _) H2) ltac:(rewrite E'; done)) E').
  - cbn [Z.eqb Pos.eqb SCX_DHQ_MODE_ALTERNATING SCX_DHQ_MODE_BALANCED]. rewrite !(ST_bind_run _ _ d _ d eq_refl).
    rewrite (so_size _ _ _ (do_a _ _ Hd)), (so_size _ _ _ (do_b _ _ Hd)).
    unfold dhq_choice. rewrite E'. simpl.
    destruct (Z.leb_spec (Z.of_nat (length c.2)) (Z.of_nat (length c.1)));
      rewrite (peek_either_run d c) by done;
      destruct c as [[|ea la] [|eb lb]]; simpl in *; unfold either, cget; simpl; try done; try lia;
      destruct (Nat.leb_spec (length lb) (length la)); done || lia.
Qed.

(** ** Inserting *)

(** The code an insertion into [strand] returns. *)
Definition insert_code (d : scx_dhq) (c : contents) (strand : Z) : Z :=
  let mine := Z.of_nat (length (cget strand c)) in
  let other := Z.of_nat (length (cget (other_strand strand) c)) in
  if mine + other =? dq_capacity d then - ENOSPC else
  if (0 <? dq_max_imbalance d) && (other + dq_max_imbalance d <=? mine) then - EAGAIN else
  if mine =? dq_capacity d / 2 then - ENOSPC else 0.

Lemma sizes_of d c s :
  dhq_ok d c →
  (if s =? SCX_DHQ_STRAND_A then ds_size (dq_a d) else ds_size (dq_b d)) = Z.of_nat (length (cget s c)) ∧
  (if s =? SCX_DHQ_STRAND_A then ds_size (dq_b d) else ds_size (dq_a d)) =
    Z.of_nat (length (cget (other_strand s) c)).
Proof.
  intros [[_ Ha _ _] [_ Hb _ _] _]. unfold cget, other_strand. by destruct (s =? SCX_DHQ_STRAND_A).
Qed.

Lemma insert_strand_spec cl d c t s k :
  dhq_ok d c → (30 ≤ cl)%nat → t ≠ NULL → is_u64 k →
  if insert_code d c s =? 0 then
    ∃ l' h', let st := strand_of s d in
      let d' := with_strand s (DhqStrand h' (Z.of_nat (length l')) (ds_seq st) (ds_dequeue_count st)) d in
      __scx_dhq_insert_strand cl t s k d = Some (0, d') ∧
      dhq_ok d' (cset s l' c) ∧ l' ≡ₚ HeapElem t k :: cget s c
  else __scx_dhq_insert_strand cl t s k d = Some (insert_code d c s, d).
Proof.
  intros Hd Hcl Ht Hk. destruct (sizes_of d c s Hd) as [Hmy Hot].
  pose proof (strand_len d c s Hd) as Hl1. pose proof (strand_len d c (other_strand s) Hd) as Hl2.
  pose proof (do_imb _ _ Hd) as Himb. pose proof (ok_strand d c s Hd) as [Hh Hs Hc He].
  assert (ds_size (dq_a d) + ds_size (dq_b d) =
    Z.of_nat (length (cget s c)) + Z.of_nat (length (cget (other_strand s) c))) as Hsum.
  { destruct (s =? SCX_DHQ_STRAND_A); lia. }
  assert (Z.of_nat (length (cget s c)) ≤ dq_capacity d / 2) as Hle.
  { rewrite <-Hc. destruct Hh as [_ [junk Hm] Hcap _ _]. rewrite Hcap, Hm, length_app. lia. }
  unfold insert_code, __scx_dhq_insert_strand. rewrite !(ST_bind_run _ _ d _ d eq_refl), Hsum.
  rewrite u64_small by (unfold is_u64, two64 in *; lia).
  destruct (_ + _ =? dq_capacity d); [done|]. rewrite !(ST_bind_run _ _ d _ d eq_refl), Hmy, Hot.
  rewrite u64_small by (unfold is_u64, two64, two63 in *; lia).
  destruct (_ && _); [done|]. destruct (Z.eqb_spec (Z.of_nat (length (cget s c))) (dq_capacity d / 2)) as [Ef|Ef].
  - simpl. assert (scx_minheap_insert cl t k (ds_heap (strand_of s d)) = Some (- ENOSPC, ds_heap (strand_of s d))) as Hrun.
    { unfold scx_minheap_insert, gets, mbind, ST_bind, mret, ST_ret.
      by rewrite (ho_size _ _ Hh), Hc, Ef, Z.eqb_refl. }
    by rewrite (ST_bind_run _ _ _ _ _ (on_heap_read _ _ _ _ Hrun)).
  - cbn [Z.eqb]. destruct (heap_insert_spec cl _ _ t k Hh Hcl) as (h' & l' & Hrun & Hh' & Hp & Hcap); [lia|].
    exists l', h'. cbn zeta. split_and!; [|apply ok_with_strand; [done|split; simpl; [done|done|congruence|]]|done].
    + rewrite (ST_bind_run _ _ _ _ _ (on_heap_run _ _ _ _ _ Hrun)). simpl.
      unfold upd_strand, modifies, mbind, ST_bind, mret, ST_ret.
      rewrite !strand_with_strand, !with_with_strand. unfold with_size, with_heap. simpl.
      rewrite Hs, u64_small, (Permutation_length Hp) by (unfold is_u64, two64; lia). cbn [length].
      do 4 f_equal. lia.
    + rewrite Hp. by constructor.
Qed.

(** ** First-in first-out order

    In FIFO mode the keys of a strand are the sequence numbers of its
    insertions, so the strand read by increasing key is a queue. *)
Record fifo_view (s : dhq_strand) (l q : list scx_minheap_elem) : Prop := FifoView {
  fv_perm : q ≡ₚ l;
  fv_sorted : StronglySorted (λ x y, wt x < wt y) q;
  fv_seq : Forall (λ x, wt x < ds_seq s) q;
}.

Lemma sorted_snoc {X} (R : X → X → Prop) (l : list X) (x : X) :
  StronglySorted R l → Forall (λ y, R y x) l → StronglySorted R (l ++ [x]).
Proof.
  induction 1 as [|y l Hl IH Hy]; intros Hx; simpl; [repeat constructor|].
  apply Forall_cons in Hx as [? ?]. constructor; [by apply IH|]. apply Forall_app. by repeat constructor.
Qed.

Lemma fifo_view_insert s l q e l' t :
  fifo_view s l q → wt e = ds_seq s → ds_seq t = ds_seq s + 1 → l' ≡ₚ e :: l →
  fifo_view t l' (q ++ [e]).
Proof.
  intros [Hp Hs Hq] He Ht Hl. split.
  - by rewrite Hl, Permutation_app_comm, Hp.
  - apply sorted_snoc; [done|]. by rewrite He.
  - apply Forall_app. split; [|repeat constructor; lia]. eapply Forall_impl; [exact Hq|]. simpl. lia.
Qed.

Lemma fifo_view_pop s l q e x l' t :
  fifo_view s l (x :: q) → l ≡ₚ e :: l' → (∀ y, y ∈ l → wt e <= wt y) → ds_seq t = ds_seq s →
  e = x ∧ fifo_view t l' q.
Proof.
  intros [Hp Hs Hq] Hl Hmin Ht. apply StronglySorted_cons in Hs as [Hx Hs]. apply Forall_cons in Hq as [_ Hq].
  assert (e = x) as ->.
  { assert (e ∈ x :: q) as He by (rewrite Hp, Hl; left). apply elem_of_cons in He as [->|He]; [done|].
    rewrite Forall_forall in Hx. specialize (Hx _ He). specialize (Hmin x). rewrite <-Hp in Hmin.
    specialize (Hmin (list_elem_of_here _ _)). lia. }
  split; [done|]. split; [|done|by rewrite Ht]. rewrite Hl in Hp. by apply Permutation_cons_inv in Hp.
Qed.

Lemma cset_get s c : cset s (cget s c) c = c.
Proof. unfold cset, cget. by destruct c, (s =? SCX_DHQ_STRAND_A). Qed.

Lemma ok_with_seq d c s n : dhq_ok d c → dhq_ok (with_strand s (with_seq n (strand_of s d)) d) c.
Proof.
  intros Hd. rewrite <-(cset_get s c). apply ok_with_strand; [done|].
  by destruct (ok_strand d c s Hd).
Qed.

Lemma insert_code_with_strand d c s z t : insert_code (with_strand z t d) c s = insert_code d c s.
Proof. unfold insert_code, with_strand. by destruct (z =? SCX_DHQ_STRAND_A). Qed.

Lemma insert_code_bound d c s :
  insert_code d c s = 0 → 0 < dq_max_imbalance d →
  Z.of_nat (length (cget s c)) < Z.of_nat (length (cget (other_strand s) c)) + dq_max_imbalance d.
Proof.
  unfold insert_code. intros H Hm. destruct (_ =? dq_capacity d); [done|].
  rewrite (proj2 (Z.ltb_lt 0 _) Hm) in H. simpl in H. by destruct (Z.leb_spec (Z.of_nat (length (cget (other_strand s) c)) + dq_max_imbalance d) (Z.of_nat (length (cget s c)))).
Qed.

Lemma select_auto d c :
  dhq_ok d c → let s := select_strand SCX_DHQ_STRAND_AUTO d in
  (length (cget s c) ≤ length (cget (other_strand s) c))%nat.
Proof.
  intros [[_ Ha _ _] [_ Hb _ _] _]. unfold select_strand. simpl.
  destruct (Z.leb_spec (ds_size (dq_a d)) (ds_size (dq_b d))); unfold cget, other_strand; simpl; lia.
Qed.

(** ** Creation *)
Lemma create_spec fifo capacity mode imb ok a1 a2 b1 b2 d :
  0 <= capacity < 1073741824 → 0 <= imb < two63 →
  scx_dhq_create_internal fifo capacity mode imb ok a1 a2 b1 b2 = Some d →
  dhq_ok d ([], []) ∧ config d = (capacity, imb, fifo, u8 mode).
Proof.
  intros Hc Hi. unfold scx_dhq_create_internal. destruct ok; [|done]. simpl.
  destruct (scx_minheap_alloc_internal _ a1 a2) as [ha|] eqn:Ea; [|done].
  destruct (scx_minheap_alloc_internal _ b1 b2) as [hb|] eqn:Eb; [|done]. intros [= <-].
  assert (∀ x y h, scx_minheap_alloc_internal (capacity / 2) x y = Some h →
    strand_ok (capacity / 2) (DhqStrand h 0 0 0) []) as Hs.
  { intros [] [] h Hh; try done. destruct (heap_alloc_spec (capacity / 2) h) as [? ?]; [lia|done|].
    by split; simpl; [| |done|]. }
  split; [|done]. split; simpl; [by eapply Hs|by eapply Hs|done].
Qed.

(** ** Claims *)

(** A vtime insertion is refused with -EINVAL in FIFO mode; otherwise it returns -ENOSPC when the queue or the strand is full, -EAGAIN when the strand is max_imbalance or more ahead of the other, and leaves the queue unchanged, or it adds the task to the chosen strand, the smaller one for STRAND_AUTO, after which the strand exceeds the other by at most max_imbalance. *)
Theorem dhq_insert_correct cl d c t vtime strand :
  dhq_ok d c → (30 ≤ cl)%nat → t ≠ NULL → is_u64 vtime →
  if dq_fifo d then scx_dhq_insert_vtime cl t vtime strand d = Some (- EINVAL, d)
  else
    let s := select_strand strand d in
    (strand = SCX_DHQ_STRAND_AUTO → length (cget s c) ≤ length (cget (other_strand s) c))%nat ∧
    if insert_code d c s =? 0 then
      ∃ l' d', scx_dhq_insert_vtime cl t vtime strand d = Some (0, d') ∧
        dhq_ok d' (cset s l' c) ∧ l' ≡ₚ HeapElem t vtime :: cget s c ∧ config d' = config d ∧
        (0 < dq_max_imbalance d →
           Z.of_nat (length l') <= Z.of_nat (length (cget (other_strand s) c)) + dq_max_imbalance d)
    else scx_dhq_insert_vtime cl t vtime strand d = Some (insert_code d c s, d).
Proof.
  intros Hd Hcl Ht Hv. unfold scx_dhq_insert_vtime. rewrite !(ST_bind_run _ _ d _ d eq_refl).
  destruct (dq_fifo d); [done|]. cbn zeta. rewrite (ST_bind_run _ _ d _ d eq_refl).
  split; [intros ->; by apply select_auto|]. set (s := select_strand strand d).
  pose proof (insert_strand_spec cl d c t s vtime Hd Hcl Ht Hv) as H.
  destruct (Z.eqb_spec (insert_code d c s) 0) as [E|E]; [|done].
  destruct H as (l' & h' & Hrun & Hok & Hp). exists l', (with_strand s (DhqStrand h' (Z.of_nat (length l'))
    (ds_seq (strand_of s d)) (ds_dequeue_count (strand_of s d))) d).
  split_and!; [done..|apply config_with_strand|]. intros Hm.
  pose proof (insert_code_bound d c s E Hm). rewrite (Permutation_length Hp). cbn [length]. lia.
Qed.

(** C37: A pop on a queue in a known mode returns NULL and changes nothing exactly when the queue is empty; otherwise it takes the root of the strand the mode selects (the one not served last, the one with the smaller key, the fuller one; never an empty one while the other has tasks), a least key of that strand and in priority mode of the whole queue, removes exactly that task and records the strand. *)
Theorem dhq_pop_correct cl d c :
  dhq_ok d c → (30 ≤ cl)%nat → 0 <= dq_mode d <= 2 →
  match dhq_choice d c with
  | None => c = ([], []) ∧ scx_dhq_pop cl d = Some (NULL, d)
  | Some s => ∃ e l l' d', cget s c = e :: l ∧ scx_dhq_pop cl d = Some (he_elem e, d') ∧
      popped d c s e l' d' ∧ dq_last_strand d' = s ∧
      (dq_mode d = SCX_DHQ_MODE_PRIORITY → ∀ x, x ∈ c.1 ++ c.2 → wt e <= wt x)
  end.
Proof.
  intros Hd Hcl Hm. pose proof (dhq_pop_spec cl Hcl d c Hd (proj1 Hm)) as H. unfold pops in H.
  destruct (dhq_choice d c) as [s|] eqn:E; unfold dhq_choice in E; rewrite (proj2 (Z.ltb_ge _ _)) in E by lia.
  - destruct H as (e & l & l' & d' & Hg & Hrun & Hp & Hl). exists e, l, l', d'. split_and!; try done.
    intros Hpr x Hx. pose proof (po_min _ _ _ _ _ _ Hp) as Hmin. pose proof (ok_strand d c SCX_DHQ_STRAND_A Hd) as Ka. pose proof (ok_strand d c SCX_DHQ_STRAND_B Hd) as Kb.
    apply so_heap, ho_order in Ka. apply so_heap, ho_order in Kb. apply elem_of_app in Hx.
    destruct c as [[|ea la] [|eb lb]]; try done; simpl in E; unfold cget in *; simpl in *.
    + injection E as <-. simpl in *. destruct Hx as [Hx%not_elem_of_nil|Hx]; [done|]. by apply Hmin.
    + injection E as <-. simpl in *. destruct Hx as [Hx|Hx%not_elem_of_nil]; [|done]. by apply Hmin.
    + rewrite Hpr in E. simpl in E. injection E as <-.
      destruct (Z.leb_spec (wt ea) (wt eb)); simpl in *; simplify_eq.
      * destruct Hx as [Hx|Hx]; [by apply Hmin|]. pose proof (heap_head_min _ _ _ Kb Hx). lia.
      * destruct Hx as [Hx|Hx]; [|by apply Hmin]. pose proof (heap_head_min _ _ _ Ka Hx). lia.
  - split; [|done]. destruct c as [[] []]; simpl in E; try done; repeat case_match; done.
Qed.

(** Peek never changes the queue, and returns the task the next pop returns in every state but one, characterised exactly: in priority mode with strand A empty and the root of strand B at key U64_MAX it returns NULL although pop returns that root. *)
Theorem dhq_peek_correct cl d c :
  dhq_ok d c → (30 ≤ cl)%nat → 0 <= dq_mode d <= 2 →
  ∃ v w d', scx_dhq_peek d = Some (v, d) ∧ scx_dhq_pop cl d = Some (w, d') ∧
    (v = w ↔ peek_corner d c = false).
Proof.
  intros Hd Hcl Hm. pose proof (dhq_pop_spec cl Hcl d c Hd (proj1 Hm)) as H. unfold pops in H.
  rewrite (peek_spec d c Hd (proj1 Hm)).
  destruct (dhq_choice d c) as [s|] eqn:E.
  - destruct H as (e & l & l' & d' & Hg & Hrun & Hp & Hl). eexists _, _, _. split_and!; [done|done|].
    simpl. rewrite Hg. destruct (cget_elem_ok d c s e l Hd Hg) as [He _].
    destruct (peek_corner d c); [|done]. split; [|done]. congruence.
  - eexists _, _, _. split_and!; [done|done|]. simpl. split; [intros _|by case_match].
    unfold peek_corner, dhq_choice in *. rewrite (proj2 (Z.ltb_ge _ _)) in E by lia.
    destruct c as [[] []]; simpl in *; rewrite ?andb_false_r; try done; repeat case_match; done.
Qed.

(** In FIFO mode each strand is a first-in first-out queue: an accepted insertion appends the task to the strand's queue, a refused one leaves it, and popping a strand takes the task at the front. *)
Theorem dhq_fifo_correct cl d c t strand q :
  dhq_ok d c → (30 ≤ cl)%nat → t ≠ NULL → dq_fifo d = true →
  let s := select_strand strand d in
  fifo_view (strand_of s d) (cget s c) q → 0 <= ds_seq (strand_of s d) < two64 - 1 →
  (∃ d', scx_dhq_insert cl t strand d = Some (insert_code d c s, d') ∧
     if insert_code d c s =? 0 then
       ∃ l', dhq_ok d' (cset s l' c) ∧
         fifo_view (strand_of s d') l' (q ++ [HeapElem t (ds_seq (strand_of s d))])
     else dhq_ok d' c ∧ fifo_view (strand_of s d') (cget s c) q) ∧
  match q with
  | [] => scx_dhq_pop_strand cl s d = Some (NULL, d)
  | x :: q' => ∃ d' l', scx_dhq_pop_strand cl s d = Some (he_elem x, d') ∧
      dhq_ok d' (cset s l' c) ∧ fifo_view (strand_of s d') l' q'
  end.
Proof.
  intros Hd Hcl Ht Hf s Hv Hseq. split.
  - unfold scx_dhq_insert. rewrite !(ST_bind_run _ _ d _ d eq_refl), Hf. cbn [negb].
    rewrite !(ST_bind_run _ _ d _ d eq_refl). fold s. unfold upd_strand.
    set (key := ds_seq (strand_of s d)) in *.
    set (d1 := with_strand s (with_seq (u64 (key + 1)) (strand_of s d)) d).
    rewrite (ST_bind_run _ _ d _ d1 eq_refl).
    assert (dhq_ok d1 c) as Hd1 by (by apply ok_with_seq).
    assert (ds_seq (strand_of s d1) = key + 1) as Hs1.
    { unfold d1. rewrite strand_with_strand. simpl. apply u64_small. unfold is_u64. lia. }
    pose proof (insert_strand_spec cl d1 c t s key Hd1 Hcl Ht ltac:(unfold is_u64; lia)) as H.
    unfold d1 in H at 1. rewrite insert_code_with_strand in H.
    destruct (Z.eqb_spec (insert_code d c s) 0) as [E|E].
    + destruct H as (l' & h' & Hrun & Hok & Hp). eexists. split; [by rewrite E|].
      exists l'. split; [done|]. eapply fifo_view_insert; [done..| |done].
      rewrite strand_with_strand. simpl. lia.
    + exists d1. split; [by rewrite H; unfold d1; rewrite insert_code_with_strand|]. split; [done|].
      destruct Hv as [? ? Hq]. split; [done..|]. eapply Forall_impl; [exact Hq|]. simpl. lia.
  - unfold scx_dhq_pop_strand. destruct q as [|x q'].
    + apply pop_strand_empty with c; [done|]. destruct Hv as [Hp _ _]. by apply Permutation_nil_l in Hp.
    + destruct (cget s c) as [|e l] eqn:E; [by destruct Hv as [Hp%Permutation_nil_r _ _]|].
      destruct (pop_strand_spec cl Hcl d c s e l Hd E) as (l' & d' & Hrun & Hp & _).
      rewrite <-E in Hv. destruct (fifo_view_pop _ _ q' e x l' (strand_of s d') Hv) as [-> ?]; [apply Hp..|].
      exists d', l'. split_and!; [done|apply Hp|done].
Qed.

(** ** Witnesses: a queue of capacity 8 with two tasks in A and one in B *)
Definition ex_mk (l : list scx_minheap_elem) (seq : Z) : dhq_strand :=
  DhqStrand (Minheap (Z.of_nat (length l)) 4 (l ++ replicate (4 - length l) (HeapElem 0 0)))
    (Z.of_nat (length l)) seq 0.
Definition ex_contents : contents := ([HeapElem 21 3; HeapElem 22 7], [HeapElem 31 5]).
Definition ex_dhq (fifo : bool) (mode : Z) : scx_dhq :=
  Dhq (ex_mk ex_contents.1 8) (ex_mk ex_contents.2 6) 8 2 fifo SCX_DHQ_STRAND_A mode.

Lemma ex_strand_ok l seq :
  (length l ≤ 4)%nat → heap_ordered l → Forall elem_ok l → strand_ok 4 (ex_mk l seq) l.
Proof.
  intros Hl Ho He. split; [|done..]. split; [done|by eexists| |done|done]. simpl.
  rewrite length_app, length_replicate. lia.
Qed.

Lemma ex_dhq_ok fifo mode : dhq_ok (ex_dhq fifo mode) ex_contents.
Proof.
  split; [apply (ex_strand_ok ex_contents.1)|apply (ex_strand_ok ex_contents.2)|done];
    [simpl; lia| |decide_now|simpl; lia| |decide_now];
    intros [|[|i]] Hi; simpl in Hi; first [lia|vm_compute; done].
Qed.

Lemma dhq_insert_correct_witness :
  ∃ l' d', scx_dhq_insert_vtime 30 40 4 SCX_DHQ_STRAND_AUTO (ex_dhq false 1) = Some (0, d') ∧
    dhq_ok d' (cset 1 l' ex_contents) ∧ l' ≡ₚ [HeapElem 40 4; HeapElem 31 5] ∧
    config d' = config (ex_dhq false 1) ∧
    (0 < 2 → Z.of_nat (length l') <= Z.of_nat (length (cget 0 ex_contents)) + 2).
Proof.
  apply (dhq_insert_correct 30 (ex_dhq false 1) ex_contents 40 4 SCX_DHQ_STRAND_AUTO);
    [apply ex_dhq_ok|lia|lia|decide_now].
Defined.

Lemma dhq_pop_correct_witness :
  ∃ e l l' d', cget 0 ex_contents = e :: l ∧
    scx_dhq_pop 30 (ex_dhq false 1) = Some (he_elem e, d') ∧
    popped (ex_dhq false 1) ex_contents 0 e l' d' ∧ dq_last_strand d' = 0 ∧
    (1 = SCX_DHQ_MODE_PRIORITY → ∀ x, x ∈ ex_contents.1 ++ ex_contents.2 → wt e <= wt x).
Proof.
  apply (dhq_pop_correct 30 (ex_dhq false 1) ex_contents); [apply ex_dhq_ok|lia|simpl; lia].
Defined.

(** The corner itself: a single task of key [U64_MAX] in strand B. *)
Definition ex_corner_dhq : scx_dhq :=
  Dhq (ex_mk [] 0) (ex_mk [HeapElem 31 U64_MAX] 0) 8 2 false SCX_DHQ_STRAND_A SCX_DHQ_MODE_PRIORITY.

Lemma ex_corner_ok : dhq_ok ex_corner_dhq ([], [HeapElem 31 U64_MAX]).
Proof.
  split; [apply (ex_strand_ok [])|apply (ex_strand_ok [HeapElem 31 U64_MAX])|done];
    [simpl; lia| |decide_now|simpl; lia| |decide_now];
    intros [|i] Hi; simpl in Hi; lia.
Qed.

Lemma dhq_peek_correct_witness :
  (result (scx_dhq_peek ex_corner_dhq) = Some 0 ∧ result (scx_dhq_pop 30 ex_corner_dhq) = Some 31) ∧
  (∃ v w d', scx_dhq_peek ex_corner_dhq = Some (v, ex_corner_dhq) ∧
     scx_dhq_pop 30 ex_corner_dhq = Some (w, d') ∧
     (v = w ↔ peek_corner ex_corner_dhq ([], [HeapElem 31 U64_MAX]) = false)) ∧
  (∃ v w d', scx_dhq_peek (ex_dhq false 0) = Some (v, ex_dhq false 0) ∧
     scx_dhq_pop 30 (ex_dhq false 0) = Some (w, d') ∧
     (v = w ↔ peek_corner (ex_dhq false 0) ex_contents = false)).
Proof.
  split; [split; vm_compute; reflexivity|]. split.
  - apply (dhq_peek_correct 30 ex_corner_dhq); [apply ex_corner_ok|lia|vm_compute; done].
  - apply (dhq_peek_correct 30 (ex_dhq false 0)); [apply ex_dhq_ok|lia|vm_compute; done].
Defined.

Lemma dhq_fifo_correct_witness :
  (∃ d', scx_dhq_insert 30 40 0 (ex_dhq true 0) = Some (0, d') ∧
     ∃ l', dhq_ok d' (cset 0 l' ex_contents) ∧
       fifo_view (strand_of 0 d') l' [HeapElem 21 3; HeapElem 22 7; HeapElem 40 8]) ∧
  ∃ d' l', scx_dhq_pop_strand 30 0 (ex_dhq true 0) = Some (21, d') ∧
    dhq_ok d' (cset 0 l' ex_contents) ∧ fifo_view (strand_of 0 d') l' [HeapElem 22 7].
Proof.
  apply (dhq_fifo_correct 30 (ex_dhq true 0) ex_contents 40 0 [HeapElem 21 3; HeapElem 22 7]);
    [apply ex_dhq_ok|lia|lia|done| |vm_compute; done].
  split; [done|repeat constructor|repeat constructor].
Defined.
