(* ===== verification/ScxTime.v ===== *)
(** * Wrapping time comparisons: the time helpers of [scx/common.bpf.h]

    Virtual times are [u64] values that wrap.  [time_before] and its
    relatives compare by the sign of the difference, which is an order only
    among times less than [2^63] apart.  A window is a set of times at
    distance less than [2^63] after a base; inside it the comparisons agree
    with the order of the distances. *)

From S2P Require Import Prelude.

Definition time_delta (after before : Z) : Z :=
  if 0 <? s64 (after - before) then s64 (after - before) else 0.
Definition time_after (a b : Z) : bool := s64 (b - a) <? 0.
Definition time_before (a b : Z) : bool := time_after b a.
Definition time_after_eq (a b : Z) : bool := 0 <=? s64 (a - b).
Definition time_before_eq (a b : Z) : bool := time_after_eq b a.
Definition time_in_range (a b c : Z) : bool := time_after_eq a b && time_before_eq a c.
Definition time_in_range_open (a b c : Z) : bool := time_after_eq a b && time_before a c.

(** The distance of [t] after [base]. *)
Definition off (base t : Z) : Z := u64 (t - base).

(** [t] is a time of the window that starts at [base]. *)
Definition in_window (base t : Z) : Prop := is_u64 t ∧ off base t < two63.

#[global] Instance in_window_dec base t : Decision (in_window base t).
Proof. unfold in_window. apply _. Defined.

Lemma off_range base t : 0 <= off base t < two64.
Proof. apply u64_range. Qed.

(** The sign of a wrapped difference of two distances below [2^63]. *)
Lemma s64_off base a b :
  in_window base a → in_window base b → s64 (a - b) = off base a - off base b.
Proof.
  intros [_ Ha] [_ Hb]. pose proof (off_range base a). pose proof (off_range base b).
  unfold s64. replace ((a - b) mod two64) with ((off base a - off base b) mod two64).
  - unfold two63, two64 in *. destruct (Z.le_gt_cases (off base b) (off base a)).
    + rewrite Z.mod_small by lia. rewrite (proj2 (Z.ltb_lt _ _)) by lia. lia.
    + rewrite <-(Z_mod_plus_full _ 1), Z.mod_small by lia. rewrite (proj2 (Z.ltb_ge _ _)) by lia. lia.
  - unfold off, u64. rewrite <-Zminus_mod. f_equal. lia.
Qed.

Lemma time_before_off base a b :
  in_window base a → in_window base b → time_before a b = (off base a <? off base b).
Proof.
  intros Ha Hb. unfold time_before, time_after. rewrite (s64_off base) by done.
  destruct (Z.ltb_spec (off base a) (off base b));
    [apply Z.ltb_lt|apply Z.ltb_ge]; lia.
Qed.

Lemma time_before_eq_off base a b :
  in_window base a → in_window base b → time_before_eq a b = (off base a <=? off base b).
Proof.
  intros Ha Hb. unfold time_before_eq, time_after_eq. rewrite (s64_off base) by done.
  destruct (Z.leb_spec (off base a) (off base b)); [apply Z.leb_le|apply Z.leb_gt]; lia.
Qed.

Lemma off_inj base a b : is_u64 a → is_u64 b → off base a = off base b → a = b.
Proof.
  unfold off, u64, is_u64. intros Ha Hb E.
  rewrite <-(Z.mod_small a two64), <-(Z.mod_small b two64) by done.
  replace a with ((a - base) + base) by lia. replace b with ((b - base) + base) by lia.
  by rewrite Zplus_mod, E, <-Zplus_mod.
Qed.
