(* ===== verification/Edq.v ===== *)
(** * The eligible deadline queue: [lib/edq.bpf.c], [include/lib/edq.h]

    An intrusive red-black tree ordered by deadline and arrival, in which
    every node caches the least eligibility time and the shortest slice of
    its subtree.  [struct scx_edq_node node] is the first member of
    [struct scx_edq_task], so a task and its node have the same address and
    [node_task] is the identity.

    Everything between [scx_edq_lock] and [scx_edq_unlock] is one transition.
    An operation takes as [lk] the value its [scx_edq_lock] or
    [scx_edq_trylock] returns.  A [while (... && can_loop)] loop takes the
    remaining [can_loop] budget; the colour is a [bool], [true] for
    [EDQ_RED]; [dir] is [false] for left.  [scx_bpf_error] sets [es_error]. *)

From S2P Require Import Prelude ArenaTree RedBlack ScxTime.

Definition SCX_EDQ_DEAD : Z := 1.
Definition SCX_EDQ_CURSOR_AFTER : Z := 1.
Definition SCX_EDQ_CURSOR_AT : Z := 2.

(** [struct scx_edq_node] *)
Record scx_edq_node : Type := EdqNode {
  en_parent : Z;
  en_left : Z;
  en_right : Z;
  en_deadline : Z;
  en_eligibility : Z;
  en_min_eligibility : Z;
  en_slice : Z;
  en_min_slice : Z;
  en_seq : Z;
  en_red : bool;
}.

(** [struct scx_edq_task], its node aside. *)
Record scx_edq_task : Type := EdqTask { et_holdcnt : Z; et_edq : Z }.

(** [struct scx_edq_cursor] *)
Record scx_edq_cursor : Type := EdqCursor { cu_deadline : Z; cu_seq : Z; cu_valid : Z }.

(** [struct scx_edq], its lock aside. *)
Record scx_edq : Type := Edq {
  eq_root : Z;
  eq_first : Z;
  eq_first_deadline : Z;
  eq_min_slice : Z;
  eq_nr : Z;
  eq_seq : Z;
}.

Record edq_state : Type := EdqState {
  es_nodes : gmap Z scx_edq_node;
  es_tasks : gmap Z scx_edq_task;
  es_queues : gmap Z scx_edq;
  es_error : bool;
}.

(** ** Field updates *)
Definition set_parent (p : Z) (n : scx_edq_node) : scx_edq_node :=
  EdqNode p (en_left n) (en_right n) (en_deadline n) (en_eligibility n) (en_min_eligibility n)
    (en_slice n) (en_min_slice n) (en_seq n) (en_red n).
Definition set_left (p : Z) (n : scx_edq_node) : scx_edq_node :=
  EdqNode (en_parent n) p (en_right n) (en_deadline n) (en_eligibility n) (en_min_eligibility n)
    (en_slice n) (en_min_slice n) (en_seq n) (en_red n).
Definition set_right (p : Z) (n : scx_edq_node) : scx_edq_node :=
  EdqNode (en_parent n) (en_left n) p (en_deadline n) (en_eligibility n) (en_min_eligibility n)
    (en_slice n) (en_min_slice n) (en_seq n) (en_red n).
Definition set_mins (me ms : Z) (n : scx_edq_node) : scx_edq_node :=
  EdqNode (en_parent n) (en_left n) (en_right n) (en_deadline n) (en_eligibility n) me
    (en_slice n) ms (en_seq n) (en_red n).
Definition set_red (b : bool) (n : scx_edq_node) : scx_edq_node :=
  EdqNode (en_parent n) (en_left n) (en_right n) (en_deadline n) (en_eligibility n) (en_min_eligibility n)
    (en_slice n) (en_min_slice n) (en_seq n) b.

(** The [left] and [right] fields by direction. *)
Definition en_child (dir : bool) (n : scx_edq_node) : Z := if dir then en_right n else en_left n.
Definition set_child (dir : bool) (p : Z) (n : scx_edq_node) : scx_edq_node :=
  if dir then set_right p n else set_left p n.

Definition set_root (p : Z) (q : scx_edq) : scx_edq :=
  Edq p (eq_first q) (eq_first_deadline q) (eq_min_slice q) (eq_nr q) (eq_seq q).
Definition set_first (p dl : Z) (q : scx_edq) : scx_edq :=
  Edq (eq_root q) p dl (eq_min_slice q) (eq_nr q) (eq_seq q).
Definition set_min_slice (z : Z) (q : scx_edq) : scx_edq :=
  Edq (eq_root q) (eq_first q) (eq_first_deadline q) z (eq_nr q) (eq_seq q).
Definition set_nr (z : Z) (q : scx_edq) : scx_edq :=
  Edq (eq_root q) (eq_first q) (eq_first_deadline q) (eq_min_slice q) z (eq_seq q).
Definition set_seq (z : Z) (q : scx_edq) : scx_edq :=
  Edq (eq_root q) (eq_first q) (eq_first_deadline q) (eq_min_slice q) (eq_nr q) z.

Definition set_holdcnt (z : Z) (t : scx_edq_task) : scx_edq_task := EdqTask z (et_edq t).
Definition set_edq (z : Z) (t : scx_edq_task) : scx_edq_task := EdqTask (et_holdcnt t) z.

Abbreviation EM X := (ST edq_state X).

(** ** Memory accesses to nodes, tasks and queues *)
Definition ern {X} (a : Z) (f : scx_edq_node → X) : EM X := λ s,
  match es_nodes s !! a with Some n => Some (f n, s) | None => None end.
Definition ewn (a : Z) (f : scx_edq_node → scx_edq_node) : EM unit := λ s,
  match es_nodes s !! a with
  | Some n => Some (tt, EdqState (<[a := f n]> (es_nodes s)) (es_tasks s) (es_queues s) (es_error s))
  | None => None
  end.
Definition ert {X} (a : Z) (f : scx_edq_task → X) : EM X := λ s,
  match es_tasks s !! a with Some n => Some (f n, s) | None => None end.
Definition ewt (a : Z) (f : scx_edq_task → scx_edq_task) : EM unit := λ s,
  match es_tasks s !! a with
  | Some n => Some (tt, EdqState (es_nodes s) (<[a := f n]> (es_tasks s)) (es_queues s) (es_error s))
  | None => None
  end.
Definition erq {X} (a : Z) (f : scx_edq → X) : EM X := λ s,
  match es_queues s !! a with Some n => Some (f n, s) | None => None end.
Definition ewq (a : Z) (f : scx_edq → scx_edq) : EM unit := λ s,
  match es_queues s !! a with
  | Some n => Some (tt, EdqState (es_nodes s) (es_tasks s) (<[a := f n]> (es_queues s)) (es_error s))
  | None => None
  end.
Definition scx_bpf_error : EM unit := λ s,
  Some (tt, EdqState (es_nodes s) (es_tasks s) (es_queues s) true).

(** ** Nodes *)
Definition node_red (p : Z) : EM bool := if p =? NULL then mret false else ern p en_red.

(** The comparison of [node_less] on the two keys. *)
Definition key_less (da sa db sb : Z) : bool :=
  if negb (da =? db) then time_before da db else sa <? sb.

Definition node_less (a b : Z) : EM bool :=
  na ← ern a id;
  nb ← ern b id;
  mret (key_less (en_deadline na) (en_seq na) (en_deadline nb) (en_seq nb)).

Definition is_eligible (eligibility cutoff : Z) : bool := time_before_eq eligibility cutoff.

Definition node_clear_links (node : Z) : EM unit :=
  ewn node (set_parent NULL);; ewn node (set_left NULL);; ewn node (set_right NULL).

(** One [if (child && time_before(child->min_eligibility, min_eligibility))]. *)
Definition min_el_child (child m : Z) : EM Z :=
  if child =? NULL then mret m else
  cm ← ern child en_min_eligibility;
  mret (if time_before cm m then cm else m).
(** One [if (child && child->min_slice < min_slice)]. *)
Definition min_sl_child (child m : Z) : EM Z :=
  if child =? NULL then mret m else
  cm ← ern child en_min_slice;
  mret (if cm <? m then cm else m).

Definition node_update (node : Z) : EM unit :=
  n ← ern node id;
  me ← min_el_child (en_left n) (en_eligibility n);
  me ← min_el_child (en_right n) me;
  ms ← min_sl_child (en_left n) (en_slice n);
  ms ← min_sl_child (en_right n) ms;
  ewn node (set_mins me ms).

Definition rotate_aug (node pivot : Z) : EM unit :=
  n ← ern node id;
  ewn pivot (set_mins (en_min_eligibility n) (en_min_slice n));;
  node_update node.

Definition replace_child (edq parent old new : Z) : EM unit :=
  (if parent =? NULL then ewq edq (set_root new) else
   l ← ern parent en_left;
   if l =? old then ewn parent (set_left new) else ewn parent (set_right new));;
  if new =? NULL then mret tt else ewn new (set_parent parent).

(** [rotate_left] for [dir = false], [rotate_right] for [dir = true]: the two
    functions are mirror images. *)
Definition rotate (dir : bool) (edq node : Z) : EM Z :=
  pivot ← ern node (en_child (negb dir));
  parent ← ern node en_parent;
  replace_child edq parent node pivot;;
  c ← ern pivot (en_child dir);
  ewn node (set_child (negb dir) c);;
  (if c =? NULL then mret tt else ewn c (set_parent node));;
  ewn pivot (set_child dir node);;
  ewn node (set_parent pivot);;
  rotate_aug node pivot;;
  mret pivot.
Definition rotate_left : Z → Z → EM Z := rotate false.
Definition rotate_right : Z → Z → EM Z := rotate true.

(** ** Loops *)
Section loops.
Context (cl : nat).

Fixpoint propagate_loop (cl : nat) (node stop : Z) : EM Z :=
  if (node =? NULL) || (node =? stop) then mret 0 else
  match cl with
  | O => mret (- E2BIG)
  | S cl =>
      n0 ← ern node id;
      node_update node;;
      n1 ← ern node id;
      if (en_min_eligibility n1 =? en_min_eligibility n0) && (en_min_slice n1 =? en_min_slice n0)
      then mret 0 else
      propagate_loop cl (en_parent n1) stop
  end.
Definition propagate (node stop : Z) : EM Z := propagate_loop cl node stop.

(** One side of [insert_fixup] below the grandparent's [dir] child; the
    result is [Some] node to continue with. *)
Definition insert_fixup_side (dir : bool) (edq node parent gparent : Z) : EM (option Z) :=
  uncle ← ern gparent (en_child (negb dir));
  r ← node_red uncle;
  if (r : bool) then
    ewn uncle (set_red false);;
    ewn parent (set_red false);;
    ewn gparent (set_red true);;
    mret (Some gparent)
  else
    inner ← ern parent (en_child (negb dir));
    parent ← (if node =? inner then rotate dir edq parent;; mret node else mret parent);
    ewn parent (set_red false);;
    ewn gparent (set_red true);;
    rotate (negb dir) edq gparent;;
    mret None.

Fixpoint insert_fixup_loop (cl : nat) (edq node : Z) : EM Z :=
  match cl with
  | O => mret (- E2BIG)
  | S cl =>
      parent ← ern node en_parent;
      if parent =? NULL then ewn node (set_red false);; mret 0 else
      pr ← ern parent en_red;
      if negb pr then mret 0 else
      gparent ← ern parent en_parent;
      if gparent =? NULL then mret (- EINVAL) else
      gl ← ern gparent en_left;
      next ← insert_fixup_side (negb (parent =? gl)) edq node parent gparent;
      match next with
      | Some g => insert_fixup_loop cl edq g
      | None => mret 0
      end
  end.
Definition insert_fixup (edq node : Z) : EM Z := insert_fixup_loop cl edq node.

(** The end of one side of [erase_fixup]: a black sibling with a red child. *)
Definition erase_rotate (dir : bool) (edq parent sibling : Z) : EM unit :=
  far ← ern sibling (en_child (negb dir));
  farred ← node_red far;
  sibling ← (if negb farred then
      near ← ern sibling (en_child dir);
      ewn near (set_red false);;
      ewn sibling (set_red true);;
      rotate (negb dir) edq sibling
    else mret sibling);
  pc ← ern parent en_red;
  ewn sibling (set_red pc);;
  ewn parent (set_red false);;
  far ← ern sibling (en_child (negb dir));
  ewn far (set_red false);;
  rotate dir edq parent;;
  mret tt.

(** One side of [erase_fixup], the short side being the [dir] child: either
    the value to return or the next node and parent. *)
Definition erase_fixup_side (dir : bool) (edq parent : Z) : EM (Z + Z * Z) :=
  sibling ← ern parent (en_child (negb dir));
  if sibling =? NULL then mret (inl (- EINVAL)) else
  sr ← node_red sibling;
  sibling ← (if (sr : bool) then
      ewn sibling (set_red false);;
      ewn parent (set_red true);;
      rotate dir edq parent;;
      ern parent (en_child (negb dir))
    else mret sibling);
  if (sr : bool) && (sibling =? NULL) then mret (inl (- EINVAL)) else
  l ← ern sibling en_left;
  lr ← node_red l;
  r ← ern sibling en_right;
  rr ← (if (lr : bool) then mret true else node_red r);
  if negb (lr || rr) then
    ewn sibling (set_red true);;
    pc ← ern parent en_red;
    if (pc : bool) then ewn parent (set_red false);; mret (inl 0) else
    gp ← ern parent en_parent;
    mret (inr (parent, gp))
  else
    erase_rotate dir edq parent sibling;;
    mret (inl 0).

Fixpoint erase_fixup_loop (cl : nat) (edq node parent : Z) : EM Z :=
  if parent =? NULL then mret 0 else
  match cl with
  | O => mret (- E2BIG)
  | S cl =>
      l ← ern parent en_left;
      next ← erase_fixup_side (negb (node =? l)) edq parent;
      match next with
      | inl ret => mret ret
      | inr (node, parent) => erase_fixup_loop cl edq node parent
      end
  end.
Definition erase_fixup (edq parent : Z) : EM Z := erase_fixup_loop cl edq NULL parent.

Fixpoint leftmost_loop (cl : nat) (node : Z) : EM Z :=
  l ← ern node en_left;
  if l =? NULL then mret node else
  match cl with
  | O => mret NULL
  | S cl => leftmost_loop cl l
  end.
Definition leftmost (node : Z) : EM Z :=
  if node =? NULL then mret NULL else leftmost_loop cl node.

Fixpoint next_loop (cl : nat) (node : Z) : EM Z :=
  parent ← ern node en_parent;
  if parent =? NULL then mret NULL else
  r ← ern parent en_right;
  if negb (node =? r) then mret parent else
  match cl with
  | O => mret NULL
  | S cl => next_loop cl parent
  end.
Definition next_node (node : Z) : EM Z :=
  r ← ern node en_right;
  if negb (r =? NULL) then leftmost r else next_loop cl node.

(** ** Removal *)

(** [remove_locked] on a node with at most one child: relink, and return
    [rebalance] and [propagate_from]. *)
Definition splice_out (edq node : Z) : EM (Z * Z) :=
  n ← ern node id;
  let child := if en_left n =? NULL then en_right n else en_left n in
  rebalance ← (if negb (child =? NULL) then ewn child (set_red (en_red n));; mret NULL
               else if negb (en_red n) then mret (en_parent n) else mret NULL);
  replace_child edq (en_parent n) node child;;
  mret (rebalance, en_parent n).

(** [remove_locked] on a node with two children: its successor takes its
    place.  The first component of the result is an error code. *)
Definition replace_by_successor (edq node : Z) : EM (Z * (Z * Z)) :=
  successor ← ern node en_right;
  color ← ern node en_red;
  sl ← ern successor en_left;
  '(err, successor, parent, child) ←
    (if sl =? NULL then
       child ← ern successor en_right;
       mret (0, successor, successor, child)
     else
       successor ← leftmost successor;
       if successor =? NULL then mret (- E2BIG, NULL, NULL, NULL) else
       parent ← ern successor en_parent;
       child ← ern successor en_right;
       ewn parent (set_left child);;
       (if child =? NULL then mret tt else ewn child (set_parent parent));;
       nr ← ern node en_right;
       ewn successor (set_right nr);;
       ewn nr (set_parent successor);;
       mret (0, successor, parent, child) : EM (Z * Z * Z * Z));
  if negb (err =? 0) then mret (err, (NULL, NULL)) else
  n ← ern node id;
  ewn successor (set_mins (en_min_eligibility n) (en_min_slice n));;
  ret ← (if parent =? successor then mret 0 else propagate parent successor);
  if negb (ret =? 0) then mret (ret, (NULL, NULL)) else
  nl ← ern node en_left;
  ewn successor (set_left nl);;
  ewn nl (set_parent successor);;
  np ← ern node en_parent;
  replace_child edq np node successor;;
  rebalance ← (if negb (child =? NULL) then ewn child (set_red false);; mret NULL
               else sr ← ern successor en_red; mret (if negb sr then parent else NULL));
  ewn successor (set_red color);;
  mret (0, (rebalance, successor)).

Definition remove_locked (edq task : Z) (dead : bool) : EM Z :=
  let node := task in
  owner ← ert task et_edq;
  if negb (owner =? edq) then mret (- EINVAL) else
  first ← erq edq eq_first;
  n ← ern node id;
  next_first ← (if first =? node then
      if negb (en_right n =? NULL) then leftmost (en_right n) else mret (en_parent n)
    else mret NULL);
  if (first =? node) && negb (en_right n =? NULL) && (next_first =? NULL) then mret (- E2BIG) else
  '(err, (rebalance, propagate_from)) ←
    (if (en_left n =? NULL) || (en_right n =? NULL)
     then p ← splice_out edq node; mret (0, p)
     else replace_by_successor edq node);
  if negb (err =? 0) then mret err else
  ewq edq (λ q, set_nr (u64 (eq_nr q - 1)) q);;
  (if first =? node then
     dl ← (if next_first =? NULL then mret 0 else ern next_first en_deadline);
     ewq edq (set_first next_first dl)
   else mret tt);;
  node_clear_links node;;
  ewn node (set_red true);;
  ewn node (λ n, set_mins (en_eligibility n) (en_slice n) n);;
  ret ← propagate propagate_from NULL;
  ret ← (if (ret =? 0) && negb (rebalance =? NULL) then erase_fixup edq rebalance else mret ret);
  root ← erq edq eq_root;
  ms ← (if root =? NULL then mret 0 else ern root en_min_slice);
  ewq edq (set_min_slice ms);;
  ewt task (set_edq (if dead then SCX_EDQ_DEAD else NULL));;
  mret ret.

(** ** Insertion *)

(** The search for the insertion point: the last node seen and whether the
    search ended. *)
Fixpoint insert_find_loop (cl : nat) (node parent cur : Z) : EM (Z * Z) :=
  if cur =? NULL then mret (parent, NULL) else
  match cl with
  | O => mret (parent, cur)
  | S cl =>
      less ← node_less node cur;
      next ← ern cur (if (less : bool) then en_left else en_right);
      insert_find_loop cl node cur next
  end.

Definition scx_edq_insert (lk edq task deadline eligibility slice : Z) : EM Z :=
  let node := task in
  if negb (lk =? 0) then mret lk else
  old ← ert task et_edq;
  (if old =? NULL then ewt task (set_edq edq) else mret tt);;
  if negb (old =? NULL) then
    mret (if old =? SCX_EDQ_DEAD then - ECANCELED else - EALREADY)
  else
  node_clear_links node;;
  seq ← erq edq eq_seq;
  ewn node (λ n, EdqNode (en_parent n) (en_left n) (en_right n) deadline eligibility eligibility
                   slice slice seq true);;
  ewq edq (set_seq (u64 (seq + 1)));;
  root ← erq edq eq_root;
  '(parent, cur) ← insert_find_loop cl node NULL root;
  if negb (cur =? NULL) then ewt task (set_edq NULL);; mret (- E2BIG) else
  ewn node (set_parent parent);;
  (if parent =? NULL then ewq edq (set_root node) else
   less ← node_less node parent;
   if (less : bool) then ewn parent (set_left node) else ewn parent (set_right node));;
  first ← erq edq eq_first;
  lessf ← (if first =? NULL then mret true else node_less node first);
  (if (lessf : bool) then ewq edq (set_first node deadline) else mret tt);;
  ewq edq (λ q, set_nr (u64 (eq_nr q + 1)) q);;
  ret ← propagate parent NULL;
  ret ← (if ret =? 0 then insert_fixup edq node else mret ret);
  root ← erq edq eq_root;
  ms ← (if root =? NULL then mret 0 else ern root en_min_slice);
  ewq edq (set_min_slice ms);;
  mret ret.

Definition scx_edq_remove (lk edq task : Z) : EM Z :=
  if negb (lk =? 0) then mret lk else remove_locked edq task false.
Definition scx_edq_try_remove (lk edq task : Z) : EM Z :=
  if negb (lk =? 0) then mret lk else remove_locked edq task false.

(** ** Search by eligibility *)
Definition subtree_eligible (p cutoff : Z) : EM bool :=
  if p =? NULL then mret false else
  m ← ern p en_min_eligibility;
  mret (is_eligible m cutoff).

Fixpoint first_eligible_loop (cl : nat) (node cutoff : Z) : EM Z :=
  if node =? NULL then mret NULL else
  match cl with
  | O => mret NULL
  | S cl =>
      n ← ern node id;
      le ← subtree_eligible (en_left n) cutoff;
      if (le : bool) then first_eligible_loop cl (en_left n) cutoff else
      if is_eligible (en_eligibility n) cutoff then mret node else
      re ← subtree_eligible (en_right n) cutoff;
      if (re : bool) then first_eligible_loop cl (en_right n) cutoff else
      mret NULL
  end.

Definition first_eligible (edq cutoff : Z) : EM Z :=
  node ← erq edq eq_root;
  e ← subtree_eligible node cutoff;
  if negb e then mret NULL else first_eligible_loop cl node cutoff.

(** [holdcnt] is an [int] changed by atomic additions. *)
Definition scx_edq_task_hold (task : Z) : EM unit :=
  ewt task (λ t, set_holdcnt (s32 (et_holdcnt t + 1)) t).
Definition scx_edq_task_drop (task : Z) : EM unit :=
  ewt task (λ t, set_holdcnt (s32 (et_holdcnt t - 1)) t).

Definition pop_node_locked (edq node : Z) (hold : bool) : EM Z :=
  if node =? NULL then mret NULL else
  (if hold then scx_edq_task_hold node else mret tt);;
  ret ← remove_locked edq node false;
  if negb (ret =? 0) then
    (if hold then scx_edq_task_drop node else mret tt);;
    scx_bpf_error;;
    mret NULL
  else mret node.

Definition scx_edq_pop (lk edq : Z) (hold : bool) : EM Z :=
  if negb (lk =? 0) then mret 0 else
  first ← erq edq eq_first;
  pop_node_locked edq first hold.

Definition scx_edq_pop_first_eligible (lk edq cutoff : Z) (hold : bool) : EM Z :=
  if negb (lk =? 0) then mret 0 else
  node ← first_eligible edq cutoff;
  pop_node_locked edq node hold.

Definition scx_edq_pop_first_eligible_or_first (lk edq cutoff : Z) (hold : bool) : EM Z :=
  if negb (lk =? 0) then mret 0 else
  node ← first_eligible edq cutoff;
  node ← (if node =? NULL then erq edq eq_first else mret node);
  pop_node_locked edq node hold.

(** The return code and what is stored through [deadline] and [min_slice]. *)
Definition scx_edq_try_first_eligible_deadline (lk edq cutoff : Z) : EM (Z * Z * Z) :=
  if negb (lk =? 0) then mret (lk, 0, 0) else
  root ← erq edq eq_root;
  min_slice ← (if root =? NULL then mret 0 else ern root en_min_slice);
  node ← first_eligible edq cutoff;
  if negb (node =? NULL) then
    deadline ← ern node en_deadline;
    mret (0, deadline, min_slice)
  else mret (- ENOENT, 0, min_slice).

(** ** Peeking *)
Definition hold_node (node : Z) : EM Z :=
  if node =? NULL then mret NULL else scx_edq_task_hold node;; mret node.

Definition scx_edq_peek_hold (lk edq : Z) : EM Z :=
  if negb (lk =? 0) then mret 0 else
  first ← erq edq eq_first;
  hold_node first.

Definition scx_edq_try_peek_hold (lk edq : Z) : EM (Z * Z) :=
  if negb (lk =? 0) then mret (lk, 0) else
  first ← erq edq eq_first;
  task ← hold_node first;
  mret (0, task).

Fixpoint nth_loop (cl' : nat) (node nth : Z) : EM (Z * Z) :=
  if (node =? NULL) || (nth =? 0) then mret (node, nth) else
  match cl' with
  | O => mret (node, nth)
  | S cl' => next ← next_node node; nth_loop cl' next (nth - 1)
  end.

Definition scx_edq_try_peek_nth_hold (lk edq nth : Z) : EM (Z * Z) :=
  if negb (lk =? 0) then mret (lk, 0) else
  first ← erq edq eq_first;
  '(node, nth) ← nth_loop cl first nth;
  if negb (node =? NULL) && negb (nth =? 0) then mret (- E2BIG, 0) else
  task ← hold_node node;
  mret (0, task).

(** [key_before] of the cursor search. *)
Definition cursor_before (include : bool) (cursor : scx_edq_cursor) (deadline seq : Z) : bool :=
  if negb (cu_deadline cursor =? deadline) then time_before (cu_deadline cursor) deadline
  else (cu_seq cursor <? seq) || (include && (cu_seq cursor =? seq)).

Fixpoint cursor_loop (cl : nat) (include : bool) (cursor : scx_edq_cursor) (node next : Z)
    : EM (Z * Z) :=
  if node =? NULL then mret (NULL, next) else
  match cl with
  | O => mret (node, next)
  | S cl =>
      n ← ern node id;
      if cursor_before include cursor (en_deadline n) (en_seq n)
      then cursor_loop cl include cursor (en_left n) node
      else cursor_loop cl include cursor (en_right n) next
  end.

(** The return code, the cursor afterwards and what is stored through
    [taskp]. *)
Definition scx_edq_try_peek_next_hold (lk edq : Z) (cursor : scx_edq_cursor)
    : EM (Z * scx_edq_cursor * Z) :=
  if negb (lk =? 0) then mret (lk, cursor, 0) else
  '(ret, next) ← (if cu_valid cursor =? 0 then first ← erq edq eq_first; mret (0, first) else
     root ← erq edq eq_root;
     '(node, next) ← cursor_loop cl (cu_valid cursor =? SCX_EDQ_CURSOR_AT) cursor root NULL;
     mret (if negb (node =? NULL) then - E2BIG else 0, next) : EM (Z * Z));
  if negb (ret =? 0) then mret (ret, cursor, 0) else
  if negb (next =? NULL) then
    scx_edq_task_hold next;;
    n ← ern next id;
    mret (0, EdqCursor (en_deadline n) (en_seq n) SCX_EDQ_CURSOR_AFTER, next)
  else mret (0, EdqCursor (cu_deadline cursor) (cu_seq cursor) 0, 0).

Definition scx_edq_cursor_reset (cursor : scx_edq_cursor) : scx_edq_cursor :=
  EdqCursor (cu_deadline cursor) (cu_seq cursor) 0.

(** ** Lockless reads *)
Definition scx_edq_nr_queued (edq : Z) : EM Z := erq edq eq_nr.

Definition scx_edq_first_deadline (edq : Z) : EM (Z * Z) :=
  dl ← erq edq eq_first_deadline;
  nr ← erq edq eq_nr;
  mret (if negb (nr =? 0) then 0 else - ENOENT, dl).

Definition scx_edq_min_slice (edq : Z) : EM (Z * Z) :=
  ms ← erq edq eq_min_slice;
  mret (if negb (ms =? 0) then 0 else - ENOENT, ms).

(** ** Task life cycle *)
Definition scx_edq_task_init (task : Z) : EM Z :=
  node_clear_links task;;
  ewn task (λ n, EdqNode (en_parent n) (en_left n) (en_right n) 0 0 0 0 0 0 true);;
  ewt task (set_holdcnt 0);;
  ewt task (set_edq NULL);;
  mret 0.

(** The reads of [task->edq] outside the lock interleave with other CPUs:
    [env] gives, for each remaining budget, the change of the store by the
    others before the lock is taken, and [lk] what taking the lock returns. *)
Fixpoint fini_loop (cl' : nat) (env : nat → edq_state → edq_state) (lk : nat → Z) (task : Z) : EM Z :=
  match cl' with
  | O => mret (- E2BIG)
  | S cl' =>
      edq ← ert task et_edq;
      if (edq =? NULL) || (edq =? SCX_EDQ_DEAD) then mret 0 else
      modifies (env cl');;
      ret ← scx_edq_remove (lk cl') edq task;
      if ret =? - EINVAL then fini_loop cl' env lk task else
      mret (if negb (ret =? 0) then ret else 1)
  end.
Definition scx_edq_task_fini (env : nat → edq_state → edq_state) (lk : nat → Z) (task : Z) : EM Z :=
  fini_loop cl env lk task.

(** The first loop of [scx_edq_task_detach]: [None] when it falls through to
    the wait, [Some] code when the function returns. *)
Fixpoint edq_detach_loop (cl' : nat) (env : nat → edq_state → edq_state) (lk : nat → Z) (task : Z)
    : EM (option Z) :=
  match cl' with
  | O => mret None
  | S cl' =>
      edq ← ert task et_edq;
      if edq =? SCX_EDQ_DEAD then mret None else
      modifies (env cl');;
      if edq =? NULL then
        old ← ert task et_edq;
        if old =? NULL then ewt task (set_edq SCX_EDQ_DEAD);; mret None
        else edq_detach_loop cl' env lk task
      else
        if negb (lk cl' =? 0) then mret (Some (lk cl')) else
        cur ← ert task et_edq;
        if negb (cur =? edq) then edq_detach_loop cl' env lk task else
        ret ← remove_locked edq task true;
        if negb (ret =? 0) then mret (Some ret) else mret None
  end.

(** The wait loop reads [holdcnt] until it is not positive; [env] changes the
    store between the reads. *)
Fixpoint edq_wait_loop (cl' : nat) (env : nat → edq_state → edq_state) (task : Z) : EM Z :=
  holdcnt ← ert task et_holdcnt;
  if negb (0 <? holdcnt) then mret 0 else
  match cl' with
  | O => mret (- E2BIG)
  | S cl' => modifies (env cl');; edq_wait_loop cl' env task
  end.

Definition scx_edq_task_detach (env wenv : nat → edq_state → edq_state) (lk : nat → Z) (task : Z) : EM Z :=
  out ← edq_detach_loop cl env lk task;
  match out with
  | Some ret => mret ret
  | None => edq_wait_loop cl wenv task
  end.
End loops.
