(* ===== verification/EdqBase.v ===== *)
(** * Eligible deadline queue: layout, cached minimums, rotation

    The payload of a node, the layout of a queue's tree in the store, the
    consistency of the cached minimums, and the steps the rebalancing loops
    are made of: repainting, refreshing a node's minimums, rotating. *)

From S2P Require Import Prelude ArenaTree RedBlack ScxTime Edq.

(** ** Payload *)
Record eddata : Type := EdData {
  dd_deadline : Z;
  dd_el : Z;
  dd_mel : Z;
  dd_sl : Z;
  dd_msl : Z;
  dd_seq : Z;
  dd_red : bool;
}.

Definition ed_mk (p l r : Z) (d : eddata) : scx_edq_node :=
  EdqNode p l r (dd_deadline d) (dd_el d) (dd_mel d) (dd_sl d) (dd_msl d) (dd_seq d) (dd_red d).
Arguments ed_mk _ _ _ _ /.

Definition paint (b : bool) (d : eddata) : eddata :=
  EdData (dd_deadline d) (dd_el d) (dd_mel d) (dd_sl d) (dd_msl d) (dd_seq d) b.
Definition with_mins (m : Z * Z) (d : eddata) : eddata :=
  EdData (dd_deadline d) (dd_el d) m.1 (dd_sl d) m.2 (dd_seq d) (dd_red d).
Arguments paint _ _ /.
Arguments with_mins _ _ /.

(** What a queue stores, colours and cached minimums aside. *)
Record edent : Type := EdEnt { ee_addr : Z; ee_deadline : Z; ee_el : Z; ee_sl : Z; ee_seq : Z }.
Definition edentry (e : Z * eddata) : edent :=
  EdEnt e.1 (dd_deadline e.2) (dd_el e.2) (dd_sl e.2) (dd_seq e.2).
Arguments edentry !_ /.
Definition edents (t : tree eddata) : list edent := edentry <$> elems t.

#[global] Instance edent_eq_dec : EqDecision edent.
Proof. solve_decision. Defined.

(** ** Cached minimums *)

(** The minimums cached at the root of a subtree. *)
Definition rootmins (t : tree eddata) : option (Z * Z) :=
  match t with Leaf => None | T _ _ d _ => Some (dd_mel d, dd_msl d) end.

Definition el_step (m : option (Z * Z)) (z : Z) : Z :=
  match m with Some (me, _) => if time_before me z then me else z | None => z end.
Definition sl_step (m : option (Z * Z)) (z : Z) : Z :=
  match m with Some (_, ms) => if ms <? z then ms else z | None => z end.

(** What [node_update] computes from a node and its children's minimums. *)
Definition calc (ml : option (Z * Z)) (d : eddata) (mr : option (Z * Z)) : Z * Z :=
  (el_step mr (el_step ml (dd_el d)), sl_step mr (sl_step ml (dd_sl d))).

Definition mins (d : eddata) : Z * Z := (dd_mel d, dd_msl d).

(** Every node caches what [node_update] would compute. *)
Fixpoint aug (t : tree eddata) : Prop :=
  match t with
  | Leaf => True
  | T l _ d r => mins d = calc (rootmins l) d (rootmins r) ∧ aug l ∧ aug r
  end.

Definition calc_dir (dir : bool) (mx : option (Z * Z)) (d : eddata) (my : option (Z * Z)) : Z * Z :=
  if dir then calc my d mx else calc mx d my.

Fixpoint augc (c : ctx eddata) (m : option (Z * Z)) : Prop :=
  match c with
  | [] => True
  | f :: c' =>
      mins (fr_data f) = calc_dir (fr_dir f) m (fr_data f) (rootmins (fr_sib f)) ∧
      aug (fr_sib f) ∧ augc c' (Some (mins (fr_data f)))
  end.

Lemma rootmins_plug1 f t : rootmins (plug1 f t) = Some (mins (fr_data f)).
Proof. by destruct f as [[] ???]. Qed.

Lemma aug_plug c t : aug (plug c t) ↔ aug t ∧ augc c (rootmins t).
Proof.
  revert t; induction c as [|f c IH]; intros t; simpl; [tauto|].
  rewrite IH, rootmins_plug1. destruct f as [[] a d s]; simpl; tauto.
Qed.

Lemma aug_bin dir x a d y :
  aug (bin dir x a d y) ↔ mins d = calc_dir dir (rootmins x) d (rootmins y) ∧ aug x ∧ aug y.
Proof. destruct dir; simpl; tauto. Qed.

Lemma rootmins_bin dir x a d y : rootmins (bin dir x a d y) = Some (mins d).
Proof. by destruct dir. Qed.

(** ** Windows

    The eligibility times in a queue lie in one window, the deadlines in
    another, so that the wrapping comparisons order them. *)
Record ent_win (be bd : Z) (e : edent) : Prop := EntWin {
  ew_el : in_window be (ee_el e);
  ew_dl : in_window bd (ee_deadline e);
}.
Definition win (be bd : Z) (t : tree eddata) : Prop := Forall (ent_win be bd) (edents t).

Section mins.
Context (be bd : Z).

Definition mwin (m : option (Z * Z)) : Prop :=
  match m with Some p => in_window be p.1 | None => True end.

Lemma el_step_win m z : mwin m → in_window be z → in_window be (el_step m z).
Proof. destruct m as [[me ?]|]; simpl; [|done]. by case_match. Qed.

(** The least of a cached minimum and a time, as a distance. *)
Definition moff (m : option (Z * Z)) (z : Z) : Z :=
  match m with Some (me, _) => Z.min (off be me) z | None => z end.
Definition mslice (m : option (Z * Z)) (z : Z) : Z :=
  match m with Some (_, ms) => Z.min ms z | None => z end.

Lemma el_step_off m z :
  mwin m → in_window be z → off be (el_step m z) = moff m (off be z).
Proof.
  destruct m as [[me ?]|]; simpl; [|done]. intros Hm Hz. rewrite (time_before_off be) by done.
  destruct (Z.ltb_spec (off be me) (off be z)); lia.
Qed.

Lemma sl_step_min m z : sl_step m z = mslice m z.
Proof.
  destruct m as [[? ms]|]; simpl; [|done]. destruct (Z.ltb_spec ms z); lia.
Qed.

(** Cached minimums are times of the window. *)
Lemma calc_win ml d mr : mwin ml → mwin mr → in_window be (dd_el d) → in_window be (calc ml d mr).1.
Proof. intros ???. simpl. by repeat apply el_step_win. Qed.

Lemma win_T l a d r :
  win be bd (T l a d r) ↔ win be bd l ∧ ent_win be bd (edentry (a, d)) ∧ win be bd r.
Proof. unfold win, edents. simpl. rewrite fmap_app, Forall_app. simpl. rewrite Forall_cons. tauto. Qed.

Lemma win_bin dir x a d y :
  win be bd (bin dir x a d y) ↔ win be bd x ∧ ent_win be bd (edentry (a, d)) ∧ win be bd y.
Proof. destruct dir; simpl; rewrite win_T; tauto. Qed.

Lemma aug_win t : aug t → win be bd t → mwin (rootmins t).
Proof.
  induction t as [|l IHl a d r IHr]; simpl; [done|]. intros (Hd & Hl & Hr) Hw.
  apply win_T in Hw as (Hwl & [He _] & Hwr). assert (dd_mel d = (calc (rootmins l) d (rootmins r)).1) as ->
    by (by rewrite <-Hd). apply calc_win; auto.
Qed.

(** [calc] as a minimum of distances and of slices, in either direction. *)
Lemma calc_dir_off dir mx d my :
  mwin mx → mwin my → in_window be (dd_el d) →
  off be (calc_dir dir mx d my).1 = moff mx (moff my (off be (dd_el d))) ∧
  (calc_dir dir mx d my).2 = mslice mx (mslice my (dd_sl d)).
Proof.
  intros Hx Hy Hd. unfold calc_dir, calc. destruct dir; simpl;
    rewrite !el_step_off, !sl_step_min by auto using el_step_win; [done|].
  destruct mx as [[]|], my as [[]|]; simpl; lia.
Qed.

Lemma calc_dir_win dir mx d my :
  mwin mx → mwin my → in_window be (dd_el d) → in_window be (calc_dir dir mx d my).1.
Proof. intros. destruct dir; by apply calc_win. Qed.

(** Rotating keeps the cached minimums consistent: the pivot takes over the
    minimums of the subtree, the old root is refreshed. *)
Lemma aug_rotate dir x a da y b db z :
  aug (bin dir x a da (bin dir y b db z)) → win be bd (bin dir x a da (bin dir y b db z)) →
  aug (bin dir (bin dir x a (with_mins (calc_dir dir (rootmins x) da (rootmins y)) da) y)
         b (with_mins (mins da) db) z).
Proof.
  rewrite !aug_bin, !win_bin, !rootmins_bin.
  intros (Ha & Hx & Hb & Hy & Hz) (Wx & [Wa _] & Wy & [Wb _] & Wz).
  pose proof (aug_win _ Hx Wx) as Mx. pose proof (aug_win _ Hy Wy) as My.
  pose proof (aug_win _ Hz Wz) as Mz.
  set (m := calc_dir dir (rootmins x) da (rootmins y)).
  assert (calc_dir dir (rootmins x) (with_mins m da) (rootmins y) = m) as Em
    by (by destruct dir).
  assert (mins (with_mins m da) = m) as Em' by (by destruct m).
  split_and!; try done.
  assert (∀ d m0 m1 mm, calc_dir dir m0 (with_mins mm d) m1 = calc_dir dir m0 d m1) as Ew
    by (intros; by destruct dir).
  rewrite Em', Ew. assert (in_window be m.1) as Wm by (by apply calc_dir_win).
  assert (mwin (Some m)) as Wm' by done.
  assert (mwin (Some (mins db))) as Wdb by (rewrite Hb; simpl; by apply calc_dir_win).
  destruct (calc_dir_off dir (Some m) db (rootmins z)) as [E1 E2]; [done..|].
  destruct (calc_dir_off dir (rootmins x) da (Some (mins db))) as [E3 E4]; [done..|].
  destruct (calc_dir_off dir (rootmins y) db (rootmins z)) as [E5 E6]; [done..|].
  destruct (calc_dir_off dir (rootmins x) da (rootmins y)) as [E7 E8]; [done..|].
  rewrite <-Ha in E3, E4. rewrite <-Hb in E5, E6. fold m in E7, E8.
  destruct m as [me ms]. simpl in E1, E2, E3, E4, E5, E6, E7, E8, Wm.
  assert (in_window be (dd_mel da)) as Wda.
  { change (dd_mel da) with (mins da).1. rewrite Ha. by apply calc_dir_win. }
  change (mins (with_mins (mins da) db)) with (dd_mel da, dd_msl da). rewrite (surjective_pairing (calc_dir dir (Some (me, ms)) db (rootmins z))).
  f_equal.
  - apply (off_inj be); [apply Wda|apply calc_dir_win; done|]. rewrite E1, E3, E7, E5.
    destruct (rootmins x) as [[]|], (rootmins y) as [[]|], (rootmins z) as [[]|]; simpl; lia.
  - rewrite E2, E4, E8, E6.
    destruct (rootmins x) as [[]|], (rootmins y) as [[]|], (rootmins z) as [[]|]; simpl; lia.
Qed.
End mins.
