(* ===== verification/EdqTree.v ===== *)
(** * Eligible deadline queue: the tree of a queue in the store

    The layout predicates and the steps of the rebalancing loops on them. *)

From S2P Require Import Prelude ArenaTree RedBlack ScxTime Edq EdqBase.

(** The header fields of a queue other than its root. *)
Record edhdr : Type := EdHdr { hd_first : Z; hd_fdl : Z; hd_msl : Z; hd_nr : Z; hd_seq : Z }.
Definition ed_hdr (hd : edhdr) (root : Z) : scx_edq :=
  Edq root (hd_first hd) (hd_fdl hd) (hd_msl hd) (hd_nr hd) (hd_seq hd).
Arguments ed_hdr _ _ /.

Section tree.
Implicit Types (s : edq_state) (c : ctx eddata) (t : tree eddata).

(** The store [s] holds the tree [plug c t], focused at [t], under the queue
    at [q]. *)
Record ed_lay s (q : Z) (hd : edhdr) c t : Prop := EdLay {
  lay_hdr : es_queues s !! q = Some (ed_hdr hd (croot c (addr t)));
  lay_tree : tree_in ed_mk (es_nodes s) c t;
}.

(** [s'] differs from [s] at most in the queue [q] and at the node addresses
    [l]. *)
Record ed_frame s s' (q : Z) (l : list Z) : Prop := EdFrame {
  ef_nodes a : a ∉ l → es_nodes s' !! a = es_nodes s !! a;
  ef_queues a : a ≠ q → es_queues s' !! a = es_queues s !! a;
  ef_tasks : es_tasks s' = es_tasks s;
  ef_error : es_error s' = es_error s;
}.

Lemma ed_frame_refl s q l : ed_frame s s q l.
Proof. by split. Qed.

Lemma ed_frame_trans s1 s2 s3 q l l' :
  ed_frame s1 s2 q l → ed_frame s2 s3 q l' → l' ⊆ l → ed_frame s1 s3 q l.
Proof.
  intros [n1 q1 t1 e1] [n2 q2 t2 e2] Hl. split; [| |congruence..].
  - intros a Ha. rewrite n2, n1; [done|done|set_solver].
  - intros a Ha. by rewrite q2, q1.
Qed.

Lemma ed_frame_mono s s' q l l' : ed_frame s s' q l → l ⊆ l' → ed_frame s s' q l'.
Proof. intros [n t a e] Hl. split; [|done..]. intros b Hb. apply n. set_solver. Qed.

Lemma ed_lay_plug1 s q hd f c t : ed_lay s q hd (f :: c) t ↔ ed_lay s q hd c (plug1 f t).
Proof.
  split; intros [Hh Ht]; (split; [|by apply tree_in_plug1]);
    rewrite Hh; simpl; by rewrite ?addr_plug1.
Qed.

Lemma ed_lay_plug s q hd c1 c t : ed_lay s q hd (c1 ++ c) t ↔ ed_lay s q hd c (plug c1 t).
Proof.
  split; intros [Hh Ht]; (split; [|by apply tree_in_plug]);
    rewrite Hh; by rewrite croot_app, addr_plug.
Qed.

Lemma ed_lay_top s q hd c t : ed_lay s q hd c t ↔ ed_lay s q hd [] (plug c t).
Proof. by rewrite <-ed_lay_plug, app_nil_r. Qed.

(** Single steps on known cells. *)
Lemma ern_bind {X Y} (f : scx_edq_node → X) (k : X → ST edq_state Y) s a n :
  es_nodes s !! a = Some n → (ern a f ≫= k) s = k (f n) s.
Proof. unfold mbind, ST_bind, ern. by intros ->. Qed.

Lemma erq_bind {X Y} (f : scx_edq → X) (k : X → ST edq_state Y) s a n :
  es_queues s !! a = Some n → (erq a f ≫= k) s = k (f n) s.
Proof. unfold mbind, ST_bind, erq. by intros ->. Qed.

Lemma ert_bind {X Y} (f : scx_edq_task → X) (k : X → ST edq_state Y) s a n :
  es_tasks s !! a = Some n → (ert a f ≫= k) s = k (f n) s.
Proof. unfold mbind, ST_bind, ert. by intros ->. Qed.

Lemma lay_root s q hd c l a d r :
  ed_lay s q hd c (T l a d r) → es_nodes s !! a = Some (ed_mk (caddr c) (addr l) (addr r) d).
Proof. intros [_ Ht]. by apply tree_in_root in Ht. Qed.

Lemma lay_parent s q hd f c t :
  ed_lay s q hd (f :: c) t →
  es_nodes s !! fr_addr f = Some (mk_frame ed_mk (caddr c) f (addr t)).
Proof. intros [_ Ht]. by apply tree_in_parent in Ht. Qed.

Lemma lay_cell s q hd c c1 l a d r :
  ed_lay s q hd c (plug c1 (T l a d r)) →
  es_nodes s !! a = Some (ed_mk (caddr (c1 ++ c)) (addr l) (addr r) d).
Proof. intros Hat. apply ed_lay_plug in Hat. by apply lay_root in Hat. Qed.

Lemma lay_cell_bin s q hd c c1 dir x a d y :
  ed_lay s q hd c (plug c1 (bin dir x a d y)) →
  ∃ n, es_nodes s !! a = Some n ∧ en_child dir n = addr x ∧ en_child (negb dir) n = addr y ∧
    en_red n = dd_red d ∧ en_parent n = caddr (c1 ++ c).
Proof. destruct dir; intros Hat%lay_cell; by eexists. Qed.

Lemma lay_nonnull s q hd c t a : ed_lay s q hd c t → a ∈ addrs t ++ caddrs c → (a =? NULL) = false.
Proof. intros [_ Ht] Ha. apply Z.eqb_neq. by eapply tree_in_nonnull. Qed.

(** A write to the payload of the focused node. *)
Lemma set_data s q hd c l a d d' r f :
  ed_lay s q hd c (T l a d r) → (∀ p x y, f (ed_mk p x y d) = ed_mk p x y d') →
  ∃ s', ewn a f s = Some (tt, s') ∧ ed_lay s' q hd c (T l a d' r) ∧ ed_frame s s' q [a].
Proof.
  intros [Hh [Hnd Hr Hc]] Hf. pose proof Hnd as Hnd'. nodup_facts Hnd'.
  simpl in Hr. destruct Hr as (Ha & Hl & Hr). unfold ewn. rewrite Ha.
  change (EdqNode (caddr c) (addr l) (addr r) (dd_deadline d) (dd_el d) (dd_mel d) (dd_sl d)
    (dd_msl d) (dd_seq d) (dd_red d)) with (ed_mk (caddr c) (addr l) (addr r) d). rewrite Hf.
  eexists; split; [reflexivity|]. split; [split; [done|split]|split]; simpl.
  - exact Hnd.
  - layout_tac.
  - rep_tac.
  - intros x Hx. apply lookup_insert_ne. set_solver.
  - done.
  - done.
  - done.
Qed.

Lemma set_data_in s q hd c c1 l a d d' r f :
  ed_lay s q hd c (plug c1 (T l a d r)) → (∀ p x y, f (ed_mk p x y d) = ed_mk p x y d') →
  ∃ s', ewn a f s = Some (tt, s') ∧ ed_lay s' q hd c (plug c1 (T l a d' r)) ∧ ed_frame s s' q [a].
Proof. setoid_rewrite <-ed_lay_plug. apply set_data. Qed.

Lemma set_data_bin s q hd c c1 dir x a d d' y f :
  ed_lay s q hd c (plug c1 (bin dir x a d y)) → (∀ p u v, f (ed_mk p u v d) = ed_mk p u v d') →
  ∃ s', ewn a f s = Some (tt, s') ∧ ed_lay s' q hd c (plug c1 (bin dir x a d' y)) ∧ ed_frame s s' q [a].
Proof. destruct dir; apply set_data_in. Qed.

(** Reading the minimums of a subtree. *)
Lemma mins_read s p t z :
  rep ed_mk (es_nodes s) p t → 0 ∉ addrs t →
  min_el_child (addr t) z s = Some (el_step (rootmins t) z, s) ∧
  min_sl_child (addr t) z s = Some (sl_step (rootmins t) z, s).
Proof.
  destruct t as [|l a d r]; simpl; [done|]. intros (Ha & _) H0.
  unfold min_el_child, min_sl_child. rewrite (proj2 (Z.eqb_neq a 0)) by set_solver.
  by rewrite !(ern_bind _ _ _ _ _ Ha).
Qed.

Lemma ed_red_read s p (u : tree eddata) :
  rep ed_mk (es_nodes s) p u → 0 ∉ addrs u → node_red (addr u) s = Some (is_red dd_red u, s).
Proof.
  destruct u as [|l a d r]; simpl; [done|]. intros (Ha & _) H0. unfold node_red.
  rewrite (proj2 (Z.eqb_neq a 0)) by set_solver. unfold ern. by rewrite Ha.
Qed.

Lemma lay_red s q hd c c1 t :
  ed_lay s q hd c (plug c1 t) → node_red (addr t) s = Some (is_red dd_red t, s).
Proof.
  intros Hat. apply ed_lay_plug in Hat. destruct (lay_tree _ _ _ _ _ Hat) as [Hnd Hr _].
  eapply ed_red_read; [exact Hr|]. apply NoDup_cons in Hnd as [? _]. set_solver.
Qed.

(** [node_update] refreshes the minimums of the focused node. *)
Lemma node_update_spec s q hd c l a d r :
  ed_lay s q hd c (T l a d r) →
  ∃ s', node_update a s = Some (tt, s') ∧
    ed_lay s' q hd c (T l a (with_mins (calc (rootmins l) d (rootmins r)) d) r) ∧ ed_frame s s' q [a].
Proof.
  intros Hat. pose proof (lay_root _ _ _ _ _ _ _ _ Hat) as Ha.
  destruct (lay_tree _ _ _ _ _ Hat) as [Hnd (_ & Hl & Hr) _]. nodup_facts Hnd.
  unfold node_update. rewrite (ern_bind _ _ _ _ _ Ha). simpl.
  destruct (mins_read s a l (dd_el d)) as [E1 _]; [done..|].
  rewrite (ST_bind_run _ _ _ _ _ E1).
  destruct (mins_read s a r (el_step (rootmins l) (dd_el d))) as [E2 _]; [done..|].
  rewrite (ST_bind_run _ _ _ _ _ E2).
  destruct (mins_read s a l (dd_sl d)) as [_ E3]; [done..|].
  rewrite (ST_bind_run _ _ _ _ _ E3).
  destruct (mins_read s a r (sl_step (rootmins l) (dd_sl d))) as [_ E4]; [done..|].
  rewrite (ST_bind_run _ _ _ _ _ E4). by apply (set_data _ _ _ _ _ _ _ _ _ _ Hat).
Qed.

Lemma node_update_bin s q hd c c1 dir x a d y :
  ed_lay s q hd c (plug c1 (bin dir x a d y)) →
  ∃ s', node_update a s = Some (tt, s') ∧
    ed_lay s' q hd c (plug c1 (bin dir x a (with_mins (calc_dir dir (rootmins x) d (rootmins y)) d) y)) ∧
    ed_frame s s' q [a].
Proof. setoid_rewrite <-ed_lay_plug. destruct dir; apply node_update_spec. Qed.

(** The pointer part of [rotate]. *)
Definition relink (dir : bool) (edq node : Z) : ST edq_state Z :=
  pivot ← ern node (en_child (negb dir));
  parent ← ern node en_parent;
  replace_child edq parent node pivot;;
  c ← ern pivot (en_child dir);
  ewn node (set_child (negb dir) c);;
  (if c =? NULL then mret tt else ewn c (set_parent node));;
  ewn pivot (set_child dir node);;
  ewn node (set_parent pivot);;
  mret pivot.

Lemma bind_ext {X Y} (m : ST edq_state X) (f g : X → ST edq_state Y) s :
  (∀ x s', f x s' = g x s') → (m ≫= f) s = (m ≫= g) s.
Proof. intros E. unfold mbind, ST_bind. by destruct (m s) as [[]|]. Qed.

Lemma rotate_relink dir q node s :
  rotate dir q node s = (pivot ← relink dir q node; rotate_aug node pivot;; mret pivot) s.
Proof. unfold rotate, relink. repeat (rewrite ST_bind_assoc; apply bind_ext; intros ??). done. Qed.

Lemma relink_spec s q hd c dir x a da y b db z :
  ed_lay s q hd c (bin dir x a da (bin dir y b db z)) →
  ∃ s', relink dir q a s = Some (b, s') ∧
    ed_lay s' q hd c (bin dir (bin dir x a da y) b db z) ∧
    ed_frame s s' q (addrs (bin dir x a da (bin dir y b db z)) ++ caddrs c).
Proof.
  intros [Hh [Hnd Hr Hc]].
  destruct dir, c as [|[[] ca cd cs] c], y as [|yl ya yd yr];
    simpl in Hh, Hr, Hc; destruct_and?;
    pose proof Hnd as Hnd'; nodup_facts Hnd'.
  all: unfold relink, replace_child, ern, ewn, erq, ewq, mbind, ST_bind, mret, ST_ret.
  all: heap_run; eexists; split; [reflexivity|]; split; [split; [by heap_run|split]|split].
  all: try nodup_tac Hnd.
  all: try layout_tac.
  all: try (intros ? ?; by heap_run).
  all: intros e He; nodup_facts He; by heap_run.
Qed.

Lemma rotate_lay s q hd c dir x a da y b db z :
  ed_lay s q hd c (bin dir x a da (bin dir y b db z)) →
  ∃ s', rotate dir q a s = Some (b, s') ∧
    ed_lay s' q hd c (bin dir (bin dir x a (with_mins (calc_dir dir (rootmins x) da (rootmins y)) da) y)
                        b (with_mins (mins da) db) z) ∧
    ed_frame s s' q (addrs (bin dir x a da (bin dir y b db z)) ++ caddrs c).
Proof.
  intros Hat. rewrite rotate_relink.
  destruct (relink_spec _ _ _ _ _ _ _ _ _ _ _ _ Hat) as (s1 & Hw1 & Hat1 & Hfr1).
  assert (∀ t u p pd, plug [Fr dir p pd u] t = bin dir t p pd u) as Eb by (by destruct dir).
  rewrite (ST_bind_run _ _ _ _ _ Hw1). unfold rotate_aug.
  destruct (lay_cell_bin s1 q hd c [Fr dir b db z] dir x a da y) as (n & Ha & _); [by rewrite Eb|].
  assert ((en_min_eligibility n, en_min_slice n) = mins da) as En.
  { rewrite <-(Eb _ z b db) in Hat1. apply ed_lay_plug in Hat1.
    destruct dir; rewrite (lay_root _ _ _ _ _ _ _ _ Hat1) in Ha; by injection Ha as <-. }
  rewrite ST_bind_assoc, (ern_bind _ _ _ _ _ Ha). simpl (id n).
  destruct (set_data_bin s1 q hd c [] dir (bin dir x a da y) b db (with_mins (mins da) db) z
    (set_mins (en_min_eligibility n) (en_min_slice n)) Hat1) as (s2 & Hw2 & Hat2 & Hfr2).
  { rewrite <-En. done. }
  rewrite ST_bind_assoc, (ST_bind_run _ _ _ _ _ Hw2). cbn [plug] in Hat2. rewrite <-Eb in Hat2.
  destruct (node_update_bin _ _ _ _ _ _ _ _ _ _ Hat2) as (s3 & Hw3 & Hat3 & Hfr3).
  rewrite (ST_bind_run _ _ _ _ _ Hw3). exists s3. rewrite Eb in Hat3. split_and!; [done..|].
  eapply ed_frame_trans; [eapply ed_frame_trans; [exact Hfr1|exact Hfr2|]|exact Hfr3|];
    destruct dir; addr_sub.
Qed.

(** ** A consistent tree in the store *)
Context (be bd : Z).

Record ed_at s (q : Z) (hd : edhdr) c t : Prop := EdAt {
  ea_lay : ed_lay s q hd c t;
  ea_aug : aug (plug c t);
  ea_win : win be bd (plug c t);
}.

Lemma ed_at_plug s q hd c1 c t : ed_at s q hd (c1 ++ c) t ↔ ed_at s q hd c (plug c1 t).
Proof.
  split; intros [Hl Ha Hw]; (split; [by apply ed_lay_plug| |]); by rewrite plug_app in *.
Qed.

Lemma ed_at_plug1 s q hd f c t : ed_at s q hd (f :: c) t ↔ ed_at s q hd c (plug1 f t).
Proof. apply (ed_at_plug s q hd [f] c t). Qed.

Lemma ed_at_top s q hd c t : ed_at s q hd c t ↔ ed_at s q hd [] (plug c t).
Proof. by rewrite <-ed_at_plug, app_nil_r. Qed.

Lemma edents_plug c t : edents (plug c t) = (edentry <$> cpre c) ++ edents t ++ (edentry <$> cpost c).
Proof. unfold edents. by rewrite elems_plug, !fmap_app. Qed.

Lemma win_edents t t' : edents t = edents t' → win be bd t → win be bd t'.
Proof. unfold win. by intros ->. Qed.

Lemma edents_plug_cong c t t' : edents t = edents t' → edents (plug c t) = edents (plug c t').
Proof. intros E. by rewrite !edents_plug, E. Qed.

(** Replacing the focus by a tree with the same entries and minimums. *)
Lemma ed_at_change s s' q hd c t t' :
  ed_at s q hd c t → ed_lay s' q hd c t' → aug t' → rootmins t' = rootmins t →
  edents t' = edents t → ed_at s' q hd c t'.
Proof.
  intros [_ [Ha Hc]%aug_plug Hw] Hl Ha' Em Ee. split; [done| |].
  - apply aug_plug. by rewrite Em.
  - eapply win_edents; [by apply edents_plug_cong|done].
Qed.

Lemma ed_at_focus_aug s q hd c t : ed_at s q hd c t → aug t ∧ win be bd t.
Proof.
  intros [_ [Ha _]%aug_plug Hw]. split; [done|]. unfold win in *.
  rewrite edents_plug, !Forall_app in Hw. tauto.
Qed.

Lemma paint_spec s q hd c dir x a d y b :
  ed_at s q hd c (bin dir x a d y) →
  ∃ s', ewn a (set_red b) s = Some (tt, s') ∧ ed_at s' q hd c (bin dir x a (paint b d) y) ∧
    ed_frame s s' q [a].
Proof.
  intros Hat. destruct (set_data_bin s q hd c [] dir x a d (paint b d) y (set_red b)) as (s' & Hw & Hl & Hfr);
    [apply Hat|done|]. exists s'. split_and!; [done| |done].
  destruct (ed_at_focus_aug _ _ _ _ _ Hat) as [Ha _]. apply aug_bin in Ha as (Em & Hx & Hy).
  eapply ed_at_change; [exact Hat|exact Hl| | |].
  - apply aug_bin. split_and!; [|done..]. by destruct dir.
  - by rewrite !rootmins_bin.
  - by destruct dir; unfold edents; simpl; rewrite !fmap_app.
Qed.

Lemma ed_paint_in s q hd c c1 dir x a d y b :
  ed_at s q hd c (plug c1 (bin dir x a d y)) →
  ∃ s', ewn a (set_red b) s = Some (tt, s') ∧ ed_at s' q hd c (plug c1 (bin dir x a (paint b d) y)) ∧
    ed_frame s s' q [a].
Proof. setoid_rewrite <-ed_at_plug. apply paint_spec. Qed.

(** A rotation keeps the entries, the colours and the consistency. *)
Lemma rotate_spec s q hd c dir x a da y b db z :
  ed_at s q hd c (bin dir x a da (bin dir y b db z)) →
  ∃ s' da' db', rotate dir q a s = Some (b, s') ∧
    ed_at s' q hd c (bin dir (bin dir x a da' y) b db' z) ∧
    edentry (a, da') = edentry (a, da) ∧ dd_red da' = dd_red da ∧
    edentry (b, db') = edentry (b, db) ∧ dd_red db' = dd_red db ∧
    ed_frame s s' q (addrs (bin dir x a da (bin dir y b db z)) ++ caddrs c).
Proof.
  intros Hat. destruct (ed_at_focus_aug _ _ _ _ _ Hat) as [Ha Hw].
  destruct (rotate_lay _ _ _ _ _ _ _ _ _ _ _ _ (ea_lay _ _ _ _ _ Hat)) as (s' & Hrun & Hl & Hfr).
  eexists s', _, _. split_and!; [exact Hrun| | | | | |exact Hfr].
  - eapply ed_at_change; [exact Hat|exact Hl|by apply (aug_rotate be bd)| |].
    + by rewrite !rootmins_bin.
    + destruct dir; unfold edents; simpl; rewrite !fmap_app; simpl; rewrite ?fmap_app; simpl;
        by rewrite <-?app_assoc.
  - done.
  - done.
  - done.
  - done.
Qed.

Lemma ed_rotate_in s q hd c c1 dir x a da y b db z :
  ed_at s q hd c (plug c1 (bin dir x a da (bin dir y b db z))) →
  ∃ s' da' db', rotate dir q a s = Some (b, s') ∧
    ed_at s' q hd c (plug c1 (bin dir (bin dir x a da' y) b db' z)) ∧
    edentry (a, da') = edentry (a, da) ∧ dd_red da' = dd_red da ∧
    edentry (b, db') = edentry (b, db) ∧ dd_red db' = dd_red db ∧
    ed_frame s s' q (addrs (plug c1 (bin dir x a da (bin dir y b db z))) ++ caddrs c).
Proof.
  intros Hat. apply ed_at_plug in Hat.
  destruct (rotate_spec _ _ _ _ _ _ _ _ _ _ _ _ Hat) as (s' & da' & db' & Hw & Hat' & ? & ? & ? & ? & Hfr).
  exists s', da', db'. split_and!; [done|by apply ed_at_plug|done..|].
  eapply ed_frame_mono; [exact Hfr|]. intros e. rewrite addrs_plug, caddrs_app. set_solver.
Qed.
End tree.
