(* ===== verification/EdqInsert.v ===== *)
(** * Eligible deadline queue: the loops of an insertion

    [insert_fixup] restores the red-black discipline with a black root and
    keeps the entries and the cached minimums; [propagate] refreshes the
    minimums on the path to the root. *)

From S2P Require Import Prelude ArenaTree RedBlack ScxTime Edq EdqBase EdqTree.

Abbreviation RB := (rbt dd_red).
Abbreviation black t := (is_red dd_red t = false).
Abbreviation red t := (is_red dd_red t = true).

Lemma edents_bin dir x a d y :
  edents (bin dir x a d y) =
    if dir then edents y ++ edentry (a, d) :: edents x else edents x ++ edentry (a, d) :: edents y.
Proof. destruct dir; unfold edents; simpl; by rewrite fmap_app. Qed.

Lemma edents_paint a b d : edentry (a, paint b d) = edentry (a, d).
Proof. done. Qed.

(** Same entries, up to colours and minimums known to agree. *)
Ltac edents_tac dir :=
  rewrite ?plug1_bin; cbn [fr_dir fr_addr fr_data fr_sib plug];
  rewrite ?edents_plug;
  rewrite ?edents_bin; rewrite ?edents_paint;
  repeat match goal with H : edentry (?a, _) = edentry (?a, _) |- _ => rewrite H end;
  rewrite ?edents_paint;
  destruct dir; cbn [negb]; repeat (rewrite <-app_assoc; simpl); reflexivity.

(** Compose the footprints of a sequence of steps. *)
Ltac ed_chain :=
  repeat match goal with
  | |- ed_frame ?s ?s ?tr _ => apply ed_frame_refl
  | H : ed_frame ?s ?s1 ?tr ?l |- ed_frame ?s _ ?tr _ =>
      let K := fresh in
      assert (∀ s2 L, l ⊆ L → ed_frame s1 s2 tr L → ed_frame s s2 tr L) as K
        by (intros; eapply ed_frame_trans; [by eapply ed_frame_mono|eassumption|done]);
      apply K; [|clear K]; clear H
  end.

Section insert.
Context (be bd : Z).
Implicit Types (s : edq_state) (c : ctx eddata) (t l r : tree eddata).

(** The end of one side of [insert_fixup] below a black uncle. *)
Definition rotated s s' q hd c t0 pd ps u node : Prop :=
  ∃ t', ed_at be bd s' q hd c t' ∧ edents t' = edents t0 ∧
    (∀ n, RB node n → red node → dd_red pd = true → RB ps n → black ps → RB u n → black u →
       RB t' (S n) ∧ black t') ∧
    ed_frame s s' q (addrs t0 ++ caddrs c).

(** The statements of a side after the read of the uncle's colour. *)
Definition side_rotations (dir : bool) (edq node parent gparent : Z) : ST edq_state (option Z) :=
  inner ← ern parent (en_child (negb dir));
  parent ← (if node =? inner then rotate dir edq parent;; mret node else mret parent);
  ewn parent (set_red false);;
  ewn gparent (set_red true);;
  rotate (negb dir) edq gparent;;
  mret None.

(** Painting the top two nodes and rotating the upper one. *)
Lemma paint_rotate s q hd c dir t p pd ps g gd u :
  ed_at be bd s q hd c (bin dir (bin dir t p pd ps) g gd u) →
  ∃ s', (ewn p (set_red false);; ewn g (set_red true);; rotate (negb dir) q g;; mret None) s
      = Some (None : option Z, s') ∧
    ∃ gd' pd', ed_at be bd s' q hd c (bin dir t p pd' (bin dir ps g gd' u)) ∧
      edentry (p, pd') = edentry (p, pd) ∧ edentry (g, gd') = edentry (g, gd) ∧
      dd_red pd' = false ∧ dd_red gd' = true ∧
      ed_frame s s' q (addrs (bin dir (bin dir t p pd ps) g gd u) ++ caddrs c).
Proof.
  intros Hat. rewrite <-plug_bin1 in Hat.
  destruct (ed_paint_in _ _ _ _ _ _ _ _ _ _ _ _ false Hat) as (s1 & Hw1 & Hat1 & Hfr1).
  rewrite (ST_bind_run _ _ _ _ _ Hw1). rewrite plug_bin1 in Hat1.
  destruct (ed_paint_in _ _ _ _ _ _ [] _ _ _ _ _ true Hat1) as (s2 & Hw2 & Hat2 & Hfr2).
  rewrite (ST_bind_run _ _ _ _ _ Hw2). cbn [plug] in Hat2.
  rewrite <-bin_flip, <-(bin_flip dir t) in Hat2.
  destruct (rotate_spec _ _ _ _ _ _ _ _ _ _ _ _ _ _ Hat2)
    as (s3 & gd' & pd' & Hw3 & Hat3 & Eg & Rg & Ep & Rp & Hfr3).
  rewrite (ST_bind_run _ _ _ _ _ Hw3). exists s3. split; [done|]. exists gd', pd'.
  rewrite !bin_flip in Hat3. rewrite plug_bin1 in Hat. split_and!; [done..|].
  ed_chain; destruct dir; cbn [negb]; addr_sub.
Qed.

Lemma side_outer s q hd c dir l a d r p pd ps g gd u :
  ed_at be bd s q hd c (bin dir (bin dir (T l a d r) p pd ps) g gd u) →
  ∃ s', side_rotations dir q a p g s = Some (None, s') ∧
    rotated s s' q hd c (bin dir (bin dir (T l a d r) p pd ps) g gd u) pd ps u (T l a d r).
Proof.
  intros Hat. assert (a ≠ addr ps) as Hne.
  { destruct (lay_tree _ _ _ _ _ (ea_lay _ _ _ _ _ _ _ Hat)) as [Hnd _ _].
    destruct dir; nodup_facts Hnd; ptr_neq. }
  destruct (lay_cell_bin s q hd c [Fr dir g gd u] dir (T l a d r) p pd ps) as (n & Hp & _ & Hc & _).
  { rewrite plug_bin1. apply Hat. }
  unfold side_rotations. rewrite (ern_bind _ _ _ _ _ Hp), Hc.
  rewrite (proj2 (Z.eqb_neq _ _)) by done. rewrite ST_ret_bind.
  destruct (paint_rotate _ _ _ _ _ _ _ _ _ _ _ _ Hat)
    as (s' & Hrun & gd' & pd' & Hat' & Ep & Eg & Rp & Rg & Hfr).
  exists s'. split; [done|]. eexists. split_and!; [exact Hat'|edents_tac dir| |done].
  intros m Hn _ _ Hps Hpsb Hu Hub. rewrite is_red_bin. split; [|done]. rewrite rbt_bin, Rp.
  exists m. split_and!; [done..|]. rewrite rbt_bin, Rg. done.
Qed.

Lemma side_inner s q hd c dir x a d y p pd ps g gd u :
  ed_at be bd s q hd c (bin dir (bin (negb dir) (bin dir x a d y) p pd ps) g gd u) →
  ∃ s', side_rotations dir q a p g s = Some (None, s') ∧
    rotated s s' q hd c (bin dir (bin (negb dir) (bin dir x a d y) p pd ps) g gd u) pd ps u (bin dir x a d y).
Proof.
  intros Hat. rewrite bin_flip in *.
  destruct (lay_cell_bin s q hd c [Fr dir g gd u] dir ps p pd (bin dir x a d y)) as (n & Hp & _ & Hc & _).
  { rewrite plug_bin1. apply Hat. }
  unfold side_rotations. rewrite (ern_bind _ _ _ _ _ Hp), Hc, addr_bin, Z.eqb_refl, ST_bind_assoc.
  pose proof Hat as Hat0. rewrite <-(plug_bin1 dir) in Hat.
  destruct (ed_rotate_in _ _ _ _ _ _ _ _ _ _ _ _ _ _ _ Hat)
    as (s1 & pd' & d' & Hw1 & Hat1 & Ep & Rp & Ed & Rd & Hfr1).
  rewrite (ST_bind_run _ _ _ _ _ Hw1), ST_ret_bind. rewrite plug_bin1 in Hat1, Hfr1.
  rewrite <-(bin_flip dir _ y) in Hat1. rewrite bin_flip in Hat1.
  destruct (paint_rotate _ _ _ _ _ _ _ _ _ _ _ _ Hat1)
    as (s' & Hrun & gd' & d'' & Hat' & Ed' & Eg & Rd' & Rg & Hfr).
  exists s'. split; [done|]. eexists. split_and!; [exact Hat'|edents_tac dir| |].
  - intros m Hn Hnr Hpr Hps Hpsb Hu Hub. rewrite is_red_bin in Hnr |- *. split; [|done].
    rewrite rbt_bin, Hnr in Hn. destruct Hn as (? & ? & ? & ?). rewrite rbt_bin, Rd'.
    exists m. split_and!; [done| |rewrite rbt_bin, Rg; done].
    by rewrite rbt_bin, Rp, Hpr.
  - ed_chain; destruct dir; cbn [negb]; addr_sub.
Qed.

Lemma side_spec s q hd c f g l a d r :
  ed_at be bd s q hd (f :: g :: c) (T l a d r) →
  ∃ s', side_rotations (fr_dir g) q a (fr_addr f) (fr_addr g) s = Some (None, s') ∧
    rotated s s' q hd c (plug1 g (plug1 f (T l a d r))) (fr_data f) (fr_sib f) (fr_sib g) (T l a d r).
Proof.
  rewrite !ed_at_plug1, !plug1_bin. destruct f as [fd p pd ps], g as [dir ga gdat u].
  cbn [fr_dir fr_addr fr_data fr_sib].
  destruct (decide (fd = dir)) as [->|Hne]; [apply side_outer|].
  assert (fd = negb dir) as -> by (by destruct fd, dir).
  destruct (tree_bin dir (T l a d r)) as (x & a' & d' & y & E); [done|]. rewrite E.
  assert (a = a') as -> by (destruct dir; by injection E). apply side_inner.
Qed.

(** The red uncle: both children of the grandparent become black. *)
Lemma recolour_spec s q hd c dir t0 p pd ps g gd x ua ud y fd :
  ed_at be bd s q hd c (bin dir (bin fd t0 p pd ps) g gd (bin dir x ua ud y)) →
  ∃ s', (ewn ua (set_red false);; ewn p (set_red false);; ewn g (set_red true);; mret (Some g)) s
      = Some (Some g, s') ∧
    ed_at be bd s' q hd c (bin dir (bin fd t0 p (paint false pd) ps) g (paint true gd)
                             (bin dir x ua (paint false ud) y)) ∧
    ed_frame s s' q (addrs (bin dir (bin fd t0 p pd ps) g gd (bin dir x ua ud y)) ++ caddrs c).
Proof.
  intros Hat. rewrite <-(bin_flip dir), <-plug_bin1 in Hat.
  destruct (ed_paint_in _ _ _ _ _ _ _ _ _ _ _ _ false Hat) as (s1 & Hw1 & Hat1 & Hfr1).
  rewrite (ST_bind_run _ _ _ _ _ Hw1). rewrite plug_bin1, bin_flip, <-(plug_bin1 dir) in Hat1.
  destruct (ed_paint_in _ _ _ _ _ _ _ _ _ _ _ _ false Hat1) as (s2 & Hw2 & Hat2 & Hfr2).
  rewrite (ST_bind_run _ _ _ _ _ Hw2). rewrite plug_bin1 in Hat2.
  destruct (ed_paint_in _ _ _ _ _ _ [] _ _ _ _ _ true Hat2) as (s3 & Hw3 & Hat3 & Hfr3).
  rewrite (ST_bind_run _ _ _ _ _ Hw3). exists s3. split_and!; [done|exact Hat3|].
  ed_chain; destruct dir, fd; addr_sub.
Qed.

(** The loop started at a red node whose subtree is red-black, below a
    context with a black root. *)
Lemma insert_fixup_spec cl s q hd c t n :
  ed_at be bd s q hd c t → red t → RB t n → rbc dd_red c n false → ctop dd_red c false = false →
  (length c < cl)%nat →
  ∃ s' t', insert_fixup_loop cl q (addr t) s = Some (0, s') ∧ ed_at be bd s' q hd [] t' ∧
    rb_black dd_red t' ∧ edents t' = edents (plug c t) ∧ ed_frame s s' q (addrs t ++ caddrs c).
Proof.
  revert s c t n. induction cl as [|cl IH]; intros s c t n Hat Hd Hrb Hc Htop Hcl; [lia|].
  destruct t as [|l a d r]; [done|].
  pose proof (lay_root _ _ _ _ _ _ _ _ (ea_lay _ _ _ _ _ _ _ Hat)) as Ha.
  simpl. rewrite (ern_bind _ _ _ _ _ Ha); simpl.
  destruct c as [|f c]; simpl.
  { destruct (ed_paint_in be bd s q hd [] [] false l a d r false Hat) as (s' & Hw & Hat' & Hfr).
    rewrite (ST_bind_run _ _ _ _ _ Hw). exists s', (T l a (paint false d) r). split_and!; try done.
    - split; [|done]. exists (S n). simpl in Hd, Hrb |- *. rewrite Hd in Hrb. exists n. naive_solver.
    - unfold edents. simpl. by rewrite !fmap_app.
    - eapply ed_frame_mono; [exact Hfr|]. set_solver. }
  pose proof (lay_parent _ _ _ _ _ _ (ea_lay _ _ _ _ _ _ _ Hat)) as Hf.
  rewrite (proj2 (Z.eqb_neq _ _)) by (eapply tree_in_caddr, lay_tree, ea_lay; exact Hat).
  rewrite (ern_bind _ _ _ _ _ Hf).
  assert (en_red (mk_frame ed_mk (caddr c) f (addr (T l a d r))) = dd_red (fr_data f)) as ->
    by (by destruct f as [[] ???]).
  simpl in Hc, Htop. destruct (dd_red (fr_data f)) eqn:Hfr; simpl.
  2: { exists s, (plug (f :: c) (T l a d r)). split_and!; try done; [by apply ed_at_top in Hat|].
       apply rb_black_plug with n; simpl; rewrite ?Hfr; done. }
  destruct Hc as (_ & Hsr & Hsb & Hc). rewrite (ern_bind _ _ _ _ _ Hf).
  assert (en_parent (mk_frame ed_mk (caddr c) f (addr (T l a d r))) = caddr c) as ->
    by (by destruct f as [[] ???]).
  destruct c as [|g c]; [done|]. simpl in Htop. cbn [caddr].
  simpl in Hc. destruct (dd_red (fr_data g)) eqn:Hgr; [by destruct Hc as [? _]|].
  destruct Hc as [Hub Hc]. pose proof Hat as HatN. rewrite ed_at_plug1 in Hat.
  rewrite (proj2 (Z.eqb_neq _ _)) by (eapply tree_in_caddr, lay_tree, ea_lay; exact Hat).
  pose proof (lay_parent _ _ _ _ _ _ (ea_lay _ _ _ _ _ _ _ Hat)) as Hg.
  rewrite (ern_bind _ _ _ _ _ Hg). destruct (lay_tree _ _ _ _ _ (ea_lay _ _ _ _ _ _ _ Hat)) as [Hnd _ (_ & Hsib & _)].
  assert (negb (fr_addr f =? en_left (mk_frame ed_mk (caddr c) g (addr (plug1 f (T l a d r))))) = fr_dir g) as ->.
  { rewrite addr_plug1. destruct g as [[] ga gdat u]; simpl; [|by rewrite Z.eqb_refl].
    rewrite (proj2 (Z.eqb_neq _ _)); [done|]. destruct f as [[] ???]; nodup_facts Hnd; ptr_neq. }
  unfold insert_fixup_side. rewrite ST_bind_assoc, (ern_bind _ _ _ _ _ Hg).
  assert (en_child (negb (fr_dir g)) (mk_frame ed_mk (caddr c) g (addr (plug1 f (T l a d r))))
    = addr (fr_sib g)) as -> by (by destruct g as [[] ???]).
  rewrite ST_bind_assoc, (ST_bind_run _ _ _ _ _ (ed_red_read _ _ _ Hsib ltac:(by nodup_facts Hnd))).
  destruct (is_red dd_red (fr_sib g)) eqn:Hu; cbv iota.
  - destruct g as [dir ga gdat u]. cbn [fr_dir fr_addr fr_data fr_sib] in *.
    destruct (tree_bin dir u (red_nonleaf _ Hu)) as (x & ua & ud & y & ->).
    rewrite is_red_bin in Hu. rewrite rbt_bin, Hu in Hub. rewrite addr_bin.
    destruct f as [fd p pd ps]. rewrite ed_at_plug1, !plug1_bin in Hat. cbn [fr_dir fr_addr fr_data fr_sib] in *.
    destruct (recolour_spec _ _ _ _ _ _ _ _ _ _ _ _ _ _ _ _ Hat) as (s1 & Hw1 & Hat1 & Hfr1).
    rewrite (ST_bind_run _ _ _ _ _ Hw1).
    destruct (IH _ _ _ (S n) Hat1) as (s' & t' & Hrun & Hat' & Hrb' & He & Hfr').
    + by rewrite is_red_bin.
    + rewrite rbt_bin. cbn [paint dd_red]. rewrite !is_red_bin. split_and!; try done; rewrite rbt_bin; exists n; naive_solver.
    + done.
    + by rewrite ?Hgr in Htop.
    + simpl in Hcl. lia.
    + rewrite addr_bin in Hrun. exists s', t'. split_and!; try done.
      * rewrite He. cbn [plug]. rewrite !plug1_bin. cbn [fr_dir fr_addr fr_data fr_sib].
        apply edents_plug_cong. rewrite !edents_bin. done.
      * ed_chain; destruct dir, fd; addr_sub.
  - destruct (side_spec _ _ _ _ _ _ _ _ _ _ HatN) as (s' & Hrun & t' & Hat' & He & Hbal & Hfr').
    unfold side_rotations in Hrun. rewrite (ST_bind_run _ _ _ _ _ Hrun).
    destruct (Hbal n) as [Hb1 Hb2]; try done. exists s', (plug c t'). split_and!; [done|by apply ed_at_top in Hat'| | |].
    + apply rb_black_plug with (S n); rewrite ?Hb2; try done; by rewrite ?Hgr in Htop.
    + cbn [plug]. by apply edents_plug_cong.
    + eapply ed_frame_mono; [exact Hfr'|addr_sub].
Qed.
End insert.
