(* ===== verification/EdqLink.v ===== *)
(** * Eligible deadline queue: invariant, cached minimums and insertion

    The walk that refreshes the cached minimums after a change, the representation invariant of a queue, and the insertion of a
    task in deadline order. *)

From S2P Require Import Prelude ArenaTree RedBlack ScxTime Edq EdqBase EdqTree EdqInsert.

(** * Eligible deadline queue: refreshing the cached minimums

    [propagate] walks up from a changed place and stops at the first node
    whose minimums did not change, at the root, or at the node it is told to
    stop at.  It is specified on a tree whose root hangs under an arbitrary
    parent, because a removal refreshes the successor's old path while that
    subtree is detached. *)

Section prop.
Implicit Types (s : edq_state) (c : ctx eddata) (t : tree eddata) (h : gmap Z scx_edq_node).

(** The parent of the hole of [c] when the root of [c] hangs under [top]. *)
Definition hparent c (top : Z) : Z := match c with [] => top | f :: _ => fr_addr f end.

Fixpoint seg h c (hole top : Z) : Prop :=
  match c with
  | [] => True
  | f :: c' =>
      h !! fr_addr f = Some (mk_frame ed_mk (hparent c' top) f hole) ∧
      rep ed_mk h (fr_addr f) (fr_sib f) ∧ seg h c' (fr_addr f) top
  end.

Lemma ed_rep_plug h c t top :
  rep ed_mk h top (plug c t) ↔ rep ed_mk h (hparent c top) t ∧ seg h c (addr t) top.
Proof.
  revert t; induction c as [|f c IH]; intros t; simpl; [tauto|].
  rewrite IH, addr_plug1. destruct f as [[] a d x]; simpl; tauto.
Qed.

Lemma ed_seg_insert h c hole top a n :
  a ∉ caddrs c → seg h c hole top → seg (<[a := n]> h) c hole top.
Proof.
  intros Ha. revert hole; induction c as [|f c IH]; intros hole; simpl in *; [done|].
  intros (Hf & Hs & Hc). apply not_elem_of_cons in Ha as [Hne Ha]. apply not_elem_of_app in Ha as [? ?].
  split_and!; [by rewrite lookup_insert_ne|by apply rep_insert|by apply IH].
Qed.

(** Frames that differ at most in their cached minimums. *)
Record remin (f g : frame eddata) : Prop := Remin {
  rm_dir : fr_dir g = fr_dir f;
  rm_addr : fr_addr g = fr_addr f;
  rm_sib : fr_sib g = fr_sib f;
  rm_ent a : edentry (a, fr_data g) = edentry (a, fr_data f);
  rm_red : dd_red (fr_data g) = dd_red (fr_data f);
}.

Lemma remin_refl f : remin f f.
Proof. by split. Qed.

Lemma remin_ctx_refl c : Forall2 remin c c.
Proof. induction c; constructor; auto using remin_refl. Qed.

Lemma remin_caddrs c c' : Forall2 remin c c' → caddrs c' = caddrs c.
Proof. induction 1 as [|f g c c' [_ Ha Hs _ _] _ IH]; simpl; [done|]. by rewrite Ha, Hs, IH. Qed.

Lemma remin_hparent c c' top : Forall2 remin c c' → hparent c' top = hparent c top.
Proof. destruct 1 as [|f g c c' [_ Ha _ _ _] _]; simpl; done. Qed.

Lemma remin_croot c c' p : Forall2 remin c c' → croot c' p = croot c p.
Proof. intros H. revert p. induction H as [|f g c c' [_ Ha _ _ _] _ IH]; intros p; simpl; [done|]. by rewrite Ha. Qed.

Lemma remin_edents c c' t : Forall2 remin c c' → edents (plug c' t) = edents (plug c t).
Proof.
  intros H. revert t. induction H as [|f g c c' [Hd Ha Hs He _] _ IH]; intros t; simpl; [done|].
  rewrite IH, !edents_plug. f_equal. f_equal. destruct f as [[] a d x], g as [[] a' d' x']; simpl in *; try done;
    subst; unfold edents; simpl; rewrite !fmap_app; simpl; by rewrite He.
Qed.

Lemma remin_rbc c c' n b : Forall2 remin c c' → rbc dd_red c n b → rbc dd_red c' n b.
Proof.
  intros H. revert n b. induction H as [|f g c c' [_ _ Hs _ Hr] _ IH]; intros n b; simpl; [done|].
  rewrite Hr, Hs. destruct (dd_red (fr_data f)); naive_solver.
Qed.

Lemma remin_ctop c c' b : Forall2 remin c c' → ctop dd_red c' b = ctop dd_red c b.
Proof.
  intros H. revert b. induction H as [|f g c c' [_ _ _ _ Hr] _ IH]; intros b; simpl; [done|]. by rewrite Hr.
Qed.

Lemma remin_addrs c c' t : Forall2 remin c c' → addrs (plug c' t) ≡ₚ addrs (plug c t).
Proof. intros H. rewrite !addrs_plug. by rewrite (remin_caddrs _ _ H). Qed.

(** [node_update] on a cell whose children are laid out. *)
Lemma node_update_cell s a p l r d :
  es_nodes s !! a = Some (ed_mk p (addr l) (addr r) d) →
  rep ed_mk (es_nodes s) a l → rep ed_mk (es_nodes s) a r → 0 ∉ addrs l → 0 ∉ addrs r →
  node_update a s = Some (tt, EdqState
    (<[a := ed_mk p (addr l) (addr r) (with_mins (calc (rootmins l) d (rootmins r)) d)]> (es_nodes s))
    (es_tasks s) (es_queues s) (es_error s)).
Proof.
  intros Ha Hl Hr Hl0 Hr0. unfold node_update. rewrite (ern_bind _ _ _ _ _ Ha). simpl.
  destruct (mins_read s a l (dd_el d)) as [E1 _]; [done..|]. rewrite (ST_bind_run _ _ _ _ _ E1).
  destruct (mins_read s a r (el_step (rootmins l) (dd_el d))) as [E2 _]; [done..|].
  rewrite (ST_bind_run _ _ _ _ _ E2).
  destruct (mins_read s a l (dd_sl d)) as [_ E3]; [done..|]. rewrite (ST_bind_run _ _ _ _ _ E3).
  destruct (mins_read s a r (sl_step (rootmins l) (dd_sl d))) as [_ E4]; [done..|].
  rewrite (ST_bind_run _ _ _ _ _ E4). unfold ewn. by rewrite Ha.
Qed.

(** The frame a refresh leaves. *)
Definition refresh_frame (f : frame eddata) (m : option (Z * Z)) : frame eddata :=
  Fr (fr_dir f) (fr_addr f)
    (with_mins (calc_dir (fr_dir f) m (fr_data f) (rootmins (fr_sib f))) (fr_data f)) (fr_sib f).

Lemma refresh_remin f m : remin f (refresh_frame f m).
Proof. by split. Qed.

Lemma node_update_frame s f c t top :
  rep ed_mk (es_nodes s) top (plug (f :: c) t) → NoDup (0 :: addrs (plug (f :: c) t)) →
  let f' := refresh_frame f (rootmins t) in
  let s' := EdqState (<[fr_addr f := mk_frame ed_mk (hparent c top) f' (addr t)]> (es_nodes s))
              (es_tasks s) (es_queues s) (es_error s) in
  node_update (fr_addr f) s = Some (tt, s') ∧ rep ed_mk (es_nodes s') top (plug (f' :: c) t).
Proof.
  intros Hr Hnd. rewrite addrs_plug in Hnd. rewrite ed_rep_plug in Hr. destruct Hr as (Ht & Hf & Hs & Hc).
  nodup_facts Hnd. split.
  - destruct f as [[] a d x]; simpl in *; by apply node_update_cell.
  - rewrite ed_rep_plug. cbn [seg refresh_frame fr_addr fr_sib fr_data fr_dir es_nodes].
    split_and!; [by apply rep_insert|by rewrite lookup_insert_eq|by apply rep_insert|by apply ed_seg_insert].
Qed.

(** The walk may start at any node above consistent subtrees; everything
    above the start agrees with the minimums cached there. *)
Definition augc_pre c : Prop :=
  match c with
  | [] => True
  | f :: c' => aug (fr_sib f) ∧ augc c' (Some (mins (fr_data f)))
  end.

Lemma augc_augc_pre c m : augc c m → augc_pre c.
Proof. destruct c; simpl; tauto. Qed.

Lemma propagate_spec cl s c t top :
  rep ed_mk (es_nodes s) top (plug c t) → NoDup (0 :: addrs (plug c t)) →
  top ∉ addrs (plug c t) → aug t → augc_pre c → (length c ≤ cl)%nat →
  ∃ h' c', let s' := EdqState h' (es_tasks s) (es_queues s) (es_error s) in
    propagate_loop cl (hparent c top) top s = Some (0, s') ∧
    rep ed_mk h' top (plug c' t) ∧ Forall2 remin c c' ∧ aug (plug c' t) ∧
    (∀ a, a ∉ caddrs c → h' !! a = es_nodes s !! a).
Proof.
  revert s c t. induction cl as [|cl IH]; intros s c t Hrep Hnd Htop Ht Hc Hcl;
    (destruct c as [|f c]; [exists (es_nodes s), []; simpl; rewrite Z.eqb_refl, orb_true_r; by destruct s|]);
    simpl in Hcl; [lia|].
  destruct Hc as [Hsib Hc]. destruct (node_update_frame s f c t top Hrep Hnd) as [Hrun Hrep'].
  rewrite addrs_plug in Hnd, Htop. rewrite ed_rep_plug in Hrep. destruct Hrep as (_ & Hf & _ & _).
  simpl. rewrite (proj2 (Z.eqb_neq _ 0)), (proj2 (Z.eqb_neq _ top)) by (clear -Hnd Htop; simpl in *; nodup_facts Hnd; set_solver).
  simpl. rewrite (ern_bind _ _ _ _ _ Hf), (ST_bind_run _ _ _ _ _ Hrun).
  set (f' := refresh_frame f (rootmins t)) in *. set (s1 := EdqState _ _ _ _) in *.
  assert (es_nodes s1 !! fr_addr f = Some (mk_frame ed_mk (hparent c top) f' (addr t))) as Hf1
    by (simpl; by rewrite lookup_insert_eq).
  rewrite (ern_bind _ _ _ _ _ Hf1). cbn [id].
  assert (∀ g p x, en_min_eligibility (mk_frame ed_mk p g x) = dd_mel (fr_data g) ∧
    en_min_slice (mk_frame ed_mk p g x) = dd_msl (fr_data g) ∧ en_parent (mk_frame ed_mk p g x) = p) as Hmk
    by (by intros [[] ???]). destruct (Hmk f (hparent c top) (addr t)) as (-> & -> & _).
  destruct (Hmk f' (hparent c top) (addr t)) as (-> & -> & ->).
  assert (mins (fr_data f') = calc_dir (fr_dir f') (rootmins t) (fr_data f') (rootmins (fr_sib f'))) as Hm.
  { unfold mins, f', refresh_frame. cbn [fr_data fr_dir fr_sib with_mins dd_mel dd_msl].
    rewrite <-surjective_pairing. by destruct (fr_dir f). }
  destruct (Z.eqb_spec (dd_mel (fr_data f')) (dd_mel (fr_data f))) as [E1|E1];
    destruct (Z.eqb_spec (dd_msl (fr_data f')) (dd_msl (fr_data f))) as [E2|E2]; simpl.
  1: { exists (es_nodes s1), (f' :: c). split_and!; [done|done| | |].
       - constructor; [apply refresh_remin|apply remin_ctx_refl].
       - rewrite aug_plug. split; [done|]. cbn [augc]. split_and!; [done|done|].
         unfold mins. by rewrite E1, E2.
       - intros a Ha. simpl in Ha |- *. rewrite lookup_insert_ne; [done|]. set_solver. }
  all: destruct (IH s1 c (plug1 f' t)) as (h' & c' & Hrun' & Hrep2 & Hre & Haug & Hfr).
  all: try exact Hrep'; try done; try lia.
  all: try (change (plug c (plug1 f' t)) with (plug (f' :: c) t); rewrite addrs_plug; done).
  all: try (apply (aug_plug [f'] t); split; [done|]; cbn [augc]; done).
  all: try (by eapply augc_augc_pre).
  all: exists h', (f' :: c'); split_and!; [done|done| |done|].
  all: try (constructor; [apply refresh_remin|done]).
  all: intros a Ha; simpl in Ha; rewrite Hfr by set_solver; simpl; apply lookup_insert_ne; set_solver.
Qed.
End prop.

(** * Eligible deadline queue: the invariant and insertion

    The representation invariant of a queue, the place of a new task in
    deadline order, and the whole of [scx_edq_insert]. *)

(** ** Order *)

(** Deadline order with ties by arrival. *)
Definition ent_lt (bd : Z) (x y : edent) : Prop :=
  off bd (ee_deadline x) < off bd (ee_deadline y) ∨
  (ee_deadline x = ee_deadline y ∧ ee_seq x < ee_seq y).

(** The place of a task that arrives last: behind every deadline that is not
    later. *)
Fixpoint insert_dl (bd : Z) (e : edent) (l : list edent) : list edent :=
  match l with
  | [] => [e]
  | x :: l' =>
      if off bd (ee_deadline x) <=? off bd (ee_deadline e) then x :: insert_dl bd e l' else e :: x :: l'
  end.

Lemma insert_dl_split bd e l1 l2 :
  Forall (λ x, off bd (ee_deadline x) <= off bd (ee_deadline e)) l1 →
  Forall (λ x, off bd (ee_deadline e) < off bd (ee_deadline x)) l2 →
  insert_dl bd e (l1 ++ l2) = l1 ++ e :: l2.
Proof.
  intros H1 H2. induction H1 as [|x l1 Hx H1 IH]; simpl.
  - destruct H2 as [|y l2 Hy H2]; simpl; [done|]. by rewrite (proj2 (Z.leb_gt _ _)).
  - rewrite (proj2 (Z.leb_le _ _)) by done. by rewrite IH.
Qed.

Lemma insert_dl_perm bd e l : insert_dl bd e l ≡ₚ e :: l.
Proof.
  induction l as [|x l IH]; simpl; [done|]. case_match; [|done]. rewrite IH. apply Permutation_swap.
Qed.

Lemma insert_dl_sorted bd e l :
  is_u64 (ee_deadline e) → Forall (λ x, is_u64 (ee_deadline x) ∧ ee_seq x < ee_seq e) l →
  StronglySorted (ent_lt bd) l → StronglySorted (ent_lt bd) (insert_dl bd e l).
Proof.
  intros He. induction l as [|x l IH]; simpl; [repeat constructor|].
  intros [[Hxu Hxs] Hl]%Forall_cons [Hx Hs]%StronglySorted_cons.
  destruct (Z.leb_spec (off bd (ee_deadline x)) (off bd (ee_deadline e))) as [Hle|Hgt].
  - constructor; [by apply IH|]. rewrite insert_dl_perm. constructor; [|done].
    unfold ent_lt. destruct (decide (off bd (ee_deadline x) = off bd (ee_deadline e))) as [E|]; [|lia].
    right. split; [by apply (off_inj bd)|lia].
  - constructor; [by constructor|]. constructor; [left; lia|].
    eapply Forall_impl; [exact Hx|]. unfold ent_lt. intros y [?|[E ?]]; left; [lia|]. rewrite <-E. lia.
Qed.

(** The first task of a queue and its deadline, as cached in the header. *)
Definition first_of (l : list edent) : Z * Z :=
  match l with [] => (NULL, 0) | e :: _ => (ee_addr e, ee_deadline e) end.
Definition msl_of (t : tree eddata) : Z :=
  match t with Leaf => 0 | T _ _ d _ => dd_msl d end.

(** ** The invariant of a queue *)
Section ok.
Context (be bd : Z).
Implicit Types (s : edq_state) (c : ctx eddata) (t : tree eddata).

Record edq_ok s (q : Z) (hd : edhdr) t : Prop := EdqOk {
  eo_q : q ≠ NULL ∧ q ≠ SCX_EDQ_DEAD;
  eo_at : ed_at be bd s q hd [] t;
  eo_rb : rb_black dd_red t;
  eo_sorted : StronglySorted (ent_lt bd) (edents t);
  eo_first : (hd_first hd, hd_fdl hd) = first_of (edents t);
  eo_nr : hd_nr hd = Z.of_nat (length (edents t));
  eo_msl : hd_msl hd = msl_of t;
  eo_seq : Forall (λ e, ee_seq e < hd_seq hd) (edents t);
  eo_own a : a ∈ addrs t ↔ ∃ k, es_tasks s !! a = Some k ∧ et_edq k = q;
}.

(** Header writes. *)
Lemma hdr_step s q hd hd' c t f :
  ed_lay s q hd c t → (∀ p, f (ed_hdr hd p) = ed_hdr hd' p) →
  ∃ s', ewq q f s = Some (tt, s') ∧ ed_lay s' q hd' c t ∧ ed_frame s s' q [] ∧ es_nodes s' = es_nodes s.
Proof.
  intros [Hh Ht] Hf. unfold ewq. rewrite Hh, Hf. eexists. split; [reflexivity|]. split_and!.
  - split; simpl; [by rewrite lookup_insert_eq|done].
  - split; simpl; try done. intros a Ha. by rewrite lookup_insert_ne.
  - done.
Qed.

Lemma at_hdr_step s q hd hd' c t f :
  ed_at be bd s q hd c t → (∀ p, f (ed_hdr hd p) = ed_hdr hd' p) →
  ∃ s', ewq q f s = Some (tt, s') ∧ ed_at be bd s' q hd' c t ∧ ed_frame s s' q [].
Proof.
  intros [Hl Ha Hw] Hf. destruct (hdr_step _ _ _ _ _ _ _ Hl Hf) as (s' & Hrun & Hl' & Hfr & _).
  by exists s'.
Qed.

(** Writes to a node outside the tree. *)
Lemma ewn_out s q hd c t a n f :
  ed_lay s q hd c t → a ∉ addrs t ++ caddrs c → es_nodes s !! a = Some n →
  ∃ s', ewn a f s = Some (tt, s') ∧ ed_lay s' q hd c t ∧ ed_frame s s' q [a] ∧
    es_nodes s' !! a = Some (f n).
Proof.
  intros [Hh Ht] Ha Hn. unfold ewn. rewrite Hn. eexists. split; [reflexivity|]. split_and!; simpl.
  - split; [done|]. simpl. eapply tree_in_agree; [|exact Ht]. intros b Hb. apply lookup_insert_ne. by intros ->.
  - split; simpl; try done. intros b Hb. apply lookup_insert_ne. set_solver.
  - by rewrite lookup_insert_eq.
Qed.

(** ** Searching the insertion point *)
Definition dle (z : Z) (e : Z * eddata) : Prop := off bd (dd_deadline e.2) <= z.
Definition dgt (z : Z) (e : Z * eddata) : Prop := z < off bd (dd_deadline e.2).

(** [node_less] of a node that arrives last. *)
Lemma key_less_last dl seq dl' seq' :
  in_window bd dl → in_window bd dl' → seq' < seq →
  key_less dl seq dl' seq' = (off bd dl <? off bd dl').
Proof.
  intros Hw Hw' Hs. unfold key_less. destruct (Z.eqb_spec dl dl') as [->|Hne]; simpl.
  - rewrite Z.ltb_irrefl. apply Z.ltb_ge. lia.
  - by apply time_before_off.
Qed.

Lemma win_elem t a d : win be bd t → (a, d) ∈ elems t → in_window bd (dd_deadline d) ∧ in_window be (dd_el d).
Proof.
  unfold win, edents. rewrite Forall_fmap, Forall_forall. intros H Hin. by destruct (H _ Hin).
Qed.

Lemma find_spec cl s c t node n :
  tree_in ed_mk (es_nodes s) c t → win be bd (plug c t) →
  es_nodes s !! node = Some n → in_window bd (en_deadline n) →
  Forall (λ e, ee_seq e < en_seq n) (edents (plug c t)) →
  StronglySorted (ent_lt bd) (edents (plug c t)) →
  Forall (dle (off bd (en_deadline n))) (cpre c) → Forall (dgt (off bd (en_deadline n))) (cpost c) →
  (height t ≤ cl)%nat →
  ∃ c', insert_find_loop cl node (caddr c) (addr t) s = Some (caddr c', NULL, s) ∧
    plug c t = plug c' Leaf ∧
    Forall (dle (off bd (en_deadline n))) (cpre c') ∧ Forall (dgt (off bd (en_deadline n))) (cpost c').
Proof.
  revert c t. induction cl as [|cl IH]; intros c t Ht Hw Hn Hwn Hseq Hs Hpre Hpost Hh;
    (destruct t as [|l a d r]; [by exists c|]); simpl in Hh; [lia|].
  pose proof (tree_in_root _ _ _ _ _ _ _ Ht) as Ha.
  assert ((a, d) ∈ elems (plug c (T l a d r))) as Hin by (rewrite elems_plug; simpl; set_solver).
  destruct (win_elem _ _ _ Hw Hin) as [Hwd _].
  assert (dd_seq d < en_seq n) as Hsd.
  { unfold edents in Hseq. rewrite Forall_fmap, Forall_forall in Hseq. apply (Hseq _ Hin). }
  simpl. rewrite (proj2 (Z.eqb_neq a 0)) by (by apply (tree_in_addr _ _ _ _ Ht)).
  unfold node_less. rewrite !ST_bind_assoc, (ern_bind _ _ _ _ _ Hn), ST_bind_assoc, (ern_bind _ _ _ _ _ Ha), ST_ret_bind.
  simpl. rewrite key_less_last by done. rewrite (ern_bind _ _ _ _ _ Ha).
  assert (Forall (dle (off bd (dd_deadline d))) (elems l) ∧ Forall (λ e, off bd (dd_deadline d) <= off bd (dd_deadline e.2)) (elems r)) as [Hl Hr].
  { unfold edents in Hs. rewrite elems_plug in Hs. simpl in Hs. rewrite !fmap_app, StronglySorted_app in Hs.
    destruct Hs as (_ & _ & Hs). rewrite StronglySorted_app in Hs. destruct Hs as (_ & Hs & _).
    rewrite StronglySorted_app in Hs. simpl in Hs. rewrite StronglySorted_cons in Hs.
    destruct Hs as (H1 & _ & H2 & _). split.
    - apply Forall_forall. intros e He. unfold dle.
      destruct (H1 (edentry e) (edentry (a, d))) as [?|[E ?]]; [by apply list_elem_of_fmap_2|left|simpl in *; lia|simpl in *; by rewrite E].
    - rewrite Forall_fmap in H2. eapply Forall_impl; [exact H2|]. intros e [?|[E ?]]; simpl in *; [lia|by rewrite E]. }
  destruct (Z.ltb_spec (off bd (en_deadline n)) (off bd (dd_deadline d))) as [Hlt|Hge]; cbv iota.
  - apply (IH (Fr false a d r :: c) l); try done.
    + by apply tree_in_plug1.
    + simpl. by rewrite app_nil_r.
    + simpl. rewrite Forall_cons, Forall_app. split_and!; [done| |done].
      eapply Forall_impl; [exact Hr|]. unfold dgt. simpl. lia.
    + lia.
  - apply (IH (Fr true a d l :: c) r); try done.
    + by apply tree_in_plug1.
    + simpl. rewrite !Forall_app, Forall_cons. split_and!; [done| |done|done].
      eapply Forall_impl; [exact Hl|]. unfold dle. simpl. lia.
    + lia.
Qed.

(** ** Linking a fresh node *)
Lemma ed_link_spec s q hd c a n d :
  ed_lay s q hd c Leaf → es_nodes s !! a = Some n → (∀ p, set_parent p n = ed_mk p 0 0 d) →
  a ≠ 0 → a ∉ caddrs c →
  ∃ s', ewn a (set_parent (caddr c)) s = Some (tt, EdqState (<[a := ed_mk (caddr c) 0 0 d]> (es_nodes s)) (es_tasks s) (es_queues s) (es_error s)) ∧
    (match c with [] => ewq q (set_root a) | f :: _ => ewn (fr_addr f) (set_child (fr_dir f) a) end)
      (EdqState (<[a := ed_mk (caddr c) 0 0 d]> (es_nodes s)) (es_tasks s) (es_queues s) (es_error s)) = Some (tt, s') ∧
    ed_lay s' q hd c (T Leaf a d Leaf) ∧ ed_frame s s' q (a :: caddrs c).
Proof.
  intros [Hh [Hnd Hr Hc]] Hn Hmk Ha0 Hfresh. unfold ewn at 1. rewrite Hn, Hmk.
  assert (NoDup (0 :: a :: caddrs c)) as Hnd2.
  { simpl in Hnd. apply NoDup_cons in Hnd as [? ?]. apply NoDup_cons. split; [set_solver|by constructor]. }
  destruct c as [|[[] p pd ps] c]; simpl in Hh, Hc; destruct_and?; pose proof Hnd2 as Hnd'; nodup_facts Hnd'.
  all: unfold ewn, ewq; heap_run; eexists; split; [reflexivity|]; split; [reflexivity|].
  all: split; [split; [by heap_run|split]|split].
  all: try (simpl; exact Hnd2).
  all: try layout_tac.
  all: try (intros ? ?; by heap_run).
  all: try (intros ? Hx; nodup_facts Hx; by heap_run).
Qed.

(** The last statements of an update: the cached slice of the header. *)
Lemma msl_step {X} s q hd t (k : ST edq_state X) :
  ed_at be bd s q hd [] t →
  ∃ s', (root ← erq q eq_root;
         ms ← (if root =? NULL then mret 0 else ern root en_min_slice);
         ewq q (set_min_slice ms);; k) s = k s' ∧
    ed_at be bd s' q (EdHdr (hd_first hd) (hd_fdl hd) (msl_of t) (hd_nr hd) (hd_seq hd)) [] t ∧
    ed_frame s s' q [].
Proof.
  intros Hat. pose proof (lay_hdr _ _ _ _ _ (ea_lay _ _ _ _ _ _ _ Hat)) as Hq.
  rewrite (erq_bind _ _ _ _ _ Hq). simpl (eq_root _).
  destruct (at_hdr_step s q hd (EdHdr (hd_first hd) (hd_fdl hd) (msl_of t) (hd_nr hd) (hd_seq hd)) [] t
    (set_min_slice (msl_of t)) Hat) as (s' & Hw & Hat' & Hfr); [done|].
  exists s'. split_and!; [|done|done]. destruct t as [|l a d r].
  - rewrite Z.eqb_refl, ST_ret_bind. by rewrite (ST_bind_run _ _ _ _ _ Hw).
  - simpl. pose proof (lay_root _ _ _ _ _ _ _ _ (ea_lay _ _ _ _ _ _ _ Hat)) as Ha.
    rewrite (lay_nonnull _ _ _ _ _ a (ea_lay _ _ _ _ _ _ _ Hat)) by (simpl; set_solver).
    rewrite (ern_bind _ _ _ _ _ Ha). by rewrite (ST_bind_run _ _ _ _ _ Hw).
Qed.
End ok.
