(* ===== verification/EdqOps.v ===== *)
(** * Eligible deadline queue: insertion

    The statements of [scx_edq_insert] composed: a new task is linked behind
    every task whose deadline is not later, and the queue invariant holds
    again. *)

From S2P Require Import Prelude ArenaTree RedBlack ScxTime Edq EdqBase EdqTree EdqInsert EdqLink.

(** The store with the membership of a task changed. *)
Definition set_owner (s : edq_state) (a : Z) (k : scx_edq_task) : edq_state :=
  EdqState (es_nodes s) (<[a := k]> (es_tasks s)) (es_queues s) (es_error s).

Section ops.
Context (be bd : Z).
Implicit Types (s : edq_state) (c : ctx eddata) (t : tree eddata).

Lemma hparent_caddr c : hparent c NULL = caddr c.
Proof. by destruct c. Qed.

(** [propagate] up to the root restores the cached minimums. *)
Lemma propagate_at cl s q hd c t :
  ed_lay s q hd c t → aug t → augc_pre c → win be bd (plug c t) → (length c ≤ cl)%nat →
  ∃ s' c', propagate cl (caddr c) NULL s = Some (0, s') ∧ ed_at be bd s' q hd c' t ∧
    Forall2 remin c c' ∧ ed_frame s s' q (caddrs c).
Proof.
  intros Hl Ht Hc Hw Hcl. pose proof Hl as Hl0. apply ed_lay_top in Hl as [Hh [Hnd Hrep _]].
  simpl in Hnd. rewrite app_nil_r in Hnd.
  destruct (propagate_spec cl s c t NULL) as (h' & c' & Hrun & Hrep' & Hre & Haug & Hfr); try done.
  { by apply NoDup_cons in Hnd as [? _]. }
  rewrite hparent_caddr in Hrun. eexists _, c'. split_and!; [exact Hrun| |exact Hre|].
  - split; [|done|eapply win_edents; [|exact Hw]; by rewrite (remin_edents _ _ _ Hre)].
    apply ed_lay_top. split; [|split].
    + simpl. rewrite Hh. simpl. by rewrite !addr_plug, (remin_croot _ _ _ Hre).
    + simpl. rewrite app_nil_r, (remin_addrs _ _ _ Hre). exact Hnd.
    + exact Hrep'.
    + done.
  - split; simpl; try done.
Qed.

(** A cell of a node of the tree, found by membership. *)
Lemma lay_elem s q hd c t a d :
  ed_lay s q hd c t → (a, d) ∈ elems (plug c t) →
  ∃ p x y, es_nodes s !! a = Some (ed_mk p x y d) ∧ a ≠ 0.
Proof.
  intros Hl (c1 & l & r & E)%elem_focus. apply ed_lay_top in Hl. rewrite E in Hl.
  pose proof (lay_cell _ _ _ _ _ _ _ _ _ Hl) as Ha. eexists _, _, _. split; [exact Ha|].
  apply Z.eqb_neq. eapply lay_nonnull; [exact Hl|]. rewrite addrs_plug. simpl. set_solver.
Qed.

Lemma lay_ent s q hd c t e :
  ed_lay s q hd c t → e ∈ edents (plug c t) →
  ∃ n, es_nodes s !! ee_addr e = Some n ∧ ee_addr e ≠ 0 ∧ en_deadline n = ee_deadline e ∧
    en_seq n = ee_seq e ∧ en_eligibility n = ee_el e.
Proof.
  intros Hl ([a d] & -> & Hin)%list_elem_of_fmap.
  destruct (lay_elem _ _ _ _ _ _ _ Hl Hin) as (p & x & y & Ha & Hne). by eexists.
Qed.

(** Clearing and filling a node that is in no tree. *)
Lemma clear_links_out s q hd c t a n :
  ed_lay s q hd c t → a ∉ addrs t ++ caddrs c → es_nodes s !! a = Some n →
  ∃ s', node_clear_links a s = Some (tt, s') ∧ ed_lay s' q hd c t ∧ ed_frame s s' q [a] ∧
    es_nodes s' !! a = Some (set_right NULL (set_left NULL (set_parent NULL n))).
Proof.
  intros Hl Ha Hn. unfold node_clear_links.
  destruct (ewn_out _ _ _ _ _ _ _ (set_parent NULL) Hl Ha Hn) as (s1 & Hw1 & Hl1 & Hf1 & Hn1).
  rewrite (ST_bind_run _ _ _ _ _ Hw1).
  destruct (ewn_out _ _ _ _ _ _ _ (set_left NULL) Hl1 Ha Hn1) as (s2 & Hw2 & Hl2 & Hf2 & Hn2).
  rewrite (ST_bind_run _ _ _ _ _ Hw2).
  destruct (ewn_out _ _ _ _ _ _ _ (set_right NULL) Hl2 Ha Hn2) as (s3 & Hw3 & Hl3 & Hf3 & Hn3).
  exists s3. split_and!; [done..| |done]. ed_chain; set_solver.
Qed.

(** The first task after an insertion. *)
Lemma first_of_insert e l :
  first_of (insert_dl bd e l) =
  match l with
  | [] => (ee_addr e, ee_deadline e)
  | x :: _ => if off bd (ee_deadline x) <=? off bd (ee_deadline e)
              then (ee_addr x, ee_deadline x) else (ee_addr e, ee_deadline e)
  end.
Proof. destruct l as [|x l]; simpl; [done|]. by case_match. Qed.

(** The update of [edq->first] after linking. *)
Lemma first_step {X} s q hd c t a n e l (k : ST edq_state X) :
  ed_lay s q hd c t → win be bd (plug c t) →
  es_nodes s !! a = Some n → en_deadline n = ee_deadline e → en_seq n = ee_seq e → a = ee_addr e →
  in_window bd (ee_deadline e) → l ⊆ edents (plug c t) →
  Forall (λ x, ee_seq x < ee_seq e) l → (hd_first hd, hd_fdl hd) = first_of l →
  let f := first_of (insert_dl bd e l) in
  ∃ s', (first ← erq q eq_first;
         lessf ← (if first =? NULL then mret true else node_less a first);
         (if (lessf : bool) then ewq q (set_first a (ee_deadline e)) else mret tt);; k) s = k s' ∧
    ed_lay s' q (EdHdr f.1 f.2 (hd_msl hd) (hd_nr hd) (hd_seq hd)) c t ∧ ed_frame s s' q [] ∧
    es_nodes s' = es_nodes s.
Proof.
  intros Hl Hw Hn En Es Ea Hwe Hsub Hseq Hfirst f. unfold f. rewrite first_of_insert.
  pose proof (lay_hdr _ _ _ _ _ Hl) as Hq. rewrite (erq_bind _ _ _ _ _ Hq). simpl (eq_first _).
  assert (hd_first hd = (first_of l).1) as Hf1 by (by rewrite <-Hfirst).
  assert (hd_fdl hd = (first_of l).2) as Hf2 by (by rewrite <-Hfirst). clear Hfirst. rewrite Hf1.
  assert (∀ p dl, ∃ s', (ewq q (set_first p dl) ≫= λ _, k) s = k s' ∧
    ed_lay s' q (EdHdr p dl (hd_msl hd) (hd_nr hd) (hd_seq hd)) c t ∧ ed_frame s s' q [] ∧
    es_nodes s' = es_nodes s) as Hset.
  { intros p dl. destruct (hdr_step s q hd (EdHdr p dl (hd_msl hd) (hd_nr hd) (hd_seq hd)) c t
      (set_first p dl) Hl) as (s' & Hrun & ? & ? & ?); [done|].
    exists s'. by rewrite (ST_bind_run _ _ _ _ _ Hrun). }
  destruct l as [|x l]; simpl in *.
  - rewrite ST_ret_bind. subst a. by apply Hset.
  - assert (x ∈ edents (plug c t)) as Hx by set_solver.
    destruct (lay_ent _ _ _ _ _ _ Hl Hx) as (m & Hm & Hm0 & Em & Esm & _).
    rewrite (proj2 (Z.eqb_neq _ _)) by done. unfold node_less.
    rewrite !ST_bind_assoc, (ern_bind _ _ _ _ _ Hn), ST_bind_assoc, (ern_bind _ _ _ _ _ Hm), ST_ret_bind.
    simpl (id _). rewrite En, Es, Em, Esm. apply Forall_cons in Hseq as [Hsx _].
    unfold win in Hw. rewrite Forall_forall in Hw. destruct (Hw _ Hx) as [_ Hwx].
    rewrite (key_less_last bd) by done.
    destruct (Z.leb_spec (off bd (ee_deadline x)) (off bd (ee_deadline e))) as [Hle|Hgt].
    + rewrite (proj2 (Z.ltb_ge _ _)) by done. rewrite ST_ret_bind. exists s.
      split_and!; [done| |apply ed_frame_refl|done]. simpl. rewrite <-Hf1, <-Hf2. by destruct hd.
    + rewrite (proj2 (Z.ltb_lt _ _)) by done. subst a. by apply Hset.
Qed.

(** The statements that link a node at the place a search found. *)
Lemma link_run {X} s q hd c a n d (k : ST edq_state X) :
  ed_lay s q hd c Leaf → win be bd (plug c Leaf) → es_nodes s !! a = Some n →
  (∀ p, set_parent p n = ed_mk p 0 0 d) → a ≠ 0 → a ∉ caddrs c →
  in_window bd (dd_deadline d) → Forall (λ e, ee_seq e < dd_seq d) (edents (plug c Leaf)) →
  Forall (dle bd (off bd (dd_deadline d))) (cpre c) → Forall (dgt bd (off bd (dd_deadline d))) (cpost c) →
  ∃ s', (ewn a (set_parent (caddr c));;
         (if caddr c =? NULL then ewq q (set_root a) else
          less ← node_less a (caddr c);
          if (less : bool) then ewn (caddr c) (set_left a) else ewn (caddr c) (set_right a));; k) s = k s' ∧
    ed_lay s' q hd c (T Leaf a d Leaf) ∧ ed_frame s s' q (a :: caddrs c).
Proof.
  intros Hl Hw Hn Hmk Ha0 Hfresh Hwd Hseq Hpre Hpost.
  destruct (ed_link_spec s q hd c a n d Hl Hn Hmk Ha0 Hfresh) as (s' & Hw1 & Hw2 & Hl' & Hfr).
  exists s'. split_and!; [|done..]. rewrite (ST_bind_run _ _ _ _ _ Hw1). set (s1 := EdqState _ _ _ _) in *.
  destruct c as [|[dir p pd ps] c]; [simpl; by rewrite (ST_bind_run _ _ _ _ _ Hw2)|].
  cbn [caddr fr_addr fr_dir] in *.
  rewrite (proj2 (Z.eqb_neq p 0)) by (eapply (tree_in_caddr _ _ (Fr dir p pd ps)), lay_tree; exact Hl).
  assert (es_nodes s1 !! a = Some (ed_mk p 0 0 d)) as Hn1 by (simpl; by rewrite lookup_insert_eq).
  pose proof (lay_parent _ _ _ _ _ _ Hl) as Hp. cbn [fr_addr] in Hp.
  assert (es_nodes s1 !! p = Some (mk_frame ed_mk (caddr c) (Fr dir p pd ps) 0)) as Hp1.
  { simpl. rewrite lookup_insert_ne; [done|]. simpl in Hfresh. set_solver. }
  unfold node_less. rewrite !ST_bind_assoc, (ern_bind _ _ _ _ _ Hn1), ST_bind_assoc, (ern_bind _ _ _ _ _ Hp1), ST_ret_bind.
  assert ((p, pd) ∈ elems (plug (Fr dir p pd ps :: c) Leaf)) as Hin
    by (rewrite elems_plug; destruct dir; simpl; set_solver).
  destruct (win_elem be bd _ _ _ Hw Hin) as [Hwp _].
  assert (dd_seq pd < dd_seq d) as Hsp.
  { unfold edents in Hseq. rewrite Forall_fmap, Forall_forall in Hseq. apply (Hseq _ Hin). }
  assert (key_less (en_deadline (ed_mk p 0 0 d)) (en_seq (ed_mk p 0 0 d))
    (en_deadline (mk_frame ed_mk (caddr c) (Fr dir p pd ps) 0)) (en_seq (mk_frame ed_mk (caddr c) (Fr dir p pd ps) 0)) = negb dir) as E.
  { simpl. transitivity (key_less (dd_deadline d) (dd_seq d) (dd_deadline pd) (dd_seq pd)); [by destruct dir|].
    rewrite (key_less_last bd) by done. destruct dir; simpl in Hpre, Hpost.
    - rewrite !Forall_app, Forall_cons in Hpre. destruct Hpre as (_ & _ & Hle & _). by apply Z.ltb_ge.
    - rewrite Forall_cons in Hpost. destruct Hpost as (Hgt & _). by apply Z.ltb_lt. }
  destruct dir; simpl in Hw2, E |- *; rewrite E; by rewrite (ST_bind_run _ _ _ _ _ Hw2).
Qed.

Lemma ok_height_cl s q hd t cl :
  edq_ok be bd s q hd t → budget cl (length (edents t)) → (S (height t) < cl)%nat.
Proof.
  intros Hok Hcl. pose proof (rb_tree_height _ _ (proj1 (eo_rb _ _ _ _ _ _ Hok))).
  unfold budget, edents in Hcl. rewrite length_fmap in Hcl. lia.
Qed.

Lemma edents_addrs t : addrs t ≡ₚ ee_addr <$> edents t.
Proof. unfold edents. by rewrite addrs_elems, <-list_fmap_compose. Qed.

Lemma ok_fresh s q hd t a k :
  edq_ok be bd s q hd t → es_tasks s !! a = Some k → et_edq k = NULL → a ∉ addrs t.
Proof.
  intros Hok Hk Hn Hin. apply (eo_own _ _ _ _ _ _ Hok) in Hin as (k' & Hk' & E).
  destruct (eo_q _ _ _ _ _ _ Hok). congruence.
Qed.

(** The tree part of an insertion: from the linked red leaf to a consistent
    red-black tree. *)
Lemma insert_rebalance {X} cl s q hd c a d (k : Z → ST edq_state X) :
  ed_lay s q hd c (T Leaf a d Leaf) → mins d = (dd_el d, dd_sl d) → dd_red d = true →
  win be bd (plug c (T Leaf a d Leaf)) → aug (plug c Leaf) → rb_black dd_red (plug c Leaf) →
  (S (length c) < cl)%nat →
  ∃ s' t', (ret ← propagate cl (caddr c) NULL;
            ret ← (if ret =? 0 then insert_fixup cl q a else mret ret);
            root ← erq q eq_root;
            ms ← (if root =? NULL then mret 0 else ern root en_min_slice);
            ewq q (set_min_slice ms);;
            k ret) s = k 0 s' ∧
    ed_at be bd s' q (EdHdr (hd_first hd) (hd_fdl hd) (msl_of t') (hd_nr hd) (hd_seq hd)) [] t' ∧
    rb_black dd_red t' ∧ edents t' = edents (plug c (T Leaf a d Leaf)) ∧
    ed_frame s s' q (a :: caddrs c).
Proof.
  intros Hl Hm Hd Hw [_ Hc]%aug_plug [Hrb Htop] Hcl. rewrite is_red_plug in Htop.
  apply rb_tree_plug in Hrb as (n & -> & Hc0). simpl in Htop, Hc0.
  destruct (propagate_at cl s q hd c (T Leaf a d Leaf)) as (s1 & c1 & Hrun1 & Hat1 & Hre & Hfr1); try done.
  { by eapply augc_augc_pre. }
  { lia. }
  rewrite (ST_bind_run _ _ _ _ _ Hrun1). rewrite Z.eqb_refl.
  destruct (insert_fixup_spec be bd cl s1 q hd c1 (T Leaf a d Leaf) 0 Hat1)
    as (s2 & t' & Hrun2 & Hat2 & Hrb2 & He & Hfr2).
  - done.
  - simpl. by rewrite Hd.
  - by eapply remin_rbc.
  - by rewrite (remin_ctop _ _ _ Hre).
  - apply Forall2_length in Hre. lia.
  - unfold insert_fixup. simpl in Hrun2. rewrite (ST_bind_run _ _ _ _ _ Hrun2).
    destruct (msl_step be bd s2 q hd t' (k 0) Hat2) as (s3 & Hrun3 & Hat3 & Hfr3).
    exists s3, t'. split_and!; [done..| |].
    + by rewrite He, (remin_edents _ _ _ Hre).
    + rewrite (remin_caddrs _ _ Hre) in Hfr2. ed_chain; simpl; set_solver.
Qed.

(** ** The whole insertion *)
Lemma edq_insert_spec cl s q hd t a k n dl el sl :
  edq_ok be bd s q hd t → es_tasks s !! a = Some k → et_edq k = NULL → a ≠ NULL →
  es_nodes s !! a = Some n → in_window bd dl → in_window be el →
  0 <= hd_seq hd < two64 - 1 → hd_nr hd < two64 - 1 → budget cl (length (edents t)) →
  ∃ s' hd' t', scx_edq_insert cl 0 q a dl el sl s = Some (0, s') ∧ edq_ok be bd s' q hd' t' ∧
    edents t' = insert_dl bd (EdEnt a dl el sl (hd_seq hd)) (edents t) ∧ hd_seq hd' = hd_seq hd + 1 ∧
    ed_frame (set_owner s a (set_edq q k)) s' q (a :: addrs t).
Proof.
  intros Hok Hk Hk0 Ha0 Hn Hwd Hwe Hseq Hnr Hcl.
  pose proof (ok_fresh _ _ _ _ _ _ Hok Hk Hk0) as Hfresh. pose proof (ok_height_cl _ _ _ _ _ Hok Hcl) as Hh.
  pose proof (eo_at _ _ _ _ _ _ Hok) as [Hl0 Haug Hwin]. simpl in Haug, Hwin.
  set (s0 := set_owner s a (set_edq q k)). set (d := EdData dl el el sl sl (hd_seq hd) true).
  set (e := EdEnt a dl el sl (hd_seq hd)).
  assert (ed_lay s0 q hd [] t) as Hl by (by destruct Hl0). assert (a ∉ addrs t ++ caddrs ([] : ctx eddata)) as Hf' by (by rewrite app_nil_r).
  unfold scx_edq_insert. simpl (negb (0 =? 0)). cbv iota. rewrite (ert_bind _ _ _ _ _ Hk), Hk0. cbn [Z.eqb negb].
  assert (ewt a (set_edq q) s = Some (tt, s0)) as Hw0 by (unfold ewt; by rewrite Hk).
  rewrite (ST_bind_run _ _ _ _ _ Hw0).
  destruct (clear_links_out _ _ _ _ _ _ _ Hl Hf' Hn) as (s1 & Hw1 & Hl1 & Hfr1 & Hn1).
  rewrite (ST_bind_run _ _ _ _ _ Hw1), (erq_bind _ _ _ _ _ (lay_hdr _ _ _ _ _ Hl1)). simpl (eq_seq _).
  match goal with |- context [ewn a ?f ≫= _] =>
    destruct (ewn_out _ _ _ _ _ _ _ f Hl1 Hf' Hn1) as (s2 & Hw2 & Hl2 & Hfr2 & Hn2) end.
  rewrite (ST_bind_run _ _ _ _ _ Hw2). simpl in Hn2.
  destruct (hdr_step s2 q hd (EdHdr (hd_first hd) (hd_fdl hd) (hd_msl hd) (hd_nr hd) (hd_seq hd + 1)) [] t
    (set_seq (u64 (hd_seq hd + 1))) Hl2) as (s3 & Hw3 & Hl3 & Hfr3 & En3).
  { intros p. rewrite u64_small by (unfold is_u64; lia). done. }
  rewrite (ST_bind_run _ _ _ _ _ Hw3), (erq_bind _ _ _ _ _ (lay_hdr _ _ _ _ _ Hl3)). simpl (eq_root _).
  rewrite <-En3 in Hn2.
  destruct (find_spec be bd cl s3 [] t a _ (lay_tree _ _ _ _ _ Hl3) Hwin Hn2) as (c & Hrun4 & Et & Hpre & Hpost);
    try done; [apply Hok|apply Hok|lia|].
  simpl in Hrun4. rewrite (ST_bind_run _ _ _ _ _ Hrun4). cbn [Z.eqb negb]. cbv iota. simpl in Et, Hpre, Hpost.
  assert (length c ≤ height t)%nat as Hlen by (rewrite Et; pose proof (length_ctx_height c Leaf); lia).
  rewrite Et, addrs_plug in Hfresh. simpl in Hfresh.
  assert (ed_lay s3 q (EdHdr (hd_first hd) (hd_fdl hd) (hd_msl hd) (hd_nr hd) (hd_seq hd + 1)) c Leaf) as Hl4
    by (apply ed_lay_top; by rewrite <-Et).
  pose proof (λ K m, @link_run Z s3 q _ c a m d K Hl4) as Hlink. rewrite <-Et in Hlink.
  edestruct Hlink as (s4 & Hrun5 & Hl5 & Hfr5);
    [done|exact Hn2|done|done|done|done|apply Hok|done|done|].
  rewrite Hrun5. clear Hlink Hrun5.
  assert (edents (plug c (T Leaf a d Leaf)) = insert_dl bd e (edents t)) as Ee.
  { rewrite Et, !edents_plug. unfold edents at 1 2. simpl. rewrite insert_dl_split; [done|by apply Forall_fmap..]. }
  assert (win be bd (plug c (T Leaf a d Leaf))) as Hwin5.
  { unfold win. rewrite Ee, insert_dl_perm. by constructor. }
  pose proof (lay_root _ _ _ _ _ _ _ _ Hl5) as Ha5.
  pose proof (λ K, @first_step Z s4 q _ c (T Leaf a d Leaf) a _ e (edents t) K Hl5 Hwin5 Ha5) as Hfst.
  edestruct Hfst as (s5 & Hrun6 & Hl6 & Hfr6 & En6);
    [done|done|done|done|rewrite Ee, insert_dl_perm; set_solver|apply Hok|apply Hok|].
  rewrite Hrun6. clear Hrun6 Hfst.
  match type of Hl6 with ed_lay _ _ (EdHdr ?f ?g ?m ?nr ?sq) _ _ =>
    destruct (hdr_step s5 q _ (EdHdr f g m (nr + 1) sq) c (T Leaf a d Leaf)
      (λ q, set_nr (u64 (eq_nr q + 1)) q) Hl6) as (s6 & Hw7 & Hl7 & Hfr7 & En7) end.
  { intros p. unfold set_nr. simpl. rewrite u64_small; [done|]. rewrite (eo_nr _ _ _ _ _ _ Hok) in *. unfold is_u64. lia. }
  rewrite (ST_bind_run _ _ _ _ _ Hw7).
  destruct (insert_rebalance cl s6 q _ c a d mret Hl7) as (s7 & t' & Hrun8 & Hat8 & Hrb8 & He8 & Hfr8);
    [done|done|done|by rewrite <-Et|rewrite <-Et; apply Hok|lia|].
  rewrite Hrun8. match type of Hat8 with ed_at _ _ _ _ ?h _ _ => exists s7, h, t' end.
  assert (ed_frame s0 s7 q (a :: addrs t)) as Hfr.
  { rewrite Et. assert (∀ x, x ∈ caddrs c → x ∈ addrs (plug c Leaf)) by (intros x; rewrite addrs_plug; done).
    ed_chain; set_solver. }
  split_and!; [done| |by rewrite He8|done|exact Hfr].
  rewrite Ee in He8. split; simpl.
  - apply Hok.
  - exact Hat8.
  - done.
  - rewrite He8. apply insert_dl_sorted; [apply Hwd| |apply Hok].
    pose proof (eo_seq _ _ _ _ _ _ Hok) as Hs. rewrite Forall_forall in *. intros x Hx. split; [|by apply Hs].
    unfold win in Hwin. rewrite Forall_forall in Hwin. apply (Hwin x Hx).
  - by rewrite He8, <-surjective_pairing.
  - rewrite He8, insert_dl_perm, (eo_nr _ _ _ _ _ _ Hok). simpl. lia.
  - done.
  - rewrite He8, insert_dl_perm. constructor; [simpl; lia|]. eapply Forall_impl; [apply (eo_seq _ _ _ _ _ _ Hok)|]. simpl. lia.
  - intros b. rewrite edents_addrs, He8, insert_dl_perm. simpl. rewrite <-edents_addrs, elem_of_cons.
    rewrite (ef_tasks _ _ _ _ Hfr). simpl. rewrite (eo_own _ _ _ _ _ _ Hok). destruct (decide (b = a)) as [->|Hb].
    + rewrite lookup_insert_eq. split; [intros _; by eexists|by left].
    + rewrite lookup_insert_ne by done. naive_solver.
Qed.
End ops.
