(* ===== verification/EdqErase.v ===== *)
(** * Eligible deadline queue: rebalancing after a removal

    [erase_fixup] restores the red-black discipline, with a black root, after
    a black node left the tree, and keeps entries and cached minimums. *)

From S2P Require Import Prelude ArenaTree RedBlack ScxTime Edq EdqBase EdqTree EdqInsert.

Section erase.
Context (be bd : Z).
Implicit Types (s : edq_state) (c : ctx eddata) (t x y u : tree eddata).

(** Reading the colour of a subtree of the focused tree. *)
Lemma at_red s q hd c c1 t :
  ed_at be bd s q hd c (plug c1 t) → node_red (addr t) s = Some (is_red dd_red t, s).
Proof. intros [Hl _ _]. by eapply lay_red. Qed.

Lemma at_cell s q hd c c1 dir x a d y :
  ed_at be bd s q hd c (plug c1 (bin dir x a d y)) →
  ∃ n, es_nodes s !! a = Some n ∧ en_child dir n = addr x ∧ en_child (negb dir) n = addr y ∧
    en_red n = dd_red d ∧ en_parent n = caddr (c1 ++ c).
Proof. intros [Hl _ _]. by apply (lay_cell_bin _ _ _ _ _ _ _ _ _ _ Hl). Qed.

Lemma plug_far dir x p pd y : plug [Fr (negb dir) p pd x] y = bin dir x p pd y.
Proof. by rewrite plug_bin1, bin_flip. Qed.

(** The last statements of a side, the sibling's far child being a node. *)
Definition erase_tail (dir : bool) (edq parent sibling : Z) : ST edq_state unit :=
  pc ← ern parent en_red;
  ewn sibling (set_red pc);;
  ewn parent (set_red false);;
  far ← ern sibling (en_child (negb dir));
  ewn far (set_red false);;
  rotate dir edq parent;;
  mret tt.

Lemma erase_tail_spec s q hd c dir t p pd x b bd' y1 z zd y2 :
  ed_at be bd s q hd c (bin dir t p pd (bin dir x b bd' (bin dir y1 z zd y2))) →
  ∃ s' pd' b', erase_tail dir q p b s = Some (tt, s') ∧
    ed_at be bd s' q hd c (bin dir (bin dir t p pd' x) b b' (bin dir y1 z (paint false zd) y2)) ∧
    edentry (p, pd') = edentry (p, pd) ∧ dd_red pd' = false ∧
    edentry (b, b') = edentry (b, bd') ∧ dd_red b' = dd_red pd ∧
    ed_frame s s' q (addrs (bin dir t p pd (bin dir x b bd' (bin dir y1 z zd y2))) ++ caddrs c).
Proof.
  intros Hat. unfold erase_tail.
  destruct (at_cell s q hd c [] _ _ _ _ _ Hat) as (n & Hp & _ & _ & Hr & _).
  rewrite (ern_bind _ _ _ _ _ Hp), Hr. rewrite <-(plug_far dir) in Hat.
  destruct (ed_paint_in _ _ _ _ _ _ _ _ _ _ _ _ (dd_red pd) Hat) as (s1 & Hw1 & Hat1 & Hfr1).
  rewrite (ST_bind_run _ _ _ _ _ Hw1). rewrite plug_far in Hat1.
  destruct (ed_paint_in _ _ _ _ _ _ [] _ _ _ _ _ false Hat1) as (s2 & Hw2 & Hat2 & Hfr2).
  rewrite (ST_bind_run _ _ _ _ _ Hw2). cbn [plug] in Hat2. rewrite <-(plug_far dir) in Hat2.
  destruct (at_cell _ _ _ _ _ _ _ _ _ _ Hat2) as (m & Hb & _ & Hc & _). rewrite addr_bin in Hc.
  rewrite (ern_bind _ _ _ _ _ Hb), Hc. rewrite plug_far in Hat2.
  assert (ed_at be bd s2 q hd c (plug [Fr (negb dir) b (paint (dd_red pd) bd') x; Fr (negb dir) p (paint false pd) t]
    (bin dir y1 z zd y2))) as Hat3.
  { change (plug [?f; ?g] ?v) with (plug [g] (plug [f] v)). by rewrite !plug_far. }
  destruct (ed_paint_in _ _ _ _ _ _ _ _ _ _ _ _ false Hat3) as (s3 & Hw3 & Hat4 & Hfr3).
  rewrite (ST_bind_run _ _ _ _ _ Hw3). change (plug [?f; ?g] ?v) with (plug [g] (plug [f] v)) in Hat4.
  rewrite !plug_far in Hat4.
  destruct (rotate_spec _ _ _ _ _ _ _ _ _ _ _ _ _ _ Hat4) as (s4 & pd' & b' & Hw4 & Hat5 & Ep & Rp & Eb & Rb & Hfr4).
  rewrite (ST_bind_run _ _ _ _ _ Hw4). exists s4, pd', b'. split_and!; [done..|].
  ed_chain; destruct dir; addr_sub.
Qed.

(** A black sibling with a red child. *)
Lemma erase_rotate_spec s q hd c dir t p pd x b bd' y n :
  ed_at be bd s q hd c (bin dir t p pd (bin dir x b bd' y)) →
  (red x ∨ red y) → RB t n → black t → RB x n → RB y n →
  ∃ s' t', erase_rotate dir q p b s = Some (tt, s') ∧ ed_at be bd s' q hd c t' ∧
    edents t' = edents (bin dir t p pd (bin dir x b bd' y)) ∧
    RB t' (if dd_red pd then S n else S (S n)) ∧ is_red dd_red t' = dd_red pd ∧
    ed_frame s s' q (addrs (bin dir t p pd (bin dir x b bd' y)) ++ caddrs c).
Proof.
  intros Hat Hred Ht Htb Hx Hy. unfold erase_rotate. pose proof Hat as Hat0. rewrite <-(plug_far dir) in Hat0.
  destruct (at_cell _ _ _ _ _ _ _ _ _ _ Hat0) as (m & Hb & Hcx & Hcy & _).
  rewrite (ern_bind _ _ _ _ _ Hb), Hcy.
  rewrite (ST_bind_run _ _ _ _ _ (at_red s q hd c [Fr (negb dir) b bd' x; Fr (negb dir) p pd t] y
    ltac:(change (plug [?f; ?g] ?v) with (plug [g] (plug [f] v)); by rewrite !plug_far))).
  destruct (is_red dd_red y) eqn:Ey; cbn [negb].
  - destruct (tree_bin dir y (red_nonleaf _ Ey)) as (y1 & z & zd & y2 & ->).
    rewrite is_red_bin in Ey. rewrite rbt_bin, Ey in Hy. rewrite ST_ret_bind.
    destruct (erase_tail_spec _ _ _ _ _ _ _ _ _ _ _ _ _ _ _ Hat) as (s' & pd' & b' & Hrun & Hat' & Ep & Rp & Eb & Rb & Hfr).
    eexists s', _. split_and!; [exact Hrun|exact Hat'|edents_tac dir| |by rewrite is_red_bin|exact Hfr].
    assert (RB (bin dir t p pd' x) (S n)) by (rewrite rbt_bin, Rp; naive_solver).
    assert (RB (bin dir y1 z (paint false zd) y2) (S n)) by (rewrite rbt_bin; simpl; naive_solver).
    rewrite rbt_bin, Rb, !is_red_bin. destruct (dd_red pd); naive_solver.
  - destruct Hred as [Hred|]; [|done].
    destruct (tree_bin dir x (red_nonleaf _ Hred)) as (x1 & k & kd & x2 & ->).
    rewrite is_red_bin in Hred. rewrite rbt_bin, Hred in Hx. rewrite addr_bin in Hcx.
    rewrite !ST_bind_assoc, (ern_bind _ _ _ _ _ Hb), Hcx.
    assert (ed_at be bd s q hd c (plug [Fr dir b bd' y; Fr (negb dir) p pd t] (bin dir x1 k kd x2))) as Hat1.
    { change (plug [?f; ?g] ?v) with (plug [g] (plug [f] v)). by rewrite plug_far, plug_bin1. }
    destruct (ed_paint_in _ _ _ _ _ _ _ _ _ _ _ _ false Hat1) as (s1 & Hw1 & Hat2 & Hfr1).
    rewrite ST_bind_assoc, (ST_bind_run _ _ _ _ _ Hw1). change (plug [?f; ?g] ?v) with (plug [g] (plug [f] v)) in Hat2.
    rewrite plug_far, plug_bin1, <-(plug_far dir) in Hat2.
    destruct (ed_paint_in _ _ _ _ _ _ _ _ _ _ _ _ true Hat2) as (s2 & Hw2 & Hat3 & Hfr2).
    rewrite ST_bind_assoc, (ST_bind_run _ _ _ _ _ Hw2). rewrite <-(bin_flip dir), <-(bin_flip dir x1) in Hat3.
    destruct (ed_rotate_in _ _ _ _ _ _ _ _ _ _ _ _ _ _ _ Hat3) as (s3 & b1 & k1 & Hw3 & Hat4 & Eb & Rb & Ek & Rk & Hfr3).
    rewrite (ST_bind_run _ _ _ _ _ Hw3). rewrite !bin_flip, plug_far in Hat4.
    destruct (erase_tail_spec _ _ _ _ _ _ _ _ _ _ _ _ _ _ _ Hat4) as (s' & pd' & k2 & Hrun & Hat' & Ep & Rp & Ek2 & Rk2 & Hfr).
    eexists s', _. split_and!; [exact Hrun|exact Hat'|edents_tac dir| |by rewrite is_red_bin|].
    + assert (RB (bin dir t p pd' x1) (S n)) by (rewrite rbt_bin, Rp; naive_solver).
      assert (RB (bin dir x2 b (paint false b1) y) (S n)) by (rewrite rbt_bin; simpl; naive_solver).
      rewrite rbt_bin, Rk2, !is_red_bin. destruct (dd_red pd); naive_solver.
    + ed_chain; rewrite ?plug_far; destruct dir; cbn [negb]; addr_sub.
Qed.

(** The test for a red child of the sibling. *)
Lemma red_children {X} s q hd c c1 dir x b d y (m1 m2 : ST edq_state X) :
  ed_at be bd s q hd c (plug c1 (bin dir x b d y)) →
  (l ← ern b en_left;
   lr ← node_red l;
   r ← ern b en_right;
   rr ← (if (lr : bool) then mret true else node_red r);
   if negb (lr || rr) then m1 else m2) s =
  (if is_red dd_red x || is_red dd_red y then m2 else m1) s.
Proof.
  intros Hat. assert (∃ l r, bin dir x b d y = T l b d r ∧
    is_red dd_red x || is_red dd_red y = is_red dd_red l || is_red dd_red r) as (l & r & E & ->).
  { destruct dir; simpl; eexists _, _; split; try done. apply orb_comm. }
  rewrite E in Hat. pose proof (lay_cell _ _ _ _ _ _ _ _ _ (ea_lay _ _ _ _ _ _ _ Hat)) as Hb.
  rewrite (ern_bind _ _ _ _ _ Hb). simpl.
  rewrite (ST_bind_run _ _ _ _ _ (at_red s q hd c (Fr false b d r :: c1) l Hat)).
  rewrite (ern_bind _ _ _ _ _ Hb). simpl.
  destruct (is_red dd_red l); simpl; [done|].
  rewrite (ST_bind_run _ _ _ _ _ (at_red s q hd c (Fr true b d l :: c1) r Hat)).
  by destruct (is_red dd_red r).
Qed.

(** What one iteration of [erase_fixup] leaves at the focus: a finished
    subtree, or a black subtree that is one black node short. *)
Definition iterated s s' q hd c t0 p pd n (r : Z + Z * Z) : Prop :=
  ∃ t', ed_at be bd s' q hd c t' ∧ edents t' = edents t0 ∧ ed_frame s s' q (addrs t0 ++ caddrs c) ∧
    ((r = inl 0 ∧ RB t' (if dd_red pd then S n else S (S n)) ∧ (dd_red pd = false → black t')) ∨
     (r = inr (p, caddr c) ∧ dd_red pd = false ∧ RB t' (S n) ∧ black t' ∧ addr t' = p)).

(** The statements of a side from the test on, at a black sibling. *)
Lemma erase_rest_spec s q hd c dir t p pd x b bd' y n :
  ed_at be bd s q hd c (bin dir t p pd (bin dir x b bd' y)) → dd_red bd' = false →
  RB t n → black t → RB x n → RB y n →
  ∃ r s', (l ← ern b en_left;
           lr ← node_red l;
           r ← ern b en_right;
           rr ← (if (lr : bool) then mret true else node_red r);
           if negb (lr || rr) then
             ewn b (set_red true);;
             pc ← ern p en_red;
             if (pc : bool) then ewn p (set_red false);; mret (inl 0) else
             gp ← ern p en_parent;
             mret (inr (p, gp))
           else
             erase_rotate dir q p b;;
             mret (inl 0)) s = Some (r, s') ∧
    iterated s s' q hd c (bin dir t p pd (bin dir x b bd' y)) p pd n r.
Proof.
  intros Hat Hbb Ht Htb Hx Hy. pose proof Hat as Hat0. rewrite <-(plug_far dir) in Hat0.
  rewrite (red_children _ _ _ _ _ _ _ _ _ _ _ _ Hat0).
  destruct (is_red dd_red x || is_red dd_red y) eqn:Ered.
  - apply orb_true_iff in Ered.
    destruct (erase_rotate_spec _ _ _ _ _ _ _ _ _ _ _ _ _ Hat Ered Ht Htb Hx Hy) as (s' & t' & Hrun & Hat' & He & Hrb & Hr & Hfr).
    exists (inl 0), s'. rewrite (ST_bind_run _ _ _ _ _ Hrun). split; [done|]. exists t'. split_and!; [done..|].
    left. split_and!; [done..|]. by rewrite Hr.
  - apply orb_false_iff in Ered as [Hxb Hyb].
    destruct (ed_paint_in _ _ _ _ _ _ _ _ _ _ _ _ true Hat0) as (s1 & Hw1 & Hat1 & Hfr1).
    rewrite (ST_bind_run _ _ _ _ _ Hw1). rewrite plug_far in Hat1.
    assert (RB (bin dir x b (paint true bd') y) n) as Hb by (by rewrite rbt_bin).
    destruct (at_cell s1 q hd c [] _ _ _ _ _ Hat1) as (m & Hp & _ & _ & Hr & Hpp).
    rewrite (ern_bind _ _ _ _ _ Hp), Hr. destruct (dd_red pd) eqn:Epd.
    + destruct (ed_paint_in _ _ _ _ _ _ [] _ _ _ _ _ false Hat1) as (s2 & Hw2 & Hat2 & Hfr2).
      rewrite (ST_bind_run _ _ _ _ _ Hw2). exists (inl 0), s2. split; [done|].
      eexists. split_and!; [exact Hat2|cbn [plug]; edents_tac dir|ed_chain; destruct dir; addr_sub|].
      left. rewrite Epd. split_and!; [done| |done]. cbn [plug]. rewrite rbt_bin. simpl. eauto.
    + rewrite (ern_bind _ _ _ _ _ Hp), Hpp. exists (inr (p, caddr c)), s1. split; [done|].
      eexists. split_and!; [exact Hat1|edents_tac dir|ed_chain; destruct dir; addr_sub|].
      right. rewrite is_red_bin, addr_bin. split_and!; [done|done| |done|done]. rewrite rbt_bin, Epd. eauto.
Qed.

(** One iteration. *)
Lemma erase_side_spec s q hd c dir t p pd u n :
  ed_at be bd s q hd c (bin dir t p pd u) → RB t n → black t → RB u (S n) →
  (dd_red pd = true → black u) →
  ∃ r s', erase_fixup_side dir q p s = Some (r, s') ∧ iterated s s' q hd c (bin dir t p pd u) p pd n r.
Proof.
  intros Hat Ht Htb Hu Hpu. unfold erase_fixup_side.
  destruct (at_cell s q hd c [] _ _ _ _ _ Hat) as (m & Hp & _ & Hcu & _ & _).
  rewrite (ern_bind _ _ _ _ _ Hp), Hcu.
  destruct (tree_bin dir u) as (x & b & bd' & y & ->); [by intros ->|].
  rewrite addr_bin. rewrite (lay_nonnull _ _ _ _ _ b (ea_lay _ _ _ _ _ _ _ Hat)) by (destruct dir; simpl; set_solver).
  pose proof (at_red s q hd c [Fr (negb dir) p pd t] (bin dir x b bd' y)) as Hbr. rewrite plug_far, addr_bin, is_red_bin in Hbr.
  rewrite (ST_bind_run _ _ _ _ _ (Hbr Hat)). destruct (dd_red bd') eqn:Ebd; cbv iota.
  2: { rewrite ST_ret_bind. rewrite rbt_bin, Ebd in Hu. destruct Hu as (m' & [= <-] & Hx & Hy). cbn [andb].
       by apply erase_rest_spec. }
  rewrite is_red_bin, Ebd in Hpu. destruct (dd_red pd) eqn:Epd; [by specialize (Hpu eq_refl)|]. clear Hpu.
  rewrite rbt_bin, Ebd in Hu. destruct Hu as (Hxb & Hyb & Hx & Hy).
  pose proof Hat as Hat0. rewrite <-(plug_far dir) in Hat0.
  destruct (ed_paint_in _ _ _ _ _ _ _ _ _ _ _ _ false Hat0) as (s1 & Hw1 & Hat1 & Hfr1).
  rewrite !ST_bind_assoc, (ST_bind_run _ _ _ _ _ Hw1). rewrite plug_far in Hat1.
  destruct (ed_paint_in _ _ _ _ _ _ [] _ _ _ _ _ true Hat1) as (s2 & Hw2 & Hat2 & Hfr2).
  rewrite ST_bind_assoc, (ST_bind_run _ _ _ _ _ Hw2). cbn [plug] in Hat2.
  destruct (rotate_spec _ _ _ _ _ _ _ _ _ _ _ _ _ _ Hat2) as (s3 & pd' & b' & Hw3 & Hat3 & Ep & Rp & Eb & Rb & Hfr3).
  rewrite ST_bind_assoc, (ST_bind_run _ _ _ _ _ Hw3). rewrite <-(plug_bin1 dir) in Hat3.
  destruct (at_cell _ _ _ _ _ _ _ _ _ _ Hat3) as (m2 & Hp2 & _ & Hcx & _).
  rewrite (ern_bind _ _ _ _ _ Hp2), Hcx.
  destruct (tree_bin dir x) as (x1 & k & kd & x2 & ->); [by intros ->|].
  rewrite addr_bin. rewrite (lay_nonnull _ _ _ _ _ k (ea_lay _ _ _ _ _ _ _ Hat)) by (destruct dir; simpl; set_solver). cbn [andb].
  rewrite is_red_bin in Hxb. rewrite rbt_bin, Hxb in Hx. destruct Hx as (m' & [= <-] & Hx1 & Hx2).
  apply ed_at_plug in Hat3. cbn [app] in Hat3.
  destruct (erase_rest_spec _ _ _ _ _ _ _ _ _ _ _ _ _ Hat3 Hxb Ht Htb Hx1 Hx2) as (r & s' & Hrun & t' & Hat' & He & Hfr & Hcase).
  exists r, s'. split; [exact Hrun|]. simpl in Rp, Rb. destruct Hcase as [(-> & Hrb & _)|(_ & Hc & _)]; [|congruence].
  rewrite Rp in Hrb. rewrite ed_at_plug1, plug1_bin in Hat'. eexists. split_and!; [exact Hat'| | |].
  - cbn [fr_dir fr_addr fr_data fr_sib]. rewrite edents_bin, He. edents_tac dir.
  - ed_chain; destruct dir; addr_sub.
  - left. split_and!; [done| |intros _; by rewrite is_red_bin]. rewrite Epd, rbt_bin. simpl. rewrite Rb. eauto.
Qed.

(** ** The loop *)
Definition erased s s' q hd c t : Prop :=
  ∃ t', ed_at be bd s' q hd [] t' ∧ rb_black dd_red t' ∧ edents t' = edents (plug c t) ∧
    ed_frame s s' q (addrs t ++ caddrs c).

Lemma erase_fixup_spec cl s q hd c t n :
  ed_at be bd s q hd c t → RB t n → black t → rbc dd_red c (S n) false → ctop dd_red c false = false →
  (length c ≤ cl)%nat →
  ∃ s', erase_fixup_loop cl q (addr t) (caddr c) s = Some (0, s') ∧ erased s s' q hd c t.
Proof.
  revert s c t n. induction cl as [|cl IH]; intros s c t n Hat Ht Htb Hc Htop Hcl;
    (destruct c as [|[dir p pd u] c]; [exists s; simpl; split; [done|];
       exists t; split_and!; [done|by split; [exists n|]|done|apply ed_frame_refl]|]);
    simpl in Hcl; [lia|].
  simpl in Hc, Htop. cbn [caddr fr_addr erase_fixup_loop].
  rewrite (proj2 (Z.eqb_neq p _)) by (eapply (tree_in_caddr _ _ (Fr dir p pd u)), lay_tree, ea_lay; exact Hat).
  pose proof (lay_parent _ _ _ _ _ _ (ea_lay _ _ _ _ _ _ _ Hat)) as Hp. cbn [fr_addr] in Hp.
  rewrite (ern_bind _ _ _ _ _ Hp).
  assert (RB u (S n)) as Hu by (case_match; naive_solver).
  assert (negb (addr t =? en_left (mk_frame ed_mk (caddr c) (Fr dir p pd u) (addr t))) = dir) as ->.
  { destruct dir; simpl; [|by rewrite Z.eqb_refl]. destruct u as [|ul ua ud ur]; [done|].
    destruct (lay_tree _ _ _ _ _ (ea_lay _ _ _ _ _ _ _ Hat)) as [Hnd _ _]. nodup_facts Hnd.
    rewrite (proj2 (Z.eqb_neq _ _)); [done|]. simpl. ptr_neq. }
  pose proof Hat as Hat0. rewrite ed_at_plug1, plug1_bin in Hat. cbn [fr_dir fr_addr fr_data fr_sib] in Hat.
  destruct (erase_side_spec s q hd c dir t p pd u n Hat Ht Htb Hu) as (r & s1 & Hrun & t' & Hat' & He & Hfr & Hcase).
  { intros E. rewrite E in Hc. by destruct Hc as (_ & ? & _). }
  rewrite (ST_bind_run _ _ _ _ _ Hrun).
  assert (edents (plug c t') = edents (plug (Fr dir p pd u :: c) t)) as Hee.
  { cbn [plug]. rewrite plug1_bin. by apply edents_plug_cong. }
  destruct Hcase as [(-> & Hrb & Hblk)|(-> & Epd & Hrb & Hblk & Ea)].
  - exists s1. split; [done|]. exists (plug c t'). split_and!; [by apply ed_at_top in Hat'| |done|].
    2: { eapply ed_frame_mono; [exact Hfr|]. destruct dir; addr_sub. }
    destruct (dd_red pd) eqn:Epd.
    + destruct Hc as (_ & _ & _ & Hc). apply rb_black_plug with (S n); [done| |].
      * destruct (is_red dd_red t'); [done|by apply rbc_weaken].
      * destruct c; [done|by destruct (is_red dd_red t')].
    + destruct Hc as (_ & Hc). specialize (Hblk eq_refl). apply rb_black_plug with (S (S n)); by rewrite ?Hblk.
  - rewrite Epd in Hc. destruct Hc as (_ & Hc). rewrite Epd in Htop.
    destruct (IH s1 c t' (S n) Hat' Hrb Hblk Hc Htop ltac:(lia)) as (s' & Hrun' & t2 & Hat2 & Hrb2 & He2 & Hfr2).
    rewrite Ea in Hrun'. exists s'. split; [done|]. exists t2. split_and!; [done|done|by rewrite He2|].
    assert (addrs t' ≡ₚ addrs (bin dir t p pd u)) as Hperm.
    { assert (∀ v, addrs v ≡ₚ ee_addr <$> edents v) as Hea
        by (intros v; unfold edents; by rewrite addrs_elems, <-list_fmap_compose).
      by rewrite !Hea, He. }
    eapply ed_frame_trans; [eapply ed_frame_mono; [exact Hfr|destruct dir; addr_sub]|exact Hfr2|].
    intros z. rewrite elem_of_app, Hperm. revert z. setoid_rewrite <-elem_of_app. destruct dir; addr_sub.
Qed.
End erase.
