(* ===== verification/EdqRemove.v ===== *)
(** * Eligible deadline queue: unlinking a node

    The pointer part of [remove_locked]: a node with at most one child is
    spliced out, a node with two children is replaced by its successor, whose
    old path is refreshed while it is detached. *)

From S2P Require Import Prelude ArenaTree RedBlack ScxTime Edq EdqBase EdqTree EdqInsert EdqLink EdqOps.

(** The root repainted. *)
Definition paint_root (b : bool) (t : tree eddata) : tree eddata :=
  match t with Leaf => Leaf | T l a d r => T l a (paint b d) r end.

Section unlink.
Context (be bd : Z).
Implicit Types (s : edq_state) (c : ctx eddata) (t l r u : tree eddata).

Lemma edents_paint_root b t : edents (paint_root b t) = edents t.
Proof. destruct t; [done|]. unfold edents. simpl. by rewrite !fmap_app. Qed.

Lemma rootmins_paint_root b t : rootmins (paint_root b t) = rootmins t.
Proof. by destruct t. Qed.

Lemma aug_paint_root b t : aug (paint_root b t) ↔ aug t.
Proof. by destruct t. Qed.

Lemma addrs_paint_root b t : addrs (paint_root b t) = addrs t.
Proof. by destruct t. Qed.

Lemma addr_paint_root b t : addr (paint_root b t) = addr t.
Proof. by destruct t. Qed.

(** ** At most one child *)
Lemma ed_splice_spec s q hd c l a d r :
  ed_lay s q hd c (T l a d r) → (l = Leaf ∨ r = Leaf) →
  let u := match l with Leaf => r | _ => l end in
  ∃ s', splice_out q a s =
      Some (match u with Leaf => if dd_red d then NULL else caddr c | _ => NULL end, caddr c, s') ∧
    ed_lay s' q hd c (paint_root (dd_red d) u) ∧ es_nodes s' !! a = es_nodes s !! a ∧
    ed_frame s s' q (addrs u ++ caddrs c).
Proof.
  intros [Hh [Hnd Hr Hc]] Hlr u.
  assert (NoDup (0 :: addrs u ++ caddrs c)) as Hnd2.
  { simpl in Hnd. rewrite !NoDup_cons, !not_elem_of_cons in Hnd. rewrite NoDup_cons. subst u.
    destruct Hlr as [->| ->]; [|destruct l]; simpl in *; rewrite ?app_nil_r in *; tauto. }
  destruct l as [|ll la ld lr], r as [|rl ra rdd rr]; try (exfalso; destruct Hlr; done);
    destruct c as [|[[] ca cd cs] c]; simpl in Hh, Hr, Hc; destruct_and?;
    pose proof Hnd as Hnd'; nodup_facts Hnd'; subst u.
  all: unfold splice_out, replace_child, ern, ewn, erq, ewq, mbind, ST_bind, mret, ST_ret.
  all: destruct (dd_red d) eqn:Ed.
  all: heap_run; rewrite ?Ed; heap_run; eexists; split; [reflexivity|].
  all: split_and!; [split; [by heap_run|split]|by heap_run|split].
  all: try exact Hnd2.
  all: try layout_tac.
  all: try (intros ? Hx; nodup_facts Hx; by heap_run).
  all: try (intros ? ?; by heap_run).
Qed.

(** ** Two children *)

(** [leftmost] follows the left spine. *)
Lemma leftmost_loop_spec cl s c t c1 b e u :
  tree_in ed_mk (es_nodes s) c t → leftmost_focus t = Some (c1, b, e, u) → (length c1 ≤ cl)%nat →
  leftmost_loop cl (addr t) s = Some (b, s).
Proof.
  revert cl c c1 b e u. induction t as [|l IHl a d r _]; intros cl c c1 b e u Ht; simpl; [done|].
  pose proof (tree_in_root _ _ _ _ _ _ _ Ht) as Ha.
  assert (tree_in ed_mk (es_nodes s) (Fr false a d r :: c) l) as Hl by (by apply tree_in_plug1).
  destruct (leftmost_focus l) as [[[[c' b'] e'] u']|] eqn:E; intros [= <- <- <- <-] Hcl.
  - rewrite length_app in Hcl. simpl in Hcl. assert (l ≠ Leaf) as Hne by (by destruct l).
    destruct cl as [|cl]; [lia|]. simpl. rewrite (ern_bind _ _ _ _ _ Ha). simpl.
    rewrite (proj2 (Z.eqb_neq _ _)) by (by eapply tree_in_addr). by eapply IHl; [done..|lia].
  - assert (l = Leaf) as -> by (destruct l; [done|by destruct (leftmost_focus_nonempty (T l1 z e l2)) as (?&?&?&?&?); [|congruence]]).
    destruct cl; simpl; by rewrite (ern_bind _ _ _ _ _ Ha).
Qed.

(** The successor [b] holds the subtree [R] on its right, and is not yet in
    the place of [a]. *)
Record detached s q hd c l a d b db R : Prop := Detached {
  dt_hdr : es_queues s !! q = Some (ed_hdr hd (croot c a));
  dt_nodup : NoDup (0 :: b :: a :: addrs l ++ addrs R ++ caddrs c);
  dt_a : ∃ x, es_nodes s !! a = Some (ed_mk (caddr c) (addr l) x d);
  dt_b : ∃ p, es_nodes s !! b = Some (ed_mk p 0 (addr R) db);
  dt_l : rep ed_mk (es_nodes s) a l;
  dt_R : rep ed_mk (es_nodes s) b R;
  dt_c : rep_ctx ed_mk (es_nodes s) c a;
}.

(** Unlinking the successor from the left of its parent. *)
Lemma unlink_left s q hd c p pd ps b db u :
  ed_lay s q hd (Fr false p pd ps :: c) (T Leaf b db u) →
  ∃ s', (∀ X (k : ST edq_state X), (ewn p (set_left (addr u));;
      (if addr u =? NULL then mret tt else ewn (addr u) (set_parent p));; k) s = k s') ∧
    ed_lay s' q hd (Fr false p pd ps :: c) u ∧ es_nodes s' !! b = es_nodes s !! b ∧
    ed_frame s s' q (p :: addrs u).
Proof.
  intros [Hh [Hnd Hr Hc]].
  assert (NoDup (0 :: addrs u ++ caddrs (Fr false p pd ps :: c))) as Hnd2.
  { simpl in Hnd |- *. rewrite !NoDup_cons, !not_elem_of_cons in Hnd. rewrite NoDup_cons. tauto. }
  simpl in Hh, Hr, Hc; destruct u as [|ul ua ud ur]; simpl in Hr; destruct_and?;
    pose proof Hnd as Hnd'; nodup_facts Hnd'.
  all: eexists; split; [intros X k; unfold ewn, mbind, ST_bind, mret, ST_ret; heap_run; reflexivity|].
  all: split_and!; [split; [by heap_run|split]|by heap_run|split].
  all: try exact Hnd2.
  all: try layout_tac.
  all: try (intros ? Hx; nodup_facts Hx; by heap_run).
  all: try (intros ? ?; by heap_run).
Qed.

(** Hanging the rest of the right subtree under the successor. *)
Lemma detach_spec s q hd c l a d R b p z db :
  ed_lay s q hd c (T l a d R) → R ≠ Leaf → es_nodes s !! b = Some (ed_mk p 0 z db) →
  b ≠ 0 → b ∉ addrs (T l a d R) ++ caddrs c →
  ∃ s', (∀ X (k : ST edq_state X), (ewn b (set_right (addr R));; ewn (addr R) (set_parent b);; k) s = k s') ∧
    detached s' q hd c l a d b db R ∧ es_nodes s' !! a = es_nodes s !! a ∧ ed_frame s s' q (b :: addrs R).
Proof.
  intros [Hh [Hnd Hr Hc]] HR Hb Hb0 Hfresh.
  assert (NoDup (0 :: b :: a :: addrs l ++ addrs R ++ caddrs c)) as Hnd2.
  { simpl in Hnd, Hfresh. rewrite <-app_assoc in Hnd, Hfresh. apply NoDup_cons in Hnd as [? ?].
    apply NoDup_cons. split; [set_solver|by constructor]. }
  destruct R as [|Rl Ra Rd Rr]; [done|].
  simpl in Hh, Hr; destruct_and?; pose proof Hnd2 as Hnd'; nodup_facts Hnd'.
  eexists; split; [intros X k; unfold ewn, mbind, ST_bind, mret, ST_ret; heap_run; reflexivity|].
  split_and!; [split|by heap_run|split]; try done; simpl.
  - eexists. by heap_run.
  - eexists. by heap_run.
  - rep_tac.
  - split_and!; [by heap_run|rep_tac|rep_tac].
  - rep_tac.
  - intros x Hx; nodup_facts Hx; by heap_run.
Qed.

(** Writing the successor's payload while it is detached. *)
Lemma detached_data s q hd c l a d b db db' R f :
  detached s q hd c l a d b db R → (∀ p x y, f (ed_mk p x y db) = ed_mk p x y db') →
  ∃ s', ewn b f s = Some (tt, s') ∧ detached s' q hd c l a d b db' R ∧
    es_nodes s' !! a = es_nodes s !! a ∧ ed_frame s s' q [b].
Proof.
  intros [Hh Hnd [x Ha] [p Hb] Hl HR Hc] Hf. pose proof Hnd as Hnd'. nodup_facts Hnd'.
  unfold ewn. rewrite Hb. change (EdqNode p 0 (addr R) (dd_deadline db) (dd_el db) (dd_mel db) (dd_sl db)
    (dd_msl db) (dd_seq db) (dd_red db)) with (ed_mk p 0 (addr R) db). rewrite Hf.
  eexists. split; [reflexivity|]. split_and!; [split|by heap_run|split]; try done; simpl.
  - eexists. by heap_run.
  - eexists. by heap_run.
  - rep_tac.
  - rep_tac.
  - rep_tac.
  - intros y Hy. nodup_facts Hy. by heap_run.
Qed.

(** Putting the successor in the place of the node. *)
Lemma assemble_spec s q hd c l a d b db R :
  detached s q hd c l a d b db R → l ≠ Leaf →
  ∃ s', (∀ X (k : ST edq_state X), (nl ← ern a en_left;
         ewn b (set_left nl);;
         ewn nl (set_parent b);;
         np ← ern a en_parent;
         replace_child q np a b;; k) s = k s') ∧
    ed_lay s' q hd c (T l b db R) ∧ es_nodes s' !! a = es_nodes s !! a ∧
    ed_frame s s' q (b :: addrs l ++ caddrs c).
Proof.
  intros [Hh Hnd [x Ha] [p Hb] Hl HR Hc] Hne. destruct l as [|ll la ld lr]; [done|].
  assert (NoDup (0 :: addrs (T (T ll la ld lr) b db R) ++ caddrs c)) as Hnd2.
  { simpl in *. rewrite <-app_assoc. rewrite !NoDup_cons, !not_elem_of_cons in Hnd. rewrite !NoDup_cons, !not_elem_of_cons. tauto. }
  destruct c as [|[[] ca cd cs] c]; simpl in Hh, Hl, Hc; destruct_and?; pose proof Hnd as Hnd'; nodup_facts Hnd'.
  all: eexists; split;
    [intros X k; unfold replace_child, ern, ewn, erq, ewq, mbind, ST_bind, mret, ST_ret; heap_run; reflexivity|].
  all: split_and!; [split; [by heap_run|split]|by heap_run|split].
  all: try exact Hnd2.
  all: try layout_tac.
  all: try (intros ? Hx; nodup_facts Hx; by heap_run).
  all: try (intros ? ?; by heap_run).
Qed.

(** Refreshing the detached subtree. *)
Lemma detached_propagate cl s q hd c l a d b db c1 u :
  detached s q hd c l a d b db (plug c1 u) → aug u → augc_pre c1 → (length c1 ≤ cl)%nat →
  ∃ s' c1', propagate cl (hparent c1 b) b s = Some (0, s') ∧
    detached s' q hd c l a d b db (plug c1' u) ∧ Forall2 remin c1 c1' ∧ aug (plug c1' u) ∧
    es_nodes s' !! a = es_nodes s !! a ∧ ed_frame s s' q (caddrs c1).
Proof.
  intros [Hh Hnd [x Ha] [p Hb] Hl HR Hc] Hu Hc1 Hcl. pose proof Hnd as Hnd'.
  rewrite !NoDup_cons, !not_elem_of_cons, !not_elem_of_app in Hnd'.
  destruct Hnd' as ((_ & _ & _ & H0 & _) & (_ & _ & HbR & _) & (_ & HaR & _) & Hnd3).
  apply NoDup_app in Hnd3 as (_ & Hd1 & Hnd4). apply NoDup_app in Hnd4 as (HndR & Hd2 & _).
  destruct (propagate_spec cl s c1 u b) as (h' & c1' & Hrun & HR' & Hre & Haug & Hfr); try done.
  { by constructor. }
  assert (∀ z, z ∉ addrs (plug c1 u) → h' !! z = es_nodes s !! z) as Hout.
  { intros z Hz. apply Hfr. rewrite addrs_plug in Hz. set_solver. }
  eexists _, c1'. split_and!; [exact Hrun| |done|done|by apply Hout|split; simpl; try done].
  assert (addr (plug c1' u) = addr (plug c1 u)) as Eaddr by (rewrite !addr_plug; by apply remin_croot).
  split; simpl.
  - done.
  - assert (addrs (plug c1' u) ≡ₚ addrs (plug c1 u)) as -> by (by apply remin_addrs). done.
  - exists x. by rewrite Hout.
  - exists p. rewrite Hout, Eaddr by done. done.
  - eapply rep_agree; [|exact Hl]. intros z Hz. apply Hout. specialize (Hd1 z Hz). set_solver.
  - done.
  - eapply rep_ctx_agree; [|exact Hc]. intros z Hz. apply Hout. intros Hz'. by apply (Hd2 z Hz').
Qed.

(** The first part of [replace_by_successor]: find the successor and detach
    it. *)
Definition take_successor (cl : nat) (node successor sl : Z) : ST edq_state (Z * Z * Z * Z) :=
  if sl =? NULL then
    child ← ern successor en_right;
    mret (0, successor, successor, child)
  else
    successor ← leftmost cl successor;
    if successor =? NULL then mret (- E2BIG, NULL, NULL, NULL) else
    parent ← ern successor en_parent;
    child ← ern successor en_right;
    ewn parent (set_left child);;
    (if child =? NULL then mret tt else ewn child (set_parent parent));;
    nr ← ern node en_right;
    ewn successor (set_right nr);;
    ewn nr (set_parent successor);;
    mret (0, successor, parent, child).

Lemma leftmost_focus_left l a d r c1 b e u :
  leftmost_focus (T l a d r) = Some (c1, b, e, u) →
  (l = Leaf ∧ c1 = [] ∧ b = a ∧ e = d ∧ u = r) ∨ (l ≠ Leaf ∧ ∃ p pd ps c2, c1 = Fr false p pd ps :: c2).
Proof.
  simpl. destruct (leftmost_focus l) as [[[[c' b'] e'] u']|] eqn:E; intros [= <- <- <- <-].
  - right. split; [by destruct l|]. destruct (leftmost_focus_Some _ _ _ _ _ E) as (_ & _ & Hall).
    destruct c' as [|[dir p pd ps] c']; [by exists a, d, r, []|].
    apply Forall_cons in Hall as [Hd _]. simpl in Hd. subst dir. by exists p, pd, ps, (c' ++ [Fr false a d r]).
  - left. split_and!; try done. destruct l; [done|].
    by destruct (leftmost_focus_nonempty (T l1 z e l2)) as (?&?&?&?&?); [|congruence].
Qed.

Lemma take_successor_spec cl s q hd c l a d rl ra rd rr c1 b db u :
  ed_lay s q hd c (T l a d (T rl ra rd rr)) → leftmost_focus (T rl ra rd rr) = Some (c1, b, db, u) →
  (length c1 ≤ cl)%nat →
  ∃ s', take_successor cl a ra (addr rl) s = Some (0, b, hparent c1 b, addr u, s') ∧
    detached s' q hd c l a d b db (plug c1 u) ∧
    (∃ x, es_nodes s' !! a = Some (ed_mk (caddr c) (addr l) x d)) ∧
    es_nodes s' !! a = es_nodes s !! a ∧ ed_frame s s' q (addrs (T rl ra rd rr)).
Proof.
  intros Hl Hlm Hcl. pose proof (leftmost_focus_Some _ _ _ _ _ Hlm) as (Er & _ & _).
  pose proof (lay_root _ _ _ _ _ _ _ _ Hl) as Ha. unfold take_successor.
  destruct (leftmost_focus_left _ _ _ _ _ _ _ _ Hlm) as [(-> & -> & -> & -> & ->)|(Hne & p & pd & ps & c2 & ->)].
  - simpl (addr Leaf =? NULL). cbv iota. destruct Hl as [Hh [Hnd (_ & Hl & (Hb & _ & Hrr)) Hc]].
    rewrite (ern_bind _ _ _ _ _ Hb). exists s. split_and!; [done| |by eexists|done|apply ed_frame_refl].
    split; simpl; try done; [|by eexists|by eexists].
    simpl in Hnd. rewrite <-app_assoc in Hnd. simpl in Hnd.
    assert (0 :: ra :: a :: addrs l ++ addrs rr ++ caddrs c ≡ₚ
      0 :: a :: addrs l ++ ra :: addrs rr ++ caddrs c) as ->; [|done].
    apply perm_skip. rewrite <-Permutation_middle. apply Permutation_swap.
  - assert (ed_lay s q hd (Fr true a d l :: c) (T rl ra rd rr)) as Hl1 by (by apply ed_lay_plug1).
    assert (tree_in ed_mk (es_nodes s) (Fr false ra rd rr :: Fr true a d l :: c) rl) as Hrl
      by (by apply tree_in_plug1, lay_tree with q hd).
    rewrite (proj2 (Z.eqb_neq _ _)) by (by eapply tree_in_addr).
    unfold leftmost. rewrite (lay_nonnull _ _ _ _ _ ra Hl1) by (simpl; set_solver).
    pose proof (leftmost_loop_spec cl s _ _ _ _ _ _ (lay_tree _ _ _ _ _ Hl1) Hlm Hcl) as Hrun. simpl in Hrun.
    rewrite (ST_bind_run _ _ _ _ _ Hrun). rewrite Er in Hl1. apply ed_lay_plug in Hl1. simpl in Hl1.
    pose proof (lay_root _ _ _ _ _ _ _ _ Hl1) as Hb.
    rewrite (lay_nonnull _ _ _ _ _ b Hl1) by (simpl; set_solver).
    rewrite !(ern_bind _ _ _ _ _ Hb). cbn [caddr fr_addr en_parent en_right ed_mk].
    destruct (unlink_left _ _ _ _ _ _ _ _ _ _ Hl1) as (s1 & Hrun1 & Hl2 & Hb1 & Hfr1). rewrite Hrun1.
    apply (ed_lay_plug _ _ _ (Fr false p pd ps :: c2)), ed_lay_plug1 in Hl2. set (R := plug (Fr false p pd ps :: c2) u) in *.
    rewrite (ern_bind _ _ _ _ _ (lay_root _ _ _ _ _ _ _ _ Hl2)). cbn [en_right ed_mk].
    rewrite <-Hb1 in Hb. pose proof (lay_tree _ _ _ _ _ Hl1) as [Hnd _ _].
    assert (R ≠ Leaf) as HR.
    { unfold R. simpl. intros E. apply (f_equal elems) in E. rewrite elems_plug in E. simpl in E.
      apply app_nil in E as [_ E]. destruct (elems u); done. }
    assert (addrs R ≡ₚ addrs u ++ caddrs (Fr false p pd ps :: c2)) as HRa by (unfold R; by rewrite addrs_plug).
    change (Fr false p pd ps :: c2 ++ Fr true a d l :: c) with ((Fr false p pd ps :: c2) ++ Fr true a d l :: c) in Hnd.
    rewrite caddrs_app in Hnd. cbn [addrs app] in Hnd.
    edestruct (detach_spec s1 q hd c l a d R b _ _ db Hl2 HR Hb) as (s2 & Hrun2 & Hdt & Ha2 & Hfr2).
    { apply NoDup_cons in Hnd as [? _]. set_solver. }
    { apply NoDup_cons in Hnd as [_ [Hb' _]%NoDup_cons]. cbn [addrs caddrs fr_addr fr_sib]. cbn [caddrs fr_addr fr_sib] in Hb'. rewrite HRa. cbn [caddrs fr_addr fr_sib]. set_solver. }
    rewrite Hrun2. exists s2. assert (es_nodes s1 !! a = es_nodes s !! a) as Ha1.
    { apply (ef_nodes _ _ _ _ Hfr1). rewrite !NoDup_cons in Hnd. destruct Hnd as (_ & _ & Hnd).
      cbn [addrs app caddrs fr_addr fr_sib] in Hnd. apply NoDup_app in Hnd as (_ & Hnd & Hnd2).
      intros [->|Hin]%elem_of_cons; [|specialize (Hnd a Hin); set_solver].
      apply NoDup_cons in Hnd2 as [Hp _]. set_solver. }
    split_and!; [done|done|apply Hdt|by rewrite Ha2|].
    assert (∀ z, z ∈ addrs (T rl ra rd rr) ↔ z = b ∨ z ∈ addrs R) as Hz.
    { intros z. rewrite Er, HRa, addrs_plug. simpl. set_solver. }
    eapply ed_frame_trans; [eapply ed_frame_mono; [exact Hfr1|]|exact Hfr2|].
    + intros z. rewrite Hz, HRa. simpl. set_solver.
    + intros z. rewrite Hz. set_solver.
Qed.

(** The last statements of [replace_by_successor]: colours. *)
Lemma succ_colours s q hd c l b db c1 u color :
  ed_lay s q hd c (T l b db (plug c1 u)) →
  ∃ s', (rebalance ← (if negb (addr u =? NULL) then ewn (addr u) (set_red false);; mret NULL
           else sr ← ern b en_red; mret (if negb sr then hparent c1 b else NULL));
         ewn b (set_red color);;
         mret (0, (rebalance, b))) s =
      Some (0, (match u with Leaf => if dd_red db then NULL else hparent c1 b | _ => NULL end, b), s') ∧
    ed_lay s' q hd c (T l b (paint color db) (plug c1 (paint_root false u))) ∧
    ed_frame s s' q (b :: addrs u).
Proof.
  intros Hl. destruct u as [|ul ua ud ur]; simpl (addr _).
  - simpl (negb _). cbv iota. rewrite ST_bind_assoc, (ern_bind _ _ _ _ _ (lay_root _ _ _ _ _ _ _ _ Hl)), ST_ret_bind.
    destruct (set_data s q hd c l b db (paint color db) (plug c1 Leaf) (set_red color) Hl) as (s' & Hw & Hl' & Hfr); [done|].
    exists s'. rewrite (ST_bind_run _ _ _ _ _ Hw). split_and!; [|done|].
    + simpl. by destruct (dd_red db).
    + by eapply ed_frame_mono; [exact Hfr|].
  - assert (ed_lay s q hd c (plug (c1 ++ [Fr true b db l]) (T ul ua ud ur))) as Hl1 by (by rewrite plug_app).
    rewrite (lay_nonnull _ _ _ _ _ ua Hl1) by (rewrite addrs_plug; simpl; set_solver). simpl (negb _). cbv iota.
    destruct (set_data_in s q hd c _ ul ua ud (paint false ud) ur (set_red false) Hl1) as (s1 & Hw1 & Hl2 & Hfr1); [done|].
    rewrite ST_bind_assoc, (ST_bind_run _ _ _ _ _ Hw1), ST_ret_bind. rewrite plug_app in Hl2. simpl in Hl2.
    destruct (set_data s1 q hd c l b db (paint color db) _ (set_red color) Hl2) as (s' & Hw & Hl' & Hfr); [done|].
    exists s'. rewrite (ST_bind_run _ _ _ _ _ Hw). split_and!; [done|done|]. ed_chain; simpl; set_solver.
Qed.

Lemma successor_spec cl s q hd c l a d r c1 b db u :
  ed_lay s q hd c (T l a d r) → l ≠ Leaf → leftmost_focus r = Some (c1, b, db, u) → aug r →
  (length c1 ≤ cl)%nat →
  ∃ s' c1', replace_by_successor cl q a s =
      Some (0, (match u with Leaf => if dd_red db then NULL else hparent c1 b | _ => NULL end, b), s') ∧
    ed_lay s' q hd c (T l b (paint (dd_red d) (with_mins (mins d) db)) (plug c1' (paint_root false u))) ∧
    Forall2 remin c1 c1' ∧ aug (plug c1' u) ∧ es_nodes s' !! a = es_nodes s !! a ∧
    ed_frame s s' q (addrs l ++ addrs r ++ caddrs c).
Proof.
  intros Hl Hne Hlm Haug Hcl. pose proof (leftmost_focus_Some _ _ _ _ _ Hlm) as (Er & _ & _).
  destruct r as [|rl ra rd rr]; [done|]. pose proof (lay_root _ _ _ _ _ _ _ _ Hl) as Ha.
  unfold replace_by_successor. rewrite !(ern_bind _ _ _ _ _ Ha). cbn [addr ed_mk en_right en_red].
  assert (es_nodes s !! ra = Some (ed_mk a (addr rl) (addr rr) rd)) as Hra
    by (by destruct (lay_tree _ _ _ _ _ Hl) as [_ (_ & _ & (? & _)) _]).
  rewrite (ern_bind _ _ _ _ _ Hra). cbn [ed_mk en_left].
  destruct (take_successor_spec cl s q hd c l a d rl ra rd rr c1 b db u Hl Hlm Hcl)
    as (s1 & Hrun1 & Hdt1 & (x & Ha1) & Ea1 & Hfr1).
  unfold take_successor in Hrun1. rewrite (ST_bind_run _ _ _ _ _ Hrun1). simpl (negb (0 =? 0)). cbv iota beta.
  rewrite (ern_bind _ _ _ _ _ Ha1).
  destruct (detached_data s1 q hd c l a d b db (with_mins (mins d) db) _ (set_mins (dd_mel d) (dd_msl d)) Hdt1)
    as (s2 & Hw2 & Hdt2 & Ea2 & Hfr2); [done|]. simpl (id _). cbn [en_min_eligibility en_min_slice ed_mk].
  rewrite (ST_bind_run _ _ _ _ _ Hw2).
  assert (aug u ∧ augc_pre c1) as [Hu Hc1].
  { rewrite Er in Haug. apply aug_plug in Haug as [(_ & _ & Hu) Hc1]. split; [done|]. by eapply augc_augc_pre. }
  assert (∃ s3 c1', (if hparent c1 b =? b then mret 0 else propagate cl (hparent c1 b) b) s2 = Some (0, s3) ∧
    detached s3 q hd c l a d b (with_mins (mins d) db) (plug c1' u) ∧ Forall2 remin c1 c1' ∧ aug (plug c1' u) ∧
    es_nodes s3 !! a = es_nodes s2 !! a ∧ ed_frame s2 s3 q (caddrs c1)) as (s3 & c1' & Hrun3 & Hdt3 & Hre & Haug3 & Ea3 & Hfr3).
  { destruct c1 as [|f c1].
    - exists s2, []. simpl. rewrite Z.eqb_refl. split_and!; [done|done|constructor|done|done|apply ed_frame_refl].
    - simpl. rewrite (proj2 (Z.eqb_neq _ _)).
      + by apply (detached_propagate cl s2 q hd c l a d b _ (f :: c1) u).
      + pose proof (dt_nodup _ _ _ _ _ _ _ _ _ _ Hdt2) as Hnd. rewrite addrs_plug in Hnd. simpl in Hnd.
        rewrite !NoDup_cons in Hnd. destruct Hnd as (_ & Hb & _). set_solver. }
  rewrite (ST_bind_run _ _ _ _ _ Hrun3). simpl (negb (0 =? 0)). cbv iota.
  destruct (assemble_spec _ _ _ _ _ _ _ _ _ _ Hdt3 Hne) as (s4 & Hrun4 & Hl4 & Ea4 & Hfr4). rewrite Hrun4.
  destruct (succ_colours s4 q hd c l b _ c1' u (dd_red d) Hl4) as (s5 & Hrun5 & Hl5 & Hfr5).
  rewrite <-(remin_hparent _ _ b Hre). simpl in Hrun5. rewrite Hrun5. exists s5, c1'.
  assert (∀ z, z = b ∨ z ∈ addrs u ∨ z ∈ caddrs c1 ↔ z ∈ addrs (T rl ra rd rr)) as Hz.
  { intros z. rewrite Er, addrs_plug. simpl. set_solver. }
  split_and!; [done..| |].
  - rewrite (ef_nodes _ _ _ _ Hfr5); [congruence|].
    pose proof (dt_nodup _ _ _ _ _ _ _ _ _ _ Hdt3) as Hnd. rewrite addrs_plug in Hnd.
    rewrite !NoDup_cons in Hnd. destruct Hnd as (_ & Hb & Ha' & _). set_solver.
  - ed_chain; intros z; rewrite ?elem_of_cons, ?elem_of_app, <-?Hz; set_solver.
Qed.
End unlink.
