(* ===== verification/EdqDelete.v ===== *)
(** * Eligible deadline queue: removal

    The whole of [remove_locked]: exactly the given task leaves the queue and
    the invariant holds again. *)

From S2P Require Import Prelude ArenaTree RedBlack ScxTime Edq EdqBase EdqTree EdqInsert EdqLink.
From S2P Require Import EdqOps EdqErase EdqRemove.

Section delete.
Context (be bd : Z).
Implicit Types (s : edq_state) (c : ctx eddata) (t l r u : tree eddata).

(** ** Colours *)

(** Contexts with the same colours and siblings. *)
Definition csim c c' : Prop :=
  Forall2 (λ f g, dd_red (fr_data g) = dd_red (fr_data f) ∧ fr_sib g = fr_sib f) c c'.

Lemma remin_csim c c' : Forall2 remin c c' → csim c c'.
Proof. intros H. eapply Forall2_impl; [exact H|]. by intros ? ? []. Qed.

Lemma csim_refl c : csim c c.
Proof. induction c; by constructor. Qed.

Lemma csim_rbc c c' n b : csim c c' → rbc dd_red c n b → rbc dd_red c' n b.
Proof.
  intros H. revert n b. induction H as [|f g c c' [Hr Hs] _ IH]; intros n b; simpl; [done|].
  rewrite Hr, Hs. destruct (dd_red (fr_data f)); naive_solver.
Qed.

Lemma csim_ctop c c' b : csim c c' → ctop dd_red c' b = ctop dd_red c b.
Proof. intros H. revert b. induction H as [|f g c c' [Hr _] _ IH]; intros b; simpl; [done|]. by rewrite Hr. Qed.

(** The place a removed node leaves: red-black again, or one black node short. *)
Definition vacated (short : bool) c u : Prop :=
  if short then u = Leaf ∧ rbc dd_red c 1 false ∧ ctop dd_red c false = false
  else rb_black dd_red (plug c u).

Lemma vacated_csim short c c' u : csim c c' → vacated short c u → vacated short c' u.
Proof.
  intros Hs. destruct short; simpl.
  - intros (-> & Hc & Ht). split_and!; [done|by eapply csim_rbc|by rewrite (csim_ctop _ _ _ Hs)].
  - intros [Hrb Hb]. rewrite is_red_plug in Hb. apply rb_tree_plug in Hrb as (n & Hu & Hc).
    apply rb_black_plug with n; [done|by eapply csim_rbc|by rewrite (csim_ctop _ _ _ Hs)].
Qed.

(** Whether a node leaves its place short of a black node. *)
Definition is_short (d : eddata) u : bool := match u with Leaf => negb (dd_red d) | _ => false end.

(** Removing a node with at most one child. *)
Lemma vacate_spec c dir a d u :
  rb_black dd_red (plug c (bin dir Leaf a d u)) →
  vacated (is_short d u) c (paint_root false u) ∧ (u ≠ Leaf → dd_red d = false).
Proof.
  intros [Hrb Hb]. rewrite is_red_plug, is_red_bin in Hb. apply rb_tree_plug in Hrb as (n & Ht & Hc).
  rewrite is_red_bin in Hc. rewrite rbt_bin in Ht. destruct u as [|ul ua ud ur]; simpl.
  - split; [|done]. destruct (dd_red d); simpl.
    + destruct Ht as (_ & _ & -> & _).
      apply rb_black_plug with 0%nat; [done|by apply rbc_weaken|by destruct c].
    + destruct Ht as (m & -> & -> & _). done.
  - destruct (dd_red d).
    + destruct Ht as (_ & Hub & -> & Hu). simpl in Hub, Hu. rewrite Hub in Hu. by destruct Hu as (? & ? & _).
    + split; [|done]. destruct Ht as (m & -> & -> & Hu). simpl in Hu.
      destruct (dd_red ud); [|by destruct Hu as (? & ? & _)]. destruct Hu as (_ & _ & Hul & Hur).
      apply rb_black_plug with 1%nat; [|done|done]. simpl. by exists 0%nat.
Qed.

(** ** Unlinking, either way *)
Definition unlink (cl : nat) (q a : Z) (n : scx_edq_node) : ST edq_state (Z * (Z * Z)) :=
  if (en_left n =? NULL) || (en_right n =? NULL)
  then p ← splice_out q a; mret (0, p)
  else replace_by_successor cl q a.

(** What it leaves: the hole is at [u] in the context [ci ++ cp], of which
    the part [ci] is already refreshed and [cp] starts where [propagate]
    starts. *)
Record unlinked s s' q hd c l a d r (reb : Z) ci cp u : Prop := Unlinked {
  ul_lay : ed_lay s' q hd (ci ++ cp) u;
  ul_aug : aug (plug ci u);
  ul_pre : augc_pre cp;
  ul_ents : edents (plug (ci ++ cp) u) =
    (edentry <$> cpre c) ++ (edents l ++ edents r) ++ (edentry <$> cpost c);
  ul_node : es_nodes s' !! a = es_nodes s !! a;
  ul_frame : ed_frame s s' q (addrs l ++ addrs r ++ caddrs c);
  ul_vac : ∃ short, reb = (if (short : bool) then caddr (ci ++ cp) else NULL) ∧ vacated short (ci ++ cp) u;
  ul_len : (length cp ≤ S (length c))%nat ∧ (length (ci ++ cp) ≤ height (plug c (T l a d r)))%nat;
}.

Lemma unlink_one s q hd c l a d r :
  ed_lay s q hd c (T l a d r) → aug (plug c (T l a d r)) → rb_black dd_red (plug c (T l a d r)) →
  l = Leaf ∨ r = Leaf →
  ∃ s' reb u, splice_out q a s = Some (reb, caddr c, s') ∧ unlinked s s' q hd c l a d r reb [] c u.
Proof.
  intros Hl [(_ & Hal & Har) Hac]%aug_plug Hrb Hlr.
  destruct (ed_splice_spec s q hd c l a d r Hl Hlr) as (s' & Hrun & Hl' & Hn & Hfr).
  set (u := match l with Leaf => r | _ => l end) in *.
  assert (∃ dir, T l a d r = bin dir Leaf a d u) as [dir E].
  { unfold u. destruct Hlr as [->| ->]; [by exists false|]. destruct l; [by exists false|by exists true]. }
  destruct (vacate_spec c dir a d u) as [Hv Hd]; [by rewrite <-E|].
  assert (paint_root (dd_red d) u = paint_root false u) as Ep.
  { destruct u; [done|]. by rewrite Hd. }
  rewrite Ep in Hl'. eexists s', _, (paint_root false u). split; [exact Hrun|]. split; simpl.
  - done.
  - apply aug_paint_root. unfold u. by destruct l.
  - by eapply augc_augc_pre.
  - rewrite edents_plug, edents_paint_root. unfold u. destruct Hlr as [->| ->]; [done|].
    destruct l; [done|]. by rewrite app_nil_r.
  - done.
  - eapply ed_frame_mono; [exact Hfr|]. unfold u. destruct l; set_solver.
  - exists (is_short d u). split; [|done]. destruct u; simpl; [by destruct (dd_red d)|done].
  - split; [lia|]. pose proof (length_ctx_height c (T l a d r)). simpl in *. lia.
Qed.

Lemma unlink_two cl s q hd c l a d r :
  ed_lay s q hd c (T l a d r) → aug (plug c (T l a d r)) → rb_black dd_red (plug c (T l a d r)) →
  l ≠ Leaf → r ≠ Leaf → (height (plug c (T l a d r)) ≤ cl)%nat →
  ∃ s' reb ci b db u, replace_by_successor cl q a s = Some (0, (reb, b), s') ∧
    unlinked s s' q hd c l a d r reb ci (Fr true b db l :: c) u.
Proof.
  intros Hl [(Hd & Hal & Har) Hac]%aug_plug Hrb Hln Hrn Hcl.
  destruct (leftmost_focus_nonempty r Hrn) as (c1 & b & db & u & Hlm).
  pose proof (leftmost_focus_Some _ _ _ _ _ Hlm) as (Er & Epre & _).
  pose proof (leftmost_focus_height _ _ _ _ _ Hlm) as Hh1. pose proof (length_ctx_height c (T l a d r)) as Hh2. simpl in Hh2.
  destruct (successor_spec cl s q hd c l a d r c1 b db u Hl Hln Hlm Har ltac:(lia))
    as (s' & c1' & Hrun & Hl' & Hre & Haug & Hn & Hfr).
  set (db2 := paint (dd_red d) (with_mins (mins d) db)) in *.
  assert (plug c (T l a d r) = plug (c1 ++ Fr true a d l :: c) (bin false Leaf b db u)) as Eplug.
  { rewrite plug_app. simpl. by rewrite Er. }
  rewrite Eplug in Hrb. destruct (vacate_spec _ _ _ _ _ Hrb) as [Hv _].
  assert (csim (c1 ++ Fr true a d l :: c) (c1' ++ Fr true b db2 l :: c)) as Hcs.
  { apply Forall2_app; [by apply remin_csim|]. constructor; [done|apply csim_refl]. }
  assert (edents (plug c1' (paint_root false u)) = tail (edents r)) as Eents.
  { rewrite edents_plug, edents_paint_root, <-edents_plug, (remin_edents _ _ _ Hre).
    rewrite Er, !edents_plug, Epre. done. }
  assert (edents r = edentry (b, db) :: tail (edents r)) as Ehd.
  { rewrite Er at 1. rewrite edents_plug, Epre. rewrite <-Eents, edents_plug, edents_paint_root.
    assert (edentry <$> cpre c1' = [] ∧ edentry <$> cpost c1' = edentry <$> cpost c1) as [E1 ->].
    { clear -Hre Epre. revert Epre. induction Hre as [|f g c1 c1' [Hd Ha Hs He _] _ IH]; simpl; [done|].
      intros E%app_nil. destruct E as [E1 E2]. destruct (IH E1) as [E3 E4]. rewrite !fmap_app, E3, E4, Hd, Hs.
      destruct (fr_dir f); [by destruct (elems (fr_sib f))|]. specialize (He (fr_addr f)). simpl in He |- *.
      by rewrite Ha, He. }
    rewrite E1. unfold edents at 1. simpl. done. }
  eexists s', _, c1', b, db2, (paint_root false u). split; [exact Hrun|]. split.
  - apply ed_lay_plug. apply ed_lay_plug1. simpl. exact Hl'.
  - rewrite aug_plug, aug_paint_root, rootmins_paint_root, <-aug_plug. done.
  - simpl. split; [done|]. unfold mins in *. simpl. done.
  - rewrite plug_app. cbn [plug plug1 fr_dir fr_addr fr_data fr_sib]. rewrite edents_plug. do 2 f_equal.
    rewrite (edents_bin false l b db2 _ : edents (T l b db2 _) = _), Eents, Ehd. done.
  - done.
  - done.
  - exists (is_short db u). split; [|by eapply vacated_csim].
    assert (hparent c1 b = caddr (c1' ++ Fr true b db2 l :: c)) as ->
      by (destruct Hre as [|f g ? ? [_ Ha _ _ _] _]; simpl; done).
    destruct u; simpl; [by destruct (dd_red db)|done].
  - simpl. rewrite length_app. simpl. apply Forall2_length in Hre. lia.
Qed.

(** ** The next first task *)

(** The entries without the focused node. *)
Definition others c l r : list edent :=
  (edentry <$> cpre c) ++ (edents l ++ edents r) ++ (edentry <$> cpost c).

Lemma edents_focus c l a d r :
  edents (plug c (T l a d r)) =
  (edentry <$> cpre c) ++ (edents l ++ edentry (a, d) :: edents r) ++ (edentry <$> cpost c).
Proof. rewrite edents_plug. do 2 f_equal. apply (edents_bin false). Qed.

Lemma nodup_edents h c t : tree_in ed_mk h c t → NoDup (ee_addr <$> edents (plug c t)).
Proof.
  intros [Hnd _ _]. apply NoDup_cons in Hnd as [_ Hnd]. by rewrite <-edents_addrs, addrs_plug.
Qed.

(** A focused first node has nothing to its left. *)
Lemma first_focus h c l a d r :
  tree_in ed_mk h c (T l a d r) → (first_of (edents (plug c (T l a d r)))).1 = a →
  cpre c = [] ∧ l = Leaf.
Proof.
  intros Ht. pose proof (nodup_edents _ _ _ Ht) as Hnd. rewrite edents_focus in *. intros Hf.
  destruct (cpre c) as [|e1 pre].
  - split; [done|]. destruct l as [|ll la ld lr]; [done|]. exfalso.
    assert (edents (T ll la ld lr) ≠ []) as Hne.
    { unfold edents. simpl. rewrite fmap_app. by destruct (edentry <$> elems ll). }
    destruct (edents (T ll la ld lr)) as [|e es]; [done|]. simpl in Hf, Hnd. subst a.
    apply NoDup_cons in Hnd as [Hin _]. apply Hin. rewrite !fmap_app. simpl. set_solver.
  - exfalso. simpl in Hf, Hnd. apply NoDup_cons in Hnd as [Hin _]. apply Hin.
    destruct e1 as [b e]. simpl in *. subst b. rewrite !fmap_app. simpl. set_solver.
Qed.

Lemma first_others_same c l a d r :
  (first_of (edents (plug c (T l a d r)))).1 ≠ a →
  first_of (others c l r) = first_of (edents (plug c (T l a d r))).
Proof.
  rewrite edents_focus. unfold others. intros Hf. destruct (cpre c) as [|e1 pre]; [|done]. simpl in *.
  destruct (edents l) as [|e es]; [by destruct Hf|done].
Qed.

Lemma next_first_spec cl s q hd c l a d r :
  ed_lay s q hd c (T l a d r) → (hd_first hd, hd_fdl hd) = first_of (edents (plug c (T l a d r))) →
  (height (plug c (T l a d r)) ≤ cl)%nat →
  (if hd_first hd =? a then if negb (addr r =? NULL) then leftmost cl (addr r) else mret (caddr c)
   else mret NULL) s =
    Some (if hd_first hd =? a then (first_of (others c l r)).1 else NULL, s) ∧
  (hd_first hd =? a) && negb (addr r =? NULL) &&
    ((if hd_first hd =? a then (first_of (others c l r)).1 else NULL) =? NULL) = false.
Proof.
  intros Hl Hfirst Hcl. assert (hd_first hd = (first_of (edents (plug c (T l a d r)))).1) as Hf by (by rewrite <-Hfirst).
  destruct (Z.eqb_spec (hd_first hd) a) as [E|E]; [|done].
  destruct (first_focus _ _ _ _ _ _ (lay_tree _ _ _ _ _ Hl)) as [Epre ->]; [congruence|].
  unfold others. rewrite Epre. simpl (_ ++ _).
  pose proof (length_ctx_height c (T Leaf a d r)) as Hh. simpl in Hh.
  destruct r as [|rl ra rd rr].
  - simpl. split; [|done]. destruct c as [|[dir p pd ps] c]; [done|]. simpl in Epre |- *.
    apply app_nil in Epre as [_ Epre]. destruct dir; [by destruct (elems ps)|]. done.
  - assert (ed_lay s q hd (Fr true a d Leaf :: c) (T rl ra rd rr)) as Hl1 by (by apply ed_lay_plug1).
    simpl (addr _). rewrite (lay_nonnull _ _ _ _ _ ra Hl1) by (simpl; set_solver). simpl (negb false). cbv iota.
    destruct (leftmost_focus_nonempty (T rl ra rd rr)) as (c1 & b & db & u & Hlm); [done|].
    pose proof (leftmost_focus_Some _ _ _ _ _ Hlm) as (Er & Epre1 & _).
    pose proof (leftmost_focus_height _ _ _ _ _ Hlm) as Hh1.
    unfold leftmost. rewrite (lay_nonnull _ _ _ _ _ ra Hl1) by (simpl; set_solver).
    pose proof (leftmost_loop_spec cl s _ _ _ _ _ _ (lay_tree _ _ _ _ _ Hl1) Hlm ltac:(lia)) as Hrun. simpl in Hrun.
    rewrite Hrun. rewrite Er, edents_plug, Epre1. simpl. split; [done|].
    rewrite Er in Hl1. apply (lay_nonnull _ _ _ _ _ b Hl1). rewrite addrs_plug. simpl. set_solver.
Qed.

(** ** The statements after unlinking *)
Lemma ed_unlink_spec cl s q hd c l a d r :
  ed_lay s q hd c (T l a d r) → aug (plug c (T l a d r)) → rb_black dd_red (plug c (T l a d r)) →
  (height (plug c (T l a d r)) ≤ cl)%nat →
  ∃ s' reb ci cp u, (if (addr l =? NULL) || (addr r =? NULL)
      then p ← splice_out q a; mret (0, p) else replace_by_successor cl q a) s = Some (0, (reb, caddr cp), s') ∧
    unlinked s s' q hd c l a d r reb ci cp u.
Proof.
  intros Hl Ha Hrb Hcl.
  assert (∀ v, v = l ∨ v = r → v ≠ Leaf → (addr v =? NULL) = false) as Hnn.
  { intros v Hv Hne. eapply lay_nonnull; [exact Hl|]. pose proof (addr_in _ Hne). simpl. destruct Hv as [->| ->]; set_solver. }
  destruct (decide (l = Leaf)) as [El|El]; [|destruct (decide (r = Leaf)) as [Er|Er]].
  1, 2: destruct (unlink_one s q hd c l a d r Hl Ha Hrb) as (s' & reb & u & Hrun & Hu); [auto|].
  1, 2: exists s', reb, [], c, u; subst; simpl; rewrite ?orb_true_r; by rewrite (ST_bind_run _ _ _ _ _ Hrun).
  destruct (unlink_two cl s q hd c l a d r Hl Ha Hrb El Er Hcl) as (s' & reb & ci & b & db & u & Hrun & Hu).
  exists s', reb, ci, (Fr true b db l :: c), u. by rewrite !Hnn by auto.
Qed.

Lemma remove_finish {X} cl s q hd ci cp u reb (k : Z → ST edq_state X) :
  ed_lay s q hd (ci ++ cp) u → aug (plug ci u) → augc_pre cp → win be bd (plug (ci ++ cp) u) →
  (∃ short, reb = (if (short : bool) then caddr (ci ++ cp) else NULL) ∧ vacated short (ci ++ cp) u) →
  (length (ci ++ cp) ≤ cl)%nat →
  ∃ s' t', (ret ← propagate cl (caddr cp) NULL;
            ret ← (if (ret =? 0) && negb (reb =? NULL) then erase_fixup cl q reb else mret ret);
            root ← erq q eq_root;
            ms ← (if root =? NULL then mret 0 else ern root en_min_slice);
            ewq q (set_min_slice ms);;
            k ret) s = k 0 s' ∧
    ed_at be bd s' q (EdHdr (hd_first hd) (hd_fdl hd) (msl_of t') (hd_nr hd) (hd_seq hd)) [] t' ∧
    rb_black dd_red t' ∧ edents t' = edents (plug (ci ++ cp) u) ∧
    ed_frame s s' q (addrs u ++ caddrs (ci ++ cp)).
Proof.
  intros Hl Haug Hpre Hw (short & -> & Hvac) Hcl. rewrite plug_app in Hw. apply ed_lay_plug in Hl.
  rewrite length_app in Hcl.
  destruct (propagate_at be bd cl s q hd cp (plug ci u) Hl Haug Hpre Hw ltac:(lia)) as (s1 & cp' & Hrun1 & Hat1 & Hre & Hfr1).
  rewrite (ST_bind_run _ _ _ _ _ Hrun1). rewrite Z.eqb_refl. simpl (true && _).
  apply ed_at_plug in Hat1.
  assert (Forall2 remin (ci ++ cp) (ci ++ cp')) as Hre2 by (apply Forall2_app; [apply remin_ctx_refl|done]).
  apply (vacated_csim _ _ _ _ (remin_csim _ _ Hre2)) in Hvac.
  assert (caddr (ci ++ cp') = caddr (ci ++ cp)) as Eca by (rewrite <-!hparent_caddr; by apply remin_hparent).
  assert (caddrs (ci ++ cp') = caddrs (ci ++ cp)) as Ecs by (by apply remin_caddrs).
  assert (edents (plug (ci ++ cp') u) = edents (plug (ci ++ cp) u)) as Ees by (by apply remin_edents).
  assert (∃ s2 t', (if negb ((if short then caddr (ci ++ cp) else NULL) =? NULL)
      then erase_fixup cl q (if short then caddr (ci ++ cp) else NULL) else mret 0) s1 = Some (0, s2) ∧
    ed_at be bd s2 q hd [] t' ∧ rb_black dd_red t' ∧ edents t' = edents (plug (ci ++ cp') u) ∧
    ed_frame s1 s2 q (addrs u ++ caddrs (ci ++ cp'))) as (s2 & t' & Hrun2 & Hat2 & Hrb2 & He2 & Hfr2).
  { assert (rb_black dd_red (plug (ci ++ cp') u) → ∃ s2 t', Some (0, s1) = Some (0, s2) ∧ ed_at be bd s2 q hd [] t' ∧
      rb_black dd_red t' ∧ edents t' = edents (plug (ci ++ cp') u) ∧ ed_frame s1 s2 q (addrs u ++ caddrs (ci ++ cp'))) as Hnop.
    { intros Hb. exists s1, (plug (ci ++ cp') u). split_and!; [done|by apply ed_at_top in Hat1|done|done|apply ed_frame_refl]. }
    destruct short; [|by apply Hnop]. destruct Hvac as (-> & Hc & Ht). rewrite <-Eca.
    destruct (ci ++ cp') as [|f c2] eqn:Ec2; [apply Hnop; by split; [exists 0%nat|]|].
    simpl (caddr _). rewrite (proj2 (Z.eqb_neq _ _)) by (eapply tree_in_caddr, lay_tree, ea_lay; exact Hat1).
    destruct (erase_fixup_spec be bd cl s1 q hd (f :: c2) Leaf 0 Hat1) as (s2 & Hrun2 & t' & ? & ? & ? & ?); try done.
    - rewrite <-Ec2, length_app. apply Forall2_length in Hre. lia.
    - by exists s2, t'. }
  rewrite (ST_bind_run _ _ _ _ _ Hrun2).
  destruct (msl_step be bd s2 q hd t' (k 0) Hat2) as (s3 & Hrun3 & Hat3 & Hfr3).
  exists s3, t'. split_and!; [done|done|done|by rewrite He2|]. rewrite Ecs in Hfr2.
  rewrite caddrs_app in *. ed_chain; set_solver.
Qed.

(** The update of [edq->first] after a removal. *)
Lemma first_remove_step s q hd c t a (L : list edent) :
  ed_lay s q hd c t → edents (plug c t) = L →
  (hd_first hd ≠ a → first_of L = (hd_first hd, hd_fdl hd)) →
  let nf := if hd_first hd =? a then (first_of L).1 else NULL in
  ∃ s', (∀ X (k : ST edq_state X), ((if hd_first hd =? a then
            dl ← (if nf =? NULL then mret 0 else ern nf en_deadline);
            ewq q (set_first nf dl)
          else mret tt);; k) s = k s') ∧
    ed_lay s' q (EdHdr (first_of L).1 (first_of L).2 (hd_msl hd) (hd_nr hd) (hd_seq hd)) c t ∧
    ed_frame s s' q [] ∧ es_nodes s' = es_nodes s.
Proof.
  intros Hl El Hsame. destruct (Z.eqb_spec (hd_first hd) a) as [E|E]; cbn zeta.
  2: { exists s. rewrite (Hsame E). split_and!; [done|by destruct hd|apply ed_frame_refl|done]. }
  assert ((if (first_of L).1 =? NULL then mret 0 else ern (first_of L).1 en_deadline) s = Some ((first_of L).2, s)) as Hrun.
  { destruct L as [|e L]; [done|]. destruct (lay_ent s q hd c t e Hl) as (n & Hn & Hn0 & Ed & _); [rewrite El; by left|].
    simpl. rewrite (proj2 (Z.eqb_neq _ _)) by done. unfold ern. by rewrite Hn, Ed. }
  destruct (hdr_step s q hd (EdHdr (first_of L).1 (first_of L).2 (hd_msl hd) (hd_nr hd) (hd_seq hd)) c t
    (set_first (first_of L).1 (first_of L).2) Hl) as (s' & Hw & ? & ? & ?); [done|].
  exists s'. split_and!; [|done..]. intros X k.
  by rewrite ST_bind_assoc, (ST_bind_run _ _ _ _ _ Hrun), (ST_bind_run _ _ _ _ _ Hw).
Qed.

(** Taking out a focused node is filtering by address. *)
Lemma others_filter h c l a d r :
  tree_in ed_mk h c (T l a d r) →
  others c l r = filter (λ e, ee_addr e ≠ a) (edents (plug c (T l a d r))).
Proof.
  intros Ht. pose proof (nodup_edents _ _ _ Ht) as Hnd. rewrite edents_focus in *. unfold others.
  assert (∀ L : list edent, a ∉ ee_addr <$> L → filter (λ e, ee_addr e ≠ a) L = L) as Hid.
  { intros L HL. apply filter_all, Forall_forall. intros e He Ea. apply HL. rewrite <-Ea. by apply list_elem_of_fmap_2. }
  rewrite !filter_app, filter_cons_False by (simpl; tauto).
  rewrite !fmap_app in Hnd. simpl in Hnd.
  assert (NoDup (a :: (ee_addr <$> (edentry <$> cpre c)) ++ (ee_addr <$> edents l) ++ (ee_addr <$> edents r) ++ (ee_addr <$> (edentry <$> cpost c)))) as Hnd2.
  { assert (a :: (ee_addr <$> (edentry <$> cpre c)) ++ (ee_addr <$> edents l) ++ (ee_addr <$> edents r) ++ (ee_addr <$> (edentry <$> cpost c)) ≡ₚ
      (ee_addr <$> (edentry <$> cpre c)) ++ ((ee_addr <$> edents l) ++ a :: (ee_addr <$> edents r)) ++ (ee_addr <$> (edentry <$> cpost c))) as ->; [|done].
    rewrite <-app_assoc. simpl. rewrite <-!Permutation_middle. done. }
  apply NoDup_cons in Hnd2 as [Hn _]. rewrite !not_elem_of_app in Hn. destruct Hn as (?&?&?&?).
  by rewrite !Hid.
Qed.

Lemma others_sublist c l a d r : others c l r `sublist_of` edents (plug c (T l a d r)).
Proof.
  rewrite edents_focus. unfold others. apply sublist_app; [done|]. apply sublist_app; [|done].
  apply sublist_app; [done|]. by apply sublist_cons.
Qed.

(** ** The whole removal *)
Lemma remove_locked_spec cl s q hd t a k dead :
  edq_ok be bd s q hd t → es_tasks s !! a = Some k → et_edq k = q → hd_nr hd < two64 →
  budget cl (length (edents t)) →
  ∃ s' hd' t', remove_locked cl q a dead s = Some (0, s') ∧ edq_ok be bd s' q hd' t' ∧
    edents t' = filter (λ e, ee_addr e ≠ a) (edents t) ∧ hd_seq hd' = hd_seq hd ∧
    ed_frame (set_owner s a (set_edq (if dead then SCX_EDQ_DEAD else NULL) k)) s' q (addrs t).
Proof.
  intros Hok Hk Hkq Hnr Hcl. pose proof (ok_height_cl be bd _ _ _ _ _ Hok Hcl) as Hh.
  pose proof (eo_at _ _ _ _ _ _ Hok) as [Hl0 Haug Hwin]. simpl in Haug, Hwin.
  assert (a ∈ addrs t) as Hin by (apply (eo_own _ _ _ _ _ _ Hok); eauto).
  destruct (addr_focus _ _ Hin) as (c & l & d & r & Et).
  assert (ed_lay s q hd c (T l a d r)) as Hl by (apply ed_lay_top; by rewrite <-Et).
  pose proof (others_filter _ _ _ _ _ _ (lay_tree _ _ _ _ _ Hl)) as Eoth. pose proof (others_sublist c l a d r) as Hsub.
  pose proof (lay_root _ _ _ _ _ _ _ _ Hl) as Ha. pose proof (eo_first _ _ _ _ _ _ Hok) as Hfirst.
  rewrite Et in Haug, Hfirst, Hh. pose proof (eo_rb _ _ _ _ _ _ Hok) as Hrb. rewrite Et in Hrb.
  unfold remove_locked. rewrite (ert_bind _ _ _ _ _ Hk), Hkq, Z.eqb_refl. cbn [negb].
  rewrite (erq_bind _ _ _ _ _ (lay_hdr _ _ _ _ _ Hl)). simpl (eq_first _). rewrite (ern_bind _ _ _ _ _ Ha).
  simpl (id _). cbn [ed_mk en_left en_right en_parent].
  destruct (next_first_spec cl s q hd c l a d r Hl Hfirst ltac:(lia)) as [Hnf Hguard].
  rewrite (ST_bind_run _ _ _ _ _ Hnf), Hguard. clear Hnf Hguard.
  destruct (ed_unlink_spec cl s q hd c l a d r Hl Haug Hrb ltac:(lia)) as (s1 & reb & ci & cp & u & Hrun1 & Hu).
  rewrite (ST_bind_run _ _ _ _ _ Hrun1). destruct Hu as [Hl1 Ha1 Hp1 He1 Hn1 Hfr1 Hv1 [_ Hlen1]].
  fold (others c l r) in He1. simpl (negb (0 =? 0)). cbv iota beta.
  assert (length (edents t) = S (length (others c l r))) as Hlen.
  { rewrite Et, edents_focus. unfold others. rewrite !length_app. simpl. lia. }
  rewrite (eo_nr _ _ _ _ _ _ Hok), Hlen in *.
  destruct (hdr_step s1 q hd (EdHdr (hd_first hd) (hd_fdl hd) (hd_msl hd) (Z.of_nat (length (others c l r))) (hd_seq hd)) (ci ++ cp) u
    (λ q, set_nr (u64 (eq_nr q - 1)) q) Hl1) as (s2 & Hw2 & Hl2 & Hfr2 & En2).
  { intros p. unfold set_nr. simpl. rewrite (eo_nr _ _ _ _ _ _ Hok), Hlen, u64_small by (unfold is_u64; lia). f_equal. lia. }
  rewrite (ST_bind_run _ _ _ _ _ Hw2).
  destruct (first_remove_step s2 q _ (ci ++ cp) u a (others c l r) Hl2 He1) as (s3 & Hrun3 & Hl3 & Hfr3 & En3).
  { simpl. intros Hne. rewrite Hfirst. apply first_others_same with (a := a) (d := d). by rewrite <-Hfirst. }
  simpl in Hrun3. rewrite Hrun3. clear Hrun3.
  assert (a ∉ addrs u ++ caddrs (ci ++ cp)) as Hout.
  { rewrite <-addrs_plug, edents_addrs, He1, Eoth. intros (e & -> & [He _]%list_elem_of_filter)%list_elem_of_fmap. done. }
  assert (es_nodes s3 !! a = Some (ed_mk (caddr c) (addr l) (addr r) d)) as Ha3 by (by rewrite En3, En2, Hn1).
  destruct (clear_links_out _ _ _ _ _ _ _ Hl3 Hout Ha3) as (s4 & Hw4 & Hl4 & Hfr4 & Ha4).
  rewrite (ST_bind_run _ _ _ _ _ Hw4).
  destruct (ewn_out _ _ _ _ _ _ _ (set_red true) Hl4 Hout Ha4) as (s5 & Hw5 & Hl5 & Hfr5 & Ha5).
  rewrite (ST_bind_run _ _ _ _ _ Hw5).
  destruct (ewn_out _ _ _ _ _ _ _ (λ n, set_mins (en_eligibility n) (en_slice n) n) Hl5 Hout Ha5) as (s6 & Hw6 & Hl6 & Hfr6 & Ha6).
  rewrite (ST_bind_run _ _ _ _ _ Hw6).
  assert (win be bd (plug (ci ++ cp) u)) as Hwin1.
  { unfold win in *. rewrite He1. rewrite Et in Hwin. by eapply Forall_sublist. }
  destruct (remove_finish cl s6 q _ ci cp u reb
    (λ ret, ewt a (set_edq (if dead then SCX_EDQ_DEAD else NULL));; mret ret) Hl6 Ha1 Hp1 Hwin1 Hv1 ltac:(lia))
    as (s7 & t' & Hrun7 & Hat7 & Hrb7 & He7 & Hfr7). rewrite Hrun7. clear Hrun7.
  assert (ed_frame s s7 q (addrs t)) as Hfr.
  { assert (addrs t ≡ₚ a :: addrs l ++ addrs r ++ caddrs c) as Hp.
    { rewrite Et, addrs_plug. simpl. by rewrite <-app_assoc. }
    assert (addrs u ++ caddrs (ci ++ cp) ⊆ addrs t) as Hsub2.
    { intros z. rewrite <-addrs_plug, edents_addrs, He1, edents_addrs, Et.
      intros (e & -> & He)%list_elem_of_fmap. apply list_elem_of_fmap_2. by eapply elem_of_sublist. }
    assert (∀ z, z ∈ a :: addrs l ++ addrs r ++ caddrs c → z ∈ addrs t) as Hp' by (intros z; by rewrite Hp).
    ed_chain; try done; intros z Hz; try (apply Hp'; set_solver). }
  pose proof (ef_tasks _ _ _ _ Hfr) as Etk.
  set (k' := set_edq (if dead then SCX_EDQ_DEAD else NULL) k).
  assert (ewt a (set_edq (if dead then SCX_EDQ_DEAD else NULL)) s7 = Some (tt, set_owner s7 a k')) as Hw8
    by (unfold ewt, set_owner; by rewrite Etk, Hk).
  rewrite (ST_bind_run _ _ _ _ _ Hw8).
  match type of Hat7 with ed_at _ _ _ _ ?h _ _ => exists (set_owner s7 a k'), h, t' end.
  rewrite He1 in He7. simpl in He7, Hat7. rewrite <-Et in Eoth.
  split_and!; [done| |by rewrite He7|done|].
  2: { destruct Hfr as [F1 F2 F3 F4]. split; simpl; [done|done|by rewrite F3|done]. }
  split; simpl.
  - apply Hok.
  - by destruct Hat7 as [[? ?] ? ?].
  - done.
  - rewrite He7. eapply StronglySorted_sublist; [apply (eo_sorted _ _ _ _ _ _ Hok)|by rewrite Et].
  - by rewrite He7, <-surjective_pairing.
  - by rewrite He7.
  - done.
  - rewrite He7. eapply Forall_sublist; [apply (eo_seq _ _ _ _ _ _ Hok)|by rewrite Et].
  - intros b. rewrite edents_addrs, He7, Eoth, Etk.
    destruct (decide (b = a)) as [->|Hb].
    + rewrite lookup_insert_eq. split.
      * intros (e & -> & [He _]%list_elem_of_filter)%list_elem_of_fmap. done.
      * intros (k2 & [= <-] & E). exfalso. destruct (eo_q _ _ _ _ _ _ Hok). simpl in E. by destruct dead.
    + rewrite lookup_insert_ne by done. rewrite <-(eo_own _ _ _ _ _ _ Hok), edents_addrs, !list_elem_of_fmap.
      setoid_rewrite list_elem_of_filter. naive_solver.
Qed.
End delete.
