(* ===== verification/EdqSearch.v ===== *)
(** * Eligible deadline queue: searching

    The cached minimums answer for their subtree, so the search for the first
    eligible task and the cursor search return what a scan of the entries in
    deadline order returns; [next_node] is the in-order successor. *)

From S2P Require Import Prelude ArenaTree RedBlack ScxTime Edq EdqBase EdqTree EdqInsert EdqLink.
From S2P Require Import EdqOps EdqErase EdqRemove EdqDelete.


Lemma find_existsb {X} (f : X → bool) (l : list X) :
  existsb f l = match List.find f l with Some _ => true | None => false end.
Proof. induction l as [|x l IH]; simpl; [done|]. by destruct (f x). Qed.

(** The address of an entry a search returns. *)
Definition addr_of (o : option edent) : Z := match o with Some e => ee_addr e | None => NULL end.

(** The entries a cutoff makes eligible. *)
Definition elig (cutoff : Z) (e : edent) : bool := is_eligible (ee_el e) cutoff.

Section search.
Context (be bd : Z).
Implicit Types (s : edq_state) (c : ctx eddata) (t l r u : tree eddata).

(** ** Eligibility *)

(** A subtree's cached minimum is eligible exactly if some task of it is. *)
Lemma elig_rootmins t cutoff :
  aug t → win be bd t → in_window be cutoff →
  match rootmins t with Some m => is_eligible m.1 cutoff | None => false end = existsb (elig cutoff) (edents t).
Proof.
  induction t as [|l IHl a d r IHr]; [done|]. intros (Hm & Hal & Har) Hw Hc.
  apply win_T in Hw as (Hwl & [Hwe _] & Hwr). specialize (IHl Hal Hwl Hc). specialize (IHr Har Hwr Hc).
  rewrite (edents_bin false l a d r : edents (T l a d r) = _), existsb_app. simpl. rewrite <-IHl, <-IHr.
  pose proof (aug_win _ _ _ Hal Hwl) as Ml. pose proof (aug_win _ _ _ Har Hwr) as Mr. simpl in Hwe.
  change (dd_mel d) with (mins d).1. rewrite Hm. unfold elig. simpl.
  unfold is_eligible. rewrite (time_before_eq_off be) by (try done; by apply calc_win).
  destruct (calc_dir_off be false (rootmins l) d (rootmins r) Ml Mr Hwe) as [E _].
  change (calc_dir false (rootmins l) d (rootmins r)) with (calc (rootmins l) d (rootmins r)) in E. simpl in E.
  rewrite E, (time_before_eq_off be _ _ Hwe Hc).
  destruct (rootmins l) as [[ml ?]|], (rootmins r) as [[mr ?]|]; simpl in *;
    rewrite ?(time_before_eq_off be ml cutoff), ?(time_before_eq_off be mr cutoff) by done;
    apply eq_true_iff_eq; rewrite ?orb_true_iff, !Z.leb_le; lia.
Qed.

Lemma subtree_eligible_run s p t cutoff :
  rep ed_mk (es_nodes s) p t → 0 ∉ addrs t → aug t → win be bd t → in_window be cutoff →
  subtree_eligible (addr t) cutoff s = Some (existsb (elig cutoff) (edents t), s).
Proof.
  intros Hr H0 Ha Hw Hc. rewrite <-elig_rootmins by done. destruct t as [|l a d r]; [done|].
  destruct Hr as (Hn & _). simpl. unfold subtree_eligible. rewrite (proj2 (Z.eqb_neq _ _)) by (simpl in H0; set_solver).
  by rewrite (ern_bind _ _ _ _ _ Hn).
Qed.

Lemma first_eligible_loop_spec cl s p t cutoff :
  rep ed_mk (es_nodes s) p t → 0 ∉ addrs t → aug t → win be bd t → in_window be cutoff →
  (height t ≤ cl)%nat →
  first_eligible_loop cl (addr t) cutoff s = Some (addr_of (List.find (elig cutoff) (edents t)), s).
Proof.
  revert cl p. induction t as [|l IHl a d r IHr]; intros cl p Hr H0 Ha Hw Hc Hcl; [by destruct cl|].
  destruct Hr as (Hn & Hl & Hr), Ha as (Hm & Hal & Har). pose proof Hw as Hw0. apply win_T in Hw as (Hwl & _ & Hwr).
  simpl in H0. rewrite not_elem_of_cons, not_elem_of_app in H0. destruct H0 as (Ha0 & Hl0 & Hr0).
  simpl in Hcl. destruct cl as [|cl]; [lia|]. cbn [first_eligible_loop addr].
  rewrite (proj2 (Z.eqb_neq _ _)) by done. rewrite (ern_bind _ _ _ _ _ Hn). simpl (id _). cbn [ed_mk en_left en_right en_eligibility].
  rewrite (ST_bind_run _ _ _ _ _ (subtree_eligible_run _ _ _ _ Hl Hl0 Hal Hwl Hc)), find_existsb.
  rewrite (edents_bin false l a d r : edents (T l a d r) = _), find_app.
  destruct (List.find (elig cutoff) (edents l)) as [e|] eqn:El.
  { rewrite (IHl cl a) by (done || lia). done. }
  simpl. unfold elig at 1. simpl. destruct (is_eligible (dd_el d) cutoff); [done|].
  rewrite (ST_bind_run _ _ _ _ _ (subtree_eligible_run _ _ _ _ Hr Hr0 Har Hwr Hc)), find_existsb.
  destruct (List.find (elig cutoff) (edents r)) as [e|] eqn:Er; [|done].
  rewrite (IHr cl a) by (done || lia). by rewrite ?Er.
Qed.

Lemma first_eligible_spec cl s q hd t cutoff :
  edq_ok be bd s q hd t → in_window be cutoff → budget cl (length (edents t)) →
  first_eligible cl q cutoff s = Some (addr_of (List.find (elig cutoff) (edents t)), s).
Proof.
  intros Hok Hc Hcl. pose proof (ok_height_cl _ _ _ _ _ _ _ Hok Hcl) as Hh.
  destruct (eo_at _ _ _ _ _ _ Hok) as [[Hq [Hnd Hrep _]] Haug Hwin]. simpl in *.
  rewrite app_nil_r in Hnd. apply NoDup_cons in Hnd as [H0 _].
  unfold first_eligible. rewrite (erq_bind _ _ _ _ _ Hq). simpl (eq_root _).
  rewrite (ST_bind_run _ _ _ _ _ (subtree_eligible_run _ _ _ _ Hrep H0 Haug Hwin Hc)), find_existsb.
  destruct (List.find (elig cutoff) (edents t)) as [e|] eqn:E; [|done]. simpl.
  rewrite (first_eligible_loop_spec cl s 0 t cutoff) by (done || lia). by rewrite ?E.
Qed.

(** ** The shortest slice *)
Lemma msl_min t :
  aug t → t ≠ Leaf →
  (∃ e, e ∈ edents t ∧ ee_sl e = msl_of t) ∧ ∀ e, e ∈ edents t → msl_of t <= ee_sl e.
Proof.
  induction t as [|l IHl a d r IHr]; [done|]. intros (Hm & Hal & Har) _.
  assert (dd_msl d = sl_step (rootmins r) (sl_step (rootmins l) (dd_sl d))) as E
    by (change (dd_msl d) with (mins d).2; by rewrite Hm).
  rewrite !sl_step_min in E. setoid_rewrite (edents_bin false l a d r : edents (T l a d r) = _).
  setoid_rewrite elem_of_app. setoid_rewrite elem_of_cons. cbn [msl_of]. rewrite E.
  assert (∀ v, aug v → (aug v → v ≠ Leaf → (∃ e, e ∈ edents v ∧ ee_sl e = msl_of v) ∧ ∀ e, e ∈ edents v → msl_of v <= ee_sl e) →
    match rootmins v with Some m => (∃ e, e ∈ edents v ∧ ee_sl e = m.2) ∧ ∀ e, e ∈ edents v → m.2 <= ee_sl e | None => edents v = [] end) as Hcase.
  { intros [|vl va vd vr] Hv IH; [done|]. simpl. by apply IH. }
  specialize (Hcase l Hal IHl) as Hl. specialize (Hcase r Har IHr) as Hr. clear Hcase IHl IHr.
  set (e0 := edentry (a, d)) in *. assert (ee_sl e0 = dd_sl d) as E0 by done. clearbody e0.
  destruct (rootmins l) as [[? ml]|], (rootmins r) as [[? mr]|]; simpl in *; split.
  all: try (intros e [He|[->|He]]; rewrite ?Hl, ?Hr in *; try (by apply not_elem_of_nil in He);
    try (destruct Hl as [_ Hl]; specialize (Hl e)); try (destruct Hr as [_ Hr]; specialize (Hr e)); naive_solver lia).
  all: try (destruct Hl as [(el & Hel & Esl) _]); try (destruct Hr as [(er & Her & Esr) _]).
  all: try (destruct (Z.min_spec mr (Z.min ml (dd_sl d))) as [[_ ->]|[_ ->]]; [exists er; auto|]).
  all: try (destruct (Z.min_spec mr (dd_sl d)) as [[_ ->]|[_ ->]]; [exists er; auto|]).
  all: try (destruct (Z.min_spec ml (dd_sl d)) as [[_ ->]|[_ ->]]; [exists el; auto|]).
  all: exists e0; auto.
Qed.

(** ** The cursor *)
Section cursor.
Context (incl : bool) (cur : scx_edq_cursor) (Hcur : in_window bd (cu_deadline cur)).

Definition after (e : edent) : bool := cursor_before incl cur (ee_deadline e) (ee_seq e).

(** Keys behind a key behind the cursor are behind the cursor. *)
Lemma after_mono x y :
  in_window bd (ee_deadline x) → in_window bd (ee_deadline y) → ent_lt bd x y → after x = true → after y = true.
Proof.
  intros Hx Hy Hlt. unfold after, cursor_before.
  rewrite !(time_before_off bd) by done. destruct Hlt as [Hlt|[E Hlt]].
  - destruct (Z.eqb_spec (cu_deadline cur) (ee_deadline x)) as [Ex|Ex];
      destruct (Z.eqb_spec (cu_deadline cur) (ee_deadline y)) as [Ey|Ey]; simpl; rewrite ?Z.ltb_lt; intros H; try done.
    + rewrite Ex in Ey. rewrite Ey in Hlt. lia.
    + rewrite Ex. lia.
    + rewrite Ey in H. lia.
    + lia.
  - rewrite <-E. destruct (_ =? _); simpl; [|done].
    rewrite !orb_true_iff, !andb_true_iff, !Z.ltb_lt, !Z.eqb_eq. intros [?|[? ?]]; lia.
Qed.

Lemma cursor_loop_spec cl s p t next :
  rep ed_mk (es_nodes s) p t → 0 ∉ addrs t → win be bd t → StronglySorted (ent_lt bd) (edents t) →
  (height t ≤ cl)%nat →
  cursor_loop cl incl cur (addr t) next s =
    Some (NULL, match List.find after (edents t) with Some e => ee_addr e | None => next end, s).
Proof.
  revert cl p next. induction t as [|l IHl a d r IHr]; intros cl p next Hr H0 Hw Hs Hcl; [by destruct cl|].
  destruct Hr as (Hn & Hl & Hr). apply win_T in Hw as (Hwl & [_ Hwd] & Hwr). simpl in Hwd.
  simpl in H0. rewrite not_elem_of_cons, not_elem_of_app in H0. destruct H0 as (Ha0 & Hl0 & Hr0).
  rewrite (edents_bin false l a d r : edents (T l a d r) = _) in Hs |- *.
  pose proof Hs as Hs0. rewrite StronglySorted_app, StronglySorted_cons in Hs. destruct Hs as (Hlr & Hsl & Hx & Hsr).
  simpl in Hcl. destruct cl as [|cl]; [lia|]. cbn [cursor_loop addr].
  rewrite (proj2 (Z.eqb_neq _ _)) by done. rewrite (ern_bind _ _ _ _ _ Hn). simpl (id _). cbn [ed_mk en_left en_right en_deadline en_seq].
  rewrite find_app. cbn [List.find]. change (cursor_before incl cur (dd_deadline d) (dd_seq d)) with (after (edentry (a, d))).
  destruct (after (edentry (a, d))) eqn:Ea.
  - rewrite (IHl cl a) by (done || lia). by destruct (List.find after (edents l)).
  - assert (List.find after (edents l) = None) as ->.
    { destruct (List.find after (edents l)) as [e|] eqn:El; [|done]. apply List.find_some in El as [He Eaft].
      apply list_elem_of_In in He. exfalso. rewrite (after_mono e (edentry (a, d))) in Ea; try done.
      - unfold win in Hwl. rewrite Forall_forall in Hwl. apply (Hwl e He).
      - apply Hlr; [done|left]. }
    by rewrite (IHr cl a) by (done || lia).
Qed.
End cursor.

(** ** The in-order successor *)
Lemma next_loop_spec cl s c t :
  tree_in ed_mk (es_nodes s) c t → t ≠ Leaf → (length c ≤ cl)%nat →
  next_loop cl (addr t) s = Some (addr_of (head (edentry <$> cpost c)), s).
Proof.
  revert cl t. induction c as [|[dir p pd ps] c IH]; intros cl t Ht Hne Hcl;
    (destruct t as [|l a d r]; [done|]); pose proof (tree_in_root _ _ _ _ _ _ _ Ht) as Ha.
  - destruct cl; simpl; by rewrite (ern_bind _ _ _ _ _ Ha).
  - pose proof (tree_in_parent _ _ _ _ _ Ht) as Hp. cbn [fr_addr] in Hp.
    pose proof (tree_in_caddr _ _ _ _ _ Ht) as Hp0. cbn [fr_addr] in Hp0.
    destruct Ht as [Hnd Hrep Hc]. simpl in Hcl. destruct cl as [|cl]; [lia|]. cbn [next_loop addr].
    rewrite (ern_bind _ _ _ _ _ Ha). cbn [caddr fr_addr en_parent ed_mk].
    rewrite (proj2 (Z.eqb_neq _ _)) by done. rewrite (ern_bind _ _ _ _ _ Hp). destruct dir; simpl.
    + rewrite Z.eqb_refl. simpl. apply (IH cl (plug1 (Fr true p pd ps) (T l a d r))); [|done|lia].
      by apply (tree_in_plug1 _ _ (Fr true p pd ps)).
    + rewrite (proj2 (Z.eqb_neq _ _)); [done|]. nodup_facts Hnd. ptr_neq.
Qed.

(** The next entry after a focused node. *)
Lemma next_node_spec cl s c l a d r :
  tree_in ed_mk (es_nodes s) c (T l a d r) → (height (plug c (T l a d r)) ≤ cl)%nat →
  next_node cl a s = Some (addr_of (head (edents r ++ (edentry <$> cpost c))), s).
Proof.
  intros Ht Hcl. pose proof (tree_in_root _ _ _ _ _ _ _ Ht) as Ha. pose proof (length_ctx_height c (T l a d r)) as Hh. simpl in Hh.
  unfold next_node. rewrite (ern_bind _ _ _ _ _ Ha). cbn [en_right ed_mk].
  destruct (decide (r = Leaf)) as [->|Hr].
  - simpl. apply (next_loop_spec cl s c (T l a d Leaf)); [done|done|lia].
  - assert (tree_in ed_mk (es_nodes s) (Fr true a d l :: c) r) as Htr by (by apply tree_in_plug1).
    rewrite (proj2 (Z.eqb_neq _ _)) by (by eapply tree_in_addr). simpl.
    unfold leftmost. rewrite (proj2 (Z.eqb_neq _ _)) by (by eapply tree_in_addr).
    destruct (leftmost_focus_nonempty r Hr) as (c1 & b & db & u & Hlm).
    pose proof (leftmost_focus_Some _ _ _ _ _ Hlm) as (Er & Epre & _). pose proof (leftmost_focus_height _ _ _ _ _ Hlm).
    rewrite (leftmost_loop_spec cl s _ _ _ _ _ _ Htr Hlm ltac:(lia)). by rewrite Er, edents_plug, Epre.
Qed.

Lemma nth_loop_spec cl cl' s q hd t pre e post (n : nat) :
  edq_ok be bd s q hd t → edents t = pre ++ e :: post → (height t ≤ cl)%nat → (n ≤ cl')%nat →
  ∃ m, nth_loop cl cl' (ee_addr e) (Z.of_nat n) s = Some (addr_of ((e :: post) !! n), m, s) ∧
    (is_Some ((e :: post) !! n) → m = 0).
Proof.
  intros Hok. revert cl' pre e post. induction n as [|n IH]; intros cl' pre e post E Hh Hcl.
  { exists 0. split; [|done]. destruct cl'; simpl; by rewrite orb_true_r. }
  destruct cl' as [|cl']; [lia|]. cbn [nth_loop].
  assert (ee_addr e ∈ addrs t) as Hin by (rewrite edents_addrs, E, fmap_app; simpl; set_solver).
  destruct (addr_focus _ _ Hin) as (c & l & d & r & Et).
  pose proof (lay_tree _ _ _ _ _ (ea_lay _ _ _ _ _ _ _ (eo_at _ _ _ _ _ _ Hok))) as Ht.
  pose proof (nodup_edents _ _ _ Ht) as Hnd. simpl in Hnd.
  rewrite Et in Ht. apply tree_in_top in Ht.
  rewrite (proj2 (Z.eqb_neq _ 0)) by (eapply tree_in_addr in Ht; [exact Ht|done]).
  rewrite (proj2 (Z.eqb_neq (Z.of_nat (S n)) 0)) by lia. simpl (_ || _). cbv iota.
  assert (post = edents r ++ (edentry <$> cpost c)) as Epost.
  { pose proof E as E2. rewrite Et, edents_focus, <-(assoc_L (++) (edents l)), (assoc_L (++)) in E2. simpl in E2.
    assert (∀ (p1 p2 q1 q2 : list edent) x y, p1 ++ x :: q1 = p2 ++ y :: q2 → ee_addr x = ee_addr y →
      NoDup (ee_addr <$> p2 ++ y :: q2) → q1 = q2) as Huniq.
    { intros p1. induction p1 as [|z p1 IHp]; intros [|z2 p2] q1 q2 x y E3 Exy Hn; simpl in E3; injection E3 as E4 E5.
      - done.
      - exfalso. subst z2. simpl in Hn. apply NoDup_cons in Hn as [Hn _]. apply Hn. rewrite fmap_app, Exy. simpl. set_solver.
      - exfalso. subst z. simpl in Hn. apply NoDup_cons in Hn as [Hn _]. apply Hn.
        rewrite <-E5, fmap_app, <-Exy. simpl. set_solver.
      - simpl in Hn. apply NoDup_cons in Hn as [_ Hn]. by eapply IHp. }
    symmetry. eapply Huniq; [exact E2|done|by rewrite <-E]. }
  rewrite (ST_bind_run _ _ _ _ _ (next_node_spec cl s c l (ee_addr e) d r Ht ltac:(by rewrite <-Et))), <-Epost.
  replace (Z.of_nat (S n) - 1) with (Z.of_nat n) by lia. destruct post as [|e2 post]; simpl.
  - exists (Z.of_nat n). split; [by destruct cl'|]. by intros [? ?].
  - apply (IH cl' (pre ++ [e]) e2 post); [by rewrite <-(assoc_L (++))|done|lia].
Qed.
End search.
