(* ===== verification/EdqCorrect.v ===== *)
(** * Eligible deadline queue: theorems

    Functional correctness of every operation on a queue that satisfies its
    invariant. *)

From S2P Require Import Prelude ArenaTree RedBlack ScxTime Edq EdqBase EdqTree EdqInsert EdqLink.
From S2P Require Import EdqOps EdqErase EdqRemove EdqDelete EdqSearch.

(** A queue with room: sequence numbers and the size do not wrap, and the
    [can_loop] budget covers its height. *)
Definition roomy (cl : nat) (x : scx_edq) : Prop :=
  0 <= eq_seq x < two64 - 1 ∧ 0 <= eq_nr x < two64 - 1 ∧ budget cl (Z.to_nat (eq_nr x)).

#[global] Instance roomy_dec cl x : Decision (roomy cl x).
Proof. unfold roomy, budget. apply _. Defined.

Section correct.
Context (be bd : Z).
Implicit Types (s : edq_state) (t : tree eddata).
Abbreviation ok := (edq_ok be bd).

Lemma roomy_hd cl s q hd t x :
  ok s q hd t → es_queues s !! q = Some x → roomy cl x →
  0 <= hd_seq hd < two64 - 1 ∧ hd_nr hd < two64 - 1 ∧ budget cl (length (edents t)).
Proof.
  intros Hok Hx Hr. pose proof (lay_hdr _ _ _ _ _ (ea_lay _ _ _ _ _ _ _ (eo_at _ _ _ _ _ _ Hok))) as Hq.
  rewrite Hx in Hq. injection Hq as ->. destruct Hr as (Hs & Hn & Hb). simpl in Hs, Hn, Hb.
  split_and!; [lia..|lia|]. rewrite (eo_nr _ _ _ _ _ _ Hok), Nat2Z.id in Hb. done.
Qed.

Lemma ok_hdr s q hd t : ok s q hd t → es_queues s !! q = Some (ed_hdr hd (addr t)).
Proof. intros Hok. apply (lay_hdr _ _ _ _ _ (ea_lay _ _ _ _ _ _ _ (eo_at _ _ _ _ _ _ Hok))). Qed.

(** ** What an operation leaves alone *)

(** A queue other than the one operated on. *)
Lemma ok_other s s' q q' hd t a k L :
  ok s q' hd t → q' ≠ q → ed_frame (set_owner s a k) s' q L → (∀ z, z ∈ L → z ∉ addrs t) →
  a ∉ addrs t → et_edq k ≠ q' → ok s' q' hd t.
Proof.
  intros [H1 [[Hh Ht] Ha Hw] H3 H4 H5 H6 H7 H8 H9] Hq [F1 F2 F3 F4] HL Hat Hk. split; try done.
  - split; [|done|done]. split; [by rewrite F2|]. eapply tree_in_agree; [|exact Ht].
    intros z Hz. apply F1. intros Hz'. apply (HL z Hz'). simpl in Hz. by rewrite app_nil_r in Hz.
  - intros z. rewrite F3. simpl. destruct (decide (z = a)) as [->|Hz].
    + rewrite lookup_insert_eq. split; [done|]. by intros (k' & [= <-] & E).
    + rewrite lookup_insert_ne by done. apply H9.
Qed.

(** Holding and dropping a task keeps every queue. *)
Lemma ok_owner s q hd t a k k' :
  ok s q hd t → es_tasks s !! a = Some k → et_edq k' = et_edq k → ok (set_owner s a k') q hd t.
Proof.
  intros [H1 H2 H3 H4 H5 H6 H7 H8 H9] Hk E. split; try done.
  - by destruct H2 as [[? ?] ? ?].
  - intros z. rewrite H9. simpl. destruct (decide (z = a)) as [->|Hz].
    + rewrite lookup_insert_eq, Hk. naive_solver.
    + by rewrite lookup_insert_ne.
Qed.

Lemma ent_task s q hd t e :
  ok s q hd t → e ∈ edents t → ∃ k, es_tasks s !! ee_addr e = Some k ∧ et_edq k = q ∧ ee_addr e ≠ NULL.
Proof.
  intros Hok He. assert (ee_addr e ∈ addrs t) as Hin by (rewrite edents_addrs; by apply list_elem_of_fmap_2).
  pose proof Hin as Hin'. apply (eo_own _ _ _ _ _ _ Hok) in Hin as (k & Hk & E). exists k. split_and!; [done..|].
  apply Z.eqb_neq. eapply lay_nonnull; [apply (eo_at _ _ _ _ _ _ Hok)|]. simpl. by rewrite app_nil_r.
Qed.

Lemma set_owner_twice s a k k' : set_owner (set_owner s a k) a k' = set_owner s a k'.
Proof. unfold set_owner. simpl. by rewrite insert_insert_eq. Qed.

(** ** Popping a given entry *)
Definition held (hold : bool) (k : scx_edq_task) : scx_edq_task :=
  EdqTask (if hold then s32 (et_holdcnt k + 1) else et_holdcnt k) NULL.

(** The state a removal of the entry [e] leaves. *)
Definition taken s s' q hd t (e : edent) (k' : scx_edq_task) : Prop :=
  ∃ hd' t', ok s' q hd' t' ∧ edents t' = filter (λ x, ee_addr x ≠ ee_addr e) (edents t) ∧
    hd_seq hd' = hd_seq hd ∧ ed_frame (set_owner s (ee_addr e) k') s' q (addrs t).

Lemma pop_node_spec cl s q hd t e hold :
  ok s q hd t → e ∈ edents t → hd_nr hd < two64 → budget cl (length (edents t)) →
  ∃ s' k, pop_node_locked cl q (ee_addr e) hold s = Some (ee_addr e, s') ∧
    es_tasks s !! ee_addr e = Some k ∧ et_edq k = q ∧ taken s s' q hd t e (held hold k).
Proof.
  intros Hok He Hnr Hcl. destruct (ent_task _ _ _ _ _ Hok He) as (k & Hk & Hkq & Hne).
  unfold pop_node_locked. rewrite (proj2 (Z.eqb_neq _ _)) by done.
  set (k0 := if hold then set_holdcnt (s32 (et_holdcnt k + 1)) k else k).
  set (s0 := if hold then set_owner s (ee_addr e) k0 else s).
  assert ((if hold then scx_edq_task_hold (ee_addr e) else mret tt) s = Some (tt, s0)) as Hh.
  { unfold s0, k0. destruct hold; [|done]. unfold scx_edq_task_hold, ewt, set_owner. by rewrite Hk. }
  rewrite (ST_bind_run _ _ _ _ _ Hh).
  assert (ok s0 q hd t) as Hok0 by (unfold s0, k0; destruct hold; [by eapply ok_owner|done]).
  assert (es_tasks s0 !! ee_addr e = Some k0) as Hk0.
  { unfold s0, k0. destruct hold; [|done]. simpl. by rewrite lookup_insert_eq. }
  assert (et_edq k0 = q) as Hk0q by (unfold k0; by destruct hold).
  destruct (remove_locked_spec be bd cl s0 q hd t (ee_addr e) k0 false Hok0 Hk0 Hk0q Hnr Hcl)
    as (s' & hd' & t' & Hrun & Hok' & He' & Hs & Hfr).
  rewrite (ST_bind_run _ _ _ _ _ Hrun). exists s', k. split_and!; [done..|]. exists hd', t'. split_and!; [done..|].
  assert (set_owner s0 (ee_addr e) (set_edq NULL k0) = set_owner s (ee_addr e) (held hold k)) as <-; [|done].
  unfold s0, k0. destruct hold; [by rewrite set_owner_twice|]. by destruct k.
Qed.

(** The specification of the three pops: the entry they take. *)
Definition pops_entry (m : ST edq_state Z) s q hd t (hold : bool) (o : option edent) : Prop :=
  match o with
  | None => m s = Some (NULL, s)
  | Some e => ∃ s' k, m s = Some (ee_addr e, s') ∧ es_tasks s !! ee_addr e = Some k ∧ et_edq k = q ∧
      taken s s' q hd t e (held hold k)
  end.

Lemma pop_entry_spec cl s q hd t hold o :
  ok s q hd t → (∀ e, o = Some e → e ∈ edents t) → hd_nr hd < two64 → budget cl (length (edents t)) →
  pops_entry (pop_node_locked cl q (addr_of o) hold) s q hd t hold o.
Proof. intros Hok Ho Hnr Hcl. destruct o as [e|]; [|done]. by apply pop_node_spec; [|apply Ho|..]. Qed.

Lemma first_addr s q hd t : ok s q hd t → hd_first hd = addr_of (head (edents t)).
Proof.
  intros Hok. assert (hd_first hd = (first_of (edents t)).1) as -> by (by rewrite <-(eo_first _ _ _ _ _ _ Hok)).
  by destruct (edents t).
Qed.

Lemma find_elem {X} (f : X → bool) l e : List.find f l = Some e → e ∈ l.
Proof. intros [He _]%List.find_some. by apply list_elem_of_In. Qed.

Lemma head_elem {X} (l : list X) e : head l = Some e → e ∈ l.
Proof. destruct l; [done|]. intros [= ->]. left. Qed.

Lemma addr_of_null s q hd t o :
  ok s q hd t → (∀ e, o = Some e → e ∈ edents t) → (addr_of o =? NULL) = match o with Some _ => false | None => true end.
Proof.
  intros Hok Ho. destruct o as [e|]; [|done]. destruct (ent_task _ _ _ _ _ Hok (Ho e eq_refl)) as (_ & _ & _ & Hne).
  by apply Z.eqb_neq.
Qed.

(** ** Queries *)

(** Holding an entry of a queue. *)
Lemma hold_spec s q hd t e :
  ok s q hd t → e ∈ edents t →
  ∃ k, es_tasks s !! ee_addr e = Some k ∧ et_edq k = q ∧
    scx_edq_task_hold (ee_addr e) s = Some (tt, set_owner s (ee_addr e) (set_holdcnt (s32 (et_holdcnt k + 1)) k)).
Proof.
  intros Hok He. destruct (ent_task _ _ _ _ _ Hok He) as (k & Hk & Hq & _). exists k. split_and!; [done..|].
  unfold scx_edq_task_hold, ewt. by rewrite Hk.
Qed.

(** [s'] is [s] with the task of the entry held once more, if there is one. *)
Definition holds s (o : option edent) s' : Prop :=
  match o with
  | None => s' = s
  | Some e => ∃ k, es_tasks s !! ee_addr e = Some k ∧
      s' = set_owner s (ee_addr e) (set_holdcnt (s32 (et_holdcnt k + 1)) k)
  end.

Lemma hold_node_spec s q hd t o :
  ok s q hd t → (∀ e, o = Some e → e ∈ edents t) →
  ∃ s', hold_node (addr_of o) s = Some (addr_of o, s') ∧ holds s o s'.
Proof.
  intros Hok Ho. unfold hold_node. rewrite (addr_of_null _ _ _ _ _ Hok Ho). destruct o as [e|]; simpl; [|by exists s].
  destruct (hold_spec _ _ _ _ _ Hok (Ho e eq_refl)) as (k & Hk & _ & Hrun).
  rewrite (ST_bind_run _ _ _ _ _ Hrun). eexists. split; [done|]. by exists k.
Qed.

(** The node of an entry. *)
Lemma ent_node s q hd t e :
  ok s q hd t → e ∈ edents t →
  ∃ n, es_nodes s !! ee_addr e = Some n ∧ en_deadline n = ee_deadline e ∧ en_seq n = ee_seq e.
Proof.
  intros Hok He. unfold edents in He. apply list_elem_of_fmap in He as ([a d] & -> & Hin).
  destruct (elem_focus _ _ _ Hin) as (c & l & r & Et).
  pose proof (lay_tree _ _ _ _ _ (ea_lay _ _ _ _ _ _ _ (eo_at _ _ _ _ _ _ Hok))) as Ht.
  rewrite Et in Ht. apply tree_in_top, tree_in_root in Ht. eexists. split; [exact Ht|]. done.
Qed.

(** What a cursor designates in a queue. *)
Definition cursor_next (cur : scx_edq_cursor) (l : list edent) : option edent :=
  if cu_valid cur =? 0 then head l else List.find (after (cu_valid cur =? SCX_EDQ_CURSOR_AT) cur) l.

Definition cursor_at (cur : scx_edq_cursor) (o : option edent) : scx_edq_cursor :=
  match o with
  | Some e => EdqCursor (ee_deadline e) (ee_seq e) SCX_EDQ_CURSOR_AFTER
  | None => scx_edq_cursor_reset cur
  end.

(** The entry behind the [i]th is the next one after a cursor left there. *)
Lemma cursor_walk s q hd t cur i e :
  ok s q hd t → edents t !! i = Some e → cursor_next (cursor_at cur (Some e)) (edents t) = edents t !! S i.
Proof.
  intros Hok Hi. unfold cursor_next. simpl.
  pose proof (eo_sorted _ _ _ _ _ _ Hok) as Hs. pose proof (ea_win _ _ _ _ _ _ _ (eo_at _ _ _ _ _ _ Hok)) as Hw.
  simpl in Hw. unfold win in Hw. rewrite <-(take_drop_middle _ _ _ Hi) in Hs, Hw |- *.
  apply lookup_lt_Some in Hi. set (l1 := take i (edents t)) in *. set (l2 := drop (S i) (edents t)) in *.
  assert (length l1 = i) as Hl1 by (unfold l1; rewrite length_take; lia).
  assert (∀ x, x ∈ l1 ++ e :: l2 → in_window bd (ee_deadline x)) as Hwin by (rewrite Forall_forall in Hw; intros x Hx; apply (Hw x Hx)).
  clearbody l1 l2. rewrite StronglySorted_app, StronglySorted_cons in Hs. destruct Hs as (H12 & _ & He2 & _).
  set (f := after _ _). assert (∀ x, x ∈ l1 ++ e :: l2 → f x = true ↔ ent_lt bd e x) as Hf.
  { intros x Hx. unfold f, after, cursor_before. simpl. rewrite orb_false_r, (time_before_off bd) by (apply Hwin; set_solver).
    unfold ent_lt. destruct (Z.eqb_spec (ee_deadline e) (ee_deadline x)) as [->|E]; simpl; rewrite Z.ltb_lt; [|naive_solver].
    split; [by right|]. intros [?|[_ ?]]; [lia|done]. }
  assert (List.find f (l1 ++ [e]) = None) as H1.
  { destruct (List.find f (l1 ++ [e])) as [x|] eqn:Ex; [|done]. exfalso. apply List.find_some in Ex as [Hx%list_elem_of_In Ex].
    revert Ex. rewrite Hf by set_solver.
    apply elem_of_app in Hx as [Hx|Hx]; [|apply list_elem_of_singleton in Hx as ->; intros [?|[? ?]]; lia].
    intros Hlt. specialize (H12 x e Hx ltac:(left)). unfold ent_lt in *. destruct H12 as [?|[E ?]], Hlt as [?|[E' ?]];
      rewrite ?E, ?E' in *; lia. }
  change (e :: l2) with ([e] ++ l2). rewrite app_assoc, find_app, H1.
  rewrite lookup_app_r by (rewrite length_app; simpl; lia). rewrite length_app. simpl.
  replace (S i - (length l1 + 1))%nat with 0%nat by lia.
  destruct l2 as [|y l2]; [done|]. simpl. destruct (f y) eqn:Ey; [done|]. exfalso.
  apply Forall_cons in He2 as [He2 _]. rewrite <-not_true_iff_false, Hf in Ey by set_solver. done.
Qed.

Lemma pop_ops_spec cl s q hd t x hold :
  ok s q hd t → es_queues s !! q = Some x → roomy cl x →
  pops_entry (scx_edq_pop cl 0 q hold) s q hd t hold (head (edents t)) ∧
  ∀ cutoff, in_window be cutoff →
  pops_entry (scx_edq_pop_first_eligible cl 0 q cutoff hold) s q hd t hold (List.find (elig cutoff) (edents t)) ∧
  pops_entry (scx_edq_pop_first_eligible_or_first cl 0 q cutoff hold) s q hd t hold
    (match List.find (elig cutoff) (edents t) with Some e => Some e | None => head (edents t) end).
Proof.
  intros Hok Hx Hr. destruct (roomy_hd _ _ _ _ _ _ Hok Hx Hr) as (Hs & Hnr & Hb).
  pose proof (ok_hdr _ _ _ _ Hok) as Hq.
  assert (∀ m o, m s = pop_node_locked cl q (addr_of o) hold s → (∀ e, o = Some e → e ∈ edents t) →
    pops_entry m s q hd t hold o) as Hm.
  { intros m o E Ho. pose proof (pop_entry_spec cl s q hd t hold o Hok Ho ltac:(lia) Hb) as H.
    unfold pops_entry in *. by rewrite E. }
  split; [|intros cutoff Hc; pose proof (first_eligible_spec _ _ _ _ _ _ _ _ Hok Hc Hb) as Hfe; split];
    apply Hm; eauto using find_elem, head_elem.
  - unfold scx_edq_pop. simpl. rewrite (erq_bind _ _ _ _ _ Hq). simpl (eq_first _). by rewrite (first_addr _ _ _ _ Hok).
  - unfold scx_edq_pop_first_eligible. simpl. by rewrite (ST_bind_run _ _ _ _ _ Hfe).
  - unfold scx_edq_pop_first_eligible_or_first. simpl. rewrite (ST_bind_run _ _ _ _ _ Hfe).
    rewrite (addr_of_null _ _ _ _ _ Hok) by eauto using find_elem.
    destruct (List.find (elig cutoff) (edents t)); [done|]. rewrite (erq_bind _ _ _ _ _ Hq). simpl (eq_first _).
    by rewrite (first_addr _ _ _ _ Hok).
  - intros e. destruct (List.find (elig cutoff) (edents t)) eqn:E; [intros [= ->]; by eapply find_elem|apply head_elem].
Qed.

(** ** Claims *)

(** C1: An insertion fails without effect when the lock times out, when the task is dead (-ECANCELED) or when it is in a queue (-EALREADY). Otherwise it succeeds: the task is placed behind every task whose deadline is not later, it becomes a member of the queue, the invariant holds (red-black with black root, deadline order, cached minimums, first task, size) and no other node, task or queue changes. *)
Theorem edq_insert_correct cl lk s q hd t x a k n dl el sl :
  ok s q hd t → es_queues s !! q = Some x → roomy cl x →
  es_tasks s !! a = Some k → es_nodes s !! a = Some n → a ≠ NULL →
  in_window bd dl → in_window be el →
  if negb (lk =? 0) then scx_edq_insert cl lk q a dl el sl s = Some (lk, s)
  else if negb (et_edq k =? NULL) then
    scx_edq_insert cl lk q a dl el sl s =
      Some (if et_edq k =? SCX_EDQ_DEAD then - ECANCELED else - EALREADY, s)
  else ∃ s' hd' t', scx_edq_insert cl lk q a dl el sl s = Some (0, s') ∧ ok s' q hd' t' ∧
    edents t' = insert_dl bd (EdEnt a dl el sl (hd_seq hd)) (edents t) ∧ hd_seq hd' = hd_seq hd + 1 ∧
    ed_frame (set_owner s a (set_edq q k)) s' q (a :: addrs t).
Proof.
  intros Hok Hx Hr Hk Hn Ha Hd He. destruct (roomy_hd _ _ _ _ _ _ Hok Hx Hr) as (Hs & Hnr & Hb).
  destruct (Z.eqb_spec lk 0) as [->|Hlk]; simpl.
  - destruct (Z.eqb_spec (et_edq k) NULL) as [E|E]; simpl.
    + by eapply edq_insert_spec.
    + unfold scx_edq_insert. simpl (negb (0 =? 0)). cbv iota. rewrite (ert_bind _ _ _ _ _ Hk).
      by rewrite (proj2 (Z.eqb_neq _ _)).
  - unfold scx_edq_insert. by rewrite (proj2 (Z.eqb_neq _ _)).
Qed.

(** C2: Removal fails without effect when the lock is not taken and with -EINVAL when the task is not in this queue; otherwise exactly the task leaves the queue, in every shape of the tree, the rest keeps its order, the invariant holds again, the task can be queued again (or is dead if asked for), and nothing else changes. *)
Theorem edq_remove_correct cl lk s q hd t x a k :
  ok s q hd t → es_queues s !! q = Some x → roomy cl x → es_tasks s !! a = Some k →
  if negb (lk =? 0) then scx_edq_remove cl lk q a s = Some (lk, s)
  else if negb (et_edq k =? q) then scx_edq_remove cl lk q a s = Some (- EINVAL, s)
  else ∃ s' hd' t', scx_edq_remove cl lk q a s = Some (0, s') ∧ ok s' q hd' t' ∧
    edents t' = filter (λ e, ee_addr e ≠ a) (edents t) ∧ hd_seq hd' = hd_seq hd ∧
    ed_frame (set_owner s a (set_edq NULL k)) s' q (addrs t).
Proof.
  intros Hok Hx Hr Hk. destruct (roomy_hd _ _ _ _ _ _ Hok Hx Hr) as (Hs & Hnr & Hb). unfold scx_edq_remove.
  destruct (Z.eqb_spec lk 0) as [->|Hlk]; simpl; [|done].
  destruct (Z.eqb_spec (et_edq k) q) as [E|E]; simpl.
  - eapply (remove_locked_spec be bd cl s q hd t a k false); (done || lia).
  - unfold remove_locked. rewrite (ert_bind _ _ _ _ _ Hk). by rewrite (proj2 (Z.eqb_neq _ _)).
Qed.

(** C7: The three pops take, from a queue in deadline order, the first task, the first task whose eligibility time is not after the cutoff, and the first eligible task or else the first task; they return NULL without effect exactly when there is none, remove nothing but that task, and hold it if asked to. *)
Theorem edq_pop_correct cl s q hd t x hold cutoff :
  ok s q hd t → es_queues s !! q = Some x → roomy cl x → in_window be cutoff →
  pops_entry (scx_edq_pop cl 0 q hold) s q hd t hold (head (edents t)) ∧
  pops_entry (scx_edq_pop_first_eligible cl 0 q cutoff hold) s q hd t hold (List.find (elig cutoff) (edents t)) ∧
  pops_entry (scx_edq_pop_first_eligible_or_first cl 0 q cutoff hold) s q hd t hold
    (match List.find (elig cutoff) (edents t) with Some e => Some e | None => head (edents t) end).
Proof. intros Hok Hx Hr Hc. destruct (pop_ops_spec cl s q hd t x hold Hok Hx Hr) as [? H]. by split; [|apply H]. Qed.

(** The lockless and locked queries report the queue exactly: the earliest deadline among the eligible tasks (or -ENOENT), the first deadline and the size, and the cached minimum slice is attained by a queued task and is a lower bound of all slices. Nothing is modified. *)
Theorem edq_query_correct cl s q hd t x cutoff :
  ok s q hd t → es_queues s !! q = Some x → roomy cl x → in_window be cutoff →
  ∃ ms, scx_edq_try_first_eligible_deadline cl 0 q cutoff s =
      Some (match List.find (elig cutoff) (edents t) with Some e => (0, ee_deadline e, ms) | None => (- ENOENT, 0, ms) end, s) ∧
    scx_edq_first_deadline q s =
      Some (match head (edents t) with Some e => (0, ee_deadline e) | None => (- ENOENT, 0) end, s) ∧
    scx_edq_nr_queued q s = Some (Z.of_nat (length (edents t)), s) ∧
    scx_edq_min_slice q s = Some (if ms =? 0 then - ENOENT else 0, ms, s) ∧
    match edents t with
    | [] => ms = 0
    | l => (∃ e, e ∈ l ∧ ee_sl e = ms) ∧ ∀ e, e ∈ l → ms <= ee_sl e
    end.
Proof.
  intros Hok Hx Hr Hc. destruct (roomy_hd _ _ _ _ _ _ Hok Hx Hr) as (_ & _ & Hb). exists (msl_of t).
  pose proof (ok_hdr _ _ _ _ Hok) as Hq. pose proof (first_eligible_spec _ _ _ _ _ _ _ _ Hok Hc Hb) as Hfe.
  destruct (eo_at _ _ _ _ _ _ Hok) as [[_ Ht] Haug _]. simpl in Haug. split_and!.
  - unfold scx_edq_try_first_eligible_deadline. simpl. rewrite (erq_bind _ _ _ _ _ Hq). simpl (eq_root _).
    assert ((if addr t =? 0 then mret 0 else ern (addr t) en_min_slice) s = Some (msl_of t, s)) as Hms.
    { destruct t as [|l a d r]; [done|]. rewrite (proj2 (Z.eqb_neq _ _)) by (by eapply tree_in_addr).
      unfold ern. simpl. by rewrite (tree_in_root _ _ _ _ _ _ _ Ht). }
    rewrite (ST_bind_run _ _ _ _ _ Hms), (ST_bind_run _ _ _ _ _ Hfe), (addr_of_null _ _ _ _ _ Hok) by eauto using find_elem.
    destruct (List.find (elig cutoff) (edents t)) as [e|] eqn:E; simpl; [|done].
    destruct (ent_node _ _ _ _ _ Hok (find_elem _ _ _ E)) as (n & Hn & <- & _). by rewrite (ern_bind _ _ _ _ _ Hn).
  - unfold scx_edq_first_deadline. rewrite !(erq_bind _ _ _ _ _ Hq). simpl.
    rewrite (eo_nr _ _ _ _ _ _ Hok). pose proof (eo_first _ _ _ _ _ _ Hok) as E. by destruct (edents t); injection E as _ ->.
  - unfold scx_edq_nr_queued, erq. rewrite Hq. simpl. by rewrite (eo_nr _ _ _ _ _ _ Hok).
  - unfold scx_edq_min_slice. rewrite (erq_bind _ _ _ _ _ Hq). simpl. rewrite (eo_msl _ _ _ _ _ _ Hok). by destruct (msl_of t =? 0).
  - destruct (decide (t = Leaf)) as [->|Hne]; [done|]. pose proof (msl_min t Haug Hne) as H.
    destruct (edents t); [|done]. destruct H as [(e & []%not_elem_of_nil & _) _].
Qed.

(** The cursor scan returns and holds the first task after the cursor in deadline and arrival order (at or after it for a cursor marked AT, the first task for a reset cursor), whether or not the task the cursor was left at is still queued, and leaves the cursor there; when there is none it resets the cursor. From a cursor left at the i-th task it yields the (i+1)-th, so a scan visits every task of the queue once, in order. *)
Theorem edq_cursor_correct cl s q hd t x cur :
  ok s q hd t → es_queues s !! q = Some x → roomy cl x → (cu_valid cur ≠ 0 → in_window bd (cu_deadline cur)) →
  (∃ s', scx_edq_try_peek_next_hold cl 0 q cur s =
      Some (0, cursor_at cur (cursor_next cur (edents t)), addr_of (cursor_next cur (edents t)), s') ∧
    holds s (cursor_next cur (edents t)) s') ∧
  ∀ i e, edents t !! i = Some e → cursor_next (cursor_at cur (Some e)) (edents t) = edents t !! S i.
Proof.
  intros Hok Hx Hr Hc. split; [|intros i e; by eapply cursor_walk].
  destruct (roomy_hd _ _ _ _ _ _ Hok Hx Hr) as (_ & _ & Hb). pose proof (ok_hdr _ _ _ _ Hok) as Hq.
  assert (∀ e, cursor_next cur (edents t) = Some e → e ∈ edents t) as Ho.
  { intros e. unfold cursor_next. case_match; [apply head_elem|apply find_elem]. }
  unfold scx_edq_try_peek_next_hold. simpl (negb (0 =? 0)). cbv iota.
  match goal with |- context [@mbind _ _ _ _ _ ?m] => assert (m s = Some (0, addr_of (cursor_next cur (edents t)), s)) as Hm end.
  { unfold cursor_next. destruct (cu_valid cur =? 0) eqn:Ev.
    - rewrite (erq_bind _ _ _ _ _ Hq). simpl (eq_first _). by rewrite (first_addr _ _ _ _ Hok).
    - apply Z.eqb_neq in Ev. rewrite (erq_bind _ _ _ _ _ Hq). simpl (eq_root _).
      pose proof (ok_height_cl _ _ _ _ _ _ _ Hok Hb) as Hh. destruct (eo_at _ _ _ _ _ _ Hok) as [[_ [Hnd Hrep _]] _ Hwin].
      simpl in *. rewrite app_nil_r in Hnd. apply NoDup_cons in Hnd as [H0 _].
      rewrite (ST_bind_run _ _ _ _ _ (cursor_loop_spec be bd _ cur (Hc Ev) cl s _ t NULL Hrep H0 Hwin
        (eo_sorted _ _ _ _ _ _ Hok) ltac:(lia))). simpl. by destruct (List.find _ _). }
  rewrite (ST_bind_run _ _ _ _ _ Hm). cbv beta iota. simpl (negb (0 =? 0)). cbv iota. rewrite (addr_of_null _ _ _ _ _ Hok Ho).
  destruct (cursor_next cur (edents t)) as [e|]; simpl; [|by exists s].
  destruct (hold_spec _ _ _ _ _ Hok (Ho e eq_refl)) as (k & Hk & _ & Hrun). rewrite (ST_bind_run _ _ _ _ _ Hrun).
  destruct (ent_node _ _ _ _ _ Hok (Ho e eq_refl)) as (n & Hn & Hd & Hs). simpl.
  rewrite (ern_bind _ _ (set_owner s (ee_addr e) _) _ n Hn). simpl. rewrite Hd, Hs. eexists. split; [done|]. by exists k.
Qed.

(** Peeking returns and holds, without removing it, the first task of the queue, or the n-th task in deadline order while the loop budget covers n; it returns NULL without effect when there is no such task. *)
Theorem edq_peek_correct cl s q hd t x (n : nat) :
  ok s q hd t → es_queues s !! q = Some x → roomy cl x → (n ≤ cl)%nat →
  (∃ s', scx_edq_peek_hold 0 q s = Some (addr_of (head (edents t)), s') ∧
    scx_edq_try_peek_hold 0 q s = Some (0, addr_of (head (edents t)), s') ∧ holds s (head (edents t)) s') ∧
  ∃ s', scx_edq_try_peek_nth_hold cl 0 q (Z.of_nat n) s = Some (0, addr_of (edents t !! n), s') ∧
    holds s (edents t !! n) s'.
Proof.
  intros Hok Hx Hr Hn. destruct (roomy_hd _ _ _ _ _ _ Hok Hx Hr) as (_ & _ & Hb).
  pose proof (ok_hdr _ _ _ _ Hok) as Hq. pose proof (first_addr _ _ _ _ Hok) as Hf.
  assert (∀ o, (∀ e, o = Some e → e ∈ edents t) → ∃ s', hold_node (addr_of o) s = Some (addr_of o, s') ∧ holds s o s') as Hh
    by (intros o; by eapply hold_node_spec).
  split.
  - destruct (Hh (head (edents t))) as (s' & Hrun & Hs'); [apply head_elem|]. exists s'.
    unfold scx_edq_peek_hold, scx_edq_try_peek_hold. simpl (negb _). cbv iota. rewrite !(erq_bind _ _ _ _ _ Hq). simpl (eq_first _).
    rewrite Hf. split_and!; [done| |done]. by rewrite (ST_bind_run _ _ _ _ _ Hrun).
  - destruct (Hh (edents t !! n)) as (s' & Hrun & Hs'); [intros e; apply list_elem_of_lookup_2|]. exists s'. split; [|done].
    unfold scx_edq_try_peek_nth_hold. simpl (negb (0 =? 0)). cbv iota. rewrite (erq_bind _ _ _ _ _ Hq). simpl (eq_first _). rewrite Hf.
    assert (∃ m, nth_loop cl cl (addr_of (head (edents t))) (Z.of_nat n) s = Some (addr_of (edents t !! n), m, s) ∧
      (is_Some (edents t !! n) → m = 0)) as (m & Hl & Hm).
    { destruct (edents t) as [|e l] eqn:E; [exists (Z.of_nat n); split; [by destruct cl|by intros [? ?]]|].
      apply (nth_loop_spec be bd cl cl s q hd t [] e l); [done..| |done]. rewrite <-E in Hb. pose proof (ok_height_cl _ _ _ _ _ _ _ Hok Hb). lia. }
    rewrite (ST_bind_run _ _ _ _ _ Hl). cbv beta iota. rewrite (addr_of_null _ _ _ _ _ Hok) by (intros e; apply list_elem_of_lookup_2).
    destruct (edents t !! n) as [e|]; simpl; [|by rewrite (ST_bind_run _ _ _ _ _ Hrun)].
    rewrite (Hm ltac:(by eexists)). simpl. by rewrite (ST_bind_run _ _ _ _ _ Hrun).
Qed.
End correct.
