(* ===== verification/EdqSystem.v ===== *)
(** * Eligible deadline queue: systems of queues

    The invariant of a set of queues and tasks, its preservation by every
    interleaving of critical sections and atomic accesses, and the end of a
    task's life ([scx_edq_task_fini], [scx_edq_task_detach]) under
    interference by other CPUs. *)

From S2P Require Import Prelude ArenaTree RedBlack ScxTime Edq EdqBase EdqTree EdqInsert EdqLink.
From S2P Require Import EdqOps EdqErase EdqRemove EdqDelete EdqSearch EdqCorrect.

(** ** Operations keep the set of nodes *)
Definition keeps {X} (m : ST edq_state X) : Prop :=
  ∀ s x s', m s = Some (x, s') → ∀ a, is_Some (es_nodes s !! a) → is_Some (es_nodes s' !! a).

Lemma ekeeps_bind {X Y} (m : ST edq_state X) (f : X → ST edq_state Y) :
  keeps m → (∀ x, keeps (f x)) → keeps (m ≫= f).
Proof.
  intros Hm Hf s y s' (x & s1 & H1 & H2)%ST_bind_inv a Ha. eapply Hf; [done|]. by eapply Hm.
Qed.

Lemma ekeeps_ret {X} (x : X) : keeps (mret x).
Proof. by intros s y s' [= _ <-]. Qed.

Lemma keeps_ern {X} a (f : scx_edq_node → X) : keeps (ern a f).
Proof. intros s x s'. unfold ern. case_match; [|done]. by intros [= _ <-]. Qed.
Lemma keeps_ert {X} a (f : scx_edq_task → X) : keeps (ert a f).
Proof. intros s x s'. unfold ert. case_match; [|done]. by intros [= _ <-]. Qed.
Lemma keeps_erq {X} a (f : scx_edq → X) : keeps (erq a f).
Proof. intros s x s'. unfold erq. case_match; [|done]. by intros [= _ <-]. Qed.
Lemma keeps_ewn a f : keeps (ewn a f).
Proof.
  intros s x s'. unfold ewn. case_match; [|done]. intros [= _ <-] b Hb. simpl. rewrite lookup_insert_is_Some'. by right.
Qed.
Lemma keeps_ewt a f : keeps (ewt a f).
Proof. intros s x s'. unfold ewt. case_match; [|done]. by intros [= _ <-]. Qed.
Lemma keeps_ewq a f : keeps (ewq a f).
Proof. intros s x s'. unfold ewq. case_match; [|done]. by intros [= _ <-]. Qed.
Lemma keeps_error : keeps scx_bpf_error.
Proof. by intros s x s' [= _ <-]. Qed.

Create HintDb edq_keeps.
#[export] Hint Resolve ekeeps_ret keeps_ern keeps_ert keeps_erq keeps_ewn keeps_ewt keeps_ewq keeps_error : edq_keeps.
Ltac keep :=
  repeat first [progress eauto with edq_keeps | apply ekeeps_bind; [|intros ?] | case_match].

Lemma keeps_update node : keeps (node_update node).
Proof. unfold node_update, min_el_child, min_sl_child. keep. Qed.
#[export] Hint Resolve keeps_update : edq_keeps.
Lemma ekeeps_replace q p o n : keeps (replace_child q p o n).
Proof. unfold replace_child. keep. Qed.
#[export] Hint Resolve ekeeps_replace : edq_keeps.
Lemma ekeeps_rotate dir q n : keeps (rotate dir q n).
Proof. unfold rotate, rotate_aug. keep. Qed.
#[export] Hint Resolve ekeeps_rotate : edq_keeps.
Lemma keeps_propagate cl n stop : keeps (propagate cl n stop).
Proof. unfold propagate. revert n. induction cl; intros n; simpl; keep. Qed.
Lemma keeps_erase_side dir q p : keeps (erase_fixup_side dir q p).
Proof. unfold erase_fixup_side, erase_rotate, node_red. keep. Qed.
#[export] Hint Resolve keeps_propagate keeps_erase_side : edq_keeps.
Lemma keeps_erase cl q p : keeps (erase_fixup cl q p).
Proof. unfold erase_fixup. generalize NULL. revert p. induction cl; intros p n; simpl; keep. Qed.
Lemma keeps_leftmost cl n : keeps (leftmost cl n).
Proof. unfold leftmost. case_match; [apply ekeeps_ret|]. clear. revert n. induction cl; intros n; simpl; keep. Qed.
#[export] Hint Resolve keeps_erase keeps_leftmost : edq_keeps.
Lemma keeps_remove cl q a dead : keeps (remove_locked cl q a dead).
Proof. unfold remove_locked, splice_out, replace_by_successor, node_clear_links. keep. Qed.
#[export] Hint Resolve keeps_remove : edq_keeps.
Lemma ekeeps_pop cl q n hold : keeps (pop_node_locked cl q n hold).
Proof. unfold pop_node_locked, scx_edq_task_hold, scx_edq_task_drop. keep. Qed.
Lemma keeps_insert_fixup cl q n : keeps (insert_fixup cl q n).
Proof. unfold insert_fixup. revert n. induction cl; intros n; simpl; unfold insert_fixup_side, node_red; keep. Qed.
Lemma ekeeps_find cl n p c : keeps (insert_find_loop cl n p c).
Proof. revert p c. induction cl; intros p c; simpl; unfold node_less; keep. Qed.
#[export] Hint Resolve ekeeps_pop keeps_insert_fixup ekeeps_find : edq_keeps.
Lemma keeps_insert cl lk q a dl el sl : keeps (scx_edq_insert cl lk q a dl el sl).
Proof. unfold scx_edq_insert, node_clear_links, node_less. keep. Qed.

Lemma keeps_eligible_loop cl n cutoff : keeps (first_eligible_loop cl n cutoff).
Proof. revert n. induction cl; intros n; simpl; unfold subtree_eligible; keep. Qed.
#[export] Hint Resolve keeps_eligible_loop : edq_keeps.
Lemma keeps_first_eligible cl q cutoff : keeps (first_eligible cl q cutoff).
Proof. unfold first_eligible, subtree_eligible. keep. Qed.
#[export] Hint Resolve keeps_first_eligible : edq_keeps.
Lemma keeps_pop_first cl lk q hold : keeps (scx_edq_pop cl lk q hold).
Proof. unfold scx_edq_pop. keep. Qed.
Lemma keeps_pop_eligible cl lk q cutoff hold : keeps (scx_edq_pop_first_eligible cl lk q cutoff hold).
Proof. unfold scx_edq_pop_first_eligible. keep. Qed.
Lemma keeps_pop_any cl lk q cutoff hold : keeps (scx_edq_pop_first_eligible_or_first cl lk q cutoff hold).
Proof. unfold scx_edq_pop_first_eligible_or_first. keep. Qed.

(** ** The invariant *)
Section system.
Context (be bd : Z).
Implicit Types (s : edq_state) (t : tree eddata).
Abbreviation ok := (edq_ok be bd).

Record edq_inv s : Prop := EdqInv {
  ei_queue q x : es_queues s !! q = Some x → ∃ hd t, ok s q hd t;
  ei_task a k : es_tasks s !! a = Some k →
    a ≠ NULL ∧ is_Some (es_nodes s !! a) ∧
    (et_edq k = NULL ∨ et_edq k = SCX_EDQ_DEAD ∨ is_Some (es_queues s !! et_edq k));
  ei_quiet : es_error s = false;
}.

(** Every queue has room for one more task. *)
Definition spacious (cl : nat) s : Prop := ∀ q x, es_queues s !! q = Some x → roomy cl x.

(** An operation on the queue [q] that changes the owner of [a] to that of
    [k'] keeps the invariant. *)
Lemma inv_step s s' q hd t hd' t' a k k' L :
  edq_inv s → ok s q hd t → ok s' q hd' t' → es_tasks s !! a = Some k →
  et_edq k = NULL ∨ et_edq k = q → et_edq k' = NULL ∨ et_edq k' = SCX_EDQ_DEAD ∨ et_edq k' = q →
  ed_frame (set_owner s a k') s' q L → L ⊆ a :: addrs t →
  (∀ b, is_Some (es_nodes s !! b) → is_Some (es_nodes s' !! b)) → edq_inv s'.
Proof.
  intros Hinv Hok Hok' Hk Hka Hk' Hfr HL Hn. pose proof (eo_q _ _ _ _ _ _ Hok) as [Hq0 HqD]. split.
  - intros q' x Hx. destruct (decide (q' = q)) as [->|Hq]; [eauto|].
    rewrite (ef_queues _ _ _ _ Hfr) in Hx by done. destruct (ei_queue _ Hinv _ _ Hx) as (hd2 & t2 & Hok2).
    pose proof (eo_q _ _ _ _ _ _ Hok2) as [? ?].
    assert (∀ z, z ∈ addrs t2 → z ≠ a ∧ z ∉ addrs t) as Hdis.
    { intros z (kz & Hkz & Ez)%(eo_own _ _ _ _ _ _ Hok2). split; [naive_solver|].
      intros (kz' & Hkz' & Ez')%(eo_own _ _ _ _ _ _ Hok). naive_solver. }
    exists hd2, t2. apply (ok_other be bd s s' q q' hd2 t2 a k' L Hok2 Hq Hfr); [set_solver| |naive_solver].
    intros []%Hdis. done.
  - intros b kb. rewrite (ef_tasks _ _ _ _ Hfr). simpl. intros Hb.
    assert (∀ p, is_Some (es_queues s !! p) → is_Some (es_queues s' !! p)) as Hqs.
    { intros p Hp. destruct (decide (p = q)) as [->|Hpq]; [by rewrite (ok_hdr _ _ _ _ _ _ Hok')|].
      by rewrite (ef_queues _ _ _ _ Hfr). }
    apply lookup_insert_Some in Hb as [[<- <-]|[Hne Hb]].
    + destruct (ei_task _ Hinv _ _ Hk) as (? & ? & _). split_and!; [done|auto|].
      destruct Hk' as [?|[?|E]]; [auto..|]. right; right. rewrite E, (ok_hdr _ _ _ _ _ _ Hok'). by eexists.
    + destruct (ei_task _ Hinv _ _ Hb) as (? & ? & ?). naive_solver.
  - rewrite (ef_error _ _ _ _ Hfr). apply (ei_quiet _ Hinv).
Qed.

(** Changing a task that is or becomes unowned, or keeps its owner. *)
Lemma inv_task s a k k' :
  edq_inv s → es_tasks s !! a = Some k →
  et_edq k' = et_edq k ∨ et_edq k = NULL ∧ et_edq k' = SCX_EDQ_DEAD → edq_inv (set_owner s a k').
Proof.
  intros Hinv Hk E. split; [| |apply (ei_quiet _ Hinv)].
  - intros q x Hx. destruct (ei_queue _ Hinv q x Hx) as (hd & t & Hok). exists hd, t.
    destruct E as [E|[E0 ED]]; [by eapply ok_owner|]. pose proof (eo_q _ _ _ _ _ _ Hok) as [? ?].
    destruct Hok as [H1 [[? ?] ? ?] H3 H4 H5 H6 H7 H8 H9]. split; try done. intros z. rewrite H9. simpl.
    destruct (decide (z = a)) as [->|Hz]; [rewrite lookup_insert_eq, Hk; naive_solver|by rewrite lookup_insert_ne].
  - intros b kb. simpl. intros [[<- <-]|[Hne Hb]]%lookup_insert_Some; [|by apply (ei_task _ Hinv)].
    destruct (ei_task _ Hinv _ _ Hk) as (? & ? & Ho). split_and!; [done..|]. destruct E as [->|[_ ->]]; [done|auto].
Qed.

(** ** Interleavings *)

(** One transition: a critical section of some CPU, or an atomic access
    outside a lock.  The peeks are, as far as the store goes, holds. *)
Inductive edq_step (cl : nat) : edq_state → edq_state → Prop :=
| estep_insert lk q a dl el sl ret s s' :
    is_Some (es_queues s !! q) → is_Some (es_tasks s !! a) → spacious cl s →
    in_window bd dl → in_window be el →
    scx_edq_insert cl lk q a dl el sl s = Some (ret, s') → edq_step cl s s'
| estep_remove q a dead ret s s' :
    is_Some (es_queues s !! q) → is_Some (es_tasks s !! a) → spacious cl s →
    remove_locked cl q a dead s = Some (ret, s') → edq_step cl s s'
| estep_pop q hold p s s' :
    is_Some (es_queues s !! q) → spacious cl s →
    scx_edq_pop cl 0 q hold s = Some (p, s') → edq_step cl s s'
| estep_pop_eligible q cutoff hold p s s' :
    is_Some (es_queues s !! q) → spacious cl s → in_window be cutoff →
    scx_edq_pop_first_eligible cl 0 q cutoff hold s = Some (p, s') → edq_step cl s s'
| estep_pop_any q cutoff hold p s s' :
    is_Some (es_queues s !! q) → spacious cl s → in_window be cutoff →
    scx_edq_pop_first_eligible_or_first cl 0 q cutoff hold s = Some (p, s') → edq_step cl s s'
| estep_latch a k s :
    es_tasks s !! a = Some k → et_edq k = NULL → edq_step cl s (set_owner s a (set_edq SCX_EDQ_DEAD k))
| estep_hold a s s' : scx_edq_task_hold a s = Some (tt, s') → edq_step cl s s'
| estep_drop a s s' : scx_edq_task_drop a s = Some (tt, s') → edq_step cl s s'.

(** What a transition does to the tasks: at most one changes, and a dead one
    stays dead. *)
Definition ed_task_change s s' : Prop :=
  es_tasks s' = es_tasks s ∨
  ∃ a k k', es_tasks s !! a = Some k ∧ es_tasks s' = <[a := k']> (es_tasks s) ∧
    (et_edq k = SCX_EDQ_DEAD → et_edq k' = SCX_EDQ_DEAD).

Lemma taken_inv s s' q hd t e k hold :
  edq_inv s → ok s q hd t → e ∈ edents t → es_tasks s !! ee_addr e = Some k → et_edq k = q →
  taken be bd s s' q hd t e (held hold k) → (∀ b, is_Some (es_nodes s !! b) → is_Some (es_nodes s' !! b)) →
  edq_inv s' ∧ ed_task_change s s'.
Proof.
  intros Hinv Hok He Hk Hkq (hd' & t' & Hok' & _ & _ & Hfr) Hn. split.
  - eapply (inv_step s s' q hd t hd' t' (ee_addr e) k (held hold k)); eauto. set_solver.
  - right. exists (ee_addr e), k, (held hold k). split_and!; [done|apply (ef_tasks _ _ _ _ Hfr)|].
    intros E. exfalso. destruct (eo_q _ _ _ _ _ _ Hok). congruence.
Qed.

Lemma pops_inv s s' q hd t hold o (m : ST edq_state Z) p :
  edq_inv s → ok s q hd t → (∀ e, o = Some e → e ∈ edents t) → pops_entry be bd m s q hd t hold o →
  m s = Some (p, s') → (∀ b, is_Some (es_nodes s !! b) → is_Some (es_nodes s' !! b)) →
  edq_inv s' ∧ ed_task_change s s'.
Proof.
  intros Hinv Hok Ho Hm Hrun Hn. destruct o as [e|]; simpl in Hm.
  - destruct Hm as (s1 & k & Hrun1 & Hk & Hkq & Ht). rewrite Hrun1 in Hrun. injection Hrun as _ <-.
    by eapply taken_inv; [| |apply Ho|..].
  - rewrite Hm in Hrun. injection Hrun as _ <-. split; [done|]. by left.
Qed.

Lemma remove_inv cl s q a k dead :
  edq_inv s → spacious cl s → is_Some (es_queues s !! q) → es_tasks s !! a = Some k → et_edq k = q →
  ∃ s' x', remove_locked cl q a dead s = Some (0, s') ∧ edq_inv s' ∧
    es_tasks s' = <[a := set_edq (if dead then SCX_EDQ_DEAD else NULL) k]> (es_tasks s) ∧
    (∀ p, p ≠ q → es_queues s' !! p = es_queues s !! p) ∧ es_queues s' !! q = Some x' ∧ (spacious cl s → roomy cl x').
Proof.
  intros Hinv Hsp [x Hx] Hk Hkq. destruct (ei_queue _ Hinv _ _ Hx) as (hd & t & Hok).
  destruct (roomy_hd _ _ _ _ _ _ _ _ Hok Hx (Hsp _ _ Hx)) as (Hs & Hnr & Hb).
  destruct (remove_locked_spec be bd cl s q hd t a k dead Hok Hk Hkq ltac:(lia) Hb) as (s' & hd' & t' & Hrun & Hok' & He & Hsq & Hfr).
  exists s', (ed_hdr hd' (addr t')). split_and!.
  - done.
  - apply (inv_step s s' q hd t hd' t' a k _ _ Hinv Hok Hok' Hk (or_intror Hkq)) in Hfr; [done|destruct dead; simpl; auto|set_solver|].
    intros b. by eapply keeps_remove.
  - apply (ef_tasks _ _ _ _ Hfr).
  - apply (ef_queues _ _ _ _ Hfr).
  - by eapply ok_hdr.
  - intros _. unfold roomy. simpl. pose proof (eo_nr _ _ _ _ _ _ Hok) as N. pose proof (eo_nr _ _ _ _ _ _ Hok') as N'.
    assert (length (edents t') ≤ length (edents t))%nat as Hle by (rewrite He; apply length_filter).
    split_and!; [lia..|]. rewrite N', Nat2Z.id. unfold budget in *.
    pose proof (Nat.log2_le_mono (S (length (edents t'))) (S (length (edents t))) ltac:(lia)). lia.
Qed.

Lemma insert_inv cl s s' lk q x a k dl el sl ret :
  edq_inv s → spacious cl s → es_queues s !! q = Some x → es_tasks s !! a = Some k → in_window bd dl → in_window be el →
  scx_edq_insert cl lk q a dl el sl s = Some (ret, s') → edq_inv s' ∧ ed_task_change s s'.
Proof.
  intros Hinv Hsp Hx Hk Hd He Hrun.
  assert (∀ b, is_Some (es_nodes s !! b) → is_Some (es_nodes s' !! b)) as Hn by (intros b; by eapply keeps_insert).
  destruct (ei_queue _ Hinv _ _ Hx) as (hd & t & Hok).
  destruct (roomy_hd _ _ _ _ _ _ _ _ Hok Hx (Hsp _ _ Hx)) as (Hs & Hnr & Hb).
  destruct (Z.eqb_spec lk 0) as [->|Hlk].
  2:{ unfold scx_edq_insert in Hrun. rewrite (proj2 (Z.eqb_neq _ _)) in Hrun by done. injection Hrun as _ <-. split; [done|by left]. }
  destruct (Z.eqb_spec (et_edq k) NULL) as [E|E].
  - destruct (ei_task _ Hinv _ _ Hk) as (Ha & [n Hna] & _).
    destruct (edq_insert_spec be bd cl s q hd t a k n dl el sl) as (s1 & hd' & t' & Hrun1 & Hok' & _ & _ & Hfr); try done.
    rewrite Hrun1 in Hrun. injection Hrun as _ <-. split.
    + by apply (inv_step s s1 q hd t hd' t' a k _ _ Hinv Hok Hok' Hk (or_introl E)) in Hfr; [|right; right|..].
    + right. exists a, k, (set_edq q k). split_and!; [done|apply (ef_tasks _ _ _ _ Hfr)|]. rewrite E. done.
  - unfold scx_edq_insert in Hrun. simpl (negb (0 =? 0)) in Hrun. cbv iota in Hrun. rewrite (ert_bind _ _ _ _ _ Hk) in Hrun.
    rewrite (proj2 (Z.eqb_neq _ _)) in Hrun by done. injection Hrun as _ <-. split; [done|by left].
Qed.

Lemma estep_inv cl s s' : edq_step cl s s' → edq_inv s → edq_inv s' ∧ ed_task_change s s'.
Proof.
  intros Hstep Hinv.
  assert (∀ q x, es_queues s !! q = Some x → spacious cl s →
    ∃ hd t, ok s q hd t ∧ roomy cl x ∧ 0 <= hd_seq hd < two64 - 1 ∧ hd_nr hd < two64 - 1 ∧ budget cl (length (edents t))) as Hqueue.
  { intros q x Hx Hsp. destruct (ei_queue _ Hinv _ _ Hx) as (hd & t & Hok). exists hd, t.
    pose proof (roomy_hd _ _ _ _ _ _ _ _ Hok Hx (Hsp _ _ Hx)). pose proof (Hsp _ _ Hx). done. }
  destruct Hstep as [lk q a dl el sl ret s s' [x Hx] [k Hk] Hsp Hd He Hrun|q a dead ret s s' Hq [k Hk] Hsp Hrun
    |q hold p s s' [x Hx] Hsp Hrun|q cutoff hold p s s' [x Hx] Hsp Hc Hrun|q cutoff hold p s s' [x Hx] Hsp Hc Hrun
    |a k s Hk E0|a s s' Hrun|a s s' Hrun].
  - by eapply insert_inv.
  - destruct (decide (et_edq k = q)) as [E|E].
    + destruct (remove_inv cl s q a k dead Hinv Hsp Hq Hk E) as (s1 & x' & Hrun1 & Hinv1 & Htk & _).
      rewrite Hrun1 in Hrun. injection Hrun as _ <-. split; [done|]. right. eexists a, k, _. split_and!; [done|exact Htk|].
      intros ED. exfalso. destruct Hq as [x Hx]. destruct (ei_queue _ Hinv _ _ Hx) as (hd & t & Hok).
      destruct (eo_q _ _ _ _ _ _ Hok). congruence.
    + unfold remove_locked in Hrun. rewrite (ert_bind _ _ _ _ _ Hk), (proj2 (Z.eqb_neq _ _)) in Hrun by done.
      injection Hrun as _ <-. split; [done|by left].
  - destruct (Hqueue _ _ Hx Hsp) as (hd & t & Hok & Hr & _). destruct (pop_ops_spec be bd cl s q hd t x hold Hok Hx Hr) as [H _].
    eapply pops_inv; [done|done|apply head_elem|exact H|exact Hrun|]. intros b. by eapply keeps_pop_first.
  - destruct (Hqueue _ _ Hx Hsp) as (hd & t & Hok & Hr & _). destruct (pop_ops_spec be bd cl s q hd t x hold Hok Hx Hr) as [_ H].
    destruct (H cutoff Hc) as [H1 _]. eapply pops_inv; [done|done|apply find_elem|exact H1|exact Hrun|].
    intros b. by eapply keeps_pop_eligible.
  - destruct (Hqueue _ _ Hx Hsp) as (hd & t & Hok & Hr & _). destruct (pop_ops_spec be bd cl s q hd t x hold Hok Hx Hr) as [_ H].
    destruct (H cutoff Hc) as [_ H1]. eapply pops_inv; [done|done| |exact H1|exact Hrun|].
    + intros e. destruct (List.find (elig cutoff) (edents t)) eqn:E; [intros [= ->]; by eapply find_elem|apply head_elem].
    + intros b. by eapply keeps_pop_any.
  - split; [eapply inv_task; eauto|]. right. by eexists a, k, _.
  - unfold scx_edq_task_hold, ewt in Hrun. destruct (es_tasks s !! a) as [k|] eqn:Hk; [|done]. injection Hrun as <-.
    split; [by eapply (inv_task s a k); [..|left]|]. right. by eexists a, k, _.
  - unfold scx_edq_task_drop, ewt in Hrun. destruct (es_tasks s !! a) as [k|] eqn:Hk; [|done]. injection Hrun as <-.
    split; [by eapply (inv_task s a k); [..|left]|]. right. by eexists a, k, _.
Qed.

(** A dying task, out of every queue for good. *)
Definition ed_dead s (a : Z) : Prop := ∃ k, es_tasks s !! a = Some k ∧ et_edq k = SCX_EDQ_DEAD.

Lemma ed_dead_unqueued s a q hd t : ed_dead s a → ok s q hd t → a ∉ addrs t.
Proof.
  intros (k & Hk & E) Hok (k' & Hk' & E')%(eo_own _ _ _ _ _ _ Hok). destruct (eo_q _ _ _ _ _ _ Hok). congruence.
Qed.

Lemma ed_change_keeps s s' a :
  ed_task_change s s' →
  (is_Some (es_tasks s !! a) → is_Some (es_tasks s' !! a)) ∧ (ed_dead s a → ed_dead s' a).
Proof.
  intros [E|(b & k & k' & Hb & E & HD)]; unfold ed_dead; rewrite E; [done|].
  rewrite lookup_insert_is_Some'. split; [auto|]. intros (k2 & Ha & E2). destruct (decide (a = b)) as [->|Hne].
  - exists k'. rewrite lookup_insert_eq. split; [done|]. apply HD. congruence.
  - exists k2. by rewrite lookup_insert_ne.
Qed.

Lemma esteps_inv cl s s' a :
  rtc (edq_step cl) s s' → edq_inv s →
  edq_inv s' ∧ (is_Some (es_tasks s !! a) → is_Some (es_tasks s' !! a)) ∧ (ed_dead s a → ed_dead s' a).
Proof.
  induction 1 as [s|s s1 s' Hstep _ IH]; intros Hinv; [done|].
  destruct (estep_inv _ _ _ Hstep Hinv) as [Hinv1 Hch]. destruct (ed_change_keeps _ _ a Hch) as [H1 H2].
  destruct (IH Hinv1) as (? & ? & ?). auto.
Qed.

(** ** The end of a task

    The other CPUs act between the lockless read of the owner and the lock,
    by transitions that leave the queues room. *)
Definition eenv_ok (cl : nat) (env : nat → edq_state → edq_state) : Prop :=
  ∀ i s, edq_inv s → spacious cl s → rtc (edq_step cl) s (env i s) ∧ spacious cl (env i s).

Lemma env_run cl env i s a k :
  eenv_ok cl env → edq_inv s → spacious cl s → es_tasks s !! a = Some k →
  edq_inv (env i s) ∧ spacious cl (env i s) ∧ ∃ k', es_tasks (env i s) !! a = Some k'.
Proof.
  intros Henv Hinv Hsp Hk. destruct (Henv i s Hinv Hsp) as [Hst Hsp1].
  destruct (esteps_inv _ _ _ a Hst Hinv) as (? & H & _). split_and!; [done..|]. apply H. by eexists.
Qed.

Lemma spacious_removed cl s s' q x' :
  spacious cl s → (∀ p, p ≠ q → es_queues s' !! p = es_queues s !! p) → es_queues s' !! q = Some x' → roomy cl x' →
  spacious cl s'.
Proof.
  intros Hsp Hf Hx' Hr p x. destruct (decide (p = q)) as [->|Hp]; [congruence|]. rewrite Hf by done. apply Hsp.
Qed.

(** In iteration [i] the other CPUs leave the owner of [a] alone. *)
Definition undisturbed (env : nat → edq_state → edq_state) (a : Z) (i : nat) : Prop :=
  ∀ s k, es_tasks s !! a = Some k → ∃ k', es_tasks (env i s) !! a = Some k' ∧ et_edq k' = et_edq k.

Lemma spacious_owner cl s a k : spacious cl s → spacious cl (set_owner s a k).
Proof. done. Qed.

Lemma detach_loop_progress cl cl' env lk a s :
  eenv_ok cl env → edq_inv s → spacious cl s → is_Some (es_tasks s !! a) →
  ∃ o s', edq_detach_loop cl cl' env lk a s = Some (o, s') ∧ edq_inv s' ∧ spacious cl s' ∧ is_Some (es_tasks s' !! a) ∧
    ((∀ i, lk i = 0) → o = None ∧ ((∃ i, (i < cl')%nat ∧ undisturbed env a i) → ed_dead s' a)).
Proof.
  intros Henv. revert s. induction cl' as [|cl' IH]; intros s Hinv Hsp [k Hk]; simpl.
  { exists None, s. split_and!; [done..|by eexists|]. intros _. split; [done|]. intros (i & ? & _). lia. }
  rewrite (ert_bind _ _ _ _ _ Hk). destruct (Z.eqb_spec (et_edq k) SCX_EDQ_DEAD) as [ED|ED].
  { exists None, s. split_and!; [done..|by eexists|]. intros _. split; [done|]. intros _. by exists k. }
  destruct (env_run cl env cl' s a k Henv Hinv Hsp Hk) as (Hinv1 & Hsp1 & k1 & Hk1).
  assert (et_edq k1 ≠ et_edq k → (∃ i, (i < S cl')%nat ∧ undisturbed env a i) → ∃ i, (i < cl')%nat ∧ undisturbed env a i) as Hrace.
  { intros Hne (i & Hi & Hu). destruct (decide (i = cl')) as [->|]; [|exists i; split; [lia|done]].
    destruct (Hu s k Hk) as (k2 & Hk2 & E). congruence. }
  assert (et_edq k1 ≠ et_edq k → ∃ o s', edq_detach_loop cl cl' env lk a (env cl' s) = Some (o, s') ∧ edq_inv s' ∧ spacious cl s' ∧
    is_Some (es_tasks s' !! a) ∧ ((∀ i, lk i = 0) → o = None ∧ ((∃ i, (i < S cl')%nat ∧ undisturbed env a i) → ed_dead s' a))) as Hagain.
  { intros Hne. destruct (IH (env cl' s) Hinv1 Hsp1 ltac:(by eexists)) as (o & s' & ? & ? & ? & ? & Hd).
    exists o, s'. split_and!; [done..|]. intros Hl. destruct (Hd Hl). auto. }
  unfold modifies at 1, mbind at 1, ST_bind at 1. destruct (Z.eqb_spec (et_edq k) NULL) as [E0|E0].
  - rewrite (ert_bind _ _ _ _ _ Hk1). destruct (Z.eqb_spec (et_edq k1) NULL) as [E1|E1]; [|apply Hagain; congruence].
    unfold ewt, mbind, ST_bind. rewrite Hk1. eexists None, _. split; [done|].
    fold (set_owner (env cl' s) a (set_edq SCX_EDQ_DEAD k1)). split_and!; [eapply inv_task; eauto|by apply spacious_owner|..].
    + simpl. rewrite lookup_insert_eq. by eexists.
    + intros _. split; [done|]. intros _. exists (set_edq SCX_EDQ_DEAD k1). simpl. by rewrite lookup_insert_eq.
  - destruct (Z.eqb_spec (lk cl') 0) as [El|El]; simpl.
    2:{ exists (Some (lk cl')), (env cl' s). split_and!; [done..|by eexists|]. intros Hl. by destruct El. }
    rewrite (ert_bind _ _ _ _ _ Hk1). destruct (Z.eqb_spec (et_edq k1) (et_edq k)) as [E1|E1]; simpl; [|auto].
    assert (is_Some (es_queues (env cl' s) !! et_edq k)) as Hq.
    { rewrite <-E1. destruct (ei_task _ Hinv1 _ _ Hk1) as (_ & _ & [?|[?|?]]); [congruence..|done]. }
    destruct (remove_inv cl (env cl' s) (et_edq k) a k1 true Hinv1 Hsp1 Hq Hk1 E1) as (s2 & x' & Hrun & Hinv2 & Htk & Hf & Hx' & Hr).
    rewrite (ST_bind_run _ _ _ _ _ Hrun). simpl. exists None, s2. unfold ed_dead. rewrite Htk, lookup_insert_eq.
    split_and!; [done|done|eapply spacious_removed; eauto|by eexists|].
    intros _. split; [done|]. intros _. by eexists.
Qed.

Lemma wait_loop_progress cl cl' env a s :
  eenv_ok cl env → edq_inv s → spacious cl s → is_Some (es_tasks s !! a) →
  ∃ ret s' k', edq_wait_loop cl' env a s = Some (ret, s') ∧ edq_inv s' ∧ (ed_dead s a → ed_dead s' a) ∧
    es_tasks s' !! a = Some k' ∧ (ret = 0 ∧ et_holdcnt k' <= 0 ∨ ret = - E2BIG ∧ 0 < et_holdcnt k').
Proof.
  intros Henv. revert s. induction cl' as [|cl' IH]; intros s Hinv Hsp [k Hk]; simpl; rewrite (ert_bind _ _ _ _ _ Hk);
    destruct (Z.ltb_spec 0 (et_holdcnt k)); simpl; try (eexists _, s, k; split_and!; [done..|lia]).
  destruct (env_run cl env cl' s a k Henv Hinv Hsp Hk) as (Hinv1 & Hsp1 & k1 & Hk1).
  destruct (Henv cl' s Hinv Hsp) as [Hst _]. destruct (esteps_inv _ _ _ a Hst Hinv) as (_ & _ & Hd).
  unfold modifies, mbind, ST_bind. destruct (IH (env cl' s) Hinv1 Hsp1 ltac:(by eexists)) as (ret & s' & k' & ? & ? & ? & ? & ?).
  exists ret, s', k'. split_and!; auto.
Qed.

(** ** Claims *)

(** C4: Along every interleaving of insertions, removals, pops, holds, drops and the death latch over any number of queues and tasks, every queue keeps its invariant (so no queue is corrupted and no task is in two queues), no operation that obtained its lock reports an error to the scheduler core, no task is lost, and a task that is dead stays dead and in no queue. *)
Theorem edq_interleavings cl s s' a :
  rtc (edq_step cl) s s' → edq_inv s → is_Some (es_tasks s !! a) →
  edq_inv s' ∧ es_error s' = false ∧ is_Some (es_tasks s' !! a) ∧
  (ed_dead s a → ed_dead s' a ∧ ∀ q hd t, ok s' q hd t → a ∉ addrs t).
Proof.
  intros Hst Hinv Ha. destruct (esteps_inv _ _ _ a Hst Hinv) as (Hinv' & H1 & H2).
  split_and!; [done|apply (ei_quiet _ Hinv')|auto|]. intros Hd. split; [auto|]. intros q hd t. apply ed_dead_unqueued; auto.
Qed.

(** C28: Detaching a task terminates, never faults and keeps the invariant of all queues under arbitrary interference by other CPUs. If the locks are obtained and other CPUs leave the task's owner alone during a single iteration, the task ends up dead and in no queue, and the result is 0 exactly when no CPU holds it any more and -E2BIG when the wait ran out while it was held. *)
Theorem edq_detach_correct cl env wenv lk a s :
  eenv_ok cl env → eenv_ok cl wenv → edq_inv s → spacious cl s → is_Some (es_tasks s !! a) →
  ∃ ret s', scx_edq_task_detach cl env wenv lk a s = Some (ret, s') ∧ edq_inv s' ∧
    ((∀ i, lk i = 0) → (∃ i, (i < cl)%nat ∧ undisturbed env a i) →
      ed_dead s' a ∧ (∀ q hd t, ok s' q hd t → a ∉ addrs t) ∧
      ∃ k', es_tasks s' !! a = Some k' ∧ (ret = 0 ∧ et_holdcnt k' <= 0 ∨ ret = - E2BIG ∧ 0 < et_holdcnt k')).
Proof.
  intros Henv Hwenv Hinv Hsp Ha.
  destruct (detach_loop_progress cl cl env lk a s Henv Hinv Hsp Ha) as (o & s1 & Hrun & Hinv1 & Hsp1 & Ha1 & Hd).
  unfold scx_edq_task_detach. rewrite (ST_bind_run _ _ _ _ _ Hrun). destruct o as [ret|].
  { exists ret, s1. split_and!; [done..|]. intros Hl. by destruct (Hd Hl). }
  destruct (wait_loop_progress cl cl wenv a s1 Hwenv Hinv1 Hsp1 Ha1) as (ret & s' & k' & Hrun' & Hinv' & Hdd & Hk' & Hret).
  exists ret, s'. split_and!; [done..|]. intros Hl Hu. destruct (Hd Hl) as [_ Hd1]. split_and!; [auto| |by eauto].
  intros q hd t. apply ed_dead_unqueued; auto.
Qed.

(** Finalizing a task never faults and keeps the invariant under arbitrary interference; if the locks are obtained and one iteration is undisturbed it returns 0 or 1 and the task is in no queue. *)
Theorem edq_fini_correct cl cl' env lk a s :
  eenv_ok cl env → edq_inv s → spacious cl s → is_Some (es_tasks s !! a) →
  ∃ ret s' k', fini_loop cl cl' env lk a s = Some (ret, s') ∧ edq_inv s' ∧ es_tasks s' !! a = Some k' ∧
    ((∀ i, lk i = 0) → (∃ i, (i < cl')%nat ∧ undisturbed env a i) →
      (ret = 0 ∨ ret = 1) ∧ (et_edq k' = NULL ∨ et_edq k' = SCX_EDQ_DEAD)).
Proof.
  intros Henv. revert s. induction cl' as [|cl' IH]; intros s Hinv Hsp [k Hk]; simpl.
  { eexists _, s, k. split_and!; [done..|]. intros _ (i & ? & _). lia. }
  rewrite (ert_bind _ _ _ _ _ Hk). destruct ((et_edq k =? 0) || (et_edq k =? SCX_EDQ_DEAD)) eqn:E.
  { exists 0, s, k. split_and!; [done..|]. intros _ _. split; [by left|]. apply orb_true_iff in E as [?%Z.eqb_eq|?%Z.eqb_eq]; auto. }
  apply orb_false_iff in E as [E0%Z.eqb_neq ED%Z.eqb_neq].
  destruct (env_run cl env cl' s a k Henv Hinv Hsp Hk) as (Hinv1 & Hsp1 & k1 & Hk1).
  unfold modifies at 1, mbind at 1, ST_bind at 1. unfold scx_edq_remove.
  destruct (Z.eqb_spec (lk cl') 0) as [El|El]; simpl.
  2:{ rewrite ST_ret_bind. destruct (Z.eqb_spec (lk cl') (- EINVAL)).
      - destruct (IH _ Hinv1 Hsp1 ltac:(by eexists)) as (ret & s' & k' & ? & ? & ? & _). exists ret, s', k'. split_and!; [done..|].
        intros Hl. by destruct El.
      - eexists _, (env cl' s), k1. split_and!; [done..|]. intros Hl. by destruct El. }
  destruct (Z.eqb_spec (et_edq k1) (et_edq k)) as [E1|E1].
  - assert (is_Some (es_queues (env cl' s) !! et_edq k)) as Hq.
    { rewrite <-E1. destruct (ei_task _ Hinv1 _ _ Hk1) as (_ & _ & [?|[?|?]]); [congruence..|done]. }
    destruct (remove_inv cl (env cl' s) (et_edq k) a k1 false Hinv1 Hsp1 Hq Hk1 E1) as (s2 & x' & Hrun & Hinv2 & Htk & _).
    rewrite (ST_bind_run _ _ _ _ _ Hrun). simpl. eexists 1, s2, _. rewrite Htk, lookup_insert_eq.
    split_and!; [done..|]. intros _ _. split; [by right|by left].
  - assert (remove_locked cl (et_edq k) a false (env cl' s) = Some (- EINVAL, env cl' s)) as Hrun.
    { unfold remove_locked. rewrite (ert_bind _ _ _ _ _ Hk1). by rewrite (proj2 (Z.eqb_neq _ _)). }
    rewrite (ST_bind_run _ _ _ _ _ Hrun). simpl.
    destruct (IH _ Hinv1 Hsp1 ltac:(by eexists)) as (ret & s' & k' & ? & ? & ? & Hd). exists ret, s', k'. split_and!; [done..|].
    intros Hl (i & Hi & Hu). apply Hd; [done|]. destruct (decide (i = cl')) as [->|]; [|exists i; split; [lia|done]].
    destruct (Hu s k Hk) as (k2 & Hk2 & E). congruence.
Qed.
End system.
