(* ===== verification/EdqExamples.v ===== *)
(** * Eligible deadline queue: a concrete queue

    The theorems of [EdqCorrect] and [EdqSystem] at one queue at address 2000
    with the tasks 10 and 20, next to an idle task 30. *)

From S2P Require Import Prelude ArenaTree RedBlack ScxTime Edq EdqBase EdqTree EdqInsert EdqLink.
From S2P Require Import EdqOps EdqErase EdqRemove EdqDelete EdqSearch EdqCorrect EdqSystem.

Definition ex_edq_tree : tree eddata :=
  T Leaf 10 (EdData 100 5 5 3 2 0 false) (T Leaf 20 (EdData 200 50 50 2 2 1 true) Leaf).
Definition ex_edq_hd : edhdr := EdHdr 10 100 2 2 2.
Definition ex_edq : edq_state :=
  EdqState
    (<[10 := EdqNode 0 0 20 100 5 5 3 2 0 false]> (<[20 := EdqNode 10 0 0 200 50 50 2 2 1 true]>
       (<[30 := EdqNode 0 0 0 0 0 0 0 0 0 true]> ∅)))
    (<[10 := EdqTask 0 2000]> (<[20 := EdqTask 0 2000]> (<[30 := EdqTask 0 0]> ∅)))
    (<[2000 := Edq 10 10 100 2 2 2]> ∅) false.
Definition ex_edents : list edent := [EdEnt 10 100 5 3 0; EdEnt 20 200 50 2 1].

Lemma ex_edq_ok : edq_ok 0 0 ex_edq 2000 ex_edq_hd ex_edq_tree.
Proof.
  split.
  - done.
  - split; [split; [done|split; [decide_now|done|done]]|done|]. simpl. unfold win. change (edents _) with ex_edents.
    repeat constructor; decide_now.
  - split; [|done]. by exists 1%nat, 0%nat.
  - repeat constructor.
  - done.
  - done.
  - done.
  - repeat constructor.
  - intros a. simpl. rewrite !elem_of_cons, elem_of_nil. split.
    + intros [->|[->|[]]]; by eexists.
    + intros (k & Hk & E). rewrite !lookup_insert_Some, lookup_empty in Hk. naive_solver.
Qed.

Lemma ex_edq_inv : edq_inv 0 0 ex_edq.
Proof.
  split; [| |done].
  - intros q x. simpl. intros [[<- <-]|[_ ?]]%lookup_insert_Some; [|done]. exists ex_edq_hd, ex_edq_tree. apply ex_edq_ok.
  - intros a k Ha. simpl in Ha. rewrite !lookup_insert_Some, lookup_empty in Ha.
    assert (a = 10 ∨ a = 20 ∨ a = 30) as Hc by naive_solver.
    split_and!; [lia|destruct Hc as [->|[->| ->]]; by eexists|].
    destruct (decide (et_edq k = 0)); [by left|]. right; right. assert (et_edq k = 2000) as -> by naive_solver. by eexists.
Qed.

Lemma ex_edq_roomy : roomy 32 (Edq 10 10 100 2 2 2).
Proof. decide_now. Qed.

Lemma ex_edq_spacious : spacious 32 ex_edq.
Proof. intros q x. simpl. intros [[<- <-]|[_ ?]]%lookup_insert_Some; [apply ex_edq_roomy|done]. Qed.

Lemma ex_eenv_ok : eenv_ok 0 0 32 (λ _ s, s).
Proof. by intros i s _ Hs. Qed.

Ltac ex_edq_tac :=
  first [apply ex_edq_ok | apply ex_edq_inv | apply ex_edq_roomy | apply ex_edq_spacious | apply ex_eenv_ok
        | reflexivity | decide_now | by eexists | lia].

Lemma edq_insert_correct_witness :
  ∃ s' hd' t', scx_edq_insert 32 0 2000 30 150 7 1 ex_edq = Some (0, s') ∧ edq_ok 0 0 s' 2000 hd' t' ∧
    edents t' = [EdEnt 10 100 5 3 0; EdEnt 30 150 7 1 2; EdEnt 20 200 50 2 1].
Proof.
  destruct (edq_insert_correct 0 0 32 0 ex_edq 2000 ex_edq_hd ex_edq_tree (Edq 10 10 100 2 2 2) 30 (EdqTask 0 0)
    (EdqNode 0 0 0 0 0 0 0 0 0 true) 150 7 1) as (s' & hd' & t' & H1 & H2 & H3 & _); [ex_edq_tac..|].
  exists s', hd', t'. split_and!; assumption.
Defined.

Lemma edq_remove_correct_witness :
  ∃ s' hd' t', scx_edq_remove 32 0 2000 10 ex_edq = Some (0, s') ∧ edq_ok 0 0 s' 2000 hd' t' ∧
    edents t' = [EdEnt 20 200 50 2 1].
Proof.
  destruct (edq_remove_correct 0 0 32 0 ex_edq 2000 ex_edq_hd ex_edq_tree (Edq 10 10 100 2 2 2) 10 (EdqTask 0 2000))
    as (s' & hd' & t' & H1 & H2 & H3 & _); [ex_edq_tac..|].
  exists s', hd', t'. split_and!; assumption.
Defined.

Lemma edq_pop_correct_witness :
  pops_entry 0 0 (scx_edq_pop_first_eligible 32 0 2000 60 true) ex_edq 2000 ex_edq_hd ex_edq_tree true
    (Some (EdEnt 10 100 5 3 0)).
Proof.
  destruct (edq_pop_correct 0 0 32 ex_edq 2000 ex_edq_hd ex_edq_tree (Edq 10 10 100 2 2 2) true 60)
    as (_ & H & _); [ex_edq_tac..|]. exact H.
Defined.

Lemma edq_query_correct_witness :
  ∃ ms, scx_edq_try_first_eligible_deadline 32 0 2000 60 ex_edq = Some (0, 100, ms, ex_edq) ∧ ms <= 3.
Proof.
  destruct (edq_query_correct 0 0 32 ex_edq 2000 ex_edq_hd ex_edq_tree (Edq 10 10 100 2 2 2) 60)
    as (ms & H & _ & _ & _ & _ & Hm); [ex_edq_tac..|].
  exists ms. split; [exact H|]. apply (Hm (EdEnt 10 100 5 3 0)). left.
Defined.

Lemma edq_cursor_correct_witness :
  ∃ s', scx_edq_try_peek_next_hold 32 0 2000 (EdqCursor 100 0 SCX_EDQ_CURSOR_AFTER) ex_edq =
    Some (0, EdqCursor 200 1 SCX_EDQ_CURSOR_AFTER, 20, s').
Proof.
  destruct (edq_cursor_correct 0 0 32 ex_edq 2000 ex_edq_hd ex_edq_tree (Edq 10 10 100 2 2 2)
    (EdqCursor 100 0 SCX_EDQ_CURSOR_AFTER)) as [(s' & H & _) _]; [ex_edq_tac..|intros _; ex_edq_tac|].
  exists s'. exact H.
Defined.

Lemma edq_peek_correct_witness :
  ∃ s', scx_edq_try_peek_nth_hold 32 0 2000 1 ex_edq = Some (0, 20, s').
Proof.
  destruct (edq_peek_correct 0 0 32 ex_edq 2000 ex_edq_hd ex_edq_tree (Edq 10 10 100 2 2 2) 1)
    as [_ (s' & H & _)]; [ex_edq_tac..|]. exists s'. exact H.
Defined.

Lemma edq_interleavings_witness :
  edq_inv 0 0 (set_owner ex_edq 30 (set_edq SCX_EDQ_DEAD (EdqTask 0 0))).
Proof.
  apply (edq_interleavings 0 0 32 ex_edq _ 30); [|ex_edq_tac..]. apply rtc_once. by apply estep_latch.
Defined.

Lemma edq_detach_correct_witness :
  ∃ ret s', scx_edq_task_detach 32 (λ _ s, s) (λ _ s, s) (λ _, 0) 10 ex_edq = Some (ret, s') ∧ ed_dead s' 10.
Proof.
  destruct (edq_detach_correct 0 0 32 (λ _ s, s) (λ _ s, s) (λ _, 0) 10 ex_edq) as (ret & s' & H & _ & Hd); [ex_edq_tac..|].
  exists ret, s'. split; [exact H|]. apply Hd; [done|]. exists 0%nat. split; [lia|]. intros s k Hk. exists k. split; [exact Hk|reflexivity].
Defined.

Lemma edq_fini_correct_witness :
  ∃ ret s' k', fini_loop 32 4 (λ _ s, s) (λ _, 0) 10 ex_edq = Some (ret, s') ∧ es_tasks s' !! 10 = Some k'.
Proof.
  destruct (edq_fini_correct 0 0 32 4 (λ _ s, s) (λ _, 0) 10 ex_edq) as (ret & s' & k' & H & _ & Hk & _); [ex_edq_tac..|].
  exists ret, s', k'. split; assumption.
Defined.
