(* ===== verification/Ravg.v ===== *)
(** * Running averages: [lib/ravg.bpf.c], [lib/ravg_impl.bpf.h], [include/lib/ravg.h]

    A decaying sum of [value * time] in fixed point: values have 44 bits, a
    period ([half_life]) is [2^20].  [old] is the average as of the last
    completed period, [cur] the sum of the current one.  Every C operation is
    at its width.  BPF defines [x / 0 = 0] and [x % 0 = x], which is what
    [Z.div] and [Z.modulo] compute.  A pointer that may be NULL is an
    [option].  The native and the arena flavour are the same text. *)

From S2P Require Import Prelude.

Definition RAVG_VAL_BITS : Z := 44.
Definition RAVG_FRAC_BITS : Z := 20.

(** [struct ravg_data] *)
Record ravg_data : Type := RavgData { rv_val : Z; rv_val_at : Z; rv_old : Z; rv_cur : Z }.

#[global] Instance ravg_data_eq_dec : EqDecision ravg_data.
Proof. solve_decision. Defined.

Definition ravg_full_sum : list Z :=
  [ 524288;  786432;  917504;  983040;
   1015808; 1032192; 1040384; 1044480;
   1046528; 1047552; 1048064; 1048320;
   1048448; 1048512; 1048544; 1048560;
   1048568; 1048572; 1048574; 1048575].
Definition ravg_full_sum_len : Z := Z.of_nat (length ravg_full_sum).

Definition mask32 : Z := two32 - 1.

Definition u64_x_u32_rshift (a b rshift : Z) : Z :=
  let al := Z.land a mask32 in
  let ah := Z.shiftr (Z.land a (u64 (Z.shiftl mask32 32))) 32 in
  let al := u64 (al * b) in
  let ah := u64 (ah * b) in
  let al := Z.shiftr al rshift in
  let ah := if rshift <=? 32 then u64 (Z.shiftl ah (32 - rshift)) else Z.shiftr ah (rshift - 32) in
  u64 (al + ah).

Definition ravg_sat_add (a b : Z) : Z :=
  let sum := u64 (a + b) in if a <=? sum then sum else two64 - 1.

Definition ravg_decay (v shift : Z) : Z := if 64 <=? shift then 0 else Z.shiftr v shift.

(** The result is a [u32]; the numerator is computed in 64 bits. *)
Definition ravg_normalize_dur (dur half_life : Z) : Z :=
  if dur <? half_life
  then u32 (u64 (u64 (Z.shiftl dur RAVG_FRAC_BITS) + half_life - 1) / half_life)
  else Z.shiftl 1 RAVG_FRAC_BITS.

(** [if (seq_delta > 0)], first block: decay [old], fold and clear [cur]. *)
Definition ravg_fold (rd : ravg_data) (seq_delta : Z) : ravg_data :=
  if 0 <? seq_delta then
    let old := ravg_decay (rv_old rd) seq_delta in
    let old := ravg_sat_add old (ravg_decay (rv_cur rd) seq_delta) in
    RavgData (rv_val rd) (rv_val_at rd) old 0
  else rd.

(** The part after [if (!rd->val) goto out]: the value times the time from
    [val_at] to [now], by periods. *)
Definition ravg_add (rd : ravg_data) (now half_life seq_delta : Z) : ravg_data :=
  if 0 <? seq_delta then
    let dur := ravg_normalize_dur (u32 (half_life - rv_val_at rd mod half_life)) half_life in
    let old := ravg_sat_add (rv_old rd) (u64 (rv_val rd * ravg_decay dur seq_delta)) in
    let old :=
      if 1 <? seq_delta then
        let idx := seq_delta - 2 in
        let idx := if ravg_full_sum_len <=? idx then ravg_full_sum_len - 1 else idx in
        ravg_sat_add old (u64 (rv_val rd * nth (Z.to_nat idx) ravg_full_sum 0))
      else old in
    RavgData (rv_val rd) (rv_val_at rd) old
      (u64 (rv_cur rd + u64 (rv_val rd * ravg_normalize_dur (u32 (now mod half_life)) half_life)))
  else
    RavgData (rv_val rd) (rv_val_at rd) (rv_old rd)
      (u64 (rv_cur rd + u64 (rv_val rd * ravg_normalize_dur (u32 (now - rv_val_at rd)) half_life))).

(** The label [out]. *)
Definition ravg_out (rd : ravg_data) (new_val now : Z) : ravg_data :=
  RavgData (if Z.shiftl 1 RAVG_VAL_BITS <=? new_val then Z.shiftl 1 RAVG_VAL_BITS - 1 else new_val)
    now (rv_old rd) (rv_cur rd).

Definition ravg_accumulate_body (rd : ravg_data) (new_val now half_life : Z) : ravg_data :=
  let now := if now <? rv_val_at rd then rv_val_at rd else now in
  if now =? rv_val_at rd then ravg_out rd new_val now else
  let cur_seq := u32 (now / half_life) in
  let val_seq := u32 (rv_val_at rd / half_life) in
  let seq_delta := u32 (cur_seq - val_seq) in
  let rd := ravg_fold rd seq_delta in
  if rv_val rd =? 0 then ravg_out rd new_val now else
  ravg_out (ravg_add rd now half_life seq_delta) new_val now.

Definition ravg_accumulate (rd : option ravg_data) (new_val now half_life : Z) : option ravg_data :=
  match rd with None => None | Some rd => Some (ravg_accumulate_body rd new_val now half_life) end.

Definition ravg_scale (rd : option ravg_data) (mult rshift : Z) : option ravg_data :=
  match rd with
  | None => None
  | Some rd => Some (RavgData (u64_x_u32_rshift (rv_val rd) mult rshift) (rv_val_at rd)
      (u64_x_u32_rshift (rv_old rd) mult rshift) (u64_x_u32_rshift (rv_cur rd) mult rshift))
  end.

(** [elapsed] is a [u32]; the calls truncate the 64-bit [half_life]. *)
Definition ravg_read (rd : option ravg_data) (now half_life : Z) : Z :=
  match rd with
  | None => 0
  | Some rd =>
      let now := if now <? rv_val_at rd then rv_val_at rd else now in
      let elapsed := u32 (now mod half_life) in
      let trd := ravg_accumulate_body rd 0 now (u32 half_life) in
      if elapsed =? 0 then rv_old trd else
      let progress := ravg_normalize_dur elapsed (u32 half_life) in
      let old := u64_x_u32_rshift (rv_old trd) (Z.shiftl 1 RAVG_FRAC_BITS - progress / 2) RAVG_FRAC_BITS in
      let cur := rv_cur trd / 2 in
      u64 (old + cur)
  end.

(** Both averages after the transfer. *)
Definition ravg_transfer (base : ravg_data) (base_new_val : Z) (xfer : ravg_data) (xfer_new_val half_life : Z)
    (is_xfer_in : bool) : ravg_data * ravg_data :=
  let d := s64 (rv_val_at base - rv_val_at xfer) in
  let base' := if d <? 0 then ravg_accumulate_body base base_new_val (rv_val_at xfer) half_life else base in
  let xfer' := if negb (d <? 0) && (0 <? d)
               then ravg_accumulate_body xfer xfer_new_val (rv_val_at base) half_life else xfer in
  if is_xfer_in then
    (RavgData (rv_val base') (rv_val_at base') (u64 (rv_old base' + rv_old xfer'))
       (u64 (rv_cur base' + rv_cur xfer')), xfer')
  else
    (RavgData (rv_val base') (rv_val_at base')
       (if rv_old xfer' <? rv_old base' then rv_old base' - rv_old xfer' else 0)
       (if rv_cur xfer' <? rv_cur base' then rv_cur base' - rv_cur xfer' else 0), xfer').

(** A copy word by word. *)
Definition ravg_to_arena (from : ravg_data) : ravg_data :=
  RavgData (rv_val from) (rv_val_at from) (rv_old from) (rv_cur from).
Definition ravg_from_arena (from : ravg_data) : ravg_data :=
  RavgData (rv_val from) (rv_val_at from) (rv_old from) (rv_cur from).
