(* ===== verification/RavgCorrect.v ===== *)
(** * Running averages: theorems

    [ravg_ideal] is the accumulation in unbounded integers, by the formula the
    comments of [ravg_impl.bpf.h] derive, with the sum over the full periods
    in place of the table.  The code computes it as long as the sums fit, and
    they fit for every history whose values leave room for the rounding. *)

From S2P Require Import Prelude Ravg.

(** ** Reference definitions *)
Definition ONE : Z := 1048576.

(** A duration as a fraction of the period, rounded up. *)
Definition frac (d H : Z) : Z := (d * ONE + H - 1) / H.

(** The decayed sum of [m] full periods. *)
Fixpoint full (m : nat) : Z := match m with O => 0 | S m' => full m' + ONE / 2 ^ Z.of_nat m end.

Definition ravg_ideal (rd : ravg_data) (new_val now H : Z) : ravg_data :=
  let now := Z.max now (rv_val_at rd) in
  let d := now / H - rv_val_at rd / H in
  let '(old, cur) :=
    if d =? 0 then (rv_old rd, rv_cur rd + rv_val rd * frac (now - rv_val_at rd) H)
    else (rv_old rd / 2 ^ d + rv_cur rd / 2 ^ d
          + rv_val rd * (frac (H - rv_val_at rd mod H) H / 2 ^ d) + rv_val rd * full (Z.to_nat (d - 1)),
          rv_val rd * frac (now mod H) H) in
  RavgData (Z.min new_val (2 ^ 44 - 1)) now old cur.

(** ** Words *)
Lemma sat_add_exact a b : 0 <= a → 0 <= b → a + b < two64 → ravg_sat_add a b = a + b.
Proof.
  intros. unfold ravg_sat_add. rewrite u64_small by (unfold is_u64; lia). rewrite (proj2 (Z.leb_le _ _)); lia.
Qed.

Lemma decay_exact v d : is_u64 v → 0 <= d → ravg_decay v d = v / 2 ^ d.
Proof.
  unfold is_u64. intros Hv Hd. unfold ravg_decay. destruct (Z.leb_spec 64 d).
  - rewrite Z.div_small; [done|]. split; [lia|]. eapply Z.lt_le_trans; [apply Hv|].
    change two64 with (2 ^ 64). apply Z.pow_le_mono_r; lia.
  - by rewrite Z.shiftr_div_pow2.
Qed.

Section period.
Context (H : Z) (HH : 0 < H < two32).

Lemma frac_bound d : 0 <= d → H * frac d H <= d * ONE + H - 1.
Proof. intros. unfold frac. apply Z.mul_div_le. lia. Qed.

Lemma frac_range d : 0 <= d <= H → 0 <= frac d H <= ONE.
Proof.
  intros. unfold frac, ONE. split; [apply Z.div_pos; lia|]. apply Z.lt_succ_r, Z.div_lt_upper_bound; lia.
Qed.

Lemma normalize_exact d : 0 <= d <= H → ravg_normalize_dur d H = frac d H.
Proof.
  intros Hd. pose proof (frac_range d Hd). unfold two32 in HH. unfold ravg_normalize_dur.
  rewrite Z.shiftl_mul_pow2 by done. change (2 ^ RAVG_FRAC_BITS) with ONE. destruct (Z.ltb_spec d H).
  - rewrite (u64_small (d * ONE)), (u64_small (d * ONE + H - 1)) by (unfold is_u64, ONE, two64; lia).
    apply u32_small. unfold frac, ONE, two32 in *. lia.
  - assert (d = H) as -> by lia. unfold frac, ONE. rewrite <-Z.add_sub_assoc, Z.mul_comm, Z.div_add_l by lia.
    rewrite Z.div_small by lia. done.
Qed.

(** ** The table of full periods *)
Lemma full_step m : (20 ≤ m)%nat → full (S m) = full m.
Proof.
  intros Hm. cbn [full]. rewrite Z.div_small; [lia|]. split; [done|]. change ONE with (2 ^ 20). apply Z.pow_lt_mono_r; lia.
Qed.

Lemma full_const m : full (20 + m) = full 20.
Proof. induction m as [|m IH]; [done|]. rewrite Nat.add_succ_r, full_step by lia. done. Qed.

Lemma table_full m :
  1 <= m →
  nth (Z.to_nat (if ravg_full_sum_len <=? m - 1 then ravg_full_sum_len - 1 else m - 1)) ravg_full_sum 0 = full (Z.to_nat m).
Proof.
  intros Hm. change ravg_full_sum_len with 20. destruct (Z.leb_spec 20 (m - 1)).
  - replace (Z.to_nat m) with (20 + (Z.to_nat m - 20))%nat by lia. by rewrite full_const.
  - assert (∃ k, (k < 20)%nat ∧ m = Z.of_nat (S k)) as (k & Hk & ->) by (exists (Z.to_nat (m - 1)); lia).
    replace (Z.of_nat (S k) - 1) with (Z.of_nat k) by lia. rewrite !Nat2Z.id. do 20 (destruct k as [|k]; [done|]). lia.
Qed.

Lemma full_bound m : 0 <= full m ∧ full m * 2 ^ Z.of_nat m <= ONE * 2 ^ Z.of_nat m - ONE.
Proof.
  induction m as [|m IH]; [done|]. cbn [full]. pose proof (Z.pow_pos_nonneg 2 (Z.of_nat m) ltac:(lia) ltac:(lia)).
  rewrite Nat2Z.inj_succ, Z.pow_succ_r by lia. set (p := 2 ^ Z.of_nat m) in *.
  assert (0 <= ONE / (2 * p)) by (apply Z.div_pos; unfold ONE; lia).
  pose proof (Z.mul_div_le ONE (2 * p) ltac:(lia)). split; [lia|]. unfold ONE in *. lia.
Qed.

(** A partial first period and the full ones behind it stay below one. *)
Lemma partial_full f d : 0 <= f <= ONE → 1 <= d → 0 <= f / 2 ^ d ∧ f / 2 ^ d + full (Z.to_nat (d - 1)) <= ONE.
Proof.
  intros Hf Hd. destruct (full_bound (Z.to_nat (d - 1))) as [H0 H1]. rewrite Z2Nat.id in H1 by lia.
  assert (2 ^ d = 2 * 2 ^ (d - 1)) as E by (rewrite <-Z.pow_succ_r by lia; f_equal; lia).
  pose proof (Z.pow_pos_nonneg 2 (d - 1) ltac:(lia) ltac:(lia)). set (p := 2 ^ (d - 1)) in *.
  pose proof (Z.mul_div_le f (2 ^ d) ltac:(lia)). assert (0 <= f / 2 ^ d) by (apply Z.div_pos; lia).
  split; [done|]. rewrite E in *. set (x := f / (2 * p)) in *. set (y := full _) in *. unfold ONE in *. nia.
Qed.

(** ** The code computes the ideal accumulation *)
Record fits (rd : ravg_data) : Prop := Fits {
  fit_val : 0 <= rv_val rd;
  fit_at : 0 <= rv_val_at rd < two32 * H;
  fit_old : 0 <= rv_old rd;
  fit_cur : 0 <= rv_cur rd;
  fit_sum : rv_old rd + rv_cur rd + rv_val rd * ONE < two64;
}.

Lemma div_le a b : 0 <= a → 0 < b → 0 <= a / b <= a.
Proof. intros. split; [apply Z.div_pos; lia|]. apply Z.div_le_upper_bound; nia. Qed.

Lemma seq_range t : 0 <= t < two32 * H → 0 <= t / H < two32.
Proof. intros. split; [apply Z.div_pos; lia|]. apply Z.div_lt_upper_bound; lia. Qed.

Lemma add_exact rd now d :
  fits rd → rv_val_at rd <= now < two32 * H → d = now / H - rv_val_at rd / H →
  ravg_add (ravg_fold rd d) now H d =
    (if d =? 0 then RavgData (rv_val rd) (rv_val_at rd) (rv_old rd) (rv_cur rd + rv_val rd * frac (now - rv_val_at rd) H)
     else RavgData (rv_val rd) (rv_val_at rd)
       (rv_old rd / 2 ^ d + rv_cur rd / 2 ^ d
          + rv_val rd * (frac (H - rv_val_at rd mod H) H / 2 ^ d) + rv_val rd * full (Z.to_nat (d - 1)))
       (rv_val rd * frac (now mod H) H)).
Proof.
  intros [Hv Hat Ho Hc Hsum] Hnow Hd. pose proof (Z.div_le_mono (rv_val_at rd) now H ltac:(lia) ltac:(lia)) as Hmono.
  pose proof (Z.mod_pos_bound now H ltac:(lia)). pose proof (Z.mod_pos_bound (rv_val_at rd) H ltac:(lia)).
  pose proof (Z.div_mod now H ltac:(lia)). pose proof (Z.div_mod (rv_val_at rd) H ltac:(lia)).
  assert (∀ f, 0 <= f <= ONE → rv_val rd * f <= rv_val rd * ONE) as Hmul by (intros; nia).
  unfold ravg_add, ravg_fold. destruct (Z.eqb_spec d 0) as [E|E].
  - rewrite E. simpl. assert (0 <= now - rv_val_at rd <= H) as Hdur by nia. pose proof (frac_range _ Hdur) as Hf.
    specialize (Hmul _ Hf). rewrite (u32_small (now - _)) by lia. rewrite normalize_exact by done.
    assert (0 <= rv_val rd * frac (now - rv_val_at rd) H) by nia.
    rewrite (u64_small (rv_val rd * _)), u64_small by (unfold is_u64; lia). done.
  - rewrite (proj2 (Z.ltb_lt 0 d)) by lia. cbn [rv_val rv_val_at rv_old rv_cur].
    rewrite !u32_small by lia. rewrite !normalize_exact by lia.
    pose proof (frac_range (H - rv_val_at rd mod H) ltac:(lia)) as Hf. pose proof (frac_range (now mod H) ltac:(lia)) as Hg.
    set (f := frac (H - _) H) in *. set (g := frac (now mod H) H) in *. unfold two64, ONE in *.
    rewrite !decay_exact by (unfold is_u64, two64; lia).
    pose proof (Z.pow_pos_nonneg 2 d ltac:(lia) ltac:(lia)) as Hp.
    destruct (partial_full f d Hf ltac:(lia)) as [Hpf Hpl]. destruct (full_bound (Z.to_nat (d - 1))) as [Hfull _].
    pose proof (div_le (rv_old rd) _ Ho Hp). pose proof (div_le (rv_cur rd) _ Hc Hp).
    assert (1 <? d = true → nth (Z.to_nat (if ravg_full_sum_len <=? d - 2 then ravg_full_sum_len - 1 else d - 2)) ravg_full_sum 0 =
      full (Z.to_nat (d - 1))) as Htab.
    { intros ?%Z.ltb_lt. rewrite <-table_full by lia. by replace (d - 1 - 1) with (d - 2) by lia. }
    assert (1 <? d = false → full (Z.to_nat (d - 1)) = 0) as Hone by (intros ?%Z.ltb_ge; by replace (d - 1) with 0 by lia).
    set (o := rv_old rd / 2 ^ d) in *. set (c := rv_cur rd / 2 ^ d) in *. set (x := f / 2 ^ d) in *. set (y := full _) in *.
    assert (rv_val rd * x + rv_val rd * y <= rv_val rd * 1048576) by (unfold ONE in *; nia).
    assert (0 <= rv_val rd * x) by nia. assert (0 <= rv_val rd * y) by nia.
    assert (rv_val rd * g <= rv_val rd * 1048576) by (apply Hmul; done). assert (0 <= rv_val rd * g) by nia.
    clearbody o c x y g f. clear Hmul Hd Hmono H0 H1 H2 H3 Hat Hnow.
    rewrite (u64_small (_ * g)), (u64_small (0 + _)), (u64_small (_ * x)) by (unfold is_u64, two64; lia).
    rewrite (sat_add_exact o c), (sat_add_exact (o + c)) by (unfold two64; lia). f_equal. destruct (1 <? d).
    + rewrite Htab by done. rewrite (u64_small (_ * y)) by (unfold is_u64, two64; lia). by rewrite sat_add_exact by (unfold two64; lia).
    + rewrite (Hone eq_refl) in *. lia.
Qed.

Lemma accumulate_ideal rd new_val now :
  fits rd → 0 <= new_val → 0 <= now < two32 * H → ravg_accumulate_body rd new_val now H = ravg_ideal rd new_val now H.
Proof.
  intros Hf Hn Hnow. unfold ravg_accumulate_body, ravg_ideal. pose proof (fit_at _ Hf) as Hat.
  replace (if now <? rv_val_at rd then rv_val_at rd else now) with (Z.max now (rv_val_at rd)) by (destruct (Z.ltb_spec now (rv_val_at rd)); lia).
  assert (rv_val_at rd <= Z.max now (rv_val_at rd) < two32 * H) as Hm by lia. set (t := Z.max _ _) in *.
  assert (∀ x, (if Z.shiftl 1 RAVG_VAL_BITS <=? new_val then Z.shiftl 1 RAVG_VAL_BITS - 1 else new_val) = x ↔ Z.min new_val (2 ^ 44 - 1) = x) as Hmin.
  { intros x. change (Z.shiftl 1 RAVG_VAL_BITS) with (2 ^ 44). destruct (Z.leb_spec (2 ^ 44) new_val); lia. }
  unfold ravg_out. rewrite (proj2 (Hmin _) eq_refl). clear Hmin.
  destruct (Z.eqb_spec t (rv_val_at rd)) as [E|E].
  { rewrite E, Z.sub_diag. simpl. unfold frac. rewrite Z.sub_diag, (Z.div_small (0 * ONE + H - 1)) by lia. f_equal. lia. }
  pose proof (seq_range t ltac:(lia)). pose proof (seq_range (rv_val_at rd) ltac:(lia)).
  pose proof (Z.div_le_mono (rv_val_at rd) t H ltac:(lia) ltac:(lia)).
  rewrite !u32_small by (rewrite ?u32_small; lia). set (d := t / H - rv_val_at rd / H) in *.
  pose proof (add_exact rd t d Hf Hm eq_refl) as Hadd.
  assert (rv_val (ravg_fold rd d) = rv_val rd) as -> by (unfold ravg_fold; by destruct (0 <? d)).
  destruct (Z.eqb_spec (rv_val rd) 0) as [E0|E0].
  - rewrite E0. unfold ravg_fold. destruct (Z.eqb_spec d 0) as [Ed|Ed]; [rewrite Ed; simpl; f_equal; lia|].
    rewrite (proj2 (Z.ltb_lt 0 d)) by lia. simpl. destruct Hf as [Hv _ Ho Hc Hsum].
    rewrite E0 in Hsum. pose proof (Z.pow_pos_nonneg 2 d ltac:(lia) ltac:(lia)) as Hp.
    pose proof (div_le (rv_old rd) _ Ho Hp). pose proof (div_le (rv_cur rd) _ Hc Hp).
    rewrite !decay_exact by (unfold is_u64; lia). rewrite sat_add_exact by lia. f_equal; lia.
  - rewrite Hadd. by destruct (d =? 0).
Qed.
End period.

(** ** Multiplication through 96 bits *)
Lemma halves a : is_u64 a →
  Z.land a mask32 = a mod two32 ∧ Z.shiftr (Z.land a (u64 (Z.shiftl mask32 32))) 32 = a / two32.
Proof.
  unfold is_u64. intros Ha. split.
  - change mask32 with (Z.ones 32). by rewrite Z.land_ones.
  - rewrite Z.shiftr_land. change (Z.shiftr (u64 (Z.shiftl mask32 32)) 32) with (Z.ones 32).
    rewrite Z.land_ones, Z.shiftr_div_pow2 by done. change (2 ^ 32) with two32.
    apply Z.mod_small. split; [apply Z.div_pos; unfold two32; lia|]. apply Z.div_lt_upper_bound; [done|].
    change (two32 * two32) with two64. lia.
Qed.

Lemma rshift_parts a b : is_u64 a → 0 <= b < two32 →
  a * b = (a / two32 * b) * two32 + a mod two32 * b ∧ is_u64 (a / two32 * b) ∧ is_u64 (a mod two32 * b).
Proof.
  unfold is_u64. intros Ha Hb. pose proof (Z.div_mod a two32 ltac:(done)). pose proof (Z.mod_pos_bound a two32 ltac:(done)).
  assert (0 <= a / two32 < two32) by (split; [apply Z.div_pos; unfold two32; lia|]; apply Z.div_lt_upper_bound; [done|];
    change (two32 * two32) with two64; lia).
  change two64 with (two32 * two32). unfold two32 in *. split_and!; nia.
Qed.

Lemma rshift_exact a b r :
  is_u64 a → 0 <= b < two32 → 0 <= r <= 32 → a * b / 2 ^ r < two64 → u64_x_u32_rshift a b r = a * b / 2 ^ r.
Proof.
  intros Ha Hb Hr Hfit. unfold u64_x_u32_rshift. destruct (halves a Ha) as [-> ->].
  destruct (rshift_parts a b Ha Hb) as (E & Hh & Hl). rewrite (u64_small _ Hh), (u64_small _ Hl).
  rewrite (proj2 (Z.leb_le r 32)), Z.shiftr_div_pow2, Z.shiftl_mul_pow2 by lia.
  rewrite E in Hfit |- *. set (h := a / two32 * b) in *. set (l := a mod two32 * b) in *. clearbody h l. unfold is_u64 in *.
  pose proof (Z.pow_pos_nonneg 2 r ltac:(lia) ltac:(lia)). pose proof (Z.pow_pos_nonneg 2 (32 - r) ltac:(lia) ltac:(lia)).
  assert (two32 = 2 ^ (32 - r) * 2 ^ r) as E2 by (rewrite <-Z.pow_add_r by lia; by replace (32 - r + r) with 32 by lia).
  rewrite E2, Z.mul_assoc, Z.div_add_l in Hfit |- * by lia. assert (0 <= l / 2 ^ r) by (apply Z.div_pos; lia).
  set (x := h * 2 ^ (32 - r)) in *. assert (0 <= x) by nia. clearbody x.
  rewrite (u64_small x), u64_small by (unfold is_u64; lia). lia.
Qed.

Lemma rshift_close a b r :
  is_u64 a → 0 <= b < two32 → 32 < r < 64 → a * b / 2 ^ r - 1 <= u64_x_u32_rshift a b r <= a * b / 2 ^ r.
Proof.
  intros Ha Hb Hr. unfold u64_x_u32_rshift. destruct (halves a Ha) as [-> ->].
  destruct (rshift_parts a b Ha Hb) as (E & Hh & Hl). rewrite (u64_small _ Hh), (u64_small _ Hl).
  rewrite (proj2 (Z.leb_gt r 32)), !Z.shiftr_div_pow2 by lia. rewrite E.
  set (h := a / two32 * b) in *. set (l := a mod two32 * b) in *. clearbody h l. unfold is_u64 in *.
  assert (2 ^ r = two32 * 2 ^ (r - 32)) as E2 by (change two32 with (2 ^ 32); rewrite <-Z.pow_add_r by lia; f_equal; lia).
  assert (2 <= 2 ^ (r - 32)) as Hp by (change 2 with (2 ^ 1) at 1; apply Z.pow_le_mono_r; lia). rewrite E2. set (p := 2 ^ (r - 32)) in *. clearbody p. clear E2.
  unfold two32, two64 in *. pose proof (Z.div_mod h p ltac:(lia)). pose proof (Z.mod_pos_bound h p ltac:(lia)).
  pose proof (Z.div_mod l (4294967296 * p) ltac:(lia)). pose proof (Z.mod_pos_bound l (4294967296 * p) ltac:(lia)).
  assert (0 <= h / p <= h) by (apply div_le; lia). assert (0 <= l / (4294967296 * p)) by (apply Z.div_pos; lia).
  assert (p * (h / p) <= h) by lia. assert (l / (4294967296 * p) <= l / 4294967296) by (apply Z.div_le_compat_l; lia).
  assert (l / 4294967296 < 4294967296) by (apply Z.div_lt_upper_bound; lia).
  set (x := h / p) in *. set (y := l / (4294967296 * p)) in *. set (u := h mod p) in *. set (v := l mod (4294967296 * p)) in *.
  assert (h * 4294967296 + l = (x + y) * (4294967296 * p) + (u * 4294967296 + v)) as -> by nia.
  rewrite Z.div_add_l by nia. assert (0 <= (u * 4294967296 + v) / (4294967296 * p) < 2) by
    (split; [apply Z.div_pos; nia|apply Z.div_lt_upper_bound; nia]).
  assert (x + y < 18446744073709551616); [|rewrite u64_small by (unfold is_u64, two64; lia); lia].
  assert (2 * x <= p * x) by nia. lia.
Qed.

(** ** Histories of accumulations *)
Definition ravg_run (H : Z) (evs : list (Z * Z)) : ravg_data :=
  foldl (λ rd e, ravg_accumulate_body rd e.1 e.2 H) (RavgData 0 0 0 0) evs.
Definition ideal_run (H : Z) (evs : list (Z * Z)) : ravg_data :=
  foldl (λ rd e, ravg_ideal rd e.1 e.2 H) (RavgData 0 0 0 0) evs.

Section run.
Context (H M : Z) (HH : 0 < H < two32) (HM : 0 <= M < 2 ^ 44).

(** After [n] accumulations of values up to [M]. *)
Record bounded_by (n : Z) (rd : ravg_data) : Prop := BoundedBy {
  bb_val : 0 <= rv_val rd <= M;
  bb_at : 0 <= rv_val_at rd < two32 * H;
  bb_old : 0 <= rv_old rd <= M * (ONE + n);
  bb_cur : 0 <= rv_cur rd;
  bb_pos : H * rv_cur rd <= M * ((rv_val_at rd mod H) * ONE + n * H);
}.

Lemma bb_cur_le n rd : 0 <= n → bounded_by n rd → rv_cur rd <= M * (ONE + n).
Proof.
  intros Hn [? Hat ? ? Hp]. pose proof (Z.mod_pos_bound (rv_val_at rd) H ltac:(lia)). unfold ONE in *. nia.
Qed.

Lemma bb_fits n rd : 0 <= n → M * (3 * ONE + 2 * n) < two64 → bounded_by n rd → fits H rd.
Proof.
  intros Hn Hf Hb. pose proof (bb_cur_le n rd Hn Hb). destruct Hb. split; try lia. unfold ONE in *. nia.
Qed.

Lemma bb_same n rd t :
  0 <= n → bounded_by n rd → rv_val_at rd <= t → t / H = rv_val_at rd / H →
  H * (rv_cur rd + rv_val rd * frac (t - rv_val_at rd) H) <= M * ((t mod H) * ONE + (n + 1) * H).
Proof.
  intros Hn [Hv Hat Ho Hc Hp] Ht E. pose proof (Z.div_mod t H ltac:(lia)) as E1. pose proof (Z.div_mod (rv_val_at rd) H ltac:(lia)) as E2.
  pose proof (frac_bound H HH (t - rv_val_at rd) ltac:(lia)) as Hf.
  replace (t mod H) with (rv_val_at rd mod H + (t - rv_val_at rd)) by lia.
  set (d := t - rv_val_at rd) in *. set (g := frac d H) in *. assert (0 <= d) by lia. clearbody d g. clear E1 E2 E.
  assert (H * (rv_val rd * g) <= M * (d * ONE + H)); [|lia].
  transitivity (rv_val rd * (d * ONE + H)); [nia|]. unfold ONE. nia.
Qed.

Lemma bb_old_step n rd d :
  0 <= n → bounded_by n rd → 1 <= d →
  0 <= rv_old rd / 2 ^ d + rv_cur rd / 2 ^ d + rv_val rd * (frac (H - rv_val_at rd mod H) H / 2 ^ d)
    + rv_val rd * full (Z.to_nat (d - 1)) <= M * (ONE + (n + 1)).
Proof.
  intros Hn [Hv Hat Ho Hc Hp] Hd. pose proof (Z.mod_pos_bound (rv_val_at rd) H ltac:(lia)) as Hm.
  set (q := rv_val_at rd mod H) in *. pose proof (frac_bound H HH (H - q) ltac:(lia)) as Hf.
  pose proof (frac_range H HH (H - q) ltac:(lia)) as Hfr. set (f := frac (H - q) H) in *.
  destruct (full_bound (Z.to_nat (d - 1))) as [Hw Hw2]. rewrite Z2Nat.id in Hw2 by lia. set (w := full _) in *.
  assert (2 ^ d = 2 * 2 ^ (d - 1)) as E by (rewrite <-Z.pow_succ_r by lia; f_equal; lia).
  pose proof (Z.pow_pos_nonneg 2 (d - 1) ltac:(lia) ltac:(lia)) as Hpos. rewrite E. set (p := 2 ^ (d - 1)) in *. clearbody p q f w. clear E.
  pose proof (Z.mul_div_le (rv_old rd) (2 * p) ltac:(lia)) as Do. pose proof (Z.mul_div_le (rv_cur rd) (2 * p) ltac:(lia)) as Dc.
  pose proof (Z.mul_div_le f (2 * p) ltac:(lia)) as Df.
  assert (0 <= rv_old rd / (2 * p)) by (apply Z.div_pos; lia). assert (0 <= rv_cur rd / (2 * p)) by (apply Z.div_pos; lia).
  assert (0 <= f / (2 * p)) by (apply Z.div_pos; lia).
  set (o := rv_old rd / (2 * p)) in *. set (c := rv_cur rd / (2 * p)) in *. set (x := f / (2 * p)) in *. clearbody o c x.
  assert (rv_cur rd + rv_val rd * f <= M * (ONE + n + 1)) as Hcf.
  { apply (Z.mul_le_mono_pos_l _ _ H); [lia|]. assert (H * (rv_val rd * f) <= M * ((H - q) * ONE + H)); [|unfold ONE in *; lia].
    transitivity (rv_val rd * ((H - q) * ONE + H)); [nia|]. unfold ONE. nia. }
  split; [nia|]. apply (Z.mul_le_mono_pos_l _ _ (2 * p)); [lia|].
  assert (2 * p * (rv_val rd * x) <= rv_val rd * f) by nia.
  assert (2 * p * (rv_val rd * w) <= M * (2 * p * ONE - 2 * ONE)).
  { transitivity (rv_val rd * (2 * p * ONE - 2 * ONE)); [|unfold ONE in *; nia]. nia. }
  assert (2 * p * (M * (ONE + (n + 1))) = M * (2 * p * ONE) + 2 * p * (M * (n + 1))) as -> by lia.
  assert (M * (2 * n + 1) <= 2 * p * (M * (n + 1))); [|unfold ONE in *; lia]. nia.
Qed.

Lemma ideal_bounded n rd v t :
  0 <= n → bounded_by n rd → 0 <= v <= M → 0 <= t < two32 * H → bounded_by (n + 1) (ravg_ideal rd v t H).
Proof.
  intros Hn Hb Hv Ht. unfold ravg_ideal. pose proof (bb_at _ _ Hb) as Hat. set (t' := Z.max t (rv_val_at rd)).
  assert (rv_val_at rd <= t') as Hle by lia. assert (0 <= t' < two32 * H) as Ht' by lia. clearbody t'.
  pose proof (Z.div_le_mono (rv_val_at rd) t' H ltac:(lia) Hle).
  pose proof (bb_val _ _ Hb). pose proof (bb_old _ _ Hb). pose proof (bb_cur _ _ Hb).
  destruct (Z.eqb_spec (t' / H - rv_val_at rd / H) 0) as [E|E]; split; simpl; try lia.
  - assert (0 <= frac (t' - rv_val_at rd) H) by (apply Z.div_pos; unfold ONE; lia). nia.
  - apply bb_same; [done..|lia].
  - apply bb_old_step; [done..|lia].
  - pose proof (Z.mod_pos_bound t' H ltac:(lia)). pose proof (frac_range H HH (t' mod H) ltac:(lia)). nia.
  - pose proof (Z.mod_pos_bound t' H ltac:(lia)). pose proof (frac_bound H HH (t' mod H) ltac:(lia)).
    set (q := t' mod H) in *. set (g := frac q H) in *. transitivity (rv_val rd * (q * ONE + H)); [nia|]. unfold ONE. nia.
Qed.

Definition events (evs : list (Z * Z)) : Prop := Forall (λ e, 0 <= e.1 <= M ∧ 0 <= e.2 < two32 * H) evs.

Lemma run_bounded evs :
  events evs → M * (3 * ONE + 2 * Z.of_nat (length evs)) < two64 →
  ravg_run H evs = ideal_run H evs ∧ bounded_by (Z.of_nat (length evs)) (ravg_run H evs).
Proof.
  induction evs as [|[v t] evs IH] using rev_ind; intros He Hf.
  { split; [done|]. split; simpl; rewrite ?Zmod_0_l; unfold ONE, two32 in *; lia. }
  apply Forall_app in He as [He [Hev _]%Forall_cons]. simpl in Hev. rewrite length_app in Hf |- *. simpl in Hf |- *.
  destruct IH as [E Hb]; [done|nia|]. unfold ravg_run, ideal_run in *. rewrite !foldl_app. simpl. rewrite <-E.
  set (rd := foldl _ _ evs) in *.
  assert (fits H rd) by (apply (bb_fits (Z.of_nat (length evs))); [lia|nia|done]). rewrite (accumulate_ideal H HH) by (done || lia).
  split; [done|]. rewrite Nat2Z.inj_add. apply ideal_bounded; (done || lia).
Qed.
End run.

(** The blend of the two periods. *)
Lemma blend_bound M n old cur g :
  0 <= M → 0 <= n → 0 <= old <= M * (ONE + n) → 0 <= cur <= M * (g + n) → 0 <= g <= ONE →
  0 <= old * (ONE - g / 2) / ONE + cur / 2 <= M * (ONE + 2 * n + 1).
Proof.
  intros HM Hn Ho Hc Hg. pose proof (Z.div_mod g 2 ltac:(lia)). pose proof (Z.mod_pos_bound g 2 ltac:(lia)).
  set (b := ONE - g / 2) in *. assert (0 <= b ∧ 2 * b <= 2 * ONE - g + 1) as [Hb0 Hb] by (unfold b, ONE in *; lia).
  clearbody b. pose proof (Z.mul_div_le (old * b) ONE ltac:(done)) as Hx. pose proof (Z.mul_div_le cur 2 ltac:(lia)) as Hy.
  assert (0 <= old * b / ONE) by (apply Z.div_pos; [nia|done]). assert (0 <= cur / 2) by (apply Z.div_pos; lia).
  split; [lia|]. set (x := old * b / ONE) in *. set (y := cur / 2) in *. clearbody x y.
  assert (2 * (old * b) <= M * (ONE + n) * (2 * ONE - g + 1)) as Hob.
  { transitivity (old * (2 * ONE - g + 1)); [nia|]. apply Z.mul_le_mono_nonneg_r; unfold ONE in *; lia. }
  assert (M * (ONE + n) * (2 * ONE - g + 1) + ONE * (M * (g + n)) = M * (2 * ONE * ONE + ONE + 3 * n * ONE + n - n * g)) as E by lia.
  assert (M * (2 * ONE * ONE + ONE + 3 * n * ONE + n - n * g) <= M * (2 * ONE * (ONE + 2 * n + 1))).
  { apply Z.mul_le_mono_nonneg_l; [done|]. unfold ONE in *. nia. }
  apply (Z.mul_le_mono_pos_l _ _ (2 * ONE)); [done|]. unfold ONE in *. lia.
Qed.

Lemma read_bounded H M n rd now :
  0 < H < two32 → 0 <= M < 2 ^ 44 → 0 <= n → M * (3 * ONE + 2 * n + 2) < two64 → bounded_by H M n rd → 0 <= now < two32 * H →
  0 <= ravg_read (Some rd) now H <= M * (ONE + 2 * n + 3).
Proof.
  intros HH HM Hn Hfit Hb Hnow. pose proof (bb_at _ _ _ _ Hb) as Hat. unfold ravg_read.
  set (t := if now <? rv_val_at rd then rv_val_at rd else now).
  assert (rv_val_at rd <= t < two32 * H) as Ht by (unfold t; case_match; lia). clearbody t.
  rewrite (u32_small H) by lia. pose proof (Z.mod_pos_bound t H ltac:(lia)) as Hm. rewrite (u32_small (t mod H)) by lia.
  assert (fits H rd) as Hf by (eapply bb_fits; [..|exact Hb]; [lia..|]; unfold ONE in *; nia).
  rewrite (accumulate_ideal H HH) by (done || lia).
  assert (bounded_by H M (n + 1) (ravg_ideal rd 0 t H)) as Hb' by (apply ideal_bounded; (done || lia)).
  assert (rv_val_at (ravg_ideal rd 0 t H) = t) as Eat by (unfold ravg_ideal; destruct (_ =? 0); simpl; lia).
  destruct Hb' as [_ _ Ho Hc Hp]. rewrite Eat in Hp. set (trd := ravg_ideal rd 0 t H) in *. clearbody trd.
  destruct (t mod H =? 0); [unfold ONE in *; nia|].
  pose proof (frac_range H HH (t mod H) ltac:(lia)) as Hg. rewrite (normalize_exact H HH) by lia.
  assert ((t mod H) * ONE <= H * frac (t mod H) H) as Hge.
  { unfold frac. pose proof (Z.div_mod (t mod H * ONE + H - 1) H ltac:(lia)).
    pose proof (Z.mod_pos_bound (t mod H * ONE + H - 1) H ltac:(lia)). lia. }
  set (g := frac (t mod H) H) in *. change (Z.shiftl 1 RAVG_FRAC_BITS) with ONE.
  assert (rv_cur trd <= M * (g + (n + 1))) as Hcur.
  { apply (Z.mul_le_mono_pos_l _ _ H); [lia|]. etransitivity; [exact Hp|].
    replace (H * (M * (g + (n + 1)))) with (M * (H * g + (n + 1) * H)) by lia. apply Z.mul_le_mono_nonneg_l; lia. }
  clearbody g. pose proof (blend_bound M (n + 1) (rv_old trd) (rv_cur trd) g ltac:(lia) ltac:(lia) Ho (conj Hc Hcur) Hg) as Hbl.
  assert (0 <= rv_cur trd / 2) by (apply Z.div_pos; lia). assert (0 <= g / 2 <= ONE) by (split; [apply Z.div_pos; lia|apply Z.div_le_upper_bound; lia]).
  assert (M * (ONE + 2 * (n + 1) + 1) < two64) by (unfold ONE, two64 in *; nia).
  rewrite rshift_exact; [rewrite u64_small; unfold is_u64; change (2 ^ RAVG_FRAC_BITS) with ONE; lia|..].
  - unfold is_u64, ONE, two64 in *. nia.
  - unfold ONE, two32 in *. lia.
  - done.
  - change (2 ^ RAVG_FRAC_BITS) with ONE. lia.
Qed.

(** ** Claims *)

(** C39: As long as the sums leave room (the old average, the current period and one period of the current value together below 2^64), accumulation computes exactly the documented sum: each component decayed by one bit per elapsed period, the partial first period, the full periods in between summed one by one where the code looks them up in its 20-entry table, and the started period; time never runs backwards and values are clamped to 44 bits. *)
Theorem ravg_accumulate_exact H rd new_val now :
  0 < H < two32 → fits H rd → 0 <= new_val → 0 <= now < two32 * H →
  ravg_accumulate (Some rd) new_val now H = Some (ravg_ideal rd new_val now H).
Proof. intros. unfold ravg_accumulate. f_equal. by apply accumulate_ideal. Qed.

(** C10: For every history of n accumulations of values up to M from the zeroed state, with M * (3 * 2^20 + 2n + 2) below 2^64, no addition wraps or saturates, the state is the one of unbounded arithmetic, and the average read at any time is at most the largest value in fixed point plus its rounding, M * (2^20 + 2n + 3). *)
Theorem ravg_run_bounded H M evs now :
  0 < H < two32 → 0 <= M < 2 ^ 44 → events H M evs → 0 <= now < two32 * H →
  M * (3 * ONE + 2 * Z.of_nat (length evs) + 2) < two64 →
  ravg_run H evs = ideal_run H evs ∧
  0 <= ravg_read (Some (ravg_run H evs)) now H <= M * (ONE + 2 * Z.of_nat (length evs) + 3).
Proof.
  intros HH HM He Hnow Hfit. destruct (run_bounded H M HH HM evs He) as [E Hb]; [nia|]. split; [done|].
  eapply read_bounded; eauto; lia.
Qed.

(** The multiplication with shift through two 32-bit halves is exact for shifts up to 32 bits whenever the result fits, and for larger shifts it is at most one below the exact value. *)
Theorem u64_x_u32_rshift_correct a b r :
  is_u64 a → 0 <= b < two32 → 0 <= r < 64 →
  (r <= 32 → a * b / 2 ^ r < two64 → u64_x_u32_rshift a b r = a * b / 2 ^ r) ∧
  (32 < r → a * b / 2 ^ r - 1 <= u64_x_u32_rshift a b r <= a * b / 2 ^ r).
Proof. intros Ha Hb Hr. split; intros; [apply rshift_exact|apply rshift_close]; (done || lia). Qed.

(** The fields are [u64]s and the sums of the two averages fit. *)
Definition joint_fits (a b : ravg_data) : Prop :=
  0 <= rv_old a ∧ 0 <= rv_cur a ∧ 0 <= rv_old b ∧ 0 <= rv_cur b ∧
  rv_old a + rv_old b < two64 ∧ rv_cur a + rv_cur b < two64.

(** Transferring a component average into a sum adds its two accumulated parts, and transferring it out again restores the sum exactly, for averages of the same timestamp whose joint sums fit; the component is unchanged. *)
Theorem ravg_transfer_roundtrip base xfer H v w :
  rv_val_at base = rv_val_at xfer → joint_fits base xfer →
  ∃ sum, ravg_transfer base v xfer w H true = (sum, xfer) ∧
    rv_old sum = rv_old base + rv_old xfer ∧ rv_cur sum = rv_cur base + rv_cur xfer ∧
    ravg_transfer sum v xfer w H false = (base, xfer).
Proof.
  intros E (Hbo & Hbc & Hxo & Hxc & Ho & Hc). unfold ravg_transfer. rewrite E, Z.sub_diag. simpl.
  rewrite !u64_small by (unfold is_u64; lia). eexists. split; [done|]. simpl. rewrite E, Z.sub_diag. split_and!; [done..|]. simpl.
  f_equal. destruct base as [bv bt bo bc]. simpl in *. subst bt.
  destruct (Z.ltb_spec (rv_old xfer) (bo + rv_old xfer)); destruct (Z.ltb_spec (rv_cur xfer) (bc + rv_cur xfer)); f_equal; lia.
Qed.

(** ** Concrete histories *)
Lemma ravg_accumulate_exact_witness :
  ravg_accumulate (Some (RavgData 7 10 100 3)) 5 450 100 = Some (RavgData 5 450 6835408 3670016).
Proof.
  rewrite (ravg_accumulate_exact 100 (RavgData 7 10 100 3) 5 450); [reflexivity|done|split; simpl; unfold two32, two64, ONE; lia|lia|].
  unfold two32; lia.
Defined.

Lemma ravg_run_bounded_witness :
  ravg_read (Some (ravg_run 100 [(7, 10); (3, 60)])) 450 100 <= 7 * (ONE + 7).
Proof.
  apply (ravg_run_bounded 100 7 [(7, 10); (3, 60)] 450); unfold two32, two64, ONE; simpl; try lia.
  repeat constructor; simpl; unfold two32; lia.
Defined.

Lemma u64_x_u32_rshift_correct_witness : u64_x_u32_rshift (two64 - 1) 3 20 = (two64 - 1) * 3 / 2 ^ 20.
Proof. apply (u64_x_u32_rshift_correct (two64 - 1) 3 20); (decide_now || done). Defined.

Lemma ravg_transfer_roundtrip_witness :
  ∃ sum, ravg_transfer sum 0 (RavgData 1 50 20 30) 0 100 false = (RavgData 2 50 100 7, RavgData 1 50 20 30).
Proof.
  destruct (ravg_transfer_roundtrip (RavgData 2 50 100 7) (RavgData 1 50 20 30) 100 0 0) as (sum & _ & _ & _ & Hs);
    [done|unfold joint_fits, two64; simpl; lia|]. by exists sum.
Defined.

(** Rounding up every duration lets a period exceed its length: three
    accumulations of the largest value in one period wrap [cur]. *)
Example ravg_cur_wraps :
  let H := 2 ^ 21 in let M := 2 ^ 44 - 1 in
  rv_cur (ravg_run H [(M, 0); (M, H - 3); (M, H - 2)]) = M * ONE ∧
  rv_cur (ravg_run H [(M, 0); (M, H - 3); (M, H - 2); (M, H - 1)]) = M * ONE + M - two64.
Proof. by vm_compute. Qed.

Example ravg_rshift_inexact : u64_x_u32_rshift (2 ^ 32 + 2 ^ 31) 3 33 = 1 ∧ (2 ^ 32 + 2 ^ 31) * 3 / 2 ^ 33 = 2.
Proof. by vm_compute. Qed.
