(* ===== verification/Bitmap.v ===== *)
(** * CPU bitmaps: [lib/bitmap.bpf.c], [lib/cpumask.bpf.c], [include/lib/cpumask.h]

    A bitmap is an arena object of [mask_size] 64-bit words.  The store maps
    addresses to bitmaps, so that the operations on several bitmaps may be
    given the same one twice.  An access past the words of a bitmap, or
    through a pointer to none, faults.  [bpf_for] loops run over their whole
    range.  The [cmpxchg] loops take the actions of other CPUs as [env],
    applied between the load of a word and its [cmpxchg]. *)

From S2P Require Import Prelude Slab.

Definition SCXMASK_NLONG : Z := 512 / 8.

Record bm_state (A : Type) : Type := BmState {
  bm_masks : gmap Z (list Z);
  bm_slab : A;
  mask_size : Z;
  nr_cpu_ids : Z;
}.
Arguments BmState {A} _ _ _ _.
Arguments bm_masks {A} _.
Arguments bm_slab {A} _.
Arguments mask_size {A} _.
Arguments nr_cpu_ids {A} _.

Definition div_round_up (a b : Z) : Z := (a + b - 1) / b.

(** The index of the lowest set bit of a word, by halving. *)
Definition ffs_step (k m : Z) (nw : Z * Z) : Z * Z :=
  let '(num, word) := nw in
  if Z.land word m =? 0 then (num + k, Z.shiftr word k) else (num, word).
Definition scx_ffs (word : Z) : Z :=
  let nw := (0, word) in
  let nw := ffs_step 32 4294967295 nw in
  let nw := ffs_step 16 65535 nw in
  let nw := ffs_step 8 255 nw in
  let nw := ffs_step 4 15 nw in
  let nw := ffs_step 2 3 nw in
  let nw := ffs_step 1 1 nw in
  nw.1.

(** [~x] on a [u64]. *)
Definition u64_not (x : Z) : Z := u64 (Z.lnot x).

(** [1ULL << n] for [n < 64]. *)
Definition bit64 (n : Z) : Z := Z.shiftl 1 n.

Section model.
Context {A : Type} `{SlabAllocator A}.
Abbreviation BM X := (ST (bm_state A) X).

(** ** Words *)
Definition with_masks (ms : gmap Z (list Z)) (s : bm_state A) : bm_state A :=
  BmState ms (bm_slab s) (mask_size s) (nr_cpu_ids s).

Definition rdw (mask i : Z) : BM Z := λ s,
  match bm_masks s !! mask with
  | Some l => match l !! Z.to_nat i with Some w => Some (w, s) | None => None end
  | None => None
  end.
Definition wrw (mask i w : Z) : BM unit := λ s,
  match bm_masks s !! mask with
  | Some l =>
      match l !! Z.to_nat i with
      | Some _ => Some (tt, with_masks (<[mask := <[Z.to_nat i := w]> l]> (bm_masks s)) s)
      | None => None
      end
  | None => None
  end.
Definition cmpxchg_word (mask i old new : Z) : BM Z :=
  cur ← rdw mask i;
  (if cur =? old then wrw mask i new else mret tt);;
  mret cur.

(** [bpf_for(i, 0, mask_size) body], and with a body that may [return]. *)
Fixpoint bpf_for (n : nat) (i : Z) (body : Z → BM unit) : BM unit :=
  match n with
  | O => mret tt
  | S n => body i;; bpf_for n (i + 1) body
  end.
Fixpoint bpf_for_ret {X} (n : nat) (i : Z) (body : Z → BM (option X)) (last : X) : BM X :=
  match n with
  | O => mret last
  | S n =>
      r ← body i;
      match r with Some x => mret x | None => bpf_for_ret n (i + 1) body last end
  end.
Definition for_mask (body : Z → BM unit) : BM unit :=
  n ← gets mask_size; bpf_for (Z.to_nat n) 0 body.
Definition for_mask_ret {X} (body : Z → BM (option X)) (last : X) : BM X :=
  n ← gets mask_size; bpf_for_ret (Z.to_nat n) 0 body last.

(** ** Life cycle *)

(** The result of [scx_alloc_init] is an argument. *)
Definition scx_bitmap_init (init_ret total_mask_size : Z) : BM Z :=
  modifies (λ s, BmState (bm_masks s) (bm_slab s) (div_round_up total_mask_size 8) (nr_cpu_ids s));;
  mret init_ret.

(** A fresh object of the allocator holds [mask_size] words of any content. *)
Definition mask_alloc (junk : list Z) : BM Z := λ s,
  let '(p, a) := scx_alloc (bm_slab s) in
  Some (p, BmState (if p =? NULL then bm_masks s else <[p := junk]> (bm_masks s)) a (mask_size s) (nr_cpu_ids s)).

Definition scx_bitmap_alloc_internal (junk : list Z) : BM Z :=
  mask ← mask_alloc junk;
  if mask =? NULL then mret NULL else
  for_mask (λ i, wrw mask i 0);;
  mret mask.

Definition scx_bitmap_free (mask : Z) : BM Z := λ s,
  Some (0, BmState (delete mask (bm_masks s)) (scx_free mask (bm_slab s)) (mask_size s) (nr_cpu_ids s)).

(** The words of the stack copy afterwards; [None] for a null [dst]. *)
Fixpoint copy_to_stack_loop (n : nat) (i : Z) (dst : list Z) (src : Z) : BM (list Z) :=
  match n with
  | O => mret dst
  | S n =>
      if (SCXMASK_NLONG <=? i) || (i <? 0) then mret dst else
      w ← rdw src i;
      copy_to_stack_loop n (i + 1) (<[Z.to_nat i := w]> dst) src
  end.
Definition scx_bitmap_copy_to_stack (dst : option (list Z)) (src : Z) : BM (Z * option (list Z)) :=
  match dst with
  | Some d =>
      if src =? NULL then mret (- EINVAL, dst) else
      n ← gets mask_size;
      d ← copy_to_stack_loop (Z.to_nat n) 0 d src;
      mret (0, Some d)
  | None => mret (- EINVAL, None)
  end.

(** ** Single CPUs *)
Definition scx_bitmap_set_cpu (cpu mask : Z) : BM Z :=
  w ← rdw mask (cpu / 64);
  wrw mask (cpu / 64) (Z.lor w (bit64 (cpu mod 64)));;
  mret 0.
Definition scx_bitmap_clear_cpu (cpu mask : Z) : BM Z :=
  w ← rdw mask (cpu / 64);
  wrw mask (cpu / 64) (Z.land w (u64_not (bit64 (cpu mod 64))));;
  mret 0.
Definition scx_bitmap_test_cpu (cpu mask : Z) : BM bool :=
  w ← rdw mask (cpu / 64);
  mret (negb (Z.land w (bit64 (cpu mod 64)) =? 0)).

Fixpoint test_and_clear_loop (cl : nat) (env : nat → bm_state A → bm_state A) (idx bit mask : Z) : BM bool :=
  old ← rdw mask idx;
  if Z.land old bit =? 0 then mret false else
  modifies (env cl);;
  actual ← cmpxchg_word mask idx old (Z.land old (u64_not bit));
  if actual =? old then mret true else
  match cl with O => mret false | S cl => test_and_clear_loop cl env idx bit mask end.
Definition scx_bitmap_test_and_clear_cpu (cl : nat) (env : nat → bm_state A → bm_state A) (cpu mask : Z) : BM bool :=
  test_and_clear_loop cl env (cpu / 64) (bit64 (cpu mod 64)) mask.

(** ** Whole bitmaps *)
Definition scx_bitmap_clear (mask : Z) : BM Z := for_mask (λ i, wrw mask i 0);; mret 0.
Definition scx_bitmap_and (dst src1 src2 : Z) : BM Z :=
  for_mask (λ i, a ← rdw src1 i; b ← rdw src2 i; wrw dst i (Z.land a b));; mret 0.
Definition scx_bitmap_or (dst src1 src2 : Z) : BM Z :=
  for_mask (λ i, a ← rdw src1 i; b ← rdw src2 i; wrw dst i (Z.lor a b));; mret 0.
Definition scx_bitmap_empty (mask : Z) : BM bool :=
  for_mask_ret (λ i, w ← rdw mask i; mret (if negb (w =? 0) then Some false else None)) true.
Definition scx_bitmap_copy (dst src : Z) : BM Z :=
  for_mask (λ i, w ← rdw src i; wrw dst i w);; mret 0.
Definition scx_bitmap_subset (big small : Z) : BM bool :=
  for_mask_ret (λ i, b ← rdw big i; a ← rdw small i;
    mret (if negb (Z.land (u64_not b) a =? 0) then Some false else None)) true.
Definition scx_bitmap_intersects (arg1 arg2 : Z) : BM bool :=
  for_mask_ret (λ i, a ← rdw arg1 i; b ← rdw arg2 i;
    mret (if negb (Z.land a b =? 0) then Some true else None)) false.

(** [bpfmask] is the list of the words of the kernel's [cpumask_t]. *)
Fixpoint from_bpf_loop (cl : nat) (i : Z) (scx_bitmap : Z) (bpfmask : list Z) : BM unit :=
  match bpfmask with
  | [] => mret tt
  | w :: bpfmask =>
      match cl with
      | O => mret tt
      | S cl =>
          n ← gets mask_size;
          if n <=? i then mret tt else
          wrw scx_bitmap i w;;
          from_bpf_loop cl (i + 1) scx_bitmap bpfmask
      end
  end.
Definition scx_bitmap_from_bpf (cl : nat) (scx_bitmap : Z) (bpfmask : list Z) : BM Z :=
  from_bpf_loop cl 0 scx_bitmap bpfmask;; mret 0.

(** ** Handing out CPUs *)

(** The loop of [scx_bitmap_pick_any_cpu_once]: the result and [*start]. *)
Fixpoint pick_loop (n : nat) (i : Z) (env : bm_state A → bm_state A) (mask start : Z) : BM (Z * Z) :=
  match n with
  | O => mret (- ENOSPC, start)
  | S n =>
      ms ← gets mask_size;
      if ms <=? i then mret (- ENOSPC, start) else
      let ind := u64 (start + i) mod ms in
      old ← rdw mask ind;
      if old =? 0 then pick_loop n (i + 1) env mask start else
      let cpu := scx_ffs old in
      let new := Z.land old (u64_not (bit64 cpu)) in
      modifies env;;
      cur ← cmpxchg_word mask ind old new;
      if negb (cur =? old) then mret (- EAGAIN, start) else
      mret (s32 (ind * 64 + cpu), ind)
  end.
Definition scx_bitmap_pick_any_cpu_once (env : bm_state A → bm_state A) (mask start : Z) : BM (Z * Z) :=
  ms ← gets mask_size;
  if ms <? SCXMASK_NLONG then mret (- EINVAL, start) else
  pick_loop (Z.to_nat SCXMASK_NLONG) 0 env mask start.

Fixpoint scx_bitmap_pick_any_cpu_from (cl : nat) (env : nat → bm_state A → bm_state A) (mask start : Z) : BM (Z * Z) :=
  '(cpu, start) ← scx_bitmap_pick_any_cpu_once (env cl) mask start;
  if negb (cpu =? - EAGAIN) then mret (cpu, start) else
  match cl with O => mret (cpu, start) | S cl => scx_bitmap_pick_any_cpu_from cl env mask start end.
Definition scx_bitmap_pick_any_cpu (cl : nat) (env : nat → bm_state A → bm_state A) (mask : Z) : BM Z :=
  '(cpu, _) ← scx_bitmap_pick_any_cpu_from cl env mask 0; mret cpu.

Fixpoint vacate_loop (cl : nat) (env : nat → bm_state A → bm_state A) (mask off ind : Z) : BM Z :=
  match cl with
  | O => mret (- EAGAIN)
  | S cl =>
      old ← rdw mask off;
      modifies (env cl);;
      cur ← cmpxchg_word mask off old (Z.lor old (bit64 ind));
      if cur =? old then mret 0 else vacate_loop cl env mask off ind
  end.
Definition scx_bitmap_vacate_cpu (cl : nat) (env : nat → bm_state A → bm_state A) (mask cpu : Z) : BM Z :=
  let off := u32 cpu / 64 in
  let ind := u32 cpu mod 64 in
  n ← gets nr_cpu_ids;
  ms ← gets mask_size;
  if (cpu <? 0) || (n <=? cpu) then mret (- EINVAL) else
  if (off <? 0) || (ms <=? off) || (SCXMASK_NLONG <=? off) then mret (- EINVAL) else
  vacate_loop cl env mask off ind.
End model.
