(* ===== verification/BitmapCorrect.v ===== *)
(** * CPU bitmaps: theorems

    A bitmap of [n] words is a set of CPUs below [64 * n].  The operations on
    whole bitmaps are the set operations, also when a destination is one of
    the sources; the [cmpxchg] loops hand out and take back single CPUs
    atomically under interference. *)

From S2P Require Import Prelude Slab Bitmap.

(** ** Bits of words *)
Lemma testbit_bit64 k j : 0 <= k → 0 <= j → Z.testbit (bit64 k) j = (j =? k).
Proof. intros. unfold bit64. rewrite Z.shiftl_1_l, Z.pow2_bits_eqb by lia. apply Z.eqb_sym. Qed.

Lemma testbit_not x j : 0 <= j < 64 → Z.testbit (u64_not x) j = negb (Z.testbit x j).
Proof.
  intros. unfold u64_not, u64. change two64 with (2 ^ 64). rewrite Z.mod_pow2_bits_low, Z.lnot_spec by lia. done.
Qed.

Lemma testbit_high w j : is_u64 w → 64 <= j → Z.testbit w j = false.
Proof.
  intros [H0 H1] Hj. destruct (Z.eq_dec w 0) as [->|]; [apply Z.testbit_0_l|]. apply Z.bits_above_log2; [done|].
  apply Z.log2_lt_pow2; [lia|]. eapply Z.lt_le_trans; [exact H1|]. change two64 with (2 ^ 64). apply Z.pow_le_mono_r; lia.
Qed.

Lemma u64_of_bits w : 0 <= w → (∀ j, 64 <= j → Z.testbit w j = false) → is_u64 w.
Proof.
  intros H0 Hb. assert (w = w mod two64) as ->; [|apply u64_range]. change two64 with (2 ^ 64). apply Z.bits_inj'. intros j Hj.
  destruct (Z.ltb_spec j 64); [by rewrite Z.mod_pow2_bits_low by lia|]. by rewrite Z.mod_pow2_bits_high, Hb by lia.
Qed.

Lemma u64_land a b : is_u64 a → is_u64 b → is_u64 (Z.land a b).
Proof.
  intros Ha Hb. apply u64_of_bits; [apply Z.land_nonneg; left; apply Ha|]. intros j Hj. by rewrite Z.land_spec, testbit_high.
Qed.

Lemma u64_lor a b : is_u64 a → is_u64 b → is_u64 (Z.lor a b).
Proof.
  intros Ha Hb. apply u64_of_bits; [apply Z.lor_nonneg; split; [apply Ha|apply Hb]|].
  intros j Hj. by rewrite Z.lor_spec, !testbit_high.
Qed.

Lemma u64_bit64 k : 0 <= k < 64 → is_u64 (bit64 k).
Proof.
  intros Hk. apply u64_of_bits; [unfold bit64; rewrite Z.shiftl_1_l; apply Z.pow_nonneg; lia|].
  intros j Hj. rewrite testbit_bit64 by lia. apply Z.eqb_neq. lia.
Qed.

Lemma word_zero w : is_u64 w → (w =? 0) = negb (existsb (Z.testbit w) (seqZ 0 64)).
Proof.
  intros Hw. destruct (Z.eqb_spec w 0) as [->|Hne].
  - symmetry. apply negb_true_iff, not_true_iff_false. rewrite existsb_exists. intros (j & _ & Hj). by rewrite Z.testbit_0_l in Hj.
  - symmetry. apply negb_false_iff, existsb_exists. exists (Z.log2 w). destruct Hw as [H0 H1]. split.
    + apply list_elem_of_In, elem_of_seqZ. split; [apply Z.log2_nonneg|]. change (0 + 64) with 64.
      apply Z.log2_lt_pow2; [lia|]. change (2 ^ 64) with two64. lia.
    + apply Z.bit_log2. lia.
Qed.

Lemma word_nonzero w : is_u64 w → (w ≠ 0 ↔ ∃ j, 0 <= j < 64 ∧ Z.testbit w j = true).
Proof.
  intros Hw. pose proof (word_zero w Hw) as E. destruct (Z.eqb_spec w 0) as [->|Hne].
  - split; [done|]. intros (j & _ & Hj). by rewrite Z.testbit_0_l in Hj.
  - symmetry in E. apply negb_false_iff, existsb_exists in E as (j & Hj%list_elem_of_In%elem_of_seqZ & E).
    split; [|done]. intros _. exists j. split; [lia|done].
Qed.

Lemma land_bit w k : 0 <= k → negb (Z.land w (bit64 k) =? 0) = Z.testbit w k.
Proof.
  intros Hk. destruct (Z.testbit w k) eqn:E.
  - apply negb_true_iff, Z.eqb_neq. intros E0. assert (Z.testbit (Z.land w (bit64 k)) k = false) by (by rewrite E0, Z.testbit_0_l).
    rewrite Z.land_spec, E, testbit_bit64, Z.eqb_refl in H by lia. done.
  - apply negb_false_iff, Z.eqb_eq. apply Z.bits_inj'. intros j Hj. rewrite Z.land_spec, testbit_bit64, Z.testbit_0_l by lia.
    destruct (Z.eqb_spec j k) as [->|]; [by rewrite E|apply andb_false_r].
Qed.

(** ** The lowest set bit *)
Definition ffs_inv (w width : Z) (nw : Z * Z) : Prop :=
  0 <= nw.1 ∧ nw.2 = Z.shiftr w nw.1 ∧ (∀ j, 0 <= j < nw.1 → Z.testbit w j = false) ∧
  Z.land nw.2 (Z.ones width) ≠ 0.

Lemma ffs_step_inv w k nw : 0 < k → ffs_inv w (2 * k) nw → ffs_inv w k (ffs_step k (Z.ones k) nw).
Proof.
  intros Hk. destruct nw as [num word]. intros (H0 & E & Hlow & Hne). simpl in *. unfold ffs_step.
  destruct (Z.eqb_spec (Z.land word (Z.ones k)) 0) as [Ez|Enz]; [|done]. unfold ffs_inv. simpl.
  assert (∀ j, 0 <= j < k → Z.testbit word j = false) as Hz.
  { intros j Hj. assert (Z.testbit (Z.land word (Z.ones k)) j = false) as Hb by (by rewrite Ez, Z.testbit_0_l).
    by rewrite Z.land_spec, Z.ones_spec_low, andb_true_r in Hb by lia. }
  split_and!; [lia| | |].
  - rewrite E, Z.shiftr_shiftr by lia. done.
  - intros j Hj. destruct (Z.ltb_spec j num); [apply Hlow; lia|]. specialize (Hz (j - num) ltac:(lia)).
    rewrite E, Z.shiftr_spec in Hz by lia. by replace (j - num + num) with j in Hz by lia.
  - intros E0. apply Hne. apply Z.bits_inj'. intros j Hj. rewrite Z.land_spec, Z.testbit_0_l.
    destruct (Z.ltb_spec j k); [by rewrite Hz by lia|]. destruct (Z.ltb_spec j (2 * k)).
    + assert (Z.testbit (Z.land (Z.shiftr word k) (Z.ones k)) (j - k) = false) as Hb by (by rewrite E0, Z.testbit_0_l).
      rewrite Z.land_spec, Z.ones_spec_low, andb_true_r, Z.shiftr_spec in Hb by lia. replace (j - k + k) with j in Hb by lia. by rewrite Hb.
    + rewrite Z.ones_spec_high by lia. apply andb_false_r.
Qed.

Lemma scx_ffs_spec w : is_u64 w → w ≠ 0 → 0 <= scx_ffs w < 64 ∧ Z.testbit w (scx_ffs w) = true ∧
  ∀ j, 0 <= j < scx_ffs w → Z.testbit w j = false.
Proof.
  intros Hw Hne. assert (ffs_inv w 64 (0, w)) as Hi.
  { unfold ffs_inv. simpl. split_and!; [lia|by rewrite Z.shiftr_0_r|lia|]. rewrite Z.land_ones by lia. by rewrite (u64_small w Hw : w mod 2 ^ 64 = w). }
  apply (ffs_step_inv _ 32 _ ltac:(lia)), (ffs_step_inv _ 16 _ ltac:(lia)), (ffs_step_inv _ 8 _ ltac:(lia)),
    (ffs_step_inv _ 4 _ ltac:(lia)), (ffs_step_inv _ 2 _ ltac:(lia)), (ffs_step_inv _ 1 _ ltac:(lia)) in Hi.
  change (ffs_step 1 (Z.ones 1) _) with (ffs_step 1 1 (ffs_step 2 3 (ffs_step 4 15 (ffs_step 8 255
    (ffs_step 16 65535 (ffs_step 32 4294967295 (0, w))))))) in Hi.
  unfold scx_ffs. set (nw := ffs_step 1 1 _) in *. destruct Hi as (H0 & E & Hlow & Hb).
  assert (Z.testbit w nw.1 = true) as Ht.
  { destruct (Z.testbit w nw.1) eqn:Et; [done|]. exfalso. apply Hb. change (Z.ones 1) with (bit64 0).
    apply Z.eqb_eq, negb_false_iff. rewrite land_bit by lia. by rewrite E, Z.shiftr_spec, Z.add_0_l by lia. }
  split_and!; [done| |done|done]. destruct (Z.ltb_spec nw.1 64); [done|]. by rewrite testbit_high in Ht.
Qed.

(** ** Bitmaps as sets of CPUs *)
Definition cpu_in (l : list Z) (c : Z) : bool :=
  match l !! Z.to_nat (c / 64) with Some w => Z.testbit w (c mod 64) | None => false end.

Lemma cpu_pos c : c = c / 64 * 64 + c mod 64 ∧ 0 <= c mod 64 < 64.
Proof. pose proof (Z.div_mod c 64 ltac:(lia)). pose proof (Z.mod_pos_bound c 64 ltac:(lia)). lia. Qed.

Lemma cpu_in_at l (i : nat) j w : l !! i = Some w → 0 <= j < 64 → cpu_in l (Z.of_nat i * 64 + j) = Z.testbit w j.
Proof.
  intros Hw Hj. unfold cpu_in. rewrite Z.div_add_l, Z.div_small, Z.add_0_r, Nat2Z.id, Hw by lia.
  f_equal. rewrite Z.add_comm, Z.mod_add, Z.mod_small by lia. done.
Qed.

(** Words related bit by bit give sets related CPU by CPU. *)
Lemma cpu_in_zip (f : Z → Z → Z) (g : bool → bool → bool) la lb c :
  (∀ a b j, 0 <= j < 64 → Z.testbit (f a b) j = g (Z.testbit a j) (Z.testbit b j)) → g false false = false →
  length la = length lb → cpu_in (zip_with f la lb) c = g (cpu_in la c) (cpu_in lb c).
Proof.
  intros Hf Hg Hl. unfold cpu_in. rewrite lookup_zip_with. pose proof (cpu_pos c) as [_ Hc].
  destruct (la !! Z.to_nat (c / 64)) as [a|] eqn:Ea.
  - destruct (lookup_lt_is_Some_2 lb (Z.to_nat (c / 64))) as [b Eb]; [rewrite <-Hl; by eapply lookup_lt_Some|].
    rewrite Eb. simpl. by apply Hf.
  - rewrite lookup_ge_None, Hl, <-lookup_ge_None in Ea. by rewrite Ea.
Qed.

Section bitmaps.
Context {A : Type} `{SlabAllocator A}.
Implicit Types (s : bm_state A).

(** The bitmap at [m] has the words [l]. *)
Record mask s (m : Z) (l : list Z) : Prop := Mask {
  mk_at : bm_masks s !! m = Some l;
  mk_len : length l = Z.to_nat (mask_size s);
  mk_u64 : Forall is_u64 l;
}.

Definition put s (m : Z) (l : list Z) : bm_state A := with_masks (<[m := l]> (bm_masks s)) s.

Lemma mask_put s m l : length l = Z.to_nat (mask_size s) → Forall is_u64 l → mask (put s m l) m l.
Proof. intros. split; simpl; [by rewrite lookup_insert_eq|done|done]. Qed.

Lemma put_put s m l l' : put (put s m l) m l' = put s m l'.
Proof. unfold put, with_masks. simpl. by rewrite insert_insert_eq. Qed.

Lemma put_same s m l : bm_masks s !! m = Some l → put s m l = s.
Proof. intros. unfold put, with_masks. rewrite insert_id by done. by destruct s. Qed.

Lemma rdw_run s m l i w : bm_masks s !! m = Some l → l !! Z.to_nat i = Some w → rdw m i s = Some (w, s).
Proof. intros Hm Hi. unfold rdw. by rewrite Hm, Hi. Qed.

Lemma wrw_run s m l i w : bm_masks s !! m = Some l → (Z.to_nat i < length l)%nat →
  wrw m i w s = Some (tt, put s m (<[Z.to_nat i := w]> l)).
Proof. intros Hm [x Hi]%lookup_lt_is_Some_2. unfold wrw. by rewrite Hm, Hi. Qed.

(** A loop that writes word [i] of [d] from the words [i] of bitmaps, any of
    which may be [d]. *)
Definition progress s (d : Z) (out ld : list Z) (i : nat) : bm_state A := put s d (take i out ++ drop i ld).

Lemma progress_read s d ld out i m l :
  bm_masks s !! d = Some ld → bm_masks s !! m = Some l → length out = length ld → (i < length ld)%nat → length l = length ld →
  ∃ w, l !! i = Some w ∧ rdw m (Z.of_nat i) (progress s d out ld i) = Some (w, progress s d out ld i).
Proof.
  intros Hd Hm Hout Hi Hl. destruct (lookup_lt_is_Some_2 l i) as [w Hw]; [lia|]. exists w. split; [done|].
  assert (length (take i out) = i) as Hti by (rewrite length_take; lia).
  unfold rdw, progress. simpl. destruct (decide (m = d)) as [->|Hne].
  - rewrite lookup_insert_eq, Nat2Z.id. rewrite lookup_app_r by lia. rewrite Hti, Nat.sub_diag, lookup_drop, Nat.add_0_r.
    assert (ld = l) as -> by congruence. by rewrite Hw.
  - by rewrite lookup_insert_ne, Hm, Nat2Z.id, Hw.
Qed.

Lemma for_write s d ld out (body : Z → ST (bm_state A) unit) :
  bm_masks s !! d = Some ld → length out = length ld → length ld = Z.to_nat (mask_size s) →
  (∀ i w, (i < length ld)%nat → out !! i = Some w →
    body (Z.of_nat i) (progress s d out ld i) = wrw d (Z.of_nat i) w (progress s d out ld i)) →
  for_mask body s = Some (tt, put s d out).
Proof.
  intros Hd Hout Hlen Hbody. unfold for_mask, gets, mbind, ST_bind. rewrite <-Hlen.
  assert (∀ n i, (i + n = length ld)%nat → bpf_for n (Z.of_nat i) body (progress s d out ld i) = Some (tt, put s d out)) as Hloop.
  { induction n as [|n IH]; intros i Hi; simpl.
    - unfold progress. rewrite take_ge, drop_ge, app_nil_r by lia. done.
    - destruct (lookup_lt_is_Some_2 out i) as [w Hw]; [lia|].
      assert (body (Z.of_nat i) (progress s d out ld i) = Some (tt, progress s d out ld (S i))) as Hstep.
      { rewrite (Hbody i w ltac:(lia) Hw). unfold progress.
        rewrite (wrw_run _ d (take i out ++ drop i ld)); [|simpl; by rewrite lookup_insert_eq|rewrite length_app, length_take, length_drop; lia].
        rewrite put_put. do 3 f_equal. rewrite Nat2Z.id. rewrite insert_app_r_alt by (rewrite length_take; lia).
        rewrite length_take, Nat.min_l, Nat.sub_diag by lia. destruct (lookup_lt_is_Some_2 ld i) as [v Hv]; [lia|].
        rewrite (drop_S ld v i Hv). simpl. rewrite (take_S_r _ _ _ Hw), <-app_assoc. done. }
      rewrite (ST_bind_run _ _ _ _ _ Hstep). replace (Z.of_nat i + 1) with (Z.of_nat (S i)) by lia. apply IH. lia. }
  specialize (Hloop (length ld) 0%nat ltac:(lia)). unfold progress in Hloop. rewrite drop_0, take_0 in Hloop. simpl in Hloop.
  by rewrite put_same in Hloop.
Qed.

Lemma for_zip f s d a b ld la lb :
  mask s d ld → mask s a la → mask s b lb →
  for_mask (λ i, x ← rdw a i; y ← rdw b i; wrw d i (f x y)) s = Some (tt, put s d (zip_with f la lb)).
Proof.
  intros [Hd Hld _] [Ha Hla _] [Hb Hlb _]. eapply for_write; [done|rewrite length_zip_with; lia|done|].
  intros i w Hi Hw. assert (length (zip_with f la lb) = length ld) as Hz by (rewrite length_zip_with; lia).
  destruct (progress_read s d ld (zip_with f la lb) i a la) as (x & Hx & Hrx); [done..|lia|].
  destruct (progress_read s d ld (zip_with f la lb) i b lb) as (y & Hy & Hry); [done..|lia|].
  rewrite (ST_bind_run _ _ _ _ _ Hrx), (ST_bind_run _ _ _ _ _ Hry).
  rewrite lookup_zip_with, Hx in Hw. simpl in Hw. rewrite Hy in Hw. simpl in Hw. injection Hw as <-. done.
Qed.

(** Loops that look for a word. *)
Lemma for_search {X} s (p : nat → bool) (x last : X) (body : Z → ST (bm_state A) (option X)) :
  (∀ i, (i < Z.to_nat (mask_size s))%nat → body (Z.of_nat i) s = Some (if p i then Some x else None, s)) →
  for_mask_ret body last s = Some (if existsb p (seq 0 (Z.to_nat (mask_size s))) then x else last, s).
Proof.
  intros Hb. unfold for_mask_ret, gets, mbind, ST_bind.
  assert (∀ n i, (i + n ≤ Z.to_nat (mask_size s))%nat →
    bpf_for_ret n (Z.of_nat i) body last s = Some (if existsb p (seq i n) then x else last, s)) as Hl.
  { induction n as [|n IH]; intros i Hi; simpl; [done|]. rewrite (ST_bind_run _ _ _ _ _ (Hb i ltac:(lia))).
    destruct (p i); simpl; [done|]. replace (Z.of_nat i + 1) with (Z.of_nat (S i)) by lia. apply IH. lia. }
  apply (Hl _ 0%nat). lia.
Qed.
(** Some word of a derived bitmap is not zero exactly if it has a CPU. *)
Lemma words_nonzero (l : list Z) (n : nat) :
  Forall is_u64 l → length l = n →
  existsb (λ i, negb (nth i l 0 =? 0)) (seq 0 n) = true ↔ ∃ c, 0 <= c < 64 * Z.of_nat n ∧ cpu_in l c = true.
Proof.
  intros Hu Hn. rewrite existsb_exists. split.
  - intros (i & [_ Hi]%in_seq & Hw). destruct (lookup_lt_is_Some_2 l i) as [w El]; [lia|].
    rewrite (nth_lookup_Some _ _ _ _ El) in Hw. apply negb_true_iff, Z.eqb_neq in Hw.
    rewrite Forall_forall in Hu. apply word_nonzero in Hw as (j & Hj & Et); [|apply Hu; by eapply list_elem_of_lookup_2].
    exists (Z.of_nat i * 64 + j). split; [lia|]. by rewrite (cpu_in_at _ _ _ _ El Hj).
  - intros (c & Hc & Hin). unfold cpu_in in Hin. destruct (l !! Z.to_nat (c / 64)) as [w|] eqn:El; [|done].
    pose proof (cpu_pos c) as [Ec Hm]. exists (Z.to_nat (c / 64)). split.
    + apply in_seq. apply lookup_lt_Some in El. lia.
    + rewrite (nth_lookup_Some _ _ _ _ El). apply negb_true_iff, Z.eqb_neq. rewrite Forall_forall in Hu.
      apply word_nonzero; [apply Hu; by eapply list_elem_of_lookup_2|]. by exists (c mod 64).
Qed.

Lemma zip_u64 f la lb : (∀ a b, is_u64 a → is_u64 b → is_u64 (f a b)) → Forall is_u64 la → Forall is_u64 lb → Forall is_u64 (zip_with f la lb).
Proof.
  intros Hf Ha. revert lb. induction Ha as [|a la Ha Hla IH]; intros lb Hb; simpl; [constructor|].
  destruct Hb as [|b lb Hb Hlb]; constructor; auto.
Qed.

(** The two-bitmap searches: some word [f a b] is not zero. *)
Lemma search_zip {X} (f : Z → Z → Z) s a b la lb (x last : X) :
  mask s a la → mask s b lb → (∀ a b, is_u64 a → is_u64 b → is_u64 (f a b)) →
  ∃ found, for_mask_ret (λ i, u ← rdw a i; v ← rdw b i; mret (if negb (f u v =? 0) then Some x else None)) last s =
      Some (if (found : bool) then x else last, s) ∧
    (found = true ↔ ∃ c, 0 <= c < 64 * mask_size s ∧ cpu_in (zip_with f la lb) c = true).
Proof.
  intros [Ha Hla Hua] [Hb Hlb Hub] Hf. eexists. split.
  - apply (for_search s (λ i, negb (nth i (zip_with f la lb) 0 =? 0))). intros i Hi.
    destruct (lookup_lt_is_Some_2 la i) as [u Eu]; [lia|]. destruct (lookup_lt_is_Some_2 lb i) as [v Ev]; [lia|].
    rewrite (ST_bind_run _ _ _ _ _ (rdw_run s a la _ u Ha ltac:(by rewrite Nat2Z.id))).
    rewrite (ST_bind_run _ _ _ _ _ (rdw_run s b lb _ v Hb ltac:(by rewrite Nat2Z.id))).
    assert (zip_with f la lb !! i = Some (f u v)) as Ez by (by rewrite lookup_zip_with, Eu; simpl; rewrite Ev).
    by rewrite (nth_lookup_Some _ _ _ _ Ez).
  - destruct (Z.le_gt_cases 0 (mask_size s)) as [Hp|Hp].
    + rewrite words_nonzero; [by rewrite Z2Nat.id|by apply zip_u64|rewrite length_zip_with; lia].
    + replace (Z.to_nat (mask_size s)) with 0%nat by lia. simpl. split; [done|]. intros (c & ? & _). lia.
Qed.

(** ** Single CPUs *)

(** The bitmap with the bit of one CPU changed. *)
Definition upd_cpu (c : Z) (b : bool) (l : list Z) : list Z :=
  alter (λ w, if b then Z.lor w (bit64 (c mod 64)) else Z.land w (u64_not (bit64 (c mod 64)))) (Z.to_nat (c / 64)) l.

Lemma upd_cpu_len c b l : length (upd_cpu c b l) = length l.
Proof. apply length_alter. Qed.

Lemma upd_cpu_u64 c b l : Forall is_u64 l → Forall is_u64 (upd_cpu c b l).
Proof.
  intros Hl. apply Forall_alter; [done|]. intros w _ Hw. pose proof (cpu_pos c) as [_ Hm].
  destruct b; [apply u64_lor; [done|by apply u64_bit64]|apply u64_land; [done|apply u64_range]].
Qed.

Lemma upd_cpu_in c b l c' :
  0 <= c → 0 <= c' → (Z.to_nat (c / 64) < length l)%nat → cpu_in (upd_cpu c b l) c' = if c' =? c then b else cpu_in l c'.
Proof.
  intros Hc Hc' [w Hw]%lookup_lt_is_Some_2. pose proof (cpu_pos c) as [Ec Hm]. pose proof (cpu_pos c') as [Ec' Hm'].
  pose proof (Z.div_pos c 64 Hc ltac:(lia)). pose proof (Z.div_pos c' 64 Hc' ltac:(lia)).
  unfold cpu_in, upd_cpu. destruct (decide (c / 64 = c' / 64)) as [E|E].
  - rewrite <-E, list_lookup_alter_eq, Hw. cbn [fmap option_fmap option_map].
    assert ((c' =? c) = (c' mod 64 =? c mod 64)) as -> by (destruct (Z.eqb_spec c' c), (Z.eqb_spec (c' mod 64) (c mod 64)); congruence || lia).
    destruct b; rewrite ?Z.lor_spec, ?Z.land_spec, ?testbit_not by lia; rewrite testbit_bit64 by lia;
      destruct (_ =? _); by rewrite ?orb_true_r, ?orb_false_r, ?andb_true_r, ?andb_false_r.
  - rewrite list_lookup_alter_ne by lia. rewrite (proj2 (Z.eqb_neq c' c)) by congruence. done.
Qed.

Lemma upd_cpu_insert c b l w :
  l !! Z.to_nat (c / 64) = Some w →
  upd_cpu c b l = <[Z.to_nat (c / 64) := if b then Z.lor w (bit64 (c mod 64)) else Z.land w (u64_not (bit64 (c mod 64)))]> l.
Proof.
  intros Hw. unfold upd_cpu. apply list_eq. intros i. destruct (decide (i = Z.to_nat (c / 64))) as [->|Hne].
  - rewrite list_lookup_alter_eq, Hw, list_lookup_insert_eq by (by eapply lookup_lt_Some). done.
  - by rewrite list_lookup_alter_ne, list_lookup_insert_ne by congruence.
Qed.

Lemma mask_upd s m l c b : mask s m l → mask (put s m (upd_cpu c b l)) m (upd_cpu c b l).
Proof. intros [? ? ?]. apply mask_put; [by rewrite upd_cpu_len|by apply upd_cpu_u64]. Qed.

(** A successful [cmpxchg] of a word. *)
Lemma cmpxchg_run s m l i w old new :
  bm_masks s !! m = Some l → l !! Z.to_nat i = Some w →
  cmpxchg_word m i old new s = Some (w, if w =? old then put s m (<[Z.to_nat i := new]> l) else s).
Proof.
  intros Hm Hi. unfold cmpxchg_word. rewrite (ST_bind_run _ _ _ _ _ (rdw_run _ _ _ _ _ Hm Hi)).
  destruct (w =? old); [|done]. by rewrite (ST_bind_run _ _ _ _ _ (wrw_run _ _ _ _ _ Hm (lookup_lt_Some _ _ _ Hi))).
Qed.

(** What other CPUs may do: anything that keeps the bitmap a bitmap of the
    same size. *)
Definition benv_ok (m : Z) (env : bm_state A → bm_state A) : Prop :=
  ∀ s l, mask s m l → mask_size (env s) = mask_size s ∧ nr_cpu_ids (env s) = nr_cpu_ids s ∧ ∃ l', mask (env s) m l'.

(** [s1] comes from [s] by actions of the other CPUs. *)
Definition interferes (env : nat → bm_state A → bm_state A) : bm_state A → bm_state A → Prop :=
  rtc (λ s1 s2, ∃ i, s2 = env i s1).

(** ** Handing out a CPU *)
Definition picked (m : Z) (env : bm_state A → bm_state A) s (r : Z * Z) s' : Prop :=
  r.1 = - ENOSPC ∧ s' = s ∨ r.1 = - EAGAIN ∧ s' = env s ∨
  ∃ l1, mask (env s) m l1 ∧ 0 <= r.1 < 64 * mask_size s ∧ cpu_in l1 r.1 = true ∧ s' = put (env s) m (upd_cpu r.1 false l1).

Lemma pick_loop_spec n i env m l s start :
  mask s m l → benv_ok m env → 0 < mask_size s < 2 ^ 24 →
  ∃ r s', pick_loop n i env m start s = Some (r, s') ∧ picked m env s r s' ∧
    (r.1 = - ENOSPC → ∀ k, i <= k → k < i + Z.of_nat n → k < mask_size s → l !! Z.to_nat (u64 (start + k) mod mask_size s) = Some 0) ∧
    (env s = s → r.1 ≠ - EAGAIN).
Proof.
  intros [Hm Hlen Hu] Henv Hms. revert i. induction n as [|n IH]; intros i; simpl.
  { eexists _, s. split_and!; [done|by left|intros; lia|done]. }
  unfold gets at 1, mbind at 1, ST_bind at 1. destruct (Z.leb_spec (mask_size s) i).
  { eexists _, s. split_and!; [done|by left|intros; lia|done]. }
  set (ind := u64 (start + i) mod mask_size s). pose proof (Z.mod_pos_bound (u64 (start + i)) (mask_size s) ltac:(lia)) as Hind. fold ind in Hind.
  destruct (lookup_lt_is_Some_2 l (Z.to_nat ind)) as [w Hw]; [lia|].
  rewrite (ST_bind_run _ _ _ _ _ (rdw_run _ _ _ _ _ Hm Hw)). destruct (Z.eqb_spec w 0) as [->|Hne].
  { destruct (IH (i + 1)) as (r & s' & Hrun & Hp & Hsp & Hq). exists r, s'. split_and!; [done|done| |done].
    intros Er k Hk Hk' Hkm. destruct (decide (k = i)) as [->|]; [done|]. apply Hsp; [done|lia..]. }
  destruct (Henv s l (Mask _ _ _ Hm Hlen Hu)) as (Ems & _ & l1 & Hm1). unfold modifies at 1, mbind at 1, ST_bind at 1.
  destruct (lookup_lt_is_Some_2 l1 (Z.to_nat ind)) as [w1 Hw1]; [rewrite (mk_len _ _ _ Hm1), Ems; lia|].
  rewrite (ST_bind_run _ _ _ _ _ (cmpxchg_run _ _ _ _ _ _ _ (mk_at _ _ _ Hm1) Hw1)).
  assert (is_u64 w) as Hwu by (rewrite Forall_forall in Hu; apply Hu; by eapply list_elem_of_lookup_2).
  destruct (scx_ffs_spec w Hwu Hne) as (Hf & Hb & _). destruct (Z.eqb_spec w1 w) as [->|Hw'].
  2:{ eexists _, (env s). split_and!; [done|right; by left|done|]. intros E. exfalso. rewrite E in Hm1. destruct Hm1. congruence. }
  assert (s32 (ind * 64 + scx_ffs w) = ind * 64 + scx_ffs w) as Es.
  { apply s32_small. unfold two31. lia. }
  simpl. rewrite Es. eexists _, _. split; [done|]. set (c := ind * 64 + scx_ffs w).
  assert (c / 64 = ind) as Ed by (unfold c; rewrite Z.div_add_l, Z.div_small by lia; lia).
  assert (c mod 64 = scx_ffs w) as Em by (unfold c; rewrite Z.add_comm, Z.mod_add, Z.mod_small by lia; done).
  split_and!; [|unfold ENOSPC; simpl; lia|unfold EAGAIN; simpl; lia]. right; right. exists l1. simpl. split_and!; [done|lia|lia| |].
  - unfold cpu_in. by rewrite Ed, Hw1, Em.
  - rewrite (upd_cpu_insert _ _ _ w); rewrite Ed; [by rewrite Em|done].
Qed.

Lemma interferes_cons env s s' i : interferes env (env i s) s' → interferes env s s'.
Proof. intros Hs. eapply rtc_l; [by exists i|done]. Qed.

(** A CPU leaves ([b = false]) or enters ([b = true]) the bitmap in one step
    after actions of the other CPUs. *)
Definition atomically (m : Z) (env : nat → bm_state A → bm_state A) s (c : Z) (b : bool) s' : Prop :=
  ∃ s1 l1, interferes env s s1 ∧ mask s1 m l1 ∧ 0 <= c ∧ (b = false → cpu_in l1 c = true) ∧ s' = put s1 m (upd_cpu c b l1).

Lemma once_spec env m l s start :
  mask s m l → benv_ok m env → SCXMASK_NLONG <= mask_size s < 2 ^ 24 →
  ∃ r s', scx_bitmap_pick_any_cpu_once env m start s = Some (r, s') ∧ picked m env s r s'.
Proof.
  intros Hm Henv Hms. unfold scx_bitmap_pick_any_cpu_once, gets, mbind, ST_bind. rewrite (proj2 (Z.ltb_ge _ _)) by lia.
  destruct (pick_loop_spec (Z.to_nat SCXMASK_NLONG) 0 env m l s start Hm Henv) as (r & s' & Hrun & Hp & _); [change SCXMASK_NLONG with 64 in Hms; lia|].
  eauto.
Qed.

Lemma pick_from_spec cl env m l s start :
  mask s m l → (∀ i, benv_ok m (env i)) → SCXMASK_NLONG <= mask_size s < 2 ^ 24 →
  ∃ r s', scx_bitmap_pick_any_cpu_from cl env m start s = Some (r, s') ∧
    ((r.1 = - ENOSPC ∨ r.1 = - EAGAIN) ∧ interferes env s s' ∨ atomically m env s r.1 false s').
Proof.
  intros Hm Henv Hms. revert s l start Hm Hms.
  induction cl as [|cl IH]; intros s l start Hm Hms; simpl;
    [destruct (once_spec (env 0%nat) m l s start Hm (Henv _) Hms) as ([c st] & s' & Hrun & Hp)
    |destruct (once_spec (env (S cl)) m l s start Hm (Henv _) Hms) as ([c st] & s' & Hrun & Hp)];
    rewrite (ST_bind_run _ _ _ _ _ Hrun); destruct Hp as [[Ec ->]|[[Ec ->]|(l1 & Hm1 & Hr & Hin & ->)]]; simpl in *.
  all: try (subst c; eexists _, _; split; [done|]; left; split; [by left|apply rtc_refl]).
  all: try (rewrite (proj2 (Z.eqb_neq c (- EAGAIN))) by (unfold EAGAIN; lia); simpl; eexists _, _; split; [done|]; right;
    eexists _, l1; split_and!; [eapply rtc_once; by eexists|done|simpl; lia|done|done]).
  - subst c. simpl. eexists _, _. split; [done|]. left. split; [by right|]. eapply rtc_once. by eexists.
  - subst c. simpl. destruct (Henv (S cl) s l Hm) as (Ems & _ & l' & Hm').
    destruct (IH (env (S cl) s) l' st Hm' ltac:(lia)) as (r & s' & Hr & Hd). exists r, s'. split; [done|].
    destruct Hd as [[? ?]|(s1 & l1 & ? & ? & ? & ? & ?)]; [left; split; [done|by eapply interferes_cons]|].
    right. exists s1, l1. split_and!; [by eapply interferes_cons|done..].
Qed.

Lemma vacate_loop_spec cl env m l s c :
  mask s m l → (∀ i, benv_ok m (env i)) → 0 <= c → c / 64 < mask_size s →
  ∃ r s', vacate_loop cl env m (c / 64) (c mod 64) s = Some (r, s') ∧
    (r = - EAGAIN ∧ interferes env s s' ∨ r = 0 ∧ atomically m env s c true s').
Proof.
  intros Hm Henv Hc Hlt. revert s l Hm Hlt. induction cl as [|cl IH]; intros s l Hm Hlt; simpl.
  { eexists _, s. split; [done|]. left. split; [done|apply rtc_refl]. }
  pose proof (Z.div_pos c 64 Hc ltac:(lia)). destruct (lookup_lt_is_Some_2 l (Z.to_nat (c / 64))) as [w Hw]; [rewrite (mk_len _ _ _ Hm); lia|].
  rewrite (ST_bind_run _ _ _ _ _ (rdw_run _ _ _ _ _ (mk_at _ _ _ Hm) Hw)). unfold modifies at 1, mbind at 1, ST_bind at 1.
  destruct (Henv cl s l Hm) as (Ems & _ & l1 & Hm1).
  destruct (lookup_lt_is_Some_2 l1 (Z.to_nat (c / 64))) as [w1 Hw1]; [rewrite (mk_len _ _ _ Hm1), Ems; lia|].
  rewrite (ST_bind_run _ _ _ _ _ (cmpxchg_run _ _ _ _ _ _ _ (mk_at _ _ _ Hm1) Hw1)). destruct (Z.eqb_spec w1 w) as [->|Hne].
  - eexists _, _. split; [done|]. right. split; [done|]. exists (env cl s), l1. split_and!; [eapply rtc_once; by eexists|done|done|done|].
    by rewrite (upd_cpu_insert _ _ _ w).
  - destruct (IH (env cl s) l1 Hm1 ltac:(lia)) as (r & s' & Hr & Hd). exists r, s'. split; [done|].
    destruct Hd as [[? ?]|[? (s1 & l2 & ? & ? & ? & ? & ?)]]; [left; split; [done|by eapply interferes_cons]|].
    right. split; [done|]. exists s1, l2. split_and!; [by eapply interferes_cons|done..].
Qed.

Lemma test_and_clear_spec cl env m l s c :
  mask s m l → (∀ i, benv_ok m (env i)) → 0 <= c → c / 64 < mask_size s →
  ∃ (r : bool) s', scx_bitmap_test_and_clear_cpu cl env c m s = Some (r, s') ∧
    if r then atomically m env s c false s' else interferes env s s' ∧ (cpu_in l c = false → s' = s).
Proof.
  intros Hm Henv Hc. unfold scx_bitmap_test_and_clear_cpu. revert s l Hm. induction cl as [|cl IH]; intros s l Hm Hlt; simpl;
    pose proof (Z.div_pos c 64 Hc ltac:(lia)); (destruct (lookup_lt_is_Some_2 l (Z.to_nat (c / 64))) as [w Hw]; [rewrite (mk_len _ _ _ Hm); lia|]);
    rewrite (ST_bind_run _ _ _ _ _ (rdw_run _ _ _ _ _ (mk_at _ _ _ Hm) Hw)); pose proof (cpu_pos c) as [_ Hmod];
    pose proof (land_bit w (c mod 64) ltac:(lia)) as Hbit; (assert (cpu_in l c = Z.testbit w (c mod 64)) as Ein by (unfold cpu_in; by rewrite Hw));
    rewrite Ein; (destruct (Z.land w (bit64 (c mod 64)) =? 0); simpl in Hbit; rewrite <-Hbit;
      [exists false, s; split; [done|]; split; [apply rtc_refl|done]|]); unfold modifies at 1, mbind at 1, ST_bind at 1.
  all: [> destruct (Henv 0%nat s l Hm) as (Ems & _ & l1 & Hm1) | destruct (Henv (S cl) s l Hm) as (Ems & _ & l1 & Hm1)];
    (destruct (lookup_lt_is_Some_2 l1 (Z.to_nat (c / 64))) as [w1 Hw1]; [rewrite (mk_len _ _ _ Hm1), Ems; lia|]);
    rewrite (ST_bind_run _ _ _ _ _ (cmpxchg_run _ _ _ _ _ _ _ (mk_at _ _ _ Hm1) Hw1)); (destruct (Z.eqb_spec w1 w) as [->|Hne];
      [eexists true, _; split; [done|]; eexists _, l1; split_and!; [eapply rtc_once; by eexists|done|done| |by rewrite (upd_cpu_insert _ _ _ w)];
       intros _; unfold cpu_in; by rewrite Hw1, Hbit|]).
  - eexists false, _. split; [done|]. split; [eapply rtc_once; by eexists|done].
  - destruct (IH (env (S cl) s) l1 Hm1 ltac:(lia)) as (r & s' & Hr & Hd). exists r, s'. split; [done|]. destruct r.
    + destruct Hd as (s1 & l2 & ? & ? & ? & ? & ?). exists s1, l2. split_and!; [by eapply interferes_cons|done..].
    + destruct Hd as [? _]. split; [by eapply interferes_cons|done].
Qed.

(** Undisturbed, on a bitmap of the nominal size. *)
Lemma rotation start j : 0 <= j < 64 → ∃ k, 0 <= k < 64 ∧ u64 (start + k) mod 64 = j.
Proof.
  intros Hj. exists ((j - start) mod 64). split; [apply Z.mod_pos_bound; lia|]. unfold u64.
  rewrite <-Znumtheory.Zmod_div_mod; [|lia|done|by exists (2 ^ 58)]. rewrite Z.add_mod_idemp_r by lia.
  replace (start + (j - start)) with j by lia. by apply Z.mod_small.
Qed.

Lemma pick_quiet cl m l s start :
  mask s m l → mask_size s = SCXMASK_NLONG →
  ∃ r s', scx_bitmap_pick_any_cpu_from cl (λ _ s, s) m start s = Some (r, s') ∧
    (cpu_in l r.1 = true ∧ 0 <= r.1 < 4096 ∧ s' = put s m (upd_cpu r.1 false l) ∨
     (∀ c, 0 <= c < 4096 → cpu_in l c = false) ∧ r.1 = - ENOSPC ∧ s' = s).
Proof.
  intros Hm Hms. change SCXMASK_NLONG with 64 in Hms. assert (benv_ok m (λ s : bm_state A, s)) as Henv by (intros ? l'; eauto).
  destruct (pick_loop_spec (Z.to_nat SCXMASK_NLONG) 0 (λ s, s) m l s start Hm Henv) as ([c st] & s' & Hrun & Hp & Hsp & Hq); [lia|].
  assert (scx_bitmap_pick_any_cpu_once (λ s, s) m start s = Some ((c, st), s')) as Honce.
  { unfold scx_bitmap_pick_any_cpu_once, gets, mbind, ST_bind. rewrite (proj2 (Z.ltb_ge _ _)) by (change SCXMASK_NLONG with 64; lia). done. }
  specialize (Hq eq_refl). exists (c, st), s'. split.
  { destruct cl; simpl; rewrite (ST_bind_run _ _ _ _ _ Honce), (proj2 (Z.eqb_neq _ _)); done. }
  destruct Hp as [[Ec ->]|[[Ec _]|(l1 & Hm1 & Hr & Hin & ->)]]; [|done|]; simpl in *.
  - right. split_and!; [|done..]. intros x Hx. pose proof (cpu_pos x) as [Ex Hmx].
    destruct (rotation start (x / 64)) as (k & Hk & Ek); [split; [apply Z.div_pos|apply Z.div_lt_upper_bound]; lia|].
    specialize (Hsp Ec k). change (Z.of_nat (Z.to_nat SCXMASK_NLONG)) with 64 in Hsp. rewrite Hms, Ek in Hsp.
    unfold cpu_in. rewrite Hsp, Z.testbit_0_l by lia. done.
  - assert (l1 = l) as -> by (destruct Hm, Hm1; congruence). left. split_and!; [done|lia|lia|done].
Qed.

(** ** Claims *)

(** C40: Intersection, union, copy and clearing of bitmaps are the set operations on CPUs, also when the destination is one of the sources: every word is read before it is overwritten. Only the destination changes. *)
Theorem bitmap_algebra s d a b ld la lb :
  mask s d ld → mask s a la → mask s b lb →
  (∃ l, scx_bitmap_and d a b s = Some (0, put s d l) ∧ mask (put s d l) d l ∧ ∀ c, cpu_in l c = cpu_in la c && cpu_in lb c) ∧
  (∃ l, scx_bitmap_or d a b s = Some (0, put s d l) ∧ mask (put s d l) d l ∧ ∀ c, cpu_in l c = cpu_in la c || cpu_in lb c) ∧
  scx_bitmap_copy d a s = Some (0, put s d la) ∧
  (∃ l, scx_bitmap_clear d s = Some (0, put s d l) ∧ ∀ c, cpu_in l c = false).
Proof.
  intros Hd Ha Hb. assert (length la = length lb) as Hab by (by rewrite (mk_len _ _ _ Ha), (mk_len _ _ _ Hb)).
  pose proof (mk_u64 _ _ _ Ha). pose proof (mk_u64 _ _ _ Hb). pose proof (mk_len _ _ _ Ha). split_and!.
  - eexists. split_and!; [unfold scx_bitmap_and; by rewrite (ST_bind_run _ _ _ _ _ (for_zip Z.land _ _ _ _ _ _ _ Hd Ha Hb))| |].
    + apply mask_put; [rewrite length_zip_with; lia|apply zip_u64; auto using u64_land].
    + intros c. apply (cpu_in_zip Z.land andb); [intros; apply Z.land_spec|done|done].
  - eexists. split_and!; [unfold scx_bitmap_or; by rewrite (ST_bind_run _ _ _ _ _ (for_zip Z.lor _ _ _ _ _ _ _ Hd Ha Hb))| |].
    + apply mask_put; [rewrite length_zip_with; lia|apply zip_u64; auto using u64_lor].
    + intros c. apply (cpu_in_zip Z.lor orb); [intros; apply Z.lor_spec|done|done].
  - unfold scx_bitmap_copy. erewrite ST_bind_run; [done|]. destruct Hd as [Hd Hld _], Ha as [Ha Hla _].
    eapply for_write; [done|lia|done|]. intros i w Hi Hw.
    destruct (progress_read s d ld la i a la) as (x & Hx & Hrx); [done..|lia|done|lia|].
    rewrite (ST_bind_run _ _ _ _ _ Hrx). congruence.
  - exists (replicate (length ld) 0). split.
    + unfold scx_bitmap_clear. erewrite ST_bind_run; [done|]. destruct Hd as [Hd Hld _].
      eapply for_write; [done|by rewrite length_replicate|done|]. intros i w Hi [-> _]%lookup_replicate. done.
    + intros c. unfold cpu_in. destruct (replicate _ _ !! _) as [w|] eqn:E; [|done]. apply lookup_replicate in E as [-> _]. apply Z.testbit_0_l.
Qed.

(** The emptiness, subset and intersection tests decide the set predicates over all CPUs of the bitmaps, and change nothing. *)
Theorem bitmap_predicates s a b la lb :
  mask s a la → mask s b lb →
  (∃ r, scx_bitmap_empty a s = Some (r, s) ∧ (r = true ↔ ∀ c, 0 <= c < 64 * mask_size s → cpu_in la c = false)) ∧
  (∃ r, scx_bitmap_subset a b s = Some (r, s) ∧
    (r = true ↔ ∀ c, 0 <= c < 64 * mask_size s → cpu_in lb c = true → cpu_in la c = true)) ∧
  (∃ r, scx_bitmap_intersects a b s = Some (r, s) ∧
    (r = true ↔ ∃ c, 0 <= c < 64 * mask_size s ∧ cpu_in la c = true ∧ cpu_in lb c = true)).
Proof.
  intros Ha Hb. assert (length la = length lb) as Hab by (by rewrite (mk_len _ _ _ Ha), (mk_len _ _ _ Hb)). split_and!.
  - destruct Ha as [Ha Hla Hu]. unfold scx_bitmap_empty.
    rewrite (for_search s (λ i, negb (nth i la 0 =? 0)) false true).
    2:{ intros i Hi. destruct (lookup_lt_is_Some_2 la i) as [u Eu]; [lia|].
        rewrite (ST_bind_run _ _ _ _ _ (rdw_run s a la _ u Ha ltac:(by rewrite Nat2Z.id))). by rewrite (nth_lookup_Some _ _ _ _ Eu). }
    set (f := existsb _ _). exists (negb f). split; [by destruct f|].
    rewrite negb_true_iff, <-not_true_iff_false. unfold f. rewrite words_nonzero by done.
    assert (∀ c, 0 <= c < 64 * Z.of_nat (Z.to_nat (mask_size s)) ↔ 0 <= c < 64 * mask_size s) as Hr by lia. setoid_rewrite Hr. split.
    + intros Hn c Hc. apply not_true_iff_false. intros Hin. apply Hn. eauto.
    + intros Hn (c & Hc & Hin). rewrite Hn in Hin by done. done.
  - destruct (search_zip (λ b a, Z.land (u64_not b) a) s a b la lb false true Ha Hb) as (f & E & Hf).
    { intros x y _ Hy. apply u64_land; [apply u64_range|done]. }
    exists (negb f). split; [unfold scx_bitmap_subset; rewrite E; by destruct f|]. rewrite negb_true_iff, <-not_true_iff_false, Hf.
    assert (∀ c, cpu_in (zip_with (λ b a, Z.land (u64_not b) a) la lb) c = negb (cpu_in la c) && cpu_in lb c) as Ec.
    { intros c. apply (cpu_in_zip _ (λ x y, negb x && y)); [|done|done]. intros x y j Hj. by rewrite Z.land_spec, testbit_not. }
    setoid_rewrite Ec. setoid_rewrite andb_true_iff. setoid_rewrite negb_true_iff. split.
    + intros Hn c Hc Hin. apply not_false_iff_true. intros Hla. apply Hn. eauto.
    + intros Hn (c & Hc & Hla & Hin). rewrite Hn in Hla by done. done.
  - destruct (search_zip Z.land s a b la lb true false Ha Hb u64_land) as (f & E & Hf). exists f.
    split; [unfold scx_bitmap_intersects; rewrite E; by destruct f|]. rewrite Hf. apply exist_proper. intros c.
    by rewrite (cpu_in_zip Z.land andb), andb_true_iff by (done || intros; apply Z.land_spec).
Qed.

(** Setting, clearing and testing one CPU within the bitmap change or read exactly that CPU: a CPU that was set tests true and one that was cleared tests false, and all other CPUs are as before. *)
Theorem bitmap_cpu_roundtrip s m l c :
  mask s m l → 0 <= c < 64 * mask_size s →
  scx_bitmap_test_cpu c m s = Some (cpu_in l c, s) ∧
  (∃ l1, scx_bitmap_set_cpu c m s = Some (0, put s m l1) ∧ mask (put s m l1) m l1 ∧
    scx_bitmap_test_cpu c m (put s m l1) = Some (true, put s m l1) ∧ ∀ c', 0 <= c' → c' ≠ c → cpu_in l1 c' = cpu_in l c') ∧
  (∃ l1, scx_bitmap_clear_cpu c m s = Some (0, put s m l1) ∧ mask (put s m l1) m l1 ∧
    scx_bitmap_test_cpu c m (put s m l1) = Some (false, put s m l1) ∧ ∀ c', 0 <= c' → c' ≠ c → cpu_in l1 c' = cpu_in l c').
Proof.
  intros Hm Hc. pose proof (cpu_pos c) as [Ec Hmod].
  assert (∀ s l, mask s m l → mask_size s = mask_size s → (Z.to_nat (c / 64) < length l)%nat → scx_bitmap_test_cpu c m s = Some (cpu_in l c, s)) as Htest.
  { intros s0 l0 Hm0 _ [w Hw]%lookup_lt_is_Some_2. unfold scx_bitmap_test_cpu, cpu_in.
    rewrite (ST_bind_run _ _ _ _ _ (rdw_run _ _ _ _ _ (mk_at _ _ _ Hm0) Hw)), Hw. by rewrite land_bit by lia. }
  assert (0 <= c / 64 < mask_size s) as Hi by (split; [apply Z.div_pos|apply Z.div_lt_upper_bound]; lia).
  assert (Z.to_nat (c / 64) < length l)%nat as Hlt by (rewrite (mk_len _ _ _ Hm); lia).
  destruct (lookup_lt_is_Some_2 _ _ Hlt) as [w Hw]. split; [by apply Htest|].
  split; [exists (upd_cpu c true l)|exists (upd_cpu c false l)]; (split_and!; [|by apply mask_upd| |]).
  - unfold scx_bitmap_set_cpu. rewrite (ST_bind_run _ _ _ _ _ (rdw_run _ _ _ _ _ (mk_at _ _ _ Hm) Hw)).
    rewrite (ST_bind_run _ _ _ _ _ (wrw_run _ _ _ _ _ (mk_at _ _ _ Hm) Hlt)). by rewrite (upd_cpu_insert _ _ _ w).
  - rewrite (Htest _ (upd_cpu c true l)) by (done || by apply mask_upd || by rewrite upd_cpu_len). by rewrite upd_cpu_in, Z.eqb_refl by lia.
  - intros c' Hc' Hne. by rewrite upd_cpu_in, (proj2 (Z.eqb_neq _ _)) by (lia || done).
  - unfold scx_bitmap_clear_cpu. rewrite (ST_bind_run _ _ _ _ _ (rdw_run _ _ _ _ _ (mk_at _ _ _ Hm) Hw)).
    rewrite (ST_bind_run _ _ _ _ _ (wrw_run _ _ _ _ _ (mk_at _ _ _ Hm) Hlt)). by rewrite (upd_cpu_insert _ _ _ w).
  - rewrite (Htest _ (upd_cpu c false l)) by (done || by apply mask_upd || by rewrite upd_cpu_len). by rewrite upd_cpu_in, Z.eqb_refl by lia.
  - intros c' Hc' Hne. by rewrite upd_cpu_in, (proj2 (Z.eqb_neq _ _)) by (lia || done).
Qed.

(** C26: Under arbitrary interference by other CPUs, picking a CPU either fails with -ENOSPC or -EAGAIN without changing the bitmap, or returns a CPU that is in the bitmap at the instant of its removal and removes exactly that CPU, so no CPU is handed out twice; test-and-clear reports true only for such a removal; and giving a CPU back either refuses it (-EINVAL for a CPU out of range, -EAGAIN after a lost race) or inserts exactly it. Undisturbed, on a bitmap of 64 words, a pick fails exactly when the bitmap is empty. *)
Theorem bitmap_pick_atomic cl env s m l start c :
  mask s m l → (∀ i, benv_ok m (env i)) → SCXMASK_NLONG <= mask_size s < 2 ^ 24 →
  (∃ r s', scx_bitmap_pick_any_cpu_from cl env m start s = Some (r, s') ∧
    ((r.1 = - ENOSPC ∨ r.1 = - EAGAIN) ∧ interferes env s s' ∨ atomically m env s r.1 false s')) ∧
  (0 <= c < 64 * mask_size s → ∃ (r : bool) s', scx_bitmap_test_and_clear_cpu cl env c m s = Some (r, s') ∧
    if r then atomically m env s c false s' else interferes env s s' ∧ (cpu_in l c = false → s' = s)) ∧
  (0 <= nr_cpu_ids s <= 4096 → ∃ r s', scx_bitmap_vacate_cpu cl env m c s = Some (r, s') ∧
    (r = - EINVAL ∧ s' = s ∧ ~ (0 <= c < nr_cpu_ids s) ∨ r = - EAGAIN ∧ interferes env s s' ∨ r = 0 ∧ atomically m env s c true s')) ∧
  (mask_size s = SCXMASK_NLONG → ∃ r s', scx_bitmap_pick_any_cpu_from cl (λ _ s, s) m start s = Some (r, s') ∧
    (cpu_in l r.1 = true ∧ 0 <= r.1 < 4096 ∧ s' = put s m (upd_cpu r.1 false l) ∨
     (∀ c, 0 <= c < 4096 → cpu_in l c = false) ∧ r.1 = - ENOSPC ∧ s' = s)).
Proof.
  intros Hm Henv Hms. split_and!; [by eapply pick_from_spec| | |intros; by apply pick_quiet].
  - intros Hc. apply test_and_clear_spec; [done..|lia|]. apply Z.div_lt_upper_bound; lia.
  - intros Hnr. change SCXMASK_NLONG with 64 in Hms. unfold scx_bitmap_vacate_cpu, gets, mbind at 1 2, ST_bind at 1 2.
    destruct ((c <? 0) || (nr_cpu_ids s <=? c)) eqn:E.
    { eexists _, s. split; [done|]. left. split_and!; [done..|]. apply orb_true_iff in E as [?%Z.ltb_lt|?%Z.leb_le]; lia. }
    apply orb_false_iff in E as [E1%Z.ltb_ge E2%Z.leb_gt]. assert (u32 c = c) as -> by (apply Z.mod_small; unfold two32; lia).
    assert (0 <= c / 64 < 64) as Hd by (split; [apply Z.div_pos|apply Z.div_lt_upper_bound]; lia).
    change SCXMASK_NLONG with 64. rewrite (proj2 (Z.ltb_ge (c / 64) 0)), (proj2 (Z.leb_gt _ (c / 64))), (proj2 (Z.leb_gt 64 _)) by lia. simpl.
    destruct (vacate_loop_spec cl env m l s c Hm Henv ltac:(lia) ltac:(lia)) as (r & s' & Hrun & Hd'). exists r, s'. split; [done|]. by right.
Qed.
End bitmaps.

(** ** Two concrete bitmaps of 64 words *)
Definition ex_words (w : Z) : list Z := w :: replicate 63 0.
Definition ex_bm : bm_state (gset Z) :=
  BmState (<[100 := ex_words 6]> (<[200 := ex_words 3]> ∅)) ∅ 64 128.

Lemma ex_mask_a : mask ex_bm 100 (ex_words 6).
Proof. split; [done|done|decide_now]. Qed.
Lemma ex_mask_b : mask ex_bm 200 (ex_words 3).
Proof. split; [done|done|decide_now]. Qed.

Lemma bitmap_algebra_witness :
  ∃ l, scx_bitmap_and 100 100 200 ex_bm = Some (0, put ex_bm 100 l) ∧
    ∀ c, cpu_in l c = cpu_in (ex_words 6) c && cpu_in (ex_words 3) c.
Proof.
  destruct (bitmap_algebra ex_bm 100 100 200 _ _ _ ex_mask_a ex_mask_a ex_mask_b) as [(l & ? & _ & ?) _].
  exists l. split; assumption.
Defined.

Lemma bitmap_predicates_witness : ∃ r, scx_bitmap_intersects 100 200 ex_bm = Some (r, ex_bm).
Proof.
  destruct (bitmap_predicates ex_bm 100 200 _ _ ex_mask_a ex_mask_b) as (_ & _ & r & ? & _). exists r. assumption.
Defined.

Lemma bitmap_cpu_roundtrip_witness : ∃ l1, scx_bitmap_set_cpu 70 100 ex_bm = Some (0, put ex_bm 100 l1).
Proof.
  destruct (bitmap_cpu_roundtrip ex_bm 100 _ 70 ex_mask_a) as (_ & (l1 & ? & _) & _); [simpl; lia|]. exists l1. assumption.
Defined.

Lemma bitmap_pick_atomic_witness :
  ∃ r s', scx_bitmap_pick_any_cpu_from 4 (λ _ s, s) 100 0 ex_bm = Some (r, s').
Proof.
  destruct (bitmap_pick_atomic 4 (λ _ s, s) ex_bm 100 _ 0 5 ex_mask_a) as ((r & s' & ? & _) & _);
    [intros i s l Hl; eauto|split; [done|reflexivity]|]. exists r, s'. assumption.
Defined.

(** On a bitmap of fewer than 64 words, that is for fewer than 4033 CPUs, no
    CPU is ever picked. *)
Lemma pick_small {A} (env : nat → bm_state A → bm_state A) cl m start s :
  mask_size s < SCXMASK_NLONG → scx_bitmap_pick_any_cpu_from cl env m start s = Some (- EINVAL, start, s).
Proof.
  intros Hms. destruct cl; simpl; unfold scx_bitmap_pick_any_cpu_once, gets, mbind, ST_bind; by rewrite (proj2 (Z.ltb_lt _ _)).
Qed.
