(* ===== verification/Lvqueue.v ===== *)
(** * The work-stealing queue: [lib/lvqueue.bpf.c], [include/lib/lvqueue.h]

    A growable circular array between [top], where thieves take, and
    [bottom], where the owner pushes and pops.  A queue object embeds the
    descriptors of its arrays, one per size; the memory of an array, once
    allocated, is held in its descriptor.  [cur] is the index of the current
    descriptor.  The store maps addresses to queues.

    Memory from [scx_static_alloc] is an argument of the operations that
    allocate: [None] for NULL, else the words the memory holds.  Between the
    reads of an operation and its [cmpxchg] the other CPUs act, given by
    [env]. *)

From S2P Require Import Prelude.

Definition LV_ARR_BASESZ : Z := 128.
Definition LV_ARR_ORDERS : Z := 10.

(** [struct lv_arr] *)
Record lv_arr : Type := LvArr { la_data : option (list Z); la_order : Z }.

(** [struct lv_queue] *)
Record lv_queue : Type := LvQueue { lq_cur : Z; lq_top : Z; lq_bottom : Z; lq_arr : list lv_arr }.

#[global] Instance lv_arr_eq_dec : EqDecision lv_arr.
Proof. solve_decision. Defined.
#[global] Instance lv_queue_eq_dec : EqDecision lv_queue.
Proof. solve_decision. Defined.

Abbreviation lvstore := (gmap Z lv_queue).
Abbreviation LM X := (ST lvstore X).

Definition with_cur (c : Z) (q : lv_queue) : lv_queue := LvQueue c (lq_top q) (lq_bottom q) (lq_arr q).
Definition with_top (t : Z) (q : lv_queue) : lv_queue := LvQueue (lq_cur q) t (lq_bottom q) (lq_arr q).
Definition with_bottom (b : Z) (q : lv_queue) : lv_queue := LvQueue (lq_cur q) (lq_top q) b (lq_arr q).
Definition with_arr (i : Z) (a : lv_arr) (q : lv_queue) : lv_queue :=
  LvQueue (lq_cur q) (lq_top q) (lq_bottom q) (<[Z.to_nat i := a]> (lq_arr q)).

(** ** Accesses *)
Definition rdq {X} (lvq : Z) (f : lv_queue → X) : LM X := λ s,
  match s !! lvq with Some q => Some (f q, s) | None => None end.
Definition wrq (lvq : Z) (f : lv_queue → lv_queue) : LM unit := λ s,
  match s !! lvq with Some q => Some (tt, <[lvq := f q]> s) | None => None end.
(** The descriptor [&lvq->arr[i]]. *)
Definition rda (lvq i : Z) : LM lv_arr :=
  arr ← rdq lvq lq_arr; of_option (arr !! Z.to_nat i).

Definition cmpxchg_top (lvq old new : Z) : LM Z :=
  cur ← rdq lvq lq_top;
  (if cur =? old then wrq lvq (with_top new) else mret tt);;
  mret cur.

(** ** Arrays *)
Definition lv_arr_size (a : lv_arr) : Z := u64 (Z.shiftl 1 (la_order a)).

Definition lv_arr_get (lvq i ind : Z) : LM Z :=
  a ← rda lvq i;
  d ← of_option (la_data a);
  of_option (d !! Z.to_nat (ind mod lv_arr_size a)).

Definition lv_arr_put (lvq i ind value : Z) : LM unit :=
  a ← rda lvq i;
  d ← of_option (la_data a);
  let k := Z.to_nat (ind mod lv_arr_size a) in
  _ ← of_option (d !! k);
  wrq lvq (with_arr i (LvArr (Some (<[k := value]> d)) (la_order a))).

(** The counter is an [int], converted to [u64] by the comparison and the
    calls. *)
Fixpoint lv_arr_copy_loop (cl : nat) (lvq dst src b i : Z) : LM unit :=
  if negb (u64 i <? b) then mret tt else
  match cl with
  | O => mret tt
  | S cl =>
      v ← lv_arr_get lvq src (u64 i);
      lv_arr_put lvq dst (u64 i) v;;
      lv_arr_copy_loop cl lvq dst src b (s32 (i + 1))
  end.
Definition lv_arr_copy (cl : nat) (lvq dst src b t : Z) : LM unit :=
  lv_arr_copy_loop cl lvq dst src b (s32 t).

Definition lvq_order_init (mem : option (list Z)) (lvq order : Z) : LM Z :=
  if lvq =? NULL then mret (- EINVAL) else
  if LV_ARR_ORDERS <=? order then mret (- E2BIG) else
  a ← rda lvq order;
  match la_data a with
  | Some _ => mret 0
  | None =>
      wrq lvq (with_arr order (LvArr mem (la_order a)));;
      mret (match mem with Some _ => 0 | None => - ENOMEM end)
  end.

(** ** Operations *)
Definition lvq_push (cl : nat) (mem : option (list Z)) (lvq val : Z) : LM Z :=
  if lvq =? NULL then mret (- EINVAL) else
  b ← rdq lvq lq_bottom;
  t ← rdq lvq lq_top;
  arr ← rdq lvq lq_cur;
  a ← rda lvq arr;
  let sz := s64 (b - t) in
  ret ← (if u64 (lv_arr_size a - 1) <=? u64 sz then
      ret ← lvq_order_init mem lvq (la_order a + 1);
      if negb (ret =? 0) then mret ret else
      let newarr := la_order a + 1 in
      lv_arr_copy cl lvq newarr arr b t;;
      wrq lvq (with_cur newarr);;
      mret 0
    else mret 0);
  if negb (ret =? 0) then mret ret else
  cur ← rdq lvq lq_cur;
  lv_arr_put lvq cur b val;;
  wrq lvq (λ q, with_bottom (u64 (lq_bottom q + 1)) q);;
  mret 0.

(** The return code and what is stored through [val]; [valp] says whether the
    pointer is not null. *)
Definition lvq_pop (env : lvstore → lvstore) (lvq : Z) (valp : bool) : LM (Z * Z) :=
  if (lvq =? NULL) || negb valp then mret (- EINVAL, 0) else
  arr ← rdq lvq lq_cur;
  wrq lvq (λ q, with_bottom (u64 (lq_bottom q - 1)) q);;
  b ← rdq lvq lq_bottom;
  t ← rdq lvq lq_top;
  let sz := s64 (b - t) in
  if sz <? 0 then wrq lvq (with_bottom t);; mret (- ENOENT, 0) else
  value ← lv_arr_get lvq arr b;
  if 0 <? sz then mret (0, value) else
  modifies env;;
  cur ← cmpxchg_top lvq t (u64 (t + 1));
  if negb (cur =? t) then mret (- EAGAIN, 0) else
  wrq lvq (with_bottom (u64 (t + 1)));;
  mret (0, value).

Definition lvq_steal (env : lvstore → lvstore) (lvq : Z) (valp : bool) : LM (Z * Z) :=
  if (lvq =? NULL) || negb valp then mret (- EINVAL, 0) else
  b ← rdq lvq lq_bottom;
  t ← rdq lvq lq_top;
  arr ← rdq lvq lq_cur;
  let sz := s64 (b - t) in
  if sz <=? 0 then mret (- ENOENT, 0) else
  value ← lv_arr_get lvq arr t;
  modifies env;;
  cur ← cmpxchg_top lvq t (u64 (t + 1));
  if negb (cur =? t) then mret (- EAGAIN, 0) else
  mret (0, value).

Fixpoint create_loop (cl : nat) (n : nat) (i lvq : Z) : LM unit :=
  match n with
  | O => mret tt
  | S n =>
      match cl with
      | O => mret tt
      | S cl => wrq lvq (with_arr i (LvArr None i));; create_loop cl n (i + 1) lvq
      end
  end.

(** [p] is the address [scx_static_alloc] returns for the queue, an object
    with the descriptors [junk], and [mem] what it returns for the array. *)
Definition lvq_create_internal (cl : nat) (p : Z) (junk : list lv_arr) (mem : option (list Z)) : LM Z :=
  if p =? NULL then mret NULL else
  modifies (λ s, <[p := LvQueue 0 0 0 junk]> s);;
  create_loop cl (Z.to_nat LV_ARR_ORDERS) 0 p;;
  ret ← lvq_order_init mem p 0;
  if negb (ret =? 0) then mret NULL else
  wrq p (with_cur 0);;
  mret p.

Definition lvq_destroy (lvq : Z) : LM Z :=
  if lvq =? NULL then mret (- EINVAL) else mret (- EOPNOTSUPP).
