(* ===== verification/LvqueueCorrect.v ===== *)
(** * The work-stealing queue: theorems

    The queue implements a double-ended sequence: the owner pushes and pops at
    one end, thieves take from the other, and growing the array keeps the
    contents. *)

From S2P Require Import Prelude Lvqueue.

(** ** The representation *)

(** The array [d] of [2^o] slots holds [l] from the index [t] on. *)
Definition holds_at (d : list Z) (o t : Z) (l : list Z) : Prop :=
  ∀ k v, l !! k = Some v → d !! Z.to_nat ((t + Z.of_nat k) mod 2 ^ o) = Some v.

Record lvq_ok (q : lv_queue) (l : list Z) : Prop := LvqOk {
  lo_cur : 0 <= lq_cur q < LV_ARR_ORDERS;
  lo_len : length (lq_arr q) = 10%nat;
  lo_order i a : lq_arr q !! i = Some a → la_order a = Z.of_nat i;
  lo_mem i a d : lq_arr q !! i = Some a → la_data a = Some d → Z.of_nat (length d) = LV_ARR_BASESZ * 2 ^ Z.of_nat i;
  lo_range : 0 <= lq_top q ∧ lq_bottom q = lq_top q + Z.of_nat (length l) ∧ lq_bottom q < two31 - 1;
  lo_room : Z.of_nat (length l) < 2 ^ lq_cur q;
  lo_data : ∃ a d, lq_arr q !! Z.to_nat (lq_cur q) = Some a ∧ la_data a = Some d ∧ holds_at d (lq_cur q) (lq_top q) l;
}.

Lemma pow_order o : 0 <= o < LV_ARR_ORDERS → 1 <= 2 ^ o <= 512.
Proof.
  intros Ho. change LV_ARR_ORDERS with 10 in Ho. split; [apply (Z.pow_le_mono_r 2 0 o); lia|].
  change 512 with (2 ^ 9). apply Z.pow_le_mono_r; lia.
Qed.

Lemma size_pow a o : la_order a = o → 0 <= o < LV_ARR_ORDERS → lv_arr_size a = 2 ^ o.
Proof.
  intros E Ho. pose proof (pow_order o Ho). unfold lv_arr_size. rewrite E, Z.shiftl_1_l. apply u64_small. unfold is_u64, two64. lia.
Qed.

(** Slots of different positions within one turn of the array differ. *)
Lemma slot_inj t i j n : 0 < n → 0 <= i < n → 0 <= j < n → (t + i) mod n = (t + j) mod n → i = j.
Proof.
  intros Hn Hi Hj E. assert ((i - j) mod n = 0) as E0.
  { replace (i - j) with ((t + i) - (t + j)) by lia. by rewrite Zminus_mod, E, Z.sub_diag, Zmod_0_l. }
  apply Z.mod_divide in E0 as [k Hk]; [|lia]. assert (k = 0) by nia. lia.
Qed.

(** Writing the slot behind the last one appends. *)
Lemma holds_snoc d o t l v :
  0 <= o → holds_at d o t l → Z.of_nat (length l) < 2 ^ o → 2 ^ o <= Z.of_nat (length d) →
  holds_at (<[Z.to_nat ((t + Z.of_nat (length l)) mod 2 ^ o) := v]> d) o t (l ++ [v]).
Proof.
  intros Ho Hd Hl Hlen k w Hk. pose proof (Z.pow_pos_nonneg 2 o ltac:(lia) Ho) as Hp.
  pose proof (Z.mod_pos_bound (t + Z.of_nat (length l)) (2 ^ o) Hp). pose proof (Z.mod_pos_bound (t + Z.of_nat k) (2 ^ o) Hp).
  apply lookup_app_Some in Hk as [Hk|[Hk1 Hk2]].
  - pose proof (lookup_lt_Some _ _ _ Hk). rewrite list_lookup_insert_ne; [by apply Hd|]. intros E.
    assert (Z.of_nat (length l) = Z.of_nat k); [|lia]. apply (slot_inj t _ _ (2 ^ o)); lia.
  - apply list_lookup_singleton_Some in Hk2 as [Hk2 <-]. assert (k = length l) as -> by lia.
    rewrite list_lookup_insert_eq by lia. done.
Qed.

Lemma holds_drop d o t l : holds_at d o t l → holds_at d o (t + 1) (tail l).
Proof.
  intros Hd k v Hk. replace (t + 1 + Z.of_nat k) with (t + Z.of_nat (S k)) by lia. apply Hd. by destruct l.
Qed.

Lemma holds_prefix d o t l v : holds_at d o t (l ++ [v]) → holds_at d o t l.
Proof. intros Hd k w Hk. apply Hd. by apply lookup_app_l_Some. Qed.

(** ** Running the accesses *)
Section run.
Context (p : Z).
Implicit Types (s : gmap Z lv_queue) (q : lv_queue).

Lemma rdl_bind {X Y} (f : lv_queue → X) (k : X → ST lvstore Y) s q :
  s !! p = Some q → (rdq p f ≫= k) s = k (f q) s.
Proof. intros Hq. unfold rdq, mbind, ST_bind. by rewrite Hq. Qed.

Lemma wrl_bind {Y} f (k : unit → ST lvstore Y) s q :
  s !! p = Some q → (wrq p f ≫= k) s = k tt (<[p := f q]> s).
Proof. intros Hq. unfold wrq, mbind, ST_bind. by rewrite Hq. Qed.

Lemma rda_bind {Y} i (k : lv_arr → ST lvstore Y) s q a :
  s !! p = Some q → lq_arr q !! Z.to_nat i = Some a → (rda p i ≫= k) s = k a s.
Proof. intros Hq Ha. unfold rda. rewrite ST_bind_assoc, (rdl_bind _ _ _ _ Hq). unfold of_option, mbind, ST_bind. by rewrite Ha. Qed.

Lemma get_run s q i a d ind v :
  s !! p = Some q → lq_arr q !! Z.to_nat i = Some a → la_data a = Some d →
  d !! Z.to_nat (ind mod lv_arr_size a) = Some v → lv_arr_get p i ind s = Some (v, s).
Proof.
  intros Hq Ha Hd Hv. unfold lv_arr_get. rewrite (rda_bind _ _ _ _ _ Hq Ha), Hd. unfold of_option, mbind, ST_bind. by rewrite Hv.
Qed.

Lemma put_run s q i a d ind v :
  s !! p = Some q → lq_arr q !! Z.to_nat i = Some a → la_data a = Some d →
  (Z.to_nat (ind mod lv_arr_size a) < length d)%nat →
  lv_arr_put p i ind v s =
    Some (tt, <[p := with_arr i (LvArr (Some (<[Z.to_nat (ind mod lv_arr_size a) := v]> d)) (la_order a)) q]> s).
Proof.
  intros Hq Ha Hd [w Hw]%lookup_lt_is_Some_2. unfold lv_arr_put. rewrite (rda_bind _ _ _ _ _ Hq Ha), Hd.
  unfold of_option at 1, mbind at 1, ST_bind at 1. cbv beta iota. unfold of_option, mbind, ST_bind. rewrite Hw. unfold wrq. by rewrite Hq.
Qed.

(** Growing copies the whole contents to the next array. *)
Lemma copy_run cl s q o a d a' d' l1 l2 :
  s !! p = Some q → 0 <= o → o + 1 < LV_ARR_ORDERS → lq_arr q !! Z.to_nat o = Some a → la_data a = Some d → la_order a = o →
  lq_arr q !! Z.to_nat (o + 1) = Some a' → la_data a' = Some d' → la_order a' = o + 1 →
  Z.of_nat (length d') = LV_ARR_BASESZ * 2 ^ (o + 1) → holds_at d o (lq_top q) (l1 ++ l2) → holds_at d' (o + 1) (lq_top q) l1 →
  Z.of_nat (length (l1 ++ l2)) < 2 ^ o → (length l2 ≤ cl)%nat → 0 <= lq_top q → lq_top q + Z.of_nat (length (l1 ++ l2)) < two31 - 1 →
  ∃ d'', lv_arr_copy_loop cl p (o + 1) o (lq_top q + Z.of_nat (length (l1 ++ l2))) (lq_top q + Z.of_nat (length l1)) s =
      Some (tt, <[p := with_arr (o + 1) (LvArr (Some d'') (o + 1)) q]> s) ∧
    length d'' = length d' ∧ holds_at d'' (o + 1) (lq_top q) (l1 ++ l2).
Proof.
  intros Hq Ho Ho' Ha Hd Eo Ha' Hd' Eo' Hlen Hsrc Hdst Hroom Hcl Ht0 Htop. revert cl s q a' d' l1 Hq Ha Ha' Hd' Eo' Hlen Hsrc Hdst Hroom Hcl Ht0 Htop.
  pose proof (size_pow a o Eo ltac:(lia)) as Hsz. pose proof (Z.pow_succ_r 2 o Ho) as Hpow. rewrite <-Z.add_1_r in Hpow.
  pose proof (pow_order o ltac:(lia)) as Hpo.
  assert (∀ z, 0 <= z < two31 → u64 z = z) as Hu by (intros; apply u64_small; unfold is_u64, two31, two64 in *; lia).
  induction l2 as [|v l2 IH]; intros cl s q a' d' l1 Hq Ha Ha' Hd' Eo' Hlen Hsrc Hdst Hroom Hcl Ht0 Htop.
  { rewrite app_nil_r in *. exists d'. split_and!; [|done|done].
    assert (with_arr (o + 1) (LvArr (Some d') (o + 1)) q = q) as ->.
    { unfold with_arr. rewrite list_insert_id; [by destruct q|]. rewrite Ha'. f_equal. destruct a'. simpl in *. congruence. }
    rewrite insert_id by done. destruct cl; cbn [lv_arr_copy_loop]; rewrite Hu, Z.ltb_irrefl by lia; done. }
  destruct cl as [|cl]; [simpl in Hcl; lia|]. cbn [lv_arr_copy_loop]. rewrite length_app in *. simpl in *.
  rewrite Hu by lia. rewrite (proj2 (Z.ltb_lt _ _)) by lia. cbn [negb].
  assert (d !! Z.to_nat ((lq_top q + Z.of_nat (length l1)) mod 2 ^ o) = Some v) as Hv by (apply Hsrc; by rewrite list_lookup_middle).
  rewrite <-Hsz in Hv. rewrite (ST_bind_run _ _ _ _ _ (get_run s q o a d _ v Hq Ha Hd Hv)).
  pose proof (size_pow a' (o + 1) Eo' ltac:(lia)) as Hsz'. pose proof (Z.mod_pos_bound (lq_top q + Z.of_nat (length l1)) (2 ^ (o + 1)) ltac:(lia)).
  change LV_ARR_BASESZ with 128 in Hlen.
  rewrite (ST_bind_run _ _ _ _ _ (put_run s q (o + 1) a' d' (lq_top q + Z.of_nat (length l1)) v Hq Ha' Hd' ltac:(rewrite Hsz'; lia))). rewrite Hsz', Eo'.
  set (d1 := <[_ := v]> d'). set (q1 := with_arr (o + 1) (LvArr (Some d1) (o + 1)) q).
  assert (s32 (lq_top q + Z.of_nat (length l1) + 1) = lq_top q1 + Z.of_nat (length (l1 ++ [v]))) as ->.
  { rewrite length_app. simpl. rewrite s32_small by (unfold two31 in *; lia). lia. }
  destruct (IH cl (<[p := q1]> s) q1 (LvArr (Some d1) (o + 1)) d1 (l1 ++ [v])) as (d'' & Hrun & Hl'' & Hh''); try done.
  - by rewrite lookup_insert_eq.
  - simpl. rewrite list_lookup_insert_ne by lia. done.
  - simpl. apply list_lookup_insert_eq. by eapply lookup_lt_Some.
  - unfold d1. rewrite length_insert. change LV_ARR_BASESZ with 128. lia.
  - by rewrite <-app_assoc.
  - unfold d1. apply holds_snoc; [lia|done|lia|lia].
  - rewrite <-app_assoc. simpl. rewrite length_app. simpl. lia.
  - lia.
  - rewrite <-app_assoc. simpl. rewrite length_app. simpl. lia.
  - rewrite <-app_assoc in Hrun, Hh''. simpl in Hrun, Hh''. rewrite (length_app l1) in Hrun. simpl in Hrun.
    exists d''. split_and!; [|unfold d1 in Hl''; by rewrite length_insert in Hl''|done].
    change (lq_top q1) with (lq_top q) in Hrun |- *. rewrite Hrun. rewrite insert_insert_eq. do 3 f_equal. unfold q1, with_arr. simpl. by rewrite list_insert_insert_eq.
Qed.
End run.

(** ** The operations *)
Section ops.
Context (p : Z) (Hp : p ≠ NULL).
Implicit Types (s : gmap Z lv_queue) (q : lv_queue).

Lemma p_null : (p =? NULL) = false.
Proof. by apply Z.eqb_neq. Qed.

(** The current array. *)
Lemma cur_arr q l : lvq_ok q l → ∃ d, lq_arr q !! Z.to_nat (lq_cur q) = Some (LvArr (Some d) (lq_cur q)) ∧
  holds_at d (lq_cur q) (lq_top q) l ∧ Z.of_nat (length d) = LV_ARR_BASESZ * 2 ^ lq_cur q.
Proof.
  intros [Hc Hl Ho Hm _ _ (a & d & Ha & Hd & Hh)]. exists d. pose proof (Ho _ _ Ha). pose proof (Hm _ _ _ Ha Hd) as Hlen.
  rewrite Z2Nat.id in * by lia. split_and!; [|done|done]. rewrite Ha. destruct a. simpl in *. congruence.
Qed.

(** Appending to the current array. *)
Lemma append_run s q l v :
  s !! p = Some q → lvq_ok q l → Z.of_nat (length l) + 1 < 2 ^ lq_cur q → lq_bottom q < two31 - 2 →
  ∃ q', (lv_arr_put p (lq_cur q) (lq_bottom q) v;; wrq p (λ q, with_bottom (u64 (lq_bottom q + 1)) q);; mret 0) s =
      Some (0, <[p := q']> s) ∧ lvq_ok q' (l ++ [v]).
Proof.
  intros Hq Hok Hroom Hb. destruct (cur_arr q l Hok) as (d & Ha & Hh & Hlen). destruct Hok as [Hc Hl Ho Hm Hr _ _].
  pose proof (pow_order _ Hc) as Hpo. change LV_ARR_BASESZ with 128 in Hlen.
  pose proof (Z.mod_pos_bound (lq_bottom q) (2 ^ lq_cur q) ltac:(lia)) as Hmod.
  assert (lv_arr_size (LvArr (Some d) (lq_cur q)) = 2 ^ lq_cur q) as Hsz by (by apply size_pow).
  rewrite (ST_bind_run _ _ _ _ _ (put_run p s q _ _ d (lq_bottom q) v Hq Ha eq_refl ltac:(rewrite Hsz; lia))). rewrite Hsz.
  set (k := Z.to_nat _). rewrite (wrl_bind p _ _ _ _ (lookup_insert_eq s p _)). rewrite insert_insert_eq. eexists. split; [done|].
  assert (u64 (lq_bottom q + 1) = lq_bottom q + 1) as Eb by (apply u64_small; unfold is_u64, two64, two31 in *; lia).
  pose proof (lookup_lt_Some _ _ _ Ha) as Hlt.
  split; simpl; rewrite ?length_insert, ?length_app; simpl; try done.
  - intros i a'. destruct (decide (i = Z.to_nat (lq_cur q))) as [->|Hne].
    + rewrite list_lookup_insert_eq by done. intros [= <-]. simpl. lia.
    + rewrite list_lookup_insert_ne by done. apply Ho.
  - intros i a' d'. destruct (decide (i = Z.to_nat (lq_cur q))) as [->|Hne].
    + rewrite list_lookup_insert_eq by done. intros [= <-] [= <-]. rewrite length_insert, Z2Nat.id by lia. done.
    + rewrite list_lookup_insert_ne by done. apply Hm.
  - rewrite Eb. lia.
  - lia.
  - rewrite list_lookup_insert_eq by done. eexists _, _. split_and!; [done..|]. unfold k. destruct Hr as (_ & -> & _).
    apply holds_snoc; [lia|done|lia|lia].
Qed.

Lemma with_arr_id i q a : lq_arr q !! Z.to_nat i = Some a → with_arr i a q = q.
Proof. intros Ha. unfold with_arr. rewrite list_insert_id by done. by destruct q. Qed.

(** The next array, allocated when it is needed for the first time. *)
Lemma init_run mem s q l :
  s !! p = Some q → lvq_ok q l → lq_cur q + 1 < LV_ARR_ORDERS →
  (∀ d, mem = Some d → Z.of_nat (length d) = LV_ARR_BASESZ * 2 ^ (lq_cur q + 1)) →
  ∃ r q1, lvq_order_init mem p (lq_cur q + 1) s = Some (r, <[p := q1]> s) ∧
    (r = - ENOMEM ∧ mem = None ∧ q1 = q ∨
     ∃ d', r = 0 ∧ q1 = with_arr (lq_cur q + 1) (LvArr (Some d') (lq_cur q + 1)) q ∧
       Z.of_nat (length d') = LV_ARR_BASESZ * 2 ^ (lq_cur q + 1)).
Proof.
  intros Hq [Hc Hl Ho Hm _ _ _] Hsmall Hmem. unfold lvq_order_init. rewrite p_null, (proj2 (Z.leb_gt _ _)) by lia.
  destruct (lookup_lt_is_Some_2 (lq_arr q) (Z.to_nat (lq_cur q + 1))) as [[da' o'] Ha']; [rewrite Hl; change LV_ARR_ORDERS with 10 in *; lia|].
  pose proof (Ho _ _ Ha') as Eo'. rewrite Z2Nat.id in Eo' by lia. simpl in Eo'. subst o'.
  rewrite (rda_bind p _ _ _ _ _ Hq Ha'). simpl. destruct da' as [d'|].
  - eexists _, q. split; [by rewrite insert_id|]. right. exists d'. split_and!; [done|by rewrite with_arr_id|].
    pose proof (Hm _ _ _ Ha' eq_refl) as E. by rewrite Z2Nat.id in E by lia.
  - rewrite (wrl_bind p _ _ _ _ Hq). eexists _, _. split; [done|]. destruct mem as [d'|].
    + right. exists d'. split_and!; [done..|by apply Hmem].
    + left. split_and!; [done..|]. by apply with_arr_id.
Qed.

(** Making room: the next array takes over the contents. *)
Lemma grow_run cl mem s q l :
  s !! p = Some q → lvq_ok q l → (512 ≤ cl)%nat → lq_bottom q < two31 - 2 →
  (∀ d, mem = Some d → Z.of_nat (length d) = LV_ARR_BASESZ * 2 ^ (lq_cur q + 1)) →
  ∃ r q', (ret ← lvq_order_init mem p (lq_cur q + 1);
      if negb (ret =? 0) then mret ret else
      lv_arr_copy cl p (lq_cur q + 1) (lq_cur q) (lq_bottom q) (lq_top q);; wrq p (with_cur (lq_cur q + 1));; mret 0) s =
      Some (r, <[p := q']> s) ∧
    (r = 0 ∧ lvq_ok q' l ∧ lq_cur q' = lq_cur q + 1 ∧ lq_bottom q' = lq_bottom q ∨ r = - E2BIG ∧ lq_cur q = 9 ∧ q' = q ∨ r = - ENOMEM ∧ mem = None ∧ q' = q).
Proof.
  intros Hq Hok Hcl Hb Hmem. pose proof (cur_arr q l Hok) as (d & Ha & Hh & Hlen). pose proof Hok as [Hc Hl Ho Hm (Ht0 & Eb & Hbm) Hroom _].
  destruct (Z.leb_spec LV_ARR_ORDERS (lq_cur q + 1)) as [Hbig|Hsmall].
  { exists (- E2BIG), q. unfold lvq_order_init. rewrite p_null, (proj2 (Z.leb_le _ _)) by lia. split; [by rewrite insert_id|].
    right; left. change LV_ARR_ORDERS with 10 in *. split_and!; [done|lia|done]. }
  destruct (init_run mem s q l Hq Hok Hsmall Hmem) as (r & q1 & Hinit & [(-> & -> & ->)|(d' & -> & Eq1 & Hlen')]);
    rewrite (ST_bind_run _ _ _ _ _ Hinit); [eexists _, q; split; [done|]; right; by right|]. simpl (negb (0 =? 0)). cbv iota.
  assert (Z.to_nat (lq_cur q + 1) < length (lq_arr q))%nat as Hlt by (rewrite Hl; change LV_ARR_ORDERS with 10 in *; lia).
  pose proof (pow_order _ Hc) as Hpo. unfold lv_arr_copy. assert (s32 (lq_top q) = lq_top q) as ->.
  { apply s32_small. unfold two31 in *. lia. }
  destruct (copy_run p cl (<[p := q1]> s) q1 (lq_cur q) (LvArr (Some d) (lq_cur q)) d (LvArr (Some d') (lq_cur q + 1)) d' [] l) as (d'' & Hrun & Hl'' & Hh'');
    rewrite ?Eq1; simpl; try done; try lia; [apply lookup_insert_eq|rewrite list_lookup_insert_ne by lia; done|by apply list_lookup_insert_eq|].
  rewrite Eq1 in Hrun, Hh''. simpl in Hrun, Hh''. rewrite Z.add_0_r, <-Eb in Hrun.
  rewrite (ST_bind_run _ _ _ _ _ Hrun). rewrite (wrl_bind p _ _ _ _ (lookup_insert_eq _ p _)), !insert_insert_eq.
  eexists 0, _. split; [done|]. left. split_and!; [done| |done|done].
  pose proof (Z.pow_succ_r 2 (lq_cur q) ltac:(lia)) as Hpow. rewrite <-Z.add_1_r in Hpow.
  split; simpl; rewrite ?list_insert_insert_eq, ?length_insert; try done; try lia.
  - intros i a0. destruct (decide (i = Z.to_nat (lq_cur q + 1))) as [->|Hne].
    + rewrite list_lookup_insert_eq by done. intros [= <-]. simpl. lia.
    + rewrite list_lookup_insert_ne by done. apply Ho.
  - intros i a0 d0. destruct (decide (i = Z.to_nat (lq_cur q + 1))) as [->|Hne].
    + rewrite list_lookup_insert_eq by done. intros [= <-] [= <-]. rewrite Z2Nat.id by lia. lia.
    + rewrite list_lookup_insert_ne by done. apply Hm.
  - rewrite list_lookup_insert_eq by done. eauto.
Qed.

(** ** Claims *)

(** C27: A push appends its value at the owner's end of the sequence, growing the array when it is full without disturbing the contents; it fails only when the largest array is full, at 511 elements (-E2BIG), or when memory for the next array is refused (-ENOMEM), and then the sequence is unchanged. The position [bottom] is assumed to be below 2^31 - 2, the range of the int with which [lv_arr_copy] counts. *)
Theorem lvq_push_correct cl mem s q l v :
  s !! p = Some q → lvq_ok q l → (512 ≤ cl)%nat → lq_bottom q < two31 - 2 →
  (∀ d, mem = Some d → Z.of_nat (length d) = LV_ARR_BASESZ * 2 ^ (lq_cur q + 1)) →
  ∃ r q', lvq_push cl mem p v s = Some (r, <[p := q']> s) ∧
    (r = 0 ∧ lvq_ok q' (l ++ [v]) ∨ r = - E2BIG ∧ length l = 511%nat ∧ q' = q ∨ r = - ENOMEM ∧ mem = None ∧ q' = q).
Proof.
  intros Hq Hok Hcl Hb Hmem. pose proof (cur_arr q l Hok) as (d & Ha & Hh & Hlen). pose proof Hok as [Hc Hl Ho Hm (Ht0 & Eb & Hbm) Hroom _].
  pose proof (pow_order _ Hc) as Hpo. unfold lvq_push. rewrite p_null. rewrite !(rdl_bind p _ _ _ _ Hq), (rda_bind p _ _ _ _ _ Hq Ha).
  rewrite (size_pow (LvArr (Some d) (lq_cur q)) (lq_cur q)) by done. simpl (la_order _).
  rewrite s64_small by (unfold two31, two63 in *; lia). rewrite !u64_small by (unfold is_u64, two31, two64 in *; lia).
  destruct (Z.leb_spec (2 ^ lq_cur q - 1) (lq_bottom q - lq_top q)) as [Hfull|Hfree].
  - destruct (grow_run cl mem s q l Hq Hok Hcl Hb Hmem) as (r & q' & Hrun & Hd). rewrite (ST_bind_run _ _ _ _ _ Hrun).
    destruct Hd as [(-> & Hok' & Ec & Eb')|[(-> & Ec & ->)|(-> & -> & ->)]]; simpl.
    + rewrite (rdl_bind p _ _ _ _ (lookup_insert_eq s p q')), <-Eb'. pose proof (Z.pow_succ_r 2 (lq_cur q) ltac:(lia)) as Hpow.
      rewrite <-Z.add_1_r in Hpow.
      destruct (append_run (<[p := q']> s) q' l v (lookup_insert_eq s p q') Hok') as (q2 & Hrun2 & Hok2); [rewrite Ec; lia|lia|].
      exists 0, q2. rewrite Hrun2, insert_insert_eq. split; [done|]. by left.
    + eexists _, q. split; [done|]. right; left. rewrite Ec in Hfull, Hroom. change (2 ^ 9) with 512 in *. split_and!; [done|lia|done].
    + eexists _, q. split; [done|]. right; by right.
  - unfold mbind at 1, ST_bind at 1, mret at 1, ST_ret at 1. simpl (negb (0 =? 0)). cbv iota. rewrite (rdl_bind p _ _ _ _ Hq).
    destruct (append_run s q l v Hq Hok ltac:(lia) Hb) as (q2 & Hrun2 & Hok2). exists 0, q2. split; [done|]. by left.
Qed.

(** Undisturbed, a pop takes the last value of the sequence and a steal the first; on an empty sequence both report -ENOENT and leave it empty. Together with the push: the owner's end is a stack, and what thieves take comes in the order of insertion. *)
Theorem lvq_take_correct s q l :
  s !! p = Some q → lvq_ok q l →
  (∃ q', match last l with
    | None => lvq_pop id p true s = Some ((- ENOENT, 0), <[p := q']> s) ∧ lvq_ok q' []
    | Some v => lvq_pop id p true s = Some ((0, v), <[p := q']> s) ∧ lvq_ok q' (take (length l - 1) l)
    end) ∧
  (∃ q', match l with
    | [] => lvq_steal id p true s = Some ((- ENOENT, 0), <[p := q']> s) ∧ lvq_ok q' []
    | v :: l' => lvq_steal id p true s = Some ((0, v), <[p := q']> s) ∧ lvq_ok q' l'
    end).
Proof.
  intros Hq Hok. pose proof (cur_arr q l Hok) as (d & Ha & Hh & Hlen). pose proof Hok as [Hc Hl Ho Hm (Ht0 & Eb & Hbm) Hroom Hda].
  pose proof (pow_order _ Hc) as Hpo. pose proof (size_pow (LvArr (Some d) (lq_cur q)) (lq_cur q) eq_refl Hc) as Hsz.
  assert (∀ z, 0 <= z < two31 → u64 z = z) as Hu by (intros; apply u64_small; unfold is_u64, two31, two64 in *; lia). split.
  - unfold lvq_pop. rewrite p_null. cbn [orb negb]. rewrite (rdl_bind p _ _ _ _ Hq), (wrl_bind p _ _ _ _ Hq).
    rewrite !(rdl_bind p _ _ _ _ (lookup_insert_eq s p _)). cbn [lq_bottom lq_top with_bottom].
    destruct l as [|v l _] using rev_ind; [|rewrite last_snoc, length_app in *; simpl in *].
    + simpl in Eb. assert (s64 (u64 (lq_bottom q - 1) - lq_top q) = -1) as ->.
      { unfold s64, u64. rewrite Zminus_mod_idemp_l. replace (lq_bottom q - 1 - lq_top q) with (-1) by (simpl in *; lia). reflexivity. }
      simpl. rewrite (wrl_bind p _ _ _ _ (lookup_insert_eq s p _)), insert_insert_eq. eexists. split; [done|]. simpl.
      split; simpl; try done. lia.
    + rewrite Hu by lia. rewrite s64_small by (unfold two31, two63 in *; lia). rewrite (proj2 (Z.ltb_ge _ 0)) by lia.
      assert (d !! Z.to_nat ((lq_bottom q - 1) mod lv_arr_size (LvArr (Some d) (lq_cur q))) = Some v) as Hv.
      { rewrite Hsz. replace (lq_bottom q - 1) with (lq_top q + Z.of_nat (length l)) by lia. apply Hh. by rewrite list_lookup_middle. }
      rewrite (ST_bind_run _ _ _ _ _ (get_run p _ (with_bottom (lq_bottom q - 1) q) (lq_cur q) _ d _ v (lookup_insert_eq s p _) Ha eq_refl Hv)).
      replace (length l + 1 - 1)%nat with (length l) by lia. rewrite take_app_length.
      destruct (Z.ltb_spec 0 (lq_bottom q - 1 - lq_top q)).
      * eexists. split; [done|]. split; simpl; try done; try lia. exists (LvArr (Some d) (lq_cur q)), d. split_and!; [done..|]. by eapply holds_prefix.
      * assert (l = []) as -> by (destruct l; [done|simpl in *; lia]). unfold modifies, id at 1, mbind at 1, ST_bind at 1.
        unfold cmpxchg_top. rewrite !ST_bind_assoc, (rdl_bind p _ _ _ _ (lookup_insert_eq s p _)). cbn [lq_top with_bottom]. rewrite Z.eqb_refl.
        rewrite ST_bind_assoc, (wrl_bind p _ _ _ _ (lookup_insert_eq s p _)), insert_insert_eq, ST_ret_bind, Z.eqb_refl. cbn [negb].
        rewrite (wrl_bind p _ _ _ _ (lookup_insert_eq s p _)), insert_insert_eq. eexists. split; [done|]. simpl in *.
        rewrite Hu by lia. split; simpl; try done; try lia. exists (LvArr (Some d) (lq_cur q)), d. split_and!; [done..|]. intros k w Hk. done.
  - unfold lvq_steal. rewrite p_null. cbn [orb negb]. rewrite !(rdl_bind p _ _ _ _ Hq). destruct l as [|v l]; simpl in *.
    + rewrite s64_small by (unfold two31, two63 in *; lia). rewrite (proj2 (Z.leb_le _ 0)) by lia. exists q. by rewrite insert_id.
    + rewrite s64_small by (unfold two31, two63 in *; lia). rewrite (proj2 (Z.leb_gt _ 0)) by lia.
      assert (d !! Z.to_nat (lq_top q mod lv_arr_size (LvArr (Some d) (lq_cur q))) = Some v) as Hv.
      { rewrite Hsz. replace (lq_top q) with (lq_top q + Z.of_nat 0) by lia. by apply Hh. }
      rewrite (ST_bind_run _ _ _ _ _ (get_run p s q (lq_cur q) _ d _ v Hq Ha eq_refl Hv)). unfold modifies, id at 1, mbind at 1, ST_bind at 1.
      unfold cmpxchg_top. rewrite !ST_bind_assoc, (rdl_bind p _ _ _ _ Hq), Z.eqb_refl, ST_bind_assoc, (wrl_bind p _ _ _ _ Hq), ST_ret_bind, Z.eqb_refl.
      simpl. eexists. split; [done|]. rewrite Hu by lia. split; simpl; try done; try lia. exists (LvArr (Some d) (lq_cur q)), d. split_and!; [done..|].
      by apply (holds_drop d (lq_cur q) (lq_top q) (v :: l)).
Qed.
End ops.

(** ** A concrete queue *)
Definition ex_mem (o : Z) : list Z := replicate (Z.to_nat (LV_ARR_BASESZ * 2 ^ o)) 0.
Definition ex_lvq (d : list Z) (top bottom : Z) : lv_queue :=
  LvQueue 1 top bottom (LvArr (Some (ex_mem 0)) 0 :: LvArr (Some d) 1 :: ((λ i, LvArr None i) <$> [2; 3; 4; 5; 6; 7; 8; 9])).

(** Both processors get the same view: a queue with the one element 7. *)
Definition ex_lv : gmap Z lv_queue := <[500 := ex_lvq (<[1%nat := 7]> (ex_mem 1)) 5 6]> ∅.

Lemma ex_lvq_ok : lvq_ok (ex_lvq (<[1%nat := 7]> (ex_mem 1)) 5 6) [7].
Proof.
  split; simpl; try done.
  - intros i a. do 10 (destruct i as [|i]; [by intros [= <-]|]). done.
  - intros i a d. do 10 (destruct i as [|i]; [by intros [= <-] [= <-]|]). done.
  - eexists _, _. split_and!; [done..|]. intros [|k] v; [by intros [= <-]|done].
Qed.

Lemma lvq_push_correct_witness :
  ∃ r q', lvq_push 512 (Some (ex_mem 2)) 500 9 ex_lv = Some (r, <[500 := q']> ex_lv).
Proof.
  destruct (lvq_push_correct 500 ltac:(done) 512 (Some (ex_mem 2)) ex_lv _ [7] 9 eq_refl ex_lvq_ok ltac:(lia) ltac:(done))
    as (r & q' & Hr & _); [intros d [= <-]; reflexivity|]. exists r, q'. exact Hr.
Defined.

Lemma lvq_take_correct_witness : ∃ q', lvq_pop id 500 true ex_lv = Some ((0, 7), <[500 := q']> ex_lv).
Proof.
  destruct (lvq_take_correct 500 ltac:(done) ex_lv _ [7] eq_refl ex_lvq_ok) as [(q' & Hr & _) _]. exists q'. exact Hr.
Defined.

(** A pop that loses its race for the last element leaves [bottom] one below
    [top]: the next pushed value is never found again.  The thief has read
    [bottom] before the pop and performs its [cmpxchg] during it. *)
Definition ex_thief (s : gmap Z lv_queue) : gmap Z lv_queue :=
  match cmpxchg_top 500 5 6 s with Some (_, s') => s' | None => s end.

Example lvq_lost_push :
  match lvq_pop ex_thief 500 true ex_lv with
  | Some (r, s1) => r = (- EAGAIN, 0) ∧
      match lvq_push 512 (Some (ex_mem 2)) 500 9 s1 with
      | Some (r2, s2) => r2 = 0 ∧ result (lvq_steal id 500 true s2) = Some (- ENOENT, 0)
      | None => False
      end
  | None => False
  end.
Proof. vm_compute. by repeat split. Qed.
