(* ===== verification/Bump.v ===== *)
(** * The bump allocator: [lib/alloc/bump.bpf.c], [include/lib/alloc/bump.h]

    Memory for the lifetime of the program, carved from blocks of
    [max_contig_bytes]; a block starts with a link to the previous one.  The
    blocks that are allocated from the arena are a map from their address to
    the number of pages and the link.  What the kernel's
    [bpf_arena_alloc_pages] returns is an argument.  A critical section is one
    transition; [bump_alloc_internal] drops the lock while it allocates a
    block, and [env] is what other CPUs do then.  The address sanitizer's
    shadow memory is not modelled: it does not influence the allocator. *)

From S2P Require Import Prelude.

Definition PAGE_SIZE : Z := 4096.
Definition ARENA_MAX_MEMORY : Z := Z.shiftl 1 20.
Definition ASAN_SHADOW_SHIFT : Z := 3.
(** [sizeof(struct bump_ll)] *)
Definition sizeof_bump_ll : Z := 8.

(** [struct bump] *)
Record bump : Type := Bump {
  bu_max_contig_bytes : Z;
  bu_memory : Z;
  bu_off : Z;
  bu_lim_memusage : Z;
  bu_cur_memusage : Z;
}.

Record bump_state : Type := BumpState {
  bs_bump : bump;
  bs_blocks : gmap Z (Z * Z);
}.

Abbreviation UM X := (ST bump_state X).

(** The macro [round_up], on [u64]. *)
Definition round_up (a b : Z) : Z := u64 (u64 (a + b - 1) / b * b).

Definition get_bump : UM bump := gets bs_bump.
Definition set_bump (f : bump → bump) : UM unit :=
  modifies (λ s, BumpState (f (bs_bump s)) (bs_blocks s)).

(** [bpf_arena_alloc_pages] returning [memory], and [bpf_arena_free_pages]. *)
Definition alloc_block (memory pages : Z) : UM Z := λ s,
  Some (memory, if memory =? NULL then s else BumpState (bs_bump s) (<[memory := (pages, 0)]> (bs_blocks s))).
Definition free_block (p pages : Z) : UM unit := λ s,
  match bs_blocks s !! p with
  | Some (n, _) => if n =? pages then Some (tt, BumpState (bs_bump s) (delete p (bs_blocks s))) else None
  | None => None
  end.

(** [ll->next] *)
Definition rd_next (ll : Z) : UM Z := λ s,
  match bs_blocks s !! ll with Some (_, n) => Some (n, s) | None => None end.
Definition wr_next (ll next : Z) : UM unit := λ s,
  match bs_blocks s !! ll with
  | Some (pages, _) => Some (tt, BumpState (bs_bump s) (<[ll := (pages, next)]> (bs_blocks s)))
  | None => None
  end.

(** The end of the function: hand out [bytes] at [addr + padding]. *)
Definition bump_take (addr padding alloc_bytes : Z) : UM Z :=
  let ptr := u64 (addr + padding) in
  set_bump (λ b, Bump (bu_max_contig_bytes b) (bu_memory b) (u64 (bu_off b + alloc_bytes))
                   (bu_lim_memusage b) (bu_cur_memusage b));;
  mret ptr.

Definition bump_alloc_internal (env : bump_state → bump_state) (memory bytes alignment : Z) : UM Z :=
  let alignment := round_up alignment (Z.shiftl 1 ASAN_SHADOW_SHIFT) in
  b ← get_bump;
  let addr := u64 (bu_memory b + bu_off b) in
  let padding := u64 (round_up addr alignment - addr) in
  let alloc_bytes := u64 (bytes + padding) in
  if bu_max_contig_bytes b <? alloc_bytes then mret NULL else
  if bu_max_contig_bytes b <? u64 (bu_off b + alloc_bytes) then
    if bu_lim_memusage b <? u64 (bu_cur_memusage b + bu_max_contig_bytes b) then mret NULL else
    let old := bu_memory b in
    modifies env;;
    b ← get_bump;
    let alloc_pages := bu_max_contig_bytes b / PAGE_SIZE in
    memory ← alloc_block memory alloc_pages;
    if memory =? NULL then mret NULL else
    b ← get_bump;
    if negb (bu_memory b =? old) then free_block memory alloc_pages;; mret NULL else
    wr_next memory old;;
    let addr := u64 (memory + sizeof_bump_ll) in
    let padding := u64 (round_up addr alignment - addr) in
    let alloc_bytes := u64 (bytes + padding) in
    set_bump (λ b, Bump (bu_max_contig_bytes b) memory sizeof_bump_ll (bu_lim_memusage b)
                     (u64 (bu_cur_memusage b + bu_max_contig_bytes b)));;
    bump_take addr padding alloc_bytes
  else bump_take addr padding alloc_bytes.

Fixpoint bump_destroy_loop (cl : nat) (ll alloc_pages : Z) : UM unit :=
  if ll =? NULL then mret tt else
  match cl with
  | O => mret tt
  | S cl =>
      llnext ← rd_next ll;
      free_block ll alloc_pages;;
      bump_destroy_loop cl llnext alloc_pages
  end.
(** The loop over the bytes of [bump] clears the whole struct. *)
Definition bump_destroy (cl : nat) : UM Z :=
  b ← get_bump;
  bump_destroy_loop cl (bu_memory b) (bu_max_contig_bytes b / PAGE_SIZE);;
  set_bump (λ _, Bump 0 0 0 0 0);;
  mret 0.

Definition bump_init (memory alloc_pages : Z) : UM Z :=
  let max_bytes := u64 (alloc_pages * PAGE_SIZE) in
  memory ← alloc_block memory alloc_pages;
  if memory =? NULL then mret (- ENOMEM) else
  wr_next memory NULL;;
  set_bump (λ _, Bump max_bytes memory sizeof_bump_ll ARENA_MAX_MEMORY max_bytes);;
  mret 0.

Definition bump_memlimit (lim_memusage : Z) : UM Z :=
  b ← get_bump;
  if ARENA_MAX_MEMORY <? lim_memusage then mret (- EINVAL) else
  if negb (lim_memusage mod PAGE_SIZE =? 0) then mret (- EINVAL) else
  if lim_memusage <? bu_cur_memusage b then mret (- EINVAL) else
  set_bump (λ b, Bump (bu_max_contig_bytes b) (bu_memory b) (bu_off b) lim_memusage (bu_cur_memusage b));;
  mret 0.
