(* ===== verification/BumpCorrect.v ===== *)
(** * The bump allocator: theorems

    The allocations handed out are aligned, lie inside the blocks behind the
    link, and are pairwise disjoint. *)

From S2P Require Import Prelude Bump.

(** ** Rounding *)
Lemma round_up_spec a b :
  0 <= a → 0 < b → a + b < two64 →
  round_up a b mod b = 0 ∧ a <= round_up a b < a + b.
Proof.
  intros Ha Hb Hab. unfold round_up. rewrite (u64_small (a + b - 1)) by (unfold is_u64; lia).
  pose proof (Z.div_mod (a + b - 1) b ltac:(lia)) as E. pose proof (Z.mod_pos_bound (a + b - 1) b Hb) as Hm.
  rewrite u64_small by (unfold is_u64; nia). rewrite Z.mod_mul by lia. nia.
Qed.

(** ** The invariant *)

(** [bytes] from [p] and [n] from [q] do not overlap. *)
Definition apart (x y : Z * Z) : Prop := x.1 + x.2 <= y.1 ∨ y.1 + y.2 <= x.1.

(** The blocks [bl], the current one first, are linked in the store. *)
Fixpoint chain (m : gmap Z (Z * Z)) (pages : Z) (bl : list Z) : Prop :=
  match bl with
  | [] => True
  | b :: bl => b ≠ NULL ∧ m !! b = Some (pages, default NULL (head bl)) ∧ b ∉ bl ∧ chain m pages bl
  end.

(** An allocation lies behind the link of a block, and below the offset in
    the current one. *)
Definition inside (u : bump) (bl : list Z) (x : Z * Z) : Prop :=
  0 <= x.2 ∧ ∃ b, b ∈ bl ∧ b + sizeof_bump_ll <= x.1 ∧ x.1 + x.2 <= b + bu_max_contig_bytes u ∧
    (b = bu_memory u → x.1 + x.2 <= b + bu_off u).

Record bump_ok (s : bump_state) (bl : list Z) (al : list (Z * Z)) : Prop := BumpOk {
  bk_max : 0 < bu_max_contig_bytes (bs_bump s);
  bk_chain : chain (bs_blocks s) (bu_max_contig_bytes (bs_bump s) / PAGE_SIZE) bl;
  bk_head : head bl = Some (bu_memory (bs_bump s));
  bk_range : Forall (λ b, 0 < b ∧ b + 4 * bu_max_contig_bytes (bs_bump s) < two64) bl;
  bk_apart : ∀ b c, b ∈ bl → c ∈ bl → b ≠ c → apart (b, bu_max_contig_bytes (bs_bump s)) (c, bu_max_contig_bytes (bs_bump s));
  bk_off : sizeof_bump_ll <= bu_off (bs_bump s) <= bu_max_contig_bytes (bs_bump s);
  bk_use : bu_cur_memusage (bs_bump s) = bu_max_contig_bytes (bs_bump s) * Z.of_nat (length bl) ∧
    bu_cur_memusage (bs_bump s) + bu_max_contig_bytes (bs_bump s) < two64;
  bk_inside : Forall (inside (bs_bump s) bl) al;
  bk_disjoint : ∀ i j x y, al !! i = Some x → al !! j = Some y → i ≠ j → apart x y;
}.

Lemma ok_current s bl al : bump_ok s bl al → bu_memory (bs_bump s) ∈ bl ∧ 0 < bu_memory (bs_bump s) ∧
  bu_memory (bs_bump s) + 4 * bu_max_contig_bytes (bs_bump s) < two64.
Proof.
  intros Hok. pose proof (bk_head _ _ _ Hok) as Hh. destruct bl as [|b bl]; [done|]. injection Hh as <-.
  pose proof (bk_range _ _ _ Hok) as [? _]%Forall_cons. split; [left|done].
Qed.

(** Adding an allocation apart from all others. *)
Lemma disjoint_cons (x : Z * Z) al :
  (∀ y, y ∈ al → apart x y) → (∀ i j y z, al !! i = Some y → al !! j = Some z → i ≠ j → apart y z) →
  ∀ i j y z, (x :: al) !! i = Some y → (x :: al) !! j = Some z → i ≠ j → apart y z.
Proof.
  intros Hx Hal [|i] [|j] y z; simpl; try done.
  - intros [= <-] Hz _. apply Hx. by eapply list_elem_of_lookup_2.
  - intros Hy [= <-] _. assert (apart x y) as [?|?] by (apply Hx; by eapply list_elem_of_lookup_2); [by right|by left].
  - intros Hy Hz Hij. eapply Hal; eauto.
Qed.

(** ** Taking from the current block *)
Lemma take_spec u m bl al bytes a :
  bump_ok (BumpState u m) bl al → 0 <= bytes → 0 < a <= bu_max_contig_bytes u → bytes <= bu_max_contig_bytes u →
  u64 (bu_off u + u64 (bytes + u64 (round_up (u64 (bu_memory u + bu_off u)) a - u64 (bu_memory u + bu_off u)))) <= bu_max_contig_bytes u →
  ∃ p s', bump_take (u64 (bu_memory u + bu_off u)) (u64 (round_up (u64 (bu_memory u + bu_off u)) a - u64 (bu_memory u + bu_off u)))
      (u64 (bytes + u64 (round_up (u64 (bu_memory u + bu_off u)) a - u64 (bu_memory u + bu_off u)))) (BumpState u m) = Some (p, s') ∧
    p ≠ NULL ∧ p mod a = 0 ∧ bump_ok s' bl ((p, bytes) :: al) ∧ bu_lim_memusage (bs_bump s') = bu_lim_memusage u ∧
    bu_cur_memusage (bs_bump s') = bu_cur_memusage u.
Proof.
  intros Hok Hb Ha Hby Hfit. destruct (ok_current _ _ _ Hok) as (Hin & H0 & Hlim).
  pose proof (bk_off _ _ _ Hok) as Hoff. pose proof (bk_max _ _ _ Hok) as HM. unfold sizeof_bump_ll in *. simpl in *.
  rewrite (u64_small (bu_memory u + bu_off u)) in * by (unfold is_u64; lia). set (addr := bu_memory u + bu_off u) in *.
  destruct (round_up_spec addr a ltac:(lia) ltac:(lia) ltac:(lia)) as [Hmod Hup].
  rewrite (u64_small (round_up addr a - addr)) in * by (unfold is_u64; lia). set (pad := round_up addr a - addr) in *.
  rewrite (u64_small (bytes + pad)) in * by (unfold is_u64; lia). rewrite (u64_small (bu_off u + _)) in Hfit by (unfold is_u64; lia).
  unfold bump_take. rewrite (u64_small (addr + pad)) by (unfold is_u64; lia).
  eexists _, _. split; [done|]. assert (addr + pad = round_up addr a) as -> by lia. split_and!; [lia|done| |done|done]. simpl.
  rewrite (u64_small (bu_off u + _)) by (unfold is_u64; lia). destruct Hok as [K1 K2 K3 K4 K5 K6 K7 K8 K9]. simpl in *.
  split; simpl; try done; [unfold sizeof_bump_ll; lia| |].
  - constructor.
    + split; [done|]. exists (bu_memory u). unfold sizeof_bump_ll. simpl. split_and!; [done|lia..].
    + eapply Forall_impl; [exact K8|]. intros x (Hx & b & Hbl & H1 & H2 & H3). split; [done|]. exists b. simpl. split_and!; [done..|].
      intros E. specialize (H3 E). lia.
  - apply disjoint_cons; [|done]. intros y Hy. rewrite Forall_forall in K8. destruct (K8 y Hy) as (Hy0 & b & Hbl & H1 & H2 & H3).
    unfold apart. simpl. destruct (decide (b = bu_memory u)) as [E|Hne]; [right; specialize (H3 E); lia|].
    destruct (K5 b (bu_memory u) Hbl Hin Hne) as [H|H]; simpl in H; unfold sizeof_bump_ll in *; lia.
Qed.

(** ** A new block *)

(** What the kernel promises of the pages it returns: not in use by any block. *)
Definition fresh_block (M memory : Z) (bl : list Z) : Prop :=
  memory = NULL ∨ 0 < memory ∧ memory + 4 * M < two64 ∧ ∀ b, b ∈ bl → b ≠ memory ∧ apart (b, M) (memory, M).

Lemma chain_insert m pages bl b x : b ∉ bl → chain m pages bl → chain (<[b := x]> m) pages bl.
Proof.
  induction bl as [|c bl IH]; simpl; [done|]. intros [Hne Hni]%not_elem_of_cons (H1 & H2 & H3 & H4).
  split_and!; [done| |done|auto]. by rewrite lookup_insert_ne.
Qed.

Lemma chain_delete m pages bl b : b ∉ bl → chain m pages bl → chain (delete b m) pages bl.
Proof.
  induction bl as [|c bl IH]; simpl; [done|]. intros [Hne Hni]%not_elem_of_cons (H1 & H2 & H3 & H4).
  split_and!; [done| |done|auto]. by rewrite lookup_delete_ne.
Qed.

Lemma block_ok u m bl al memory :
  bump_ok (BumpState u m) bl al → fresh_block (bu_max_contig_bytes u) memory bl → memory ≠ NULL →
  sizeof_bump_ll <= bu_max_contig_bytes u →
  bu_cur_memusage u + 2 * bu_max_contig_bytes u < two64 →
  bump_ok (BumpState (Bump (bu_max_contig_bytes u) memory sizeof_bump_ll (bu_lim_memusage u)
      (u64 (bu_cur_memusage u + bu_max_contig_bytes u)))
    (<[memory := (bu_max_contig_bytes u / PAGE_SIZE, bu_memory u)]> m)) (memory :: bl) al.
Proof.
  intros Hok [->|(Hm0 & Hm & Hfr)] Hne Hll Hlim; [done|]. destruct (ok_current _ _ _ Hok) as (Hin & H0 & _).
  assert (memory ∉ bl) as Hni by (intros Hi; by destruct (Hfr _ Hi)). destruct Hok as [K1 K2 K3 K4 K5 K6 K7 K8 K9]. simpl in *.
  assert (u64 (bu_cur_memusage u + bu_max_contig_bytes u) = bu_cur_memusage u + bu_max_contig_bytes u) as Eu
    by (apply u64_small; unfold is_u64; nia).
  split; simpl; try done.
  - rewrite lookup_insert_eq, K3. split_and!; [done..|by apply chain_insert].
  - by constructor.
  - intros b c [->|Hb]%elem_of_cons [->|Hc]%elem_of_cons Hbc; [done| |by apply Hfr|by apply K5].
    destruct (Hfr c Hc) as [_ [?|?]]; [by right|by left].
  - rewrite Eu. lia.
  - eapply Forall_impl; [exact K8|]. intros x (Hx & b & Hbl & H1 & H2 & _). split; [done|]. exists b. simpl. split_and!; [by right|done|done|].
    intros ->. done.
Qed.

(** Changes of the block map outside the blocks. *)
Lemma ok_frame u m bl al memory x :
  bump_ok (BumpState u m) bl al → memory ∉ bl → bump_ok (BumpState u (delete memory (<[memory := x]> m))) bl al.
Proof.
  intros [K1 K2 K3 K4 K5 K6 K7 K8 K9] Hni. split; try done. simpl in *. by apply chain_delete, chain_insert.
Qed.

(** The path through a new block, the lock having been dropped. *)
Lemma grow_spec u m bl al memory bytes a :
  bump_ok (BumpState u m) bl al → fresh_block (bu_max_contig_bytes u) memory bl → memory ≠ NULL →
  0 <= bytes → 0 < a → bytes + a + sizeof_bump_ll <= bu_max_contig_bytes u →
  bu_cur_memusage u + 2 * bu_max_contig_bytes u < two64 →
  ∃ p s', (wr_next memory (bu_memory u);;
      set_bump (λ b, Bump (bu_max_contig_bytes b) memory sizeof_bump_ll (bu_lim_memusage b)
                       (u64 (bu_cur_memusage b + bu_max_contig_bytes b)));;
      bump_take (u64 (memory + sizeof_bump_ll)) (u64 (round_up (u64 (memory + sizeof_bump_ll)) a - u64 (memory + sizeof_bump_ll)))
        (u64 (bytes + u64 (round_up (u64 (memory + sizeof_bump_ll)) a - u64 (memory + sizeof_bump_ll)))))
      (BumpState u (<[memory := (bu_max_contig_bytes u / PAGE_SIZE, 0)]> m)) = Some (p, s') ∧
    p ≠ NULL ∧ p mod a = 0 ∧ bump_ok s' (memory :: bl) ((p, bytes) :: al).
Proof.
  intros Hok Hfr Hne Hb Ha Hfit Hlim. pose proof (block_ok _ _ _ _ _ Hok Hfr Hne ltac:(lia) Hlim) as Hok1.
  destruct Hfr as [->|(Hm0 & Hm & _)]; [done|]. unfold sizeof_bump_ll in *.
  assert (u64 (memory + 8) = memory + 8) as E8 by (apply u64_small; unfold is_u64; lia).
  destruct (round_up_spec (memory + 8) a ltac:(lia) ltac:(lia) ltac:(lia)) as [_ Hup].
  destruct (take_spec _ _ _ _ bytes a Hok1) as (p & s' & Hrun & H1 & H2 & H3 & _); simpl; try lia.
  { rewrite E8, (u64_small (round_up _ _ - _)), (u64_small (bytes + _)), u64_small by (unfold is_u64; lia). lia. }
  simpl in Hrun. exists p, s'. split_and!; [|done..].
  unfold wr_next, mbind at 1, ST_bind at 1. simpl. rewrite lookup_insert_eq. rewrite insert_insert_eq. exact Hrun.
Qed.

(** ** Claims *)

(** C29: An allocation whose size with its alignment and a link fits a block returns NULL or a pointer of the requested alignment to memory inside one block, behind the link, that overlaps no allocation handed out before, by any CPU, also when the lock is dropped to get a new block and other CPUs allocate in the meantime. It returns NULL only when the memory limit would be exceeded, the kernel has no pages, or another CPU installed a block first; then the block just obtained is given back. *)
Theorem bump_alloc_correct env memory s bl al bl1 al1 bytes alignment :
  bump_ok s bl al → bump_ok (env s) bl1 al1 → bu_max_contig_bytes (bs_bump (env s)) = bu_max_contig_bytes (bs_bump s) →
  fresh_block (bu_max_contig_bytes (bs_bump s)) memory bl1 →
  bu_cur_memusage (bs_bump (env s)) + 2 * bu_max_contig_bytes (bs_bump s) < two64 →
  0 <= bytes → 0 < alignment < two63 →
  bytes + round_up alignment 8 + sizeof_bump_ll <= bu_max_contig_bytes (bs_bump s) →
  ∃ p s', bump_alloc_internal env memory bytes alignment s = Some (p, s') ∧
    (p ≠ NULL ∧ p mod round_up alignment 8 = 0 ∧
       (bump_ok s' bl ((p, bytes) :: al) ∨ memory ≠ NULL ∧ bump_ok s' (memory :: bl1) ((p, bytes) :: al1)) ∨
     p = NULL ∧ s' = s ∧ bu_lim_memusage (bs_bump s) < bu_cur_memusage (bs_bump s) + bu_max_contig_bytes (bs_bump s) ∨
     p = NULL ∧ bump_ok s' bl1 al1 ∧ (memory = NULL ∨ bu_memory (bs_bump (env s)) ≠ bu_memory (bs_bump s))).
Proof.
  intros Hok Hok1 EM Hfr Hroom Hb Hal Hfit. destruct s as [u m]. destruct (env (BumpState u m)) as [u1 m1] eqn:Eenv. simpl in *.
  destruct (ok_current _ _ _ Hok) as (_ & H0 & Hlim). pose proof (bk_off _ _ _ Hok) as Hoff. pose proof (bk_use _ _ _ Hok) as [_ Huse].
  pose proof (bk_max _ _ _ Hok). simpl in *. unfold bump_alloc_internal. change (Z.shiftl 1 ASAN_SHADOW_SHIFT) with 8.
  assert (0 < round_up alignment 8) as Ha by (pose proof (round_up_spec alignment 8); unfold two63, two64 in *; lia).
  set (a := round_up alignment 8) in *. clearbody a. unfold get_bump, gets at 1, mbind at 1, ST_bind at 1. simpl. unfold sizeof_bump_ll in *.
  assert (u64 (bu_memory u + bu_off u) = bu_memory u + bu_off u) as Ead by (apply u64_small; unfold is_u64; lia).
  destruct (round_up_spec (bu_memory u + bu_off u) a ltac:(lia) ltac:(lia) ltac:(lia)) as [_ Hup].
  assert (u64 (bytes + u64 (round_up (u64 (bu_memory u + bu_off u)) a - u64 (bu_memory u + bu_off u))) <= bu_max_contig_bytes u) as Hn.
  { rewrite Ead, (u64_small (round_up _ _ - _)), u64_small by (unfold is_u64; lia). lia. }
  rewrite (proj2 (Z.ltb_ge _ _)) by exact Hn.
  destruct (Z.ltb_spec (bu_max_contig_bytes u) (u64 (bu_off u + u64 (bytes + u64 (round_up (u64 (bu_memory u + bu_off u)) a - u64 (bu_memory u + bu_off u)))))) as [Hfull|Hfree].
  2:{ destruct (take_spec u m bl al bytes a Hok Hb) as (p & s' & Hrun & P1 & P2 & P3 & _); [lia..|]. exists p, s'. split; [exact Hrun|]. left. auto. }
  rewrite (u64_small (bu_cur_memusage u + _)) by (unfold is_u64; pose proof (bk_use _ _ _ Hok); simpl in *; nia).
  destruct (Z.ltb_spec (bu_lim_memusage u) (bu_cur_memusage u + bu_max_contig_bytes u)).
  { eexists _, _. split; [done|]. right; left. split_and!; [done..|lia]. }
  unfold modifies at 1, mbind at 1, ST_bind at 1. cbv beta iota. rewrite Eenv. unfold mbind at 1, ST_bind at 1. cbv beta iota.
  unfold alloc_block at 1, mbind at 1, ST_bind at 1. cbv beta iota. simpl. destruct (Z.eqb_spec memory NULL) as [->|Hne].
  { eexists _, _. split; [done|]. right; right. auto. }
  unfold mbind at 1, ST_bind at 1. cbv beta iota. simpl. destruct (Z.eqb_spec (bu_memory u1) (bu_memory u)) as [E|E]; simpl.
  - destruct (grow_spec u1 m1 bl1 al1 memory bytes a Hok1) as (p & s' & Hrun & P1 & P2 & P3);
      rewrite ?EM; try done; try (unfold sizeof_bump_ll; lia). rewrite E in Hrun. eexists p, s'. split; [rewrite <-EM; exact Hrun|]. left. auto.
  - unfold free_block, mbind at 1, ST_bind at 1. simpl. rewrite lookup_insert_eq, Z.eqb_refl. eexists _, _. split; [done|]. right; right.
    split_and!; [done| |by right]. apply ok_frame; [done|]. destruct Hfr as [?|(_ & _ & Hfr)]; [done|]. intros Hi. by destruct (Hfr _ Hi).
Qed.

(** Destroying the allocator walks the list of blocks to its end and gives every block back to the arena, none twice and nothing else, and clears the allocator. *)
Theorem bump_destroy_correct cl s bl al :
  bump_ok s bl al → (length bl ≤ cl)%nat →
  ∃ s', bump_destroy cl s = Some (0, s') ∧ bs_bump s' = Bump 0 0 0 0 0 ∧
    (∀ b, b ∈ bl → bs_blocks s' !! b = None) ∧ ∀ b, b ∉ bl → bs_blocks s' !! b = bs_blocks s !! b.
Proof.
  intros Hok Hcl. destruct s as [u m]. unfold bump_destroy, get_bump, gets, mbind at 1, ST_bind at 1. simpl.
  set (pages := bu_max_contig_bytes u / PAGE_SIZE).
  assert (∀ cl bl ll m, chain m pages bl → ll = default NULL (head bl) → (length bl ≤ cl)%nat →
    ∃ m', bump_destroy_loop cl ll pages (BumpState u m) = Some (tt, BumpState u m') ∧
      (∀ b, b ∈ bl → m' !! b = None) ∧ ∀ b, b ∉ bl → m' !! b = m !! b) as Hloop.
  { clear. intros cl bl. revert cl. induction bl as [|c bl IH]; intros cl ll m Hch Hll Hcl; simpl in *.
    - subst ll. exists m. split; [by destruct cl|]. split; [by intros b ?%not_elem_of_nil|done].
    - destruct Hch as (Hc0 & Hc & Hni & Hch). subst ll. destruct cl as [|cl]; [lia|]. simpl. rewrite (proj2 (Z.eqb_neq _ _)) by done.
      unfold rd_next, mbind at 1, ST_bind at 1. simpl. rewrite Hc. unfold free_block, mbind at 1, ST_bind at 1. simpl. rewrite Hc, Z.eqb_refl.
      destruct (IH cl (default NULL (head bl)) (delete c m)) as (m' & Hrun & Hm'); [by apply chain_delete|done|lia|].
      destruct Hm' as [Hin Hout]. exists m'. split; [exact Hrun|]. split.
      + intros b [->|Hb]%elem_of_cons; [|auto]. by rewrite Hout, lookup_delete_eq.
      + intros b [Hne Hb]%not_elem_of_cons. by rewrite Hout, lookup_delete_ne. }
  destruct (Hloop cl bl (bu_memory u) m) as (m' & Hrun & Hm').
  - apply (bk_chain _ _ _ Hok).
  - pose proof (bk_head _ _ _ Hok) as Hh. simpl in Hh. by rewrite Hh.
  - done.
  - rewrite (ST_bind_run _ _ _ _ _ Hrun). eexists. split; [done|]. by split.
Qed.

(** ** A concrete allocator: one block of a page, one allocation *)
Definition ex_bump : bump_state :=
  BumpState (Bump 4096 65536 24 ARENA_MAX_MEMORY 4096) (<[65536 := (1, 0)]> ∅).

Lemma ex_bump_ok : bump_ok ex_bump [65536] [(65544, 16)].
Proof.
  split; simpl; try done.
  - split_and!; [done..|by apply not_elem_of_nil|done].
  - repeat constructor.
  - intros b c ->%list_elem_of_singleton ->%list_elem_of_singleton. done.
  - constructor; [|constructor]. split; [done|]. exists 65536. split; [left|]. done.
  - intros [|i] [|j] x y; done.
Qed.

Lemma bump_alloc_correct_witness :
  ∃ p s', bump_alloc_internal id 131072 4000 16 ex_bump = Some (p, s').
Proof.
  destruct (bump_alloc_correct id 131072 ex_bump _ _ _ _ 4000 16 ex_bump_ok ex_bump_ok eq_refl) as (p & s' & Hr & _).
  - right. split_and!; [done..|]. intros b ->%list_elem_of_singleton. split; [done|]. left. by vm_compute.
  - done.
  - lia.
  - done.
  - by vm_compute.
  - exists p, s'. exact Hr.
Defined.

Lemma bump_destroy_correct_witness : ∃ s', bump_destroy 4 ex_bump = Some (0, s') ∧ bs_bump s' = Bump 0 0 0 0 0.
Proof.
  destruct (bump_destroy_correct 4 ex_bump _ _ ex_bump_ok) as (s' & ? & ? & _); [simpl; lia|]. exists s'. split; assumption.
Defined.

(** After a new block is installed the size is not checked again: a request
    for a whole block passes the first test when the old offset needs no
    padding, and the memory returned runs past the end of the new block. *)
Example bump_overrun :
  match bump_alloc_internal id 131072 4096 8 ex_bump with
  | Some (p, s') => p = 131080 ∧ p + 4096 > 131072 + bu_max_contig_bytes (bs_bump s')
  | None => False
  end.
Proof. by vm_compute. Qed.
