(* ===== verification/Wp.v ===== *)
(** * Running computations step by step

    [wp m Q s]: from the store [s] the computation [m] does not fault, and its
    result and final store satisfy [Q].  The rules follow the monad, so a proof
    about a function walks through its code. *)

From S2P Require Import Prelude.

Definition wp {S A} (m : ST S A) (Q : A → S → Prop) (s : S) : Prop :=
  match m s with Some (a, s') => Q a s' | None => False end.

Section rules.
Context {S : Type}.
Implicit Types s : S.

Lemma wp_run {A} (m : ST S A) Q s : wp m Q s ↔ ∃ a s', m s = Some (a, s') ∧ Q a s'.
Proof. unfold wp. destruct (m s) as [[a s']|]; naive_solver. Qed.

Lemma wp_ret {A} (a : A) (Q : A → S → Prop) s : Q a s → wp (mret a) Q s.
Proof. done. Qed.

Lemma wp_bind {A B} (m : ST S A) (f : A → ST S B) Q s : wp m (λ a s', wp (f a) Q s') s → wp (m ≫= f) Q s.
Proof. unfold wp, mbind, ST_bind. by destruct (m s) as [[a s']|]. Qed.

Lemma wp_mono {A} (m : ST S A) (P Q : A → S → Prop) s : wp m P s → (∀ a s', P a s' → Q a s') → wp m Q s.
Proof. unfold wp. destruct (m s) as [[a s']|]; naive_solver. Qed.

Lemma wp_gets {A} (f : S → A) (Q : A → S → Prop) s : Q (f s) s → wp (gets f) Q s.
Proof. done. Qed.

Lemma wp_modifies (f : S → S) (Q : unit → S → Prop) s : Q tt (f s) → wp (modifies f) Q s.
Proof. done. Qed.

Lemma wp_of_option {A} (o : option A) (a : A) (Q : A → S → Prop) s : o = Some a → Q a s → wp (of_option o) Q s.
Proof. by intros ->. Qed.

(** A known run. *)
Lemma wp_eq {A} (m : ST S A) Q s a s' : m s = Some (a, s') → Q a s' → wp m Q s.
Proof. unfold wp. by intros ->. Qed.
End rules.

(** Into the first command of a sequence; then a [mret], a read of the store
    or an update of it. *)
Ltac wbind := apply wp_bind.
Ltac wstep :=
  lazymatch goal with
  | |- wp (_ ≫= _) _ _ => apply wp_bind; wstep
  | |- wp (mret _) _ _ => apply wp_ret
  | |- wp (gets _) _ _ => apply wp_gets
  | |- wp (modifies _) _ _ => apply wp_modifies
  end; cbv beta.
(** A command with the specification [H], which is kept as far as its results go. *)
Tactic Notation "wuse" constr(H) := apply wp_bind; eapply wp_mono; [apply H|].
