(* ===== verification/SdtAlloc.v ===== *)
(** * The object allocator: [lib/sdt_alloc.bpf.c], [include/lib/sdt_task_defs.h]

    [scx_alloc] hands out objects of one size.  An allocator is a radix tree
    of three levels: an index page ([struct sdt_chunk], 512 pointers) with a
    descriptor ([struct sdt_desc]) that carries its bitmap of used entries and
    the number of free ones.  Descriptors, chunks and objects are carved from
    slabs of arena pages; the pages for the tree come from a stack
    that is refilled before the lock is taken for good.

    The memory is the arena itself: 64-bit words by address, of which the
    kernel has mapped some runs of pages.  A word that was never written is
    zero, since arena pages come zeroed; an access outside the mapped pages or
    not aligned to a word is a fault.  Structs are words at their offsets, so a
    page really changes its role from a link of a reserve list to a stack entry,
    an index page or an object.

    A section under [alloc_lock] is one transition.  Where the lock is not
    held, [env k] is what other CPUs do at point [k] of the function.  A
    [kernel] says what successive calls of [bpf_arena_alloc_pages] return.  Loops over
    the levels or the words of a bitmap run to their end; the loop that clears
    an object takes the iterations [can_loop] grants. *)

From S2P Require Import Prelude Bitmap Bump.

(** ** [enum sdt_consts] *)
Definition SDT_TASK_ENTS_PER_PAGE_SHIFT : Z := 9.
Definition SDT_TASK_LEVELS : nat := 3.
Definition SDT_TASK_ENTS_PER_CHUNK : Z := 512.
Definition SDT_TASK_CHUNK_BITMAP_U64S : nat := 8.
Definition SDT_TASK_ALLOC_STACK_MIN : Z := 6.
Definition SDT_TASK_ALLOC_STACK_MAX : Z := 30.
Definition SDT_TASK_MIN_ELEM_PER_ALLOC : Z := 8.
Definition SDT_TASK_ALLOC_ATTEMPTS : nat := 32.
Definition ARENA_ALLOC_PAGES_RETRIES : nat := 64.

(** ** Structs in memory: sizes and offsets of the fields *)
Definition sizeof_sdt_desc : Z := 80.
Definition sizeof_sdt_chunk : Z := 4096.
Definition sizeof_sdt_data : Z := 16.
Definition sizeof_alloc_stack : Z := 256.
(** [struct sdt_desc] *)
Definition desc_allocated (desc i : Z) : Z := desc + 8 * i.
Definition desc_nr_free (desc : Z) : Z := desc + 64.
Definition desc_chunk (desc : Z) : Z := desc + 72.
(** [struct sdt_chunk]: the union of [descs] and [data] *)
Definition chunk_slot (chunk pos : Z) : Z := chunk + 8 * pos.
(** [struct scx_alloc_stack] *)
Definition stack_idx (stack : Z) : Z := stack.
Definition stack_ent (stack i : Z) : Z := stack + 8 + 8 * i.
Definition stack_reserve (stack : Z) : Z := stack + 248.
(** [struct sdt_data]: the word of [tid], [idx] low and [genn] high, and the link *)
Definition data_tid (data : Z) : Z := data.
Definition data_urcu_link (data : Z) : Z := data + 8.
Definition tid_idx (w : Z) : Z := s32 w.
Definition tid_genn (w : Z) : Z := s32 (Z.shiftr w 32).
Definition mk_tid (idx genn : Z) : Z := u32 idx + two32 * u32 genn.

(** ** State *)
Record sdt_pool : Type := SdtPool {
  sp_slab : Z;
  sp_reserve : Z;
  sp_elem_size : Z;
  sp_max_elems : Z;
  sp_idx : Z;
}.
Record scx_alloc_stats : Type := AllocStats {
  as_chunk_allocs : Z;
  as_data_allocs : Z;
  as_alloc_ops : Z;
  as_free_ops : Z;
  as_active_allocs : Z;
  as_arena_pages_used : Z;
  as_alloc_nomem : Z;
}.
Record scx_allocator : Type := ScxAllocator {
  sa_pool : sdt_pool;
  sa_root : Z;
}.
Record sdt_state : Type := SdtState {
  st_runs : list (Z * Z);
  st_mem : gmap Z Z;
  st_prealloc : Z;
  st_chunk_pool : sdt_pool;
  st_desc_pool : sdt_pool;
  st_allocs : gmap Z scx_allocator;
  st_stats : scx_alloc_stats;
}.

Abbreviation DM X := (ST sdt_state X).

Definition with_mem (f : gmap Z Z → gmap Z Z) (s : sdt_state) : sdt_state :=
  SdtState (st_runs s) (f (st_mem s)) (st_prealloc s) (st_chunk_pool s) (st_desc_pool s) (st_allocs s) (st_stats s).
Definition with_stats (f : scx_alloc_stats → scx_alloc_stats) (s : sdt_state) : sdt_state :=
  SdtState (st_runs s) (st_mem s) (st_prealloc s) (st_chunk_pool s) (st_desc_pool s) (st_allocs s) (f (st_stats s)).

(** ** Memory accesses *)
Definition mapped (runs : list (Z * Z)) (a : Z) : bool :=
  (a mod 8 =? 0) && existsb (λ r, (r.1 <=? a) && (a + 8 <=? r.1 + r.2)) runs.

(** The word at [a]. *)
Definition word (m : gmap Z Z) (a : Z) : Z := default 0 (m !! a).

Definition ld (a : Z) : DM Z := λ s,
  if mapped (st_runs s) a then Some (word (st_mem s) a, s) else None.
Definition st (a v : Z) : DM unit := λ s,
  if mapped (st_runs s) a then Some (tt, with_mem <[a := v]> s) else None.

(** ** Pools: the two shared ones and that of each allocator *)
Inductive pool_id : Type := DescPool | ChunkPool | DataPool (alloc : Z).

#[global] Instance pool_id_eq_dec : EqDecision pool_id.
Proof. solve_decision. Defined.

Definition pool_get (cp dp : sdt_pool) (allocs : gmap Z scx_allocator) (p : pool_id) : option sdt_pool :=
  match p with
  | DescPool => Some dp
  | ChunkPool => Some cp
  | DataPool al => sa_pool <$> allocs !! al
  end.
Definition pool_of (s : sdt_state) (p : pool_id) : option sdt_pool :=
  pool_get (st_chunk_pool s) (st_desc_pool s) (st_allocs s) p.
Definition set_pool_of (p : pool_id) (q : sdt_pool) (s : sdt_state) : sdt_state :=
  match p with
  | DescPool => SdtState (st_runs s) (st_mem s) (st_prealloc s) (st_chunk_pool s) q (st_allocs s) (st_stats s)
  | ChunkPool => SdtState (st_runs s) (st_mem s) (st_prealloc s) q (st_desc_pool s) (st_allocs s) (st_stats s)
  | DataPool al =>
      SdtState (st_runs s) (st_mem s) (st_prealloc s) (st_chunk_pool s) (st_desc_pool s)
        (alter (λ a, ScxAllocator q (sa_root a)) al (st_allocs s)) (st_stats s)
  end.
Definition get_pool (p : pool_id) : DM sdt_pool := λ s, of_option (pool_of s p) s.
Definition set_pool (p : pool_id) (q : sdt_pool) : DM unit := modifies (set_pool_of p q).

(** ** Pages from the kernel *)

(** [bpf_arena_alloc_pages] mapped [nr_pages] pages at [mem]. *)
Definition map_pages (mem nr_pages : Z) (s : sdt_state) : sdt_state :=
  SdtState ((mem, nr_pages * PAGE_SIZE) :: st_runs s) (st_mem s) (st_prealloc s) (st_chunk_pool s)
    (st_desc_pool s) (st_allocs s) (st_stats s).

(** The results of successive calls of [bpf_arena_alloc_pages], which may depend
    on what is mapped and on the number of pages. *)
Definition kernel : Type := list (Z * Z) → Z → list Z.

(** The first call that returns memory, of at most [n]. *)
Fixpoint retry_pages (n : nat) (ps : list Z) : Z :=
  match n, ps with
  | S n, p :: ps => if p =? NULL then retry_pages n ps else p
  | _, _ => NULL
  end.
Definition arena_alloc_pages_retry (ps : kernel) (nr_pages : Z) : DM Z :=
  runs ← gets st_runs;
  let mem := retry_pages ARENA_ALLOC_PAGES_RETRIES (ps runs nr_pages) in
  if mem =? NULL then mret NULL else
  modifies (map_pages mem nr_pages);;
  mret mem.

(** ** The stack of preallocated pages *)

Definition scx_alloc_stack_pop (stack : Z) : DM Z :=
  idx ← ld (stack_idx stack);
  if idx =? 0 then mret NULL else
  let idx := u64 (idx - 1) in
  st (stack_idx stack) idx;;
  ld (stack_ent stack idx).

(** The label [install]. *)
Definition stack_install (stack slab : Z) : DM Z :=
  idx ← ld (stack_idx stack);
  st (stack_ent stack idx) slab;;
  st (stack_idx stack) (u64 (idx + 1));;
  modifies (with_stats (λ t, AllocStats (as_chunk_allocs t) (as_data_allocs t) (as_alloc_ops t) (as_free_ops t)
                               (as_active_allocs t) (u64 (as_arena_pages_used t + 1)) (as_alloc_nomem t)));;
  mret (- EAGAIN).

(** Returns 0 with the lock held. *)
Definition scx_alloc_stack (env : nat → sdt_state → sdt_state) (ps : kernel) (stack : Z) : DM Z :=
  modifies (env 0%nat);;
  idx ← ld (stack_idx stack);
  if SDT_TASK_ALLOC_STACK_MIN <=? idx then mret 0 else
  reserve ← ld (stack_reserve stack);
  if negb (reserve =? NULL) then
    next ← ld reserve;
    st (stack_reserve stack) next;;
    st reserve NULL;;
    stack_install stack reserve
  else
    modifies (env 1%nat);;
    slab ← arena_alloc_pages_retry ps 1;
    if slab =? NULL then mret (- ENOMEM) else
    modifies (env 2%nat);;
    idx ← ld (stack_idx stack);
    if SDT_TASK_ALLOC_STACK_MAX <=? idx then
      reserve ← ld (stack_reserve stack);
      st slab reserve;;
      st (stack_reserve stack) slab;;
      mret (- EAGAIN)
    else stack_install stack slab.

(** Attempt [i] meets the interference [env i] and the kernel's answers [ps i]. *)
Fixpoint attempt_loop (n : nat) (i : nat) (env : nat → nat → sdt_state → sdt_state) (ps : nat → kernel)
    (stack : Z) : DM Z :=
  match n with
  | O => mret (- ENOMEM)
  | S n =>
      r ← scx_alloc_stack (env i) (ps i) stack;
      if r =? 0 then mret 0 else attempt_loop n (S i) env ps stack
  end.
Definition scx_alloc_attempt (env : nat → nat → sdt_state → sdt_state) (ps : nat → kernel) (stack : Z) : DM Z :=
  attempt_loop SDT_TASK_ALLOC_ATTEMPTS 0 env ps stack.

(** ** Carving objects from slabs *)

Definition pool_ptr (q : sdt_pool) : Z := u64 (sp_slab q + sp_elem_size q * sp_idx q).
Definition pool_at (q : sdt_pool) (slab reserve idx : Z) : sdt_pool :=
  SdtPool slab reserve (sp_elem_size q) (sp_max_elems q) idx.

Definition scx_alloc_from_pool (pool : pool_id) (stack : Z) : DM Z :=
  q ← get_pool pool;
  if PAGE_SIZE <? sp_elem_size q then mret NULL else
  (if sp_max_elems q <=? sp_idx q then
     slab ← scx_alloc_stack_pop stack;
     set_pool pool (pool_at q slab (sp_reserve q) 0)
   else mret tt);;
  q ← get_pool pool;
  set_pool pool (pool_at q (sp_slab q) (sp_reserve q) (u64 (sp_idx q + 1)));;
  mret (pool_ptr q).

Definition scx_alloc_from_pool_sleepable (env : nat → sdt_state → sdt_state) (ps : kernel) (pool : pool_id) : DM Z :=
  q ← get_pool pool;
  let max_elems := sp_max_elems q in
  let elem_size := sp_elem_size q in
  if sp_idx q <? max_elems then
    set_pool pool (pool_at q (sp_slab q) (sp_reserve q) (u64 (sp_idx q + 1)));;
    mret (pool_ptr q)
  else if negb (sp_reserve q =? NULL) then
    let slab := sp_reserve q in
    next ← ld slab;
    st slab NULL;;
    set_pool pool (pool_at q slab next 1);;
    mret slab
  else
    modifies (env 0%nat);;
    let nr_pages := u64 (u64 (max_elems * elem_size) + PAGE_SIZE - 1) / PAGE_SIZE in
    slab ← arena_alloc_pages_retry ps nr_pages;
    if slab =? NULL then mret NULL else
    modifies (env 1%nat);;
    q ← get_pool pool;
    (if max_elems <=? sp_idx q then
       set_pool pool (pool_at q slab (sp_reserve q) 0)
     else
       st slab (sp_reserve q);;
       set_pool pool (pool_at q (sp_slab q) slab (sp_idx q)));;
    q ← get_pool pool;
    set_pool pool (pool_at q (sp_slab q) (sp_reserve q) (u64 (sp_idx q + 1)));;
    mret (u64 (sp_slab q + elem_size * sp_idx q)).

(** ** The radix tree *)

Definition scx_alloc_chunk (stack : Z) : DM Z :=
  chunk ← scx_alloc_from_pool ChunkPool stack;
  desc ← scx_alloc_from_pool DescPool stack;
  st (desc_nr_free desc) SDT_TASK_ENTS_PER_CHUNK;;
  st (desc_chunk desc) chunk;;
  modifies (with_stats (λ t, AllocStats (u64 (as_chunk_allocs t + 1)) (as_data_allocs t) (as_alloc_ops t) (as_free_ops t)
                               (as_active_allocs t) (as_arena_pages_used t) (as_alloc_nomem t)));;
  mret desc.

Fixpoint find_empty_loop (n : nat) (i : Z) (desc : Z) : DM Z :=
  match n with
  | O => mret SDT_TASK_ENTS_PER_CHUNK
  | S n =>
      w ← ld (desc_allocated desc i);
      let freeslots := u64_not w in
      if freeslots =? 0 then find_empty_loop n (i + 1) desc
      else mret (i * 64 + scx_ffs freeslots)
  end.
Definition chunk_find_empty (desc : Z) : DM Z := find_empty_loop SDT_TASK_CHUNK_BITMAP_U64S 0 desc.

Definition set_idx_state (desc pos : Z) (state : bool) : DM Z :=
  if SDT_TASK_ENTS_PER_CHUNK <=? pos then mret (- EINVAL) else
  let bit := bit64 (pos mod 64) in
  w ← ld (desc_allocated desc (pos / 64));
  st (desc_allocated desc (pos / 64)) (if state then Z.lor w bit else Z.land w (u64_not bit));;
  mret 0.

(** [lv] are the descriptors and positions of the levels, the deepest first. *)
Fixpoint mark_nodes_avail (lv : list (Z * Z)) : DM Z :=
  match lv with
  | [] => mret 0
  | (desc, pos) :: lv =>
      ret ← set_idx_state desc pos false;
      if negb (ret =? 0) then mret ret else
      n ← ld (desc_nr_free desc);
      st (desc_nr_free desc) (u64 (n + 1));;
      if 1 <? u64 (n + 1) then mret 0 else mark_nodes_avail lv
  end.

(** The second loop of [desc_find_empty]. *)
Fixpoint mark_nodes_used (lv : list (Z * Z)) : DM unit :=
  match lv with
  | [] => mret tt
  | (desc, pos) :: lv =>
      ret ← set_idx_state desc pos true;
      if negb (ret =? 0) then mret tt else
      n ← ld (desc_nr_free desc);
      st (desc_nr_free desc) (u64 (n - 1));;
      if 0 <? u64 (n - 1) then mret tt else mark_nodes_used lv
  end.

(** The first loop of [desc_find_empty]: [n] levels below [desc] remain.
    [None] is the early return of [NULL]. *)
Fixpoint descend_empty (n : nat) (desc idx stack : Z) (lv : list (Z * Z)) : DM (option (Z * Z * list (Z * Z))) :=
  pos ← chunk_find_empty desc;
  if SDT_TASK_ENTS_PER_CHUNK <=? pos then mret None else
  let idx := Z.lor (u64 (Z.shiftl idx SDT_TASK_ENTS_PER_PAGE_SHIFT)) pos in
  let lv := (desc, pos) :: lv in
  match n with
  | O => mret (Some (desc, idx, lv))
  | S n =>
      chunk ← ld (desc_chunk desc);
      child ← ld (chunk_slot chunk pos);
      child ← (if child =? NULL then
                 d ← scx_alloc_chunk stack;
                 st (chunk_slot chunk pos) d;;
                 mret d
               else mret child);
      descend_empty n child idx stack lv
  end.

Definition desc_find_empty (desc stack : Z) : DM (option (Z * Z)) :=
  r ← descend_empty (SDT_TASK_LEVELS - 1) desc 0 stack [];
  match r with
  | None => mret None
  | Some (desc, idx, lv) => mark_nodes_used lv;; mret (Some (desc, idx))
  end.

(** ** Freeing *)

Definition get_alloc (al : Z) : DM scx_allocator := λ s, of_option (st_allocs s !! al) s.

(** [sdt_tailer] *)
Definition sdt_tailer (a : scx_allocator) (payload : Z) : Z :=
  u64 (payload + sp_elem_size (sa_pool a) - sizeof_sdt_data).

(** The walk to the leaf: [n] levels below [desc] remain. *)
Fixpoint free_walk (n : nat) (desc idx : Z) (lv : list (Z * Z)) : DM (option (Z * list (Z * Z))) :=
  let shift := Z.of_nat n * SDT_TASK_ENTS_PER_PAGE_SHIFT in
  let pos := Z.land (Z.shiftr idx shift) (SDT_TASK_ENTS_PER_CHUNK - 1) in
  let lv := (desc, pos) :: lv in
  match n with
  | O => mret (Some (desc, lv))
  | S n =>
      chunk ← ld (desc_chunk desc);
      child ← ld (chunk_slot chunk pos);
      if child =? NULL then mret None else free_walk n child idx lv
  end.

Fixpoint zero_words (cl : nat) (i n data : Z) : DM unit :=
  if i <? n then
    match cl with
    | O => mret tt
    | S cl => st (data + 8 * i) 0;; zero_words cl (i + 1) n data
    end
  else mret tt.

(** Recycling of the object in a slot: a new generation, no index, no content. *)
Definition recycle (cl : nat) (a : scx_allocator) (data : Z) : DM unit :=
  let tailer := sdt_tailer a data in
  w ← ld (data_tid tailer);
  st (data_tid tailer) (mk_tid 0 (tid_genn w + 1));;
  st (data_urcu_link tailer) 0;;
  zero_words cl 0 ((sp_elem_size (sa_pool a) - sizeof_sdt_data) / 8) data.

Definition scx_alloc_free_idx (cl : nat) (al idx : Z) : DM Z :=
  if al =? NULL then mret 0 else
  a ← get_alloc al;
  if sa_root a =? NULL then mret (- EINVAL) else
  r ← free_walk (SDT_TASK_LEVELS - 1) (sa_root a) idx [];
  match r with
  | None => mret (- EINVAL)
  | Some (desc, lv) =>
      chunk ← ld (desc_chunk desc);
      let pos := Z.land idx (SDT_TASK_ENTS_PER_CHUNK - 1) in
      data ← ld (chunk_slot chunk pos);
      (if data =? NULL then mret tt else recycle cl a data);;
      ret ← mark_nodes_avail lv;
      if negb (ret =? 0) then mret ret else
      modifies (with_stats (λ t, AllocStats (as_chunk_allocs t) (as_data_allocs t) (as_alloc_ops t) (u64 (as_free_ops t + 1))
                                   (u64 (as_active_allocs t - 1)) (as_arena_pages_used t) (as_alloc_nomem t)));;
      mret 0
  end.

(** [scx_free] of [include/lib/sdt_alloc.h]. *)
Definition sdt_free (cl : nat) (al payload : Z) : DM Z :=
  a ← get_alloc al;
  w ← ld (data_tid (sdt_tailer a payload));
  scx_alloc_free_idx cl al (u64 (tid_idx w)).

(** ** Allocation *)

Definition count_nomem : DM unit :=
  modifies (with_stats (λ t, AllocStats (as_chunk_allocs t) (as_data_allocs t) (as_alloc_ops t) (as_free_ops t)
                               (as_active_allocs t) (as_arena_pages_used t) (u64 (as_alloc_nomem t + 1)))).

(** [scx_alloc_finish]: the counters under the lock, then the index. *)
Definition finish_stats : DM unit :=
  modifies (with_stats (λ t, AllocStats (as_chunk_allocs t) (u64 (as_data_allocs t + 1)) (u64 (as_alloc_ops t + 1)) (as_free_ops t)
                               (u64 (as_active_allocs t + 1)) (as_arena_pages_used t) (as_alloc_nomem t))).
Definition set_tid_idx (al data idx : Z) : DM unit :=
  a ← get_alloc al;
  w ← ld (data_tid (sdt_tailer a data));
  st (data_tid (sdt_tailer a data)) (mk_tid idx (tid_genn w)).
Definition scx_alloc_finish (env : sdt_state → sdt_state) (al data idx : Z) : DM unit :=
  finish_stats;; modifies env;; set_tid_idx al data idx.

(** The interference an allocation meets, by the point where it is. *)
Record alloc_env : Type := AllocEnv {
  ae_attempt : nat → nat → sdt_state → sdt_state;
  ae_reserved : sdt_state → sdt_state;
  ae_pool : nat → sdt_state → sdt_state;
  ae_failed : sdt_state → sdt_state;
  ae_carved : sdt_state → sdt_state;
  ae_stored : sdt_state → sdt_state;
  ae_counted : sdt_state → sdt_state;
}.

Definition scx_alloc_internal (env : alloc_env) (pss : nat → kernel) (ps : kernel) (cl : nat) (al : Z) : DM Z :=
  stack ← gets st_prealloc;
  if al =? NULL then mret NULL else
  a ← get_alloc al;
  if sa_root a =? NULL then mret NULL else
  ret ← scx_alloc_attempt (ae_attempt env) pss stack;
  if negb (ret =? 0) then count_nomem;; mret NULL else
  a ← get_alloc al;
  r ← desc_find_empty (sa_root a) stack;
  modifies (ae_reserved env);;
  match r with
  | None => mret NULL
  | Some (desc, idx) =>
      chunk ← ld (desc_chunk desc);
      let pos := Z.land idx (SDT_TASK_ENTS_PER_CHUNK - 1) in
      data ← ld (chunk_slot chunk pos);
      data ← (if data =? NULL then scx_alloc_from_pool_sleepable (ae_pool env) ps (DataPool al) else mret data);
      if data =? NULL then
        modifies (ae_failed env);;
        scx_alloc_free_idx cl al idx;;
        count_nomem;;
        mret NULL
      else
        modifies (ae_carved env);;
        st (chunk_slot chunk pos) data;;
        modifies (ae_stored env);;
        scx_alloc_finish (ae_counted env) al data idx;;
        mret data
  end.

(** ** Initialization *)

(** The pool of the result, or the error. *)
Definition pool_set_size (q : sdt_pool) (data_size nr_pages : Z) : sdt_pool + Z :=
  if negb (data_size mod 8 =? 0) then inr (- EINVAL) else
  if nr_pages =? 0 then inr (- EINVAL) else
  let max_elems := u64 (PAGE_SIZE * nr_pages) / data_size in
  inl (SdtPool (sp_slab q) NULL data_size max_elems max_elems).

Definition set_prealloc (p : Z) (s : sdt_state) : sdt_state :=
  SdtState (st_runs s) (st_mem s) p (st_chunk_pool s) (st_desc_pool s) (st_allocs s) (st_stats s).
Definition set_root (al r : Z) (s : sdt_state) : sdt_state :=
  SdtState (st_runs s) (st_mem s) (st_prealloc s) (st_chunk_pool s) (st_desc_pool s)
    (alter (λ a, ScxAllocator (sa_pool a) r) al (st_allocs s)) (st_stats s).

(** The first initialization sets up what the allocators share. *)
Definition init_shared (ps : kernel) : DM Z :=
  p ← gets st_prealloc;
  if negb (p =? NULL) then mret 0 else
  q ← get_pool ChunkPool;
  match pool_set_size q sizeof_sdt_chunk 1 with
  | inr e => mret e
  | inl q =>
      set_pool ChunkPool q;;
      q ← get_pool DescPool;
      match pool_set_size q sizeof_sdt_desc 1 with
      | inr e => mret e
      | inl q =>
          set_pool DescPool q;;
          p ← arena_alloc_pages_retry ps (div_round_up sizeof_alloc_stack PAGE_SIZE);
          modifies (set_prealloc p);;
          if p =? NULL then mret (- ENOMEM) else mret 0
      end
  end.

Definition scx_alloc_init (env : nat → nat → sdt_state → sdt_state) (ps : kernel) (pss : nat → kernel)
    (al data_size align : Z) : DM Z :=
  ret ← init_shared ps;
  if negb (ret =? 0) then mret ret else
  let align := if align =? 0 then 8 else align in
  if (align <? 8) || negb (Z.land align (u64 (align - 1)) =? 0) then mret (- EINVAL) else
  let data_size := u64 (data_size + sizeof_sdt_data) in
  let data_size := u64 (u64 (data_size + align - 1) / align * align) in
  let min_chunk_size := u64 (u64 (SDT_TASK_MIN_ELEM_PER_ALLOC * data_size) + PAGE_SIZE - 1) / PAGE_SIZE in
  q ← get_pool (DataPool al);
  match pool_set_size q data_size min_chunk_size with
  | inr e => mret e
  | inl q =>
      set_pool (DataPool al) q;;
      stack ← gets st_prealloc;
      ret ← scx_alloc_attempt env pss stack;
      if negb (ret =? 0) then mret ret else
      root ← scx_alloc_chunk stack;
      modifies (set_root al root);;
      mret 0
  end.
