(* ===== verification/SdtBase.v ===== *)
(** * The object allocator: memory layout and invariant

    The ghost state names the owner of every region of the arena that is in
    use, the nodes of the radix trees and the indices in use.  The contents of a
    region are described by a predicate that reads only the region, so a write
    is checked against one region alone. *)

From S2P Require Import Prelude Bitmap BitmapCorrect Bump BumpCorrect Wp SdtAlloc.

(** ** Regions of memory *)

(** What a region is used for.  [TPriv o] is held by the thread [o] between two
    critical sections. *)
Inductive tag : Type :=
  | TStack
  | TPage
  | TRsv
  | TPriv (o : Z)
  | TRest (p : pool_id)
  | TPoolRsv (al : Z)
  | TDesc (P : list Z)
  | TChunk (P : list Z)
  | TElem (h : Z * Z).

#[global] Instance tag_eq_dec : EqDecision tag.
Proof. solve_decision. Defined.

(** A node of a radix tree: its descriptor, its index page, the entries in use. *)
Record node : Type := Node {
  n_desc : Z;
  n_chunk : Z;
  n_bits : gset Z;
}.

(** [g_nd] maps the allocator and the positions on the path to a node.  An
    index in use has an owner and is either still being set up ([true]) or an
    object of its owner. *)
Record ghost : Type := Ghost {
  g_own : gmap Z (Z * tag);
  g_nd : gmap (list Z) node;
  g_used : gmap (Z * Z) (Z * bool);
  g_slot : gmap (Z * Z) Z;
  g_sp : list Z;
  g_rv : list Z;
  g_prv : gmap Z (list Z);
}.

Definition agree (m m' : gmap Z Z) (b n : Z) : Prop := ∀ a, b <= a < b + n → word m' a = word m a.
Definition zeroed (m : gmap Z Z) (b n : Z) : Prop := ∀ a, b <= a < b + n → word m a = 0.

Definition hd0 (l : list Z) : Z := default 0 (head l).

(** The word of a linked page. *)
Definition linked (m : gmap Z Z) (l : list Z) (b : Z) : Prop := ∀ l1 l2, l = l1 ++ b :: l2 → word m b = hd0 l2.

(** The index at the positions [i], [j], [k] of the three levels. *)
Definition enc (i j k : Z) : Z := i * 262144 + j * 512 + k.

(** What an entry of the index page of the node at [P] holds. *)
Definition slotval (g : ghost) (P : list Z) (pos : Z) : Z :=
  match P with
  | [al; i; j] => default 0 (g_slot g !! (al, enc i j pos))
  | _ => from_option n_desc 0 (g_nd g !! (P ++ [pos]))
  end.

Definition bits_at (m : gmap Z Z) (d : Z) (B : gset Z) : Prop :=
  ∀ pos, 0 <= pos < 512 → Z.testbit (word m (d + 8 * (pos / 64))) (pos mod 64) = bool_decide (pos ∈ B).

(** An object that belongs to its owner carries its index; any other is blank
    apart from its generation. *)
Definition elem_content (m : gmap Z Z) (b n x : Z) (live : bool) : Prop :=
  16 <= n ∧ if live then tid_idx (word m (b + n - 16)) = x
  else zeroed m b (n - 16) ∧ word m (b + n - 8) = 0 ∧ tid_idx (word m (b + n - 16)) = 0.

Definition is_live (g : ghost) (h : Z * Z) : bool :=
  match g_used g !! h with Some (_, false) => true | _ => false end.

Definition content (m : gmap Z Z) (g : ghost) (b n : Z) (t : tag) : Prop :=
  match t with
  | TStack => n = 4096 ∧ word m b = Z.of_nat (length (g_sp g)) ∧ (length (g_sp g) <= 30)%nat ∧
      (∀ i p, g_sp g !! i = Some p → word m (b + 8 + 8 * Z.of_nat i) = p) ∧ word m (b + 248) = hd0 (g_rv g)
  | TPage => zeroed m b n
  | TRsv => 8 <= n ∧ linked m (g_rv g) b ∧ zeroed m (b + 1) (n - 1)
  | TPriv _ => True
  | TRest _ => zeroed m b n
  | TPoolRsv al => 8 <= n ∧ linked m (default [] (g_prv g !! al)) b ∧ zeroed m (b + 1) (n - 1)
  | TDesc P => n = 80 ∧ ∃ nd, g_nd g !! P = Some nd ∧ n_desc nd = b ∧ bits_at m b (n_bits nd) ∧
      word m (b + 64) = 512 - Z.of_nat (size (n_bits nd)) ∧ word m (b + 72) = n_chunk nd
  | TChunk P => n = 4096 ∧ n_chunk <$> g_nd g !! P = Some b ∧
      ∀ pos, 0 <= pos < 512 → word m (b + 8 * pos) = slotval g P pos
  | TElem h => elem_content m b n h.2 (is_live g h)
  end.

(** ** The invariant *)
Definition in_run (runs : list (Z * Z)) (b n : Z) : Prop := ∃ r, r ∈ runs ∧ r.1 <= b ∧ b + n <= r.1 + r.2.

Record region_ok (runs : list (Z * Z)) (b n : Z) : Prop := RegionOk {
  ro_pos : 0 < b;
  ro_size : 0 < n;
  ro_base8 : b mod 8 = 0;
  ro_size8 : n mod 8 = 0;
  ro_max : b + n < two64;
  ro_run : in_run runs b n;
}.

Record layout (runs : list (Z * Z)) (m : gmap Z Z) (own : gmap Z (Z * tag)) : Prop := Layout {
  ly_own b n t : own !! b = Some (n, t) → region_ok runs b n;
  ly_disj b n t b' n' t' : own !! b = Some (n, t) → own !! b' = Some (n', t') → b ≠ b' → apart (b, n) (b', n');
  ly_dom a : is_Some (m !! a) → ∃ r, r ∈ runs ∧ r.1 <= a < r.1 + r.2;
  ly_al a : is_Some (m !! a) → a mod 8 = 0;
  ly_u64 a : is_u64 (word m a);
}.

Definition contents (m : gmap Z Z) (g : ghost) : Prop := ∀ b n t, g_own g !! b = Some (n, t) → content m g b n t.

Record stack_wf (stack : Z) (g : ghost) : Prop := StackWf {
  sw_own : g_own g !! stack = Some (4096, TStack);
  sw_sp : Forall (λ p, g_own g !! p = Some (4096, TPage)) (g_sp g);
  sw_spnd : NoDup (g_sp g);
  sw_rv : Forall (λ p, g_own g !! p = Some (4096, TRsv)) (g_rv g);
  sw_rvnd : NoDup (g_rv g);
  sw_uniq b n : g_own g !! b = Some (n, TStack) → b = stack;
  sw_rvin b n : g_own g !! b = Some (n, TRsv) → b ∈ g_rv g;
}.

Definition pool_rsv (g : ghost) (p : pool_id) : list Z :=
  match p with DataPool al => default [] (g_prv g !! al) | _ => [] end.

Record pool_wf (g : ghost) (p : pool_id) (q : sdt_pool) : Prop := PoolWf {
  pw_elem : 16 <= sp_elem_size q ∧ sp_elem_size q mod 8 = 0;
  pw_max : 1 <= sp_max_elems q ∧ sp_elem_size q * sp_max_elems q + 8192 < two64;
  pw_idx : 0 <= sp_idx q <= sp_max_elems q;
  pw_rest : sp_idx q < sp_max_elems q →
    g_own g !! (sp_slab q + sp_elem_size q * sp_idx q) =
      Some (sp_elem_size q * (sp_max_elems q - sp_idx q), TRest p);
  pw_rsv : sp_reserve q = hd0 (pool_rsv g p);
  pw_chain : NoDup (pool_rsv g p);
  pw_own al : p = DataPool al → Forall (λ b, g_own g !! b = Some (sp_elem_size q * sp_max_elems q, TPoolRsv al)) (pool_rsv g p);
  pw_in al b n : p = DataPool al → g_own g !! b = Some (n, TPoolRsv al) → b ∈ pool_rsv g p;
}.

(** The size of the objects of an allocator and their number in a slab. *)
Definition dims (allocs : gmap Z scx_allocator) (al : Z) : Z * Z :=
  from_option (λ a, (sp_elem_size (sa_pool a), sp_max_elems (sa_pool a))) (0, 0) (allocs !! al).
Definition esize (allocs : gmap Z scx_allocator) (al : Z) : Z := (dims allocs al).1.

(** An allocator that is not set up has no reserve. *)
Definition unset_wf (allocs : gmap Z scx_allocator) (g : ghost) : Prop :=
  ∀ al, esize allocs al = 0 → g_prv g !! al = None ∧ ∀ b n, g_own g !! b ≠ Some (n, TPoolRsv al).

Record pools_wf (cp dp : sdt_pool) (allocs : gmap Z scx_allocator) (g : ghost) : Prop := PoolsWf {
  pl_desc : sp_elem_size dp = 80 ∧ sp_max_elems dp = 51;
  pl_chunk : sp_elem_size cp = 4096 ∧ sp_max_elems cp = 1;
  pl_pool p q : pool_get cp dp allocs p = Some q → sp_elem_size q ≠ 0 → pool_wf g p q;
  pl_unset : unset_wf allocs g;
}.

(** Which entries of the node at [P] are in use: full subtrees, or indices. *)
Definition bit_wf (g : ghost) (P : list Z) (pos : Z) : Prop :=
  match P with
  | [al; i; j] => is_Some (g_used g !! (al, enc i j pos))
  | _ => ∃ c, g_nd g !! (P ++ [pos]) = Some c ∧ size (n_bits c) = 512%nat
  end.

Record node_wf (g : ghost) (P : list Z) (nd : node) : Prop := NodeWf {
  nw_len : (1 <= length P <= 3)%nat;
  nw_pos : Forall (λ x, 0 <= x < 512) (tail P);
  nw_desc : g_own g !! n_desc nd = Some (80, TDesc P);
  nw_chunk : g_own g !! n_chunk nd = Some (4096, TChunk P);
  nw_range pos : pos ∈ n_bits nd → 0 <= pos < 512;
  nw_parent Q x : P = Q ++ [x] → Q ≠ [] → is_Some (g_nd g !! Q);
}.

(** The positions of an index. *)
Definition hi (x : Z) : Z := x / 262144.
Definition mid (x : Z) : Z := x / 512 mod 512.
Definition lo (x : Z) : Z := x mod 512.
Definition leaf_path (h : Z * Z) : list Z := [h.1; hi h.2; mid h.2].
Definition idx_ok (x : Z) : Prop := 0 <= x < 134217728.

(** Everything about the trees but which entries are marked. *)
Record shape (allocs : gmap Z scx_allocator) (g : ghost) : Prop := Shape {
  tw_node P nd : g_nd g !! P = Some nd → node_wf g P nd;
  tw_root al a : allocs !! al = Some a → sa_root a = from_option n_desc 0 (g_nd g !! [al]);
  tw_alloc al nd : g_nd g !! [al] = Some nd → 16 <= esize allocs al;
  tw_used h v : g_used g !! h = Some v → idx_ok h.2 ∧ is_Some (g_nd g !! leaf_path h);
  tw_live h o : g_used g !! h = Some (o, false) → is_Some (g_slot g !! h);
  tw_slot h e : g_slot g !! h = Some e → g_own g !! e = Some (esize allocs h.1, TElem h) ∧ idx_ok h.2 ∧ is_Some (g_nd g !! leaf_path h);
  tw_elem e n h : g_own g !! e = Some (n, TElem h) → n = esize allocs h.1 ∧ g_slot g !! h = Some e;
}.

Record tree_wf (allocs : gmap Z scx_allocator) (g : ghost) : Prop := TreeWf {
  tw_shape :> shape allocs g;
  tw_bits P nd pos : g_nd g !! P = Some nd → 0 <= pos < 512 → pos ∈ n_bits nd ↔ bit_wf g P pos;
}.

Record inv (s : sdt_state) (g : ghost) : Prop := Inv {
  iv_layout : layout (st_runs s) (st_mem s) (g_own g);
  iv_content : contents (st_mem s) g;
  iv_stack : stack_wf (st_prealloc s) g;
  iv_pools : pools_wf (st_chunk_pool s) (st_desc_pool s) (st_allocs s) g;
  iv_tree : tree_wf (st_allocs s) g;
}.

(** ** What stays: a transition of other threads

    Nodes, objects and sizes are permanent; the objects selected by [U] and the
    private regions selected by [V] do not change. *)
Definition perm (t : tag) : bool :=
  match t with TStack | TDesc _ | TChunk _ | TElem _ => true | _ => false end.

Record grows (s : sdt_state) (g : ghost) (s' : sdt_state) (g' : ghost) : Prop := Grows {
  gr_own b n t : g_own g !! b = Some (n, t) → perm t = true → g_own g' !! b = Some (n, t);
  gr_nd P nd : g_nd g !! P = Some nd → ∃ nd', g_nd g' !! P = Some nd' ∧ n_desc nd' = n_desc nd ∧ n_chunk nd' = n_chunk nd;
  gr_size al : 16 <= esize (st_allocs s) al → dims (st_allocs s') al = dims (st_allocs s) al;
  gr_dom al : is_Some (st_allocs s !! al) → is_Some (st_allocs s' !! al);
  gr_stack : st_prealloc s' = st_prealloc s;
}.

Definition kept_obj (h : Z * Z) (s : sdt_state) (g : ghost) (s' : sdt_state) (g' : ghost) : Prop :=
  ∀ v, g_used g !! h = Some v → g_used g' !! h = Some v ∧ g_slot g' !! h = g_slot g !! h ∧
    ∀ e n, g_own g !! e = Some (n, TElem h) → agree (st_mem s) (st_mem s') e n.

Definition kept_priv (b : Z) (s : sdt_state) (g : ghost) (s' : sdt_state) (g' : ghost) : Prop :=
  ∀ n o, g_own g !! b = Some (n, TPriv o) → g_own g' !! b = Some (n, TPriv o) ∧ agree (st_mem s) (st_mem s') b n.

Record evolve (U : Z * Z → Prop) (V : Z → Prop) (s : sdt_state) (g : ghost) (s' : sdt_state) (g' : ghost) : Prop := Evolve {
  ev_grows : grows s g s' g';
  ev_obj h : U h → kept_obj h s g s' g';
  ev_priv b : V b → kept_priv b s g s' g';
}.

(** What belongs to the threads of [W]. *)
Definition owned (W : Z → Prop) (g : ghost) (h : Z * Z) : Prop := ∃ o fl, W o ∧ g_used g !! h = Some (o, fl).
Definition held (W : Z → Prop) (g : ghost) (b : Z) : Prop := ∃ o n, W o ∧ g_own g !! b = Some (n, TPriv o).

(** Interference that the threads of [W] tolerate. *)
Definition env_ok (W : Z → Prop) (env : sdt_state → sdt_state) : Prop :=
  ∀ s g, inv s g → ∃ g', inv (env s) g' ∧ evolve (owned W g) (held W g) s g (env s) g'.
