(* ===== verification/SdtMem.v ===== *)
(** * The object allocator: memory lemmas

    Reads and writes inside a region, the frame of a write, and the order of
    the transitions. *)

From S2P Require Import Prelude Bitmap BitmapCorrect Bump BumpCorrect Wp SdtAlloc SdtBase.

(** Arithmetic with offsets in words. *)
Ltac off := first [lia|Z.div_mod_to_equations; lia].

(** ** Words *)
Lemma word_insert m a v a' : word (<[a := v]> m) a' = if decide (a = a') then v else word m a'.
Proof. unfold word. case_decide; [subst; by rewrite lookup_insert_eq|by rewrite lookup_insert_ne]. Qed.

Lemma word_insert_eq m a v : word (<[a := v]> m) a = v.
Proof. by rewrite word_insert, decide_True. Qed.

Lemma word_insert_ne m a v a' : a ≠ a' → word (<[a := v]> m) a' = word m a'.
Proof. intros. by rewrite word_insert, decide_False. Qed.

Lemma agree_refl m b n : agree m m b n.
Proof. by intros a _. Qed.

Lemma agree_trans m1 m2 m3 b n : agree m1 m2 b n → agree m2 m3 b n → agree m1 m3 b n.
Proof. intros H1 H2 a Ha. by rewrite (H2 a), (H1 a). Qed.

Lemma agree_sub m m' b n b' n' : agree m m' b n → b <= b' → b' + n' <= b + n → agree m m' b' n'.
Proof. intros H H1 H2 a Ha. apply H. lia. Qed.

Lemma agree_insert m a v b n : a < b ∨ b + n <= a → agree m (<[a := v]> m) b n.
Proof. intros H a' Ha. apply word_insert_ne. lia. Qed.

Lemma zeroed_agree m m' b n : agree m m' b n → zeroed m b n → zeroed m' b n.
Proof. intros H Hz a Ha. rewrite H by done. by apply Hz. Qed.

Lemma zeroed_sub m b n b' n' : zeroed m b n → b <= b' → b' + n' <= b + n → zeroed m b' n'.
Proof. intros H H1 H2 a Ha. apply H. lia. Qed.

#[export] Hint Resolve agree_refl : scx.

(** ** Accesses *)
Lemma mapped_in runs b n a : region_ok runs b n → b <= a → a + 8 <= b + n → a mod 8 = 0 → mapped runs a = true.
Proof.
  intros [_ _ _ _ _ (r & Hr & Hb & Hn)] H1 H2 H8. unfold mapped. rewrite H8. simpl.
  apply existsb_exists. exists r. split; [by apply list_elem_of_In|]. apply andb_true_intro.
  split; apply Z.leb_le; lia.
Qed.

Lemma wp_ld a (Q : Z → sdt_state → Prop) s : mapped (st_runs s) a = true → Q (word (st_mem s) a) s → wp (ld a) Q s.
Proof. unfold wp, ld. by intros ->. Qed.

Lemma wp_st a v (Q : unit → sdt_state → Prop) s :
  mapped (st_runs s) a = true → Q tt (with_mem <[a := v]> s) → wp (st a v) Q s.
Proof. unfold wp, st. by intros ->. Qed.

Lemma wp_get_pool p q (Q : sdt_pool → sdt_state → Prop) s : pool_of s p = Some q → Q q s → wp (get_pool p) Q s.
Proof. unfold wp, get_pool. intros ->. done. Qed.

Lemma wp_get_alloc al a (Q : scx_allocator → sdt_state → Prop) s : st_allocs s !! al = Some a → Q a s → wp (get_alloc al) Q s.
Proof. unfold wp, get_alloc. intros ->. done. Qed.

(** ** A region keeps its content when its words and the ghost state it refers
    to stay *)
Lemma linked_agree m m' l b n : agree m m' b n → 8 <= n → linked m l b → linked m' l b.
Proof. intros Ha Hn Hl l1 l2 E. rewrite Ha by lia. by eapply Hl. Qed.

Lemma bits_agree m m' b B : agree m m' b 64 → bits_at m b B → bits_at m' b B.
Proof.
  intros Ha Hb pos Hp. rewrite Ha; [by apply Hb|].
  assert (0 <= pos / 64 < 8); [|lia]. split; [apply Z.div_pos; lia|apply Z.div_lt_upper_bound; lia].
Qed.

Lemma elem_agree m m' b n x lv : agree m m' b n → elem_content m b n x lv → elem_content m' b n x lv.
Proof.
  intros Ha [Hn H]. split; [done|]. destruct lv; [rewrite Ha by lia; done|]. destruct H as (H1 & H2 & H3).
  split_and!; [eapply zeroed_agree, H1; eapply agree_sub; [done|lia..]|rewrite Ha by lia; done..].
Qed.

Lemma content_agree m m' g b n t : agree m m' b n → content m g b n t → content m' g b n t.
Proof.
  intros Ha. destruct t as [| | |o|p|al|P|P|h]; simpl.
  - intros (-> & H1 & H2 & H3 & H4). split_and!; [done|rewrite Ha by lia; done|done| |rewrite Ha by lia; done].
    intros i p Hi. rewrite Ha; [by apply H3|]. apply lookup_lt_Some in Hi. lia.
  - by apply zeroed_agree.
  - intros (Hn & H1 & H2). split_and!; [done|by eapply linked_agree|]. eapply zeroed_agree, H2.
    eapply agree_sub; [done|lia..].
  - done.
  - by apply zeroed_agree.
  - intros (Hn & H1 & H2). split_and!; [done|by eapply linked_agree|]. eapply zeroed_agree, H2.
    eapply agree_sub; [done|lia..].
  - intros (-> & nd & E & E' & H1 & H2 & H3). split; [done|]. exists nd. split_and!; [done|done| |rewrite Ha by lia; done..].
    eapply bits_agree, H1. eapply agree_sub; [done|lia..].
  - intros (-> & H0 & H). split_and!; [done..|]. intros pos Hp. rewrite Ha by lia. by apply H.
  - by apply elem_agree.
Qed.

(** The parts of the ghost state that a region of tag [t] refers to. *)
Definition ghost_at (t : tag) (g g' : ghost) : Prop :=
  match t with
  | TStack => g_sp g' = g_sp g ∧ g_rv g' = g_rv g
  | TRsv => g_rv g' = g_rv g
  | TPoolRsv al => g_prv g' !! al = g_prv g !! al
  | TDesc P => g_nd g' !! P = g_nd g !! P
  | TChunk P => n_chunk <$> g_nd g' !! P = n_chunk <$> g_nd g !! P ∧
      ∀ pos, 0 <= pos < 512 → slotval g' P pos = slotval g P pos
  | TElem h => is_live g' h = is_live g h
  | _ => True
  end.

Lemma content_ghost m g g' b n t : ghost_at t g g' → content m g b n t → content m g' b n t.
Proof.
  destruct t as [| | |o|p|al|P|P|h]; simpl; try done.
  - by intros (-> & ->).
  - by intros ->.
  - by intros ->.
  - by intros ->.
  - intros [-> E] (-> & H0 & H). split_and!; [done..|]. intros pos Hp. rewrite E by done. by apply H.
  - by intros ->.
Qed.

(** ** A write inside one region *)
Section write.
Context (s : sdt_state) (g : ghost) (b n a v : Z) (t : tag).
Hypothesis Hinv : inv s g.
Hypothesis Hown : g_own g !! b = Some (n, t).
Hypothesis Hlo : b <= a.
Hypothesis Hhi : a + 8 <= b + n.
Hypothesis Ha8 : a mod 8 = 0.

Lemma write_mapped : mapped (st_runs s) a = true.
Proof. eapply mapped_in; [|done..]. by eapply ly_own; [apply iv_layout|]. Qed.

Lemma write_agree b' n' t' : g_own g !! b' = Some (n', t') → b' ≠ b → agree (st_mem s) (<[a := v]> (st_mem s)) b' n'.
Proof.
  intros H' Hne. apply agree_insert.
  destruct (ly_disj _ _ _ (iv_layout _ _ Hinv) _ _ _ _ _ _ H' Hown Hne) as [H|H]; simpl in H; lia.
Qed.

Lemma write_layout : is_u64 v → layout (st_runs s) (<[a := v]> (st_mem s)) (g_own g).
Proof.
  intros Hv. destruct (iv_layout _ _ Hinv) as [H1 H2 H3 H5 H4]. split; [done..| | |].
  - intros a' [w Hw]. destruct (decide (a = a')) as [<-|Hne]; [|rewrite lookup_insert_ne in Hw by done; eauto].
    destruct (H1 _ _ _ Hown) as [? ? ? ? ? (r & Hr & ? & ?)]. exists r. split; [done|lia].
  - intros a' [w Hw]. destruct (decide (a = a')) as [<-|Hne]; [done|rewrite lookup_insert_ne in Hw by done; eauto].
  - intros a'. rewrite word_insert. by case_decide.
Qed.

Lemma write_contents :
  content (<[a := v]> (st_mem s)) g b n t → contents (<[a := v]> (st_mem s)) g.
Proof.
  intros Hc b' n' t' H'. destruct (decide (b' = b)) as [->|Hne]; [by simplify_eq|].
  eapply content_agree; [by eapply write_agree|]. by apply (iv_content _ _ Hinv).
Qed.

Lemma inv_write : is_u64 v → content (<[a := v]> (st_mem s)) g b n t → inv (with_mem <[a := v]> s) g.
Proof.
  intros Hv Hc. split; [by apply write_layout|by apply write_contents|by destruct Hinv..].
Qed.
End write.

(** ** Transitions *)
Lemma grows_refl s g : grows s g s g.
Proof. split; try done. intros P nd H. by exists nd. Qed.

Lemma kept_obj_refl h s g : kept_obj h s g s g.
Proof. intros v Hv. split_and!; [done..|]. auto with scx. Qed.

Lemma kept_priv_refl b s g : kept_priv b s g s g.
Proof. intros n o H. auto with scx. Qed.

Lemma evolve_refl U V s g : evolve U V s g s g.
Proof. split; [apply grows_refl|intros; apply kept_obj_refl|intros; apply kept_priv_refl]. Qed.

Lemma grows_trans s1 g1 s2 g2 s3 g3 : grows s1 g1 s2 g2 → grows s2 g2 s3 g3 → grows s1 g1 s3 g3.
Proof.
  intros H1 H2. split.
  - intros b n t Hb Ht. eapply (gr_own _ _ _ _ H2); [|done]. by eapply (gr_own _ _ _ _ H1).
  - intros P nd HP. destruct (gr_nd _ _ _ _ H1 _ _ HP) as (nd1 & E1 & ? & ?).
    destruct (gr_nd _ _ _ _ H2 _ _ E1) as (nd2 & E2 & ? & ?). exists nd2. split_and!; congruence.
  - intros al Hal. pose proof (gr_size _ _ _ _ H1 al Hal) as E. rewrite (gr_size _ _ _ _ H2), E; [done|]. unfold esize in *. by rewrite E.
  - intros al Hal. by apply (gr_dom _ _ _ _ H2), (gr_dom _ _ _ _ H1).
  - by rewrite (gr_stack _ _ _ _ H2), (gr_stack _ _ _ _ H1).
Qed.

Lemma kept_obj_trans h s1 g1 s2 g2 s3 g3 :
  grows s1 g1 s2 g2 → kept_obj h s1 g1 s2 g2 → kept_obj h s2 g2 s3 g3 → kept_obj h s1 g1 s3 g3.
Proof.
  intros Hg H1 H2 v Hv. destruct (H1 v Hv) as (Hv2 & Hs2 & He2). destruct (H2 v Hv2) as (Hv3 & Hs3 & He3).
  split_and!; [done|congruence|]. intros e n He. eapply agree_trans; [by apply He2|].
  apply He3. by eapply gr_own.
Qed.

Lemma kept_priv_trans b s1 g1 s2 g2 s3 g3 : kept_priv b s1 g1 s2 g2 → kept_priv b s2 g2 s3 g3 → kept_priv b s1 g1 s3 g3.
Proof.
  intros H1 H2 n o Hb. destruct (H1 n o Hb) as [Hb2 A2]. destruct (H2 n o Hb2) as [Hb3 A3].
  split; [done|]. by eapply agree_trans.
Qed.

Lemma evolve_trans U V s1 g1 s2 g2 s3 g3 : evolve U V s1 g1 s2 g2 → evolve U V s2 g2 s3 g3 → evolve U V s1 g1 s3 g3.
Proof.
  intros [A1 B1 C1] [A2 B2 C2]. split; [by eapply grows_trans|intros; eapply kept_obj_trans; [exact A1|..]; eauto|intros; eapply kept_priv_trans; eauto].
Qed.

Lemma evolve_mono (U U' : Z * Z → Prop) (V V' : Z → Prop) s g s' g' :
  (∀ h, U' h → U h) → (∀ b, V' b → V b) → evolve U V s g s' g' → evolve U' V' s g s' g'.
Proof. intros HU HV [A B C]. split; auto. Qed.

(** What a thread keeps through interference stays its own. *)
Lemma evolve_owned W V s g s' g' h : evolve (owned W g) V s g s' g' → owned W g h → owned W g' h.
Proof. intros He (o & fl & Ho & Hh). destruct (ev_obj _ _ _ _ _ _ He h ltac:(by exists o, fl) _ Hh) as [? _]. by exists o, fl. Qed.

Lemma evolve_held W U s g s' g' b : evolve U (held W g) s g s' g' → held W g b → held W g' b.
Proof. intros He (o & n & Ho & Hb). destruct (ev_priv _ _ _ _ _ _ He b ltac:(by exists o, n) _ _ Hb) as [? _]. by exists o, n. Qed.

Lemma evolve_me_trans W s1 g1 s2 g2 s3 g3 :
  evolve (owned W g1) (held W g1) s1 g1 s2 g2 → evolve (owned W g2) (held W g2) s2 g2 s3 g3 →
  evolve (owned W g1) (held W g1) s1 g1 s3 g3.
Proof.
  intros H1 H2. eapply evolve_trans; [done|]. eapply evolve_mono, H2.
  - intros h. by eapply evolve_owned.
  - intros b. by eapply evolve_held.
Qed.

(** ** Updates of the ghost state *)

(** The regions change. *)
Definition gown (own : gmap Z (Z * tag)) (g : ghost) : ghost :=
  Ghost own (g_nd g) (g_used g) (g_slot g) (g_sp g) (g_rv g) (g_prv g).

(** Part of a region, or a region with another tag, in its place. *)
Lemma layout_shrink runs m own b n t n' t' :
  layout runs m own → own !! b = Some (n, t) → 0 < n' <= n → n' mod 8 = 0 →
  layout runs m (<[b := (n', t')]> own).
Proof.
  intros [H1 H2 H3 H5 H4] Hb Hn H8. destruct (H1 _ _ _ Hb) as [? ? ? ? ? (r & Hr & ? & ?)]. split; [..|done|done|done].
  - intros b0 n0 t0 [[<- [= <- <-]]|[Hne E0]]%lookup_insert_Some; [|by eapply H1].
    split; try done; [lia..|]. exists r. split_and!; [done|lia..].
  - intros b1 n1 t1 b2 n2 t2 [[<- [= <- <-]]|[Hne1 E1]]%lookup_insert_Some [[<- [= <- <-]]|[Hne2 E2]]%lookup_insert_Some Hne;
      [done| | |by eapply H2].
    + destruct (H2 _ _ _ _ _ _ Hb E2 Hne) as [?|?]; simpl in *; [left|right]; simpl; lia.
    + destruct (H2 _ _ _ _ _ _ E1 Hb Hne) as [?|?]; simpl in *; [left|right]; simpl; lia.
Qed.

(** The rest of a region after its first [k] bytes become a region of their own. *)
Lemma layout_split runs m own b n t k t1 t2 :
  layout runs m own → own !! b = Some (n, t) → 0 < k < n → k mod 8 = 0 →
  own !! (b + k) = None ∧ layout runs m (<[b + k := (n - k, t2)]> (<[b := (k, t1)]> own)).
Proof.
  intros HL Hb Hk H8. pose proof (layout_shrink _ _ _ _ _ _ k t1 HL Hb ltac:(lia) H8) as [H1 H2 H3 H5 H4].
  pose proof HL as [G1 G2 _ _ _]. destruct (G1 _ _ _ Hb) as [? ? B8 N8 ? (r & Hr & ? & ?)].
  assert (∀ b' n' t', own !! b' = Some (n', t') → b' ≠ b → apart (b, n) (b', n')) as Hap by (intros; eapply G2; eauto).
  split.
  { destruct (own !! (b + k)) as [[n' t']|] eqn:E; [|done]. destruct (Hap _ _ _ E ltac:(lia)) as [?|?]; simpl in *; [lia|].
    destruct (G1 _ _ _ E). lia. }
  split; [..|done|done|done].
  - intros b0 n0 t0 [[<- [= <- <-]]|[Hne E0]]%lookup_insert_Some; [|by eapply H1].
    split; [lia|lia|by rewrite Zplus_mod, B8, H8|by rewrite Zminus_mod, N8, H8|lia|]. exists r. split_and!; [done|lia..].
  - assert (∀ b' n' t', <[b := (k, t1)]> own !! b' = Some (n', t') → b' ≠ b + k → apart (b + k, n - k) (b', n')) as Hap'.
    { intros b' n' t' [[<- [= <- <-]]|[Hne E]]%lookup_insert_Some _; [right; simpl; lia|].
      destruct (Hap _ _ _ E ltac:(done)) as [?|?]; simpl in *; [left|right]; simpl; lia. }
    intros b1 n1 t1' b2 n2 t2' [[<- [= <- <-]]|[Hne1 E1]]%lookup_insert_Some [[<- [= <- <-]]|[Hne2 E2]]%lookup_insert_Some Hne;
      [done|by eapply Hap'| |by eapply H2].
    destruct (Hap' _ _ _ E1 ltac:(done)) as [?|?]; simpl in *; [right|left]; simpl; lia.
Qed.

(** ** Fresh pages *)

(** What [bpf_arena_alloc_pages] guarantees of [n] bytes it mapped at [p]: page
    aligned and apart from everything mapped before. *)
Record fresh_run (runs : list (Z * Z)) (p n : Z) : Prop := FreshRun {
  fr_pos : 0 < p;
  fr_align : p mod 4096 = 0;
  fr_max : p + n < two64;
  fr_apart r : r ∈ runs → apart (p, n) r;
}.

Lemma layout_map runs m own p N n t :
  layout runs m own → fresh_run runs p N → 0 < n <= N → n mod 8 = 0 →
  own !! p = None ∧ zeroed m p N ∧ layout ((p, N) :: runs) m (<[p := (n, t)]> own).
Proof.
  intros [H1 H2 H3 H5 H4] [P1 P2 P3 P4] Hn H8.
  assert (∀ b' n' t', own !! b' = Some (n', t') → apart (p, N) (b', n')) as Hap.
  { intros b' n' t' E. destruct (H1 _ _ _ E) as [? ? ? ? ? (r & Hr & ? & ?)].
    destruct (P4 _ Hr) as [?|?]; simpl in *; [left|right]; simpl; lia. }
  split_and!.
  - destruct (own !! p) as [[n' t']|] eqn:E; [|done]. destruct (Hap _ _ _ E), (H1 _ _ _ E); simpl in *; lia.
  - intros a Ha. unfold word. destruct (m !! a) eqn:E; [|done]. destruct (H3 a) as (r & Hr & Hra); [by eexists|].
    destruct (P4 _ Hr); simpl in *; lia.
  - assert (p mod 8 = 0) as P8 by (apply Z.mod_divide in P2 as [k ->]; [|lia]; replace (k * 4096) with (k * 512 * 8) by lia; apply Z.mod_mul; lia).
    split; [..|done|done].
    + intros b0 n0 t0 [[<- [= <- <-]]|[Hne E0]]%lookup_insert_Some.
      * split; [lia|lia|done|done|lia|]. exists (p, N). split_and!; [left|simpl; lia..].
      * destruct (H1 _ _ _ E0) as [? ? ? ? ? (r & Hr & ? & ?)]. split; [done..|]. exists r. split_and!; [by right|lia..].
    + intros b1 n1 t1 b2 n2 t2 [[<- [= <- <-]]|[Hne1 E1]]%lookup_insert_Some [[<- [= <- <-]]|[Hne2 E2]]%lookup_insert_Some Hne;
        [done| | |by eapply H2].
      * destruct (Hap _ _ _ E2) as [?|?]; simpl in *; [left|right]; simpl; lia.
      * destruct (Hap _ _ _ E1) as [?|?]; simpl in *; [right|left]; simpl; lia.
    + intros a Ha. destruct (H3 a Ha) as (r & Hr & Hra). exists r. split; [by right|done].
Qed.

(** ** Preservation of the parts of the invariant *)
Lemma contents_update m m' g g' :
  contents m g →
  (∀ b n t, g_own g' !! b = Some (n, t) →
     (g_own g !! b = Some (n, t) ∧ agree m m' b n ∧ ghost_at t g g') ∨ content m' g' b n t) →
  contents m' g'.
Proof.
  intros Hc H b n t Hb. destruct (H b n t Hb) as [(Ho & Ha & Hg)|]; [|done].
  eapply content_ghost; [done|]. eapply content_agree; [done|]. by apply Hc.
Qed.

Lemma tree_own allocs g g' :
  tree_wf allocs g →
  (∀ b n t, perm t = true → g_own g !! b = Some (n, t) ↔ g_own g' !! b = Some (n, t)) →
  g_nd g' = g_nd g → g_used g' = g_used g → g_slot g' = g_slot g → tree_wf allocs g'.
Proof.
  intros H Ho En Eu Es. split; [split; rewrite ?En, ?Eu, ?Es|].
  - intros P nd HP. destruct (tw_node _ _ H _ _ HP) as [A B C D E G]. split; try done.
    + by apply Ho.
    + by apply Ho.
    + intros Q x. rewrite ?En. apply G.
  - apply (tw_root _ _ H).
  - apply (tw_alloc _ _ H).
  - intros h v. rewrite ?En. apply (tw_used _ _ H).
  - intros h o. rewrite ?Es. apply (tw_live _ _ H).
  - intros h e He. rewrite ?En. destruct (tw_slot _ _ H _ _ He). split; [|done]. by apply Ho.
  - intros e n h He. rewrite ?Es. apply (tw_elem _ _ H). by apply Ho.
  - intros P nd pos. rewrite En. intros HP Hp. rewrite (tw_bits _ _ H _ _ _ HP Hp). unfold bit_wf. by rewrite En, Eu.
Qed.

(** Reserves appear for allocators that are set up. *)
Lemma unset_mono allocs allocs' g g' :
  unset_wf allocs g → (∀ al, esize allocs' al = 0 → esize allocs al = 0 ∧ g_prv g' !! al = g_prv g !! al ∧
    ∀ b n, g_own g' !! b = Some (n, TPoolRsv al) → g_own g !! b = Some (n, TPoolRsv al)) → unset_wf allocs' g'.
Proof. intros H Hx al Hal. destruct (Hx al Hal) as (E & -> & Ho). destruct (H al E) as [? Hn]. split; [done|]. intros b n Hb. by eapply Hn, Ho. Qed.

(** A pool whose regions stay. *)
Lemma pool_wf_own g g' p q :
  pool_wf g p q → pool_rsv g' p = pool_rsv g p →
  (∀ b n, g_own g !! b = Some (n, TRest p) → g_own g' !! b = Some (n, TRest p)) →
  (∀ b n al, p = DataPool al → g_own g !! b = Some (n, TPoolRsv al) ↔ g_own g' !! b = Some (n, TPoolRsv al)) →
  pool_wf g' p q.
Proof.
  intros [A B C D E F G I] Er H1 H2. split; rewrite ?Er; try done.
  - intros Hi. by apply H1, D.
  - intros al Hp. eapply Forall_impl; [by apply G|]. intros b Hb. by apply H2.
  - intros al b n Hp Hb. eapply I; [done|]. by apply H2.
Qed.
