(* ===== verification/SdtPool.v ===== *)
(** * The object allocator: pages and pools

    The transitions that move memory: refilling the stack of pages, taking a
    page for a pool and carving an element.  None of them touches the trees or
    an object; the element or page is handed to the thread as a private
    region. *)

From S2P Require Import Prelude Bitmap BitmapCorrect Bump BumpCorrect Wp SdtAlloc SdtBase SdtMem.

(** The trees and objects are the same. *)
Definition same_tree (g g' : ghost) : Prop :=
  g_nd g' = g_nd g ∧ g_used g' = g_used g ∧ g_slot g' = g_slot g.

Lemma same_tree_trans g1 g2 g3 : same_tree g1 g2 → same_tree g2 g3 → same_tree g1 g3.
Proof. unfold same_tree. intros (? & ? & ?) (? & ? & ?). split_and!; congruence. Qed.

(** ** Pools in the state *)
Lemma pool_of_set s p q q0 p' :
  pool_of s p = Some q0 → pool_of (set_pool_of p q s) p' = if decide (p' = p) then Some q else pool_of s p'.
Proof.
  intros Hp. destruct p as [| |al], p' as [| |al']; simpl in *; repeat case_decide; try done; try congruence.
  - simplify_eq. unfold pool_of in *. simpl in *. rewrite lookup_alter_eq. destruct (st_allocs s !! al) as [a|]; [done|done].
  - unfold pool_of. simpl. rewrite lookup_alter_ne; [done|congruence].
Qed.

Lemma dims_set s p q q0 al :
  pool_of s p = Some q0 → sp_elem_size q = sp_elem_size q0 → sp_max_elems q = sp_max_elems q0 →
  dims (st_allocs (set_pool_of p q s)) al = dims (st_allocs s) al.
Proof.
  intros Hp Hq Hm. destruct p as [| |al']; [done..|]. unfold pool_of, dims in *. simpl in *.
  destruct (decide (al' = al)) as [->|]; [|by rewrite lookup_alter_ne].
  rewrite lookup_alter_eq. destruct (st_allocs s !! al) as [a|]; simpl in *; [|done]. simplify_eq. by rewrite Hq, Hm.
Qed.

Lemma set_pool_root s p q al a' :
  st_allocs (set_pool_of p q s) !! al = Some a' → ∃ a, st_allocs s !! al = Some a ∧ sa_root a' = sa_root a.
Proof.
  destruct p as [| |al']; [eauto..|]. simpl. destruct (decide (al' = al)) as [->|]; [|rewrite lookup_alter_ne by done; eauto].
  rewrite lookup_alter_eq. destruct (st_allocs s !! al) as [a|]; simpl; [|done]. intros [= <-]. eauto.
Qed.

Lemma set_pool_dom s p q al : is_Some (st_allocs s !! al) → is_Some (st_allocs (set_pool_of p q s) !! al).
Proof. destruct p as [| |al']; [done..|]. simpl. by rewrite lookup_alter_is_Some. Qed.

Lemma tree_allocs allocs allocs' g :
  tree_wf allocs g → (∀ al, dims allocs' al = dims allocs al) →
  (∀ al a', allocs' !! al = Some a' → ∃ a, allocs !! al = Some a ∧ sa_root a' = sa_root a) → tree_wf allocs' g.
Proof.
  intros [H Hb] Hd Hr. assert (∀ al, esize allocs' al = esize allocs al) as He by (intros al; unfold esize; by rewrite Hd).
  split; [split|done].
  - apply (tw_node _ _ H).
  - intros al a' Ha. destruct (Hr _ _ Ha) as (a & Ea & ->). by eapply tw_root.
  - intros al nd. rewrite He. by eapply tw_alloc.
  - apply (tw_used _ _ H).
  - apply (tw_live _ _ H).
  - intros h e. rewrite He. by eapply tw_slot.
  - intros e n h. rewrite He. by eapply tw_elem.
Qed.

(** ** A transition that leaves trees, objects and sizes alone *)
Section quiet.
Context (s s' : sdt_state) (g g' : ghost).
Hypothesis Hinv : inv s g.
Hypothesis Htree : same_tree g g'.
Hypothesis Hperm : ∀ b n t, perm t = true → g_own g !! b = Some (n, t) ↔ g_own g' !! b = Some (n, t).
Hypothesis Hsize : ∀ al, dims (st_allocs s') al = dims (st_allocs s) al.
Hypothesis Hroot : ∀ al a', st_allocs s' !! al = Some a' → ∃ a, st_allocs s !! al = Some a ∧ sa_root a' = sa_root a.
Hypothesis Hdom : ∀ al, is_Some (st_allocs s !! al) → is_Some (st_allocs s' !! al).

Lemma quiet_tree : tree_wf (st_allocs s') g'.
Proof.
  destruct Htree as (En & Eu & Es). eapply tree_allocs; [|done|done]. eapply tree_own; [by apply iv_tree|done..].
Qed.

Lemma quiet_grows : st_prealloc s' = st_prealloc s → grows s g s' g'.
Proof.
  intros Hp. destruct Htree as (En & Eu & Es). split; [|rewrite En; eauto|by intros|done|done].
  intros b n t Hb Ht. by apply Hperm.
Qed.

Lemma quiet_evolve (V : Z → Prop) :
  st_prealloc s' = st_prealloc s →
  (∀ e n h, g_own g !! e = Some (n, TElem h) → agree (st_mem s) (st_mem s') e n) →
  (∀ b n o, V b → g_own g !! b = Some (n, TPriv o) → g_own g' !! b = Some (n, TPriv o) ∧ agree (st_mem s) (st_mem s') b n) →
  evolve (λ _, True) V s g s' g'.
Proof.
  intros Hp He Hv. destruct (Htree) as (En & Eu & Es). split; [by apply quiet_grows| |].
  - intros h _ v Hu. rewrite Eu, Es. split_and!; [done..|]. intros e n. apply He.
  - intros b Hb n o. by apply Hv.
Qed.
End quiet.

(** ** The stack and the pools keep their regions *)
Lemma stack_wf_own stack g g' :
  stack_wf stack g → g_sp g' = g_sp g → g_rv g' = g_rv g →
  (∀ b n t, t = TStack ∨ t = TPage ∨ t = TRsv → g_own g !! b = Some (n, t) → g_own g' !! b = Some (n, t)) →
  (∀ b n t, t = TStack ∨ t = TRsv → g_own g' !! b = Some (n, t) → g_own g !! b = Some (n, t)) →
  stack_wf stack g'.
Proof.
  intros [A B C D E F G] E1 E2 H H'. split; rewrite ?E1, ?E2; try done; [by apply H; [left|]|..].
  - eapply Forall_impl; [exact B|]. intros x Hx. apply H; [by right; left|done].
  - eapply Forall_impl; [exact D|]. intros x Hx. apply H; [by right; right|done].
  - intros b n Hb. eapply F, H'; [by left|done].
  - intros b n Hb. eapply G, H'; [by right|done].
Qed.

Lemma pools_wf_own cp dp allocs g g' :
  pools_wf cp dp allocs g → g_prv g' = g_prv g →
  (∀ b n t, (∃ p, t = TRest p) ∨ (∃ al, t = TPoolRsv al) → g_own g !! b = Some (n, t) ↔ g_own g' !! b = Some (n, t)) →
  pools_wf cp dp allocs g'.
Proof.
  intros [A B C D] E H. split; [done..| |eapply unset_mono; [exact D|]; intros al Ha; rewrite E; split_and!; [done..|]; intros b n; apply H; eauto].
  intros p q Hq Hne. eapply pool_wf_own; [by apply C|..].
  - unfold pool_rsv. by rewrite E.
  - intros b n Hb. apply H; [left; eauto|done].
  - intros b n al _. apply H. right. eauto.
Qed.

(** ** Carving *)
Section carve.
Context (s : sdt_state) (g : ghost) (p : pool_id) (q : sdt_pool).
Hypothesis Hinv : inv s g.
Hypothesis Hq : pool_of s p = Some q.
Hypothesis Hne : sp_elem_size q ≠ 0.
Hypothesis Hlt : sp_idx q < sp_max_elems q.

Abbreviation elem := (sp_elem_size q).
Abbreviation r := (sp_slab q + sp_elem_size q * sp_idx q).
Abbreviation q' := (pool_at q (sp_slab q) (sp_reserve q) (sp_idx q + 1)).

Lemma carve_wf : pool_wf g p q.
Proof. by eapply pl_pool; [apply iv_pools|..]. Qed.

Lemma carve_region : g_own g !! r = Some (elem * (sp_max_elems q - sp_idx q), TRest p) ∧
  region_ok (st_runs s) r (elem * (sp_max_elems q - sp_idx q)) ∧ elem <= elem * (sp_max_elems q - sp_idx q).
Proof.
  pose proof carve_wf as Hw. pose proof (pw_rest _ _ _ Hw Hlt) as Ho. split_and!; [done|by eapply ly_own; [apply iv_layout|]|].
  destruct (pw_elem _ _ _ Hw). nia.
Qed.

Lemma carve_ptr : pool_ptr q = r ∧ u64 (sp_idx q + 1) = sp_idx q + 1.
Proof.
  destruct carve_region as (_ & [? ? ? ? ? _] & ?). pose proof carve_wf as Hw. destruct (pw_idx _ _ _ Hw), (pw_max _ _ _ Hw), (pw_elem _ _ _ Hw).
  split; [apply u64_small; unfold is_u64; lia|]. apply u64_small. unfold is_u64. nia.
Qed.

Lemma carve_own t : ∃ own', layout (st_runs s) (st_mem s) own' ∧ own' !! r = Some (elem, t) ∧
  (sp_idx q + 1 < sp_max_elems q → own' !! (r + elem) = Some (elem * (sp_max_elems q - (sp_idx q + 1)), TRest p)) ∧
  (∀ b v, g_own g !! b = Some v → b ≠ r → own' !! b = Some v) ∧
  (∀ b n t, own' !! b = Some (n, t) → b ≠ r → g_own g !! b = Some (n, t) ∨
     t = TRest p ∧ r <= b ∧ b + n <= r + elem * (sp_max_elems q - sp_idx q)).
Proof.
  destruct carve_region as (Ho & Hr & Hle). pose proof carve_wf as Hw. destruct (pw_elem _ _ _ Hw) as [He H8].
  destruct (decide (sp_idx q + 1 < sp_max_elems q)) as [Hlt'|Hge].
  - destruct (layout_split _ _ _ _ _ _ elem t (TRest p) (iv_layout _ _ Hinv) Ho ltac:(nia) H8) as [Hnone HL].
    eexists. split_and!; [exact HL|..].
    + rewrite lookup_insert_ne by lia. by rewrite lookup_insert_eq.
    + intros _. rewrite lookup_insert_eq. do 2 f_equal. lia.
    + intros b v Hb Hbr. rewrite lookup_insert_ne by congruence. by rewrite lookup_insert_ne.
    + intros b n t' [[<- [= <- <-]]|[Hb1 Hb]]%lookup_insert_Some Hbr; [right; split_and!; [done|lia..]|].
      rewrite lookup_insert_ne in Hb by done. by left.
  - pose proof (layout_shrink _ _ _ _ _ _ elem t (iv_layout _ _ Hinv) Ho ltac:(lia) H8) as HL.
    eexists. split_and!; [exact HL|..].
    + by rewrite lookup_insert_eq.
    + lia.
    + intros b v Hb Hbr. by rewrite lookup_insert_ne.
    + intros b n t' Hb Hbr. rewrite lookup_insert_ne in Hb by done. by left.
Qed.

Lemma carve_inv me : ∃ g', inv (set_pool_of p q' s) g' ∧ evolve (λ _, True) (λ _, True) s g (set_pool_of p q' s) g' ∧
  g_own g' !! r = Some (elem, TPriv me) ∧ zeroed (st_mem s) r elem ∧ same_tree g g' ∧ g_sp g' = g_sp g.
Proof.
  destruct (carve_own (TPriv me)) as (own' & HL & Hr' & Hrest & Hkeep & Hnew). destruct carve_region as (Ho & Hr & Hle).
  assert (st_runs (set_pool_of p q' s) = st_runs s) as Er by (by destruct p).
  assert (st_mem (set_pool_of p q' s) = st_mem s) as Em by (by destruct p).
  assert (st_prealloc (set_pool_of p q' s) = st_prealloc s) as Ep by (by destruct p).
  assert (zeroed (st_mem s) r (elem * (sp_max_elems q - sp_idx q))) as Hz by apply (iv_content _ _ Hinv _ _ _ Ho).
  assert (∀ b n t, perm t = true → g_own g !! b = Some (n, t) ↔ own' !! b = Some (n, t)) as Hperm.
  { intros b n t Ht. split.
    - intros Hb. apply Hkeep; [done|]. intros ->. by rewrite Ho in Hb; simplify_eq.
    - intros Hb. destruct (decide (b = r)) as [->|]; [by rewrite Hr' in Hb; simplify_eq|].
      destruct (Hnew _ _ _ Hb) as [?|(-> & _)]; done. }
  assert (∀ b n t, t ≠ TRest p → g_own g !! b = Some (n, t) → own' !! b = Some (n, t)) as Hother.
  { intros b n t Ht Hb. apply Hkeep; [done|]. intros ->. congruence. }
  assert (∀ b n t, t ≠ TRest p → t ≠ TPriv me → own' !! b = Some (n, t) → g_own g !! b = Some (n, t)) as Hback.
  { intros b n t H1 H2 Hb. destruct (decide (b = r)) as [->|Hbr]; [congruence|].
    destruct (Hnew _ _ _ Hb Hbr) as [?|(-> & _)]; done. }
  exists (gown own' g). split_and!; [split; rewrite ?Er, ?Em, ?Ep|..]; simpl.
  - exact HL.
  - eapply contents_update; [apply (iv_content _ _ Hinv)|]. intros b n t Hb. simpl in Hb.
    destruct (decide (b = r)) as [->|Hbr]; [rewrite Hr' in Hb; simplify_eq; by right|].
    destruct (Hnew _ _ _ Hb Hbr) as [?|(-> & H1 & H2)]; [left|right].
    + split_and!; [done|auto with scx|]. by destruct t.
    + eapply zeroed_sub; [exact Hz|done..].
  - eapply stack_wf_own; [by apply iv_stack|done..| |].
    + intros b n t Ht. apply Hother. naive_solver.
    + intros b n t Ht. apply Hback; naive_solver.
  - pose proof (iv_pools _ _ Hinv) as [P1 P2 P3 P4]. split.
    + destruct p; simpl in *; unfold pool_of in Hq; simpl in Hq; simplify_eq; simpl; done.
    + destruct p; simpl in *; unfold pool_of in Hq; simpl in Hq; simplify_eq; simpl; done.
    + intros p' q1. fold (pool_of (set_pool_of p q' s) p'). rewrite (pool_of_set _ _ _ q) by done.
      case_decide as Hp'; [subst p'; intros [= <-] _|intros Hq1 Hne1].
      * pose proof carve_wf as [W1 W2 W3 W4 W5 W6 W7 W8]. split; simpl; try done; [lia|..].
        -- intros Hi. rewrite <-Hrest by done. f_equal. lia.
        -- intros al ->. eapply Forall_impl; [by apply W7|]. intros x Hx. by apply Hother.
        -- intros al b n -> Hb. eapply W8; [done|]. by apply Hback.
      * eapply pool_wf_own; [by apply P3|done|..]; simpl.
        -- intros b n Hb. apply Hother; [congruence|done].
        -- intros b n al ->. split; [by apply Hother|by apply Hback].
    + eapply unset_mono; [exact P4|]. intros al Hal. unfold esize in *. rewrite (dims_set _ _ _ q) in Hal by done.
      split_and!; [done..|]. intros b n. by apply Hback.
  - apply (quiet_tree s _ g); [done|done|done|intros; by eapply dims_set|intros al a'; apply set_pool_root].
  - apply quiet_evolve; simpl; [done|done|intros; by eapply dims_set|intros al; apply set_pool_dom|done|..]; rewrite ?Em.
    + auto with scx.
    + intros b n o _ Hb. split; [by apply Hother|auto with scx].
  - done.
  - eapply zeroed_sub; [exact Hz|lia..].
  - done.
  - done.
Qed.
End carve.

(** ** A region changes its role *)
Section retag.
Context (s : sdt_state) (g : ghost) (b0 n0 n1 : Z) (t0 t1 : tag).
Hypothesis Hinv : inv s g.
Hypothesis Hown : g_own g !! b0 = Some (n0, t0).
Hypothesis Hp0 : perm t0 = false.
Hypothesis Hp1 : perm t1 = false.
Hypothesis Hn1 : 0 < n1 <= n0.
Hypothesis H8 : n1 mod 8 = 0.
Abbreviation own' := (<[b0 := (n1, t1)]> (g_own g)).

Lemma retag_perm b n t : perm t = true → g_own g !! b = Some (n, t) ↔ own' !! b = Some (n, t).
Proof.
  intros Ht. destruct (decide (b = b0)) as [->|]; [|by rewrite lookup_insert_ne].
  rewrite lookup_insert_eq. split; intros; simplify_eq; congruence.
Qed.

Lemma retag_keep b n t : t ≠ t0 → g_own g !! b = Some (n, t) → own' !! b = Some (n, t).
Proof. intros Ht Hb. rewrite lookup_insert_ne; [done|]. intros <-. congruence. Qed.

Lemma retag_back b n t : t ≠ t1 → own' !! b = Some (n, t) → g_own g !! b = Some (n, t).
Proof. intros Ht [[<- [= <- <-]]|[_ ?]]%lookup_insert_Some; [done|done]. Qed.

Lemma retag_layout m' :
  layout (st_runs s) m' (g_own g) → layout (st_runs s) m' own'.
Proof. intros HL. by eapply layout_shrink. Qed.
End retag.

(** The page [pg] of a thread becomes the slab of the pool. *)
Lemma page_to_pool s g p q pg n o :
  inv s g → pool_of s p = Some q → sp_elem_size q ≠ 0 → sp_max_elems q <= sp_idx q →
  g_own g !! pg = Some (n, TPriv o) → zeroed (st_mem s) pg n → sp_elem_size q * sp_max_elems q <= n →
  let s' := set_pool_of p (pool_at q pg (sp_reserve q) 0) s in
  ∃ g', inv s' g' ∧ evolve (λ _, True) (λ b, b ≠ pg) s g s' g' ∧ same_tree g g' ∧ g_sp g' = g_sp g.
Proof.
  intros Hinv Hq Hne Hge Ho Hz Hn s'. pose proof (pl_pool _ _ _ _ (iv_pools _ _ Hinv) _ _ Hq Hne) as Hw.
  destruct (pw_elem _ _ _ Hw) as [E1 E2], (pw_max _ _ _ Hw) as [M1 M2]. set (sz := sp_elem_size q * sp_max_elems q) in *.
  assert (sz mod 8 = 0) as H8 by (unfold sz; rewrite Z.mul_mod, E2 by lia; done).
  assert (0 < sz) as Hsz by nia.
  set (g' := gown (<[pg := (sz, TRest p)]> (g_own g)) g).
  assert (st_runs s' = st_runs s) as Er by (by destruct p).
  assert (st_mem s' = st_mem s) as Em by (by destruct p).
  assert (st_prealloc s' = st_prealloc s) as Ep by (by destruct p).
  exists g'. split_and!; [split; rewrite ?Er, ?Em, ?Ep|..].
  - eapply layout_shrink; [by apply iv_layout|done..|lia|done].
  - eapply contents_update; [apply (iv_content _ _ Hinv)|]. intros b n' t. simpl.
    intros [[<- [= <- <-]]|[Hb Hb']]%lookup_insert_Some; [right; simpl; eapply zeroed_sub; [done|lia..]|left].
    split_and!; [done|auto with scx|by destruct t].
  - eapply stack_wf_own; [by apply iv_stack|done..| |]; intros b n' t Ht Hb.
    + eapply retag_keep; [done| |done]. naive_solver.
    + eapply retag_back; [|exact Hb]. naive_solver.
  - pose proof (iv_pools _ _ Hinv) as [P1 P2 P3 P4]. split.
    + destruct p; simpl in *; unfold pool_of in Hq; simpl in Hq; simplify_eq; simpl; done.
    + destruct p; simpl in *; unfold pool_of in Hq; simpl in Hq; simplify_eq; simpl; done.
    + intros p' q1. fold (pool_of s' p'). unfold s'. rewrite (pool_of_set _ _ _ q) by done.
      case_decide as Hp'; [subst p'; intros [= <-] _|intros Hq1 Hne1].
      * destruct Hw as [W1 W2 W3 W4 W5 W6 W7 W8]. split; simpl; try done; [lia|..].
        -- intros _. rewrite Z.mul_0_r, Z.add_0_r, Z.sub_0_r. by rewrite lookup_insert_eq.
        -- intros al ->. eapply Forall_impl; [by apply W7|]. intros x Hx. by eapply retag_keep.
        -- intros al b n' -> Hb. eapply W8; [done|]. eapply retag_back; [|exact Hb]. done.
      * eapply pool_wf_own; [by apply P3|done|..]; simpl.
        -- intros b n' Hb. by eapply retag_keep.
        -- intros b n' al ->. split; intros Hb; [by eapply retag_keep|]. eapply retag_back; [|exact Hb]. done.
    + eapply unset_mono; [exact P4|]. intros al Hal. unfold esize, s' in *. rewrite (dims_set _ _ _ q) in Hal by done.
      split_and!; [done..|]. intros b n' Hb. eapply retag_back; [|exact Hb]. done.
  - apply (quiet_tree s _ g); [done|done|..].
    + intros b n' t Ht. by eapply retag_perm.
    + intros. by eapply dims_set.
    + intros al a'. apply set_pool_root.
  - apply quiet_evolve; [done|..]; rewrite ?Em; try done; auto with scx.
    + intros b n' t Ht. by eapply retag_perm.
    + intros. by eapply dims_set.
    + intros al. apply set_pool_dom.
    + intros b n' o' Hb Hb'. split; [|auto with scx]. simpl. by rewrite lookup_insert_ne.
  - done.
  - done.
Qed.

(** ** The stack of pages *)
Section stack.
Context (s : sdt_state) (g : ghost).
Hypothesis Hinv : inv s g.
Abbreviation stack := (st_prealloc s).

Lemma stack_own : g_own g !! stack = Some (4096, TStack).
Proof. by apply sw_own, iv_stack. Qed.

Lemma stack_content : content (st_mem s) g stack 4096 TStack.
Proof. apply (iv_content _ _ Hinv), stack_own. Qed.

Lemma stack_region : region_ok (st_runs s) stack 4096.
Proof. eapply ly_own; [by apply iv_layout|apply stack_own]. Qed.

Lemma stack_mapped k : 0 <= k < 512 → mapped (st_runs s) (stack + 8 * k) = true.
Proof.
  intros Hk. eapply mapped_in; [apply stack_region|lia..|].
  destruct stack_region as [? ? B8 _ _ _]. rewrite Zplus_mod, B8, Z.mul_comm, Z.mod_mul by lia. done.
Qed.

(** Another region is apart from the stack. *)
Lemma stack_apart b n t a : g_own g !! b = Some (n, t) → t ≠ TStack → stack <= a < stack + 4096 → a < b ∨ b + n <= a.
Proof.
  intros Hb Ht Ha. destruct (ly_disj _ _ _ (iv_layout _ _ Hinv) _ _ _ _ _ _ Hb stack_own) as [H|H]; simpl in *; [|lia..].
  intros ->. rewrite stack_own in Hb. congruence.
Qed.
End stack.

(** The regions, the pages in the stack and those of its reserve change. *)
Definition gstk (own : gmap Z (Z * tag)) (sp rv : list Z) (g : ghost) : ghost :=
  Ghost own (g_nd g) (g_used g) (g_slot g) sp rv (g_prv g).


(** How the lists of pages change when the region [b0] passes from [t0] to [t1]. *)
Definition sp_step (b0 : Z) (t0 t1 : tag) (sp sp' : list Z) : Prop :=
  (t0 ≠ TPage ∧ t1 ≠ TPage ∧ sp' = sp) ∨ (t0 = TPage ∧ t1 ≠ TPage ∧ sp = sp' ++ [b0]) ∨
  (t0 ≠ TPage ∧ t1 = TPage ∧ sp' = sp ++ [b0]).
Definition chain_step (c : tag) (b0 : Z) (t0 t1 : tag) (l l' : list Z) : Prop :=
  (t0 ≠ c ∧ t1 ≠ c ∧ l' = l) ∨ (t0 = c ∧ t1 ≠ c ∧ l = b0 :: l') ∨ (t0 ≠ c ∧ t1 = c ∧ l' = b0 :: l).

(** The linked list of the regions with tag [c] after such a step. *)
Lemma chain_trans (own : gmap Z (Z * tag)) c N b0 n0 n1 t0 t1 l l' :
  own !! b0 = Some (n0, t0) → chain_step c b0 t0 t1 l l' → (t1 = c → n1 = N) →
  Forall (λ p, own !! p = Some (N, c)) l → NoDup l → (∀ b n, own !! b = Some (n, c) → b ∈ l) →
  let own' := <[b0 := (n1, t1)]> own in
  Forall (λ p, own' !! p = Some (N, c)) l' ∧ NoDup l' ∧ (∀ b n, own' !! b = Some (n, c) → b ∈ l') ∧
  (∀ m b, b ≠ b0 → linked m l b → linked m l' b).
Proof.
  intros Ho Hs HN B C D own'. rewrite Forall_forall in B.
  destruct Hs as [(H0 & H1 & ->)|[(-> & H1 & ->)|(H0 & -> & ->)]].
  - split_and!; [|done| |done].
    + apply Forall_forall. intros x Hx. unfold own'. rewrite lookup_insert_ne; [by apply B|]. intros <-. apply B in Hx. congruence.
    + intros b n [[_ [= _ ?]]|[_ Hb]]%lookup_insert_Some; [done|]. by eapply D.
  - apply NoDup_cons in C as (C1 & C2). split_and!; [|done|..].
    + apply Forall_forall. intros x Hx. unfold own'. rewrite lookup_insert_ne; [apply B; by right|]. by intros <-.
    + intros b n [[_ [= _ Et]]|[Hne Hb]]%lookup_insert_Some; [done|]. apply D in Hb as [?|?]%elem_of_cons; [congruence|done].
    + intros m b Hb Hl l1 l2 El. apply (Hl (b0 :: l1)). by rewrite El.
  - assert (b0 ∉ l) as Hn by (intros Hin%B; congruence). split_and!; [|by constructor|..].
    + apply Forall_cons. split; [unfold own'; by rewrite lookup_insert_eq, HN|]. apply Forall_forall. intros x Hx.
      unfold own'. rewrite lookup_insert_ne; [by apply B|]. by intros <-.
    + intros b n [[<- _]|[Hne Hb]]%lookup_insert_Some; [left|]. right. by eapply D.
    + intros m b Hb Hl [|x l1] l2 El; injection El; [done|]. intros El' _. by eapply Hl.
Qed.

Section stack_trans.
Context (s : sdt_state) (g : ghost) (b0 : Z) (t0 t1 : tag) (m' : gmap Z Z) (sp rv : list Z).
Hypothesis Hinv : inv s g.
Hypothesis Ho : g_own g !! b0 = Some (4096, t0).
Hypothesis Ht0 : t0 = TPage ∨ t0 = TRsv ∨ ∃ o, t0 = TPriv o.
Hypothesis Ht1 : t1 = TPage ∨ t1 = TRsv ∨ ∃ o, t1 = TPriv o.
Hypothesis Hsp : sp_step b0 t0 t1 (g_sp g) sp.
Hypothesis Hrv : chain_step TRsv b0 t0 t1 (g_rv g) rv.
Abbreviation own' := (<[b0 := (4096, t1)]> (g_own g)).
Abbreviation g' := (gstk own' sp rv g).

Lemma strans_perm : perm t0 = false ∧ perm t1 = false.
Proof using Ht0 Ht1. clear -Ht0 Ht1. naive_solver. Qed.

Lemma strans_sp : Forall (λ p, own' !! p = Some (4096, TPage)) sp ∧ NoDup sp.
Proof.
  destruct (iv_stack _ _ Hinv) as [_ B C _ _ _ _]. rewrite Forall_forall in B.
  destruct Hsp as [(H0 & H1 & ->)|[(-> & H1 & E)|(H0 & -> & ->)]].
  - split; [|done]. apply Forall_forall. intros x Hx. eapply retag_keep; [done|congruence|by apply B].
  - rewrite E in *. apply NoDup_app in C as (C1 & C2 & _). split; [|done]. apply Forall_forall. intros x Hx.
    rewrite lookup_insert_ne; [apply B, elem_of_app; by left|]. intros <-. apply (C2 b0); [done|left].
  - assert (b0 ∉ g_sp g) as Hn by (intros Hin%B; congruence). split.
    + apply Forall_app. split; [|by apply Forall_singleton; rewrite lookup_insert_eq].
      apply Forall_forall. intros x Hx. rewrite lookup_insert_ne; [by apply B|]. by intros <-.
    + apply NoDup_app. split_and!; [done| |apply NoDup_singleton]. intros x Hx ->%list_elem_of_singleton. done.
Qed.

Lemma strans_rv : Forall (λ p, own' !! p = Some (4096, TRsv)) rv ∧ NoDup rv ∧
  (∀ b n, own' !! b = Some (n, TRsv) → b ∈ rv) ∧ (∀ m b, b ≠ b0 → linked m (g_rv g) b → linked m rv b).
Proof. destruct (iv_stack _ _ Hinv) as [_ _ _ B C _ D]. by eapply chain_trans. Qed.

(** The stack and the region [b0] alone are written. *)
Lemma stack_trans :
  layout (st_runs s) m' (g_own g) →
  (∀ b n t, g_own g !! b = Some (n, t) → t ≠ TStack → b ≠ b0 → agree (st_mem s) m' b n) →
  content m' g' (st_prealloc s) 4096 TStack → content m' g' b0 4096 t1 →
  inv (with_mem (λ _, m') s) g' ∧ evolve (λ _, True) (λ b, b ≠ b0) s g (with_mem (λ _, m') s) g' ∧ same_tree g g'.
Proof.
  intros HL Hag HcS Hc0. destruct strans_perm as [Hp0 Hp1]. destruct strans_sp as [S1 S2]. destruct strans_rv as (R1 & R2 & R3 & R4).
  assert (∀ b n t, perm t = true → g_own g !! b = Some (n, t) ↔ own' !! b = Some (n, t)) as Hperm by (intros; by eapply retag_perm).
  assert (own' !! st_prealloc s = Some (4096, TStack)) as HoS by (by apply Hperm, stack_own).
  split_and!; [split|..]; simpl.
  - by eapply layout_shrink.
  - eapply contents_update; [apply (iv_content _ _ Hinv)|]. simpl. intros b n t Hb.
    destruct (decide (b = b0)) as [->|Hne]; [rewrite lookup_insert_eq in Hb; simplify_eq; by right|].
    pose proof Hb as Hb'. rewrite lookup_insert_ne in Hb' by done.
    destruct (decide (t = TStack)) as [->|HnS].
    { right. pose proof (sw_uniq _ _ (iv_stack _ _ Hinv) _ _ Hb') as ->. rewrite HoS in Hb. by simplify_eq. }
    specialize (Hag _ _ _ Hb' HnS Hne). destruct t as [| | |o|p|al|P|P|h]; try (left; by split_and!).
    right. pose proof (iv_content _ _ Hinv _ _ _ Hb') as (C1 & C2 & C3). split_and!; [done|..].
    + apply R4; [done|]. by eapply linked_agree.
    + eapply zeroed_agree, C3. eapply agree_sub; [done|lia..].
  - split; simpl; [done..| |done]. intros b n Hb. eapply (sw_uniq _ _ (iv_stack _ _ Hinv)). by apply Hperm.
  - eapply pools_wf_own; [by apply iv_pools|done|]. intros b n t Ht. split; intros Hb.
    + eapply retag_keep; [done| |done]. naive_solver.
    + eapply retag_back; [|exact Hb]. naive_solver.
  - by apply (quiet_tree s (with_mem (λ _, m') s) g g'); eauto.
  - apply quiet_evolve; simpl; try done; eauto.
    + intros e n h He. apply (Hag _ _ _ He); [done|]. intros ->. rewrite Ho in He. by simplify_eq.
    + intros b n o Hb He. rewrite lookup_insert_ne by done. split; [done|]. by apply (Hag _ _ _ He).
  - done.
Qed.
End stack_trans.

Lemma layout_write runs m own b n t a v :
  layout runs m own → own !! b = Some (n, t) → b <= a → a + 8 <= b + n → (a - b) mod 8 = 0 → is_u64 v → layout runs (<[a := v]> m) own.
Proof.
  intros [H1 H2 H3 H5 H4] Hown Hlo Hhi Hal Hv. split; [done..| | |].
  - intros a' [w Hw]. destruct (decide (a = a')) as [<-|Hne]; [|rewrite lookup_insert_ne in Hw by done; eauto].
    destruct (H1 _ _ _ Hown) as [? ? ? ? ? (r & Hr & ? & ?)]. exists r. split; [done|lia].
  - intros a' [w Hw]. destruct (decide (a = a')) as [<-|Hne]; [|rewrite lookup_insert_ne in Hw by done; eauto].
    destruct (H1 _ _ _ Hown) as [? ? B8 ? ? _]. replace a with (a - b + b) by lia. by rewrite Zplus_mod, Hal, B8.
  - intros a'. rewrite word_insert. by case_decide.
Qed.

Lemma region_u64 runs m own b n t : layout runs m own → own !! b = Some (n, t) → is_u64 b ∧ b ≠ 0.
Proof. intros HL Hb. destruct (ly_own _ _ _ HL _ _ _ Hb). unfold is_u64. lia. Qed.

Lemma rsv_u64 s g : inv s g → is_u64 (hd0 (g_rv g)).
Proof.
  intros Hinv. destruct (stack_content _ _ Hinv) as (_ & _ & _ & _ & E). rewrite <-E. apply (ly_u64 _ _ _ (iv_layout _ _ Hinv)).
Qed.

Section stack_ops.
Context (s : sdt_state) (g : ghost) (me : Z).
Hypothesis Hinv : inv s g.
Abbreviation stack := (st_prealloc s).
Abbreviation T := (λ _, True).

Lemma stack_mapped0 : mapped (st_runs s) stack = true.
Proof. rewrite <-(Z.add_0_r stack). apply (stack_mapped s g Hinv 0). lia. Qed.

Lemma stack_mapped_ent i : 0 <= i <= 30 → mapped (st_runs s) (stack_ent stack i) = true.
Proof. intros. unfold stack_ent. replace (stack + 8 + 8 * i) with (stack + 8 * (i + 1)) by lia. apply (stack_mapped s g Hinv); lia. Qed.

Lemma stack_mapped_rsv : mapped (st_runs s) (stack_reserve stack) = true.
Proof. apply (stack_mapped s g Hinv 31). lia. Qed.

Lemma page_pop_spec sp0 pg :
  g_sp g = sp0 ++ [pg] →
  wp (scx_alloc_stack_pop stack) (λ r s', r = pg ∧ (∃ m', s' = with_mem (λ _, m') s) ∧ ∃ g', inv s' g' ∧ evolve T T s g s' g' ∧
    same_tree g g' ∧ g_own g' !! pg = Some (4096, TPriv me) ∧ zeroed (st_mem s') pg 4096 ∧ g_sp g' = sp0) s.
Proof.
  intros Esp. destruct (stack_content _ _ Hinv) as (_ & C1 & C2 & C3 & C4). rewrite Esp, length_app in C1, C2. rewrite Esp in C3. simpl in C1, C2.
  assert (g_own g !! pg = Some (4096, TPage)) as Ho.
  { pose proof (sw_sp _ _ (iv_stack _ _ Hinv)) as H. rewrite Esp, Forall_app, Forall_singleton in H. apply H. }
  unfold scx_alloc_stack_pop. wbind. apply wp_ld; [apply stack_mapped0|]. unfold stack_idx. rewrite C1.
  rewrite (proj2 (Z.eqb_neq _ _)) by lia. rewrite u64_small by (unfold is_u64, two64; lia).
  replace (Z.of_nat (length sp0 + 1) - 1) with (Z.of_nat (length sp0)) by lia.
  wbind. apply wp_st; [apply stack_mapped0|]. apply wp_ld; [apply stack_mapped_ent; lia|].
  set (m' := <[stack := Z.of_nat (length sp0)]> (st_mem s)). change (with_mem <[stack := Z.of_nat (length sp0)]> s) with (with_mem (λ _, m') s). simpl.
  assert (∀ a, a ≠ stack → word m' a = word (st_mem s) a) as Hw by (intros; by apply word_insert_ne).
  destruct (stack_trans s g pg TPage (TPriv me) m' sp0 (g_rv g)) as (I1 & I2 & I3).
  - done.
  - done.
  - by left.
  - eauto.
  - right. left. done.
  - left. done.
  - eapply layout_write; [by apply iv_layout|by apply stack_own|off..|unfold is_u64, two64; lia].
  - intros b n t Hb Ht Hne. apply agree_insert. eapply stack_apart; [done..|]. lia.
  - unfold m'. simpl. split_and!; [done|by rewrite word_insert_eq|lia| |by rewrite Hw by lia].
    intros i p Hi. rewrite Hw by lia. apply C3. by rewrite lookup_app_l by (by eapply lookup_lt_Some).
  - done.
  - split; [|split; [by eexists|]].
    + unfold stack_ent. rewrite Hw by lia. apply C3. by rewrite list_lookup_middle.
    + eexists. split_and!; [exact I1| |done|simpl; by rewrite lookup_insert_eq| |done].
      * destruct I2 as [A B D]. split; [done|done|]. intros b _. destruct (decide (b = pg)) as [->|]; [|by apply D].
        intros n o Hb. congruence.
      * pose proof (iv_content _ _ Hinv _ _ _ Ho) as Hz. eapply zeroed_agree; [|exact Hz]. apply agree_insert.
        apply (stack_apart s g Hinv _ _ _ _ Ho); [done|lia].
Qed.

Lemma install_spec pg :
  g_own g !! pg = Some (4096, TPriv me) → zeroed (st_mem s) pg 4096 → (length (g_sp g) < 30)%nat →
  wp (stack_install stack pg) (λ r s', r = - EAGAIN ∧ ∃ g', inv s' g' ∧ evolve T (λ b, b ≠ pg) s g s' g' ∧
    same_tree g g' ∧ g_sp g' = g_sp g ++ [pg]) s.
Proof.
  intros Ho Hz Hlen. destruct (stack_content _ _ Hinv) as (_ & C1 & C2 & C3 & C4). set (k := Z.of_nat (length (g_sp g))) in *.
  destruct (region_u64 _ _ _ _ _ _ (iv_layout _ _ Hinv) Ho) as [Hu Hnz].
  unfold stack_install. wbind. apply wp_ld; [apply stack_mapped0|]. unfold stack_idx. rewrite C1.
  wbind. apply wp_st; [apply stack_mapped_ent; lia|]. rewrite u64_small by (unfold is_u64, two64; lia).
  wbind. apply wp_st; [apply stack_mapped0|]. wstep. apply wp_ret.
  set (m1 := <[stack_ent stack k := pg]> (st_mem s)). set (m' := <[stack := k + 1]> m1).
  assert (layout (st_runs s) m1 (g_own g)) as HL1.
  { eapply layout_write; [by apply iv_layout|by apply stack_own|unfold stack_ent; off..|done]. }
  assert (∀ b n t, g_own g !! b = Some (n, t) → t ≠ TStack → agree (st_mem s) m' b n) as Hag.
  { intros b n t Hb Ht. eapply agree_trans; apply agree_insert; (eapply stack_apart; [done..|]); unfold stack_ent; lia. }
  destruct (stack_trans s g pg (TPriv me) TPage m' (g_sp g ++ [pg]) (g_rv g)) as (I1 & I2 & I3).
  - done.
  - done.
  - eauto.
  - by left.
  - right. right. done.
  - left. done.
  - eapply layout_write; [exact HL1|by apply stack_own|off..|unfold is_u64, two64; lia].
  - intros. by eapply Hag.
  - unfold m', m1, stack_ent. simpl. rewrite length_app. simpl. split_and!; [done|rewrite word_insert_eq; lia|lia| |].
    + intros i p Hi. rewrite word_insert_ne by lia. destruct (decide (i < length (g_sp g))%nat) as [Hl|Hl].
      * rewrite lookup_app_l in Hi by done. rewrite word_insert_ne by lia. by apply C3.
      * rewrite lookup_app_r in Hi by lia. apply list_lookup_singleton_Some in Hi as [Hi <-].
        replace (Z.of_nat i) with k by lia. by rewrite word_insert_eq.
    + by rewrite !word_insert_ne by lia.
  - simpl. eapply zeroed_agree; [|exact Hz]. by eapply Hag.
  - split; [done|]. eexists. split_and!; [by destruct I1; split|by destruct I2 as [[? ? ? ? ?] ? ?]; split; [split|..]|done|done].
Qed.
End stack_ops.

Section reserve_ops.
Context (s : sdt_state) (g : ghost) (me : Z).
Hypothesis Hinv : inv s g.
Abbreviation stack := (st_prealloc s).
Abbreviation T := (λ _, True).

(** The first page of the reserve becomes the thread's. *)
Lemma take_rsv_inv b0 rv :
  g_rv g = b0 :: rv →
  let m' := <[b0 := 0]> (<[stack_reserve stack := hd0 rv]> (st_mem s)) in
  word (st_mem s) b0 = hd0 rv ∧ mapped (st_runs s) b0 = true ∧
  ∃ g', inv (with_mem (λ _, m') s) g' ∧ evolve T T s g (with_mem (λ _, m') s) g' ∧ same_tree g g' ∧
    g_own g' !! b0 = Some (4096, TPriv me) ∧ zeroed m' b0 4096 ∧ g_sp g' = g_sp g.
Proof.
  intros Erv m'. destruct (stack_content _ _ Hinv) as (_ & C1 & C2 & C3 & C4).
  assert (g_own g !! b0 = Some (4096, TRsv)) as Ho.
  { pose proof (sw_rv _ _ (iv_stack _ _ Hinv)) as H. rewrite Erv, Forall_cons in H. apply H. }
  destruct (iv_content _ _ Hinv _ _ _ Ho) as (_ & Hl & Hz). pose proof (Hl [] rv Erv) as Hw.
  pose proof (ly_own _ _ _ (iv_layout _ _ Hinv) _ _ _ Ho) as Hr.
  assert (∀ b n t, g_own g !! b = Some (n, t) → t ≠ TStack → b ≠ b0 → agree (st_mem s) m' b n) as Hag.
  { intros b n t Hb Ht Hne. eapply agree_trans; [apply agree_insert|apply agree_insert].
    - eapply stack_apart; [done..|]. unfold stack_reserve. lia.
    - destruct (ly_disj _ _ _ (iv_layout _ _ Hinv) _ _ _ _ _ _ Hb Ho Hne) as [?|?]; simpl in *; lia. }
  assert (∀ a, stack <= a < stack + 4096 → a ≠ stack_reserve stack → word m' a = word (st_mem s) a) as Hst.
  { intros a Ha Hne. unfold m'. pose proof (stack_apart s g Hinv _ _ _ a Ho ltac:(done) Ha). rewrite !word_insert_ne; [done|done|lia]. }
  assert (layout (st_runs s) m' (g_own g)) as HL.
  { eapply layout_write; [eapply layout_write; [by apply iv_layout|by apply stack_own|unfold stack_reserve; off..|]|exact Ho|off..|unfold is_u64, two64; lia].
    rewrite <-Hw. apply (ly_u64 _ _ _ (iv_layout _ _ Hinv)). }
  assert (zeroed m' b0 4096) as Hz'.
  { intros a Ha. unfold m'. destruct (decide (b0 = a)) as [<-|]; [by rewrite word_insert_eq|]. rewrite word_insert_ne by done.
    rewrite word_insert_ne; [apply Hz; lia|]. intros <-.
    pose proof (stack_apart s g Hinv _ _ _ (stack_reserve stack) Ho ltac:(done)). unfold stack_reserve in *. lia. }
  split_and!; [done|by eapply mapped_in; [exact Hr|lia..|apply Hr]|].
  destruct (stack_trans s g b0 TRsv (TPriv me) m' (g_sp g) rv) as (I1 & I2 & I3).
  - done.
  - done.
  - by right; left.
  - eauto.
  - by left.
  - right. left. done.
  - done.
  - done.
  - simpl. split_and!; [done|by rewrite Hst by (unfold stack_reserve; lia)|done| |].
    + intros i p Hi. rewrite Hst; [by apply C3|..]; apply lookup_lt_Some in Hi; unfold stack_reserve; lia.
    + unfold m'. rewrite word_insert_ne; [by rewrite word_insert_eq|].
      pose proof (stack_apart s g Hinv _ _ _ (stack_reserve stack) Ho ltac:(done)). unfold stack_reserve in *. lia.
  - done.
  - eexists. split_and!; [exact I1| |done|simpl; by rewrite lookup_insert_eq|done|done].
    destruct I2 as [A B D]. split; [done|done|]. intros b _. destruct (decide (b = b0)) as [->|]; [|by apply D].
    intros n o Hb. congruence.
Qed.

(** A page of the thread goes to the reserve. *)
Lemma put_rsv_inv b0 :
  g_own g !! b0 = Some (4096, TPriv me) → zeroed (st_mem s) b0 4096 →
  let m' := <[stack_reserve stack := b0]> (<[b0 := hd0 (g_rv g)]> (st_mem s)) in
  mapped (st_runs s) b0 = true ∧
  ∃ g', inv (with_mem (λ _, m') s) g' ∧ evolve T (λ b, b ≠ b0) s g (with_mem (λ _, m') s) g' ∧ same_tree g g' ∧ g_sp g' = g_sp g.
Proof.
  intros Ho Hz m'. destruct (stack_content _ _ Hinv) as (_ & C1 & C2 & C3 & C4).
  pose proof (ly_own _ _ _ (iv_layout _ _ Hinv) _ _ _ Ho) as Hr.
  destruct (region_u64 _ _ _ _ _ _ (iv_layout _ _ Hinv) Ho) as [Hu Hnz].
  assert (∀ b n t, g_own g !! b = Some (n, t) → t ≠ TStack → b ≠ b0 → agree (st_mem s) m' b n) as Hag.
  { intros b n t Hb Ht Hne. eapply agree_trans; [apply agree_insert|apply agree_insert].
    - destruct (ly_disj _ _ _ (iv_layout _ _ Hinv) _ _ _ _ _ _ Hb Ho Hne) as [?|?]; simpl in *; lia.
    - eapply stack_apart; [done..|]. unfold stack_reserve. lia. }
  assert (∀ a, stack <= a < stack + 4096 → a < b0 ∨ b0 + 4096 <= a) as Hap by (intros a Ha; by apply (stack_apart s g Hinv _ _ _ a Ho)).
  assert (∀ a, stack <= a < stack + 4096 → a ≠ stack_reserve stack → word m' a = word (st_mem s) a) as Hst.
  { intros a Ha Hne. unfold m'. specialize (Hap a Ha). rewrite !word_insert_ne; [done|lia|done]. }
  specialize (Hap (stack_reserve stack)). unfold stack_reserve in *.
  destruct (stack_trans s g b0 (TPriv me) TRsv m' (g_sp g) (b0 :: g_rv g)) as (I1 & I2 & I3).
  - done.
  - done.
  - eauto.
  - by right; left.
  - by left.
  - right. right. done.
  - eapply layout_write; [eapply layout_write; [by apply iv_layout|exact Ho|off..|by eapply rsv_u64]|by apply stack_own|off..|done].
  - done.
  - simpl. split_and!; [done|by rewrite Hst by lia|done| |].
    + intros i p Hi. rewrite Hst; [by apply C3|..]; apply lookup_lt_Some in Hi; lia.
    + unfold m'. by rewrite word_insert_eq.
  - simpl. split_and!; [lia| |].
    + intros [|x l1] l2 El; injection El; [clear El; intros El; unfold m'; rewrite word_insert_ne by lia; by rewrite word_insert_eq, El|].
      intros El' Ex. exfalso. assert (b0 ∈ g_rv g) as Hin.
      { match goal with E : g_rv g = _ |- _ => rewrite E end. apply elem_of_app. right. left. }
      pose proof (sw_rv _ _ (iv_stack _ _ Hinv)) as H. rewrite Forall_forall in H. specialize (H _ Hin). congruence.
    + intros a Ha. unfold m'. rewrite !word_insert_ne by lia. apply Hz. lia.
  - split; [by eapply mapped_in; [exact Hr|lia..|apply Hr]|]. eexists. split_and!; [exact I1|exact I2|done|done].
Qed.

(** Pages fresh from the kernel are the thread's. *)
Lemma map_inv p nr :
  fresh_run (st_runs s) p (nr * PAGE_SIZE) → 0 < nr →
  ∃ g', inv (map_pages p nr s) g' ∧ evolve T T s g (map_pages p nr s) g' ∧ same_tree g g' ∧
    g_own g' !! p = Some (nr * PAGE_SIZE, TPriv me) ∧ zeroed (st_mem s) p (nr * PAGE_SIZE) ∧ g_sp g' = g_sp g ∧
    g_own g !! p = None.
Proof.
  intros Hf Hnr. unfold PAGE_SIZE in *.
  destruct (layout_map _ _ _ _ _ (nr * 4096) (TPriv me) (iv_layout _ _ Hinv) Hf) as (Hn & Hz & HL); [lia| |].
  { replace (nr * 4096) with (nr * 512 * 8) by lia. apply Z.mod_mul. lia. }
  assert (∀ b v, g_own g !! b = Some v → <[p := (nr * 4096, TPriv me)]> (g_own g) !! b = Some v) as Hk.
  { intros b v Hb. rewrite lookup_insert_ne; [done|]. congruence. }
  assert (∀ b n t, t ≠ TPriv me → <[p := (nr * 4096, TPriv me)]> (g_own g) !! b = Some (n, t) → g_own g !! b = Some (n, t)) as Hb.
  { intros b n t Ht [[_ [= _ <-]]|[_ ?]]%lookup_insert_Some; done. }
  assert (∀ b n t, perm t = true → g_own g !! b = Some (n, t) ↔ <[p := (nr * 4096, TPriv me)]> (g_own g) !! b = Some (n, t)) as Hperm.
  { intros b n t Ht. split; [apply Hk|apply Hb; by intros ->]. }
  exists (gown (<[p := (nr * 4096, TPriv me)]> (g_own g)) g). split_and!; [split|..]; simpl.
  - exact HL.
  - eapply contents_update; [apply (iv_content _ _ Hinv)|]. simpl. intros b n t.
    intros [[_ [= _ <-]]|[_ ?]]%lookup_insert_Some; [by right|left]. split_and!; [done|auto with scx|by destruct t].
  - eapply stack_wf_own; [by apply iv_stack|done..| |]; intros b n t Ht; [apply Hk|apply Hb; naive_solver].
  - eapply pools_wf_own; [by apply iv_pools|done|]. intros b n t Ht. split; [apply Hk|apply Hb; naive_solver].
  - by apply (quiet_tree s (map_pages p nr s) g); eauto.
  - apply quiet_evolve; simpl; try done; eauto with scx.
  - done.
  - by rewrite lookup_insert_eq.
  - done.
  - done.
  - done.
Qed.
End reserve_ops.

(** ** Refilling the stack, with other threads around *)

(** What [bpf_arena_alloc_pages] is documented to return. *)
Definition kernel_ok (k : kernel) : Prop :=
  ∀ runs n p, 0 < n → p ∈ k runs n → p = NULL ∨ fresh_run runs p (n * PAGE_SIZE).

Lemma retry_in n ps : retry_pages n ps = NULL ∨ retry_pages n ps ∈ ps.
Proof.
  revert ps. induction n as [|n IH]; intros [|p ps]; simpl; try by left. case_match; [|right; left].
  destruct (IH ps) as [->|?]; [by left|right; by right].
Qed.

Lemma alloc_pages_spec me s g k nr :
  inv s g → kernel_ok k → 0 < nr →
  wp (arena_alloc_pages_retry k nr) (λ r s', (r = NULL ∧ s' = s) ∨
    (r ≠ NULL ∧ s' = map_pages r nr s ∧ ∃ g', inv s' g' ∧ evolve (λ _, True) (λ _, True) s g s' g' ∧ same_tree g g' ∧
      g_own g' !! r = Some (nr * PAGE_SIZE, TPriv me) ∧ zeroed (st_mem s') r (nr * PAGE_SIZE) ∧ g_sp g' = g_sp g ∧ g_own g !! r = None)) s.
Proof.
  intros Hinv Hk Hnr. unfold arena_alloc_pages_retry. wstep.
  cbv zeta. destruct (retry_in ARENA_ALLOC_PAGES_RETRIES (k (st_runs s) nr)) as [->|Hin]; [apply wp_ret; by left|].
  set (p := retry_pages _ _) in *. destruct (Z.eqb_spec p NULL) as [->|Hp]; [apply wp_ret; by left|].
  destruct (Hk _ _ _ Hnr Hin) as [?|Hf]; [done|]. wstep. apply wp_ret. right. split_and!; [done..|].
  destruct (map_inv s g me Hinv p nr Hf Hnr) as (g' & H). exists g'. naive_solver.
Qed.

(** A step of the environment. *)
Lemma env_step W env s g :
  env_ok W env → inv s g → ∃ g', inv (env s) g' ∧ evolve (owned W g) (held W g) s g (env s) g'.
Proof. intros H. apply H. Qed.

Section refill.
Context (W : Z → Prop) (me : Z) (env : nat → sdt_state → sdt_state) (k : kernel).
Hypothesis HW : W me.
Hypothesis Henv : ∀ i, env_ok W (env i).
Hypothesis Hk : kernel_ok k.

(** Every way to install a page in the stack. *)
Lemma install_wp s1 g1 s g pg :
  inv s g → evolve (owned W g1) (held W g1) s1 g1 s g → g_own g !! pg = Some (4096, TPriv me) → ¬ held W g1 pg →
  zeroed (st_mem s) pg 4096 → (length (g_sp g) < 30)%nat →
  wp (stack_install (st_prealloc s) pg) (λ r s', r ≠ 0 ∧ ∃ g', inv s' g' ∧ evolve (owned W g1) (held W g1) s1 g1 s' g') s.
Proof.
  intros Hinv He Ho Hn Hz Hlen. eapply wp_mono; [by eapply install_spec|].
  intros r s' (-> & g' & I1 & I2 & _ & _). split; [done|]. exists g'. split; [done|]. eapply evolve_trans; [done|].
  eapply evolve_mono, I2; [done|]. intros b Hb ->. done.
Qed.

Lemma scx_alloc_stack_spec s g :
  inv s g →
  wp (scx_alloc_stack env k (st_prealloc s)) (λ r s', ∃ g', inv s' g' ∧ evolve (owned W g) (held W g) s g s' g' ∧
    (r = 0 → (6 <= length (g_sp g'))%nat)) s.
Proof.
  intros Hinv. unfold scx_alloc_stack. wstep. destruct (env_step W (env 0%nat) s g (Henv _) Hinv) as (g0 & Hinv0 & E0).
  rewrite <-(gr_stack _ _ _ _ (ev_grows _ _ _ _ _ _ E0)). set (s0 := env 0%nat s) in *. clearbody s0.
  destruct (stack_content _ _ Hinv0) as (_ & C1 & C2 & C3 & C4).
  wbind. apply wp_ld; [by eapply stack_mapped0|]. unfold stack_idx. rewrite C1. unfold SDT_TASK_ALLOC_STACK_MIN.
  destruct (Z.leb_spec 6 (Z.of_nat (length (g_sp g0)))) as [H6|H6].
  { apply wp_ret. exists g0. split_and!; [done..|]. lia. }
  wbind. apply wp_ld; [by eapply stack_mapped_rsv|].
  change (word (st_mem s0) (stack_reserve (st_prealloc s0))) with (word (st_mem s0) (st_prealloc s0 + 248)). rewrite C4.
  destruct (g_rv g0) as [|b0 rv] eqn:Erv; simpl.
  - (* a page from the kernel *)
    wstep. destruct (env_step W (env 1%nat) s0 g0 (Henv _) Hinv0) as (g1 & Hinv1 & E1).
    pose proof (evolve_me_trans _ _ _ _ _ _ _ E0 E1) as E01. set (s1 := env 1%nat s0) in *.
    rewrite <-(gr_stack _ _ _ _ (ev_grows _ _ _ _ _ _ E1)). clearbody s1.
    wuse (alloc_pages_spec me s1 g1 k 1 Hinv1 Hk ltac:(lia)). intros slab s2 [[-> ->]|(Hp & -> & g2 & Hinv2 & E2 & _ & Ho2 & Hz2 & _ & Hfr)].
    { apply wp_ret. exists g1. split_and!; [done..|]. by unfold ENOMEM. }
    rewrite (proj2 (Z.eqb_neq _ _) Hp). change (1 * PAGE_SIZE) with 4096 in *. set (s2 := map_pages slab 1 s1) in *.
    assert (evolve (owned W g) (held W g) s g s2 g2) as E02.
    { eapply evolve_trans; [exact E01|]. eapply evolve_mono, E2; done. }
    assert (¬ held W g slab) as Hnh. { intros Hh. apply (evolve_held _ _ _ _ _ _ _ E01) in Hh as (o' & n & _ & Hn). congruence. }
    wstep. destruct (env_step W (env 2%nat) s2 g2 (Henv _) Hinv2) as (g3 & Hinv3 & E3).
    pose proof (evolve_me_trans _ _ _ _ _ _ _ (evolve_mono _ _ _ _ _ _ _ _ (λ _ _, I) (λ _ _, I) E2) E3) as E23.
    assert (evolve (owned W g) (held W g) s g (env 2%nat s2) g3) as E03.
    { eapply evolve_trans; [exact E02|]. eapply evolve_mono, E3; intros x; [by eapply evolve_owned|by eapply evolve_held]. }
    destruct (ev_priv _ _ _ _ _ _ E3 slab) with (n := 4096) (o := me) as [Ho3 Ha3]; [by eexists _, _|done|].
    assert (zeroed (st_mem (env 2%nat s2)) slab 4096) as Hz3 by (by eapply zeroed_agree).
    assert (st_prealloc s1 = st_prealloc (env 2%nat s2)) as ->.
    { by rewrite (gr_stack _ _ _ _ (ev_grows _ _ _ _ _ _ E3)). }
    set (s3 := env 2%nat s2) in *. clearbody s3.
    destruct (stack_content _ _ Hinv3) as (_ & D1 & D2 & D3 & D4).
    wbind. apply wp_ld; [by eapply stack_mapped0|]. rewrite D1. unfold SDT_TASK_ALLOC_STACK_MAX.
    destruct (Z.leb_spec 30 (Z.of_nat (length (g_sp g3)))) as [H30|H30].
    + wbind. apply wp_ld; [by eapply stack_mapped_rsv|].
      change (word (st_mem s3) (stack_reserve (st_prealloc s3))) with (word (st_mem s3) (st_prealloc s3 + 248)). rewrite D4.
      destruct (put_rsv_inv s3 g3 me Hinv3 slab Ho3 Hz3) as (Hm & g4 & Hinv4 & E4 & _ & _).
      wbind. apply wp_st; [done|]. wbind. apply wp_st; [by apply (stack_mapped_rsv s3 g3)|]. apply wp_ret.
      exists g4. split_and!; [exact Hinv4| |by unfold EAGAIN]. eapply evolve_trans; [exact E03|].
      eapply evolve_mono, E4; [done|]. intros b Hb ->. done.
    + eapply wp_mono; [eapply (install_wp s g); [exact Hinv3|exact E03|done..|lia]|]. intros r s' (Hr & g' & I1 & I2). exists g'. done.
  - (* a page from the reserve *)
    destruct (take_rsv_inv s0 g0 me Hinv0 b0 rv Erv) as (Hw & Hm & g1 & Hinv1 & E1 & _ & Ho1 & Hz1 & Hs1).
    assert (g_own g0 !! b0 = Some (4096, TRsv)) as Ho.
    { pose proof (sw_rv _ _ (iv_stack _ _ Hinv0)) as H. rewrite Erv, Forall_cons in H. apply H. }
    assert (b0 ≠ 0) as Hb0. { by destruct (region_u64 _ _ _ _ _ _ (iv_layout _ _ Hinv0) Ho). }
    change (hd0 (b0 :: rv)) with b0. rewrite (proj2 (Z.eqb_neq _ _) Hb0). simpl.
    wbind. apply wp_ld; [done|]. rewrite Hw. wbind. apply wp_st; [by eapply stack_mapped_rsv|].
    wbind. apply wp_st; [done|]. eapply wp_mono.
    + refine (install_wp s g _ g1 b0 Hinv1 _ Ho1 _ Hz1 _); [..|rewrite Hs1; lia].
      * eapply evolve_trans; [exact E0|]. by eapply evolve_mono, E1.
      * intros Hh. apply (evolve_held _ _ _ _ _ _ _ E0) in Hh as (o' & n & _ & Hn). congruence.
    + intros r s' (Hr & g' & I1 & I2). exists g'. done.
Qed.
End refill.

Lemma attempt_loop_spec W (me : Z) env ks n i s0 g0 s g :
  W me → (∀ i j, env_ok W (env i j)) → (∀ i, kernel_ok (ks i)) → inv s g →
  evolve (owned W g0) (held W g0) s0 g0 s g →
  wp (attempt_loop n i env ks (st_prealloc s)) (λ r s', ∃ g', inv s' g' ∧ evolve (owned W g0) (held W g0) s0 g0 s' g' ∧
    (r = 0 ∧ (6 <= length (g_sp g'))%nat ∨ r = - ENOMEM)) s.
Proof.
  intros HW Henv Hk. revert i s g. induction n as [|n IH]; intros i s g Hinv E; simpl.
  { apply wp_ret. exists g. split_and!; [done..|by right]. }
  wuse (scx_alloc_stack_spec W me (env i) (ks i) HW (Henv i) (Hk i) s g Hinv). intros r s' (g' & I1 & I2 & I3).
  pose proof (evolve_me_trans _ _ _ _ _ _ _ E I2) as E'. destruct (Z.eqb_spec r 0) as [->|Hr].
  - apply wp_ret. exists g'. split_and!; [done..|left]. split; [done|]. by apply I3.
  - rewrite <-(gr_stack _ _ _ _ (ev_grows _ _ _ _ _ _ I2)). by eapply IH.
Qed.

Lemma scx_alloc_attempt_spec W (me : Z) env ks s g :
  W me → (∀ i j, env_ok W (env i j)) → (∀ i, kernel_ok (ks i)) → inv s g →
  wp (scx_alloc_attempt env ks (st_prealloc s)) (λ r s', ∃ g', inv s' g' ∧ evolve (owned W g) (held W g) s g s' g' ∧
    (r = 0 ∧ (6 <= length (g_sp g'))%nat ∨ r = - ENOMEM)) s.
Proof. intros HW Henv Hk Hinv. eapply attempt_loop_spec; [done..|]. apply evolve_refl. Qed.
