(* ===== verification/SdtCarve.v ===== *)
(** * The object allocator: elements from the pools

    Elements of the shared pools, taken with the lock held, and objects from the
    pool of an allocator, for which the lock is dropped while the kernel maps
    pages. *)

From S2P Require Import Prelude Bitmap BitmapCorrect Bump BumpCorrect Wp SdtAlloc SdtBase SdtMem SdtPool.

(** A private region that is new since [g] may be given away. *)
Lemma evolve_trans_priv U (V : Z → Prop) s g s1 g1 s2 g2 x :
  evolve U V s g s1 g1 → evolve U (λ b, b ≠ x) s1 g1 s2 g2 → (V x → ∀ n o, g_own g !! x ≠ Some (n, TPriv o)) →
  evolve U V s g s2 g2.
Proof.
  intros H1 H2 Hx. split.
  - eapply grows_trans; [apply H1|apply H2].
  - intros h Hh. eapply kept_obj_trans; [apply H1|by apply H1|by apply H2].
  - intros b Hb. destruct (decide (b = x)) as [->|Hne].
    + intros n o Ho. by destruct (Hx Hb n o).
    + eapply kept_priv_trans; [by apply H1|by apply H2].
Qed.

(** ** The shared pools *)
Lemma set_set_pool s p q1 q2 q0 : pool_of s p = Some q0 → set_pool_of p q2 (set_pool_of p q1 s) = set_pool_of p q2 s.
Proof.
  intros Hp. destruct p as [| |al]; [done..|]. unfold set_pool_of. simpl. f_equal.
  rewrite alter_alter_eq. apply alter_ext. by intros a _.
Qed.

Lemma pool_of_mem f s p : pool_of (with_mem f s) p = pool_of s p.
Proof. done. Qed.

(** Room for one more element: in the slab, or a page in the stack. *)
Definition has_room (g : ghost) (q : sdt_pool) : Prop := sp_idx q < sp_max_elems q ∨ g_sp g ≠ [].

(** The end of the function: the next element of the slab. *)
Lemma take_next_spec me s g p q :
  inv s g → pool_of s p = Some q → sp_elem_size q ≠ 0 → sp_idx q < sp_max_elems q →
  wp (set_pool p (pool_at q (sp_slab q) (sp_reserve q) (u64 (sp_idx q + 1)));; mret (pool_ptr q)) (λ r s', ∃ g',
    inv s' g' ∧ evolve (λ _, True) (λ _, True) s g s' g' ∧ same_tree g g' ∧
    g_own g' !! r = Some (sp_elem_size q, TPriv me) ∧ zeroed (st_mem s') r (sp_elem_size q) ∧ g_sp g' = g_sp g ∧
    (∀ n o, g_own g !! r ≠ Some (n, TPriv o)) ∧ st_mem s' = st_mem s ∧ (∀ p', p' ≠ p → pool_of s' p' = pool_of s p') ∧
    (p = DescPool ∨ p = ChunkPool → st_allocs s' = st_allocs s)) s.
Proof.
  intros Hinv Hq Hne Hlt. destruct (carve_ptr s g p q Hinv Hq Hne Hlt) as [Ep Eu]. rewrite Ep, Eu.
  destruct (carve_inv s g p q Hinv Hq Hne Hlt me) as (g' & I1 & I2 & I3 & I4 & I5 & I6).
  destruct (carve_region s g p q Hinv Hq Hne Hlt) as (Ho & _ & _).
  unfold set_pool. wstep. wstep. exists g'. split_and!; [done..| |done| |by destruct p| |].
  - by destruct p.
  - intros n o. congruence.
  - intros p' Hp. rewrite (pool_of_set _ _ _ q) by done. by rewrite decide_False.
  - by intros [->| ->].
Qed.

Lemma from_pool_spec me s g p q :
  inv s g → p = DescPool ∨ p = ChunkPool → pool_of s p = Some q → has_room g q →
  wp (scx_alloc_from_pool p (st_prealloc s)) (λ r s', ∃ g',
    inv s' g' ∧ evolve (λ _, True) (λ _, True) s g s' g' ∧ same_tree g g' ∧
    g_own g' !! r = Some (sp_elem_size q, TPriv me) ∧ zeroed (st_mem s') r (sp_elem_size q) ∧
    (length (g_sp g) <= S (length (g_sp g')))%nat ∧ (∀ n o, g_own g !! r ≠ Some (n, TPriv o)) ∧
    (∀ p', p' ≠ p → pool_of s' p' = pool_of s p') ∧ st_allocs s' = st_allocs s) s.
Proof.
  intros Hinv Hp Hq Hroom. pose proof (iv_pools _ _ Hinv) as [[D1 D2] [K1 K2] _ _].
  assert (sp_elem_size q ≠ 0 ∧ sp_elem_size q <= 4096 ∧ sp_elem_size q * sp_max_elems q <= 4096) as (Hne & Hle & Hfit).
  { destruct Hp as [->| ->]; unfold pool_of in Hq; simpl in Hq; simplify_eq; nia. }
  unfold scx_alloc_from_pool. wbind. eapply wp_get_pool; [done|]. unfold PAGE_SIZE.
  rewrite (proj2 (Z.ltb_ge _ _)) by lia.
  assert (∀ s1 g1 q1, inv s1 g1 → pool_of s1 p = Some q1 → sp_elem_size q1 = sp_elem_size q → sp_idx q1 < sp_max_elems q1 →
    evolve (λ _, True) (λ _, True) s g s1 g1 → same_tree g g1 → (length (g_sp g) <= S (length (g_sp g1)))%nat →
    (∀ b n o, g_own g !! b = Some (n, TPriv o) → g_own g1 !! b = Some (n, TPriv o)) →
    (∀ p', p' ≠ p → pool_of s1 p' = pool_of s p') → st_allocs s1 = st_allocs s →
    wp (q ← get_pool p; set_pool p (pool_at q (sp_slab q) (sp_reserve q) (u64 (sp_idx q + 1)));; mret (pool_ptr q)) (λ r s', ∃ g',
    inv s' g' ∧ evolve (λ _, True) (λ _, True) s g s' g' ∧ same_tree g g' ∧
    g_own g' !! r = Some (sp_elem_size q, TPriv me) ∧ zeroed (st_mem s') r (sp_elem_size q) ∧
    (length (g_sp g) <= S (length (g_sp g')))%nat ∧ (∀ n o, g_own g !! r ≠ Some (n, TPriv o)) ∧
    (∀ p', p' ≠ p → pool_of s' p' = pool_of s p') ∧ st_allocs s' = st_allocs s) s1) as Hfin.
  { intros s1 g1 q1 Hinv1 Hq1 Eq Hlt E1 T1 L1 K Ko Ea. wbind. eapply wp_get_pool; [done|].
    eapply wp_mono; [apply (take_next_spec me s1 g1 p q1); [done..|congruence|done]|].
    intros r s' (g' & I1 & I2 & I3 & I4 & I5 & I6 & I7 & I8 & I9 & I10). rewrite Eq in *. exists g'.
    split_and!; [done|by eapply evolve_trans|by eapply same_tree_trans|done|done|by rewrite I6| | |].
    - intros n o Hn. by eapply I7, K.
    - intros p' Hp'. by rewrite I9, Ko.
    - by rewrite I10, Ea. }
  wbind. destruct (Z.leb_spec (sp_max_elems q) (sp_idx q)) as [Hge|Hlt].
  - destruct Hroom as [?|Hsp]; [lia|]. destruct (exists_last Hsp) as (sp0 & pg & Esp).
    wuse (page_pop_spec s g me Hinv sp0 pg Esp). intros r s1 (-> & (m1 & ->) & g1 & I1 & I2 & I3 & I4 & I5 & I6).
    unfold set_pool. apply wp_modifies.
    destruct (page_to_pool (with_mem (λ _, m1) s) g1 p q pg 4096 me) as (g2 & J1 & J2 & J3 & J4); [done..|lia|].
    destruct (iv_stack _ _ Hinv) as [_ B _ _ _ _ _]. rewrite Esp, Forall_app, Forall_singleton in B.
    eapply Hfin; [exact J1|by rewrite (pool_of_set _ _ _ q), decide_True|done|simpl; destruct (iv_pools _ _ Hinv) as [_ _ P _]; destruct (pw_max _ _ _ (P _ _ Hq Hne)); lia|..].
    + eapply (evolve_trans_priv _ _ _ _ _ _ _ _ pg); [done..|]. intros _ n o Ho. destruct B as [_ B]. congruence.
    + by eapply same_tree_trans.
    + rewrite J4, I6, Esp, length_app. simpl. lia.
    + intros b n o Hb. assert (b ≠ pg) as Hbp by (intros ->; destruct B as [_ B]; congruence).
      apply (ev_priv _ _ _ _ _ _ J2 b Hbp). apply (ev_priv _ _ _ _ _ _ I2 b); done.
    + intros p' Hp'. by rewrite (pool_of_set _ _ _ q), decide_False.
    + by destruct Hp as [->| ->].
  - apply wp_ret. eapply Hfin; [done..|apply evolve_refl|done|lia|done|done|done].
Qed.

(** ** The reserve of the pool of an allocator *)

Definition gprv (own : gmap Z (Z * tag)) (al : Z) (l : list Z) (g : ghost) : ghost :=
  Ghost own (g_nd g) (g_used g) (g_slot g) (g_sp g) (g_rv g) (<[al := l]> (g_prv g)).

Section pool_rsv.
Context (s : sdt_state) (g : ghost) (al : Z) (q : sdt_pool) (b0 n0 v : Z) (t0 t1 : tag) (l : list Z).
Hypothesis Hinv : inv s g.
Hypothesis Hq : pool_of s (DataPool al) = Some q.
Hypothesis Hne : sp_elem_size q ≠ 0.
Abbreviation sz := (sp_elem_size q * sp_max_elems q).
Hypothesis Ho : g_own g !! b0 = Some (n0, t0).
Hypothesis Ht0 : t0 = TPoolRsv al ∨ ∃ o, t0 = TPriv o.
Hypothesis Ht1 : t1 = TPoolRsv al ∨ ∃ o, t1 = TPriv o.
Hypothesis Hl : chain_step (TPoolRsv al) b0 t0 t1 (pool_rsv g (DataPool al)) l.
Hypothesis Hn : sz <= n0.
Hypothesis Hv : is_u64 v.
Abbreviation own' := (<[b0 := (sz, t1)]> (g_own g)).
Abbreviation g' := (gprv own' al l g).
Abbreviation m' := (<[b0 := v]> (st_mem s)).
Abbreviation s' := (set_pool_of (DataPool al) (pool_at q (sp_slab q) (hd0 l) (sp_idx q)) (with_mem <[b0 := v]> s)).

Lemma rsv_size : 16 <= sz ∧ sz mod 8 = 0.
Proof.
  destruct (pl_pool _ _ _ _ (iv_pools _ _ Hinv) _ _ Hq Hne) as [[W1 W1'] [W2 _] _ _ _ _ _ _].
  split; [nia|]. by rewrite Z.mul_mod, W1' by lia.
Qed.

Lemma pool_rsv_trans :
  content m' g' b0 sz t1 →
  inv s' g' ∧ evolve (λ _, True) (λ b, b ≠ b0) s g s' g' ∧ same_tree g g'.
Proof.
  intros Hc. destruct rsv_size as [Hs16 Hs8]. pose proof (pl_pool _ _ _ _ (iv_pools _ _ Hinv) _ _ Hq Hne) as [W1 W2 W3 W4 W5 W6 W7 W8].
  assert (perm t0 = false) as Hp0 by (clear -Ht0; naive_solver). assert (perm t1 = false) as Hp1 by (clear -Ht1; naive_solver).
  destruct (chain_trans (g_own g) (TPoolRsv al) sz b0 n0 sz t0 t1 (pool_rsv g (DataPool al)) l) as (R1 & R2 & R3 & R4); [done..|by apply W7|done|intros; by eapply W8|].
  assert (∀ b n t, perm t = true → g_own g !! b = Some (n, t) ↔ own' !! b = Some (n, t)) as Hperm by (intros; eapply retag_perm; [done..|lia|done|done]).
  assert (∀ b n t, b ≠ b0 → g_own g !! b = Some (n, t) → agree (st_mem s) m' b n) as Hag.
  { intros b n t Hb Hb'. apply agree_insert. destruct (ly_disj _ _ _ (iv_layout _ _ Hinv) _ _ _ _ _ _ Hb' Ho Hb) as [?|?]; simpl in *; lia. }
  assert (t0 ≠ TPoolRsv al → ∀ al', t0 ≠ TPoolRsv al') as Ht0' by (clear -Ht0; naive_solver).
  assert (t1 ≠ TPoolRsv al → ∀ al', t1 ≠ TPoolRsv al') as Ht1' by (clear -Ht1; naive_solver).
  split_and!; [split|..]; simpl.
  - eapply layout_shrink; [|done|lia|done]. eapply layout_write; [by apply iv_layout|done|off..|done].
  - eapply contents_update; [apply (iv_content _ _ Hinv)|]. simpl. intros b n t Hb.
    destruct (decide (b = b0)) as [->|Hbb]; [rewrite lookup_insert_eq in Hb; simplify_eq; by right|].
    rewrite lookup_insert_ne in Hb by done. specialize (Hag _ _ _ Hbb Hb).
    destruct t as [| | |o|p|al'|P|P|h]; try (left; by split_and!).
    destruct (decide (al' = al)) as [->|]; [|left; split_and!; [done..|simpl; by rewrite lookup_insert_ne]].
    right. destruct (iv_content _ _ Hinv _ _ _ Hb) as (C1 & C2 & C3). simpl. rewrite lookup_insert_eq. split_and!; [done|..].
    + apply R4; [done|]. by eapply linked_agree.
    + eapply zeroed_agree, C3. eapply agree_sub; [done|lia..].
  - eapply stack_wf_own; [by apply iv_stack|done..| |]; intros b n t Ht Hb.
    + eapply retag_keep; [done| |done]. clear -Ht Ht0. naive_solver.
    + eapply retag_back; [|exact Hb]. clear -Ht Ht1. naive_solver.
  - destruct (iv_pools _ _ Hinv) as [P1 P2 P3 P4]. split; [done..| |].
    2: { eapply unset_mono; [exact P4|]. intros al' Hal. change (esize (st_allocs s') al' = 0) in Hal. unfold esize in *. rewrite (dims_set (with_mem <[b0:=v]> s) _ _ q) in Hal by done.
      assert (al' ≠ al) as Hne'. { intros ->. unfold pool_of in Hq. simpl in Hq. unfold dims in Hal. simpl in Hal. destruct (st_allocs s !! al); naive_solver. }
      split_and!; [done|simpl; by rewrite lookup_insert_ne|]. intros b n Hb. eapply retag_back; [|exact Hb]. clear -Ht1 Hne'. naive_solver. }
    intros p' q1 Hq1 Hne1. change (pool_of s' p' = Some q1) in Hq1. rewrite (pool_of_set _ _ _ q) in Hq1 by done.
    case_decide as Hp'; [subst p'; injection Hq1 as <-|].
    + split; simpl; try done; rewrite ?lookup_insert_eq; simpl; try done.
      * intros Hi. eapply retag_keep; [done| |by apply W4]. clear -Ht0. naive_solver.
      * intros al' [= <-]. done.
      * intros al' b n [= <-]. apply R3.
    + eapply pool_wf_own; [by apply P3|..]; simpl.
      * destruct p' as [| |al']; [done..|]. simpl. rewrite lookup_insert_ne; [done|congruence].
      * intros b n Hb. eapply retag_keep; [done| |done]. clear -Ht0. naive_solver.
      * intros b n al' ->. split; intros Hb.
        -- eapply retag_keep; [done| |done]. clear -Ht0 Hp'. naive_solver.
        -- eapply retag_back; [|exact Hb]. clear -Ht1 Hp'. naive_solver.
  - apply (quiet_tree s s' g); [done|done|done|intros; by eapply (dims_set (with_mem <[b0:=v]> s))|intros al' a'; apply (set_pool_root (with_mem <[b0:=v]> s) (DataPool al))].
  - apply quiet_evolve; simpl; try done.
    + intros; by eapply (dims_set (with_mem <[b0:=v]> s) (DataPool al)).
    + intros al'. apply (set_pool_dom (with_mem <[b0:=v]> s) (DataPool al)).
    + intros e n h He. eapply Hag; [|done]. intros ->. rewrite Ho in He. by simplify_eq.
    + intros b n o Hb He. rewrite lookup_insert_ne by done. split; [done|]. by eapply Hag.
  - done.
Qed.
End pool_rsv.

Section data_pool.
Context (me : Z) (s : sdt_state) (g : ghost) (al : Z) (q : sdt_pool).
Hypothesis Hinv : inv s g.
Hypothesis Hq : pool_of s (DataPool al) = Some q.
Hypothesis Hne : sp_elem_size q ≠ 0.
Abbreviation sz := (sp_elem_size q * sp_max_elems q).
Abbreviation T := (λ _, True).

Lemma pool_take b0 l :
  pool_rsv g (DataPool al) = b0 :: l →
  let s' := set_pool_of (DataPool al) (pool_at q (sp_slab q) (hd0 l) (sp_idx q)) (with_mem <[b0 := 0]> s) in
  word (st_mem s) b0 = hd0 l ∧ mapped (st_runs s) b0 = true ∧ b0 ≠ 0 ∧ (∀ n o, g_own g !! b0 ≠ Some (n, TPriv o)) ∧
  ∃ g', inv s' g' ∧ evolve T T s g s' g' ∧ g_own g' !! b0 = Some (sz, TPriv me) ∧ zeroed (st_mem s') b0 sz ∧ same_tree g g'.
Proof.
  intros Er s'. pose proof (pl_pool _ _ _ _ (iv_pools _ _ Hinv) _ _ Hq Hne) as [W1 W2 W3 W4 W5 W6 W7 W8].
  destruct (rsv_size s g al q Hinv Hq Hne) as [Hs16 Hs8].
  assert (g_own g !! b0 = Some (sz, TPoolRsv al)) as Ho.
  { specialize (W7 al eq_refl). rewrite Er, Forall_cons in W7. apply W7. }
  destruct (iv_content _ _ Hinv _ _ _ Ho) as (_ & Hlk & Hz). pose proof (ly_own _ _ _ (iv_layout _ _ Hinv) _ _ _ Ho) as Hr.
  assert (zeroed (<[b0 := 0]> (st_mem s)) b0 sz) as Hz'.
  { intros a Ha. rewrite word_insert. case_decide; [done|]. apply Hz. lia. }
  destruct (pool_rsv_trans s g al q b0 sz 0 (TPoolRsv al) (TPriv me) l) as (I1 & I2 & I3).
  - done.
  - done.
  - done.
  - done.
  - by left.
  - eauto.
  - right. left. done.
  - lia.
  - unfold is_u64, two64. lia.
  - done.
  - split_and!.
    + by apply (Hlk [] l).
    + eapply mapped_in; [exact Hr|lia..|apply Hr].
    + apply Z.neq_sym, Z.lt_neq, Hr.
    + intros n o. congruence.
    + eexists. split_and!; [exact I1| |simpl; by rewrite lookup_insert_eq|done|done].
      destruct I2 as [A B D]. split; [done|done|]. intros b _. destruct (decide (b = b0)) as [->|]; [|by apply D].
      intros n o Hb. congruence.
Qed.

Lemma pool_put b0 n :
  g_own g !! b0 = Some (n, TPriv me) → zeroed (st_mem s) b0 n → sz <= n →
  let s' := set_pool_of (DataPool al) (pool_at q (sp_slab q) b0 (sp_idx q)) (with_mem <[b0 := sp_reserve q]> s) in
  mapped (st_runs s) b0 = true ∧ ∃ g', inv s' g' ∧ evolve T (λ b, b ≠ b0) s g s' g' ∧ same_tree g g'.
Proof.
  intros Ho Hz Hn s'. pose proof (pl_pool _ _ _ _ (iv_pools _ _ Hinv) _ _ Hq Hne) as [W1 W2 W3 W4 W5 W6 W7 W8].
  destruct (rsv_size s g al q Hinv Hq Hne) as [Hs16 Hs8]. pose proof (ly_own _ _ _ (iv_layout _ _ Hinv) _ _ _ Ho) as Hr.
  specialize (W7 al eq_refl). rewrite Forall_forall in W7.
  destruct (pool_rsv_trans s g al q b0 n (sp_reserve q) (TPriv me) (TPoolRsv al) (b0 :: pool_rsv g (DataPool al))) as (I1 & I2 & I3).
  - done.
  - done.
  - done.
  - done.
  - eauto.
  - by left.
  - right. right. done.
  - lia.
  - rewrite W5. destruct (pool_rsv g (DataPool al)) as [|b1 l1]; [unfold is_u64, two64, hd0; simpl; lia|].
    destruct (region_u64 _ _ _ _ _ _ (iv_layout _ _ Hinv) (W7 b1 ltac:(left))). done.
  - simpl. rewrite lookup_insert_eq. simpl. split_and!; [lia| |].
    + intros [|x l1] l2 El; injection El; [intros <-; by rewrite word_insert_eq, W5|].
      intros El' Ex. exfalso. assert (b0 ∈ pool_rsv g (DataPool al)) as Hin.
      { simpl. rewrite El'. apply elem_of_app. right. left. }
      apply W7 in Hin. congruence.
    + intros a Ha. rewrite word_insert_ne by lia. apply Hz. lia.
  - split; [eapply mapped_in; [exact Hr|lia..|apply Hr]|]. eexists. split_and!; [exact I1|exact I2|done].
Qed.
End data_pool.

(** The pool of an allocator that is in use. *)
Lemma data_pool_of s g al : inv s g → 16 <= esize (st_allocs s) al →
  ∃ q, pool_of s (DataPool al) = Some q ∧ sp_elem_size q = esize (st_allocs s) al ∧ sp_elem_size q ≠ 0 ∧ pool_wf g (DataPool al) q ∧
    dims (st_allocs s) al = (sp_elem_size q, sp_max_elems q).
Proof.
  intros Hinv He. unfold pool_of, esize, dims in *. simpl. destruct (st_allocs s !! al) as [a|] eqn:E; simpl in *; [|lia].
  exists (sa_pool a). split_and!; [done..|lia| |done]. eapply (pl_pool _ _ _ _ (iv_pools _ _ Hinv)); [simpl; by rewrite E|lia].
Qed.

Lemma slab_pages n : 0 < n → n + 8192 < two64 →
  let nr := u64 (u64 n + PAGE_SIZE - 1) / PAGE_SIZE in 0 < nr ∧ n <= nr * PAGE_SIZE.
Proof.
  intros H1 H2. unfold PAGE_SIZE. rewrite (u64_small n), u64_small by (unfold is_u64; lia).
  pose proof (Z.div_mod (n + 4096 - 1) 4096 ltac:(lia)). pose proof (Z.mod_pos_bound (n + 4096 - 1) 4096 ltac:(lia)). lia.
Qed.

Section sleepable.
Context (W : Z → Prop) (me : Z) (env : nat → sdt_state → sdt_state) (k : kernel) (al : Z).
Hypothesis HW : W me.
Hypothesis Henv : ∀ i, env_ok W (env i).
Hypothesis Hk : kernel_ok k.

(** What the function delivers, seen from the start [s0], [g0]. *)
Definition sleepable_post (s0 : sdt_state) (g0 : ghost) (r : Z) (s' : sdt_state) : Prop :=
  ∃ g', inv s' g' ∧ evolve (owned W g0) (held W g0) s0 g0 s' g' ∧
    (r = NULL ∨ g_own g' !! r = Some (esize (st_allocs s0) al, TPriv me) ∧ ¬ held W g0 r ∧
       zeroed (st_mem s') r (esize (st_allocs s0) al)).

Lemma sleepable_take s0 g0 s g q :
  inv s g → evolve (owned W g0) (held W g0) s0 g0 s g → pool_of s (DataPool al) = Some q → sp_elem_size q ≠ 0 →
  sp_elem_size q = esize (st_allocs s0) al → sp_idx q < sp_max_elems q →
  wp (set_pool (DataPool al) (pool_at q (sp_slab q) (sp_reserve q) (u64 (sp_idx q + 1)));; mret (pool_ptr q)) (sleepable_post s0 g0) s.
Proof.
  intros Hinv He Hq Hne Es Hlt. eapply wp_mono; [by apply (take_next_spec me s g)|].
  intros r s' (g' & I1 & I2 & I3 & I4 & I5 & I6 & I7 & _). exists g'. rewrite Es in *. split_and!; [done| |right].
  - eapply evolve_trans; [exact He|]. by eapply evolve_mono, I2.
  - split_and!; [done| |done]. intros Hh. apply (evolve_held _ _ _ _ _ _ _ He) in Hh as (o' & n & _ & Hn). by eapply I7.
Qed.

Lemma sleepable_spec s g :
  inv s g → 16 <= esize (st_allocs s) al →
  wp (scx_alloc_from_pool_sleepable env k (DataPool al)) (sleepable_post s g) s.
Proof.
  intros Hinv Hal. destruct (data_pool_of s g al Hinv Hal) as (q & Hq & Es & Hne & Hw & Hd).
  unfold scx_alloc_from_pool_sleepable. wbind. eapply wp_get_pool; [done|].
  destruct (Z.ltb_spec (sp_idx q) (sp_max_elems q)) as [Hlt|Hge].
  { eapply sleepable_take; [done|apply evolve_refl|done..]. }
  rewrite (pw_rsv _ _ _ Hw). destruct (pool_rsv g (DataPool al)) as [|b0 l] eqn:Er.
  - (* fresh pages *)
    change (hd0 []) with 0. simpl. wstep. destruct (env_step W (env 0%nat) s g (Henv _) Hinv) as (g1 & Hinv1 & E1).
    set (s1 := env 0%nat s) in *. clearbody s1. destruct (pw_elem _ _ _ Hw) as [W1 _], (pw_max _ _ _ Hw) as [W2 W2'].
    destruct (slab_pages (sp_max_elems q * sp_elem_size q)) as [Hnr Hsz]; [nia|lia|]. set (nr := _ / PAGE_SIZE) in *.
    wuse (alloc_pages_spec me s1 g1 k nr Hinv1 Hk Hnr). intros slab s2 [[-> ->]|(Hp & Es2 & g2 & Hinv2 & E2 & T2 & Ho2 & Hz2 & _ & Hfr)].
    { apply wp_ret. exists g1. split_and!; [done..|by left]. }
    rewrite (proj2 (Z.eqb_neq _ _) Hp). assert (evolve (owned W g) (held W g) s g s2 g2) as E02.
    { eapply evolve_trans; [exact E1|]. eapply evolve_mono, E2; done. }
    assert (¬ held W g slab) as Hnh. { intros Hh. apply (evolve_held _ _ _ _ _ _ _ E1) in Hh as (o' & n & _ & Hn). congruence. }
    wstep. destruct (env_step W (env 1%nat) s2 g2 (Henv _) Hinv2) as (g3 & Hinv3 & E3).
    assert (evolve (owned W g) (held W g) s g (env 1%nat s2) g3) as E03.
    { eapply evolve_trans; [exact E02|]. eapply evolve_mono, E3; intros x; [by eapply evolve_owned|by eapply evolve_held]. }
    destruct (ev_priv _ _ _ _ _ _ E3 slab) with (n := nr * PAGE_SIZE) (o := me) as [Ho3 Ha3]; [by eexists _, _|done|].
    assert (zeroed (st_mem (env 1%nat s2)) slab (nr * PAGE_SIZE)) as Hz3 by (by eapply zeroed_agree).
    set (s3 := env 1%nat s2) in *. clearbody s3.
    pose proof (gr_size _ _ _ _ (ev_grows _ _ _ _ _ _ E03) al Hal) as Hd3.
    destruct (data_pool_of s3 g3 al Hinv3) as (q3 & Hq3 & Es3 & Hne3 & Hw3 & Hd3'); [unfold esize in *; by rewrite Hd3|].
    rewrite Hd3', Hd in Hd3. injection Hd3 as Ee Em. wbind. eapply wp_get_pool; [done|]. rewrite <-Em.
    destruct (Z.leb_spec (sp_max_elems q3) (sp_idx q3)) as [Hge3|Hlt3].
    + destruct (page_to_pool s3 g3 (DataPool al) q3 slab (nr * PAGE_SIZE) me) as (g4 & Hinv4 & E4 & T4 & _); [done..|rewrite Ee, Em; lia|].
      wbind. apply wp_modifies. wbind. eapply wp_get_pool; [by rewrite (pool_of_set _ _ _ q3), decide_True|].
      rewrite <-Ee.
      refine (sleepable_take s g _ g4 (pool_at q3 slab (sp_reserve q3) 0) Hinv4 _ _ Hne3 _ _).
      * eapply (evolve_trans_priv _ _ _ _ _ _ _ _ slab); [exact E03|by eapply evolve_mono, E4|].
        intros Hh. done.
      * by rewrite (pool_of_set _ _ _ q3), decide_True.
      * by rewrite <-Es, <-Ee.
      * simpl. lia.
    + destruct (pool_put me s3 g3 al q3 Hinv3 Hq3 Hne3 slab _ Ho3 Hz3) as (Hm & g4 & Hinv4 & E4 & T4); [rewrite Ee, Em; lia|].
      wbind. apply wp_bind. apply wp_st; [done|]. apply wp_modifies.
      wbind. eapply wp_get_pool; [by rewrite (pool_of_set _ _ _ q3), decide_True|]. rewrite <-Ee.
      refine (sleepable_take s g _ g4 (pool_at q3 (sp_slab q3) slab (sp_idx q3)) Hinv4 _ _ Hne3 _ _).
      * eapply (evolve_trans_priv _ _ _ _ _ _ _ _ slab); [exact E03|by eapply evolve_mono, E4|].
        intros Hh. done.
      * by rewrite (pool_of_set _ _ _ q3), decide_True.
      * by rewrite <-Es, <-Ee.
      * done.
  - (* a slab of the reserve *)
    destruct (pool_take me s g al q Hinv Hq Hne b0 l Er) as (Hw0 & Hm & Hb0 & Hnp & g1 & Hinv1 & E1 & Ho1 & Hz1 & T1).
    change (hd0 (b0 :: l)) with b0. rewrite (proj2 (Z.eqb_neq _ _) Hb0). simpl.
    wbind. apply wp_ld; [done|]. rewrite Hw0. wbind. apply wp_st; [done|].
    set (s1 := set_pool_of _ _ _) in Hinv1, E1. set (q1 := pool_at q (sp_slab q) (hd0 l) (sp_idx q)) in *.
    assert (pool_of s1 (DataPool al) = Some q1) as Hq1 by (unfold s1; by rewrite (pool_of_set _ _ _ q), decide_True).
    destruct (page_to_pool s1 g1 (DataPool al) q1 b0 _ me Hinv1 Hq1 Hne Hge Ho1 Hz1) as (g2 & Hinv2 & E2 & T2 & _); [simpl; lia|].
    set (s2 := set_pool_of _ _ _) in Hinv2, E2. set (q2 := pool_at q1 b0 (sp_reserve q1) 0) in *.
    assert (pool_of s2 (DataPool al) = Some q2) as Hq2 by (unfold s2; by rewrite (pool_of_set _ _ _ q1), decide_True).
    destruct (pw_max _ _ _ Hw) as [W2 W2'].
    assert (evolve (owned W g) (held W g) s g s2 g2) as E02.
    { eapply (evolve_trans_priv _ _ _ _ _ _ _ _ b0); [by eapply evolve_mono, E1|by eapply evolve_mono, E2|]. done. }
    pose proof (sleepable_take s g s2 g2 q2 Hinv2 E02 Hq2 Hne Es ltac:(simpl; lia)) as HT.
    apply wp_run in HT as (r & s' & HT & HP). eapply wp_eq; [|exact HP]. rewrite <-HT.
    destruct (carve_ptr s2 g2 (DataPool al) q2 Hinv2 Hq2 Hne ltac:(simpl; lia)) as [Ep Eu].
    unfold set_pool, mbind, ST_bind, modifies, mret, ST_ret. rewrite Ep, Eu. f_equal. f_equal.
    + simpl. lia.
    + unfold s2, s1. rewrite (set_set_pool _ _ _ _ q1), (set_set_pool _ _ _ _ q); [done|done|exact Hq1].
Qed.
End sleepable.
