(* ===== verification/SdtTree.v ===== *)
(** * The object allocator: the radix tree

    Finding a free entry, adding a node, and marking an index as used or free on
    its way to the root. *)

From S2P Require Import Prelude Bitmap BitmapCorrect Bump BumpCorrect Wp SdtAlloc SdtBase SdtMem SdtPool SdtCarve.

Lemma pos_split i j : 0 <= j < 64 → (i * 64 + j) / 64 = i ∧ (i * 64 + j) mod 64 = j.
Proof.
  intros Hj. split; [by rewrite Z.div_add_l, Z.div_small, Z.add_0_r by lia|].
  by rewrite (Z.add_comm (i * 64)), Z.mod_add, Z.mod_small by lia.
Qed.

Lemma pos_off pos : 0 <= pos < 512 → 0 <= pos / 64 < 8.
Proof. split; [apply Z.div_pos; lia|apply Z.div_lt_upper_bound; lia]. Qed.

(** ** The first free entry of a node *)
Lemma find_empty_loop_spec s d (B : gset Z) n i :
  (∀ j, 0 <= j < 8 → mapped (st_runs s) (d + 8 * j) = true) → (∀ a, is_u64 (word (st_mem s) a)) →
  bits_at (st_mem s) d B → 0 <= i → i + Z.of_nat n = 8 → (∀ p, 0 <= p < 64 * i → p ∈ B) →
  wp (find_empty_loop n i d) (λ r s', s' = s ∧ 0 <= r <= 512 ∧ (∀ p, 0 <= p < r → p ∈ B) ∧ (r < 512 → r ∉ B)) s.
Proof.
  intros Hm Hu Hb. revert i. induction n as [|n IH]; intros i Hi Hn Hp; simpl.
  { apply wp_ret. unfold SDT_TASK_ENTS_PER_CHUNK. split_and!; [done|lia..| |lia]. intros p Hp'. apply Hp. lia. }
  wbind. unfold desc_allocated. apply wp_ld; [apply Hm; lia|]. cbv zeta. set (w := word (st_mem s) (d + 8 * i)).
  assert (∀ j, 0 <= j < 64 → Z.testbit (u64_not w) j = negb (bool_decide (i * 64 + j ∈ B))) as Hw.
  { intros j Hj. rewrite testbit_not by lia. f_equal. rewrite <-Hb by lia.
    by destruct (pos_split i j Hj) as [-> ->]. }
  destruct (Z.eqb_spec (u64_not w) 0) as [E0|E0].
  - apply IH; [lia..|]. intros p Hp'. destruct (decide (p < 64 * i)) as [?|Hge]; [apply Hp; lia|].
    specialize (Hw (p - i * 64) ltac:(lia)). rewrite E0, Z.testbit_0_l in Hw. symmetry in Hw.
    apply negb_false_iff, bool_decide_eq_true in Hw. by replace (i * 64 + (p - i * 64)) with p in Hw by lia.
  - apply wp_ret. destruct (scx_ffs_spec (u64_not w) (u64_range _) E0) as (F1 & F2 & F3). split_and!; [done|lia..| |].
    + intros p Hp'. destruct (decide (p < 64 * i)) as [?|Hge]; [apply Hp; lia|].
      specialize (Hw (p - i * 64) ltac:(lia)). rewrite F3 in Hw by lia. symmetry in Hw.
      apply negb_false_iff, bool_decide_eq_true in Hw. by replace (i * 64 + (p - i * 64)) with p in Hw by lia.
    + intros _. rewrite Hw in F2 by lia. by apply negb_true_iff, bool_decide_eq_false in F2.
Qed.

(** ** Nodes in memory *)
Section node.
Context (s : sdt_state) (g : ghost) (P : list Z) (nd : node).
Hypothesis Hinv : inv s g.
Hypothesis Hnd : g_nd g !! P = Some nd.

Lemma node_wf_of : node_wf g P nd.
Proof. by apply (tw_node _ _ (iv_tree _ _ Hinv)). Qed.

Lemma desc_region : region_ok (st_runs s) (n_desc nd) 80.
Proof. eapply ly_own; [by apply iv_layout|apply node_wf_of]. Qed.

Lemma chunk_region : region_ok (st_runs s) (n_chunk nd) 4096.
Proof. eapply ly_own; [by apply iv_layout|apply node_wf_of]. Qed.

Lemma desc_mapped k : 0 <= k < 10 → mapped (st_runs s) (n_desc nd + 8 * k) = true.
Proof.
  intros Hk. eapply mapped_in; [apply desc_region|lia..|]. destruct desc_region as [? ? B8 _ _ _].
  rewrite Zplus_mod, B8, Z.mul_comm, Z.mod_mul by lia. done.
Qed.

Lemma slot_mapped pos : 0 <= pos < 512 → mapped (st_runs s) (chunk_slot (n_chunk nd) pos) = true.
Proof.
  intros Hk. unfold chunk_slot. eapply mapped_in; [apply chunk_region|lia..|]. destruct chunk_region as [? ? B8 _ _ _].
  rewrite Zplus_mod, B8, Z.mul_comm, Z.mod_mul by lia. done.
Qed.

Lemma desc_words : bits_at (st_mem s) (n_desc nd) (n_bits nd) ∧
  word (st_mem s) (desc_nr_free (n_desc nd)) = 512 - Z.of_nat (size (n_bits nd)) ∧
  word (st_mem s) (desc_chunk (n_desc nd)) = n_chunk nd.
Proof.
  pose proof (iv_content _ _ Hinv _ _ _ (nw_desc _ _ _ node_wf_of)) as (_ & nd' & E & _ & H). rewrite Hnd in E. injection E as <-. done.
Qed.

Lemma slot_word pos : 0 <= pos < 512 → word (st_mem s) (chunk_slot (n_chunk nd) pos) = slotval g P pos.
Proof. intros Hp. pose proof (iv_content _ _ Hinv _ _ _ (nw_chunk _ _ _ node_wf_of)) as (_ & _ & H). by apply H. Qed.

Lemma find_empty_spec :
  wp (chunk_find_empty (n_desc nd)) (λ r s', s' = s ∧ 0 <= r <= 512 ∧ (∀ p, 0 <= p < r → p ∈ n_bits nd) ∧ (r < 512 → r ∉ n_bits nd)) s.
Proof.
  apply find_empty_loop_spec; [|by apply (ly_u64 _ _ _ (iv_layout _ _ Hinv))|by apply desc_words|lia|done|lia].
  intros j Hj. apply desc_mapped. lia.
Qed.

Lemma wp_ld_chunk (Q : Z → sdt_state → Prop) : Q (n_chunk nd) s → wp (ld (desc_chunk (n_desc nd))) Q s.
Proof. intros HQ. apply wp_ld; [apply (desc_mapped 9); lia|]. by rewrite (proj2 (proj2 desc_words)). Qed.

Lemma wp_ld_slot pos (Q : Z → sdt_state → Prop) : 0 <= pos < 512 → Q (slotval g P pos) s → wp (ld (chunk_slot (n_chunk nd) pos)) Q s.
Proof. intros Hp HQ. apply wp_ld; [by apply slot_mapped|]. by rewrite slot_word. Qed.

Lemma node_nonnull : n_desc nd ≠ 0.
Proof. destruct desc_region. lia. Qed.
End node.

(** ** Sets of positions *)
Definition all_pos : gset Z := list_to_set (seqZ 0 512).
Lemma elem_of_all_pos x : x ∈ all_pos ↔ 0 <= x < 512.
Proof. unfold all_pos. rewrite elem_of_list_to_set, elem_of_seqZ. lia. Qed.

Lemma size_all_pos : size all_pos = 512%nat.
Proof. unfold all_pos. rewrite size_list_to_set by apply NoDup_seqZ. by rewrite length_seqZ. Qed.

Lemma full_iff (B : gset Z) : (∀ p, p ∈ B → 0 <= p < 512) → size B = 512%nat ↔ ∀ p, 0 <= p < 512 → p ∈ B.
Proof.
  intros Hr. assert (B ⊆ all_pos) as Hs by (intros x Hx; by apply elem_of_all_pos, Hr). split.
  - intros E p Hp. assert (B = all_pos) as ->; [|by apply elem_of_all_pos].
    apply set_subseteq_size_eq; [done|]. by rewrite size_all_pos, E.
  - intros H. assert (B = all_pos) as ->; [|apply size_all_pos]. apply set_eq. intros x. rewrite elem_of_all_pos. naive_solver.
Qed.

Lemma size_le_512 (B : gset Z) : (∀ p, p ∈ B → 0 <= p < 512) → (size B <= 512)%nat.
Proof. intros Hr. rewrite <-size_all_pos. apply subseteq_size. intros x Hx. by apply elem_of_all_pos, Hr. Qed.

(** ** Bits *)
Definition upd_bits (b : bool) (pos : Z) (B : gset Z) : gset Z := if b then {[pos]} ∪ B else B ∖ {[pos]}.

Lemma elem_of_upd_bits b pos B x : x ∈ upd_bits b pos B ↔ if decide (x = pos) then b = true else x ∈ B.
Proof. destruct b; simpl; case_decide; set_solver. Qed.

Definition upd_word (b : bool) (w pos : Z) : Z :=
  if b then Z.lor w (bit64 (pos mod 64)) else Z.land w (u64_not (bit64 (pos mod 64))).

Lemma upd_word_u64 b w pos : is_u64 w → is_u64 (upd_word b w pos).
Proof.
  intros Hw. pose proof (Z.mod_pos_bound pos 64 ltac:(lia)). destruct b; simpl; [apply u64_lor; [done|by apply u64_bit64]|].
  apply u64_land; [done|apply u64_range].
Qed.

Lemma upd_word_bit b w pos j : 0 <= j < 64 → Z.testbit (upd_word b w pos) j = if j =? pos mod 64 then b else Z.testbit w j.
Proof.
  intros Hj. pose proof (Z.mod_pos_bound pos 64 ltac:(lia)). destruct b; simpl.
  - rewrite Z.lor_spec, testbit_bit64 by lia. case_match; [by rewrite orb_true_r|by rewrite orb_false_r].
  - rewrite Z.land_spec, testbit_not, testbit_bit64 by lia. case_match; [by rewrite andb_false_r|by rewrite andb_true_r].
Qed.

Lemma bits_at_upd m d B b pos :
  bits_at m d B → 0 <= pos < 512 →
  bits_at (<[d + 8 * (pos / 64) := upd_word b (word m (d + 8 * (pos / 64))) pos]> m) d (upd_bits b pos B).
Proof.
  intros Hb Hp x Hx. pose proof (Z.mod_pos_bound x 64 ltac:(lia)). pose proof (Z.div_mod x 64 ltac:(lia)).
  pose proof (Z.mod_pos_bound pos 64 ltac:(lia)). pose proof (Z.div_mod pos 64 ltac:(lia)).
  destruct (decide (x / 64 = pos / 64)) as [Eq|Ne].
  - rewrite Eq, word_insert_eq, upd_word_bit by lia. destruct (Z.eqb_spec (x mod 64) (pos mod 64)) as [Em|Nm].
    + assert (x = pos) as -> by lia. symmetry. destruct b; [apply bool_decide_eq_true|apply bool_decide_eq_false];
        rewrite elem_of_upd_bits, decide_True by done; done.
    + rewrite <-Eq, (Hb x Hx). apply bool_decide_ext. rewrite elem_of_upd_bits, decide_False; [done|]. congruence.
  - rewrite word_insert_ne by lia. rewrite (Hb x Hx). apply bool_decide_ext. rewrite elem_of_upd_bits, decide_False; [done|]. congruence.
Qed.

Lemma size_upd_add pos B : pos ∉ B → size (upd_bits true pos B) = S (size B).
Proof. intros Hp. simpl. rewrite size_union by set_solver. by rewrite size_singleton. Qed.

Lemma size_upd_del pos B : pos ∈ B → size B = S (size (upd_bits false pos B)).
Proof.
  intros Hp. simpl. rewrite size_difference by set_solver. rewrite size_singleton.
  assert (size B ≠ 0%nat); [|lia]. intros E%size_empty_inv. set_solver.
Qed.

(** ** Marking a level

    The invariant without the shape of the trees. *)
Record inv0 (s : sdt_state) (g : ghost) : Prop := Inv0 {
  i0_layout : layout (st_runs s) (st_mem s) (g_own g);
  i0_content : contents (st_mem s) g;
  i0_stack : stack_wf (st_prealloc s) g;
  i0_pools : pools_wf (st_chunk_pool s) (st_desc_pool s) (st_allocs s) g;
}.

Lemma inv_inv0 s g : inv s g → inv0 s g.
Proof. by intros []. Qed.

Lemma inv0_inv s g : inv0 s g → tree_wf (st_allocs s) g → inv s g.
Proof. by intros [] ?. Qed.

(** The bits of the node at [P] become [B]. *)
Definition gbits (P : list Z) (B : gset Z) (g : ghost) : ghost :=
  Ghost (g_own g) (alter (λ nd, Node (n_desc nd) (n_chunk nd) B) P (g_nd g)) (g_used g) (g_slot g) (g_sp g) (g_rv g) (g_prv g).

(** Only descriptors have been written, and only bits of nodes changed. *)
Record marked (s : sdt_state) (g : ghost) (s' : sdt_state) (g' : ghost) : Prop := Marked {
  mk_inv : inv0 s' g';
  mk_state : ∃ m', s' = with_mem (λ _, m') s;
  mk_agree b n t : g_own g !! b = Some (n, t) → (∀ P, t ≠ TDesc P) → agree (st_mem s) (st_mem s') b n;
  mk_own : g_own g' = g_own g;
  mk_used : g_used g' = g_used g;
  mk_slot : g_slot g' = g_slot g;
  mk_sp : g_sp g' = g_sp g;
}.

Lemma marked_refl s g : inv0 s g → marked s g s g.
Proof. intros H. split; try done. exists (st_mem s). by destruct s. Qed.

Lemma marked_trans s1 g1 s2 g2 s3 g3 : marked s1 g1 s2 g2 → marked s2 g2 s3 g3 → marked s1 g1 s3 g3.
Proof.
  intros [A1 (m1 & B1) C1 D1 E1 F1 G1] [A2 (m2 & B2) C2 D2 E2 F2 G2]. split; try congruence.
  - exists m2. by rewrite B2, B1.
  - intros b n t Hb Ht. eapply agree_trans; [by eapply C1|]. eapply C2; [by rewrite D1|done].
Qed.

Section mark.
Context (s : sdt_state) (g : ghost) (P : list Z) (nd : node) (pos : Z) (b : bool).
Hypothesis Hinv : inv0 s g.
Hypothesis Hnd : g_nd g !! P = Some nd.
Hypothesis Hown : g_own g !! n_desc nd = Some (80, TDesc P).
Hypothesis Hpos : 0 <= pos < 512.
Abbreviation d := (n_desc nd).
Abbreviation B' := (upd_bits b pos (n_bits nd)).
Hypothesis Hsz : (size B' <= 512)%nat.

Definition mark_mem (m : gmap Z Z) : gmap Z Z :=
  let m1 := <[d + 8 * (pos / 64) := upd_word b (word m (d + 8 * (pos / 64))) pos]> m in
  <[d + 64 := 512 - Z.of_nat (size B')]> m1.

Lemma mark_words : bits_at (st_mem s) d (n_bits nd) ∧ word (st_mem s) (d + 64) = 512 - Z.of_nat (size (n_bits nd)) ∧
  word (st_mem s) (d + 72) = n_chunk nd.
Proof. destruct (i0_content _ _ Hinv _ _ _ Hown) as (_ & nd' & E & _ & H). rewrite Hnd in E. by injection E as <-. Qed.

Lemma mark_marked : marked s g (with_mem mark_mem s) (gbits P B' g).
Proof.
  destruct mark_words as (W1 & W2 & W3). pose proof (pos_off pos Hpos) as Ho. destruct Hinv as [HL HC HS HP].
  assert (∀ b0 n0 t0, g_own g !! b0 = Some (n0, t0) → b0 ≠ d → agree (st_mem s) (mark_mem (st_mem s)) b0 n0) as Hag.
  { intros b0 n0 t0 H0 Hne. destruct (ly_disj _ _ _ HL _ _ _ _ _ _ H0 Hown Hne) as [?|?]; simpl in *;
      (eapply agree_trans; apply agree_insert; lia). }
  assert (∀ P' nd', alter (λ x, Node (n_desc x) (n_chunk x) B') P (g_nd g) !! P' = Some nd' →
    P' = P ∧ nd' = Node d (n_chunk nd) B' ∨ P' ≠ P ∧ g_nd g !! P' = Some nd') as Hlk.
  { intros P' nd'. destruct (decide (P' = P)) as [->|Hne]; [rewrite lookup_alter_eq, Hnd; simpl; intros [= <-]; by left|].
    rewrite lookup_alter_ne by done. by right. }
  split; simpl; try done; [split; simpl| |].
  - eapply layout_write; [eapply layout_write; [exact HL|exact Hown|off..|]|exact Hown|off..|unfold is_u64, two64; lia].
    apply upd_word_u64, (ly_u64 _ _ _ HL).
  - eapply contents_update; [exact HC|]. simpl. intros b0 n0 t0 H0. destruct (decide (b0 = d)) as [->|Hne].
    + right. rewrite Hown in H0. injection H0 as <- <-. simpl. split; [done|]. exists (Node d (n_chunk nd) B').
      rewrite lookup_alter_eq, Hnd. split_and!; [done..| | |]; unfold mark_mem; simpl.
      * eapply bits_agree; [|by eapply bits_at_upd]. apply agree_insert. lia.
      * by rewrite word_insert_eq.
      * by rewrite !word_insert_ne by lia.
    + left. split_and!; [done|by eapply Hag|]. destruct t0 as [| | |o|p|al'|P'|P'|h]; try done; simpl.
      * destruct (decide (P' = P)) as [->|]; [destruct (HC _ _ _ H0) as (_ & nd' & E & E' & _); congruence|]. by rewrite lookup_alter_ne.
      * split; [destruct (decide (P' = P)) as [->|]; [by rewrite lookup_alter_eq, Hnd|by rewrite lookup_alter_ne]|].
        intros x Hx. unfold slotval. simpl. destruct (decide (P' ++ [x] = P)) as [<-|]; [|by rewrite lookup_alter_ne].
        rewrite lookup_alter_eq, Hnd. done.
  - by destruct HS.
  - destruct HP as [P1 P2 P3 P4]. split; [done..| |done]. intros p q Hq Hne. destruct (P3 p q Hq Hne). by split.
  - by eexists.
  - intros b0 n0 t0 H0 Ht. eapply Hag; [done|]. intros ->. rewrite Hown in H0. injection H0 as _ <-. by eapply Ht.
Qed.

Lemma mark_bit_wp (Q : Z → sdt_state → Prop) :
  Q 0 (with_mem (λ m, <[d + 8 * (pos / 64) := upd_word b (word m (d + 8 * (pos / 64))) pos]> m) s) →
  wp (set_idx_state d pos b) Q s.
Proof.
  intros HQ. unfold set_idx_state, SDT_TASK_ENTS_PER_CHUNK. rewrite (proj2 (Z.leb_gt _ _)) by lia. cbv zeta.
  assert (mapped (st_runs s) (desc_allocated d (pos / 64)) = true) as Hm.
  { pose proof (pos_off pos Hpos). pose proof (ly_own _ _ _ (i0_layout _ _ Hinv) _ _ _ Hown) as [? ? B8 ? ? ?].
    unfold desc_allocated. eapply mapped_in; [by eapply ly_own; [apply Hinv|exact Hown]|lia..|].
    rewrite Zplus_mod, B8, Z.mul_comm, Z.mod_mul by lia. done. }
  wbind. apply wp_ld; [done|]. wbind. apply wp_st; [done|]. apply wp_ret. exact HQ.
Qed.

Lemma mark_free_mapped : mapped (st_runs s) (desc_nr_free d) = true.
Proof.
  unfold desc_nr_free. pose proof (ly_own _ _ _ (i0_layout _ _ Hinv) _ _ _ Hown) as Hr. eapply mapped_in; [exact Hr|lia..|].
  destruct Hr as [? ? B8 ? ? ?]. by rewrite Zplus_mod, B8.
Qed.
End mark.
