(* ===== verification/SdtMark.v ===== *)
(** * The object allocator: marking the way to the root

    When an index is taken or returned, the bit of its entry changes, and that of
    the entry above as long as a node becomes full or stops being full. *)

From S2P Require Import Prelude Bitmap BitmapCorrect Bump BumpCorrect Wp SdtAlloc SdtBase SdtMem SdtPool SdtCarve SdtTree.

(** ** One wrong bit at a time *)

(** Every entry but [x] of the node at [Q] is marked as it should be. *)
Definition almost (g : ghost) (Q : list Z) (x : Z) : Prop :=
  ∀ P nd pos, g_nd g !! P = Some nd → 0 <= pos < 512 → (P, pos) ≠ (Q, x) → pos ∈ n_bits nd ↔ bit_wf g P pos.

Definition all_bits (g : ghost) : Prop :=
  ∀ P nd pos, g_nd g !! P = Some nd → 0 <= pos < 512 → pos ∈ n_bits nd ↔ bit_wf g P pos.

Lemma gbits_lookup P B g P' :
  g_nd (gbits P B g) !! P' = if decide (P' = P) then (λ nd, Node (n_desc nd) (n_chunk nd) B) <$> g_nd g !! P else g_nd g !! P'.
Proof. simpl. case_decide; [subst; by rewrite lookup_alter_eq|by rewrite lookup_alter_ne]. Qed.

Lemma gbits_inv P B g P' nd' : g_nd (gbits P B g) !! P' = Some nd' →
  ∃ nd, g_nd g !! P' = Some nd ∧ n_desc nd' = n_desc nd ∧ n_chunk nd' = n_chunk nd ∧
    n_bits nd' = if decide (P' = P) then B else n_bits nd.
Proof.
  rewrite gbits_lookup. case_decide; [|intros ->; eauto]. subst. intros (nd & -> & E)%fmap_Some. exists nd. simpl. naive_solver.
Qed.

Lemma bit_wf_inner g P pos : length P ≠ 3%nat → bit_wf g P pos ↔ ∃ c, g_nd g !! (P ++ [pos]) = Some c ∧ size (n_bits c) = 512%nat.
Proof. destruct P as [|? [|? [|? [|? P]]]]; simpl; try done. Qed.

(** The bits of [Q] matter to its parent alone. *)
Lemma bit_wf_gbits Q B g P pos : P ++ [pos] ≠ Q → bit_wf (gbits Q B g) P pos ↔ bit_wf g P pos.
Proof.
  intros Hne. destruct (decide (length P = 3%nat)) as [H3|H3]; [destruct P as [|? [|? [|? [|? P]]]]; done|].
  rewrite !bit_wf_inner by done. by rewrite gbits_lookup, decide_False.
Qed.

Lemma bit_wf_child Q B g P pos nd : length P ≠ 3%nat → P ++ [pos] = Q → g_nd g !! Q = Some nd →
  bit_wf (gbits Q B g) P pos ↔ size B = 512%nat.
Proof.
  intros H3 E Hnd. rewrite bit_wf_inner by done. rewrite E, gbits_lookup, decide_True, Hnd by done. simpl. naive_solver.
Qed.

Lemma snoc_ne (l : list Z) x : l ++ [x] ≠ l.
Proof. intros E%(f_equal length). rewrite length_app in E. simpl in E. lia. Qed.

Lemma almost_step g Q R y x nd b :
  almost g Q x → g_nd g !! Q = Some nd → Q = R ++ [y] → (b = true ↔ bit_wf g Q x) →
  almost (gbits Q (upd_bits b x (n_bits nd)) g) R y.
Proof.
  intros Ha Hnd EQ Hb P nd' pos HP Hp Hne. destruct (gbits_inv _ _ _ _ _ HP) as (nd0 & H0 & _ & _ & ->).
  assert (P ++ [pos] ≠ Q) as HPQ. { intros E. apply Hne. rewrite EQ in E. by apply app_inj_tail in E as [-> ->]. }
  rewrite bit_wf_gbits by done. case_decide as E.
  - subst P. rewrite Hnd in H0. injection H0 as <-. rewrite elem_of_upd_bits. case_decide as Ex; [by subst pos|].
    apply (Ha _ _ _ Hnd Hp). congruence.
  - apply (Ha _ _ _ H0 Hp). congruence.
Qed.

Lemma almost_done g R y :
  almost g R y → (∀ nd, g_nd g !! R = Some nd → y ∈ n_bits nd ↔ bit_wf g R y) → all_bits g.
Proof.
  intros Ha H P nd pos HP Hp. destruct (decide ((P, pos) = (R, y))) as [[= -> ->]|Hne]; [by apply H|by eapply Ha].
Qed.

Lemma shape_gbits allocs P B g : shape allocs g → (∀ p, p ∈ B → 0 <= p < 512) → shape allocs (gbits P B g).
Proof.
  intros H HB. assert (∀ P', is_Some (g_nd g !! P') → is_Some (g_nd (gbits P B g) !! P')) as Hs.
  { intros P' [nd' E]. rewrite gbits_lookup. case_decide; [subst; by rewrite E|by rewrite E]. }
  split; try (by destruct H).
  - intros P' nd' HP. destruct (gbits_inv _ _ _ _ _ HP) as (nd & H0 & E1 & E2 & E3).
    destruct (tw_node _ _ H _ _ H0) as [A C D E F G]. split; try done; [by rewrite E1|by rewrite E2| |].
    + rewrite E3. case_decide; [done|apply F].
    + intros Q x EQ HQ. apply Hs. by eapply G.
  - intros al a Ha. rewrite (tw_root _ _ H _ _ Ha), gbits_lookup. case_decide as E; [|done]. rewrite E. by destruct (g_nd g !! P).
  - intros al nd' HP. destruct (gbits_inv _ _ _ _ _ HP) as (nd & H0 & _). by eapply tw_alloc.
  - intros h v Hv. destruct (tw_used _ _ H _ _ Hv). split; [done|by apply Hs].
  - intros h e He. destruct (tw_slot _ _ H _ _ He) as (? & ? & ?). split_and!; [done..|by apply Hs].
Qed.

(** The position of a node below another one. *)
Lemma last_pos allocs g R y nd nd' :
  shape allocs g → g_nd g !! (R ++ [y]) = Some nd → g_nd g !! R = Some nd' → 0 <= y < 512 ∧ length R ≠ 3%nat.
Proof.
  intros Hs H1 H2. destruct (tw_node _ _ Hs _ _ H1) as [A B _ _ _ _], (tw_node _ _ Hs _ _ H2) as [C _ _ _ _ _].
  rewrite length_app in A. simpl in A. split; [|lia]. destruct R as [|r R]; [simpl in C; lia|].
  simpl in B. rewrite Forall_app, Forall_singleton in B. apply B.
Qed.

(** ** The levels above a node *)
Inductive ancs (g : ghost) : list Z → list (Z * Z) → Prop :=
  | anc_root al : ancs g [al] []
  | anc_step Q y nd lv : g_nd g !! Q = Some nd → ancs g Q lv → ancs g (Q ++ [y]) ((n_desc nd, y) :: lv).

Lemma ancs_gbits P B g Q lv : ancs g Q lv → ancs (gbits P B g) Q lv.
Proof.
  induction 1 as [al|Q y nd lv HQ _ IH]; [constructor|].
  assert (∃ nd', g_nd (gbits P B g) !! Q = Some nd' ∧ n_desc nd' = n_desc nd) as (nd' & E & <-).
  { rewrite gbits_lookup. case_decide; [subst; rewrite HQ; simpl; eauto|eauto]. }
  by constructor.
Qed.

(** ** Runs *)
Section level.
Context (s : sdt_state) (g : ghost) (P : list Z) (nd : node) (pos : Z) (lv : list (Z * Z)).
Hypothesis Hinv : inv0 s g.
Hypothesis Hnd : g_nd g !! P = Some nd.
Hypothesis Hown : g_own g !! n_desc nd = Some (80, TDesc P).
Hypothesis Hrange : ∀ p, p ∈ n_bits nd → 0 <= p < 512.
Hypothesis Hpos : 0 <= pos < 512.

Lemma upd_range b p : p ∈ upd_bits b pos (n_bits nd) → 0 <= p < 512.
Proof. rewrite elem_of_upd_bits. case_decide; [by subst|apply Hrange]. Qed.

Lemma used_level (Q : unit → sdt_state → Prop) :
  pos ∉ n_bits nd →
  (∀ s1, marked s g s1 (gbits P (upd_bits true pos (n_bits nd)) g) →
     if decide (size (upd_bits true pos (n_bits nd)) = 512%nat) then wp (mark_nodes_used lv) Q s1 else Q tt s1) →
  wp (mark_nodes_used ((n_desc nd, pos) :: lv)) Q s.
Proof.
  intros Hp HQ. pose proof (size_le_512 _ (upd_range true)) as Hsz. pose proof (size_upd_add _ _ Hp) as Es.
  destruct (mark_words s g P nd Hinv Hnd Hown) as (W1 & W2 & W3). pose proof (pos_off pos Hpos) as Ho.
  specialize (HQ _ (mark_marked s g P nd pos true Hinv Hnd Hown Hpos Hsz)). cbn [mark_nodes_used].
  wbind. eapply mark_bit_wp; [done..|]. rewrite Z.eqb_refl. cbn [negb].
  wbind. apply wp_ld; [by eapply (mark_free_mapped s g P nd)|]. cbn [st_mem with_mem]. unfold desc_nr_free. rewrite word_insert_ne by lia.
  rewrite W2. rewrite u64_small by (unfold is_u64, two64; lia).
  wbind. apply wp_st; [by eapply (mark_free_mapped s g P nd)|].
  replace (512 - Z.of_nat (size (n_bits nd)) - 1) with (512 - Z.of_nat (size (upd_bits true pos (n_bits nd)))) by lia.
  case_decide as E; [rewrite (proj2 (Z.ltb_ge _ _)) by lia; exact HQ|rewrite (proj2 (Z.ltb_lt _ _)) by lia].
  apply wp_ret. exact HQ.
Qed.

Lemma avail_level (Q : Z → sdt_state → Prop) :
  pos ∈ n_bits nd →
  (∀ s1, marked s g s1 (gbits P (upd_bits false pos (n_bits nd)) g) →
     if decide (size (n_bits nd) = 512%nat) then wp (mark_nodes_avail lv) Q s1 else Q 0 s1) →
  wp (mark_nodes_avail ((n_desc nd, pos) :: lv)) Q s.
Proof.
  intros Hp HQ. pose proof (size_le_512 _ Hrange) as Hsz0. pose proof (size_le_512 _ (upd_range false)) as Hsz. pose proof (size_upd_del _ _ Hp) as Es.
  destruct (mark_words s g P nd Hinv Hnd Hown) as (W1 & W2 & W3). pose proof (pos_off pos Hpos) as Ho.
  specialize (HQ _ (mark_marked s g P nd pos false Hinv Hnd Hown Hpos Hsz)). cbn [mark_nodes_avail].
  wbind. eapply mark_bit_wp; [done..|]. rewrite Z.eqb_refl. cbn [negb].
  wbind. apply wp_ld; [by eapply (mark_free_mapped s g P nd)|]. cbn [st_mem with_mem]. unfold desc_nr_free. rewrite word_insert_ne by lia.
  rewrite W2. rewrite u64_small by (unfold is_u64, two64; lia).
  wbind. apply wp_st; [by eapply (mark_free_mapped s g P nd)|].
  replace (512 - Z.of_nat (size (n_bits nd)) + 1) with (512 - Z.of_nat (size (upd_bits false pos (n_bits nd)))) by lia.
  case_decide as E; [rewrite (proj2 (Z.ltb_ge _ _)) by lia; exact HQ|rewrite (proj2 (Z.ltb_lt _ _)) by lia].
  apply wp_ret. exact HQ.
Qed.
End level.

(** What is left when the bits agree again. *)
Definition mark_post (s : sdt_state) (g : ghost) (s' : sdt_state) : Prop :=
  ∃ g', marked s g s' g' ∧ shape (st_allocs s) g' ∧ all_bits g' ∧
    ∀ P nd, g_nd g !! P = Some nd → ∃ nd', g_nd g' !! P = Some nd' ∧ n_desc nd' = n_desc nd ∧ n_chunk nd' = n_chunk nd.

Lemma mark_post_step s g s1 P B s' :
  marked s g s1 (gbits P B g) → mark_post s1 (gbits P B g) s' → mark_post s g s'.
Proof.
  intros H1 (g' & H2 & H3 & H4 & H5). destruct (mk_state _ _ _ _ H1) as (m1 & E1). exists g'. split_and!; [by eapply marked_trans|by rewrite E1 in H3|done|].
  intros P' nd HP. assert (∃ nd1, g_nd (gbits P B g) !! P' = Some nd1 ∧ n_desc nd1 = n_desc nd ∧ n_chunk nd1 = n_chunk nd) as (nd1 & HP1 & E2 & E3).
  { rewrite gbits_lookup. case_decide; [subst; rewrite HP; simpl; eauto|eauto]. }
  destruct (H5 _ _ HP1) as (nd2 & ? & ? & ?). exists nd2. split_and!; congruence.
Qed.

Lemma mark_post_refl s g s1 P B :
  marked s g s1 (gbits P B g) → shape (st_allocs s) (gbits P B g) → all_bits (gbits P B g) → mark_post s g s1.
Proof.
  intros H1 H2 H3. destruct (mk_state _ _ _ _ H1) as (m1 & E1). eapply mark_post_step; [done|]. exists (gbits P B g).
  split_and!; [apply marked_refl, H1|by rewrite E1|done|eauto].
Qed.

Lemma mark_used_up Q lv : ∀ s g nd x, ancs g Q lv →
  inv0 s g → shape (st_allocs s) g → almost g Q x → bit_wf g Q x → g_nd g !! Q = Some nd → x ∉ n_bits nd → 0 <= x < 512 →
  wp (mark_nodes_used ((n_desc nd, x) :: lv)) (λ _ s', mark_post s g s') s.
Proof.
  revert Q. induction lv as [|[d y] lv IH]; intros Q s g nd x Ha Hinv Hs Hal Hb Hnd Hx Hp;
    (destruct (tw_node _ _ Hs _ _ Hnd) as [N1 N2 N3 N4 N5 N6]).
  all: eapply used_level; [done..|]; intros s1 HM; set (B := upd_bits true x (n_bits nd)) in *;
    assert (shape (st_allocs s) (gbits Q B g)) as Hs1 by (apply shape_gbits; [done|]; by apply upd_range);
    inversion Ha as [al E1 E2|Q' y' nd' lv' HQ' Ha' E1 E2]; subst.
  - assert (all_bits (gbits [al] B g)) as HA.
    { eapply (almost_done _ [] al); [by eapply almost_step|]. intros nd0 H0. by apply (tw_node _ _ Hs1) in H0 as [? _ _ _ _ _]; simpl in *; lia. }
    case_decide; [apply wp_ret|]; by eapply mark_post_refl.
  - rename Q' into R. assert (almost (gbits (R ++ [y]) B g) R y) as Hal' by (by eapply almost_step).
    destruct (last_pos _ _ _ _ _ _ Hs Hnd HQ') as [Hyr HR3]. assert (y ∉ n_bits nd') as Hy.
    { rewrite (Hal R nd' y HQ' Hyr), bit_wf_inner; [|done|intros E; apply (f_equal fst) in E; by apply (snoc_ne R y)].
      intros (c & Ec & Hc). assert (c = nd) as -> by congruence. pose proof (proj1 (full_iff _ N5) Hc x Hp). done. }
    assert (g_nd (gbits (R ++ [y]) B g) !! R = Some nd') as HQ1 by (rewrite gbits_lookup, decide_False; [done|]; intros E; by apply (snoc_ne R y)).
    destruct (mk_state _ _ _ _ HM) as (m1 & Em). case_decide as Hfull.
    + eapply wp_mono; [eapply (IH R s1 _ nd' y)|intros [] s'; by eapply mark_post_step].
      * by apply ancs_gbits.
      * apply HM.
      * by rewrite Em.
      * done.
      * by eapply bit_wf_child.
      * done.
      * done.
      * done.
    + eapply mark_post_refl; [done..|]. eapply almost_done; [done|]. intros nd0 H0. assert (nd0 = nd') as -> by congruence.
      rewrite (bit_wf_child _ _ _ _ _ nd); [|done..]. done.
Qed.

Lemma mark_avail_up Q lv : ∀ s g nd x, ancs g Q lv →
  inv0 s g → shape (st_allocs s) g → almost g Q x → ¬ bit_wf g Q x → g_nd g !! Q = Some nd → x ∈ n_bits nd →
  wp (mark_nodes_avail ((n_desc nd, x) :: lv)) (λ r s', r = 0 ∧ mark_post s g s') s.
Proof.
  revert Q. induction lv as [|[d y] lv IH]; intros Q s g nd x Ha Hinv Hs Hal Hb Hnd Hx;
    (destruct (tw_node _ _ Hs _ _ Hnd) as [N1 N2 N3 N4 N5 N6]); pose proof (N5 x Hx) as Hp.
  all: eapply avail_level; [done..|]; intros s1 HM; set (B := upd_bits false x (n_bits nd)) in *;
    assert (shape (st_allocs s) (gbits Q B g)) as Hs1 by (apply shape_gbits; [done|]; by apply upd_range);
    inversion Ha as [al E1 E2|Q' y' nd' lv' HQ' Ha' E1 E2]; subst.
  - assert (all_bits (gbits [al] B g)) as HA.
    { eapply (almost_done _ [] al); [eapply almost_step; [done..|by split]|].
      intros nd0 H0. by apply (tw_node _ _ Hs1) in H0 as [? _ _ _ _ _]; simpl in *; lia. }
    case_decide; [apply wp_ret|]; (split; [done|]); by eapply mark_post_refl.
  - rename Q' into R. assert (almost (gbits (R ++ [y]) B g) R y) as Hal' by (eapply almost_step; [done..|by split]).
    destruct (last_pos _ _ _ _ _ _ Hs Hnd HQ') as [Hyr HR3]. assert (y ∈ n_bits nd' ↔ size (n_bits nd) = 512%nat) as Hy.
    { rewrite (Hal R nd' y HQ' Hyr), bit_wf_inner; [|done|intros E; apply (f_equal fst) in E; by apply (snoc_ne R y)]. naive_solver. }
    assert (g_nd (gbits (R ++ [y]) B g) !! R = Some nd') as HQ1 by (rewrite gbits_lookup, decide_False; [done|]; intros E; by apply (snoc_ne R y)).
    assert (size B ≠ 512%nat) as HB. { pose proof (size_upd_del _ _ Hx). pose proof (size_le_512 _ N5). unfold B. lia. }
    destruct (mk_state _ _ _ _ HM) as (m1 & Em). case_decide as Hfull.
    + eapply wp_mono; [eapply (IH R s1 _ nd' y)|intros r s' [-> ?]; split; [done|by eapply mark_post_step]].
      * by apply ancs_gbits.
      * apply HM.
      * by rewrite Em.
      * done.
      * by rewrite (bit_wf_child _ _ _ _ _ nd).
      * done.
      * by apply Hy.
    + split; [done|]. eapply mark_post_refl; [done..|]. eapply almost_done; [done|]. intros nd0 H0. assert (nd0 = nd') as -> by congruence.
      rewrite (bit_wf_child _ _ _ _ _ nd); [|done..]. naive_solver.
Qed.

(** ** Indices *)
Lemma enc_inj i j k i' j' k' :
  0 <= i < 512 → 0 <= j < 512 → 0 <= k < 512 → 0 <= i' < 512 → 0 <= j' < 512 → 0 <= k' < 512 →
  enc i j k = enc i' j' k' → i = i' ∧ j = j' ∧ k = k'.
Proof. unfold enc. lia. Qed.

Lemma enc_parts i j k : 0 <= i < 512 → 0 <= j < 512 → 0 <= k < 512 →
  hi (enc i j k) = i ∧ mid (enc i j k) = j ∧ lo (enc i j k) = k ∧ idx_ok (enc i j k).
Proof.
  intros Hi Hj Hk. unfold hi, mid, lo, idx_ok, enc. split_and!.
  - replace (i * 262144 + j * 512 + k) with (i * 262144 + (j * 512 + k)) by lia. rewrite Z.div_add_l, Z.div_small; lia.
  - replace (i * 262144 + j * 512 + k) with ((i * 512 + j) * 512 + k) by lia. rewrite Z.div_add_l, (Z.div_small k) by lia.
    rewrite Z.add_0_r, Z.add_comm, Z.mod_add, Z.mod_small by lia. done.
  - replace (i * 262144 + j * 512 + k) with (k + (i * 512 + j) * 512) by lia. rewrite Z.mod_add, Z.mod_small by lia. done.
  - lia.
  - lia.
Qed.

Lemma parts_enc x : idx_ok x → x = enc (hi x) (mid x) (lo x) ∧ 0 <= hi x < 512 ∧ 0 <= mid x < 512 ∧ 0 <= lo x < 512.
Proof.
  unfold idx_ok, enc, hi, mid, lo. intros Hx.
  assert (x / 262144 = x / 512 / 512) as -> by (rewrite Z.div_div by lia; done).
  pose proof (Z.div_mod x 512 ltac:(lia)). pose proof (Z.div_mod (x / 512) 512 ltac:(lia)).
  pose proof (Z.mod_pos_bound x 512 ltac:(lia)). pose proof (Z.mod_pos_bound (x / 512) 512 ltac:(lia)). lia.
Qed.

(** ** Taking and returning an index *)

Definition gused (u : gmap (Z * Z) (Z * bool)) (g : ghost) : ghost :=
  Ghost (g_own g) (g_nd g) u (g_slot g) (g_sp g) (g_rv g) (g_prv g).

(** The bit of another index does not depend on [h]. *)
Lemma bit_wf_used allocs g u h P nd pos :
  shape allocs g → (∀ h', h' ≠ h → is_Some (u !! h') ↔ is_Some (g_used g !! h')) → idx_ok h.2 →
  g_nd g !! P = Some nd → 0 <= pos < 512 → (P, pos) ≠ (leaf_path h, lo h.2) → bit_wf (gused u g) P pos ↔ bit_wf g P pos.
Proof.
  intros Hs Hu Hh HP Hp Hne. destruct (decide (length P = 3%nat)) as [H3|H3].
  - destruct P as [|al [|i [|j [|? P]]]]; try done. simpl. apply Hu. intros <-. simpl in *.
    destruct (tw_node _ _ Hs _ _ HP) as [_ N2 _ _ _ _]. simpl in N2. apply Forall_cons in N2 as [Hi [Hj _]%Forall_cons].
    destruct (enc_parts i j pos Hi Hj Hp) as (E1 & E2 & E3 & _). apply Hne. unfold leaf_path. simpl. by rewrite E1, E2, E3.
  - by rewrite !bit_wf_inner.
Qed.

Lemma index_bit g h u : idx_ok h.2 → bit_wf (gused u g) (leaf_path h) (lo h.2) ↔ is_Some (u !! h).
Proof. intros Hidx. simpl. destruct (parts_enc _ Hidx) as [E _]. rewrite <-E. by destruct h. Qed.

Lemma index_used s g h n3 : inv s g → idx_ok h.2 → g_nd g !! leaf_path h = Some n3 → lo h.2 ∈ n_bits n3 ↔ is_Some (g_used g !! h).
Proof.
  intros Hinv Hidx Hn3. destruct (parts_enc _ Hidx) as (_ & _ & _ & Hk). rewrite (tw_bits _ _ (iv_tree _ _ Hinv) _ _ _ Hn3 Hk).
  change (bit_wf g (leaf_path h) (lo h.2)) with (bit_wf (gused (g_used g) g) (leaf_path h) (lo h.2)). by apply index_bit.
Qed.

Section index.
Context (s : sdt_state) (g : ghost) (h : Z * Z) (n1 n2 n3 : node).
Hypothesis Hinv : inv s g.
Hypothesis Hidx : idx_ok h.2.
Hypothesis Hn1 : g_nd g !! [h.1] = Some n1.
Hypothesis Hn2 : g_nd g !! [h.1; hi h.2] = Some n2.
Hypothesis Hn3 : g_nd g !! leaf_path h = Some n3.
Abbreviation lv := [(n_desc n3, lo h.2); (n_desc n2, mid h.2); (n_desc n1, hi h.2)].

Lemma index_ancs u : ancs (gused u g) (leaf_path h) [(n_desc n2, mid h.2); (n_desc n1, hi h.2)].
Proof.
  change (leaf_path h) with ([h.1; hi h.2] ++ [mid h.2]). apply anc_step; [done|].
  change [h.1; hi h.2] with ([h.1] ++ [hi h.2]). apply anc_step; [done|]. apply anc_root.
Qed.

Lemma index_almost u : (∀ h', h' ≠ h → is_Some (u !! h') ↔ is_Some (g_used g !! h')) → almost (gused u g) (leaf_path h) (lo h.2).
Proof.
  intros Hu P nd pos HP Hp Hne. simpl in HP. rewrite (tw_bits _ _ (iv_tree _ _ Hinv) P nd pos HP Hp). symmetry.
  by eapply bit_wf_used; [apply (iv_tree _ _ Hinv)|..].
Qed.

Lemma index_inv0 u : (∀ h', g_used g !! h' ≠ u !! h' → is_live g h' = false ∧ is_live (gused u g) h' = false) → inv0 s (gused u g).
Proof.
  intros Hu. destruct Hinv as [HL HC HS HP HT]. split; simpl; [done| |by destruct HS|].
  - intros b n t Hb. simpl in Hb. eapply content_ghost; [|by apply HC]. destruct t as [| | |o|p|al|P|P|h']; try done; simpl.
    destruct (decide (g_used g !! h' = u !! h')) as [E|E]; [unfold is_live; simpl; by rewrite E|]. by destruct (Hu _ E) as [-> ->].
  - destruct HP as [P1 P2 P3 P4]. split; [done..| |done]. intros p q Hq Hne. destruct (P3 p q Hq Hne). by split.
Qed.
End index.

Section index_ops.
Context (s : sdt_state) (g : ghost) (h : Z * Z) (n1 n2 n3 : node).
Hypothesis Hinv : inv s g.
Hypothesis Hidx : idx_ok h.2.
Hypothesis Hn1 : g_nd g !! [h.1] = Some n1.
Hypothesis Hn2 : g_nd g !! [h.1; hi h.2] = Some n2.
Hypothesis Hn3 : g_nd g !! leaf_path h = Some n3.
Abbreviation lv := [(n_desc n3, lo h.2); (n_desc n2, mid h.2); (n_desc n1, hi h.2)].

(** The nodes are where they were. *)
Definition same_nodes (g g' : ghost) : Prop :=
  ∀ P nd, g_nd g !! P = Some nd → ∃ nd', g_nd g' !! P = Some nd' ∧ n_desc nd' = n_desc nd ∧ n_chunk nd' = n_chunk nd.

Definition index_post (U : Z * Z → Prop) (u : gmap (Z * Z) (Z * bool)) (s' : sdt_state) : Prop :=
  ∃ g', inv s' g' ∧ evolve U (λ _, True) s g s' g' ∧ g_used g' = u ∧ g_slot g' = g_slot g ∧ g_own g' = g_own g ∧
    g_sp g' = g_sp g ∧ st_allocs s' = st_allocs s ∧ same_nodes g g' ∧
    ∀ b n t, g_own g !! b = Some (n, t) → (∀ P, t ≠ TDesc P) → agree (st_mem s) (st_mem s') b n.

Lemma mark_post_inv (U : Z * Z → Prop) u s' :
  (∀ h' v, U h' → g_used g !! h' = Some v → u !! h' = Some v) → mark_post s (gused u g) s' → index_post U u s'.
Proof.
  intros HU (g' & [M1 (m' & ->) M3 M4 M5 M6 M7] & HS & HB & HN). exists g'. split_and!; try done; [by apply inv0_inv|].
  split; [split; simpl; try done|..].
  - intros b n t Hb _. by rewrite M4.
  - intros h' Hh v Hv. rewrite M5, M6. simpl. split_and!; [by apply HU|done|]. intros e n He. by eapply M3.
  - intros b _ n o Hb. rewrite M4. split; [done|]. by eapply M3.
Qed.

Lemma take_index_spec me :
  g_used g !! h = None →
  wp (mark_nodes_used lv) (λ _ s', index_post (λ _, True) (<[h := (me, true)]> (g_used g)) s') s.
Proof.
  intros Hu. set (u := <[h := (me, true)]> (g_used g)). destruct (parts_enc _ Hidx) as (_ & _ & _ & Hk).
  assert (∀ h', h' ≠ h → u !! h' = g_used g !! h') as Hne by (intros h' Hh; unfold u; by rewrite lookup_insert_ne).
  assert (u !! h = Some (me, true)) as Eu by (unfold u; by rewrite lookup_insert_eq).
  pose proof (iv_tree _ _ Hinv) as HT. eapply wp_mono; [eapply (mark_used_up (leaf_path h) _ s (gused u g) n3)|].
  - by apply index_ancs.
  - apply index_inv0; [done|]. intros h' Hh. destruct (decide (h' = h)) as [->|]; [|by rewrite Hne in Hh].
    unfold is_live. simpl. by rewrite Hu, Eu.
  - split; try (by destruct HT as [[] ?]); simpl.
    + intros P nd HP. destruct (tw_node _ _ HT _ _ HP). by split.
    + intros h' v Hv. destruct (decide (h' = h)) as [->|]; [split; [done|by eexists]|]. rewrite Hne in Hv by done. by eapply (tw_used _ _ HT).
    + intros h' o Hv. destruct (decide (h' = h)) as [->|]; [congruence|]. rewrite Hne in Hv by done. by eapply (tw_live _ _ HT).
  - by apply (index_almost s); [..|intros h' Hh; rewrite Hne].
  - apply index_bit; [done|]. by rewrite Eu.
  - done.
  - rewrite (index_used s g h n3) by done. rewrite Hu. apply is_Some_None.
  - done.
  - intros [] s' HP. eapply mark_post_inv; [|done]. intros h' v _ Hv. rewrite Hne; [done|]. congruence.
Qed.

Lemma return_index_spec o :
  g_used g !! h = Some (o, true) →
  wp (mark_nodes_avail lv) (λ r s', r = 0 ∧ index_post (λ h', h' ≠ h) (delete h (g_used g)) s') s.
Proof.
  intros Hu. set (u := delete h (g_used g)). destruct (parts_enc _ Hidx) as (_ & _ & _ & Hk).
  assert (∀ h', h' ≠ h → u !! h' = g_used g !! h') as Hne by (intros h' Hh; unfold u; by rewrite lookup_delete_ne).
  assert (u !! h = None) as Eu by (unfold u; by rewrite lookup_delete_eq).
  pose proof (iv_tree _ _ Hinv) as HT. eapply wp_mono; [eapply (mark_avail_up (leaf_path h) _ s (gused u g) n3)|].
  - by apply index_ancs.
  - apply index_inv0; [done|]. intros h' Hh. destruct (decide (h' = h)) as [->|]; [|by rewrite Hne in Hh].
    unfold is_live. simpl. by rewrite Hu, Eu.
  - split; try (by destruct HT as [[] ?]); simpl.
    + intros P nd HP. destruct (tw_node _ _ HT _ _ HP). by split.
    + intros h' v Hv. destruct (decide (h' = h)) as [->|]; [congruence|]. rewrite Hne in Hv by done. by eapply (tw_used _ _ HT).
    + intros h' o' Hv. destruct (decide (h' = h)) as [->|]; [congruence|]. rewrite Hne in Hv by done. by eapply (tw_live _ _ HT).
  - by apply (index_almost s); [..|intros h' Hh; rewrite Hne].
  - rewrite index_bit by done. rewrite Eu. apply is_Some_None.
  - done.
  - rewrite (index_used s g h n3) by done. rewrite Hu. by eexists.
  - intros r s' [-> HP]. split; [done|]. eapply mark_post_inv; [|done]. intros h' v Hh Hv. by rewrite Hne.
Qed.
End index_ops.
