(* ===== verification/SdtNode.v ===== *)
(** * The object allocator: new nodes and the way down *)

From S2P Require Import Prelude Bitmap BitmapCorrect Bump BumpCorrect Wp SdtAlloc SdtBase SdtMem SdtPool SdtCarve SdtTree SdtMark.

(** ** Writes to a private region *)
Lemma priv_write s g me b n a v :
  inv s g → g_own g !! b = Some (n, TPriv me) → b <= a → a + 8 <= b + n → a mod 8 = 0 → is_u64 v →
  mapped (st_runs s) a = true ∧ inv (with_mem <[a := v]> s) g ∧ evolve (λ _, True) (λ x, x ≠ b) s g (with_mem <[a := v]> s) g.
Proof.
  intros Hinv Ho Hlo Hhi H8 Hv. assert (∀ b' n' t', g_own g !! b' = Some (n', t') → b' ≠ b →
    agree (st_mem s) (<[a := v]> (st_mem s)) b' n') as Hag by (intros b' n' t' Hb' Hne; by eapply (write_agree s g b n)).
  split_and!; [by eapply write_mapped|by eapply inv_write|]. apply quiet_evolve; try done.
  - intros e n' h He. eapply Hag; [done|]. intros ->. congruence.
  - intros b' n' o Hb Hb'. split; [done|]. by eapply Hag.
Qed.

(** A blank node in the hands of a thread. *)
Record blank_node (s : sdt_state) (g : ghost) (me d c : Z) : Prop := BlankNode {
  bn_desc : g_own g !! d = Some (80, TPriv me);
  bn_chunk : g_own g !! c = Some (4096, TPriv me);
  bn_bits : zeroed (st_mem s) d 64;
  bn_free : word (st_mem s) (d + 64) = 512;
  bn_ptr : word (st_mem s) (d + 72) = c;
  bn_slots : zeroed (st_mem s) c 4096;
}.

Lemma alloc_chunk_spec me s g :
  inv s g → (2 <= length (g_sp g))%nat →
  wp (scx_alloc_chunk (st_prealloc s)) (λ d s', ∃ g' c, inv s' g' ∧ evolve (λ _, True) (λ _, True) s g s' g' ∧ same_tree g g' ∧
    blank_node s' g' me d c ∧ (length (g_sp g) <= 2 + length (g_sp g'))%nat ∧ st_allocs s' = st_allocs s ∧
    (∀ n o, g_own g !! d ≠ Some (n, TPriv o)) ∧ (∀ n o, g_own g !! c ≠ Some (n, TPriv o))) s.
Proof.
  intros Hinv Hsp. unfold scx_alloc_chunk. pose proof (iv_pools _ _ Hinv) as [[D1 D2] [K1 K2] _ _].
  assert (∀ q g, (1 <= length (g_sp g))%nat → has_room g q) as Hroom by (intros q g0 Hl; right; intros E; rewrite E in Hl; simpl in Hl; lia).
  wuse (from_pool_spec me s g ChunkPool (st_chunk_pool s) Hinv (or_intror eq_refl) eq_refl (Hroom _ g ltac:(lia))).
  intros c s1 (g1 & I1 & E1 & T1 & O1 & Z1 & L1 & N1 & P1 & A1). rewrite K1 in *.
  assert (st_prealloc s = st_prealloc s1) as -> by (by rewrite (gr_stack _ _ _ _ (ev_grows _ _ _ _ _ _ E1))).
  pose proof (P1 DescPool ltac:(done)) as HD. unfold pool_of in HD. simpl in HD. injection HD as HD.
  wuse (from_pool_spec me s1 g1 DescPool (st_desc_pool s1) I1 (or_introl eq_refl) eq_refl (Hroom _ g1 ltac:(lia))).
  intros d s2 (g2 & I2 & E2 & T2 & O2 & Z2 & L2 & N2 & P2 & A2). rewrite HD, D1 in *.
  destruct (ev_priv _ _ _ _ _ _ E2 c I _ _ O1) as [O1' G1']. assert (zeroed (st_mem s2) c 4096) as Z1' by (by eapply zeroed_agree).
  pose proof (ly_own _ _ _ (iv_layout _ _ I2) _ _ _ O2) as Hrd. pose proof (ly_own _ _ _ (iv_layout _ _ I2) _ _ _ O1') as Hrc.
  assert (d ≠ c) as Hdc by (intros ->; congruence). destruct Hrd as [Rd1 _ Rd8 _ Rd2 _], Hrc as [Rc1 _ _ _ Rc2 _].
  destruct (priv_write s2 g2 me d 80 (desc_nr_free d) SDT_TASK_ENTS_PER_CHUNK I2 O2) as (M3 & I3 & E3);
    [unfold desc_nr_free; lia..|unfold desc_nr_free; by rewrite Zplus_mod, Rd8|done|].
  wbind. apply wp_st; [done|]. set (s3 := with_mem _ s2) in *.
  destruct (priv_write s3 g2 me d 80 (desc_chunk d) c I3 O2) as (M4 & I4 & E4);
    [unfold desc_chunk; lia..|unfold desc_chunk; by rewrite Zplus_mod, Rd8|unfold is_u64; lia|].
  wbind. apply wp_st; [done|]. set (s4 := with_mem _ s3) in *. wstep. wstep.
  assert (∀ a, a ≠ d + 64 → a ≠ d + 72 → word (st_mem s4) a = word (st_mem s2) a) as Hw.
  { intros a Ha1 Ha2. unfold s4, s3, desc_chunk, desc_nr_free. simpl. by rewrite !word_insert_ne. }
  assert (apart (d, 80) (c, 4096)) as Hap by (eapply (ly_disj _ _ _ (iv_layout _ _ I2)); eauto). unfold apart in Hap. simpl in Hap.
  assert (evolve (λ _, True) (λ _, True) s g s4 g2) as E04.
  { assert (∀ n o, g_own g !! d ≠ Some (n, TPriv o)) as Hnd. { intros n o Hn. by destruct (N2 n o), (ev_priv _ _ _ _ _ _ E1 d I _ _ Hn). }
    eapply (evolve_trans_priv _ _ _ _ _ _ _ _ d); [|exact E4|done]. eapply (evolve_trans_priv _ _ _ _ _ _ _ _ d); [|exact E3|done].
    by eapply evolve_trans. }
  exists g2, c. split_and!.
  - by destruct I4.
  - destruct E04 as [[] ? ?]. by split; [split|..].
  - by eapply same_tree_trans.
  - split; try done; simpl.
    + intros a Ha. rewrite Hw by lia. apply Z2. lia.
    + unfold s3, desc_chunk, desc_nr_free. simpl. rewrite word_insert_ne by lia. by rewrite word_insert_eq.
    + by rewrite word_insert_eq.
    + intros a Ha. rewrite Hw by lia. by apply Z1'.
  - lia.
  - simpl. by rewrite A2, A1.
  - intros n o Hn. by destruct (N2 n o), (ev_priv _ _ _ _ _ _ E1 d I _ _ Hn).
  - done.
Qed.

(** ** A blank node joins a tree *)
Definition gnode (P : list Z) (d c : Z) (g : ghost) : ghost :=
  Ghost (<[d := (80, TDesc P)]> (<[c := (4096, TChunk P)]> (g_own g))) (<[P := Node d c ∅]> (g_nd g))
    (g_used g) (g_slot g) (g_sp g) (g_rv g) (g_prv g).

Lemma path3 (P : list Z) : length P = 3%nat → ∃ al i j, P = [al; i; j].
Proof. destruct P as [|al [|i [|j [|? P]]]]; try done. eauto. Qed.

Section join.
Context (s : sdt_state) (g : ghost) (me d c : Z) (P : list Z).
Hypothesis Hinv : inv s g.
Hypothesis Hnew : g_nd g !! P = None.
Hypothesis Hblank : blank_node s g me d c.
Hypothesis Hlen : (1 <= length P <= 3)%nat.
Hypothesis Hpos : Forall (λ x, 0 <= x < 512) (tail P).
Hypothesis Hpar : ∀ Q x, P = Q ++ [x] → Q ≠ [] → is_Some (g_nd g !! Q).
Abbreviation g' := (gnode P d c g).

Lemma join_ne : d ≠ c.
Proof. intros E. pose proof (bn_desc _ _ _ _ _ Hblank). pose proof (bn_chunk _ _ _ _ _ Hblank). congruence. Qed.

Lemma join_own b n t : b ≠ d → b ≠ c → g_own g' !! b = Some (n, t) ↔ g_own g !! b = Some (n, t).
Proof. intros H1 H2. simpl. by rewrite !lookup_insert_ne. Qed.

Lemma join_keep b n t : (∀ o, t ≠ TPriv o) → g_own g !! b = Some (n, t) → g_own g' !! b = Some (n, t).
Proof.
  intros Ht Hb. pose proof (bn_desc _ _ _ _ _ Hblank). pose proof (bn_chunk _ _ _ _ _ Hblank).
  apply join_own; [..|done]; intros ->; by apply (Ht me); congruence.
Qed.

Lemma join_back b n t : (∀ Q, t ≠ TDesc Q) → (∀ Q, t ≠ TChunk Q) → g_own g' !! b = Some (n, t) → g_own g !! b = Some (n, t).
Proof. intros H1 H2. simpl. rewrite !lookup_insert_Some. naive_solver. Qed.

(** Nothing is below a path without a node. *)
Lemma join_no_child x : g_nd g !! (P ++ [x]) = None.
Proof.
  destruct (g_nd g !! (P ++ [x])) as [nd|] eqn:E; [|done]. destruct (tw_node _ _ (iv_tree _ _ Hinv) _ _ E) as [_ _ _ _ _ H].
  destruct (H P x eq_refl) as [y Hy]; [intros ->; simpl in Hlen; lia|]. congruence.
Qed.

Lemma join_no_used al i j x : P = [al; i; j] → 0 <= x < 512 → g_used g !! (al, enc i j x) = None ∧ g_slot g !! (al, enc i j x) = None.
Proof.
  intros EP Hx. rewrite EP in Hpos. simpl in Hpos. apply Forall_cons in Hpos as [Hi [Hj _]%Forall_cons].
  destruct (enc_parts i j x Hi Hj Hx) as (E1 & E2 & _ & _). split.
  - destruct (g_used g !! (al, enc i j x)) as [v|] eqn:E; [|done]. destruct (tw_used _ _ (iv_tree _ _ Hinv) _ _ E) as [_ [nd H]].
    unfold leaf_path in H. simpl in H. rewrite E1, E2 in H. congruence.
  - destruct (g_slot g !! (al, enc i j x)) as [v|] eqn:E; [|done]. destruct (tw_slot _ _ (iv_tree _ _ Hinv) _ _ E) as (_ & _ & [nd H]).
    unfold leaf_path in H. simpl in H. rewrite E1, E2 in H. congruence.
Qed.

Lemma join_slotval Q x : length Q ≠ 3%nat → slotval g' Q x = if decide (Q ++ [x] = P) then d else slotval g Q x.
Proof using Type.
  intros H3. assert (∀ g0, slotval g0 Q x = from_option n_desc 0 (g_nd g0 !! (Q ++ [x]))) as E.
  { intros g0. destruct Q as [|? [|? [|? [|? Q]]]]; simpl in *; try done. }
  rewrite !E. simpl. case_decide as EP; [by rewrite EP, lookup_insert_eq|by rewrite lookup_insert_ne].
Qed.

Lemma join_slot0 x : 0 <= x < 512 → slotval g' P x = 0.
Proof.
  intros Hx. destruct (decide (length P = 3%nat)) as [H3|H3].
  - destruct (path3 P H3) as (al & i & j & EP). pose proof (proj2 (join_no_used al i j x EP Hx)) as E. rewrite EP. simpl. by rewrite E.
  - rewrite join_slotval, decide_False by (done || apply snoc_ne).
    assert (slotval g P x = from_option n_desc 0 (g_nd g !! (P ++ [x]))) as -> by (clear -H3; by destruct P as [|? [|? [|? [|? ?]]]]).
    by rewrite join_no_child.
Qed.

Lemma join_bit Q x : Q ≠ P → bit_wf g' Q x ↔ bit_wf g Q x.
Proof.
  intros HQ. destruct (decide (length Q = 3%nat)) as [H3|H3]; [by destruct Q as [|? [|? [|? [|? ?]]]]|].
  rewrite !bit_wf_inner by done. simpl. destruct (decide (Q ++ [x] = P)) as [<-|Hne]; [|by rewrite lookup_insert_ne].
  rewrite lookup_insert_eq, Hnew. naive_solver.
Qed.

Lemma join_shape allocs' :
  (∀ al, dims allocs' al = dims (st_allocs s) al) →
  (∀ al a, allocs' !! al = Some a → sa_root a = from_option n_desc 0 (g_nd g' !! [al])) →
  (∀ al, P = [al] → 16 <= esize (st_allocs s) al) → tree_wf allocs' g'.
Proof.
  intros Hd Hr Hal. pose proof (iv_tree _ _ Hinv) as HT. pose proof join_ne as Hne.
  assert (∀ al, esize allocs' al = esize (st_allocs s) al) as He by (intros al; unfold esize; by rewrite Hd).
  assert (∀ Q, is_Some (g_nd g !! Q) → is_Some (g_nd g' !! Q)) as Hs by (intros Q; simpl; rewrite lookup_insert_is_Some'; tauto).
  split; [split|].
  - intros Q nd HQ. simpl in HQ. apply lookup_insert_Some in HQ as [[<- <-]|[HQ HQ']].
    + split; simpl; try done; [by rewrite lookup_insert_eq|rewrite lookup_insert_ne by done; by rewrite lookup_insert_eq|..].
      intros Q x E HQ. apply Hs. by eapply Hpar.
    + destruct (tw_node _ _ HT _ _ HQ') as [A B C D E F]. split; try done; [by apply join_keep..|].
      intros R x ER HR. apply Hs. by eapply F.
  - done.
  - intros al nd. rewrite He. simpl. intros [[E _]|[_ HQ]]%lookup_insert_Some; [by apply Hal|]. by eapply (tw_alloc _ _ HT).
  - intros h v Hv. destruct (tw_used _ _ HT _ _ Hv). split; [done|by apply Hs].
  - apply (tw_live _ _ HT).
  - intros h e Hv. rewrite He. destruct (tw_slot _ _ HT _ _ Hv) as (? & ? & ?). split_and!; [by apply join_keep|done|by apply Hs].
  - intros e n h Hv. rewrite He. apply (tw_elem _ _ HT). by eapply join_back.
  - intros Q nd x HQ Hx. simpl in HQ. apply lookup_insert_Some in HQ as [[<- <-]|[HQ HQ']].
    + simpl. split; [set_solver|]. destruct (decide (length P = 3%nat)) as [H3|H3].
      * destruct (path3 P H3) as (al & i & j & EP). pose proof (proj1 (join_no_used al i j x EP Hx)) as E. rewrite EP. simpl. rewrite E. by intros [].
      * rewrite bit_wf_inner by done. simpl. rewrite lookup_insert_ne by (symmetry; apply snoc_ne). rewrite join_no_child. naive_solver.
    + rewrite join_bit by done. by eapply (tw_bits _ _ HT).
Qed.

Lemma join_layout m : layout (st_runs s) m (g_own g) → layout (st_runs s) m (g_own g').
Proof.
  intros HL. pose proof (bn_desc _ _ _ _ _ Hblank). pose proof (bn_chunk _ _ _ _ _ Hblank). pose proof join_ne.
  eapply layout_shrink; [eapply layout_shrink; [done|done|lia|done]|by rewrite lookup_insert_ne|lia|done].
Qed.

Lemma join_stack : stack_wf (st_prealloc s) g'.
Proof.
  eapply stack_wf_own; [by apply iv_stack|done..| |]; intros b n t Ht Hb; [apply join_keep; naive_solver|].
  eapply join_back; [..|exact Hb]; naive_solver.
Qed.

Lemma join_pools cp dp allocs : pools_wf cp dp allocs g → pools_wf cp dp allocs g'.
Proof.
  intros HP. eapply pools_wf_own; [done..|]. intros b n t Ht. split; intros Hb; [apply join_keep; naive_solver|].
  eapply join_back; [..|exact Hb]; naive_solver.
Qed.

(** The contents, given the entry that points to the new node. *)
Lemma join_contents m' :
  (∀ b n t, g_own g !! b = Some (n, t) → (∀ Q, t ≠ TChunk Q) → agree (st_mem s) m' b n) →
  (∀ Q nd, g_nd g !! Q = Some nd → ∀ x, 0 <= x < 512 → word m' (n_chunk nd + 8 * x) = slotval g' Q x) →
  contents m' g'.
Proof.
  intros Hag Hch. pose proof join_ne as Hne. destruct Hblank as [B1 B2 B3 B4 B5 B6].
  assert (agree (st_mem s) m' d 80) as Ad by (by eapply Hag). assert (agree (st_mem s) m' c 4096) as Ac by (by eapply Hag).
  intros b n t Hb. destruct (decide (b = d)) as [->|Hbd]; [|destruct (decide (b = c)) as [->|Hbc]].
  - simpl in Hb. rewrite lookup_insert_eq in Hb. injection Hb as <- <-. simpl. split; [done|]. exists (Node d c ∅).
    rewrite lookup_insert_eq. split_and!; [done..| | |]; simpl.
    + intros x Hx. pose proof (pos_off x Hx). rewrite Ad, B3, Z.testbit_0_l by lia. symmetry. apply bool_decide_eq_false. set_solver.
    + rewrite Ad by lia. by rewrite B4.
    + rewrite Ad by lia. by rewrite B5.
  - simpl in Hb. rewrite lookup_insert_ne, lookup_insert_eq in Hb by done. injection Hb as <- <-. split_and!; [done|simpl; by rewrite lookup_insert_eq|].
    intros x Hx. rewrite join_slot0 by done. rewrite Ac, B6 by lia. done.
  - apply join_own in Hb; [|done..]. assert ((∃ Q, t = TChunk Q) ∨ ∀ Q, t ≠ TChunk Q) as [[Q ->]|Hnc] by (destruct t; naive_solver).
    + pose proof (iv_content _ _ Hinv _ _ _ Hb) as (-> & (nd & HQ & ->)%fmap_Some_1 & _). split_and!; [done| |by apply Hch].
      simpl. rewrite lookup_insert_ne by congruence. by rewrite HQ.
    + eapply (content_ghost _ g); [|eapply content_agree; [by eapply Hag|by apply (iv_content _ _ Hinv)]].
      destruct t as [| | |o|p|al|Q|Q|h]; try done; [|naive_solver]. simpl. rewrite lookup_insert_ne; [done|].
      intros <-. destruct (iv_content _ _ Hinv _ _ _ Hb) as (_ & nd & E & _). congruence.
Qed.

(** Other threads see nothing of it. *)
Lemma join_evolve s' :
  (∀ b n t, g_own g !! b = Some (n, t) → (∀ Q, t ≠ TChunk Q) → agree (st_mem s) (st_mem s') b n) →
  (∀ al, dims (st_allocs s') al = dims (st_allocs s) al) → (∀ al, is_Some (st_allocs s !! al) → is_Some (st_allocs s' !! al)) →
  st_prealloc s' = st_prealloc s → evolve (λ _, True) (λ b, b ≠ d ∧ b ≠ c) s g s' g'.
Proof.
  intros Hag Hd Hdom Hpre. split; [split; [..|done]|..].
  - intros b n t Hb Ht. apply join_keep; [|done]. by intros o ->.
  - intros Q nd HQ. exists nd. split; [|done]. simpl. rewrite lookup_insert_ne; [done|]. congruence.
  - intros al _. apply Hd.
  - apply Hdom.
  - intros h _ v Hv. split_and!; [done..|]. intros e n He. by eapply Hag.
  - intros b [H1 H2] n o Hb. split; [by apply join_own|by eapply Hag].
Qed.
End join.
