(* ===== verification/SdtFind.v ===== *)
(** * The object allocator: the way down to a free index

    Linking a new node below its parent, and the descent of [desc_find_empty]:
    it ends at the least index that is not in use. *)

From S2P Require Import Prelude Bitmap BitmapCorrect Bump BumpCorrect Wp SdtAlloc SdtBase SdtMem SdtPool SdtCarve SdtTree SdtMark SdtNode.

(** ** A step that only adds nodes *)
Record deeper (s : sdt_state) (g : ghost) (s' : sdt_state) (g' : ghost) : Prop := Deeper {
  dp_inv : inv s' g';
  dp_ev : evolve (λ _, True) (λ _, True) s g s' g';
  dp_nd : g_nd g ⊆ g_nd g';
  dp_used : g_used g' = g_used g;
  dp_slot : g_slot g' = g_slot g;
  dp_alloc : st_allocs s' = st_allocs s;
}.

Lemma deeper_refl s g : inv s g → deeper s g s g.
Proof. intros H. by split; [|apply evolve_refl|..]. Qed.

Lemma deeper_trans s1 g1 s2 g2 s3 g3 : deeper s1 g1 s2 g2 → deeper s2 g2 s3 g3 → deeper s1 g1 s3 g3.
Proof. intros [A1 B1 C1 D1 E1 F1] [A2 B2 C2 D2 E2 F2]. split; [done|by eapply evolve_trans|by etrans|congruence..]. Qed.

Lemma deeper_at s g s' g' P nd : deeper s g s' g' → g_nd g !! P = Some nd → g_nd g' !! P = Some nd.
Proof. intros H HP. by eapply lookup_weaken, dp_nd. Qed.

Lemma deeper_stack s g s' g' : deeper s g s' g' → st_prealloc s' = st_prealloc s.
Proof. intros H. apply (gr_stack _ _ _ _ (ev_grows _ _ _ _ _ _ (dp_ev _ _ _ _ H))). Qed.

(** ** A new node below a parent *)
Section link.
Context (s : sdt_state) (g : ghost) (me d c : Z) (Q : list Z) (nd : node) (pos : Z).
Hypothesis Hinv : inv s g.
Hypothesis HQ : g_nd g !! Q = Some nd.
Hypothesis Hlen : (length Q <= 2)%nat.
Hypothesis Hpos : 0 <= pos < 512.
Hypothesis Hnew : g_nd g !! (Q ++ [pos]) = None.
Hypothesis Hblank : blank_node s g me d c.
Abbreviation P := (Q ++ [pos]).
Abbreviation a := (chunk_slot (n_chunk nd) pos).
Abbreviation s' := (with_mem <[a := d]> s).

Lemma link_path : (1 <= length P <= 3)%nat ∧ Forall (λ x, 0 <= x < 512) (tail P) ∧ (∀ R x, P = R ++ [x] → R ≠ [] → is_Some (g_nd g !! R)).
Proof.
  destruct (node_wf_of s g Q nd Hinv HQ) as [N1 N2 _ _ _ _]. split_and!; [rewrite length_app; simpl; lia..| |].
  - destruct Q as [|q Q']; [simpl in N1; lia|]. simpl in *. by rewrite Forall_app, Forall_singleton.
  - intros R x [-> ->]%app_inj_tail _. by eexists.
Qed.

Lemma link_agree b n t : g_own g !! b = Some (n, t) → (∀ R, t ≠ TChunk R) → agree (st_mem s) (st_mem s') b n.
Proof.
  intros Hb Ht. pose proof (node_wf_of s g Q nd Hinv HQ) as HN. pose proof (nw_chunk _ _ _ HN) as Hc.
  destruct (chunk_region s g Q nd Hinv HQ) as [_ _ B8 _ _ _].
  eapply (write_agree s g (n_chunk nd) 4096); [done..|unfold chunk_slot; lia|unfold chunk_slot; lia|done|].
  intros ->. apply (Ht Q). congruence.
Qed.

Lemma link_chunks R nd' x : g_nd g !! R = Some nd' → 0 <= x < 512 → word (st_mem s') (n_chunk nd' + 8 * x) = slotval (gnode P d c g) R x.
Proof.
  intros HR Hx. destruct (decide (R = Q)) as [->|Hne].
  - assert (nd' = nd) as -> by congruence. rewrite join_slotval by lia. simpl. rewrite word_insert. unfold chunk_slot.
    destruct (decide (x = pos)) as [->|Hxp]; [by rewrite !decide_True by done|].
    rewrite decide_False by lia. rewrite decide_False; [by apply (slot_word s g Q nd)|]. by intros [_ ?]%app_inj_tail.
  - assert (slotval (gnode P d c g) R x = slotval g R x) as ->.
    { destruct (decide (length R = 3%nat)) as [H3|H3]; [by destruct (path3 R H3) as (? & ? & ? & ->)|].
      rewrite join_slotval by done. rewrite decide_False; [done|]. by intros [? _]%app_inj_tail. }
    rewrite <-(slot_word s g R nd' Hinv HR x Hx). pose proof (node_wf_of s g Q nd Hinv HQ) as HN. pose proof (node_wf_of s g R nd' Hinv HR) as HN'.
    assert (agree (st_mem s) (st_mem s') (n_chunk nd') 4096) as Hag; [|apply Hag; unfold chunk_slot; lia].
    refine (write_agree s g (n_chunk nd) 4096 a d (TChunk Q) Hinv (nw_chunk _ _ _ HN) _ _ _ _ (TChunk R) (nw_chunk _ _ _ HN') _);
      [unfold chunk_slot; lia|unfold chunk_slot; lia|].
    intros E. apply Hne. pose proof (nw_chunk _ _ _ HN). pose proof (nw_chunk _ _ _ HN'). congruence.
Qed.

Lemma link_inv : mapped (st_runs s) a = true ∧ inv s' (gnode P d c g) ∧
  evolve (λ _, True) (λ b, b ≠ d ∧ b ≠ c) s g s' (gnode P d c g).
Proof.
  destruct link_path as (L1 & L2 & L3). pose proof (node_wf_of s g Q nd Hinv HQ) as HN. pose proof (nw_chunk _ _ _ HN) as Hc.
  destruct (region_u64 _ _ _ _ _ _ (iv_layout _ _ Hinv) (bn_desc _ _ _ _ _ Hblank)) as [Hd _].
  split_and!; [by eapply slot_mapped| |by eapply join_evolve; eauto using link_agree].
  assert (Q ≠ []) as HQn by (intros E; destruct HN as [N1 _ _ _ _ _]; rewrite E in N1; simpl in N1; lia).
  split; simpl.
  - eapply join_layout; [done..|]. eapply layout_write; [by apply iv_layout|exact Hc|unfold chunk_slot; off..|done].
  - eapply (join_contents s g me); [done..|apply link_agree|]. intros R nd' HR x Hx. by apply link_chunks.
  - eapply join_stack; eauto.
  - eapply join_pools; eauto using iv_pools.
  - eapply (join_shape s g me d c P); eauto.
    + intros al a' Ha. rewrite (tw_root _ _ (iv_tree _ _ Hinv) _ _ Ha). simpl. rewrite lookup_insert_ne; [done|].
      intros E. apply (f_equal length) in E. rewrite length_app in E. simpl in E. destruct Q; [done|simpl in E; lia].
    + intros al E. apply (f_equal length) in E. rewrite length_app in E. simpl in E. destruct Q; [done|simpl in E; lia].
Qed.
End link.

(** ** The child on the way: it is there, or it is created *)
Lemma child_spec {X} (me : Z) s g Q nd pos (K : Z → DM X) (post : X → sdt_state → Prop) :
  inv s g → g_nd g !! Q = Some nd → (length Q <= 2)%nat → 0 <= pos < 512 → pos ∉ n_bits nd → (2 <= length (g_sp g))%nat →
  (∀ s' g' nd', deeper s g s' g' → g_nd g' !! (Q ++ [pos]) = Some nd' → size (n_bits nd') ≠ 512%nat →
     (length (g_sp g) <= 2 + length (g_sp g'))%nat → wp (K (n_desc nd')) post s') →
  wp (chunk ← ld (desc_chunk (n_desc nd));
      child ← ld (chunk_slot chunk pos);
      child ← (if child =? NULL then
                 d ← scx_alloc_chunk (st_prealloc s);
                 st (chunk_slot chunk pos) d;;
                 mret d
               else mret child);
      K child) post s.
Proof.
  intros Hinv HQ Hlen Hpos Hbit Hsp HK. wbind. eapply wp_ld_chunk; [done..|]. wbind. eapply wp_ld_slot; [done..|].
  assert (slotval g Q pos = from_option n_desc 0 (g_nd g !! (Q ++ [pos]))) as ->.
  { destruct Q as [|? [|? [|? Q]]]; try done; simpl in Hlen; lia. }
  rewrite (tw_bits _ _ (iv_tree _ _ Hinv) _ _ _ HQ Hpos), bit_wf_inner in Hbit by lia.
  destruct (g_nd g !! (Q ++ [pos])) as [nd'|] eqn:E; simpl.
  - rewrite (proj2 (Z.eqb_neq _ _)) by (by eapply node_nonnull). wstep.
    eapply (HK s g); [by apply deeper_refl|done| |lia]. intros Hf. apply Hbit. by exists nd'.
  - wbind. wuse (alloc_chunk_spec me s g Hinv Hsp). intros d s1 (g1 & c & I1 & E1 & (Tn & Tu & Ts) & HB & HL & HA & Nd & Nc).
    rewrite <-Tn in HQ, E. destruct (link_inv s1 g1 me d c Q nd pos I1 HQ Hlen Hpos E HB) as (Hm & I2 & E2).
    wbind. apply wp_st; [done|]. wstep. eapply (HK _ _ (Node d c ∅)); simpl.
    + split; simpl; [done| |rewrite <-Tn; by apply insert_subseteq|done..]. split; [|intros h _|intros b _].
      * eapply grows_trans; [apply E1|apply E2].
      * eapply kept_obj_trans; [apply E1|by apply E1|by apply E2].
      * intros n o Hb. destruct (ev_priv _ _ _ _ _ _ E1 b I _ _ Hb) as [Hb1 Ha1].
        destruct (ev_priv _ _ _ _ _ _ E2 b) with (n := n) (o := o) as [Hb2 Ha2]; [|done|split; [done|by eapply agree_trans]].
        split; intros ->; [by eapply Nd|by eapply Nc].
    + simpl. by rewrite lookup_insert_eq.
    + change (size (∅ : gset Z) ≠ 512%nat). by rewrite size_empty.
    + simpl. lia.
Qed.

(** ** One level of the descent *)
Lemma shift_lor idx pos : 0 <= idx < 262144 → 0 <= pos < 512 →
  Z.lor (u64 (Z.shiftl idx SDT_TASK_ENTS_PER_PAGE_SHIFT)) pos = idx * 512 + pos.
Proof.
  intros Hi Hp. unfold SDT_TASK_ENTS_PER_PAGE_SHIFT. rewrite Z.shiftl_mul_pow2 by lia. change (2 ^ 9) with 512.
  rewrite u64_small by (unfold is_u64, two64; lia).
  assert (Z.land (idx * 512) pos = 0) as H0; [|by rewrite <-Z.lxor_lor, <-Z.add_nocarry_lxor].
  apply Z.bits_inj'. intros j Hj. rewrite Z.land_spec, Z.bits_0. destruct (decide (j < 9)) as [H9|H9].
  - change 512 with (2 ^ 9). rewrite Z.mul_pow2_bits_low by lia. done.
  - rewrite (Z.bits_above_log2 pos j), andb_false_r; [done|lia|]. destruct (decide (pos = 0)) as [->|]; [simpl; lia|].
    apply Z.log2_lt_pow2; [lia|]. eapply Z.lt_le_trans; [apply Hp|]. change 512 with (2 ^ 9). apply Z.pow_le_mono_r; lia.
Qed.

(** The entry of a node where the descent goes on. *)
Record first_free (nd : node) (pos : Z) : Prop := FirstFree {
  ff_range : 0 <= pos < 512;
  ff_below p : 0 <= p < pos → p ∈ n_bits nd;
  ff_free : pos ∉ n_bits nd;
}.

Lemma first_free_spec {X} s g Q nd (a : DM X) (K : Z → DM X) (post : X → sdt_state → Prop) :
  inv s g → g_nd g !! Q = Some nd →
  (size (n_bits nd) = 512%nat → wp a post s) → (∀ pos, first_free nd pos → wp (K pos) post s) →
  wp (pos ← chunk_find_empty (n_desc nd); if SDT_TASK_ENTS_PER_CHUNK <=? pos then a else K pos) post s.
Proof.
  intros Hinv HQ Ha HK. pose proof (node_wf_of s g Q nd Hinv HQ) as HN.
  wuse (find_empty_spec s g Q nd Hinv HQ). intros pos s' (-> & Hr & Hb & Hf). unfold SDT_TASK_ENTS_PER_CHUNK.
  destruct (Z.leb_spec 512 pos) as [Hge|Hlt]; [|apply HK; split; auto; lia].
  apply Ha. apply full_iff; [apply HN|]. intros p Hp. apply Hb. lia.
Qed.

(** The path the descent takes. *)
Record found (g : ghost) (al : Z) (n1 n2 n3 : node) (i j k : Z) : Prop := Found {
  fd_n1 : g_nd g !! [al] = Some n1;
  fd_n2 : g_nd g !! [al; i] = Some n2;
  fd_n3 : g_nd g !! [al; i; j] = Some n3;
  fd_i : first_free n1 i;
  fd_j : first_free n2 j;
  fd_k : first_free n3 k;
}.

Lemma descend_spec (me : Z) s g al nd :
  inv s g → (4 <= length (g_sp g))%nat → g_nd g !! [al] = Some nd →
  wp (descend_empty 2 (n_desc nd) 0 (st_prealloc s) []) (λ r s',
    (r = None ∧ s' = s ∧ size (n_bits nd) = 512%nat) ∨
    ∃ g' n2 n3 i j k, deeper s g s' g' ∧ found g' al nd n2 n3 i j k ∧
      r = Some (n_desc n3, enc i j k, [(n_desc n3, k); (n_desc n2, j); (n_desc nd, i)])) s.
Proof.
  intros Hinv Hsp HR. cbn [descend_empty]. eapply first_free_spec; [done..| |].
  { intros Hf. apply wp_ret. by left. }
  intros i Hi. cbv zeta. rewrite shift_lor by (try apply Hi; lia).
  eapply (child_spec me); [done|exact HR|simpl; lia|apply Hi|apply Hi|lia|]. intros s1 g1 n2 D1 HN2 F2 L1. simpl in HN2.
  rewrite <-(deeper_stack _ _ _ _ D1). eapply first_free_spec; [apply D1|exact HN2|done|].
  intros j Hj. pose proof (ff_range _ _ Hi). pose proof (ff_range _ _ Hj). rewrite shift_lor by lia.
  eapply (child_spec me); [apply D1|exact HN2|simpl; lia|apply Hj|apply Hj|lia|]. intros s2 g2 n3 D2 HN3 F3 L2. simpl in HN3.
  eapply first_free_spec; [apply D2|exact HN3|done|].
  intros k Hk. pose proof (ff_range _ _ Hk). rewrite shift_lor by lia. apply wp_ret. right.
  exists g2, n2, n3, i, j, k. split_and!; [by eapply deeper_trans| |].
  - pose proof (deeper_trans _ _ _ _ _ _ D1 D2) as D. split; try done; [by eapply (deeper_at _ _ _ _ _ _ D)|by eapply (deeper_at _ _ _ _ _ _ D2)].
  - do 4 f_equal. unfold enc. lia.
Qed.

(** ** The least free index *)
Section least.
Context (s : sdt_state) (g : ghost).
Hypothesis Hinv : inv s g.

(** A marked entry of an inner node has a full child. *)
Lemma marked_child P nd p : (length P <= 2)%nat → g_nd g !! P = Some nd → p ∈ n_bits nd →
  ∃ c, g_nd g !! (P ++ [p]) = Some c ∧ ∀ q, 0 <= q < 512 → q ∈ n_bits c.
Proof.
  intros Hl HP Hp. pose proof (nw_range _ _ _ (node_wf_of s g P nd Hinv HP) p Hp) as Hr.
  pose proof (proj1 (tw_bits _ _ (iv_tree _ _ Hinv) _ _ _ HP Hr) Hp) as Hb. rewrite bit_wf_inner in Hb by lia.
  destruct Hb as (c & Hc & Hf). exists c. split; [done|]. apply full_iff; [|done]. apply (node_wf_of s g _ c Hinv Hc).
Qed.

Lemma marked_used al i j nd k : g_nd g !! [al; i; j] = Some nd → k ∈ n_bits nd → is_Some (g_used g !! (al, enc i j k)).
Proof.
  intros HP Hk. pose proof (nw_range _ _ _ (node_wf_of s g _ nd Hinv HP) k Hk) as Hr.
  by apply (tw_bits _ _ (iv_tree _ _ Hinv) _ _ _ HP Hr) in Hk.
Qed.

(** Below a marked entry every index is in use. *)
Lemma used_below2 al i nd j k : g_nd g !! [al; i] = Some nd → j ∈ n_bits nd → 0 <= k < 512 → is_Some (g_used g !! (al, enc i j k)).
Proof. intros HP Hj Hk. destruct (marked_child [al; i] nd j) as (c & Hc & Hf); [done..|]. eapply marked_used; [exact Hc|]. auto. Qed.

Lemma used_below1 al nd i j k : g_nd g !! [al] = Some nd → i ∈ n_bits nd → 0 <= j < 512 → 0 <= k < 512 → is_Some (g_used g !! (al, enc i j k)).
Proof. intros HP Hi Hj Hk. destruct (marked_child [al] nd i) as (c & Hc & Hf); [simpl; lia|done..|]. eapply used_below2; [exact Hc|auto..]. Qed.

Lemma found_least al n1 n2 n3 i j k x : found g al n1 n2 n3 i j k → 0 <= x < enc i j k → is_Some (g_used g !! (al, x)).
Proof.
  intros [H1 H2 H3 [Ri Bi _] [Rj Bj _] [Rk Bk _]] Hx.
  assert (idx_ok x) as Hok by (unfold idx_ok, enc in *; lia). destruct (parts_enc x Hok) as (E & Hh & Hm & Hl).
  rewrite E in Hx |- *. assert (hi x < i ∨ hi x = i ∧ (mid x < j ∨ mid x = j ∧ lo x < k)) as [Hi|[-> [Hj|[-> Hk]]]] by (unfold enc in Hx; lia).
  - eapply used_below1; [exact H1|apply Bi; lia|done..].
  - eapply used_below2; [exact H2|apply Bj; lia|done].
  - eapply marked_used; [exact H3|apply Bk; lia].
Qed.

Lemma found_free al n1 n2 n3 i j k : found g al n1 n2 n3 i j k → g_used g !! (al, enc i j k) = None.
Proof.
  intros [H1 H2 H3 _ _ [Rk _ Fk]]. destruct (g_used g !! (al, enc i j k)) eqn:E; [|done]. destruct Fk.
  apply (tw_bits _ _ (iv_tree _ _ Hinv) _ _ _ H3 Rk). simpl. by rewrite E.
Qed.

Lemma root_full al nd x : g_nd g !! [al] = Some nd → size (n_bits nd) = 512%nat → idx_ok x → is_Some (g_used g !! (al, x)).
Proof.
  intros HP Hf Hx. destruct (parts_enc x Hx) as (E & Hh & Hm & Hl). rewrite E. eapply used_below1; [done| |done..].
  eapply full_iff; [apply (node_wf_of s g _ nd Hinv HP)|done|done].
Qed.
End least.

Lemma desc_find_empty_spec (me : Z) s g al nd :
  inv s g → (4 <= length (g_sp g))%nat → g_nd g !! [al] = Some nd →
  wp (desc_find_empty (n_desc nd) (st_prealloc s)) (λ r s',
    (r = None ∧ s' = s ∧ ∀ x, idx_ok x → is_Some (g_used g !! (al, x))) ∨
    ∃ g' x n3, r = Some (n_desc n3, x) ∧ idx_ok x ∧ g_used g !! (al, x) = None ∧ (∀ y, 0 <= y < x → is_Some (g_used g !! (al, y))) ∧
      inv s' g' ∧ evolve (λ _, True) (λ _, True) s g s' g' ∧ g_used g' = <[(al, x) := (me, true)]> (g_used g) ∧
      g_slot g' = g_slot g ∧ st_allocs s' = st_allocs s ∧ g_nd g' !! leaf_path (al, x) = Some n3) s.
Proof.
  intros Hinv Hsp HR. unfold desc_find_empty. wuse (descend_spec me s g al nd Hinv Hsp HR).
  intros r s1 [(-> & -> & Hf)|(g1 & n2 & n3 & i & j & k & D & HF & ->)].
  { apply wp_ret. left. split_and!; [done..|]. intros x Hx. by eapply root_full. }
  pose proof (dp_inv _ _ _ _ D) as I1. destruct HF as [H1 H2 H3 Hi Hj Hk]. pose proof (ff_range _ _ Hi). pose proof (ff_range _ _ Hj). pose proof (ff_range _ _ Hk).
  destruct (enc_parts i j k) as (E1 & E2 & E3 & Hok); [done..|]. set (x := enc i j k) in *.
  assert (g_used g !! (al, x) = None) as Hu by (rewrite <-(dp_used _ _ _ _ D); by eapply found_free).
  pose proof (take_index_spec s1 g1 (al, x) nd n2 n3 I1 Hok) as HT. unfold leaf_path in HT. simpl in HT. rewrite E1, E2, E3 in HT.
  wuse (HT H1 H2 H3 me). { by rewrite (dp_used _ _ _ _ D). }
  intros [] s' (g' & I' & EV & Eu & Es & _ & _ & Ea & HN & _). apply wp_ret. right. destruct (HN _ _ H3) as (n3' & H3' & Ed & _).
  exists g', x, n3'. rewrite (dp_used _ _ _ _ D) in Eu. split_and!; try done.
  - by rewrite Ed.
  - intros y Hy. rewrite <-(dp_used _ _ _ _ D). by eapply (found_least s1).
  - eapply evolve_trans; [apply D|done].
  - by rewrite Es, (dp_slot _ _ _ _ D).
  - by rewrite Ea, (dp_alloc _ _ _ _ D).
  - unfold leaf_path. simpl. by rewrite E1, E2.
Qed.
