(* ===== verification/SdtObject.v ===== *)
(** * The object allocator: objects and their release *)

From S2P Require Import Prelude Bitmap BitmapCorrect Bump BumpCorrect Wp SdtAlloc SdtBase SdtMem SdtPool SdtCarve SdtTree SdtMark SdtNode SdtFind.

(** * The object allocator: objects in their slots

    An object changes hands: it is stored in its slot, gets its index, and is
    cleared when it is freed. *)

(** ** The owner of an index *)
Lemma tree_used_set allocs g h v o fl :
  tree_wf allocs g → g_used g !! h = Some v → (fl = false → is_Some (g_slot g !! h)) →
  tree_wf allocs (gused (<[h := (o, fl)]> (g_used g)) g).
Proof.
  intros HT Hv Hfl. assert (∀ h', is_Some (<[h := (o, fl)]> (g_used g) !! h') ↔ is_Some (g_used g !! h')) as Hs.
  { intros h'. rewrite lookup_insert_is_Some'. split; [intros [<-|?]; eauto|eauto]. }
  split; [split; try (by destruct HT as [[] ?]); simpl|].
  - intros P nd HP. destruct (tw_node _ _ HT _ _ HP). by split.
  - intros h' v' Hv'. destruct (proj1 (Hs h')) as [w Hw]; [by eexists|]. by eapply (tw_used _ _ HT).
  - intros h' o'. rewrite lookup_insert_Some. intros [[<- [= _ ->]]|[_ H]]; [by apply Hfl|by eapply (tw_live _ _ HT)].
  - intros P nd pos HP Hp. rewrite (tw_bits _ _ HT P nd pos HP Hp). symmetry.
    destruct (decide (length P = 3%nat)) as [H3|H3]; [destruct (path3 P H3) as (al & i & j & ->); simpl; apply Hs|by rewrite !bit_wf_inner].
Qed.

Lemma is_live_set g h o fl h' : is_live (gused (<[h := (o, fl)]> (g_used g)) g) h' = if decide (h' = h) then negb fl else is_live g h'.
Proof.
  unfold is_live. simpl. case_decide as E; [subst; rewrite lookup_insert_eq; by destruct fl|by rewrite lookup_insert_ne].
Qed.

(** ** The contents of an object change *)
Section elem.
Context (s : sdt_state) (g : ghost) (me : Z) (h : Z * Z) (e : Z) (fl fl' : bool) (m' : gmap Z Z).
Hypothesis Hinv : inv s g.
Hypothesis Hused : g_used g !! h = Some (me, fl).
Hypothesis Hslot : g_slot g !! h = Some e.
Abbreviation n := (esize (st_allocs s) h.1).
Abbreviation s' := (with_mem (λ _, m') s).
Abbreviation g' := (gused (<[h := (me, fl')]> (g_used g)) g).

Lemma elem_own : g_own g !! e = Some (n, TElem h).
Proof. apply (tw_slot _ _ (iv_tree _ _ Hinv) _ _ Hslot). Qed.

Lemma elem_region : region_ok (st_runs s) e n.
Proof. eapply ly_own; [by apply iv_layout|exact elem_own]. Qed.

Lemma elem_16 : 16 <= n.
Proof. apply (iv_content _ _ Hinv _ _ _ elem_own). Qed.

Lemma elem_trans :
  (∀ b n t, g_own g !! b = Some (n, t) → b ≠ e → agree (st_mem s) m' b n) → layout (st_runs s) m' (g_own g) →
  elem_content m' e n h.2 (negb fl') → inv s' g' ∧ evolve (λ h', h' ≠ h) (λ _, True) s g s' g'.
Proof.
  intros Hag HL Hc. pose proof elem_own as Ho. destruct Hinv as [_ HC HS HP HT]. split; [split; simpl; try done|].
  - eapply contents_update; [exact HC|]. simpl. intros b n0 t Hb. destruct (decide (b = e)) as [->|Hne].
    + right. rewrite Ho in Hb. injection Hb as <- <-. cbn [content]. by rewrite is_live_set, decide_True.
    + left. split_and!; [done|by eapply Hag|]. destruct t as [| | |o|p|al'|P'|P'|h']; try done. cbn [ghost_at]. rewrite is_live_set, decide_False; [done|].
      intros ->. destruct (tw_elem _ _ HT _ _ _ Hb) as [_ E]. congruence.
  - by destruct HS.
  - destruct HP as [P1 P2 P3 P4]. split; [done..| |done]. intros p q Hq Hne. destruct (P3 p q Hq Hne). by split.
  - eapply tree_used_set; [done|done|]. intros _. by rewrite Hslot.
  - split; [split; simpl; try done; eauto|..].
    + intros h' Hh v Hv. simpl. rewrite lookup_insert_ne by done. split_and!; [done..|]. intros e' n' He'.
      eapply Hag; [done|]. intros ->. congruence.
    + intros b _ n' o Hb. split; [done|]. eapply Hag; [done|]. intros ->. congruence.
Qed.
End elem.

(** ** The index and the generation of an object *)
Lemma s32_mod z z' : z mod two32 = z' mod two32 → s32 z = s32 z'.
Proof. unfold s32, u32. by intros ->. Qed.

Lemma s32_s32 z : s32 (s32 z) = s32 z.
Proof.
  apply s32_mod. unfold s32. destruct (Z.ltb_spec (z mod two32) two31); [by rewrite Zmod_mod|].
  replace (z mod two32 - two32) with (z mod two32 + -1 * two32) by lia. by rewrite Z.mod_add, Zmod_mod.
Qed.

Lemma tid_idx_mk idx genn : idx_ok idx → tid_idx (mk_tid idx genn) = idx.
Proof.
  unfold idx_ok, tid_idx, mk_tid. intros Hi. rewrite (u32_small idx) by (unfold two32; lia).
  rewrite <-(s32_small idx) at 2 by (unfold two31; lia). apply s32_mod. rewrite Z.mul_comm. apply Z.mod_add. done.
Qed.

Lemma tid_genn_mk idx genn : tid_genn (mk_tid idx genn) = s32 genn.
Proof.
  unfold tid_genn, mk_tid. rewrite Z.shiftr_div_pow2 by lia. change (2 ^ 32) with two32. rewrite Z.mul_comm, Z.div_add by done.
  rewrite Z.div_small by (unfold u32; apply Z.mod_pos_bound; done). apply s32_mod. unfold u32. by rewrite Z.add_0_l, Zmod_mod.
Qed.

Lemma mk_tid_u64 idx genn : is_u64 (mk_tid idx genn).
Proof.
  unfold is_u64, mk_tid, u32. pose proof (Z.mod_pos_bound idx two32 ltac:(done)). pose proof (Z.mod_pos_bound genn two32 ltac:(done)).
  change two64 with (two32 * two32). nia.
Qed.

(** ** Setting the index *)
Lemma sdt_tailer_at s g h e a :
  inv s g → g_slot g !! h = Some e → st_allocs s !! h.1 = Some a →
  sp_elem_size (sa_pool a) = esize (st_allocs s) h.1 ∧ sdt_tailer a e = e + esize (st_allocs s) h.1 - 16.
Proof.
  intros Hinv Hs Ha. assert (sp_elem_size (sa_pool a) = esize (st_allocs s) h.1) as E by (unfold esize, dims; by rewrite Ha).
  split; [done|]. unfold sdt_tailer, sizeof_sdt_data. rewrite E. destruct (elem_region s g h e Hinv Hs) as [? ? ? ? ? _]. pose proof (elem_16 s g h e Hinv Hs).
  rewrite u64_small by (unfold is_u64; lia). done.
Qed.

Lemma set_tid_idx_spec s g me h e fl :
  inv s g → g_used g !! h = Some (me, fl) → g_slot g !! h = Some e →
  wp (set_tid_idx h.1 e h.2) (λ _ s', ∃ g', inv s' g' ∧ evolve (λ h', h' ≠ h) (λ _, True) s g s' g' ∧
    g_used g' = <[h := (me, false)]> (g_used g) ∧ g_slot g' = g_slot g ∧ g_own g' = g_own g ∧ st_allocs s' = st_allocs s ∧
    let tail := e + esize (st_allocs s) h.1 - 16 in
    tid_idx (word (st_mem s') tail) = h.2 ∧ tid_genn (word (st_mem s') tail) = tid_genn (word (st_mem s) tail) ∧
    ∀ a, a ≠ tail → word (st_mem s') a = word (st_mem s) a) s.
Proof.
  intros Hinv Hu Hs. destruct (tw_used _ _ (iv_tree _ _ Hinv) _ _ Hu) as [Hok _]. pose proof (elem_own s g h e Hinv Hs) as Ho.
  destruct (elem_region s g h e Hinv Hs) as [R1 R2 B8 N8 R3 R4]. pose proof (elem_16 s g h e Hinv Hs) as H16.
  assert (∃ a, st_allocs s !! h.1 = Some a) as [a Ha].
  { unfold esize, dims in H16. destruct (st_allocs s !! h.1) eqn:E; [by eexists|]. simpl in H16. lia. }
  destruct (sdt_tailer_at s g h e a Hinv Hs Ha) as [_ Et]. unfold set_tid_idx, data_tid. wbind. eapply wp_get_alloc; [done|]. rewrite Et.
  set (n := esize (st_allocs s) h.1) in *. set (tail := e + n - 16).
  assert (mapped (st_runs s) tail = true) as Hm. { eapply mapped_in; [by eapply ly_own; [apply Hinv|exact Ho]|unfold tail..]; [lia|lia|]. off. }
  wbind. apply wp_ld; [done|]. apply wp_st; [done|].
  destruct (elem_trans s g me h e fl false (<[tail := mk_tid h.2 (tid_genn (word (st_mem s) tail))]> (st_mem s)) Hinv Hu Hs) as [I1 E1].
  - intros b n0 t Hb Hne. eapply (write_agree s g e n); [done|done|unfold tail; lia|unfold tail; lia|done|done].
  - eapply layout_write; [apply Hinv|exact Ho|unfold tail; off..|apply mk_tid_u64].
  - split; [done|]. fold n. fold tail. rewrite word_insert_eq. by apply tid_idx_mk.
  - eexists. split_and!; [exact I1|exact E1|done..| | |]; simpl.
    + rewrite word_insert_eq. by apply tid_idx_mk.
    + rewrite word_insert_eq, tid_genn_mk. apply s32_s32.
    + intros a' Ha'. by rewrite word_insert_ne.
Qed.

(** ** A new object in its slot *)
Definition gstore (h : Z * Z) (e n : Z) (g : ghost) : ghost :=
  Ghost (<[e := (n, TElem h)]> (g_own g)) (g_nd g) (g_used g) (<[h := e]> (g_slot g)) (g_sp g) (g_rv g) (g_prv g).

Section store.
Context (s : sdt_state) (g : ghost) (me : Z) (h : Z * Z) (e : Z) (n3 : node).
Hypothesis Hinv : inv s g.
Hypothesis Hused : g_used g !! h = Some (me, true).
Hypothesis Hslot : g_slot g !! h = None.
Hypothesis Hn3 : g_nd g !! leaf_path h = Some n3.
Abbreviation n := (esize (st_allocs s) h.1).
Hypothesis Hpriv : g_own g !! e = Some (n, TPriv me).
Hypothesis Hsize : 16 <= n.
Hypothesis Hzero : zeroed (st_mem s) e n.
Abbreviation a := (chunk_slot (n_chunk n3) (lo h.2)).
Abbreviation s' := (with_mem <[a := e]> s).
Abbreviation g' := (gstore h e n g).

Lemma store_idx : idx_ok h.2 ∧ 0 <= lo h.2 < 512.
Proof. destruct (tw_used _ _ (iv_tree _ _ Hinv) _ _ Hused) as [Hok _]. destruct (parts_enc _ Hok) as (_ & _ & _ & ?). done. Qed.

Lemma store_keep b n t : (∀ o, t ≠ TPriv o) → g_own g !! b = Some (n, t) → g_own g' !! b = Some (n, t).
Proof. intros Ht Hb. simpl. rewrite lookup_insert_ne; [done|]. intros <-. apply (Ht me). congruence. Qed.

Lemma store_back b n t : (∀ h, t ≠ TElem h) → g_own g' !! b = Some (n, t) → g_own g !! b = Some (n, t).
Proof. intros Ht. simpl. rewrite lookup_insert_Some. naive_solver. Qed.

Lemma store_agree b n t : g_own g !! b = Some (n, t) → b ≠ n_chunk n3 → agree (st_mem s) (st_mem s') b n.
Proof.
  intros Hb Hne. pose proof (proj2 store_idx). pose proof (nw_chunk _ _ _ (node_wf_of s g _ n3 Hinv Hn3)) as Hc.
  apply (write_agree s g (n_chunk n3) 4096 a e (TChunk (leaf_path h)) Hinv Hc) with (t' := t); unfold chunk_slot; try done; lia.
Qed.

(** The entries of the other index pages do not hold it. *)
Lemma store_slotval P x : length P = 3%nat → Forall (λ x, 0 <= x < 512) (tail P) → 0 <= x < 512 →
  slotval g' P x = if decide (P = leaf_path h ∧ x = lo h.2) then e else slotval g P x.
Proof.
  intros H3 HP Hx. destruct (path3 P H3) as (al & i & j & ->). simpl in HP. apply Forall_cons in HP as [Hi [Hj _]%Forall_cons].
  destruct (enc_parts i j x Hi Hj Hx) as (E1 & E2 & E3 & _). simpl. destruct (decide (h = (al, enc i j x))) as [Eh|Eh].
  - rewrite Eh, lookup_insert_eq. rewrite decide_True; [done|]. unfold leaf_path. simpl. by rewrite E1, E2, E3.
  - rewrite lookup_insert_ne by done. rewrite decide_False; [done|]. intros [E0 E4]. apply Eh. unfold leaf_path in E0. injection E0 as -> -> ->.
    rewrite E4. destruct (parts_enc _ (proj1 store_idx)) as [<- _]. by destruct h.
Qed.

Lemma store_contents : contents (st_mem s') g'.
Proof.
  destruct store_idx as [Hok Hlo]. pose proof (nw_chunk _ _ _ (node_wf_of s g _ n3 Hinv Hn3)) as Hc.
  eapply contents_update; [apply Hinv|]. intros b n0 t Hb. destruct (decide (b = e)) as [->|Hbe].
  { right. simpl in Hb. rewrite lookup_insert_eq in Hb. injection Hb as <- <-.
    assert (agree (st_mem s) (st_mem s') e n) as Ha by (eapply store_agree; [done|congruence]).
    split; [done|]. unfold is_live. simpl. rewrite Hused. pose proof (zeroed_agree _ _ _ _ Ha Hzero) as Hz.
    split_and!; [eapply zeroed_sub; [exact Hz|lia..]|apply Hz; lia|]. rewrite Hz by lia. done. }
  simpl in Hb. rewrite lookup_insert_ne in Hb by done. destruct (decide (b = n_chunk n3)) as [->|Hbc].
  - right. rewrite Hc in Hb. injection Hb as <- <-. destruct (iv_content _ _ Hinv _ _ _ Hc) as (_ & Hn & Hw).
    split_and!; [done..|]. intros x Hx. rewrite store_slotval; [|done|apply (node_wf_of s g _ n3 Hinv Hn3)|done].
    simpl. rewrite word_insert. unfold chunk_slot. case_decide as E; [rewrite decide_True by (split; [done|lia]); done|].
    rewrite decide_False; [by apply Hw|]. intros [_ ->]. done.
  - left. split_and!; [done|by eapply store_agree|]. destruct t as [| | |o|p|al'|P|P|h']; try done. split; [done|]. intros x Hx.
    destruct (decide (length P = 3%nat)) as [H3|H3]; [|destruct P as [|? [|? [|? [|? ?]]]]; done].
    destruct (iv_content _ _ Hinv _ _ _ Hb) as (_ & (nd & HP & ->)%fmap_Some_1 & _).
    rewrite store_slotval; [|done|apply (node_wf_of s g _ nd Hinv HP)|done]. rewrite decide_False; [done|].
    intros [-> _]. apply Hbc. congruence.
Qed.

Lemma store_tree : tree_wf (st_allocs s) g'.
Proof.
  pose proof (iv_tree _ _ Hinv) as HT. split; [split; try (by destruct HT as [[] ?]); simpl|].
  - intros P nd HP. destruct (tw_node _ _ HT _ _ HP) as [A B C D E F]. split; try done; by apply store_keep.
  - intros h' o Hh. rewrite lookup_insert_is_Some'. right. by eapply (tw_live _ _ HT).
  - intros h' e'. rewrite lookup_insert_Some. intros [[<- <-]|[Hne He]].
    + rewrite lookup_insert_eq. split_and!; [done|apply store_idx|by eexists].
    + destruct (tw_slot _ _ HT _ _ He) as (H1 & H2 & H3). split_and!; [by apply store_keep|done..].
  - intros e' n' h'. rewrite lookup_insert_Some. intros [[<- [= <- <-]]|[Hne He]]; [by rewrite lookup_insert_eq|].
    destruct (tw_elem _ _ HT _ _ _ He) as [-> Hs]. split; [done|]. rewrite lookup_insert_ne; [done|]. intros <-. congruence.
  - apply (tw_bits _ _ HT).
Qed.

Lemma store_inv : mapped (st_runs s) a = true ∧ inv s' g' ∧ evolve (λ h', h' ≠ h) (λ b, b ≠ e) s g s' g'.
Proof.
  destruct store_idx as [Hok Hlo]. pose proof (node_wf_of s g _ n3 Hinv Hn3) as HN. pose proof (nw_chunk _ _ _ HN) as Hc.
  destruct (region_u64 _ _ _ _ _ _ (iv_layout _ _ Hinv) Hpriv) as [He _].
  destruct (ly_own _ _ _ (iv_layout _ _ Hinv) _ _ _ Hpriv) as [_ _ _ N8 _ _].
  split_and!; [by eapply slot_mapped|split; simpl|].
  - eapply layout_shrink; [|exact Hpriv|lia|done]. eapply layout_write; [apply Hinv|exact Hc|unfold chunk_slot; off..|done].
  - apply store_contents.
  - eapply stack_wf_own; [apply Hinv|done..| |]; intros b n0 t Ht Hb; [apply store_keep; naive_solver|]. eapply store_back; [|exact Hb]; naive_solver.
  - eapply pools_wf_own; [apply Hinv|done..|]. intros b n0 t Ht. split; intros Hb; [apply store_keep; naive_solver|].
    eapply store_back; [|exact Hb]; naive_solver.
  - apply store_tree.
  - split; [split; [..|done]|..]; simpl; try done; eauto.
    + intros b n0 t Hb Ht. apply store_keep; [|done]. by intros o ->.
    + intros h' Hh v Hv. simpl. rewrite lookup_insert_ne by done. split_and!; [done..|]. intros e' n' He'.
      eapply store_agree; [done|]. congruence.
    + intros b Hb n0 o Ho. simpl. rewrite lookup_insert_ne by done. split; [done|]. eapply store_agree; [done|]. congruence.
Qed.
End store.

(** A recycled object is stored where it is. *)
Lemma restore_inv s g P nd pos :
  inv s g → g_nd g !! P = Some nd → 0 <= pos < 512 →
  let s' := with_mem <[chunk_slot (n_chunk nd) pos := slotval g P pos]> s in
  mapped (st_runs s) (chunk_slot (n_chunk nd) pos) = true ∧ inv s' g ∧ evolve (λ _, True) (λ _, True) s g s' g ∧
  ∀ a, word (st_mem s') a = word (st_mem s) a.
Proof.
  intros Hinv HP Hp. cbv zeta. set (a := chunk_slot _ _). pose proof (slot_word s g P nd Hinv HP pos Hp) as Hw. fold a in Hw.
  assert (∀ a', word (<[a := slotval g P pos]> (st_mem s)) a' = word (st_mem s) a') as Hsame.
  { intros a'. rewrite word_insert. case_decide; [by subst|done]. }
  pose proof (nw_chunk _ _ _ (node_wf_of s g P nd Hinv HP)) as Hc. destruct (chunk_region s g P nd Hinv HP) as [_ _ B8 _ _ _].
  split_and!; [by eapply slot_mapped| |split; [split; eauto| |]|done].
  - eapply inv_write; [done|exact Hc|unfold a, chunk_slot; lia|unfold a, chunk_slot; lia|unfold a, chunk_slot; off| |].
    + rewrite <-Hw. apply (ly_u64 _ _ _ (iv_layout _ _ Hinv)).
    + eapply content_agree; [|by apply (iv_content _ _ Hinv)]. by intros a' _.
  - intros h _ v Hv. split_and!; [done..|]. by intros e n He a' _.
  - intros b _ n o Hb. split; [done|]. by intros a' _.
Qed.

(** ** Clearing *)
Definition zero_at (d i n a : Z) : Prop := d + 8 * i <= a < d + 8 * n ∧ (a - d) mod 8 = 0.
#[global] Instance zero_at_dec d i n a : Decision (zero_at d i n a).
Proof. unfold zero_at. apply _. Defined.

Lemma zero_words_spec runs d n N own t cl i s :
  st_runs s = runs → own !! d = Some (N, t) → 8 * n <= N → 0 <= i → (Z.to_nat (n - i) <= cl)%nat →
  layout runs (st_mem s) own →
  wp (zero_words cl i n d) (λ _ s', ∃ m', s' = with_mem (λ _, m') s ∧ layout runs m' own ∧
    ∀ a, word m' a = if decide (zero_at d i n a) then 0 else word (st_mem s) a) s.
Proof.
  intros Hr Ho Hn. revert i s Hr. induction cl as [|cl IH]; intros i s Hr Hi Hcl HL; simpl.
  - rewrite (proj2 (Z.ltb_ge _ _)) by lia. apply wp_ret. exists (st_mem s). split_and!; [by destruct s|done|].
    intros a. rewrite decide_False; [done|]. unfold zero_at. lia.
  - destruct (Z.ltb_spec i n) as [Hlt|Hge].
    2: { apply wp_ret. exists (st_mem s). split_and!; [by destruct s|done|]. intros a. rewrite decide_False; [done|]. unfold zero_at. lia. }
    pose proof (ly_own _ _ _ HL _ _ _ Ho) as Hreg. pose proof (ro_base8 _ _ _ Hreg) as B8.
    wbind. apply wp_st; [rewrite Hr; eapply mapped_in; [exact Hreg|lia|lia|off]|].
    assert (layout runs (<[d + 8 * i := 0]> (st_mem s)) own) as HL1 by (eapply layout_write; [exact HL|exact Ho|lia|lia|off|done]).
    eapply wp_mono; [eapply (IH (i + 1)); [done|lia|lia|exact HL1]|]. intros [] s' (m' & -> & HL' & Hw). exists m'. split_and!; [done..|].
    intros a. rewrite Hw. simpl. rewrite word_insert. unfold zero_at. repeat case_decide; try done; exfalso; revert select (¬ _); off.
Qed.

Lemma word_unaligned runs m own a : layout runs m own → a mod 8 ≠ 0 → word m a = 0.
Proof. intros HL Ha. unfold word. destruct (m !! a) eqn:E; [|done]. by destruct Ha; eapply ly_al. Qed.

(** What is left of an object that was freed: nothing but its generation. *)
Record cleared (m : gmap Z Z) (e n genn : Z) : Prop := Cleared {
  cl_data : zeroed m e (n - 16);
  cl_link : word m (e + n - 8) = 0;
  cl_idx : tid_idx (word m (e + n - 16)) = 0;
  cl_genn : tid_genn (word m (e + n - 16)) = s32 (genn + 1);
}.

Lemma recycle_spec s g me h e fl a cl :
  inv s g → g_used g !! h = Some (me, fl) → g_slot g !! h = Some e → st_allocs s !! h.1 = Some a →
  ((Z.to_nat (esize (st_allocs s) h.1 - 16)) / 8 <= cl)%nat →
  wp (recycle cl a e) (λ _ s', ∃ m', s' = with_mem (λ _, m') s ∧
    inv s' (gused (<[h := (me, true)]> (g_used g)) g) ∧
    evolve (λ h', h' ≠ h) (λ _, True) s g s' (gused (<[h := (me, true)]> (g_used g)) g) ∧
    cleared m' e (esize (st_allocs s) h.1) (tid_genn (word (st_mem s) (e + esize (st_allocs s) h.1 - 16)))) s.
Proof.
  intros Hinv Hu Hs Ha Hcl. pose proof (elem_own s g h e Hinv Hs) as Ho. pose proof (elem_region s g h e Hinv Hs) as Hreg.
  pose proof (elem_16 s g h e Hinv Hs) as H16. destruct (sdt_tailer_at s g h e a Hinv Hs Ha) as [En Et].
  unfold recycle, data_tid, data_urcu_link. rewrite Et, En. unfold sizeof_sdt_data. cbv zeta.
  set (n := esize (st_allocs s) h.1) in *. set (tail := e + n - 16) in *. pose proof Hreg as [R1 R2 B8 N8 R3 R4].
  assert (mapped (st_runs s) tail = true) as Hm by (eapply mapped_in; [exact Hreg|unfold tail; lia|unfold tail; lia|unfold tail; off]).
  assert (mapped (st_runs s) (tail + 8) = true) as Hm8 by (eapply mapped_in; [exact Hreg|unfold tail; lia|unfold tail; lia|unfold tail; off]).
  wbind. apply wp_ld; [done|]. set (w := mk_tid 0 _). wbind. apply wp_st; [done|]. wbind. apply wp_st; [done|].
  set (m2 := <[tail + 8 := 0]> (<[tail := w]> (st_mem s))).
  assert (layout (st_runs s) m2 (g_own g)) as HL2.
  { eapply layout_write; [eapply layout_write; [apply Hinv|exact Ho|unfold tail; lia|unfold tail; lia|unfold tail; off|apply mk_tid_u64]
      |exact Ho|unfold tail; lia|unfold tail; lia|unfold tail; off|done]. }
  assert (8 * ((n - 16) / 8) = n - 16) as E8 by off.
  eapply wp_mono; [eapply (zero_words_spec (st_runs s) e _ n (g_own g)); [done|exact Ho|lia|lia| |exact HL2]|].
  { etrans; [|exact Hcl]. apply Nat2Z.inj_le. rewrite Nat2Z.inj_div, !Z2Nat.id by off. rewrite Z.sub_0_r. done. }
  intros [] s' (m' & -> & HL' & Hw). simpl in Hw. fold m2 in Hw.
  assert (∀ x, x < e ∨ e + n - 16 <= x → word m' x = word m2 x) as Hout.
  { intros x Hx. rewrite Hw, decide_False; [done|]. unfold zero_at. lia. }
  assert (word m' tail = w) as Ew by (rewrite Hout by (unfold tail; lia); unfold m2; rewrite word_insert_ne by lia; by rewrite word_insert_eq).
  assert (word m' (tail + 8) = 0) as Ew8 by (rewrite Hout by (unfold tail; lia); unfold m2; by rewrite word_insert_eq).
  assert (zeroed m' e (n - 16)) as Hz.
  { intros x Hx. destruct (decide (x mod 8 = 0)) as [H8|H8]; [|by eapply word_unaligned].
    rewrite Hw, decide_True; [done|]. unfold zero_at. split; [lia|off]. }
  assert (tid_idx w = 0) as Ei by (by apply tid_idx_mk).
  destruct (elem_trans s g me h e fl true m' Hinv Hu Hs) as [I1 E1].
  - intros b n0 t Hb Hne x Hx. destruct (ly_disj _ _ _ (iv_layout _ _ Hinv) _ _ _ _ _ _ Hb Ho Hne) as [Hd|Hd]; simpl in Hd;
      (rewrite Hout by lia; unfold m2; rewrite !word_insert_ne by (unfold tail; lia); done).
  - done.
  - unfold elem_content. cbn [negb]. fold n. replace (e + n - 8) with (tail + 8) by (unfold tail; lia). fold tail. rewrite Ew, Ew8. done.
  - exists m'. split_and!; [done|done|done|]. split; [done|replace (e + n - 8) with (tail + 8) by (unfold tail; lia); done|fold tail; by rewrite Ew|].
    fold tail. rewrite Ew. apply tid_genn_mk.
Qed.

(** * The object allocator: freeing

    [scx_alloc_free_idx] and [scx_free]: an object is cleared and its index can be taken
    again; an index whose leaf does not exist is refused. *)

(** ** The walk to the leaf *)
Lemma level_pos x n : 0 <= x → Z.land (Z.shiftr x (Z.of_nat n * SDT_TASK_ENTS_PER_PAGE_SHIFT)) (SDT_TASK_ENTS_PER_CHUNK - 1) =
  x / 2 ^ (9 * Z.of_nat n) mod 512.
Proof.
  intros Hx. unfold SDT_TASK_ENTS_PER_PAGE_SHIFT, SDT_TASK_ENTS_PER_CHUNK. change (512 - 1) with (Z.ones 9).
  rewrite Z.land_ones, Z.shiftr_div_pow2 by lia. by rewrite (Z.mul_comm (Z.of_nat n)).
Qed.

Lemma level_pos2 x : idx_ok x → Z.land (Z.shiftr x (Z.of_nat 2 * SDT_TASK_ENTS_PER_PAGE_SHIFT)) (SDT_TASK_ENTS_PER_CHUNK - 1) = hi x.
Proof. intros Hx. rewrite level_pos by apply Hx. unfold hi. apply Z.mod_small. apply (parts_enc x Hx). Qed.
Lemma level_pos1 x : idx_ok x → Z.land (Z.shiftr x (Z.of_nat 1 * SDT_TASK_ENTS_PER_PAGE_SHIFT)) (SDT_TASK_ENTS_PER_CHUNK - 1) = mid x.
Proof. intros Hx. by rewrite level_pos by apply Hx. Qed.
Lemma level_pos0 x : idx_ok x → Z.land x (SDT_TASK_ENTS_PER_CHUNK - 1) = lo x.
Proof. intros Hx. pose proof (level_pos x 0 (proj1 Hx)) as H. rewrite Z.div_1_r in H. exact H. Qed.

Lemma inner_slot g P pos : length P ≠ 3%nat → slotval g P pos = from_option n_desc 0 (g_nd g !! (P ++ [pos])).
Proof. intros H. by destruct P as [|? [|? [|? [|? P]]]]. Qed.

Lemma free_walk_spec s g h n1 :
  inv s g → idx_ok h.2 → g_nd g !! [h.1] = Some n1 →
  wp (free_walk 2 (n_desc n1) h.2 []) (λ r s', s' = s ∧
    match g_nd g !! leaf_path h with
    | Some n3 => ∃ n2, g_nd g !! [h.1; hi h.2] = Some n2 ∧
        r = Some (n_desc n3, [(n_desc n3, lo h.2); (n_desc n2, mid h.2); (n_desc n1, hi h.2)])
    | None => r = None
    end) s.
Proof.
  intros Hinv Hok H1. destruct (parts_enc _ Hok) as (_ & Hh & Hm & Hl). cbn [free_walk]. cbv zeta.
  rewrite level_pos2, level_pos1 by done. change (Z.of_nat 0 * SDT_TASK_ENTS_PER_PAGE_SHIFT) with 0. rewrite Z.shiftr_0_r, level_pos0 by done.
  wbind. eapply wp_ld_chunk; [done..|]. wbind. eapply wp_ld_slot; [done..|]. rewrite inner_slot by done. simpl.
  destruct (g_nd g !! [h.1; hi h.2]) as [n2|] eqn:H2; simpl.
  - rewrite (proj2 (Z.eqb_neq _ _)) by (by eapply node_nonnull). wbind. eapply wp_ld_chunk; [done..|].
    wbind. eapply wp_ld_slot; [done..|]. rewrite inner_slot by done. unfold leaf_path. simpl.
    destruct (g_nd g !! [h.1; hi h.2; mid h.2]) as [n3|] eqn:H3; simpl; [|by apply wp_ret].
    rewrite (proj2 (Z.eqb_neq _ _)) by (by eapply node_nonnull). apply wp_ret. split; [done|]. by exists n2.
  - apply wp_ret. split; [done|]. destruct (g_nd g !! leaf_path h) as [n3|] eqn:H3; [|done].
    destruct (nw_parent _ _ _ (node_wf_of s g _ n3 Hinv H3) [h.1; hi h.2] (mid h.2)) as [? ?]; [done..|congruence].
Qed.

(** An index in use has its nodes. *)
Lemma used_nodes s g h v : inv s g → g_used g !! h = Some v →
  idx_ok h.2 ∧ ∃ n1 n2 n3, g_nd g !! [h.1] = Some n1 ∧ g_nd g !! [h.1; hi h.2] = Some n2 ∧ g_nd g !! leaf_path h = Some n3.
Proof.
  intros Hinv Hv. destruct (tw_used _ _ (iv_tree _ _ Hinv) _ _ Hv) as [Hok [n3 H3]]. split; [done|].
  destruct (nw_parent _ _ _ (node_wf_of s g _ n3 Hinv H3) [h.1; hi h.2] (mid h.2)) as [n2 H2]; [done..|].
  destruct (nw_parent _ _ _ (node_wf_of s g _ n2 Hinv H2) [h.1] (hi h.2)) as [n1 H1]; [done..|]. by exists n1, n2, n3.
Qed.

(** The descriptor of the tree of an allocator that is set up. *)
Lemma root_alloc s g al n1 : inv s g → g_nd g !! [al] = Some n1 →
  ∃ a, st_allocs s !! al = Some a ∧ sa_root a = n_desc n1 ∧ n_desc n1 ≠ 0 ∧ 16 <= esize (st_allocs s) al.
Proof.
  intros Hinv H1. pose proof (tw_alloc _ _ (iv_tree _ _ Hinv) _ _ H1) as H16. unfold esize, dims in *.
  destruct (st_allocs s !! al) as [a|] eqn:Ha; [|simpl in H16; lia]. exists a. split_and!; [done| |by eapply node_nonnull|done].
  by rewrite (tw_root _ _ (iv_tree _ _ Hinv) _ _ Ha), H1.
Qed.

(** ** Freeing an index *)

(** The statistics are no part of the invariant. *)
Lemma inv_stats f s g : inv s g → inv (with_stats f s) g.
Proof. by intros []. Qed.
Lemma evolve_stats f U V s g s' g' : evolve U V s g s' g' → evolve U V s g (with_stats f s') g'.
Proof. intros [[] ? ?]. by split; [split|..]. Qed.

(** The generation in the trailer of the object of [h], and what freeing leaves. *)
Definition freed (s : sdt_state) (g : ghost) (h : Z * Z) (s' : sdt_state) : Prop :=
  ∀ e, g_slot g !! h = Some e →
    cleared (st_mem s') e (esize (st_allocs s) h.1) (tid_genn (word (st_mem s) (e + esize (st_allocs s) h.1 - 16))).

Lemma cleared_agree m m' e n k : agree m m' e n → 16 <= n → cleared m e n k → cleared m' e n k.
Proof.
  intros Ha Hn [A B C D]. split; [eapply zeroed_agree, A; eapply agree_sub; [done|lia..]|rewrite Ha by lia; done..].
Qed.

Lemma free_idx_spec cl s g me h fl :
  inv s g → h.1 ≠ NULL → g_used g !! h = Some (me, fl) → ((Z.to_nat (esize (st_allocs s) h.1 - 16)) / 8 <= cl)%nat →
  wp (scx_alloc_free_idx cl h.1 h.2) (λ r s', r = 0 ∧ ∃ g', inv s' g' ∧ evolve (λ h', h' ≠ h) (λ _, True) s g s' g' ∧
    g_used g' = delete h (g_used g) ∧ g_slot g' = g_slot g ∧ g_own g' = g_own g ∧ st_allocs s' = st_allocs s ∧ freed s g h s') s.
Proof.
  intros Hinv Hnull Hu Hcl. destruct (used_nodes s g h _ Hinv Hu) as (Hok & n1 & n2 & n3 & H1 & H2 & H3).
  destruct (root_alloc s g _ n1 Hinv H1) as (a & Ha & Er & Hr & H16). destruct (parts_enc _ Hok) as (_ & _ & _ & Hlo).
  unfold scx_alloc_free_idx. rewrite (proj2 (Z.eqb_neq _ _) Hnull). wbind. eapply wp_get_alloc; [done|]. rewrite Er, (proj2 (Z.eqb_neq _ _) Hr).
  wuse (free_walk_spec s g h n1 Hinv Hok H1). intros r s0 [-> Hw]. rewrite H3 in Hw. destruct Hw as (n2' & H2' & ->). rewrite H2 in H2'. injection H2' as <-.
  wbind. eapply wp_ld_chunk; [done..|]. rewrite level_pos0 by done. wbind. eapply wp_ld_slot; [done..|].
  assert (slotval g (leaf_path h) (lo h.2) = default 0 (g_slot g !! h)) as ->.
  { simpl. destruct (parts_enc _ Hok) as [<- _]. by destruct h. }
  assert (∃ s1 g1, inv s1 g1 ∧ evolve (λ h', h' ≠ h) (λ _, True) s g s1 g1 ∧ g1 = gused (<[h := (me, true)]> (g_used g)) g ∧
    st_allocs s1 = st_allocs s ∧ freed s g h s1 ∧
    ∀ Q, wp (mret tt) Q s1 → wp (if default 0 (g_slot g !! h) =? NULL then mret tt else recycle cl a (default 0 (g_slot g !! h))) Q s) as (s1 & g1 & I1 & E1 & -> & A1 & F1 & Hrun).
  { destruct (g_slot g !! h) as [e|] eqn:Es; simpl.
    - destruct (elem_region s g h e Hinv Es) as [R1 _ _ _ _ _]. rewrite (proj2 (Z.eqb_neq _ _)) by lia.
      pose proof (recycle_spec s g me h e fl a cl Hinv Hu Es Ha Hcl) as HR. apply wp_run in HR as ([] & s1 & HR & m' & -> & I1 & E1 & C1).
      eexists _, _. split_and!; [exact I1|exact E1|done..|intros e' He'; rewrite Es in He'; injection He' as <-; exact C1|]. intros Q HQ. by eapply wp_eq.
    - assert (fl = true) as ->. { destruct fl; [done|]. destruct (tw_live _ _ (iv_tree _ _ Hinv) _ _ Hu). congruence. }
      exists s, g. split_and!; [done|apply evolve_refl| |done|intros e' He'; congruence|done]. unfold gused. rewrite insert_id by done. by destruct g. }
  wbind. apply Hrun. wstep. 
  wuse (return_index_spec s1 _ h n1 n2 n3 I1 Hok H1 H2 H3 me). { simpl. by rewrite lookup_insert_eq. }
  intros r s2 [-> (g2 & I2 & E2 & Eu & Es & Eo & _ & Ea & _ & Hag)]. simpl. wstep. wstep. split; [done|]. exists g2.
  split_and!; [by apply inv_stats|apply evolve_stats; by eapply evolve_trans| |done|done|simpl; congruence|].
  - rewrite Eu. simpl. by rewrite delete_insert_eq.
  - intros e He. specialize (F1 e He). simpl. eapply cleared_agree; [|done|exact F1].
    eapply Hag; [exact (elem_own s g h e Hinv He)|done].
Qed.
