(* ===== verification/SdtCorrect.v ===== *)
(** * The object allocator: allocation and its guarantees

    [scx_alloc_internal] with other threads around it: whatever they do with
    objects of their own, an allocation that returns an object returns a blank one
    that nobody uses, and takes nothing from anybody. *)

From S2P Require Import Prelude Bitmap BitmapCorrect Bump BumpCorrect Wp SdtAlloc SdtBase SdtMem SdtPool SdtCarve SdtTree SdtMark SdtNode SdtFind SdtObject.

(** ** Since a start *)

(** The invariant holds, and what the threads of [W] had in [s0] is theirs still. *)
Definition since (W : Z → Prop) (s0 : sdt_state) (g0 : ghost) (s : sdt_state) (g : ghost) : Prop :=
  inv s g ∧ evolve (owned W g0) (held W g0) s0 g0 s g.

Section since.
Context (W : Z → Prop) (s0 : sdt_state) (g0 : ghost).

Lemma since_refl : inv s0 g0 → since W s0 g0 s0 g0.
Proof. intros H. split; [done|apply evolve_refl]. Qed.

Lemma since_step s g s' g' (U : Z * Z → Prop) (V : Z → Prop) :
  since W s0 g0 s g → inv s' g' → evolve U V s g s' g' → (∀ h, owned W g0 h → U h) → (∀ b, held W g0 b → V b) → since W s0 g0 s' g'.
Proof. intros [_ E] I' E' HU HV. split; [done|]. eapply evolve_trans; [done|]. by eapply evolve_mono, E'. Qed.

Lemma since_me s g s' g' : since W s0 g0 s g → inv s' g' → evolve (owned W g) (held W g) s g s' g' → since W s0 g0 s' g'.
Proof. intros [_ E] I' E'. split; [done|]. by eapply evolve_me_trans. Qed.

Lemma since_stats f s g : since W s0 g0 s g → since W s0 g0 (with_stats f s) g.
Proof. intros [I E]. split; [by apply inv_stats|by apply evolve_stats]. Qed.

(** An index with an object in the making keeps both through interference. *)
Lemma since_env env s g : env_ok W env → since W s0 g0 s g →
  ∃ g', since W s0 g0 (env s) g' ∧ evolve (owned W g) (held W g) s g (env s) g'.
Proof. intros He HS. destruct (He s g (proj1 HS)) as (g' & I' & E'). exists g'. split; [by eapply since_me|done]. Qed.
End since.

Lemma evolve_index W V s g s' g' h me fl :
  evolve (owned W g) V s g s' g' → W me → g_used g !! h = Some (me, fl) →
  g_used g' !! h = Some (me, fl) ∧ g_slot g' !! h = g_slot g !! h.
Proof. intros E Hm Hu. destruct (ev_obj _ _ _ _ _ _ E h) with (v := (me, fl)) as (? & ? & _); [by eexists _, _|done..]. Qed.

Lemma evolve_node U V s g s' g' P nd :
  evolve U V s g s' g' → g_nd g !! P = Some nd → ∃ nd', g_nd g' !! P = Some nd' ∧ n_desc nd' = n_desc nd ∧ n_chunk nd' = n_chunk nd.
Proof. intros E. apply (gr_nd _ _ _ _ (ev_grows _ _ _ _ _ _ E)). Qed.

Lemma evolve_esize U V s g s' g' al : evolve U V s g s' g' → 16 <= esize (st_allocs s) al → esize (st_allocs s') al = esize (st_allocs s) al.
Proof. intros E H. unfold esize. by rewrite (gr_size _ _ _ _ (ev_grows _ _ _ _ _ _ E) al H). Qed.

(** ** What an allocation delivers *)

(** The object [r] of [me], with index [x]: its payload and its link are zero. *)
Record granted (me al x r : Z) (s : sdt_state) (g : ghost) : Prop := Granted {
  gt_used : g_used g !! (al, x) = Some (me, false);
  gt_slot : g_slot g !! (al, x) = Some r;
  gt_zero : zeroed (st_mem s) r (esize (st_allocs s) al - 16);
  gt_link : word (st_mem s) (r + esize (st_allocs s) al - 8) = 0;
  gt_idx : tid_idx (word (st_mem s) (r + esize (st_allocs s) al - 16)) = x;
}.

Definition alloc_post (W : Z → Prop) (me al : Z) (s0 : sdt_state) (g0 : ghost) (r : Z) (s' : sdt_state) : Prop :=
  ∃ g', since W s0 g0 s' g' ∧ (r = NULL ∨ ∃ x, ¬ owned W g0 (al, x) ∧ granted me al x r s' g').

Section finish.
Context (W : Z → Prop) (me al x : Z) (s0 : sdt_state) (g0 : ghost).
Hypothesis HW : W me.
Hypothesis Hfresh : ¬ owned W g0 (al, x).

(** From the store of the object on. *)
Lemma finish_spec env1 env2 s g e :
  env_ok W env1 → env_ok W env2 → since W s0 g0 s g → g_used g !! (al, x) = Some (me, true) → g_slot g !! (al, x) = Some e →
  wp (modifies env1;; scx_alloc_finish env2 al e x;; mret e) (alloc_post W me al s0 g0) s.
Proof.
  intros He1 He2 HS Hu Hs. wstep. destruct (since_env W s0 g0 env1 s g He1 HS) as (g1 & S1 & E1).
  destruct (evolve_index _ _ _ _ _ _ _ _ _ E1 HW Hu) as [Hu1 Hs1]. rewrite Hs in Hs1.
  unfold scx_alloc_finish, finish_stats. wbind. wstep. apply (since_stats _ _ _ (λ t, AllocStats (as_chunk_allocs t) (u64 (as_data_allocs t + 1)) (u64 (as_alloc_ops t + 1)) (as_free_ops t)
                               (u64 (as_active_allocs t + 1)) (as_arena_pages_used t) (as_alloc_nomem t))) in S1.
  set (s1 := with_stats _ _) in *. clearbody s1. wstep. destruct (since_env W s0 g0 env2 s1 g1 He2 S1) as (g2 & S2 & E2).
  destruct (evolve_index _ _ _ _ _ _ _ _ _ E2 HW Hu1) as [Hu2 Hs2]. rewrite Hs1 in Hs2. set (s2 := env2 s1) in *. clearbody s2.
  pose proof (elem_own s2 g2 (al, x) e (proj1 S2) Hs2) as Ho. destruct (iv_content _ _ (proj1 S2) _ _ _ Ho) as [H16 HB].
  unfold is_live in HB. rewrite Hu2 in HB. destruct HB as (B1 & B2 & _).
  eapply wp_mono; [exact (set_tid_idx_spec s2 g2 me (al, x) e true (proj1 S2) Hu2 Hs2)|].
  intros [] s3 (g3 & I3 & E3 & Eu & Es & Eo & Ea & T1 & _ & T3). wstep. exists g3. simpl in *. split.
  - eapply since_step; [exact S2|done|exact E3| |done]. by intros h Hh ->.
  - right. exists x. split; [done|]. split; rewrite ?Ea; [by rewrite Eu, lookup_insert_eq|by rewrite Es| |rewrite T3 by lia; done|done].
    intros b Hb. rewrite T3 by lia. by apply B1.
Qed.
End finish.

(** ** The whole allocation *)
Record alloc_env_ok (W : Z → Prop) (env : alloc_env) : Prop := AllocEnvOk {
  eo_attempt i j : env_ok W (ae_attempt env i j);
  eo_reserved : env_ok W (ae_reserved env);
  eo_pool i : env_ok W (ae_pool env i);
  eo_failed : env_ok W (ae_failed env);
  eo_carved : env_ok W (ae_carved env);
  eo_stored : env_ok W (ae_stored env);
  eo_counted : env_ok W (ae_counted env);
}.

(** The iterations that clear an object of the allocator. *)
Definition enough (cl : nat) (s : sdt_state) (al : Z) : Prop := ((Z.to_nat (esize (st_allocs s) al - 16)) / 8 <= cl)%nat.

Section alloc.
Context (W : Z → Prop) (me : Z) (env : alloc_env) (ps : kernel) (cl : nat) (al : Z) (s0 : sdt_state) (g0 : ghost).
Hypothesis HW : W me.
Hypothesis Henv : alloc_env_ok W env.
Hypothesis Hps : kernel_ok ps.
Hypothesis Hnull : al ≠ NULL.
Hypothesis Hsize : 16 <= esize (st_allocs s0) al.
Hypothesis Hcl : enough cl s0 al.

Lemma since_size s g : since W s0 g0 s g → esize (st_allocs s) al = esize (st_allocs s0) al.
Proof. intros [_ E]. by eapply evolve_esize. Qed.

(** Storing the object that was carved or found. *)
Lemma store_spec s g x n3 e :
  ¬ owned W g0 (al, x) → since W s0 g0 s g → g_used g !! (al, x) = Some (me, true) → g_nd g !! leaf_path (al, x) = Some n3 →
  (g_slot g !! (al, x) = Some e ∨
   g_slot g !! (al, x) = None ∧ g_own g !! e = Some (esize (st_allocs s0) al, TPriv me) ∧ ¬ held W g0 e ∧ zeroed (st_mem s) e (esize (st_allocs s0) al)) →
  wp (modifies (ae_carved env);;
      st (chunk_slot (n_chunk n3) (lo x)) e;;
      modifies (ae_stored env);;
      scx_alloc_finish (ae_counted env) al e x;;
      mret e) (alloc_post W me al s0 g0) s.
Proof.
  intros Hfresh HS Hu H3 Hsl. wstep. destruct (since_env W s0 g0 _ s g (eo_carved _ _ Henv) HS) as (g1 & S1 & E1).
  destruct (evolve_index _ _ _ _ _ _ _ _ _ E1 HW Hu) as [Hu1 Hs1]. destruct (evolve_node _ _ _ _ _ _ _ _ E1 H3) as (n3' & H3' & _ & <-).
  set (s1 := ae_carved env s) in *. pose proof (since_size _ _ S1) as Esz.
  destruct (used_nodes s1 g1 _ _ (proj1 S1) Hu1) as (Hok & _). simpl in Hok. destruct (parts_enc _ Hok) as (Hx & _ & _ & Hlo).
  destruct Hsl as [Hsl|(Hsl & Ho & Hnh & Hz)]; rewrite Hsl in Hs1.
  - destruct (restore_inv s1 g1 _ n3' (lo x) (proj1 S1) H3' Hlo) as (Hm & I2 & E2 & _). simpl in I2, E2. rewrite <-Hx, Hs1 in I2, E2. simpl in I2, E2.
    wbind. apply wp_st; [done|]. eapply (finish_spec W me al x); [done..|apply Henv|apply Henv| |done|done].
    by eapply since_step.
  - destruct (ev_priv _ _ _ _ _ _ E1 e) with (n := esize (st_allocs s0) al) (o := me) as [Ho1 Ha1]; [by eexists _, _|done|].
    clearbody s1. rewrite <-Esz in *. assert (zeroed (st_mem s1) e (esize (st_allocs s1) al)) as Hz1 by (by eapply zeroed_agree).
    destruct (store_inv s1 g1 me (al, x) e n3' (proj1 S1) Hu1 Hs1 H3' Ho1 Hsize Hz1) as (Hm & I2 & E2). simpl in Hm, I2, E2.
    wbind. apply wp_st; [done|]. 
    apply (finish_spec W me al x s0 g0 HW Hfresh _ _ _ (gstore (al, x) e (esize (st_allocs s1) al) g1) e (eo_stored _ _ Henv) (eo_counted _ _ Henv));
      [|done|simpl; by rewrite lookup_insert_eq].
    eapply since_step; [exact S1|done|exact E2| |]; [by intros h Hh ->|by intros b Hb ->].
Qed.

(** From the index that was taken on. *)
Lemma fill_spec s g x n3 :
  ¬ owned W g0 (al, x) → since W s0 g0 s g → g_used g !! (al, x) = Some (me, true) → g_nd g !! leaf_path (al, x) = Some n3 →
  wp (chunk ← ld (desc_chunk (n_desc n3));
      let pos := Z.land x (SDT_TASK_ENTS_PER_CHUNK - 1) in
      data ← ld (chunk_slot chunk pos);
      data ← (if data =? NULL then scx_alloc_from_pool_sleepable (ae_pool env) ps (DataPool al) else mret data);
      if data =? NULL then
        modifies (ae_failed env);;
        scx_alloc_free_idx cl al x;;
        count_nomem;;
        mret NULL
      else
        modifies (ae_carved env);;
        st (chunk_slot chunk pos) data;;
        modifies (ae_stored env);;
        scx_alloc_finish (ae_counted env) al data x;;
        mret data) (alloc_post W me al s0 g0) s.
Proof.
  intros Hfresh HS Hu H3. destruct (used_nodes s g _ _ (proj1 HS) Hu) as (Hok & _). simpl in Hok. destruct (parts_enc _ Hok) as (Hx & _ & _ & Hlo).
  pose proof (proj1 HS) as Hinv. wbind. eapply wp_ld_chunk; [done..|]. cbv zeta. rewrite level_pos0 by done. wbind. eapply wp_ld_slot; [done..|].
  assert (slotval g (leaf_path (al, x)) (lo x) = default 0 (g_slot g !! (al, x))) as -> by (simpl; by rewrite <-Hx).
  destruct (g_slot g !! (al, x)) as [e|] eqn:Es; simpl.
  - destruct (elem_region s g (al, x) e Hinv Es) as [R1 _ _ _ _ _]. rewrite (proj2 (Z.eqb_neq e 0)) by lia. wstep.
    rewrite (proj2 (Z.eqb_neq e 0)) by lia. eapply store_spec; [done..|by left].
  - wuse (sleepable_spec W me (ae_pool env) ps al HW (eo_pool _ _ Henv) Hps s g Hinv ltac:(by rewrite (since_size _ _ HS))).
    intros e s1 (g1 & I1 & E1 & HR). pose proof (since_me _ _ _ _ _ _ _ HS I1 E1) as S1.
    destruct (evolve_index _ _ _ _ _ _ _ _ _ E1 HW Hu) as [Hu1 Hs1]. destruct (evolve_node _ _ _ _ _ _ _ _ E1 H3) as (n3' & H3' & _ & <-).
    rewrite (since_size _ _ HS) in HR. destruct HR as [->|(Ho & Hnh & Hz)].
    + rewrite Z.eqb_refl. wstep. destruct (since_env W s0 g0 _ s1 g1 (eo_failed _ _ Henv) S1) as (g2 & S2 & E2).
      destruct (evolve_index _ _ _ _ _ _ _ _ _ E2 HW Hu1) as [Hu2 Hs2]. set (s2 := ae_failed env s1) in *. clearbody s2.
      wuse (free_idx_spec cl s2 g2 me (al, x) true (proj1 S2) Hnull Hu2 ltac:(cbn [fst]; rewrite (since_size _ _ S2); exact Hcl)).
      intros r s3 (_ & g3 & I3 & E3 & _). unfold count_nomem. wstep. wstep. exists g3. split; [|by left]. apply since_stats.
      eapply since_step; [exact S2|done|exact E3| |done]. by intros h Hh ->.
    + destruct (region_u64 _ _ _ _ _ _ (iv_layout _ _ I1) Ho) as [_ Hne]. rewrite (proj2 (Z.eqb_neq e 0)) by done.
      eapply store_spec; [done..|right]. split_and!; [congruence|done| |done]. intros Hh. apply Hnh. by eapply evolve_held; [apply HS|].
Qed.
End alloc.

Lemma alloc_spec W me env pss ps cl al s g :
  W me → alloc_env_ok W env → (∀ i, kernel_ok (pss i)) → kernel_ok ps →
  inv s g → al ≠ NULL → is_Some (g_nd g !! [al]) → enough cl s al →
  wp (scx_alloc_internal env pss ps cl al) (alloc_post W me al s g) s.
Proof.
  intros HW Henv Hpss Hps Hinv Hnull [n1 H1] Hcl. destruct (root_alloc s g al n1 Hinv H1) as (a & Ha & Er & Hr & H16).
  unfold scx_alloc_internal. wstep. rewrite (proj2 (Z.eqb_neq _ _) Hnull). wbind. eapply wp_get_alloc; [done|]. rewrite Er, (proj2 (Z.eqb_neq _ _) Hr).
  wuse (scx_alloc_attempt_spec W me (ae_attempt env) pss s g HW (eo_attempt _ _ Henv) Hpss Hinv).
  intros r s1 (g1 & I1 & E1 & [[-> H6]| ->]); [|unfold count_nomem; simpl; wstep; wstep; exists g1; split; [by apply since_stats|by left]].
  cbn [Z.eqb negb]. destruct (evolve_node _ _ _ _ _ _ _ _ E1 H1) as (n1' & H1' & _ & _).
  destruct (root_alloc s1 g1 al n1' I1 H1') as (a1 & Ha1 & Er1 & _ & _). wbind. eapply wp_get_alloc; [done|]. rewrite Er1.
  rewrite <-(gr_stack _ _ _ _ (ev_grows _ _ _ _ _ _ E1)).
  wuse (desc_find_empty_spec me s1 g1 al n1' I1 ltac:(lia) H1'). intros r s2 [(-> & -> & _)|(g2 & x & n3 & -> & Hok & Hn & _ & I2 & E2 & Eu & Es & _ & H3)].
  - wstep. destruct (since_env W s g _ s1 g1 (eo_reserved _ _ Henv) (conj I1 E1)) as (g2 & S2 & _). apply wp_ret. exists g2. split; [done|by left].
  - assert (¬ owned W g (al, x)) as Hfresh. { intros Hh. apply (evolve_owned _ _ _ _ _ _ _ E1) in Hh as (o & fl & _ & Hh). congruence. }
    assert (since W s g s2 g2) as S2 by (by eapply since_step; [split; [exact I1|exact E1]|..]).
    wstep. destruct (since_env W s g _ s2 g2 (eo_reserved _ _ Henv) S2) as (g3 & S3 & E3).
    assert (g_used g2 !! (al, x) = Some (me, true)) as Hu2 by (by rewrite Eu, lookup_insert_eq).
    destruct (evolve_index _ _ _ _ _ _ _ _ _ E3 HW Hu2) as [Hu3 _]. destruct (evolve_node _ _ _ _ _ _ _ _ E3 H3) as (n3' & H3' & <- & _).
    eapply fill_spec; done.
Qed.
