(* ===== verification/SdtInit.v ===== *)
(** * The object allocator: initialization

    [scx_alloc_init] establishes the invariant: the first call sets up what the
    allocators share, and each call the pool and the root of its allocator. *)

From S2P Require Import Prelude Bitmap BitmapCorrect Bump BumpCorrect Wp SdtAlloc SdtBase SdtMem SdtPool SdtCarve SdtTree SdtMark SdtNode SdtFind SdtObject SdtCorrect.

(** ** The shared part *)

(** Before the first initialization: nothing is set up, and the memory mapped so
    far belongs to others. *)
Record booted (s : sdt_state) : Prop := Booted {
  bt_pre : st_prealloc s = NULL;
  bt_mem : layout (st_runs s) (st_mem s) ∅;
  bt_allocs al a : st_allocs s !! al = Some a → sp_elem_size (sa_pool a) = 0 ∧ sa_root a = NULL;
}.

Lemma booted_esize s al : booted s → esize (st_allocs s) al = 0.
Proof. intros H. unfold esize, dims. destruct (st_allocs s !! al) as [a|] eqn:E; [|done]. simpl. by apply (bt_allocs _ H al). Qed.

Definition ghost0 (p : Z) : ghost := Ghost {[p := (4096, TStack)]} ∅ ∅ ∅ [] [] ∅.

Lemma init_inv s p cp dp :
  booted s → fresh_run (st_runs s) p 4096 → cp = SdtPool (sp_slab cp) NULL 4096 1 1 → dp = SdtPool (sp_slab dp) NULL 80 51 51 →
  inv (SdtState ((p, 4096) :: st_runs s) (st_mem s) p cp dp (st_allocs s) (st_stats s)) (ghost0 p).
Proof.
  intros HB Hf Hcp Hdp. destruct (layout_map _ _ _ p 4096 4096 TStack (bt_mem _ HB) Hf ltac:(lia) eq_refl) as (_ & Hz & HL).
  assert (∀ b n t, g_own (ghost0 p) !! b = Some (n, t) → b = p ∧ n = 4096 ∧ t = TStack) as Hown by (simpl; intros b n t [<- [= <- <-]]%lookup_singleton_Some; done).
  split; simpl.
  - exact HL.
  - intros b n t (-> & -> & ->)%Hown. simpl. split_and!; [done|apply Hz; lia|lia|done|apply Hz; lia].
  - split; [by apply lookup_singleton_eq|constructor|constructor|constructor|constructor|by intros b n (? & _)%Hown|by intros b n (_ & _ & ?)%Hown].
  - split; simpl; [by rewrite Hdp|by rewrite Hcp| |].
    + intros [| |al] q; simpl; intros Hq Hne.
      * injection Hq as <-. rewrite Hdp in *. simpl in *. split; simpl; try done; try constructor; try done; try lia.
      * injection Hq as <-. rewrite Hcp in *. simpl in *. split; simpl; try done; try constructor; try done; try lia.
      * apply fmap_Some in Hq as (a & Ha & ->). by destruct (bt_allocs _ HB _ _ Ha).
    + intros al _. split; [done|]. by intros b n (_ & _ & ?)%Hown.
  - split; [split; simpl; try done|done]; [|by intros e n h (_ & _ & ?)%Hown]. intros al a Ha. by apply (bt_allocs _ HB al).
Qed.

Lemma chunk_size q : pool_set_size q sizeof_sdt_chunk 1 = inl (SdtPool (sp_slab q) NULL 4096 1 1).
Proof. done. Qed.
Lemma desc_size q : pool_set_size q sizeof_sdt_desc 1 = inl (SdtPool (sp_slab q) NULL 80 51 51).
Proof. done. Qed.

Lemma init_shared_spec k s :
  booted s → kernel_ok k →
  wp (init_shared k) (λ r s', st_allocs s' = st_allocs s ∧
    (r = - ENOMEM ∧ booted s' ∨ r = 0 ∧ ∃ p, inv s' (ghost0 p))) s.
Proof.
  intros HB Hk. unfold init_shared. wstep. rewrite (bt_pre _ HB). cbn [Z.eqb negb].
  wbind. eapply wp_get_pool; [done|]. rewrite chunk_size. unfold set_pool. wstep. wbind. eapply wp_get_pool; [done|].
  rewrite desc_size. wstep. unfold arena_alloc_pages_retry. wbind. wbind. wstep.
  change (div_round_up sizeof_alloc_stack PAGE_SIZE) with 1. cbv zeta. set (p := retry_pages _ _).
  destruct (Z.eqb_spec p NULL) as [Hp|Hp].
  - wstep. wstep. apply wp_ret. simpl. split; [done|]. left. split; [done|]. destruct HB. by split.
  - destruct (retry_in ARENA_ALLOC_PAGES_RETRIES (k (st_runs s) 1)) as [E|Hin]; [by destruct Hp|].
    destruct (Hk (st_runs s) 1 p ltac:(lia) Hin) as [?|Hf]; [done|]. wstep. apply wp_ret. wstep. rewrite (proj2 (Z.eqb_neq _ _) Hp). apply wp_ret.
    split; [done|]. right. split; [done|]. exists p.
    exact (init_inv s p (SdtPool (sp_slab (st_chunk_pool s)) NULL 4096 1 1) (SdtPool (sp_slab (st_desc_pool s)) NULL 80 51 51) HB Hf eq_refl eq_refl).
Qed.

(** ** The pool of an allocator *)
Section set_size.
Context (s : sdt_state) (g : ghost) (al : Z) (a : scx_allocator) (ds mx : Z).
Hypothesis Hinv : inv s g.
Hypothesis Hal : st_allocs s !! al = Some a.
Hypothesis Hunset : sp_elem_size (sa_pool a) = 0.
Hypothesis Hds : 16 <= ds ∧ ds mod 8 = 0.
Hypothesis Hmx : 1 <= mx ∧ ds * mx + 8192 < two64.
Abbreviation q := (SdtPool (sp_slab (sa_pool a)) NULL ds mx mx).
Abbreviation s' := (set_pool_of (DataPool al) q s).

Lemma set_size_dims al' : dims (st_allocs s') al' = if decide (al' = al) then (ds, mx) else dims (st_allocs s) al'.
Proof.
  unfold dims. simpl. case_decide as E; [subst; by rewrite lookup_alter_eq, Hal|by rewrite lookup_alter_ne].
Qed.

Lemma unset_esize : esize (st_allocs s) al = 0.
Proof. unfold esize, dims. by rewrite Hal. Qed.

Lemma unset_path P nd : g_nd g !! (al :: P) = Some nd → False.
Proof.
  revert nd. induction P as [|x P IH] using rev_ind; intros nd HP.
  - pose proof (tw_alloc _ _ (iv_tree _ _ Hinv) _ _ HP). pose proof unset_esize. lia.
  - destruct (nw_parent _ _ _ (node_wf_of s g _ nd Hinv HP) (al :: P) x) as [nd' H']; [done..|]. by eapply IH.
Qed.

Lemma set_size_esize h : is_Some (g_nd g !! leaf_path h) → esize (st_allocs s') h.1 = esize (st_allocs s) h.1.
Proof.
  intros [nd Hn]. unfold esize. rewrite set_size_dims, decide_False; [done|]. intros E. unfold leaf_path in Hn. rewrite E in Hn. by apply unset_path in Hn.
Qed.

Lemma set_size_inv : inv s' g ∧ evolve (λ _, True) (λ _, True) s g s' g ∧ g_nd g !! [al] = None.
Proof.
  assert (g_nd g !! [al] = None) as Hnone by (destruct (g_nd g !! [al]) eqn:E; [by apply unset_path in E|done]).
  pose proof Hinv as [HL HC HS [P1 P2 P3 P4] HT]. destruct (P4 al unset_esize) as [Pn Po].
  split_and!; [split; simpl; try done| |done].
  - split; simpl; [done..| |].
    + intros p q0 Hq Hne. change (pool_of s' p = Some q0) in Hq. assert (pool_of s (DataPool al) = Some (sa_pool a)) as Hq0 by (unfold pool_of; simpl; by rewrite Hal).
      rewrite (pool_of_set _ _ _ _ _ Hq0) in Hq. case_decide as E; [|by apply P3]. subst p. injection Hq as <-. simpl in *.
      split; simpl; rewrite ?Pn; try done; try lia; [constructor|]. intros al' b n [= <-] Hb. by destruct (Po b n).
    + eapply unset_mono; [exact P4|]. intros al' Hal'. change (esize (st_allocs s') al' = 0) in Hal'. unfold esize in *. rewrite set_size_dims in Hal'.
      case_decide; [simpl in Hal'; lia|done].
  - destruct HT as [HTs HTb]. split; [split; simpl|done]; try (by destruct HTs).
    + intros al' a'. destruct (decide (al' = al)) as [->|]; [|rewrite lookup_alter_ne by done; by apply (tw_root _ _ HTs)].
      rewrite lookup_alter_eq, Hal. intros [= <-]. simpl. by apply (tw_root _ _ HTs).
    + intros al' nd Hn. change (16 <= esize (st_allocs s') al'). unfold esize. rewrite set_size_dims, decide_False; [by apply (tw_alloc _ _ HTs _ nd)|].
      intros ->. congruence.
    + intros h e He. destruct (tw_slot _ _ HTs _ _ He) as (H1 & H2 & H3). rewrite <-(set_size_esize h H3) in H1. done.
    + intros e n h He. destruct (tw_elem _ _ HTs _ _ _ He) as [-> H2]. split; [|done]. destruct (tw_slot _ _ HTs _ _ H2) as (_ & _ & H3). symmetry. by apply set_size_esize.
  - split; [split|..]; simpl; try done; eauto.
    2: { intros al' H'. by rewrite lookup_alter_is_Some. }
    intros al' H16. change (dims (st_allocs s') al' = dims (st_allocs s) al'). rewrite set_size_dims, decide_False; [done|]. intros ->. pose proof unset_esize. lia.
Qed.
End set_size.

(** ** The root *)
Section root.
Context (s : sdt_state) (g : ghost) (me al d c : Z) (a : scx_allocator).
Hypothesis Hinv : inv s g.
Hypothesis Hal : st_allocs s !! al = Some a.
Hypothesis Hsize : 16 <= esize (st_allocs s) al.
Hypothesis Hnew : g_nd g !! [al] = None.
Hypothesis Hblank : blank_node s g me d c.
Abbreviation s' := (set_root al d s).

Lemma root_dims al' : dims (st_allocs s') al' = dims (st_allocs s) al'.
Proof.
  unfold dims. simpl. destruct (decide (al' = al)) as [->|]; [by rewrite lookup_alter_eq, Hal|by rewrite lookup_alter_ne].
Qed.

Lemma root_inv : inv s' (gnode [al] d c g) ∧ evolve (λ _, True) (λ b, b ≠ d ∧ b ≠ c) s g s' (gnode [al] d c g).
Proof.
  assert (∀ Q x, [al] = Q ++ [x] → Q ≠ [] → is_Some (g_nd g !! Q)) as Hpar.
  { intros Q x E HQ. apply (f_equal length) in E. rewrite length_app in E. simpl in E. destruct Q; [done|simpl in E; lia]. }
  assert (1 <= length [al] <= 3)%nat as Hlen by (simpl; lia). pose proof Hinv as [HL HC HS HP HT].
  split; [split; simpl|].
  - by eapply join_layout.
  - eapply (join_contents s g me); [done..|by constructor|done|by auto with scx|]. intros Q nd HQ x Hx.
    pose proof (nw_len _ _ _ (node_wf_of s g Q nd Hinv HQ)) as HQl. pose proof (slot_word s g Q nd Hinv HQ x Hx) as Hw. unfold chunk_slot in Hw. rewrite Hw.
    destruct (decide (length Q = 3%nat)) as [H3|H3]; [by destruct (path3 Q H3) as (? & ? & ? & ->)|].
    rewrite join_slotval by done. rewrite decide_False; [done|]. intros E. apply (f_equal length) in E. rewrite length_app in E. simpl in E. lia.
  - eapply join_stack; [done..|exact Hblank|done].
  - assert (pools_wf (st_chunk_pool s) (st_desc_pool s) (st_allocs s) (gnode [al] d c g)) as [P1 P2 P3 P4] by (by eapply join_pools).
    split; [done..| |].
    + intros p q. destruct p as [| |al']; simpl; intros Hq Hne; [by apply (P3 DescPool)|by apply (P3 ChunkPool)|]. apply (P3 (DataPool al')); [|done]. simpl.
      destruct (decide (al' = al)) as [->|]; [rewrite lookup_alter_eq, Hal in Hq; by rewrite Hal|by rewrite lookup_alter_ne in Hq].
    + eapply unset_mono; [exact P4|]. intros al' E. unfold esize in *. change ((dims (st_allocs s') al').1 = 0) in E. rewrite root_dims in E. done.
  - eapply (join_shape s g me d c [al]); try done; [exact root_dims| |by intros ? [= <-]].
    intros al' a' Ha'. simpl. destruct (decide (al' = al)) as [->|Hne].
    + rewrite lookup_alter_eq, Hal in Ha'. injection Ha' as <-. by rewrite lookup_insert_eq.
    + rewrite lookup_alter_ne in Ha' by done. rewrite lookup_insert_ne by congruence. by apply (tw_root _ _ HT).
  - eapply join_evolve; [done|exact Hblank|by auto with scx|exact root_dims| |done]. intros al' H'. simpl. by rewrite lookup_alter_is_Some.
Qed.
End root.

(** ** Nothing but the initialization itself touches the allocators *)
Definition preserves {X} (Φ : gmap Z scx_allocator → Prop) (m : DM X) : Prop :=
  ∀ s r s', Φ (st_allocs s) → m s = Some (r, s') → Φ (st_allocs s').

Section preserves.
Context (Φ : gmap Z scx_allocator → Prop).

Lemma pres_bind {X Y} (m : DM X) (f : X → DM Y) : preserves Φ m → (∀ x, preserves Φ (f x)) → preserves Φ (m ≫= f).
Proof.
  intros Hm Hf s r s' HΦ. unfold mbind, ST_bind. destruct (m s) as [[x s1]|] eqn:E; [|done]. intros H. by eapply Hf; [eapply Hm|].
Qed.
Lemma pres_ret {X} (x : X) : preserves Φ (mret x).
Proof. intros s r s' H E. by injection E as <- <-. Qed.
Lemma pres_gets {X} (f : sdt_state → X) : preserves Φ (gets f).
Proof. intros s r s' H E. by injection E as <- <-. Qed.
Lemma pres_modifies f : (∀ s, Φ (st_allocs s) → Φ (st_allocs (f s))) → preserves Φ (modifies f).
Proof. intros Hf s r s' H E. injection E as <- <-. by apply Hf. Qed.
Lemma pres_ld a : preserves Φ (ld a).
Proof. intros s r s' H E. unfold ld in E. case_match; [|done]. by injection E as <- <-. Qed.
Lemma pres_st a v : preserves Φ (st a v).
Proof. intros s r s' H E. unfold st in E. case_match; [|done]. by injection E as <- <-. Qed.
Lemma pres_if {X} (b : bool) (m1 m2 : DM X) : preserves Φ m1 → preserves Φ m2 → preserves Φ (if b then m1 else m2).
Proof. by destruct b. Qed.
End preserves.
#[local] Hint Resolve pres_bind pres_ret pres_gets pres_ld pres_st pres_if : preserves.
#[local] Hint Extern 2 (preserves _ (modifies (with_stats _))) => apply pres_modifies; done : preserves.
#[local] Hint Extern 2 (preserves _ (modifies (map_pages _ _))) => apply pres_modifies; done : preserves.
#[local] Hint Extern 2 (preserves _ (modifies (_ _))) => apply pres_modifies : preserves.

Lemma pres_stack Φ env k stack :
  (∀ j s, Φ (st_allocs s) → Φ (st_allocs (env j s))) → preserves Φ (scx_alloc_stack env k stack).
Proof.
  intros He. unfold scx_alloc_stack, stack_install, arena_alloc_pages_retry.
  assert (∀ j, preserves Φ (modifies (env j))) as Hm by (intros j; apply pres_modifies, He). eauto 30 with preserves.
Qed.

Lemma pres_attempt Φ env ks stack :
  (∀ i j s, Φ (st_allocs s) → Φ (st_allocs (env i j s))) → preserves Φ (scx_alloc_attempt env ks stack).
Proof.
  intros He. unfold scx_alloc_attempt. generalize 0%nat. induction SDT_TASK_ALLOC_ATTEMPTS as [|n IH]; intros i; simpl; [apply pres_ret|].
  apply pres_bind; [by apply pres_stack, He|]. intros r. apply pres_if; [apply pres_ret|apply IH].
Qed.

(** ** Sizes *)

(** The size of an object: the data and the trailer, rounded up. *)
Definition object_size (data_size align : Z) : Z := (data_size + 16 + align - 1) / align * align.
Definition slab_size (ds : Z) : Z := 4096 * ((8 * ds + 4095) / 4096).

Section sizes.
Context (data_size align : Z) (k : Z).
Hypothesis Hdata : 0 <= data_size.
Hypothesis Halign : align = 2 ^ k.
Hypothesis Hk : 3 <= k.
Hypothesis Hmax : data_size + 16 + align <= 2 ^ 59.
Abbreviation ds := (object_size data_size align).

Lemma align_8 : 8 <= align ∧ align mod 8 = 0.
Proof.
  rewrite Halign. assert (2 ^ k = 2 ^ (k - 3) * 8) as -> by (change 8 with (2 ^ 3); rewrite <-Z.pow_add_r by lia; f_equal; lia).
  pose proof (Z.pow_pos_nonneg 2 (k - 3)). split; [lia|apply Z.mod_mul; lia].
Qed.

Lemma object_size_ok : data_size + 16 <= ds < data_size + 16 + align ∧ ds mod align = 0 ∧ ds mod 8 = 0.
Proof.
  destruct align_8 as [A1 A2]. unfold object_size. set (t := data_size + 16 + align - 1).
  pose proof (Z.div_mod t align ltac:(lia)). pose proof (Z.mod_pos_bound t align ltac:(lia)). split_and!; [lia..|apply Z.mod_mul; lia|].
  by rewrite Z.mul_mod, A2, Z.mul_0_r by lia.
Qed.

Lemma slab_ok : let mx := slab_size ds / ds in 8 <= mx ∧ ds * mx <= slab_size ds ∧ ds * mx + 8192 < two64 ∧ 0 < (8 * ds + 4095) / 4096.
Proof.
  destruct object_size_ok as ((S1 & S2) & _ & _). unfold slab_size. cbv zeta. set (n := (8 * ds + 4095) / 4096).
  pose proof (Z.div_mod (8 * ds + 4095) 4096 ltac:(lia)) as E. pose proof (Z.mod_pos_bound (8 * ds + 4095) 4096 ltac:(lia)). fold n in E.
  pose proof (Z.mul_div_le (4096 * n) ds ltac:(lia)) as Hle. split_and!; [apply Z.div_le_lower_bound; lia|done| |lia].
  unfold two64. change (2 ^ 59) with 576460752303423488 in *. lia.
Qed.

Lemma init_params q :
  let d := u64 (u64 (u64 (data_size + sizeof_sdt_data) + align - 1) / align * align) in
  d = ds ∧ pool_set_size q d (u64 (u64 (SDT_TASK_MIN_ELEM_PER_ALLOC * d) + PAGE_SIZE - 1) / PAGE_SIZE) =
    inl (SdtPool (sp_slab q) NULL ds (slab_size ds / ds) (slab_size ds / ds)).
Proof.
  destruct align_8 as [A1 A2], object_size_ok as ((S1 & S2) & S3 & S4), slab_ok as (M1 & M2 & M3 & M4).
  change (2 ^ 59) with 576460752303423488 in *. unfold sizeof_sdt_data, SDT_TASK_MIN_ELEM_PER_ALLOC, PAGE_SIZE. cbv zeta.
  rewrite (u64_small (data_size + 16)) by (unfold is_u64, two64; lia). rewrite (u64_small (data_size + 16 + align - 1)) by (unfold is_u64, two64; lia).
  fold ds. rewrite (u64_small ds) by (unfold is_u64, two64; lia). split; [done|].
  rewrite (u64_small (8 * ds)) by (unfold is_u64, two64; lia). rewrite (u64_small (8 * ds + 4096 - 1)) by (unfold is_u64, two64; lia).
  replace (8 * ds + 4096 - 1) with (8 * ds + 4095) by lia. unfold pool_set_size. rewrite S4. cbn [Z.eqb negb].
  rewrite (proj2 (Z.eqb_neq _ _)) by lia. unfold PAGE_SIZE. rewrite u64_small; [done|].
  unfold slab_size in *. pose proof (Z.mul_div_le (8 * ds + 4095) 4096 ltac:(lia)). unfold is_u64, two64. lia.
Qed.

Lemma align_check : (align <? 8) || negb (Z.land align (u64 (align - 1)) =? 0) = false.
Proof.
  destruct align_8 as [A1 _]. change (2 ^ 59) with 576460752303423488 in *. rewrite u64_small by (unfold is_u64, two64; lia).
  rewrite (proj2 (Z.ltb_ge _ _)) by lia. rewrite Halign. replace (2 ^ k - 1) with (Z.ones k) by (rewrite Z.ones_equiv; lia).
  rewrite Z.land_ones by lia. rewrite Z.mod_same; [done|]. lia.
Qed.
End sizes.

(** ** The initialization of one allocator *)
Definition eff_align (align : Z) : Z := if align =? 0 then 8 else align.

Definition root_of (al : Z) (allocs : gmap Z scx_allocator) : Z := from_option sa_root NULL (allocs !! al).

(** The arguments that are accepted: a power of two, and no overflow. *)
Record init_args (data_size align : Z) : Prop := InitArgs {
  ia_data : 0 <= data_size;
  ia_align : ∃ k, eff_align align = 2 ^ k ∧ 3 <= k;
  ia_max : data_size + 16 + eff_align align <= 2 ^ 59;
}.

Definition init_post (W : Z → Prop) (al data_size align : Z) (s0 : sdt_state) (g0 : ghost) (r : Z) (s' : sdt_state) : Prop :=
  ∃ g', since W s0 g0 s' g' ∧ (r = - ENOMEM ∨ r = 0 ∧ is_Some (g_nd g' !! [al]) ∧
    esize (st_allocs s') al = object_size data_size (eff_align align)).

Section init.
Context (W : Z → Prop) (me : Z) (env : nat → nat → sdt_state → sdt_state) (k : kernel) (ks : nat → kernel) (al data_size align : Z).
Hypothesis HW : W me.
Hypothesis Henv : ∀ i j, env_ok W (env i j).
Hypothesis Hroot : ∀ i j s, root_of al (st_allocs s) = NULL → root_of al (st_allocs (env i j s)) = NULL.
Hypothesis Hk : kernel_ok k.
Hypothesis Hks : ∀ i, kernel_ok (ks i).
Hypothesis Hargs : init_args data_size align.

(** After the shared part. *)
Definition init_own : DM Z :=
  let align := if align =? 0 then 8 else align in
  if (align <? 8) || negb (Z.land align (u64 (align - 1)) =? 0) then mret (- EINVAL) else
  let data_size := u64 (data_size + sizeof_sdt_data) in
  let data_size := u64 (u64 (data_size + align - 1) / align * align) in
  let min_chunk_size := u64 (u64 (SDT_TASK_MIN_ELEM_PER_ALLOC * data_size) + PAGE_SIZE - 1) / PAGE_SIZE in
  q ← get_pool (DataPool al);
  match pool_set_size q data_size min_chunk_size with
  | inr e => mret e
  | inl q =>
      set_pool (DataPool al) q;;
      stack ← gets st_prealloc;
      ret ← scx_alloc_attempt env ks stack;
      if negb (ret =? 0) then mret ret else
      root ← scx_alloc_chunk stack;
      modifies (set_root al root);;
      mret 0
  end.

Lemma init_split : scx_alloc_init env k ks al data_size align = (ret ← init_shared k; if negb (ret =? 0) then mret ret else init_own).
Proof. done. Qed.

Lemma attempt_unrooted s g :
  inv s g → root_of al (st_allocs s) = NULL →
  wp (scx_alloc_attempt env ks (st_prealloc s)) (λ r s', root_of al (st_allocs s') = NULL ∧ ∃ g', since W s g s' g' ∧
    (r = 0 ∧ (6 <= length (g_sp g'))%nat ∨ r = - ENOMEM)) s.
Proof.
  intros Hinv Hr. pose proof (scx_alloc_attempt_spec W me env ks s g HW Henv Hks Hinv) as H. apply wp_run in H as (r & s' & E & g' & I' & E' & H').
  eapply wp_eq; [exact E|]. split; [|exists g'; by split]. by eapply (pres_attempt (λ m, root_of al m = NULL) env ks).
Qed.

Lemma init_own_spec s g a :
  inv s g → st_allocs s !! al = Some a → sp_elem_size (sa_pool a) = 0 → wp init_own (init_post W al data_size align s g) s.
Proof.
  intros Hinv Ha Hun. destruct Hargs as [Hd (k0 & Hk0 & H3) Hmax]. unfold init_own. fold (eff_align align). cbv zeta.
  rewrite (align_check data_size (eff_align align) k0) by done. wbind. eapply wp_get_pool; [unfold pool_of; simpl; by rewrite Ha|].
  destruct (init_params data_size (eff_align align) k0 Hd Hk0 H3 Hmax (sa_pool a)) as [_ ->].
  destruct (object_size_ok data_size (eff_align align) k0) as ((S1 & _) & _ & S8); [done..|].
  destruct (slab_ok data_size (eff_align align) k0) as (M1 & _ & M3 & _); [done..|].
  set (ds := object_size data_size (eff_align align)) in *. set (mx := slab_size ds / ds) in *.
  destruct (set_size_inv s g al a ds mx Hinv Ha Hun ltac:(lia) ltac:(lia)) as (I1 & E1 & Hnone).
  pose proof (set_size_dims s al a ds mx Ha al) as D1. rewrite decide_True in D1 by done.
  wbind. apply wp_modifies. set (s1 := set_pool_of _ _ s) in *. wstep.
  assert (root_of al (st_allocs s1) = NULL) as R1.
  { pose proof (tw_root _ _ (iv_tree _ _ Hinv) _ _ Ha) as E. rewrite Hnone in E. unfold root_of, s1. simpl. by rewrite lookup_alter_eq, Ha. }
  assert (since W s g s1 g) as S01 by (by eapply since_step; [by apply since_refl|..]).
  wuse (attempt_unrooted s1 g I1 R1). intros r s2 (R2 & g2 & S2 & Hr).
  assert (since W s g s2 g2) as S02 by (eapply since_me; [exact S01|apply S2..]).
  assert (dims (st_allocs s2) al = (ds, mx)) as D2.
  { rewrite (gr_size _ _ _ _ (ev_grows _ _ _ _ _ _ (proj2 S2))); [done|]. unfold esize. rewrite D1. simpl. lia. }
  destruct Hr as [[-> H6]| ->]; cbn [Z.eqb negb]; [|apply wp_ret; exists g2; split; [done|by left]].
  rewrite <-(gr_stack _ _ _ _ (ev_grows _ _ _ _ _ _ (proj2 S2))).
  wuse (alloc_chunk_spec me s2 g2 (proj1 S2) ltac:(lia)). intros d s3 (g3 & c & I3 & E3 & (Tn & _ & _) & HB & _ & A3 & Nd & Nc).
  assert (∃ a2, st_allocs s2 !! al = Some a2) as [a2 Ha2].
  { unfold dims in D2. destruct (st_allocs s2 !! al) eqn:E; [by eexists|]. simpl in D2. injection D2. lia. }
  assert (g_nd g3 !! [al] = None) as N3.
  { rewrite Tn. destruct (g_nd g2 !! [al]) as [n|] eqn:E; [|done]. pose proof (node_nonnull s2 g2 _ n (proj1 S2) E) as Hn. destruct Hn.
    unfold root_of in R2. rewrite Ha2 in R2. simpl in R2. by rewrite (tw_root _ _ (iv_tree _ _ (proj1 S2)) _ _ Ha2), E in R2. }
  destruct (root_inv s3 g3 me al d c a2 I3) as [I4 E4]; [by rewrite A3|unfold esize; rewrite A3, D2; simpl; lia|done|done|].
  wstep. apply wp_ret. exists (gnode [al] d c g3). split; [|right; split_and!; [done|simpl; by rewrite lookup_insert_eq|]].
  - assert (since W s g s3 g3) as S03 by (by eapply since_step). eapply since_step; [exact S03|exact I4|exact E4|done|].
    intros b Hb. apply (evolve_held _ _ _ _ _ _ _ (proj2 S02)) in Hb as (o & n & _ & Hb). split; intros ->; [by eapply Nd|by eapply Nc].
  - unfold esize. rewrite (root_dims s3 al d a2) by (by rewrite A3). by rewrite A3, D2.
Qed.

Lemma init_spec s g a :
  inv s g → st_allocs s !! al = Some a → sp_elem_size (sa_pool a) = 0 →
  wp (scx_alloc_init env k ks al data_size align) (init_post W al data_size align s g) s.
Proof.
  intros Hinv Ha Hun. rewrite init_split. unfold init_shared at 1. wbind. wstep. destruct (stack_region s g Hinv) as [R1 _ _ _ _ _].
  rewrite (proj2 (Z.eqb_neq (st_prealloc s) 0)) by lia. simpl. wstep. by eapply init_own_spec.
Qed.

(** The first initialization. *)
Lemma init_boot_spec s a :
  booted s → st_allocs s !! al = Some a →
  wp (scx_alloc_init env k ks al data_size align) (λ r s', r = - ENOMEM ∧ booted s' ∨ ∃ s1 p, inv s1 (ghost0 p) ∧ init_post W al data_size align s1 (ghost0 p) r s') s.
Proof.
  intros HB Ha. rewrite init_split. wuse (init_shared_spec k s HB Hk). intros r s1 [A1 [[-> HB1]|[-> (p & I1)]]].
  - simpl. apply wp_ret. by left.
  - simpl. eapply wp_mono; [eapply (init_own_spec s1 (ghost0 p) a); [done|by rewrite A1|by apply (bt_allocs _ HB al)]|].
    intros r s' H. right. by exists s1, p.
Qed.
End init.
