(* ===== verification/SdtClaims.v ===== *)
(** * The object allocator: theorems

    What [scx_alloc_init], [scx_alloc_internal], [scx_free] and the index tree promise, with
    concrete runs.  [W] is a set of threads whose objects are watched; what the others do is
    arbitrary as long as it leaves those alone. *)

From S2P Require Import Prelude Bitmap BitmapCorrect Bump BumpCorrect Wp SdtAlloc SdtBase SdtMem SdtPool SdtCarve SdtTree SdtMark SdtNode SdtFind SdtObject SdtCorrect SdtInit.

(** ** A concrete system *)

(** A kernel that maps pages above everything that is mapped. *)
Definition top (runs : list (Z * Z)) : Z := foldr (λ r t, Z.max (r.1 + r.2) t) 4096 runs.
Definition bump_kernel : kernel := λ runs n,
  let p := (top runs + 4095) / 4096 * 4096 in
  if p + n * 4096 <? two64 then [p] else [].
(** A kernel without memory. *)
Definition no_kernel : kernel := λ _ _, [].

Lemma top_le runs r : r ∈ runs → r.1 + r.2 <= top runs.
Proof. induction 1 as [r runs|r r' runs _ IH]; simpl; lia. Qed.

Lemma top_pos runs : 4096 <= top runs.
Proof. induction runs as [|r runs IH]; simpl; lia. Qed.

Lemma bump_kernel_ok : kernel_ok bump_kernel.
Proof.
  intros runs n p Hn Hp. unfold bump_kernel in Hp. case_match eqn:E; [|by apply not_elem_of_nil in Hp]. apply list_elem_of_singleton in Hp as ->.
  apply Z.ltb_lt in E. right. pose proof (top_pos runs). set (t := top runs) in *. pose proof (Z.div_mod (t + 4095) 4096 ltac:(lia)).
  pose proof (Z.mod_pos_bound (t + 4095) 4096 ltac:(lia)). split; [lia|apply Z.mod_mul; lia|exact E|].
  intros r Hr. apply top_le in Hr. right. simpl. fold t in Hr. lia.
Qed.

Lemma no_kernel_ok : kernel_ok no_kernel.
Proof. intros runs n p _ Hp. by apply not_elem_of_nil in Hp. Qed.

(** No interference. *)
Definition quiet1 : sdt_state → sdt_state := λ s, s.
Definition quiet2 : nat → nat → sdt_state → sdt_state := λ _ _ s, s.
Definition quiet_env : alloc_env := AllocEnv quiet2 quiet1 (λ _, quiet1) quiet1 quiet1 quiet1 quiet1.

Lemma quiet_ok W : env_ok W quiet1.
Proof. intros s g H. exists g. split; [done|apply evolve_refl]. Qed.

Lemma quiet_env_ok W : alloc_env_ok W quiet_env.
Proof. split; intros; apply quiet_ok. Qed.

Definition everyone : Z → Prop := λ _, True.

(** One allocator, at address 1, for objects of 8 bytes; then two objects. *)
Definition zero_pool : sdt_pool := SdtPool 0 0 0 0 0.
Definition boot : sdt_state :=
  SdtState [] ∅ 0 zero_pool zero_pool {[1 := ScxAllocator zero_pool 0]} (AllocStats 0 0 0 0 0 0 0).
Definition after {X} (m : DM X) (s : sdt_state) : sdt_state := default s (snd <$> m s).
Definition sdt_result (m : DM Z) (s : sdt_state) : Z := default 0 (fst <$> m s).

Definition ex_init : DM Z := scx_alloc_init quiet2 bump_kernel (λ _, bump_kernel) 1 8 0.
Definition ex_alloc : DM Z := scx_alloc_internal quiet_env (λ _, bump_kernel) bump_kernel 8 1.
Definition sys1 : sdt_state := after ex_init boot.
Definition sys2 : sdt_state := after ex_alloc sys1.

Lemma boot_booted : booted boot.
Proof.
  split; [done| |].
  - split; simpl; try done; intros a [v Hv]; done.
  - simpl. intros al a [<- <-]%lookup_singleton_Some. done.
Qed.

Lemma ex_args : init_args 8 0.
Proof. split; [done|exists 3; done|done]. Qed.

Section runs.
Context (W : Z → Prop) (me : Z) (env : nat → nat → sdt_state → sdt_state) (aenv : alloc_env) (k : kernel) (ks : nat → kernel) (cl : nat) (al : Z).
Hypothesis HW : W me.
Hypothesis Hk : kernel_ok k.
Hypothesis Hks : ∀ i, kernel_ok (ks i).

Lemma boot_run data_size align s a s' :
  (∀ i j, env_ok W (env i j)) → (∀ i j s, root_of al (st_allocs s) = NULL → root_of al (st_allocs (env i j s)) = NULL) →
  init_args data_size align → booted s → st_allocs s !! al = Some a → scx_alloc_init env k ks al data_size align s = Some (0, s') →
  ∃ g, inv s' g ∧ is_Some (g_nd g !! [al]) ∧ esize (st_allocs s') al = object_size data_size (eff_align align).
Proof.
  intros He Hr Ha HB Hal E. pose proof (init_boot_spec W me env k ks al data_size align HW He Hr Hk Hks Ha s a HB Hal) as H.
  unfold wp in H. rewrite E in H. destruct H as [[? _]|(s1 & p & _ & g' & [I1 _] & [?|(_ & H1 & H2)])]; [done..|]. by exists g'.
Qed.

Lemma alloc_run s g r s' :
  alloc_env_ok W aenv → inv s g → al ≠ NULL → is_Some (g_nd g !! [al]) → enough cl s al →
  scx_alloc_internal aenv ks k cl al s = Some (r, s') → r ≠ NULL →
  ∃ g' x, inv s' g' ∧ granted me al x r s' g' ∧ is_Some (g_nd g' !! [al]) ∧ esize (st_allocs s') al = esize (st_allocs s) al.
Proof.
  intros He Hinv Hn H1 Hcl E Hr. pose proof (alloc_spec W me aenv ks k cl al s g HW He Hks Hk Hinv Hn H1 Hcl) as H.
  unfold wp in H. rewrite E in H. destruct H as (g' & [I2 E2] & [?|(x & _ & HG)]); [done|]. exists g', x. destruct H1 as [n1 H1].
  destruct (evolve_node _ _ _ _ _ _ _ _ E2 H1) as (n1' & H1' & _). split_and!; [done|done|by eexists|].
  eapply evolve_esize; [exact E2|]. by destruct (root_alloc s g al n1 Hinv H1) as (? & _ & _ & _ & ?).
Qed.
End runs.

Lemma sys1_run : ex_init boot = Some (0, sys1).
Proof. vm_compute. reflexivity. Qed.

Definition obj1 : Z := sdt_result ex_alloc sys1.
Lemma sys2_run : ex_alloc sys1 = Some (obj1, sys2).
Proof. vm_compute. reflexivity. Qed.

Lemma sys1_ok : ∃ g, inv sys1 g ∧ is_Some (g_nd g !! [1]) ∧ esize (st_allocs sys1) 1 = 24.
Proof.
  exact (boot_run everyone 7 quiet2 bump_kernel (λ _, bump_kernel) 1 I bump_kernel_ok (λ _, bump_kernel_ok) 8 0 boot (ScxAllocator zero_pool 0) sys1
    (λ _ _, quiet_ok _) (λ _ _ _ H, H) ex_args boot_booted eq_refl sys1_run).
Qed.

Lemma sys1_enough : enough 8 sys1 1.
Proof. destruct sys1_ok as (_ & _ & _ & E). unfold enough. rewrite E. vm_compute. lia. Qed.

Lemma obj1_nonnull : obj1 ≠ NULL.
Proof. vm_compute. discriminate. Qed.

Lemma sys2_ok : ∃ g x, inv sys2 g ∧ granted 7 1 x obj1 sys2 g ∧ is_Some (g_nd g !! [1]) ∧ esize (st_allocs sys2) 1 = 24.
Proof.
  destruct sys1_ok as (g1 & I1 & H1 & Es1). rewrite <-Es1.
  exact (alloc_run everyone 7 quiet_env bump_kernel (λ _, bump_kernel) 8 1 I bump_kernel_ok (λ _, bump_kernel_ok) sys1 g1 obj1 sys2
    (quiet_env_ok _) I1 ltac:(discriminate) H1 sys1_enough sys2_run obj1_nonnull).
Qed.

(** ** Theorems *)

(** Two objects in use are apart; an object is inside the mapped pages. *)
Lemma objects_apart s g h h' e e' :
  inv s g → g_slot g !! h = Some e → g_slot g !! h' = Some e' → h ≠ h' → apart (e, esize (st_allocs s) h.1) (e', esize (st_allocs s) h'.1).
Proof.
  intros Hinv H H' Hne. pose proof (elem_own s g h e Hinv H) as Ho. pose proof (elem_own s g h' e' Hinv H') as Ho'.
  eapply (ly_disj _ _ _ (iv_layout _ _ Hinv)); [exact Ho|exact Ho'|]. intros ->. congruence.
Qed.

(** C5: an allocation, with any interference between its critical sections that
    leaves alone what belongs to the threads of [W] (the caller [me] among them), runs without
    a fault and keeps the invariant of the arena.  It returns [NULL], or an object of [me] that is
    blank apart from its index, that belonged to no thread of [W], and that
    is apart from every object a thread of [W] had; those are
    as they were. *)
Theorem alloc_grants_blank_object W me env pss ps cl al s g :
  W me → alloc_env_ok W env → (∀ i, kernel_ok (pss i)) → kernel_ok ps →
  inv s g → al ≠ NULL → is_Some (g_nd g !! [al]) → enough cl s al →
  ∃ r s' g', scx_alloc_internal env pss ps cl al s = Some (r, s') ∧ inv s' g' ∧
    (∀ h o fl e, W o → g_used g !! h = Some (o, fl) → g_slot g !! h = Some e →
       g_used g' !! h = Some (o, fl) ∧ g_slot g' !! h = Some e ∧ agree (st_mem s) (st_mem s') e (esize (st_allocs s) h.1)) ∧
    (r = NULL ∨ ∃ x, granted me al x r s' g' ∧
       ∀ h o fl e, W o → g_used g !! h = Some (o, fl) → g_slot g !! h = Some e →
         h ≠ (al, x) ∧ apart (r, esize (st_allocs s') al) (e, esize (st_allocs s') h.1)).
Proof.
  intros HW He Hpss Hps Hinv Hn H1 Hcl. pose proof (alloc_spec W me env pss ps cl al s g HW He Hpss Hps Hinv Hn H1 Hcl) as H.
  apply wp_run in H as (r & s' & E & g' & [I' E'] & HR). exists r, s', g'.
  assert (∀ h o fl e, W o → g_used g !! h = Some (o, fl) → g_slot g !! h = Some e →
    g_used g' !! h = Some (o, fl) ∧ g_slot g' !! h = Some e ∧ agree (st_mem s) (st_mem s') e (esize (st_allocs s) h.1)) as Hk.
  { intros h o fl e Ho Hu Hs. destruct (ev_obj _ _ _ _ _ _ E' h) with (v := (o, fl)) as (Hu' & Hs' & Ha); [by eexists _, _|done|].
    split_and!; [done|congruence|]. apply Ha. by eapply elem_own. }
  split_and!; [done..|]. destruct HR as [->|(x & Hfr & HG)]; [by left|right]. exists x. split; [done|]. intros h o fl e Ho Hu Hs.
  assert (h ≠ (al, x)) as Hne by (intros ->; apply Hfr; by eexists _, _). split; [done|].
  apply (objects_apart s' g' (al, x) h); [done|apply HG|by eapply Hk|done].
Qed.

Lemma alloc_grants_blank_object_witness :
  ∃ g r s', inv sys2 g ∧ ex_alloc sys2 = Some (r, s') ∧ ∃ g', inv s' g' ∧ g_slot g' !! (1, 0) = Some obj1.
Proof.
  destruct sys2_ok as (g & x & I2 & HG & H1 & Es).
  destruct (alloc_grants_blank_object everyone 7 quiet_env (λ _, bump_kernel) bump_kernel 8 1 sys2 g I (quiet_env_ok _) (λ _, bump_kernel_ok) bump_kernel_ok
    I2 ltac:(discriminate) H1) as (r & s' & g' & E & I' & Hk & _); [unfold enough; rewrite Es; vm_compute; lia|].
  assert (x = 0) as ->. { pose proof (gt_idx _ _ _ _ _ _ HG) as Hi. rewrite Es in Hi. rewrite <-Hi. vm_compute. reflexivity. }
  exists g, r, s'. split; [exact I2|]. split; [exact E|]. exists g'. split; [exact I'|].
  exact (proj1 (proj2 (Hk (1, 0) 7 false obj1 I (gt_used _ _ _ _ _ _ HG) (gt_slot _ _ _ _ _ _ HG)))).
Defined.

(** C6: [scx_free] of an object in use succeeds: the index is free again, the object
    stays in its slot with nothing left but its generation, which is
    one higher, and no other object changes. *)
Theorem free_clears_object cl s g me al x e :
  inv s g → al ≠ NULL → g_used g !! (al, x) = Some (me, false) → g_slot g !! (al, x) = Some e → enough cl s al →
  ∃ s' g', sdt_free cl al e s = Some (0, s') ∧ inv s' g' ∧ g_used g' = delete (al, x) (g_used g) ∧ g_slot g' = g_slot g ∧
    cleared (st_mem s') e (esize (st_allocs s) al) (tid_genn (word (st_mem s) (e + esize (st_allocs s) al - 16))) ∧
    ∀ h e', h ≠ (al, x) → is_Some (g_used g !! h) → g_slot g !! h = Some e' → agree (st_mem s) (st_mem s') e' (esize (st_allocs s) h.1).
Proof.
  intros Hinv Hn Hu Hs Hcl. pose proof (free_idx_spec cl s g me (al, x) false Hinv Hn Hu Hcl) as H. apply wp_run in H as (r & s' & E & -> & g' & I' & E' & Eu & Es & Eo & Ea & HF).
  destruct (used_nodes s g _ _ Hinv Hu) as (Hok & n1 & _ & _ & H1 & _). simpl in Hok, E. destruct (root_alloc s g al n1 Hinv H1) as (a & Ha & _).
  destruct (sdt_tailer_at s g (al, x) e a Hinv Hs Ha) as [_ Et]. pose proof (elem_own s g (al, x) e Hinv Hs) as Ho.
  destruct (iv_content _ _ Hinv _ _ _ Ho) as [H16 Hi]. unfold is_live in Hi. rewrite Hu in Hi. simpl in Hi, Et.
  exists s', g'. split_and!; [|done|done|done|by apply HF|].
  - assert (wp (sdt_free cl al e) (λ r s1, r = 0 ∧ s1 = s') s) as Hwp; [|apply wp_run in Hwp as (r & s1 & Hr & -> & ->); done].
    unfold sdt_free, data_tid. wbind. eapply wp_get_alloc; [exact Ha|]. rewrite Et. wbind. apply wp_ld.
    { pose proof (elem_region s g (al, x) e Hinv Hs) as HR. pose proof HR as [_ _ B8 N8 _ _]. simpl in *. eapply mapped_in; [exact HR|lia|lia|off]. }
    rewrite Hi, u64_small by (unfold idx_ok, is_u64, two64 in *; lia). eapply wp_eq; [exact E|done].
  - intros h e' Hne [v Hv] He. destruct (ev_obj _ _ _ _ _ _ E' h Hne v Hv) as (_ & _ & Hag). apply Hag. by eapply elem_own.
Qed.

Lemma free_clears_object_witness : ∃ g s' g', inv sys2 g ∧ sdt_free 8 1 obj1 sys2 = Some (0, s') ∧ inv s' g' ∧ cleared (st_mem s') obj1 24 0.
Proof.
  destruct sys2_ok as (g & x & I2 & HG & H1 & Es).
  destruct (free_clears_object 8 sys2 g 7 1 x obj1 I2 ltac:(discriminate) (gt_used _ _ _ _ _ _ HG) (gt_slot _ _ _ _ _ _ HG)) as (s' & g' & E & I' & _ & _ & HC & _);
    [unfold enough; rewrite Es; vm_compute; lia|].
  exists g, s', g'. split; [exact I2|]. split; [exact E|]. split; [exact I'|]. rewrite Es in HC.
  assert (tid_genn (word (st_mem sys2) (obj1 + 24 - 16)) = 0) as E0 by (vm_compute; reflexivity). rewrite E0 in HC. exact HC.
Defined.

(** C11: with four pages in the stack, of the at least six that are reserved
    before, [desc_find_empty] finds the least index that is not in use and marks it, creating the
    nodes on the way; it fails only when all 2^27 indices are in
    use, and then changes nothing. *)
Theorem find_least_index me s g al nd :
  inv s g → (4 <= length (g_sp g))%nat → g_nd g !! [al] = Some nd →
  ∃ r s', desc_find_empty (n_desc nd) (st_prealloc s) s = Some (r, s') ∧
    match r with
    | None => s' = s ∧ ∀ x, 0 <= x < 2 ^ 27 → is_Some (g_used g !! (al, x))
    | Some (d, x) => 0 <= x < 2 ^ 27 ∧ g_used g !! (al, x) = None ∧ (∀ y, 0 <= y < x → is_Some (g_used g !! (al, y))) ∧
        ∃ g' n3, inv s' g' ∧ g_used g' = <[(al, x) := (me, true)]> (g_used g) ∧ g_slot g' = g_slot g ∧
          g_nd g' !! leaf_path (al, x) = Some n3 ∧ n_desc n3 = d
    end.
Proof.
  intros Hinv Hsp Hn. pose proof (desc_find_empty_spec me s g al nd Hinv Hsp Hn) as H. apply wp_run in H as (r & s' & E & H). exists r, s'. split; [done|].
  destruct H as [(-> & -> & H)|(g' & x & n3 & -> & Hok & Hfree & Hl & I' & _ & Eu & Es & _ & H3)]; [done|]. split_and!; [apply Hok|apply Hok|done..|]. by exists g', n3.
Qed.

(** The reserve is filled before. *)
Definition sys3 : sdt_state := after (scx_alloc_attempt quiet2 (λ _, bump_kernel) (st_prealloc sys2)) sys2.

Lemma find_least_index_witness :
  ∃ s g nd r s', inv s g ∧ (6 <= length (g_sp g))%nat ∧ g_nd g !! [1] = Some nd ∧ desc_find_empty (n_desc nd) (st_prealloc s) s = Some (r, s').
Proof.
  destruct sys2_ok as (g & x & I2 & HG & [n1 H1] & Es).
  pose proof (scx_alloc_attempt_spec everyone 7 quiet2 (λ _, bump_kernel) sys2 g I (λ _ _, quiet_ok _) (λ _, bump_kernel_ok) I2) as H. unfold wp in H.
  assert (scx_alloc_attempt quiet2 (λ _, bump_kernel) (st_prealloc sys2) sys2 = Some (0, sys3)) as E by (vm_compute; reflexivity).
  rewrite E in H. clear E. destruct H as (g3 & I3 & E3 & [[_ H6]|H0]); [|discriminate].
  destruct (evolve_node _ _ _ _ _ _ _ _ E3 H1) as (n1' & H1' & _).
  destruct (find_least_index 7 sys3 g3 1 n1' I3 ltac:(lia) H1') as (r & s' & E & _).
  exists sys3, g3, n1', r, s'. split; [exact I3|]. split; [exact H6|]. split; [exact H1'|exact E].
Defined.

(** [scx_alloc_free_idx] refuses what was never allocated: the null
    allocator does nothing, an allocator that is not set up and an index whose leaf page does not
    exist give [-EINVAL], and nothing changes. *)
Theorem free_refuses cl s g al a x :
  inv s g → st_allocs s !! al = Some a → 0 <= x < 2 ^ 27 → g_nd g !! leaf_path (al, x) = None →
  scx_alloc_free_idx cl NULL x s = Some (0, s) ∧ (al ≠ NULL → scx_alloc_free_idx cl al x s = Some (- EINVAL, s)).
Proof.
  intros Hinv Ha Hx Hn. split; [done|]. intros Hnull.
  assert (wp (scx_alloc_free_idx cl al x) (λ r s1, r = - EINVAL ∧ s1 = s) s) as Hwp; [|apply wp_run in Hwp as (r & s1 & E & -> & ->); done].
  unfold scx_alloc_free_idx. rewrite (proj2 (Z.eqb_neq _ _) Hnull). wbind. eapply wp_get_alloc; [done|].
  rewrite (tw_root _ _ (iv_tree _ _ Hinv) _ _ Ha). destruct (g_nd g !! [al]) as [n1|] eqn:H1; simpl; [|by apply wp_ret].
  rewrite (proj2 (Z.eqb_neq _ _)) by (by eapply node_nonnull). wuse (free_walk_spec s g (al, x) n1 Hinv Hx H1).
  intros r s1 [-> Hr]. rewrite Hn in Hr. rewrite Hr. by apply wp_ret.
Qed.

(** An empty entry of the root has nothing below. *)
Lemma no_leaf s g al a x :
  inv s g → st_allocs s !! al = Some a → idx_ok x →
  word (st_mem s) (chunk_slot (word (st_mem s) (desc_chunk (root_of al (st_allocs s)))) (hi x)) = 0 → g_nd g !! leaf_path (al, x) = None.
Proof.
  intros Hinv Ha Hok Hw. destruct (g_nd g !! leaf_path (al, x)) as [n3|] eqn:E3; [|done].
  destruct (nw_parent _ _ _ (node_wf_of s g _ n3 Hinv E3) [al; hi x] (mid x)) as [n2 E2]; [done..|].
  destruct (nw_parent _ _ _ (node_wf_of s g _ n2 Hinv E2) [al] (hi x)) as [n1 E1]; [done..|].
  destruct (node_nonnull s g _ n2 Hinv E2). destruct (parts_enc x Hok) as (_ & Hh & _). unfold root_of in Hw. rewrite Ha in Hw. simpl in Hw.
  rewrite (tw_root _ _ (iv_tree _ _ Hinv) _ _ Ha), E1 in Hw. simpl in Hw. destruct (desc_words s g [al] n1 Hinv E1) as (_ & _ & Hc).
  rewrite Hc, (slot_word s g [al] n1 Hinv E1 _ Hh), inner_slot in Hw by done. simpl in Hw. by rewrite E2 in Hw.
Qed.

Lemma free_refuses_witness : ∃ g a, inv sys1 g ∧ st_allocs sys1 !! 1 = Some a ∧ scx_alloc_free_idx 8 1 5 sys1 = Some (- EINVAL, sys1).
Proof.
  destruct sys1_ok as (g & I1 & [n1 H1] & Es). destruct (root_alloc sys1 g 1 n1 I1 H1) as (a & Ha & _). exists g, a. split; [exact I1|]. split; [exact Ha|].
  refine (proj2 (free_refuses 8 sys1 g 1 a 5 I1 Ha (conj _ _) _) _); [lia|lia| |discriminate].
  apply (no_leaf sys1 g 1 a 5 I1 Ha); [split; lia|]. vm_compute. reflexivity.
Defined.

(** [scx_alloc_init] with a power of two of at least 8 (or 0) as alignment, on an
    allocator that is not set up, first or after others, ends with the
    invariant: with [-ENOMEM], or with an empty tree and a pool for objects of the
    rounded size, which hold the data and the trailer. *)
Theorem init_establishes W me env k ks al data_size align s a :
  W me → (∀ i j, env_ok W (env i j)) → (∀ i j s, root_of al (st_allocs s) = NULL → root_of al (st_allocs (env i j s)) = NULL) →
  kernel_ok k → (∀ i, kernel_ok (ks i)) → init_args data_size align →
  st_allocs s !! al = Some a → sp_elem_size (sa_pool a) = 0 → booted s ∨ (∃ g, inv s g) →
  ∃ r s', scx_alloc_init env k ks al data_size align s = Some (r, s') ∧
    (r = - ENOMEM ∧ (booted s' ∨ ∃ g, inv s' g) ∨
     r = 0 ∧ ∃ g, inv s' g ∧ is_Some (g_nd g !! [al]) ∧ let n := esize (st_allocs s') al in
       data_size + 16 <= n < data_size + 16 + eff_align align ∧ n mod eff_align align = 0).
Proof.
  intros HW He Hr Hk Hks Hargs Ha Hun Hs.
  assert (∀ s0 g0 r s', init_post W al data_size align s0 g0 r s' → r = - ENOMEM ∧ (booted s' ∨ ∃ g, inv s' g) ∨
    r = 0 ∧ ∃ g, inv s' g ∧ is_Some (g_nd g !! [al]) ∧ let n := esize (st_allocs s') al in
       data_size + 16 <= n < data_size + 16 + eff_align align ∧ n mod eff_align align = 0) as Hpost.
  { intros s0 g0 r s' (g' & [I' _] & [->|(-> & H1 & Es)]); [left; eauto|right]. split; [done|]. exists g'. split_and!; [done..|]. cbv zeta. rewrite Es.
    destruct Hargs as [Hd (k0 & Hk0 & H3) Hmax]. by destruct (object_size_ok data_size (eff_align align) k0) as (? & ? & _). }
  destruct Hs as [HB|[g Hinv]].
  - pose proof (init_boot_spec W me env k ks al data_size align HW He Hr Hk Hks Hargs s a HB Ha) as H.
    apply wp_run in H as (r & s' & E & H). exists r, s'. split; [done|]. destruct H as [[-> H]|(s1 & p & _ & H)]; [left; eauto|by eapply Hpost].
  - pose proof (init_spec W me env k ks al data_size align HW He Hr Hks Hargs s g a Hinv Ha Hun) as H.
    apply wp_run in H as (r & s' & E & H). exists r, s'. split; [done|by eapply Hpost].
Qed.

Lemma init_establishes_witness : ∃ r s', ex_init boot = Some (r, s') ∧ (r = - ENOMEM ∨ r = 0 ∧ ∃ g, inv s' g ∧ is_Some (g_nd g !! [1])).
Proof.
  destruct (init_establishes everyone 7 quiet2 bump_kernel (λ _, bump_kernel) 1 8 0 boot (ScxAllocator zero_pool 0) I (λ _ _, quiet_ok _) (λ _ _ _ H, H)
    bump_kernel_ok (λ _, bump_kernel_ok) ex_args eq_refl eq_refl (or_introl boot_booted)) as (r & s' & E & H). exists r, s'. split; [exact E|]. clear E.
  destruct H as [[H _]|(H & g & H1 & H2 & _)]; [left; exact H|right; split; [exact H|exists g; split; [exact H1|exact H2]]].
Defined.

(** an alignment below 8 or not a power of two is refused with [-EINVAL] and nothing
    changes. *)
Theorem init_refuses env k ks al data_size align s g :
  inv s g → align ≠ 0 → align < 8 ∨ Z.land align (u64 (align - 1)) ≠ 0 → scx_alloc_init env k ks al data_size align s = Some (- EINVAL, s).
Proof.
  intros Hinv H0 H. assert (wp (scx_alloc_init env k ks al data_size align) (λ r s1, r = - EINVAL ∧ s1 = s) s) as Hwp;
    [|apply wp_run in Hwp as (r & s1 & E & -> & ->); done].
  unfold scx_alloc_init, init_shared. wbind. wstep. destruct (stack_region s g Hinv) as [R1 _ _ _ _ _].
  rewrite (proj2 (Z.eqb_neq (st_prealloc s) 0)) by lia. simpl. wstep. cbn [Z.eqb negb]. rewrite (proj2 (Z.eqb_neq align 0)) by done. cbv zeta.
  assert ((align <? 8) || negb (Z.land align (u64 (align - 1)) =? 0) = true) as ->; [|by apply wp_ret].
  destruct H as [H|H]; [by rewrite (proj2 (Z.ltb_lt _ _) H)|]. rewrite (proj2 (Z.eqb_neq _ _) H). by rewrite orb_true_r.
Qed.

Lemma init_refuses_witness : ∃ g, inv sys1 g ∧ scx_alloc_init quiet2 bump_kernel (λ _, bump_kernel) 1 8 24 sys1 = Some (- EINVAL, sys1).
Proof.
  assert (24 ≠ 0) as H0 by discriminate. assert (24 < 8 ∨ Z.land 24 (u64 (24 - 1)) ≠ 0) as H1 by (right; vm_compute; discriminate).
  destruct sys1_ok as (g & I1 & _). exists g. split; [exact I1|].
  exact (init_refuses quiet2 bump_kernel (λ _, bump_kernel) 1 8 24 sys1 g I1 H0 H1).
Defined.

(** a whole allocation by a thread outside [W], with interference of its own that
    leaves alone what belongs to [W] and to it, is interference that [W] tolerates:
    allocations may be nested in each other to any depth. *)
Theorem alloc_is_interference W o env pss ps cl al :
  (∀ i, kernel_ok (pss i)) → kernel_ok ps → alloc_env_ok (λ t, W t ∨ t = o) env → (∀ s g, inv s g → enough cl s al) →
  env_ok W (after (scx_alloc_internal env pss ps cl al)).
Proof.
  intros Hpss Hps He Hcl s g Hinv. unfold after.
  assert (∀ r s' : sdt_state, r = s → ∃ g', inv r g' ∧ evolve (owned W g) (held W g) s g r g') as Hid by (intros r _ ->; exists g; split; [done|apply evolve_refl]).
  destruct (Z.eqb_spec al NULL) as [->|Hn]; [by apply Hid|].
  destruct (st_allocs s !! al) as [a|] eqn:Ha.
  2: { apply Hid; [done|]. unfold scx_alloc_internal, mbind, ST_bind, gets. rewrite (proj2 (Z.eqb_neq _ _) Hn). unfold get_alloc. by rewrite Ha. }
  destruct (Z.eqb_spec (sa_root a) NULL) as [Hr|Hr].
  { apply Hid; [done|]. unfold scx_alloc_internal, mbind, ST_bind, gets. rewrite (proj2 (Z.eqb_neq _ _) Hn). unfold get_alloc. rewrite Ha. simpl. by rewrite (proj2 (Z.eqb_eq _ _) Hr). }
  assert (is_Some (g_nd g !! [al])) as H1. { rewrite (tw_root _ _ (iv_tree _ _ Hinv) _ _ Ha) in Hr. destruct (g_nd g !! [al]); [by eexists|done]. }
  pose proof (alloc_spec (λ t, W t ∨ t = o) o env pss ps cl al s g (or_intror eq_refl) He Hpss Hps Hinv Hn H1 (Hcl s g Hinv)) as H.
  apply wp_run in H as (r & s' & -> & g' & [I' E'] & _). exists g'. split; [done|]. simpl. eapply evolve_mono, E'.
  - intros h (t & fl & Ht & Hh). exists t, fl. auto.
  - intros b (t & n & Ht & Hh). exists t, n. auto.
Qed.

(** More iterations than any object has words. *)
Lemma all_enough s g al : inv s g → enough (Z.to_nat (2 ^ 61)) s al.
Proof.
  intros Hinv. unfold enough. apply Nat2Z.inj_le. rewrite Nat2Z.inj_div, (Z2Nat.id (2 ^ 61)) by (apply Z.pow_nonneg; lia).
  assert (esize (st_allocs s) al < 2 ^ 64) as Hlt.
  { destruct (decide (16 <= esize (st_allocs s) al)) as [H16|]; [|apply Z.lt_trans with 16; [lia|reflexivity]].
    destruct (data_pool_of s g al Hinv H16) as (q & _ & <- & _ & Hw & _). destruct (pw_elem _ _ _ Hw) as [W1 _], (pw_max _ _ _ Hw) as [W2 W3]. unfold two64 in W3. change (2 ^ 64) with 18446744073709551616. nia. }
  change (2 ^ 61) with 2305843009213693952. change (2 ^ 64) with 18446744073709551616 in Hlt. change (Z.of_nat 8) with 8. apply Z.div_le_upper_bound; [lia|]. lia.
Qed.

Lemma alloc_is_interference_witness : env_ok (λ t, t = 7) (after (scx_alloc_internal quiet_env (λ _, bump_kernel) bump_kernel (Z.to_nat (2 ^ 61)) 1)).
Proof.
  exact (alloc_is_interference (λ t, t = 7) 8 quiet_env (λ _, bump_kernel) bump_kernel (Z.to_nat (2 ^ 61)) 1 (λ _, bump_kernel_ok) bump_kernel_ok
    (quiet_env_ok _) (λ s g H, all_enough s g 1 H)).
Defined.

(** ** Runs *)

(** A freed object is the next one handed out, with the same index and the next generation. *)
Example recycled :
  let s3 := after (sdt_free 8 1 obj1) sys2 in let s4 := after ex_alloc s3 in
  sdt_result ex_alloc s3 = obj1 ∧ tid_idx (word (st_mem s4) (obj1 + 8)) = 0 ∧
  tid_genn (word (st_mem sys2) (obj1 + 8)) = 0 ∧ tid_genn (word (st_mem s4) (obj1 + 8)) = 1.
Proof. vm_compute. split_and!; reflexivity. Qed.

(** When no memory is left for the object, the index is given back with
    [scx_alloc_free_idx], which counts it as an object freed: the number of active objects
    goes below zero. *)
Example failed_alloc_underflow :
  let m := scx_alloc_internal quiet_env (λ _, bump_kernel) no_kernel 8 1 in
  sdt_result m sys1 = NULL ∧ as_active_allocs (st_stats sys1) = 0 ∧
  as_active_allocs (st_stats (after m sys1)) = two64 - 1 ∧ as_free_ops (st_stats (after m sys1)) = 1.
Proof. vm_compute. split_and!; reflexivity. Qed.

(** A second [scx_free] of an object finds the index 0 in it, and gives up that of another object. *)
Example double_free :
  let s3 := after ex_alloc sys2 in let obj2 := sdt_result ex_alloc sys2 in
  let s4 := after (sdt_free 8 1 obj2) s3 in let s5 := after (sdt_free 8 1 obj2) s4 in
  tid_idx (word (st_mem s3) (obj2 + 8)) = 1 ∧ sdt_result (sdt_free 8 1 obj2) s4 = 0 ∧ sdt_result ex_alloc s5 = obj1.
Proof. vm_compute. split_and!; reflexivity. Qed.
