(* ===== verification/SdtStore.v ===== *)
(** * Storage per task and per cgroup: [lib/sdt_task.bpf.c], [lib/sdt_cgroup.bpf.c]
    and the deferred free of [lib/sdt_alloc.bpf.c]

    Kernel maps lead from a task or a cgroup to an object of the allocator.  An
    object is claimed from its map entry by an exchange, so one caller frees it, at
    once or after a grace period: [scx_urcu_free] pushes it on the
    active one of two lists with compare-and-swap, and [scx_urcu_reclaim] returns the other list to the
    allocator and flips the two.

    One storage is one map, its allocator [al] and its two lists; the other storage
    and everything else that uses the arena is interference.  [env] is what other
    CPUs do between two accesses of a function to what they share.  The kernel helpers
    that create a map entry and reserve room in a ring buffer may fail: [room] and
    [ring] say whether they succeed. *)

From S2P Require Import Prelude Bitmap Bump SdtAlloc.

(** ** State *)
Record scx_urcu : Type := ScxUrcu {
  ur_head0 : Z;
  ur_head1 : Z;
  ur_active : Z;
}.
Record scx_task_map_val : Type := TaskVal {
  tv_tid : Z;
  tv_tptr : Z;
  tv_data : Z;
}.
Record scx_cgrp_map_val : Type := CgrpVal {
  cv_cptr : Z;
  cv_data : Z;
}.

(** The entries of both maps hold a pointer to an object. *)
Class DataVal (V : Type) := {
  dv_data : V → Z;
  dv_set : Z → V → V;
  dv_zero : V;
  dv_data_set d v : dv_data (dv_set d v) = d;
  dv_data_zero : dv_data dv_zero = 0;
  dv_set_data v : dv_set (dv_data v) v = v;
}.
#[global] Program Instance task_data_val : DataVal scx_task_map_val :=
  {| dv_data := tv_data; dv_set d v := TaskVal (tv_tid v) (tv_tptr v) d; dv_zero := TaskVal 0 0 0 |}.
Solve All Obligations with (intros; try done; by destruct v).
#[global] Program Instance cgrp_data_val : DataVal scx_cgrp_map_val :=
  {| dv_data := cv_data; dv_set d v := CgrpVal (cv_cptr v) d; dv_zero := CgrpVal 0 0 |}.
Solve All Obligations with (intros; try done; by destruct v).

Record storage (V : Type) : Type := Storage {
  sg_sdt : sdt_state;
  sg_urcu : scx_urcu;
  sg_map : gmap Z V;
  sg_bell : Z;
}.
Arguments Storage {V}. Arguments sg_sdt {V}. Arguments sg_urcu {V}. Arguments sg_map {V}. Arguments sg_bell {V}.

Definition SCX_URCU_RECLAIM_BATCH : nat := 4096.

Section storage.
Context {V : Type} {HV : DataVal V}.
Abbreviation SM X := (ST (storage V) X).
Abbreviation env_t := (storage V → storage V).

Definition with_sdt (s : sdt_state) (σ : storage V) : storage V := Storage s (sg_urcu σ) (sg_map σ) (sg_bell σ).
Definition with_urcu (f : scx_urcu → scx_urcu) (σ : storage V) : storage V := Storage (sg_sdt σ) (f (sg_urcu σ)) (sg_map σ) (sg_bell σ).
Definition with_map (f : gmap Z V → gmap Z V) (σ : storage V) : storage V := Storage (sg_sdt σ) (sg_urcu σ) (f (sg_map σ)) (sg_bell σ).
Definition ring_bell (σ : storage V) : storage V := Storage (sg_sdt σ) (sg_urcu σ) (sg_map σ) (u64 (sg_bell σ + 1)).

(** A call into the allocator. *)
Definition sdt {X} (m : DM X) : SM X := λ σ,
  match m (sg_sdt σ) with Some (x, s) => Some (x, with_sdt s σ) | None => None end.

(** ** Deferred free *)
Definition head_of (side : Z) (u : scx_urcu) : Z := if side =? 0 then ur_head0 u else ur_head1 u.
Definition set_head (side h : Z) (u : scx_urcu) : scx_urcu :=
  if side =? 0 then ScxUrcu h (ur_head1 u) (ur_active u) else ScxUrcu (ur_head0 u) h (ur_active u).
Definition set_active (side : Z) (u : scx_urcu) : scx_urcu := ScxUrcu (ur_head0 u) (ur_head1 u) side.

Definition scx_urcu_pending : SM bool :=
  gets (λ σ, negb (ur_head0 (sg_urcu σ) =? 0) || negb (ur_head1 (sg_urcu σ) =? 0)).

(** The tries of the compare-and-swap; [false] when all of them fail. *)
Fixpoint urcu_push (tries : nat) (env : nat → env_t) (ring : bool) (data side : Z) : SM bool :=
  match tries with
  | O => mret false
  | S tries =>
      head ← gets (λ σ, head_of side (sg_urcu σ));
      sdt (st (data_urcu_link data) head);;
      modifies (env tries);;
      cur ← gets (λ σ, head_of side (sg_urcu σ));
      if negb (cur =? head) then urcu_push tries env ring data side else
      modifies (with_urcu (set_head side data));;
      (if (head =? NULL) && ring then modifies ring_bell else mret tt);;
      mret true
  end.

(** The source tries [SCX_URCU_CAS_TRIES] times. *)
Definition scx_urcu_free (tries : nat) (env : nat → env_t) (ring : bool) (al payload : Z) : SM bool :=
  a ← sdt (get_alloc al);
  let data := sdt_tailer a payload in
  side ← gets (λ σ, Z.land (ur_active (sg_urcu σ)) 1);
  modifies (env tries);;
  urcu_push tries env ring data side.

Fixpoint reclaim_loop (n : nat) (env : nat → env_t) (cl : nat) (al side : Z) : SM unit :=
  match n with
  | O => mret tt
  | S n =>
      data ← gets (λ σ, head_of side (sg_urcu σ));
      if data =? NULL then mret tt else
      link ← sdt (ld (data_urcu_link data));
      modifies (with_urcu (set_head side link));;
      modifies (env n);;
      w ← sdt (ld (data_tid data));
      sdt (scx_alloc_free_idx cl al (u64 (tid_idx w)));;
      reclaim_loop n env cl al side
  end.

Definition scx_urcu_reclaim (env : nat → env_t) (cl : nat) (al : Z) : SM Z :=
  active ← gets (λ σ, ur_active (sg_urcu σ));
  let side := Z.land (Z.lxor active 1) 1 in
  reclaim_loop SCX_URCU_RECLAIM_BATCH env cl al side;;
  head ← gets (λ σ, head_of side (sg_urcu σ));
  if negb (head =? NULL) then mret 1 else
  modifies (with_urcu (set_active side));;
  mret 0.

(** ** Map entries *)

(** [bpf_task_storage_get] and [bpf_cgrp_storage_get], without and with the flag
    [BPF_LOCAL_STORAGE_GET_F_CREATE]. *)
Definition storage_get (p : Z) : SM (option V) := gets (λ σ, sg_map σ !! p).
Definition storage_create (room : bool) (p : Z) : SM bool :=
  v ← storage_get p;
  match v with
  | Some _ => mret true
  | None => if room then modifies (with_map <[p := dv_zero]>);; mret true else mret false
  end.

(** [__sync_lock_test_and_set(&mval->data, 0)] *)
Definition xchg_data (p : Z) : SM Z :=
  v ← storage_get p;
  match v with
  | None => fault
  | Some v => modifies (with_map <[p := dv_set 0 v]>);; mret (dv_data v)
  end.

(** [scx_task_free] and [scx_cgrp_free]: claim, then free. *)
Definition storage_free (env : env_t) (cl : nat) (al p : Z) : SM unit :=
  v ← storage_get p;
  match v with
  | None => mret tt
  | Some _ =>
      data ← xchg_data p;
      if data =? NULL then mret tt else
      modifies env;;
      sdt (sdt_free cl al data);;
      mret tt
  end.

(** [scx_task_free_rcu] and [scx_cgrp_free_rcu]. *)
Definition storage_free_rcu (env : env_t) (tries : nat) (uenv : nat → env_t) (ring : bool) (al p : Z) : SM unit :=
  v ← storage_get p;
  match v with
  | None => mret tt
  | Some _ =>
      data ← xchg_data p;
      if data =? NULL then mret tt else
      modifies env;;
      scx_urcu_free tries uenv ring al data;;
      mret tt
  end.

(** [__scx_task_data] and [scx_cgrp_data]. *)
Definition storage_data (p : Z) : SM Z := gets (λ σ, from_option dv_data NULL (sg_map σ !! p)).
End storage.

(** ** Tasks *)
Definition scx_task_alloc (room : bool) (env1 env2 : storage scx_task_map_val → storage scx_task_map_val) (aenv : alloc_env) (pss : nat → kernel) (ps : kernel)
    (cl : nat) (al p : Z) : ST (storage scx_task_map_val) Z :=
  ok ← storage_create room p;
  if negb (ok : bool) then mret NULL else
  modifies env1;;
  data ← sdt (scx_alloc_internal aenv pss ps cl al);
  if data =? NULL then mret NULL else
  modifies env2;;
  a ← sdt (get_alloc al);
  tid ← sdt (ld (data_tid (sdt_tailer a data)));
  modifies (with_map (alter (λ _, TaskVal tid p data) p));;
  mret data.

Definition scx_task_init (env : nat → nat → sdt_state → sdt_state) (ps : kernel) (pss : nat → kernel) (al data_size align : Z) : ST (storage scx_task_map_val) Z :=
  sdt (scx_alloc_init env ps pss al data_size align).
Definition scx_urcu_task_pending := scx_urcu_pending (V := scx_task_map_val).
Definition scx_urcu_task_reclaim := scx_urcu_reclaim (V := scx_task_map_val).
Definition scx_task_data := storage_data (V := scx_task_map_val).
Definition scx_task_free := storage_free (V := scx_task_map_val).
Definition scx_task_free_rcu := storage_free_rcu (V := scx_task_map_val).

(** ** Cgroups *)
Definition scx_cgrp_alloc (room : bool) (env1 env2 env3 : storage scx_cgrp_map_val → storage scx_cgrp_map_val) (aenv : alloc_env) (pss : nat → kernel) (ps : kernel)
    (cl : nat) (al p : Z) : ST (storage scx_cgrp_map_val) Z :=
  ok ← storage_create room p;
  if negb (ok : bool) then mret NULL else
  data ← storage_data p;
  if negb (data =? NULL) then mret data else
  modifies env1;;
  data ← sdt (scx_alloc_internal aenv pss ps cl al);
  if data =? NULL then mret NULL else
  modifies env2;;
  (* cmpxchg *)
  old ← storage_data p;
  if negb (old =? NULL) then
    modifies env3;;
    sdt (sdt_free cl al data);;
    mret old
  else
    modifies (with_map (alter (dv_set data) p));;
    modifies (with_map (alter (λ v, CgrpVal p (cv_data v)) p));;
    mret data.

Definition scx_cgrp_init (env : nat → nat → sdt_state → sdt_state) (ps : kernel) (pss : nat → kernel) (al data_size align : Z) : ST (storage scx_cgrp_map_val) Z :=
  sdt (scx_alloc_init env ps pss al data_size align).
Definition scx_urcu_cgrp_pending := scx_urcu_pending (V := scx_cgrp_map_val).
Definition scx_urcu_cgrp_reclaim := scx_urcu_reclaim (V := scx_cgrp_map_val).
Definition scx_cgrp_data := storage_data (V := scx_cgrp_map_val).
Definition scx_cgrp_free := storage_free (V := scx_cgrp_map_val).
Definition scx_cgrp_free_rcu := storage_free_rcu (V := scx_cgrp_map_val).
