(* ===== verification/SdtStoreInv.v ===== *)
(** * Storage per task and per cgroup: invariant and deferred free *)

From S2P Require Import Prelude Bitmap BitmapCorrect Bump BumpCorrect Wp SdtAlloc SdtBase SdtMem SdtPool SdtCarve SdtTree SdtMark SdtNode SdtFind SdtObject SdtCorrect SdtStore.

(** * Storage per task and per cgroup: invariant

    Who owns an object: the map, one of the two lists of deferred frees, or a
    thread (numbered from 0) between two accesses. *)

Definition omap : Z := -1.
Definition orcu (side : Z) : Z := -2 - side.
Definition is_side (i : Z) : Prop := i = 0 ∨ i = 1.
(** The owners that are no threads. *)
Definition shared (o : Z) : Prop := o = omap ∨ o = orcu 0 ∨ o = orcu 1.

Lemma shared_neg o : shared o → o < 0.
Proof. unfold shared, omap, orcu. lia. Qed.
Lemma shared_rcu i : is_side i → shared (orcu i).
Proof. intros [->| ->]; unfold shared; auto. Qed.

(** The lists of both sides, with that of one side replaced. *)
Definition upd_q (side : Z) (l : list Z) (q : Z → list Z) : Z → list Z := λ i, if decide (i = side) then l else q i.
Lemma upd_q_eq side l q : upd_q side l q side = l.
Proof. unfold upd_q. by rewrite decide_True. Qed.
Lemma upd_q_ne side l q i : i ≠ side → upd_q side l q i = q i.
Proof. intros. unfold upd_q. by rewrite decide_False. Qed.

(** ** Changing the owner of an object *)
Lemma give_inv s g h o fl o' :
  inv s g → g_used g !! h = Some (o, fl) →
  inv s (gused (<[h := (o', fl)]> (g_used g)) g) ∧ evolve (λ h', h' ≠ h) (λ _, True) s g s (gused (<[h := (o', fl)]> (g_used g)) g).
Proof.
  intros [HL HC HS HP HT] Hu. split; [split; simpl; try done|].
  - intros b n t Hb. eapply content_ghost; [|by apply HC]. destruct t as [| | |o0|p|al'|P'|P'|h']; try done. cbn [ghost_at].
    rewrite is_live_set. case_decide as E; [|done]. subst. unfold is_live. rewrite Hu. by destruct fl.
  - by destruct HS.
  - destruct HP as [P1 P2 P3 P4]. split; [done..| |done]. intros p q Hq Hne. destruct (P3 p q Hq Hne). by split.
  - eapply tree_used_set; [done..|]. intros ->. by eapply (tw_live _ _ HT).
  - split; [split; try done; eauto|..]; simpl; eauto.
    + intros h' Hh v Hv. simpl. rewrite lookup_insert_ne by done. split_and!; [done..|]. auto with scx.
    + intros b _ n o0 Hb. auto with scx.
Qed.

(** ** Writing the link of an object *)
Lemma link_write s g me h e v :
  inv s g → g_used g !! h = Some (me, false) → g_slot g !! h = Some e → is_u64 v →
  let a := e + esize (st_allocs s) h.1 - 8 in
  mapped (st_runs s) a = true ∧ inv (with_mem <[a := v]> s) g ∧ evolve (λ h', h' ≠ h) (λ _, True) s g (with_mem <[a := v]> s) g.
Proof.
  intros Hinv Hu Hs Hv. pose proof (elem_own s g h e Hinv Hs) as Ho. pose proof (elem_region s g h e Hinv Hs) as HR. pose proof HR as [R1 R2 B8 N8 R3 _].
  pose proof (elem_16 s g h e Hinv Hs) as H16. set (n := esize (st_allocs s) h.1) in *. cbv zeta. set (a := e + n - 8).
  assert (a mod 8 = 0) as A8 by (unfold a; off).
  assert (∀ b n0 t, g_own g !! b = Some (n0, t) → b ≠ e → agree (st_mem s) (<[a := v]> (st_mem s)) b n0) as Hag.
  { intros b n0 t Hb Hne. refine (write_agree s g e n a v (TElem h) Hinv Ho _ _ b n0 t Hb Hne); unfold a; lia. }
  split_and!; [eapply mapped_in; [exact HR|unfold a; lia|unfold a; lia|done]| |].
  - eapply inv_write; [done|exact Ho|unfold a; lia|unfold a; lia|done|done|]. pose proof (iv_content _ _ Hinv _ _ _ Ho) as [_ HB].
    unfold is_live in HB. rewrite Hu in HB. split; [done|]. unfold is_live. rewrite Hu. rewrite word_insert_ne by (unfold a; lia). done.
  - split; [split; try done; eauto|..]; simpl; eauto.
    + intros h' Hh v' Hv'. split_and!; [done..|]. intros e' n' He'. eapply Hag; [done|]. intros ->. rewrite Ho in He'. congruence.
    + intros b _ n0 o Hb. split; [done|]. eapply Hag; [done|]. intros ->. congruence.
Qed.

(** ** The lists *)
Section chain.
Context (al N : Z).

(** The nodes from [head] on are the trailers of the objects [q]. *)
Fixpoint chain (m : gmap Z Z) (g : ghost) (head : Z) (q : list Z) : Prop :=
  match q with
  | [] => head = NULL
  | x :: q => ∃ e, g_slot g !! (al, x) = Some e ∧ head = e + N - 16 ∧ chain m g (word m (e + N - 8)) q
  end.

Lemma chain_ext m g m' g' head q :
  (∀ x e, x ∈ q → g_slot g !! (al, x) = Some e → g_slot g' !! (al, x) = Some e ∧ word m' (e + N - 8) = word m (e + N - 8)) →
  chain m g head q → chain m' g' head q.
Proof.
  revert head. induction q as [|x q IH]; intros head Hx; [done|]. intros (e & Hs & -> & Hc). destruct (Hx x e) as [Hs' Hw]; [left|done|].
  exists e. split_and!; [done..|]. rewrite Hw. apply IH; [|done]. intros y e' Hy. apply Hx. by right.
Qed.

Lemma chain_gused m g u head q : chain m g head q → chain m (gused u g) head q.
Proof. apply chain_ext. by intros x e _ Hs. Qed.

(** The list is determined by the memory. *)
Lemma chain_det m g head q q' :
  (∀ x y e, g_slot g !! (al, x) = Some e → g_slot g !! (al, y) = Some e → x = y) → (∀ x e, g_slot g !! (al, x) = Some e → e + N - 16 ≠ 0) →
  chain m g head q → chain m g head q' → q = q'.
Proof.
  intros Hinj H0. revert head q'. induction q as [|x q IH]; intros head [|y q']; simpl.
  - done.
  - intros -> (e & Hs & E & _). by destruct (H0 y e Hs).
  - intros (e & Hs & E & _) ->. by destruct (H0 x e Hs).
  - intros (e & Hs & -> & Hc) (e' & Hs' & E & Hc'). assert (e' = e) as -> by lia. f_equal; [by eapply Hinj|by eapply IH].
Qed.
End chain.

(** ** The invariant of a storage *)
Section store.
Context {V : Type} {HV : DataVal V}.
Context (al N : Z).

Record store_inv (σ : storage V) (g : ghost) (q : Z → list Z) : Prop := StoreInv {
  si_inv : inv (sg_sdt σ) g;
  si_al : is_Some (g_nd g !! [al]);
  si_size : esize (st_allocs (sg_sdt σ)) al = N;
  si_map p v : sg_map σ !! p = Some v → dv_data v ≠ NULL →
    ∃ x, g_used g !! (al, x) = Some (omap, false) ∧ g_slot g !! (al, x) = Some (dv_data v);
  si_inj p v p' v' : sg_map σ !! p = Some v → sg_map σ !! p' = Some v' → dv_data v = dv_data v' → dv_data v ≠ NULL → p = p';
  si_active : is_side (ur_active (sg_urcu σ));
  si_chain i : is_side i → chain al N (st_mem (sg_sdt σ)) g (head_of i (sg_urcu σ)) (q i);
  si_queue i x : is_side i → x ∈ q i → g_used g !! (al, x) = Some (orcu i, false);
  si_nodup i : is_side i → NoDup (q i);
}.

Lemma obj_slot_inj s g x y e : inv s g → g_slot g !! (al, x) = Some e → g_slot g !! (al, y) = Some e → x = y.
Proof. intros H H1 H2. pose proof (elem_own s g _ e H H1). pose proof (elem_own s g _ e H H2). congruence. Qed.

Lemma store_N σ g q : store_inv σ g q → 16 <= N.
Proof. intros [I [n1 H1] <- _ _ _ _ _ _]. by destruct (root_alloc _ g al n1 I H1) as (? & _ & _ & _ & ?). Qed.

Lemma slot_pos s g x e : inv s g → esize (st_allocs s) al = N → 16 <= N → g_slot g !! (al, x) = Some e → 0 < e ∧ e + N - 16 ≠ 0 ∧ e + N < two64.
Proof. intros H <- H16 Hs. destruct (elem_region s g (al, x) e H Hs) as [? ? _ _ ? _]. simpl in *. lia. Qed.

(** A step of the arena that leaves the shared objects alone. *)
Lemma store_step σ g q s' g' (U : Z * Z → Prop) (Vp : Z → Prop) :
  store_inv σ g q → inv s' g' → evolve U Vp (sg_sdt σ) g s' g' → (∀ h, owned shared g h → U h) → store_inv (with_sdt s' σ) g' q.
Proof.
  intros HS I' E' HU. pose proof (store_N _ _ _ HS) as H16. destruct HS as [I0 [n1 H1] HN Hm Hi Ha Hc Hq Hn].
  assert (∀ h o, shared o → g_used g !! h = Some (o, false) → g_used g' !! h = Some (o, false) ∧ g_slot g' !! h = g_slot g !! h ∧
    ∀ e n, g_own g !! e = Some (n, TElem h) → agree (st_mem (sg_sdt σ)) (st_mem s') e n) as Hk.
  { intros h o Ho Hu. apply (ev_obj _ _ _ _ _ _ E' h); [|done]. apply HU. by eexists _, _. }
  split; simpl; try done.
  - destruct (evolve_node _ _ _ _ _ _ _ _ E' H1) as (n1' & ? & _). by eexists.
  - rewrite (evolve_esize _ _ _ _ _ _ al E') by lia. done.
  - intros p v Hp Hd. destruct (Hm p v Hp Hd) as (x & Hu & Hs). destruct (Hk _ _ (or_introl eq_refl) Hu) as (? & Es & _). exists x. by rewrite Es.
  - intros i Hsi. eapply chain_ext; [|by apply Hc]. intros x e Hx Hs. destruct (Hk _ _ (shared_rcu i Hsi) (Hq i x Hsi Hx)) as (_ & Es & Hag).
    rewrite Es. split; [done|]. pose proof (elem_own _ g _ e I0 Hs) as Ho. eapply Hag; [exact Ho|]. simpl. rewrite HN. lia.
  - intros i x Hsi Hx. by apply (Hk _ _ (shared_rcu i Hsi) (Hq i x Hsi Hx)).
Qed.

(** Interference that the threads of [W] tolerate. *)
Definition senv_ok (W : Z → Prop) (env : storage V → storage V) : Prop :=
  ∀ σ g q, store_inv σ g q → ∃ g' q', store_inv (env σ) g' q' ∧ evolve (owned W g) (held W g) (sg_sdt σ) g (sg_sdt (env σ)) g'.

(** Calls into the allocator. *)
Lemma wp_sdt {X} (m : DM X) (Q : X → storage V → Prop) σ : wp m (λ x s, Q x (with_sdt s σ)) (sg_sdt σ) → wp (sdt m) Q σ.
Proof. unfold wp, sdt. by destruct (m (sg_sdt σ)) as [[x s]|]. Qed.

Lemma head_of_set i side h u : is_side i → is_side side → head_of i (set_head side h u) = if decide (i = side) then h else head_of i u.
Proof. by intros [->| ->] [->| ->]. Qed.

Lemma orcu_inj i j : is_side i → is_side j → orcu i = orcu j → i = j.
Proof. unfold is_side, orcu. lia. Qed.

(** An object enters or leaves a list. *)
Lemma requeue σ g q x o o' side l head :
  store_inv σ g q → g_used g !! (al, x) = Some (o, false) → o = orcu side ∨ 0 <= o → o' = orcu side ∨ 0 <= o' → is_side side →
  chain al N (st_mem (sg_sdt σ)) g head l → NoDup l → (∀ y, y ∈ l → y = x ∧ o' = orcu side ∨ y ≠ x ∧ y ∈ q side) →
  let g' := gused (<[(al, x) := (o', false)]> (g_used g)) g in
  store_inv (with_urcu (set_head side head) σ) g' (upd_q side l q) ∧ evolve (λ h, h ≠ (al, x)) (λ _, True) (sg_sdt σ) g (sg_sdt σ) g'.
Proof.
  intros HS Hu Ho Ho' Hside Hc Hnd Hl. destruct HS as [I0 H1 HN Hm Hi Ha Hch Hq Hn]. destruct (give_inv _ _ _ _ _ o' I0 Hu) as [I' E']. cbv zeta.
  split; [|done]. assert (∀ y z, shared z → z ≠ orcu side → g_used g !! (al, y) = Some (z, false) →
    <[(al, x) := (o', false)]> (g_used g) !! (al, y) = Some (z, false)) as Hk.
  { intros y z Hz Hne Hy. rewrite lookup_insert_ne; [done|]. intros [= ->]. rewrite Hu in Hy. injection Hy as ->. apply shared_neg in Hz. destruct Ho; [done|lia]. }
  split; simpl; try done.
  - intros p v Hp Hd. destruct (Hm p v Hp Hd) as (y & Hy & Hs). exists y. split; [|done]. apply Hk; [by left| |done]. unfold omap, orcu, is_side in *. lia.
  - unfold set_head. by case_match.
  - intros i Hsi. rewrite head_of_set by done. destruct (decide (i = side)) as [->|Hne]; [rewrite upd_q_eq; by apply chain_gused|]. rewrite upd_q_ne by done. by apply chain_gused, Hch.
  - intros i y Hsi. destruct (decide (i = side)) as [->|Hne].
    + rewrite upd_q_eq. intros [[-> ->]|[Hy Hin]]%Hl; [by rewrite lookup_insert_eq|]. rewrite lookup_insert_ne by congruence. by apply Hq.
    + rewrite upd_q_ne by done. intros Hy. apply Hk; [by apply shared_rcu|by intros ?%orcu_inj|by apply Hq].
  - intros i Hsi. destruct (decide (i = side)) as [->|Hne]; [by rewrite upd_q_eq|]. rewrite upd_q_ne by done. by apply Hn.
Qed.

Lemma push_inv σ g q me x e side :
  store_inv σ g q → 0 <= me → g_used g !! (al, x) = Some (me, false) → g_slot g !! (al, x) = Some e → is_side side →
  word (st_mem (sg_sdt σ)) (e + N - 8) = head_of side (sg_urcu σ) →
  let g' := gused (<[(al, x) := (orcu side, false)]> (g_used g)) g in
  store_inv (with_urcu (set_head side (e + N - 16)) σ) g' (upd_q side (x :: q side) q) ∧ evolve (λ h, h ≠ (al, x)) (λ _, True) (sg_sdt σ) g (sg_sdt σ) g'.
Proof.
  intros HS Hme Hu Hs Hside Hw. assert (x ∉ q side) as Hx. { intros Hx. pose proof (si_queue _ _ _ HS _ _ Hside Hx) as H. unfold orcu, is_side in *. rewrite Hu in H. injection H. lia. }
  eapply requeue; [done|done|by right|by left|done| | |].
  - simpl. exists e. rewrite Hw. split_and!; [done..|]. by apply (si_chain _ _ _ HS).
  - constructor; [done|by apply (si_nodup _ _ _ HS)].
  - intros y [->|Hy]%elem_of_cons; [by left|right]. split; [|done]. by intros ->.
Qed.

Lemma pop_inv σ g q me x l side :
  store_inv σ g q → 0 <= me → is_side side → q side = x :: l →
  ∃ e, g_slot g !! (al, x) = Some e ∧ head_of side (sg_urcu σ) = e + N - 16 ∧
    let g' := gused (<[(al, x) := (me, false)]> (g_used g)) g in
    store_inv (with_urcu (set_head side (word (st_mem (sg_sdt σ)) (e + N - 8))) σ) g' (upd_q side l q) ∧
    evolve (λ h, h ≠ (al, x)) (λ _, True) (sg_sdt σ) g (sg_sdt σ) g'.
Proof.
  intros HS Hme Hside Hq. pose proof (si_chain _ _ _ HS _ Hside) as Hc. rewrite Hq in Hc. destruct Hc as (e & Hs & Hh & Hc).
  exists e. split_and!; [done..|]. pose proof (si_nodup _ _ _ HS _ Hside) as Hn. rewrite Hq, NoDup_cons in Hn. destruct Hn as [Hx Hn].
  eapply requeue; [done|apply (si_queue _ _ _ HS side); [done|rewrite Hq; left]|by left|by right|done|done|done|].
  intros y Hy. right. split; [by intros ->|]. rewrite Hq. by right.
Qed.

Lemma head_u64 σ g q side : store_inv σ g q → is_side side → is_u64 (head_of side (sg_urcu σ)).
Proof.
  intros HS Hside. pose proof (store_N _ _ _ HS) as H16. pose proof (si_chain _ _ _ HS _ Hside) as Hc. destruct (q side) as [|x l]; [by rewrite Hc|].
  destruct Hc as (e & Hs & -> & _). destruct (slot_pos _ _ _ _ (si_inv _ _ _ HS) (si_size _ _ _ HS) H16 Hs) as (? & ? & ?). unfold is_u64. lia.
Qed.
End store.

(** * Storage per task and per cgroup: deferred free

    A push on a list under interference, and the reclaim of the list that is not
    active after a grace period. *)

Section ops.
Context {V : Type} {HV : DataVal V}.
Context (al N : Z) (W : Z → Prop) (me : Z).
Hypothesis Hthreads : ∀ o, W o → 0 <= o.
Hypothesis HW : W me.
Implicit Types σ : storage V.

(** ** Since a start: what the threads of [W] had is theirs still, but for one object *)
Definition since_but (h0 : Z * Z) (σ0 : storage V) (g0 : ghost) (σ : storage V) (g : ghost) (q : Z → list Z) : Prop :=
  store_inv al N σ g q ∧ evolve (λ h, owned W g0 h ∧ h ≠ h0) (held W g0) (sg_sdt σ0) g0 (sg_sdt σ) g.

Lemma since_but_refl h0 σ g q : store_inv al N σ g q → since_but h0 σ g σ g q.
Proof. intros H. split; [done|apply evolve_refl]. Qed.

Lemma since_but_step h0 σ0 g0 σ g q σ' g' q' (U : Z * Z → Prop) (Vp : Z → Prop) :
  since_but h0 σ0 g0 σ g q → store_inv al N σ' g' q' → evolve U Vp (sg_sdt σ) g (sg_sdt σ') g' →
  (∀ h, h ≠ h0 → owned W g0 h → U h) → (∀ b, held W g0 b → Vp b) → since_but h0 σ0 g0 σ' g' q'.
Proof.
  intros [_ E] S' E' HU HV'. split; [done|]. eapply evolve_trans; [done|]. eapply evolve_mono, E'; [|done]. intros h [Ho Hh]. by apply HU.
Qed.

Lemma since_but_env h0 σ0 g0 σ g q env :
  senv_ok al N W env → since_but h0 σ0 g0 σ g q →
  ∃ g' q', since_but h0 σ0 g0 (env σ) g' q' ∧ evolve (owned W g) (held W g) (sg_sdt σ) g (sg_sdt (env σ)) g'.
Proof.
  intros He HS. destruct (He σ g q (proj1 HS)) as (g' & q' & S' & E'). exists g', q'. split; [|done].
  eapply since_but_step; [done|exact S'|exact E'| |].
  - intros h Hh Ho. pose proof Ho as (o & fl & Hw & Hu). destruct (ev_obj _ _ _ _ _ _ (proj2 HS) h (conj Ho Hh) _ Hu) as [Hu' _]. by exists o, fl.
  - intros b Hb. by eapply evolve_held; [apply HS|].
Qed.

(** An object of [me] keeps its words through interference. *)
Lemma evolve_word σ σ' g g' h e a :
  inv (sg_sdt σ) g → evolve (owned W g) (held W g) (sg_sdt σ) g (sg_sdt σ') g' → g_used g !! h = Some (me, false) → g_slot g !! h = Some e →
  e <= a < e + esize (st_allocs (sg_sdt σ)) h.1 → word (st_mem (sg_sdt σ')) a = word (st_mem (sg_sdt σ)) a.
Proof.
  intros I E Hu Hs Ha. destruct (ev_obj _ _ _ _ _ _ E h) with (v := (me, false)) as (_ & _ & Hag); [by exists me, false|done|].
  eapply Hag; [by eapply elem_own|done].
Qed.

Lemma mine_not_shared g h o : g_used g !! h = Some (me, false) → g_used g !! h = Some (o, false) → ¬ shared o.
Proof. intros H1 H2 Hs%shared_neg. rewrite H1 in H2. injection H2 as <-. pose proof (Hthreads me HW). lia. Qed.

Lemma not_shared_ne g h h' : g_used g !! h = Some (me, false) → owned shared g h' → h' ≠ h.
Proof. intros Hu (o & fl & Ho & Hu') ->. rewrite Hu in Hu'. injection Hu' as <- <-. apply shared_neg in Ho. pose proof (Hthreads me HW). lia. Qed.

(** ** The push *)

(** An attempt: the object is linked to the head that was read, and others run before the compare-and-swap; the state after [k] of [tries] attempts; whether the head has changed
    in attempt [j]; and the store of a successful one, with the doorbell. *)
Definition attempt (env : nat → storage V → storage V) (data side : Z) (i : nat) (σ : storage V) : storage V :=
  env i (with_sdt (with_mem <[data_urcu_link data := head_of side (sg_urcu σ)]> (sg_sdt σ)) σ).
Fixpoint attempts (env : nat → storage V → storage V) (data side : Z) (tries k : nat) (σ : storage V) {struct k} : storage V :=
  match k, tries with S k, S tries => attempts env data side tries k (attempt env data side tries σ) | _, _ => σ end.
Definition moved (env : nat → storage V → storage V) (data side : Z) (tries : nat) (σ : storage V) (j : nat) : Prop :=
  head_of side (sg_urcu (attempts env data side tries (S j) σ)) ≠ head_of side (sg_urcu (attempts env data side tries j σ)).
Definition published (ring : bool) (data side : Z) (σ : storage V) : storage V :=
  let σ' := with_urcu (set_head side data) σ in if (head_of side (sg_urcu σ) =? NULL) && ring then ring_bell σ' else σ'.

Section push.
Context (env : nat → storage V → storage V) (ring : bool) (x e side : Z) (σ0 : storage V) (g0 : ghost).
Hypothesis Henv : ∀ i, senv_ok al N W (env i).
Hypothesis Hside : is_side side.
Abbreviation h := (al, x).
Abbreviation data := (e + N - 16).

(** What a push by [tries] attempts from [σ] ends with.  All attempts before the last one saw the head of the list change; the last one saw it unchanged and published the object
    in front of the list of that moment, or there were no more attempts. *)
Definition push_post (tries : nat) (σ : storage V) (r : bool) (σ' : storage V) : Prop :=
  ∃ k g' q', since_but h σ0 g0 σ' g' q' ∧ g_slot g' !! h = Some e ∧ (∀ j, (j < k)%nat → moved env data side tries σ j) ∧
    if r then (k < tries)%nat ∧ ¬ moved env data side tries σ k ∧ let σ2 := attempts env data side tries (S k) σ in σ' = published ring data side σ2 ∧
      ∃ g2 q2, store_inv al N σ2 g2 q2 ∧ q' side = x :: q2 side ∧ ∀ i, i ≠ side → q' i = q2 i
    else k = tries ∧ σ' = attempts env data side tries k σ ∧ g_used g' !! h = Some (me, false).

(** One more attempt in front. *)
Lemma push_post_retry tries σ r σ' : head_of side (sg_urcu (attempt env data side tries σ)) ≠ head_of side (sg_urcu σ) →
  push_post tries (attempt env data side tries σ) r σ' → push_post (S tries) σ r σ'.
Proof.
  intros Hm (k & g' & q' & HS & Hs & Hj & HR). exists (S k), g', q'. split_and!; [done..| |].
  - intros [|j] Hlt; [exact Hm|]. apply (Hj j). lia.
  - destruct r; [|destruct HR as (-> & -> & ?); by split_and!]. destruct HR as (? & ? & ?). split_and!; [lia|done..].
Qed.

Lemma push_spec tries σ g q :
  since_but h σ0 g0 σ g q → g_used g !! h = Some (me, false) → g_slot g !! h = Some e →
  wp (urcu_push tries env ring data side) (push_post tries σ) σ.
Proof.
  revert σ g q. induction tries as [|tries IH]; intros σ g q HS Hu Hs; cbn [urcu_push]; [apply wp_ret; exists 0%nat, g, q; split; [done|]; split; [done|]; split; [intros; lia|done]|].
  pose proof HS as [HI _]. pose proof (si_inv _ _ _ _ _ HI) as I0. pose proof (si_size _ _ _ _ _ HI) as HN.
  wstep. set (head := head_of side (sg_urcu σ)).
  destruct (link_write _ g me h e head I0 Hu Hs) as (Hm & I1 & E1); [by eapply head_u64|]. simpl in Hm, I1, E1. rewrite HN in Hm, I1, E1.
  wbind. apply wp_sdt. unfold data_urcu_link. replace (data + 8) with (e + N - 8) by lia. apply wp_st; [done|].
  set (s1 := with_mem _ _) in *. assert (store_inv al N (with_sdt s1 σ) g q) as HI1 by (eapply store_step; [exact HI|exact I1|exact E1|]; intros h'; by apply not_shared_ne).
  assert (since_but h σ0 g0 (with_sdt s1 σ) g q) as S1 by (eapply since_but_step; [exact HS|exact HI1|exact E1|done|done]).
  wstep. destruct (since_but_env _ _ _ _ _ _ _ (Henv tries) S1) as (g2 & q2 & S2 & E2).
  destruct (evolve_index _ _ _ _ _ _ _ _ _ E2 HW Hu) as [Hu2 Hs2]. rewrite Hs in Hs2.
  pose proof (store_N _ _ _ _ _ HI) as H16.
  assert (word (st_mem (sg_sdt (env tries (with_sdt s1 σ)))) (e + N - 8) = head) as Hw.
  { rewrite (evolve_word _ _ _ _ h e (e + N - 8) (si_inv _ _ _ _ _ HI1) E2 Hu Hs); [simpl; by rewrite word_insert_eq|].
    rewrite (si_size _ _ _ _ _ HI1 : esize _ h.1 = _). lia. }
  assert (env tries (with_sdt s1 σ) = attempt env data side tries σ) as Eat by (unfold attempt, data_urcu_link, s1; by replace (data + 8) with (e + N - 8) by lia).
  rewrite Eat in *. set (σ2 := attempt env data side tries σ) in *. wstep. destruct (Z.eqb_spec (head_of side (sg_urcu σ2)) head) as [Eh|Eh]; cbn [negb].
  2: { eapply wp_mono; [by eapply IH|]. intros r σ'. by apply push_post_retry. }
  wstep. rewrite <-Eh in Hw. destruct (push_inv al N σ2 g2 q2 me x e side (proj1 S2) (Hthreads me HW) Hu2 Hs2 Hside Hw) as [HI3 E3].
  set (σ3 := with_urcu _ σ2) in *. set (g3 := gused _ g2) in *.
  assert (since_but h σ0 g0 σ3 g3 (upd_q side (x :: q2 side) q2)) as S3 by (eapply since_but_step; [exact S2|exact HI3|exact E3|done|done]).
  assert (∀ σ4, σ4 = published ring data side σ2 → since_but h σ0 g0 σ4 g3 (upd_q side (x :: q2 side) q2) → push_post (S tries) σ true σ4) as Hpost.
  { intros σ4 -> S4. exists 0%nat, g3, (upd_q side (x :: q2 side) q2). split; [done|]. split; [done|]. split; [intros; lia|]. split; [lia|]. split; [intros Hmv; by apply Hmv|].
    split; [done|]. exists g2, q2. split; [apply S2|]. split; [apply upd_q_eq|]. intros i Hi. by apply upd_q_ne. }
  wbind. unfold published in Hpost. rewrite Eh in Hpost. fold σ3 in Hpost. destruct ((head =? NULL) && ring); (wstep; apply wp_ret; apply Hpost; [done|]); [|done].
  destruct S3 as [[] ?]. by split; [split|].
Qed.
End push.

Lemma urcu_free_spec tries env ring x e σ g q :
  (∀ i, senv_ok al N W (env i)) → store_inv al N σ g q → g_used g !! (al, x) = Some (me, false) → g_slot g !! (al, x) = Some e →
  let side := Z.land (ur_active (sg_urcu σ)) 1 in
  wp (scx_urcu_free tries env ring al e) (λ r σ', is_side side ∧ push_post env ring x e side σ g tries (env tries σ) r σ') σ.
Proof.
  intros Henv HI Hu Hs side. pose proof (si_inv _ _ _ _ _ HI) as I0. destruct (si_al _ _ _ _ _ HI) as [n1 H1].
  destruct (root_alloc _ g al n1 I0 H1) as (a & Ha & _). destruct (sdt_tailer_at _ g (al, x) e a I0 Hs Ha) as [_ Et]. simpl in Et. rewrite (si_size _ _ _ _ _ HI) in Et.
  unfold scx_urcu_free. wbind. apply wp_sdt. eapply wp_get_alloc; [done|]. rewrite Et. wstep. simpl.
  assert (is_side side) as Hside by (unfold side; destruct (si_active _ _ _ _ _ HI) as [E|E]; rewrite E; [by left|by right]).
  wstep. assert (with_sdt (sg_sdt σ) σ = σ) as -> by (by destruct σ).
  destruct (since_but_env (al, x) σ g σ g q _ (Henv tries) (since_but_refl _ _ _ _ HI)) as (g1 & q1 & S1 & E1).
  destruct (evolve_index _ _ _ _ _ _ _ _ _ E1 HW Hu) as [Hu1 Hs1]. rewrite Hs in Hs1.
  eapply wp_mono; [by eapply push_spec|]. by intros r σ' HP.
Qed.

(** ** The reclaim *)

(** A call that gives the object at index [x] back to the allocator: before it is an object of [me], afterwards the index is free, nothing but the generation, one higher, is left of the object, and
    no other object changes. *)
Definition gives_back (x : Z) (s s' : sdt_state) : Prop :=
  ∃ g g', inv s g ∧ inv s' g' ∧ g_used g !! (al, x) = Some (me, false) ∧ g_used g' = delete (al, x) (g_used g) ∧ g_slot g' = g_slot g ∧ freed s g (al, x) s' ∧
    evolve (λ h, h ≠ (al, x)) (λ _, True) s g s' g'.
(** The first object is taken off the list. *)
Definition unlinked (side : Z) (σ : storage V) : storage V :=
  with_urcu (set_head side (word (st_mem (sg_sdt σ)) (data_urcu_link (head_of side (sg_urcu σ))))) σ.
(** A run that gives back the objects [l], in this order, others running after each one is taken off. *)
Inductive returned (env : nat → storage V → storage V) (side : Z) : nat → list Z → storage V → storage V → Prop :=
  | ret_done n σ : returned env side n [] σ σ
  | ret_step n x l σ s σ' : let σ2 := env n (unlinked side σ) in
      gives_back x (sg_sdt σ2) s → returned env side n l (with_sdt s σ2) σ' → returned env side (S n) (x :: l) σ σ'.

Section reclaim.
Context (env : nat → storage V → storage V) (cl : nat) (side : Z) (σ0 : storage V) (g0 : ghost).
Hypothesis Hal : al ≠ NULL.
Hypothesis Hside : is_side side.
(** Nobody touches the list: it is not active, and the grace period is over. *)
Hypothesis Henv : ∀ i, senv_ok al N (λ o, W o ∨ o = orcu side) (env i).
Hypothesis Hgrace : ∀ i σ, head_of side (sg_urcu (env i σ)) = head_of side (sg_urcu σ).
Hypothesis Hcl : ((Z.to_nat (N - 16)) / 8 <= cl)%nat.

Definition reclaimed (n : nat) (l : list Z) (σ σ' : storage V) : Prop :=
  ∃ g' q', store_inv al N σ' g' q' ∧ evolve (owned W g0) (held W g0) (sg_sdt σ0) g0 (sg_sdt σ') g' ∧ q' side = drop n l ∧ returned env side n (take n l) σ σ'.

Lemma quiet_list σ g q σ' g' q' l :
  store_inv al N σ g q → q side = l → store_inv al N σ' g' q' → head_of side (sg_urcu σ') = head_of side (sg_urcu σ) →
  evolve (owned (λ o, W o ∨ o = orcu side) g) (held (λ o, W o ∨ o = orcu side) g) (sg_sdt σ) g (sg_sdt σ') g' → q' side = l.
Proof.
  intros HI Hq HI' Hh E. pose proof (store_N _ _ _ _ _ HI) as H16. pose proof (si_inv _ _ _ _ _ HI) as I0. pose proof (si_inv _ _ _ _ _ HI') as I'.
  eapply (chain_det al N (st_mem (sg_sdt σ')) g'); [intros y z e; by eapply obj_slot_inj|intros y e He| |].
  - by destruct (slot_pos al N _ _ _ _ I' (si_size _ _ _ _ _ HI') H16 He) as (_ & ? & _).
  - apply (si_chain _ _ _ _ _ HI' _ Hside).
  - rewrite Hh. eapply chain_ext; [|rewrite <-Hq; apply (si_chain _ _ _ _ _ HI _ Hside)]. intros y e Hy He. rewrite <-Hq in Hy.
    destruct (ev_obj _ _ _ _ _ _ E (al, y)) with (v := (orcu side, false)) as (_ & Es & Hag); [exists (orcu side), false; split; [by right|]..| |];
      [by apply (si_queue _ _ _ _ _ HI side)..|]. rewrite Es. split; [done|]. eapply Hag; [by eapply elem_own|]. simpl. rewrite (si_size _ _ _ _ _ HI). lia.
Qed.

Lemma reclaim_spec n σ g q l :
  store_inv al N σ g q → evolve (owned W g0) (held W g0) (sg_sdt σ0) g0 (sg_sdt σ) g → q side = l →
  wp (reclaim_loop n env cl al side) (λ _ σ', reclaimed n l σ σ') σ.
Proof.
  revert σ g q l. induction n as [|n IH]; intros σ g q l HI E Hq; simpl; [apply wp_ret; exists g, q; rewrite drop_0, take_0; split_and!; [done..|constructor]|].
  wstep. destruct l as [|x l].
  { pose proof (si_chain _ _ _ _ _ HI _ Hside) as Hc. rewrite Hq in Hc. rewrite Hc, Z.eqb_refl. apply wp_ret. exists g, q. split_and!; [done..|constructor]. }
  pose proof (store_N _ _ _ _ _ HI) as H16. pose proof (si_inv _ _ _ _ _ HI) as I0. pose proof (si_size _ _ _ _ _ HI) as HN.
  assert (g_used g !! (al, x) = Some (orcu side, false)) as Hu by (apply (si_queue _ _ _ _ _ HI side); [done|rewrite Hq; left]).
  destruct (pop_inv al N σ g q me x l side HI (Hthreads me HW) Hside Hq) as (e & Hs & Hh & HI1 & E1). set (g1 := gused _ g) in *.
  destruct (slot_pos al N _ _ _ _ I0 HN H16 Hs) as (Hpos & Hne & Hmax). rewrite Hh, (proj2 (Z.eqb_neq _ _) Hne).
  pose proof (elem_region _ g (al, x) e I0 Hs) as HR. simpl in HR. rewrite HN in HR. pose proof HR as [_ _ B8 N8 _ _].
  wbind. apply wp_sdt. unfold data_urcu_link. replace (e + N - 16 + 8) with (e + N - 8) by lia.
  apply wp_ld; [eapply mapped_in; [exact HR|lia|lia|off]|]. wstep. wstep.
  assert (with_urcu (set_head side (word (st_mem (sg_sdt σ)) (e + N - 8))) (with_sdt (sg_sdt σ) σ) =
    with_urcu (set_head side (word (st_mem (sg_sdt σ)) (e + N - 8))) σ) as -> by (by destruct σ).
  assert (with_urcu (set_head side (word (st_mem (sg_sdt σ)) (e + N - 8))) σ = unlinked side σ) as Eun
    by (unfold unlinked, data_urcu_link; rewrite Hh; by replace (e + N - 16 + 8) with (e + N - 8) by lia).
  rewrite Eun in *. set (σ1 := unlinked side σ) in *.
  assert (evolve (owned W g0) (held W g0) (sg_sdt σ0) g0 (sg_sdt σ1) g1) as E01.
  { eapply evolve_trans; [exact E|]. eapply evolve_mono, E1; [|done]. intros h Hh' ->. apply (evolve_owned _ _ _ _ _ _ _ E) in Hh' as (o & fl & Ho & Hu').
    rewrite Hu in Hu'. injection Hu' as <- <-. apply Hthreads in Ho. apply shared_rcu, shared_neg in Hside. lia. }
  destruct (Henv n σ1 g1 _ HI1) as (g2 & q2 & HI2 & E2). pose proof (quiet_list _ _ _ _ _ _ l HI1 (upd_q_eq _ _ _) HI2 (Hgrace n σ1) E2) as Hq2.
  assert (evolve (owned W g1) (held W g1) (sg_sdt σ1) g1 (sg_sdt (env n σ1)) g2) as E2'.
  { eapply evolve_mono, E2; [intros h (o & fl & Ho & Hu')|intros b (o & k & Ho & Hb)]; eexists _, _; eauto. }
  pose proof (evolve_me_trans _ _ _ _ _ _ _ E01 E2') as E02.
  assert (g_used g1 !! (al, x) = Some (me, false)) as Hu1 by (unfold g1; simpl; by rewrite lookup_insert_eq).
  assert (g_slot g1 !! (al, x) = Some e) as Hs1 by done.
  destruct (evolve_index _ _ _ _ _ _ _ _ _ E2' HW Hu1) as [Hu2 Hs2]. rewrite Hs1 in Hs2. set (σ2 := env n σ1) in *.
  pose proof (si_inv _ _ _ _ _ HI2) as I2. pose proof (si_size _ _ _ _ _ HI2) as HN2.
  destruct (iv_content _ _ I2 _ _ _ (elem_own _ g2 (al, x) e I2 Hs2)) as [_ HB]. unfold is_live in HB. rewrite Hu2 in HB. simpl in HB. rewrite HN2 in HB.
  pose proof (elem_region _ g2 (al, x) e I2 Hs2) as HR2. simpl in HR2. rewrite HN2 in HR2. destruct (used_nodes _ g2 _ _ I2 Hu2) as (Hok & _).
  wbind. apply wp_sdt. unfold data_tid. apply wp_ld; [eapply mapped_in; [exact HR2|lia|lia|off]|]. rewrite HB.
  rewrite u64_small by (unfold idx_ok, is_u64, two64 in *; simpl in *; lia). assert (with_sdt (sg_sdt σ2) σ2 = σ2) as -> by (by destruct σ2).
  wbind. apply wp_sdt. eapply wp_mono; [apply (free_idx_spec cl _ g2 me (al, x) false I2 Hal Hu2); simpl; by rewrite HN2|].
  intros r s3 (_ & g3 & I3 & E3 & Eu3 & Es3 & _ & _ & HF3).
  apply (wp_mono _ (λ _ σ', reclaimed n l (with_sdt s3 σ2) σ')).
  2: { intros _ σ' (g' & q' & HI' & E' & Hq' & Hret). exists g', q'. split_and!; [done..|]. cbn [take]. eapply ret_step; [|exact Hret]. by exists g2, g3. }
  eapply IH; [| |exact Hq2].
  - eapply store_step; [exact HI2|exact I3|exact E3|]. intros h'. by apply not_shared_ne.
  - eapply evolve_trans; [exact E02|]. eapply evolve_mono, E3; [|done]. intros h Hh' ->. apply (evolve_owned _ _ _ _ _ _ _ E) in Hh' as (o & fl & Ho & Hu').
    rewrite Hu in Hu'. injection Hu' as <- <-. apply Hthreads in Ho. apply shared_rcu, shared_neg in Hside. lia.
Qed.
End reclaim.
End ops.
