(* ===== verification/SdtStoreMap.v ===== *)
(** * Storage per task and per cgroup: map entries

    An object is published in a map entry and claimed from it; allocation and free
    of the storage. *)

From S2P Require Import Prelude Bitmap BitmapCorrect Bump BumpCorrect Wp SdtAlloc SdtBase SdtMem SdtPool SdtCarve SdtTree SdtMark SdtNode SdtFind SdtObject SdtCorrect SdtStore SdtStoreInv.

Section entries.
Context {V : Type} {HV : DataVal V}.
Context (al N : Z).
Implicit Types σ : storage V.

(** An entry changes together with the owner of the object in it. *)
Lemma remap σ g q x o o' p v m' :
  store_inv al N σ g q → g_used g !! (al, x) = Some (o, false) → o = omap ∨ 0 <= o → o' = omap ∨ 0 <= o' →
  m' = <[p := v]> (sg_map σ) →
  (∀ p' v', p' ≠ p → sg_map σ !! p' = Some v' → dv_data v' ≠ NULL → g_slot g !! (al, x) ≠ Some (dv_data v')) →
  (dv_data v ≠ NULL → o' = omap ∧ g_slot g !! (al, x) = Some (dv_data v)) →
  let g' := gused (<[(al, x) := (o', false)]> (g_used g)) g in
  store_inv al N (with_map (λ _, m') σ) g' q ∧ evolve (λ h, h ≠ (al, x)) (λ _, True) (sg_sdt σ) g (sg_sdt σ) g'.
Proof.
  intros HS Hu Ho Ho' -> Hoth Hv. pose proof HS as [I0 H1 HN Hm Hi Ha Hch Hq Hn]. destruct (give_inv _ _ _ _ _ o' I0 Hu) as [I' E']. cbv zeta.
  split; [|done]. split; simpl; try done.
  - intros p' v'. rewrite lookup_insert_Some. intros [[<- <-]|[Hne Hp]] Hd.
    + destruct (Hv Hd) as [-> Hs]. exists x. by rewrite lookup_insert_eq.
    + destruct (Hm p' v' Hp Hd) as (y & Hy & Hs). exists y. split; [|done]. rewrite lookup_insert_ne; [done|]. intros [= ->]. by destruct (Hoth p' v').
  - intros p1 v1 p2 v2. rewrite !lookup_insert_Some. intros [[<- <-]|[Hne1 Hp1]] [[<- <-]|[Hne2 Hp2]] E Hd; [done|..|by eapply Hi].
    + destruct (Hv Hd) as [_ Hs]. rewrite E in Hs. by destruct (Hoth p2 v2 ltac:(done) Hp2 ltac:(congruence)).
    + rewrite E in Hd. destruct (Hv Hd) as [_ Hs]. rewrite <-E in Hs, Hd. by destruct (Hoth p1 v1 ltac:(done) Hp1 Hd).
  - intros i Hsi. apply chain_gused. by apply Hch.
  - intros i y Hsi Hy. rewrite lookup_insert_ne; [by apply Hq|]. intros [= <-]. pose proof (Hq i x Hsi Hy) as Hu'. rewrite Hu in Hu'.
    injection Hu' as ->. unfold orcu, omap, is_side in *. lia.
Qed.

Lemma claim_inv σ g q me p v :
  store_inv al N σ g q → 0 <= me → sg_map σ !! p = Some v → dv_data v ≠ NULL →
  ∃ x, g_used g !! (al, x) = Some (omap, false) ∧ g_slot g !! (al, x) = Some (dv_data v) ∧
    let g' := gused (<[(al, x) := (me, false)]> (g_used g)) g in
    store_inv al N (with_map <[p := dv_set 0 v]> σ) g' q ∧ evolve (λ h, h ≠ (al, x)) (λ _, True) (sg_sdt σ) g (sg_sdt σ) g'.
Proof.
  intros HS Hme Hp Hd. destruct (si_map _ _ _ _ _ HS p v Hp Hd) as (x & Hu & Hs). exists x. split_and!; [done..|].
  eapply (remap σ g q x omap me p (dv_set 0 v)); [done|done|by left|by right|done| |].
  - intros p' v' Hne Hp' Hd' E. apply Hne. eapply (si_inj _ _ _ _ _ HS); [done|done| |done]. congruence.
  - by rewrite dv_data_set.
Qed.

Lemma publish_inv σ g q me x p v v' :
  store_inv al N σ g q → 0 <= me → g_used g !! (al, x) = Some (me, false) → sg_map σ !! p = Some v →
  g_slot g !! (al, x) = Some (dv_data v') → 
  let g' := gused (<[(al, x) := (omap, false)]> (g_used g)) g in
  store_inv al N (with_map <[p := v']> σ) g' q ∧ evolve (λ h, h ≠ (al, x)) (λ _, True) (sg_sdt σ) g (sg_sdt σ) g'.
Proof.
  intros HS Hme Hu Hp Hs. eapply (remap σ g q x me omap p v'); [done|done|by right|by left|done| |done].
  intros p' v1 Hne Hp' Hd' E. destruct (si_map _ _ _ _ _ HS p' v1 Hp' Hd') as (y & Hy & Hsy).
  assert (y = x) as -> by (eapply obj_slot_inj; [apply (si_inv _ _ _ _ _ HS)|done|done]). rewrite Hu in Hy. injection Hy as ->. unfold omap in Hme. lia.
Qed.

(** A new entry is empty. *)
Lemma entry_create_spec room p σ g q :
  store_inv al N σ g q →
  wp (storage_create room p) (λ ok σ', store_inv al N σ' g q ∧ sg_sdt σ' = sg_sdt σ ∧
    if ok then ∃ v, sg_map σ' !! p = Some v ∧ (sg_map σ !! p = Some v ∨ sg_map σ !! p = None ∧ dv_data v = NULL) else σ' = σ) σ.
Proof.
  intros HS. unfold storage_create, storage_get. wstep. destruct (sg_map σ !! p) as [v|] eqn:Hp; [apply wp_ret; split_and!; [done|done|exists v; auto]|].
  destruct room; [|by apply wp_ret]. wstep. apply wp_ret. simpl. split_and!; [|done|exists dv_zero; rewrite lookup_insert_eq; split; [done|]; right; split; [done|apply dv_data_zero]].
  destruct HS as [I0 H1 HN Hm Hi Ha Hch Hq Hn]. split; simpl; try done.
  - intros p' v'. rewrite lookup_insert_Some. intros [[<- <-]|[Hne Hp']]; [by rewrite dv_data_zero|by apply (Hm p')].
  - intros p1 v1 p2 v2. rewrite !lookup_insert_Some. intros [[<- <-]|[Hne1 Hp1]] [[<- <-]|[Hne2 Hp2]] E Hd; [done|..|by eapply Hi].
    + by rewrite dv_data_zero in Hd.
    + by rewrite E, dv_data_zero in Hd.
Qed.

(** ** Free *)
Section free.
Context (W : Z → Prop) (me : Z) (env : storage V → storage V) (cl : nat).
Hypothesis Hthreads : ∀ o, W o → 0 <= o.
Hypothesis HW : W me.
Hypothesis Henv : senv_ok al N W env.
Hypothesis Hal : al ≠ NULL.
Hypothesis Hcl : ((Z.to_nat (N - 16)) / 8 <= cl)%nat.

(** The invariant holds, and the threads of [W] have what they had. *)
Definition kept (σ : storage V) (g : ghost) (σ' : storage V) : Prop :=
  ∃ g' q', store_inv al N σ' g' q' ∧ evolve (owned W g) (held W g) (sg_sdt σ) g (sg_sdt σ') g'.

Lemma omap_not_owned g x : g_used g !! (al, x) = Some (omap, false) → ¬ owned W g (al, x).
Proof. intros Hu (o & fl & Ho & Hu'). rewrite Hu in Hu'. injection Hu' as <- <-. apply Hthreads in Ho. unfold omap in Ho. lia. Qed.

Lemma wp_sdt_free σ g q x e (Q : Z → storage V → Prop) :
  store_inv al N σ g q → g_used g !! (al, x) = Some (me, false) → g_slot g !! (al, x) = Some e →
  (∀ s' g', inv s' g' → evolve (λ h', h' ≠ (al, x)) (λ _, True) (sg_sdt σ) g s' g' → store_inv al N (with_sdt s' σ) g' q →
     g_used g' = delete (al, x) (g_used g) → freed (sg_sdt σ) g (al, x) s' → Q 0 (with_sdt s' σ)) →
  wp (sdt (sdt_free cl al e)) Q σ.
Proof.
  intros HI Hu Hs HQ. pose proof (si_inv _ _ _ _ _ HI) as I0. pose proof (si_size _ _ _ _ _ HI) as HN. pose proof (store_N _ _ _ _ _ HI) as H16.
  destruct (si_al _ _ _ _ _ HI) as [n1 H1]. destruct (root_alloc _ g al n1 I0 H1) as (a & Ha & _).
  destruct (sdt_tailer_at _ g (al, x) e a I0 Hs Ha) as [_ Et]. simpl in Et. rewrite HN in Et.
  destruct (iv_content _ _ I0 _ _ _ (elem_own _ g (al, x) e I0 Hs)) as [_ HB]. unfold is_live in HB. rewrite Hu in HB. simpl in HB. rewrite HN in HB.
  pose proof (elem_region _ g (al, x) e I0 Hs) as HR. simpl in HR. rewrite HN in HR. pose proof HR as [_ _ B8 N8 _ _]. destruct (used_nodes _ g _ _ I0 Hu) as (Hok & _).
  apply wp_sdt. unfold sdt_free, data_tid. wbind. eapply wp_get_alloc; [done|]. rewrite Et. wbind. apply wp_ld; [eapply mapped_in; [exact HR|lia|lia|off]|].
  rewrite HB, u64_small by (unfold idx_ok, is_u64, two64 in *; simpl in *; lia).
  eapply wp_mono; [apply (free_idx_spec cl _ g me (al, x) false I0 Hal Hu); simpl; by rewrite HN|].
  intros r s3 (-> & g3 & I3 & E3 & Eu & _ & _ & _ & HF). eapply HQ; [exact I3|exact E3| |done|done]. eapply store_step; [exact HI|exact I3|exact E3|].
  intros h'. by eapply not_shared_ne.
Qed.

(** Claiming the object of an entry, with interference after it. *)
Lemma wp_claim p σ g q (Q : unit → storage V → Prop) (K : Z → ST (storage V) unit) :
  store_inv al N σ g q →
  (from_option dv_data NULL (sg_map σ !! p) = NULL → Q tt σ) →
  (∀ σ' g' q' x e, from_option dv_data NULL (sg_map σ !! p) ≠ NULL → store_inv al N σ' g' q' → evolve (λ h, owned W g h ∧ h ≠ (al, x)) (held W g) (sg_sdt σ) g (sg_sdt σ') g' →
     g_used g' !! (al, x) = Some (me, false) → g_slot g' !! (al, x) = Some e → ¬ owned W g (al, x) → wp (K e) Q σ') →
  wp (v ← storage_get p;
      match v with
      | None => mret tt
      | Some _ => data ← xchg_data p; if data =? NULL then mret tt else modifies env;; K data
      end) Q σ.
Proof.
  intros HI H0 HK. unfold storage_get. wstep. destruct (sg_map σ !! p) as [v|] eqn:Hp; [|by apply wp_ret, H0].
  unfold xchg_data, storage_get. wbind. wstep. rewrite Hp. wstep. wstep. destruct (Z.eqb_spec (dv_data v) NULL) as [Hd|Hd].
  - apply wp_ret. replace (with_map <[p := dv_set NULL v]> σ) with σ; [by apply H0|]. rewrite <-Hd, dv_set_data. destruct σ. unfold with_map. simpl in *. by rewrite insert_id.
  - destruct (claim_inv σ g q me p v HI (Hthreads me HW) Hp Hd) as (x & Hu & Hs & HI1 & E1). wstep.
    assert (since_but al N W (al, x) σ g (with_map <[p := dv_set 0 v]> σ) (gused (<[(al, x) := (me, false)]> (g_used g)) g) q) as S1.
    { eapply since_but_step; [by apply since_but_refl|exact HI1|exact E1|done|done]. }
    destruct (since_but_env al N W _ _ _ _ _ _ env Henv S1) as (g2 & q2 & S2 & E2).
    destruct (evolve_index _ _ _ _ _ _ (al, x) me false E2 HW) as [Hu2 Hs2]; [simpl; by rewrite lookup_insert_eq|]. simpl in Hs2.
    eapply HK; [done|apply S2|apply S2|done|by rewrite Hs2|by apply omap_not_owned].
Qed.

Lemma but_evolve σ g h σ' g' Vp :
  ¬ owned W g h → evolve (λ h', owned W g h' ∧ h' ≠ h) Vp (sg_sdt σ) g (sg_sdt σ') g' → evolve (owned W g) Vp (sg_sdt σ) g (sg_sdt σ') g'.
Proof. intros Hn E. eapply evolve_mono, E; [|done]. intros h' Ho. split; [done|]. by intros ->. Qed.

(** The object of an entry is freed once; an empty entry is left alone. *)
Lemma storage_free_spec p σ g q :
  store_inv al N σ g q →
  wp (storage_free env cl al p) (λ _ σ', kept σ g σ' ∧ (from_option dv_data NULL (sg_map σ !! p) = NULL → σ' = σ)) σ.
Proof.
  intros HI. apply (wp_claim p σ g q _ (λ data, sdt (sdt_free cl al data);; mret tt) HI).
  - intros _. split; [|done]. exists g, q. split; [done|apply evolve_refl].
  - intros σ1 g1 q1 x e Hd HI1 E1 Hu Hs Hn. wbind. eapply (wp_sdt_free σ1 g1 q1 x e); [done..|]. intros s' g' I' E' HI' _ _. apply wp_ret.
    split; [|done]. exists g', q1. split; [done|]. apply but_evolve in E1; [|done]. eapply evolve_trans; [exact E1|]. eapply evolve_mono, E'; [|done].
    intros h Ho ->. done.
Qed.

(** The deferred free: the object is on a list, or the tries of the push are spent. *)
Lemma storage_free_rcu_spec tries uenv ring p σ g q :
  (∀ i, senv_ok al N W (uenv i)) → store_inv al N σ g q →
  wp (storage_free_rcu env tries uenv ring al p) (λ _ σ', kept σ g σ' ∧ (from_option dv_data NULL (sg_map σ !! p) = NULL → σ' = σ)) σ.
Proof.
  intros Hu HI. apply (wp_claim p σ g q _ (λ data, scx_urcu_free tries uenv ring al data;; mret tt) HI).
  - intros _. split; [|done]. exists g, q. split; [done|apply evolve_refl].
  - intros σ1 g1 q1 x e Hd HI1 E1 Hu1 Hs1 Hn. wuse (urcu_free_spec al N W me Hthreads HW tries uenv ring x e σ1 g1 q1 Hu HI1 Hu1 Hs1).
    intros r σ2 (_ & k & g2 & q2 & [HI2 E2] & _). apply wp_ret. split; [|done]. exists g2, q2. split; [done|]. apply but_evolve in E1; [|done].
    eapply evolve_trans; [exact E1|]. eapply evolve_mono, E2.
    + intros h Ho. split; [by eapply evolve_owned|]. intros ->. done.
    + intros b. by eapply evolve_held.
Qed.
End free.

(** ** Allocation for an entry *)
Section alloc.
Context (W : Z → Prop) (me : Z) (aenv : alloc_env) (pss : nat → kernel) (ps : kernel) (cl : nat).
Hypothesis Hthreads : ∀ o, W o → 0 <= o.
Hypothesis HW : W me.
Hypothesis Haenv : alloc_env_ok (λ o, W o ∨ shared o) aenv.
Hypothesis Hpss : ∀ i, kernel_ok (pss i).
Hypothesis Hps : kernel_ok ps.
Hypothesis Hal : al ≠ NULL.
Hypothesis Hcl : ((Z.to_nat (N - 16)) / 8 <= cl)%nat.

(** A call of the allocator leaves the storage as it is. *)
Lemma storage_alloc_spec σ0 g0 σ g q :
  store_inv al N σ g q → evolve (owned W g0) (held W g0) (sg_sdt σ0) g0 (sg_sdt σ) g →
  wp (sdt (scx_alloc_internal aenv pss ps cl al)) (λ r σ', ∃ g', store_inv al N σ' g' q ∧ evolve (owned W g0) (held W g0) (sg_sdt σ0) g0 (sg_sdt σ') g' ∧
    sg_map σ' = sg_map σ ∧ (r = NULL ∨ ∃ x, ¬ owned W g0 (al, x) ∧ granted me al x r (sg_sdt σ') g')) σ.
Proof.
  intros HI E. pose proof (si_inv _ _ _ _ _ HI) as I0. apply wp_sdt.
  eapply wp_mono; [apply (alloc_spec (λ o, W o ∨ shared o) me aenv pss ps cl al (sg_sdt σ) g); [by left|done|done|done|done|done|apply (si_al _ _ _ _ _ HI)|]|].
  { unfold enough. by rewrite (si_size _ _ _ _ _ HI). }
  intros r s' (g' & [I' E'] & HR). exists g'. split_and!.
  - eapply store_step; [exact HI|exact I'|exact E'|]. intros h (o & fl & Ho & Hu). exists o, fl. auto.
  - eapply evolve_me_trans; [exact E|]. eapply evolve_mono, E'; [intros h (o & fl & Ho & Hu); exists o, fl|intros b (o & k & Ho & Hb); exists o, k]; auto.
  - done.
  - destruct HR as [->|(x & Hn & HG)]; [by left|right]. exists x. split; [|done]. intros Ho. apply Hn.
    apply (evolve_owned _ _ _ _ _ _ _ E) in Ho as (o & fl & Ho & Hu). exists o, fl. auto.
Qed.
End alloc.
End entries.


(** ** Tasks and cgroups *)
Section alloc_ops.
Context (al N : Z) (W : Z → Prop) (me : Z) (aenv : alloc_env) (pss : nat → kernel) (ps : kernel) (cl : nat).
Hypothesis Hthreads : ∀ o, W o → 0 <= o.
Hypothesis HW : W me.
Hypothesis Haenv : alloc_env_ok (λ o, W o ∨ shared o) aenv.
Hypothesis Hpss : ∀ i, kernel_ok (pss i).
Hypothesis Hps : kernel_ok ps.
Hypothesis Hal : al ≠ NULL.
Hypothesis Hcl : ((Z.to_nat (N - 16)) / 8 <= cl)%nat.

Lemma kept_refl {V} {HV : DataVal V} σ g q : store_inv (V := V) al N σ g q → kept al N W σ g σ.
Proof. intros H. exists g, q. split; [done|apply evolve_refl]. Qed.

(** Racing allocations: every caller gets the object that is in the entry. *)
Lemma cgrp_alloc_spec room env1 env2 env3 p σ g q :
  senv_ok al N W env1 → senv_ok al N W env2 → senv_ok al N W env3 →
  (∀ σ, is_Some (sg_map σ !! p) → is_Some (sg_map (env1 σ) !! p)) → (∀ σ, is_Some (sg_map σ !! p) → is_Some (sg_map (env2 σ) !! p)) →
  (∀ σ, sg_map (env3 σ) !! p = sg_map σ !! p) → store_inv al N σ g q →
  wp (scx_cgrp_alloc room env1 env2 env3 aenv pss ps cl al p) (λ r σ', kept al N W σ g σ' ∧
    (r = NULL ∨ ∃ v, sg_map σ' !! p = Some v ∧ cv_data v = r)) σ.
Proof.
  intros He1 He2 He3 Hp1 Hp2 Hp3 HI. unfold scx_cgrp_alloc. wuse (entry_create_spec al N room p σ g q HI). intros ok σ1 (HI1 & Es1 & Hok).
  assert (evolve (owned W g) (held W g) (sg_sdt σ) g (sg_sdt σ1) g) as E1 by (rewrite Es1; apply evolve_refl).
  destruct ok; cbn [negb]; [|subst σ1; apply wp_ret; split; [by eapply kept_refl|by left]]. destruct Hok as (v & Hv & _).
  unfold storage_data. wstep. rewrite Hv. cbn [from_option]. destruct (Z.eqb_spec (dv_data v) NULL) as [Ed|Ed]; cbn [negb].
  2: { apply wp_ret. split; [exists g, q; split; done|right; by exists v]. }
  wstep. destruct (He1 _ _ _ HI1) as (g2 & q2 & HI2 & E2). pose proof (evolve_me_trans _ _ _ _ _ _ _ E1 E2) as E02.
  wuse (storage_alloc_spec al N W me aenv pss ps cl HW Haenv Hpss Hps Hal Hcl σ g (env1 σ1) g2 q2 HI2 E02).
  intros r σ3 (g3 & HI3 & E3 & Em3 & HR). destruct HR as [->|(x & Hn & HG)].
  { simpl. apply wp_ret. split; [exists g3, q2; done|by left]. }
  pose proof (gt_used _ _ _ _ _ _ HG) as Hu3. pose proof (gt_slot _ _ _ _ _ _ HG) as Hs3.
  destruct (region_u64 _ _ _ _ _ _ (iv_layout _ _ (si_inv _ _ _ _ _ HI3)) (elem_own _ _ _ _ (si_inv _ _ _ _ _ HI3) Hs3)) as [_ Hr0].
  rewrite (proj2 (Z.eqb_neq r 0)) by done. wstep. destruct (He2 _ _ _ HI3) as (g4 & q4 & HI4 & E4). pose proof (evolve_me_trans _ _ _ _ _ _ _ E3 E4) as E04.
  destruct (evolve_index _ _ _ _ _ _ _ _ _ E4 HW Hu3) as [Hu4 Hs4]. rewrite Hs3 in Hs4.
  destruct (Hp2 σ3) as [v4 Hv4]; [rewrite Em3; by apply Hp1|]. set (σ4 := env2 σ3) in *. clearbody σ4.
  unfold storage_data. wstep. rewrite Hv4. cbn [from_option]. destruct (Z.eqb_spec (dv_data v4) NULL) as [Ed4|Ed4]; cbn [negb].
  - wstep. wstep. apply wp_ret. destruct (publish_inv al N σ4 g4 q4 me x p v4 (CgrpVal p r) HI4 (Hthreads me HW) Hu4 Hv4 Hs4) as [HI5 E5].
    assert (∀ f, with_map (alter (λ v, CgrpVal p (cv_data v)) p) (with_map (alter f p) σ4) = with_map (alter (λ v, CgrpVal p (cv_data (f v))) p) σ4) as ->.
    { intros f. unfold with_map. simpl. f_equal. apply map_eq. intros k. destruct (decide (k = p)) as [->|]; [rewrite !lookup_alter_eq, Hv4|rewrite !lookup_alter_ne by done]; done. }
    assert (with_map (alter (λ v, CgrpVal p (cv_data (dv_set r v))) p) σ4 = with_map <[p := CgrpVal p r]> σ4) as ->.
    { unfold with_map. f_equal. by rewrite (alter_known _ p v4). }
    split; [|right; exists (CgrpVal p r); simpl; by rewrite lookup_insert_eq]. eexists _, _. split; [exact HI5|]. eapply evolve_trans; [exact E04|].
    eapply evolve_mono, E5; [|done]. intros h Ho ->. done.
  - wstep. destruct (He3 _ _ _ HI4) as (g5 & q5 & HI5 & E5). pose proof (evolve_me_trans _ _ _ _ _ _ _ E04 E5) as E05.
    destruct (evolve_index _ _ _ _ _ _ _ _ _ E5 HW Hu4) as [Hu5 Hs5]. rewrite Hs4 in Hs5.
    wbind. eapply (wp_sdt_free al N W me cl Hthreads HW Hal Hcl _ g5 q5 x r); [done..|]. intros s' g' I' E' HI' _ _. apply wp_ret.
    split; [|right; exists v4; simpl; by rewrite Hp3]. exists g', q5. split; [done|]. eapply evolve_trans; [exact E05|]. eapply evolve_mono, E'; [|done].
    intros h Ho ->. done.
Qed.

(** The entry of a task without an object gets one. *)
Lemma task_alloc_spec room env1 env2 p σ g q :
  senv_ok al N W env1 → senv_ok al N W env2 →
  (∀ σ, sg_map (env1 σ) !! p = sg_map σ !! p) → (∀ σ, sg_map (env2 σ) !! p = sg_map σ !! p) → store_inv al N σ g q →
  wp (scx_task_alloc room env1 env2 aenv pss ps cl al p) (λ r σ', kept al N W σ g σ' ∧
    (r = NULL ∨ ∃ tid, sg_map σ' !! p = Some (TaskVal tid p r) ∧
      tid = word (st_mem (sg_sdt σ')) (r + N - 16) ∧ zeroed (st_mem (sg_sdt σ')) r (N - 16))) σ.
Proof.
  intros He1 He2 Hp1 Hp2 HI. unfold scx_task_alloc. wuse (entry_create_spec al N room p σ g q HI). intros ok σ1 (HI1 & Es1 & Hok).
  assert (evolve (owned W g) (held W g) (sg_sdt σ) g (sg_sdt σ1) g) as E1 by (rewrite Es1; apply evolve_refl).
  destruct ok; cbn [negb]; [|subst σ1; apply wp_ret; split; [by eapply kept_refl|by left]]. destruct Hok as (v & Hv & _).
  wstep. destruct (He1 _ _ _ HI1) as (g2 & q2 & HI2 & E2). pose proof (evolve_me_trans _ _ _ _ _ _ _ E1 E2) as E02.
  wuse (storage_alloc_spec al N W me aenv pss ps cl HW Haenv Hpss Hps Hal Hcl σ g (env1 σ1) g2 q2 HI2 E02).
  intros r σ3 (g3 & HI3 & E3 & Em3 & HR). destruct HR as [->|(x & Hn & HG)].
  { simpl. apply wp_ret. split; [exists g3, q2; done|by left]. }
  pose proof (gt_used _ _ _ _ _ _ HG) as Hu3. pose proof (gt_slot _ _ _ _ _ _ HG) as Hs3. pose proof (si_inv _ _ _ _ _ HI3) as I3. pose proof (si_size _ _ _ _ _ HI3) as HN3.
  destruct (region_u64 _ _ _ _ _ _ (iv_layout _ _ I3) (elem_own _ _ _ _ I3 Hs3)) as [_ Hr0].
  rewrite (proj2 (Z.eqb_neq r 0)) by done. wstep. destruct (He2 _ _ _ HI3) as (g4 & q4 & HI4 & E4). pose proof (evolve_me_trans _ _ _ _ _ _ _ E3 E4) as E04.
  destruct (evolve_index _ _ _ _ _ _ _ _ _ E4 HW Hu3) as [Hu4 Hs4]. rewrite Hs3 in Hs4.
  assert (sg_map (env2 σ3) !! p = Some v) as Hv4 by (by rewrite Hp2, Em3, Hp1). pose proof (store_N _ _ _ _ _ HI3) as H16.
  assert (zeroed (st_mem (sg_sdt (env2 σ3))) r (N - 16)) as Hz.
  { intros b Hb. rewrite (evolve_word W me HW σ3 (env2 σ3) g3 g4 (al, x) r b I3 E4 Hu3 Hs3); [|simpl; rewrite HN3; lia]. apply (gt_zero _ _ _ _ _ _ HG). by rewrite HN3. }
  set (σ4 := env2 σ3) in *. clearbody σ4. pose proof (si_inv _ _ _ _ _ HI4) as I4. pose proof (si_size _ _ _ _ _ HI4) as HN4. destruct (si_al _ _ _ _ _ HI4) as [n1 H1].
  destruct (root_alloc _ g4 al n1 I4 H1) as (a & Ha & _). destruct (sdt_tailer_at _ g4 (al, x) r a I4 Hs4 Ha) as [_ Et]. simpl in Et. rewrite HN4 in Et.
  pose proof (elem_region _ g4 (al, x) r I4 Hs4) as HR. simpl in HR. rewrite HN4 in HR. pose proof HR as [_ _ B8 N8 _ _].
  wbind. apply wp_sdt. eapply wp_get_alloc; [done|]. assert (with_sdt (sg_sdt σ4) σ4 = σ4) as -> by (by destruct σ4). rewrite Et.
  wbind. apply wp_sdt. unfold data_tid. apply wp_ld; [eapply mapped_in; [exact HR|lia|lia|off]|]. assert (with_sdt (sg_sdt σ4) σ4 = σ4) as -> by (by destruct σ4).
  set (tid := word _ _). wstep. apply wp_ret. assert (with_map (alter (λ _, TaskVal tid p r) p) σ4 = with_map <[p := TaskVal tid p r]> σ4) as ->.
  { unfold with_map. f_equal. by rewrite (alter_known _ p v). }
  destruct (publish_inv al N σ4 g4 q4 me x p v (TaskVal tid p r) HI4 (Hthreads me HW) Hu4 Hv4 Hs4) as [HI5 E5].
  split; [|right; exists tid; simpl; by rewrite lookup_insert_eq]. eexists _, _. split; [exact HI5|]. eapply evolve_trans; [exact E04|].
  eapply evolve_mono, E5; [|done]. intros h Ho ->. done.
Qed.
End alloc_ops.
