(* ===== verification/SdtStoreClaims.v ===== *)
(** * Storage per task and per cgroup: theorems

    [scx_urcu_free] and [scx_urcu_reclaim], and allocation and free for tasks and cgroups, under
    interference of other CPUs, with a concrete storage. *)

From S2P Require Import Prelude Bitmap BitmapCorrect Bump BumpCorrect Wp SdtAlloc SdtBase SdtMem SdtPool SdtCarve SdtTree SdtMark SdtNode SdtFind SdtObject SdtCorrect SdtInit SdtClaims SdtStore SdtStoreInv SdtStoreMap.

(** ** A concrete storage *)
Definition threads : Z → Prop := λ o, 0 <= o.
Definition still {V} : storage V → storage V := λ σ, σ.

Lemma still_ok {V} {HV : DataVal V} al N W : senv_ok (V := V) al N W still.
Proof. intros σ g q H. exists g, q. split; [done|apply evolve_refl]. Qed.

(** An empty storage on an allocator that is set up. *)
Lemma empty_store {V} {HV : DataVal V} al s g b :
  inv s g → is_Some (g_nd g !! [al]) → store_inv (V := V) al (esize (st_allocs s) al) (Storage s (ScxUrcu 0 0 0) ∅ b) g (λ _, []).
Proof.
  intros I2 H1. split; simpl; try done; [by left|by intros i [->| ->]|by intros i x _ ?%not_elem_of_nil|constructor].
Qed.

(** No task has an object yet; thread 7 has one. *)
Definition store2 : storage scx_task_map_val := Storage sys2 (ScxUrcu 0 0 0) ∅ 0.

Lemma store2_ok : ∃ g x, store_inv 1 24 store2 g (λ _, []) ∧ g_used g !! (1, x) = Some (7, false) ∧ g_slot g !! (1, x) = Some obj1.
Proof.
  destruct sys2_ok as (g & x & I2 & HG & H1 & Es). exists g, x. split; [|split; [exact (gt_used _ _ _ _ _ _ HG)|exact (gt_slot _ _ _ _ _ _ HG)]].
  rewrite <-Es. exact (empty_store 1 sys2 g 0 I2 H1).
Qed.

Lemma enough_24 : ((Z.to_nat (24 - 16)) / 8 <= 8)%nat.
Proof. vm_compute. lia. Qed.

(** ** Theorems *)

Lemma urcu_free_run {V} {HV : DataVal V} al N W me tries env ring x e (σ : storage V) g q :
  (∀ o, W o → 0 <= o) → W me → (∀ i, senv_ok al N W (env i)) → store_inv al N σ g q →
  g_used g !! (al, x) = Some (me, false) → g_slot g !! (al, x) = Some e →
  let side := Z.land (ur_active (sg_urcu σ)) 1 in let data := e + N - 16 in let σ1 := env tries σ in
  ∃ r σ' k g' q', scx_urcu_free tries env ring al e σ = Some (r, σ') ∧ since_but al N W (al, x) σ g σ' g' q' ∧ g_slot g' !! (al, x) = Some e ∧
    (∀ j, (j < k)%nat → moved env data side tries σ1 j) ∧
    if r then (k < tries)%nat ∧ ¬ moved env data side tries σ1 k ∧ let σ2 := attempts env data side tries (S k) σ1 in σ' = published ring data side σ2 ∧
      ∃ g2 q2, store_inv al N σ2 g2 q2 ∧ q' side = x :: q2 side ∧ ∀ i, i ≠ side → q' i = q2 i
    else k = tries ∧ σ' = attempts env data side tries k σ1 ∧ g_used g' !! (al, x) = Some (me, false).
Proof.
  intros Ht HW He HI Hu Hs side data σ1. pose proof (urcu_free_spec al N W me Ht HW tries env ring x e σ g q He HI Hu Hs) as H.
  apply wp_run in H as (r & σ' & E & _ & k & g' & q' & HP). by exists r, σ', k, g', q'.
Qed.

(** C32: [scx_urcu_free] of an object of the caller, with any interference that leaves alone
    what belongs to the threads of [W].  An attempt links the object to the head it reads; it fails exactly when others change the head before the compare-and-swap.  At the first
    attempt that does not fail, the head of the list becomes the object and the doorbell rings if the list was empty; nothing else is stored: the list is the object in front of the
    list of that moment, and the other list is what it was.  When all [tries] attempts fail, nothing but the link was stored and the caller still has the
    object.  The invariant of the storage and what the threads of [W] have otherwise are kept. *)
Theorem urcu_free_pushes {V} {HV : DataVal V} al N W me tries env ring x e (σ : storage V) g q :
  (∀ o, W o → 0 <= o) → W me → (∀ i, senv_ok al N W (env i)) → store_inv al N σ g q →
  g_used g !! (al, x) = Some (me, false) → g_slot g !! (al, x) = Some e →
  let side := Z.land (ur_active (sg_urcu σ)) 1 in let data := e + N - 16 in let σ1 := env tries σ in
  ∃ r σ' g' q' k, scx_urcu_free tries env ring al e σ = Some (r, σ') ∧ store_inv al N σ' g' q' ∧
    evolve (λ h, owned W g h ∧ h ≠ (al, x)) (held W g) (sg_sdt σ) g (sg_sdt σ') g' ∧ g_slot g' !! (al, x) = Some e ∧
    (∀ j, (j < k)%nat → moved env data side tries σ1 j) ∧
    if r then (k < tries)%nat ∧ ¬ moved env data side tries σ1 k ∧ let σ2 := attempts env data side tries (S k) σ1 in σ' = published ring data side σ2 ∧
      ∃ g2 q2, store_inv al N σ2 g2 q2 ∧ q' side = x :: q2 side ∧ ∀ i, i ≠ side → q' i = q2 i
    else k = tries ∧ σ' = attempts env data side tries k σ1 ∧ g_used g' !! (al, x) = Some (me, false).
Proof.
  intros Ht HW He HI Hu Hs. destruct (urcu_free_run al N W me tries env ring x e σ g q Ht HW He HI Hu Hs) as (r & σ' & k & g' & q' & E & [HI' E'] & HP).
  by exists r, σ', g', q', k.
Qed.

Lemma urcu_free_pushes_witness : ∃ g q σ' g' q' x, store_inv 1 24 store2 g q ∧ scx_urcu_free 3 (λ _, still) true 1 obj1 store2 = Some (true, σ') ∧
  store_inv 1 24 σ' g' q' ∧ ∃ q2, q' 0 = x :: q2 ∧ sg_bell σ' = 1.
Proof.
  destruct store2_ok as (g & x & HI & Hu & Hs).
  destruct (urcu_free_pushes 1 24 threads 7 3 (λ _, still) true x obj1 store2 g (λ _, []) (λ _ H, H) ltac:(unfold threads; lia) (λ _, still_ok _ _ _) HI Hu Hs)
    as (r & σ' & g' & q' & k & E & HI' & _ & _ & _ & HR).
  assert (r = true) as -> by (vm_compute in E; by injection E as <- _). destruct HR as (_ & _ & _ & g2 & q2 & _ & Eq & _).
  exists g, (λ _, []), σ', g', q', x. split; [exact HI|]. split; [exact E|]. split; [exact HI'|]. exists (q2 0). split; [exact Eq|].
  vm_compute in E. by injection E as <-.
Defined.

Lemma store_active {V} {HV : DataVal V} al N side (σ : storage V) g q : is_side side → store_inv al N σ g q → store_inv al N (with_urcu (set_active side) σ) g q.
Proof. intros Hs []. by split. Qed.

(** One object waits on a list that is not active any more. *)
Definition store3 : storage scx_task_map_val :=
  with_urcu (set_active 1) (match scx_urcu_free 3 (λ _, still) true 1 obj1 store2 with Some (_, σ) => σ | None => store2 end).
Lemma store3_ok : ∃ g q x l, store_inv 1 24 store3 g q ∧ q 0 = x :: l.
Proof.
  destruct store2_ok as (g & x & HI & Hu & Hs).
  destruct (urcu_free_run 1 24 threads 7 3 (λ _, still) true x obj1 store2 g (λ _, []) (λ _ H, H) ltac:(unfold threads; lia) (λ _, still_ok _ _ _) HI Hu Hs)
    as (r & σ' & k & g' & q' & E & [HI' _] & _ & _ & HR). assert (r = true) as -> by (vm_compute in E; by injection E as <- _).
  destruct HR as (_ & _ & _ & g2 & q2 & _ & Eq & _). exists g', q', x, (q2 0). split; [|exact Eq]. unfold store3. rewrite E. apply store_active; [by right|exact HI'].
Qed.

(** C12: [scx_urcu_reclaim], called when nobody can push on the list that is not active any more, gives
    the first 4096 objects of that list, or all, back to the allocator, in the order of the list, each of them once: each step takes the first object off the list, lets others run, and
    frees its index, after which the index is unused and the object is blank with a higher generation.  The list that is left is exactly the rest.  The result is 1 when a rest is
    left; else it is 0 and the emptied list is the active one.  Nothing else is stored.  Other CPUs may allocate, free and push on
    the other list all the while. *)
Theorem urcu_reclaim_frees {V} {HV : DataVal V} al N W me env cl (σ : storage V) g q :
  let side := Z.land (Z.lxor (ur_active (sg_urcu σ)) 1) 1 in
  (∀ o, W o → 0 <= o) → W me → al ≠ NULL → ((Z.to_nat (N - 16)) / 8 <= cl)%nat →
  (∀ i, senv_ok al N (λ o, W o ∨ o = orcu side) (env i)) → (∀ i σ, head_of side (sg_urcu (env i σ)) = head_of side (sg_urcu σ)) →
  store_inv al N σ g q →
  ∃ r σ1 σ' g' q', scx_urcu_reclaim env cl al σ = Some (r, σ') ∧ store_inv al N σ' g' q' ∧
    evolve (owned W g) (held W g) (sg_sdt σ) g (sg_sdt σ') g' ∧ returned al me env side 4096 (take 4096 (q side)) σ σ1 ∧ q' side = drop 4096 (q side) ∧
    if decide (4096 < length (q side))%nat then r = 1 ∧ σ' = σ1 else r = 0 ∧ σ' = with_urcu (set_active side) σ1.
Proof.
  intros side Ht HW Hal Hcl He Hg HI.
  assert (is_side side) as Hside by (unfold side; destruct (si_active _ _ _ _ _ HI) as [E|E]; rewrite E; [by right|by left]).
  assert (wp (scx_urcu_reclaim env cl al) (λ r σ', ∃ σ1 g' q', store_inv al N σ' g' q' ∧ evolve (owned W g) (held W g) (sg_sdt σ) g (sg_sdt σ') g' ∧
    returned al me env side 4096 (take 4096 (q side)) σ σ1 ∧ q' side = drop 4096 (q side) ∧
    if decide (4096 < length (q side))%nat then r = 1 ∧ σ' = σ1 else r = 0 ∧ σ' = with_urcu (set_active side) σ1) σ) as Hwp;
    [|apply wp_run in Hwp as (r & σ' & E & σ1 & g' & q' & H); by exists r, σ1, σ', g', q'].
  unfold scx_urcu_reclaim. wstep. cbv zeta. fold side.
  wuse (reclaim_spec al N W me Ht HW env cl side σ g Hal Hside He Hg Hcl SCX_URCU_RECLAIM_BATCH σ g q (q side) HI (evolve_refl _ _ _ _) eq_refl).
  intros [] σ1 (g1 & q1 & HI1 & E1 & Hq1 & Hret). unfold SCX_URCU_RECLAIM_BATCH in Hq1, Hret. wstep.
  pose proof (si_chain _ _ _ _ _ HI1 side Hside) as Hc. pose proof (f_equal length Hq1) as Hlen. rewrite length_drop in Hlen. destruct (q1 side) as [|y l] eqn:Eq.
  - rewrite Hc. cbn [Z.eqb negb]. wstep. apply wp_ret. exists σ1, g1, q1. simpl in Hlen. rewrite decide_False by lia.
    split; [destruct HI1; by split|]. split; [done|]. split; [done|]. split; [congruence|done].
  - destruct Hc as (e & Hs & Hh & _). pose proof (store_N _ _ _ _ _ HI1) as H16.
    destruct (slot_pos al N _ _ _ _ (si_inv _ _ _ _ _ HI1) (si_size _ _ _ _ _ HI1) H16 Hs) as (_ & Hne & _).
    rewrite Hh, (proj2 (Z.eqb_neq _ _) Hne). cbn [negb]. apply wp_ret. exists σ1, g1, q1. simpl in Hlen. rewrite decide_True by lia.
    split; [done|]. split; [done|]. split; [done|]. split; [congruence|done].
Qed.

Lemma still_head {V} i side (σ : storage V) : head_of side (sg_urcu ((λ _ : nat, still) i σ)) = head_of side (sg_urcu σ).
Proof. done. Qed.

Lemma urcu_reclaim_frees_witness : ∃ g q x l σ1 σ', store_inv 1 24 store3 g q ∧ q 0 = x :: l ∧ scx_urcu_reclaim (λ _, still) 8 1 store3 = Some (0, σ') ∧
  returned 1 7 (λ _, still) 0 4096 (take 4096 (x :: l)) store3 σ1.
Proof.
  destruct store3_ok as (g & q & x & l & HI & Eq).
  destruct (urcu_reclaim_frees 1 24 threads 7 (λ _, still) 8 store3 g q (λ _ H, H) ltac:(unfold threads; lia) ltac:(discriminate) enough_24 (λ _, still_ok _ _ _)
    (λ i σ, still_head i _ σ) HI) as (r & σ1 & σ' & g' & q' & E & _ & _ & Hret & _).
  change (Z.land (Z.lxor (ur_active (sg_urcu store3)) 1) 1) with 0 in Hret. rewrite Eq in Hret.
  assert (r = 0) as -> by (vm_compute in E; by injection E as <- _). exists g, q, x, l, σ1, σ'. split; [exact HI|]. split; [exact Eq|]. split; [exact E|exact Hret].
Defined.

(** racing allocations for one cgroup: whatever others allocate, free or publish in
    between, a caller of [scx_cgrp_alloc] gets [NULL] or the object that is in the entry, an object that lost the race
    is freed, and the invariant and the objects of the threads of [W] are kept. *)
Theorem cgrp_alloc_race al N W me aenv pss ps cl room env1 env2 env3 p σ g q :
  (∀ o, W o → 0 <= o) → W me → alloc_env_ok (λ o, W o ∨ shared o) aenv → (∀ i, kernel_ok (pss i)) → kernel_ok ps →
  al ≠ NULL → ((Z.to_nat (N - 16)) / 8 <= cl)%nat →
  senv_ok al N W env1 → senv_ok al N W env2 → senv_ok al N W env3 →
  (∀ σ, is_Some (sg_map σ !! p) → is_Some (sg_map (env1 σ) !! p)) → (∀ σ, is_Some (sg_map σ !! p) → is_Some (sg_map (env2 σ) !! p)) →
  (∀ σ, sg_map (env3 σ) !! p = sg_map σ !! p) → store_inv al N σ g q →
  ∃ r σ' g' q', scx_cgrp_alloc room env1 env2 env3 aenv pss ps cl al p σ = Some (r, σ') ∧ store_inv al N σ' g' q' ∧
    evolve (owned W g) (held W g) (sg_sdt σ) g (sg_sdt σ') g' ∧
    (r = NULL ∨ ∃ v x, sg_map σ' !! p = Some v ∧ cv_data v = r ∧ g_used g' !! (al, x) = Some (omap, false) ∧ g_slot g' !! (al, x) = Some r).
Proof.
  intros Ht HW Ha Hpss Hps Hal Hcl He1 He2 He3 Hp1 Hp2 Hp3 HI.
  pose proof (cgrp_alloc_spec al N W me aenv pss ps cl Ht HW Ha Hpss Hps Hal Hcl room env1 env2 env3 p σ g q He1 He2 He3 Hp1 Hp2 Hp3 HI) as H.
  apply wp_run in H as (r & σ' & E & (g' & q' & HI' & E') & HR). exists r, σ', g', q'. split_and!; [done..|].
  destruct (decide (r = NULL)) as [->|Hr]; [by left|right]. destruct HR as [->|(v & Hv & Hd)]; [done|]. exists v.
  destruct (si_map _ _ _ _ _ HI' p v Hv) as (x & Hu & Hs); [by rewrite <-Hd in Hr|]. exists x. split_and!; [done..|]. by rewrite <-Hd.
Qed.

(** The race: another thread publishes its object first. *)
Definition cstore1 : storage scx_cgrp_map_val := Storage sys1 (ScxUrcu 0 0 0) ∅ 0.

Lemma cstore1_ok : ∃ g, store_inv 1 24 cstore1 g (λ _, []).
Proof. destruct sys1_ok as (g & I1 & H1 & Es). exists g. rewrite <-Es. exact (empty_store 1 sys1 g 0 I1 H1). Qed.

Lemma cgrp_alloc_race_witness : ∃ g q r σ', store_inv 1 24 cstore1 g q ∧
  scx_cgrp_alloc true still still still quiet_env (λ _, bump_kernel) bump_kernel 8 1 5 cstore1 = Some (r, σ') ∧ ∃ g' q', store_inv 1 24 σ' g' q'.
Proof.
  destruct cstore1_ok as (g & HI).
  destruct (cgrp_alloc_race 1 24 threads 7 quiet_env (λ _, bump_kernel) bump_kernel 8 true still still still 5 cstore1 g (λ _, [])
    (λ _ H, H) ltac:(unfold threads; lia) (quiet_env_ok _) (λ _, bump_kernel_ok) bump_kernel_ok ltac:(discriminate) enough_24
    (still_ok _ _ _) (still_ok _ _ _) (still_ok _ _ _) (λ _ H, H) (λ _ H, H) (λ _, eq_refl) HI) as (r & σ' & g' & q' & E & HI' & _).
  exists g, (λ _, []), r, σ'. split; [exact HI|]. split; [exact E|]. exists g', q'. exact HI'.
Defined.

(** an allocation for a task whose entry no other CPU changes meanwhile fails with [NULL],
    or leaves a blank object in the entry, with its identifier and the task. *)
Theorem task_alloc_publishes al N W me aenv pss ps cl room env1 env2 p σ g q :
  (∀ o, W o → 0 <= o) → W me → alloc_env_ok (λ o, W o ∨ shared o) aenv → (∀ i, kernel_ok (pss i)) → kernel_ok ps →
  al ≠ NULL → ((Z.to_nat (N - 16)) / 8 <= cl)%nat → senv_ok al N W env1 → senv_ok al N W env2 →
  (∀ σ, sg_map (env1 σ) !! p = sg_map σ !! p) → (∀ σ, sg_map (env2 σ) !! p = sg_map σ !! p) → store_inv al N σ g q →
  ∃ r σ' g' q', scx_task_alloc room env1 env2 aenv pss ps cl al p σ = Some (r, σ') ∧ store_inv al N σ' g' q' ∧
    evolve (owned W g) (held W g) (sg_sdt σ) g (sg_sdt σ') g' ∧
    (r = NULL ∨ ∃ tid, sg_map σ' !! p = Some (TaskVal tid p r) ∧ scx_task_data p σ' = Some (r, σ') ∧
      g_used g' !! (al, tid_idx tid) = Some (omap, false) ∧ g_slot g' !! (al, tid_idx tid) = Some r ∧ zeroed (st_mem (sg_sdt σ')) r (N - 16)).
Proof.
  intros Ht HW Ha Hpss Hps Hal Hcl He1 He2 Hp1 Hp2 HI.
  pose proof (task_alloc_spec al N W me aenv pss ps cl Ht HW Ha Hpss Hps Hal Hcl room env1 env2 p σ g q He1 He2 Hp1 Hp2 HI) as H.
  apply wp_run in H as (r & σ' & E & (g' & q' & HI' & E') & HR). exists r, σ', g', q'. split_and!; [done..|].
  destruct (decide (r = NULL)) as [->|Hr]; [by left|right]. destruct HR as [->|(tid & Hv & Htid & Hz)]; [done|]. exists tid.
  destruct (si_map _ _ _ _ _ HI' p _ Hv Hr) as (x & Hu & Hs). simpl in Hs.
  destruct (iv_content _ _ (si_inv _ _ _ _ _ HI') _ _ _ (elem_own _ g' (al, x) r (si_inv _ _ _ _ _ HI') Hs)) as [_ HB]. unfold is_live in HB.
  rewrite Hu in HB. simpl in HB. rewrite (si_size _ _ _ _ _ HI'), <-Htid in HB. rewrite HB. split_and!; [done| |done..].
  unfold scx_task_data, storage_data, gets. by rewrite Hv.
Qed.

Lemma task_alloc_publishes_witness : ∃ g q r σ', store_inv 1 24 store2 g q ∧
  scx_task_alloc true still still quiet_env (λ _, bump_kernel) bump_kernel 8 1 5 store2 = Some (r, σ') ∧ ∃ g' q', store_inv 1 24 σ' g' q'.
Proof.
  destruct store2_ok as (g & x & HI & _).
  destruct (task_alloc_publishes 1 24 threads 7 quiet_env (λ _, bump_kernel) bump_kernel 8 true still still 5 store2 g (λ _, [])
    (λ _ H, H) ltac:(unfold threads; lia) (quiet_env_ok _) (λ _, bump_kernel_ok) bump_kernel_ok ltac:(discriminate) enough_24
    (still_ok _ _ _) (still_ok _ _ _) (λ _, eq_refl) (λ _, eq_refl) HI) as (r & σ' & g' & q' & E & HI' & _).
  exists g, (λ _, []), r, σ'. split; [exact HI|]. split; [exact E|]. exists g', q'. exact HI'.
Defined.

(** the frees of an entry, at once or deferred, with interference after the claim: the
    invariant and the objects of the threads of [W] are kept, and an entry that does not exist or holds no object is left
    alone; undisturbed, a free leaves the entry empty, so that every further free of it does
    nothing. *)
Theorem storage_free_once {V} {HV : DataVal V} al N W me env cl tries uenv ring p (σ : storage V) g q :
  (∀ o, W o → 0 <= o) → W me → senv_ok al N W env → (∀ i, senv_ok al N W (uenv i)) → al ≠ NULL → ((Z.to_nat (N - 16)) / 8 <= cl)%nat →
  store_inv al N σ g q →
  (∃ σ', storage_free env cl al p σ = Some (tt, σ') ∧ kept al N W σ g σ' ∧ (from_option dv_data NULL (sg_map σ !! p) = NULL → σ' = σ)) ∧
  (∃ σ', storage_free_rcu env tries uenv ring al p σ = Some (tt, σ') ∧ kept al N W σ g σ' ∧ (from_option dv_data NULL (sg_map σ !! p) = NULL → σ' = σ)) ∧
  (∃ σ', storage_free still cl al p σ = Some (tt, σ') ∧ storage_data p σ' = Some (NULL, σ') ∧ storage_free env cl al p σ' = Some (tt, σ') ∧
     storage_free_rcu env tries uenv ring al p σ' = Some (tt, σ')).
Proof.
  intros Ht HW He Hue Hal Hcl HI. split_and!.
  - pose proof (storage_free_spec al N W me env cl Ht HW He Hal Hcl p σ g q HI) as H. apply wp_run in H as ([] & σ' & E & H). by exists σ'.
  - pose proof (storage_free_rcu_spec al N W me env cl Ht HW He Hcl tries uenv ring p σ g q Hue HI) as H. apply wp_run in H as ([] & σ' & E & H). by exists σ'.
  - assert (wp (storage_free still cl al p) (λ _ σ', kept al N W σ g σ' ∧ from_option dv_data NULL (sg_map σ' !! p) = NULL) σ) as Hwp.
    { unfold storage_free, storage_get. wstep. destruct (sg_map σ !! p) as [v|] eqn:Hp; [|apply wp_ret; split; [by eapply kept_refl|by rewrite Hp]].
      unfold xchg_data, storage_get. wbind. wstep. rewrite Hp. wstep. wstep. destruct (Z.eqb_spec (dv_data v) NULL) as [Hd|Hd].
      - apply wp_ret. split; [|simpl; rewrite lookup_insert_eq; simpl; apply dv_data_set]. replace (with_map <[p := dv_set NULL v]> σ) with σ; [by eapply kept_refl|].
        rewrite <-Hd, dv_set_data. destruct σ. unfold with_map. simpl in *. by rewrite insert_id.
      - destruct (claim_inv al N σ g q me p v HI (Ht me HW) Hp Hd) as (x & Hu & Hs & HI1 & E1). wstep. unfold still.
        wbind. eapply (wp_sdt_free al N W me cl Ht HW Hal Hcl _ _ q x (dv_data v) _ HI1); [simpl; by rewrite lookup_insert_eq|done|].
        intros s' g' I' E' HI' _ _. apply wp_ret. split; [|simpl; rewrite lookup_insert_eq; simpl; apply dv_data_set].
        exists g', q. split; [done|]. eapply evolve_trans; [eapply evolve_mono, E1|eapply evolve_mono, E']; try done; intros h Ho ->; by eapply omap_not_owned. }
    apply wp_run in Hwp as ([] & σ' & E & (g' & q' & HI' & _) & H0). exists σ'. split_and!; [done| | |].
    + unfold storage_data, gets. by rewrite H0.
    + pose proof (storage_free_spec al N W me env cl Ht HW He Hal Hcl p σ' g' q' HI') as H. apply wp_run in H as ([] & σ2 & E2 & _ & H). by rewrite (H H0) in E2.
    + pose proof (storage_free_rcu_spec al N W me env cl Ht HW He Hcl tries uenv ring p σ' g' q' Hue HI') as H. apply wp_run in H as ([] & σ2 & E2 & _ & H). by rewrite (H H0) in E2.
Qed.

Lemma storage_free_once_witness : ∃ g q σ', store_inv 1 24 store2 g q ∧ storage_free still 8 1 5 store2 = Some (tt, σ') ∧ storage_data 5 σ' = Some (NULL, σ').
Proof.
  destruct store2_ok as (g & x & HI & _).
  destruct (storage_free_once 1 24 threads 7 still 8 3 (λ _, still) true 5 store2 g (λ _, []) (λ _ H, H) ltac:(unfold threads; lia) (still_ok _ _ _) (λ _, still_ok _ _ _)
    ltac:(discriminate) enough_24 HI) as (_ & _ & σ' & E & Hd & _).
  exists g, (λ _, []), σ'. split; [exact HI|]. split; [exact E|exact Hd].
Defined.

(** ** Runs *)
Definition run_after {V X} (m : ST (storage V) X) (σ : storage V) : storage V := default σ (snd <$> m σ).
Definition run_result {V} (m : ST (storage V) Z) (σ : storage V) : Z := default 0 (fst <$> m σ).

Definition ex_task_alloc (p : Z) : ST (storage scx_task_map_val) Z := scx_task_alloc true still still quiet_env (λ _, bump_kernel) bump_kernel 8 1 p.
Definition ex_task_free_rcu (p : Z) : ST (storage scx_task_map_val) unit := scx_task_free_rcu still 3 (λ _, still) true 1 p.
Definition ex_reclaim : ST (storage scx_task_map_val) Z := scx_urcu_reclaim (λ _, still) 8 1.

(** The life of the object of a task: the deferred free rings the doorbell; the first reclaim
    flips the lists, the second returns the object, and the next task gets it. *)
Example task_cycle :
  let σ1 := run_after (ex_task_alloc 5) store2 in let o := run_result (ex_task_alloc 5) store2 in
  let σ2 := run_after (ex_task_free_rcu 5) σ1 in
  let σ3 := run_after ex_reclaim σ2 in let σ4 := run_after ex_reclaim σ3 in
  o ≠ 0 ∧ run_result (scx_task_data 5) σ1 = o ∧ run_result (scx_task_data 5) σ2 = 0 ∧ sg_bell σ2 = 1 ∧
  result (scx_urcu_pending σ2) = Some true ∧ result (scx_urcu_pending σ3) = Some true ∧ result (scx_urcu_pending σ4) = Some false ∧
  run_result (ex_task_alloc 6) σ3 ≠ o ∧ run_result (ex_task_alloc 6) σ4 = o.
Proof. vm_compute. split_and!; try reflexivity; discriminate. Qed.

(** Another CPU allocates for the cgroup between the allocation and the compare-and-swap: both get
    its object, and the one that lost is free again. *)
Definition ex_cgrp_alloc (env : storage scx_cgrp_map_val → storage scx_cgrp_map_val) : ST (storage scx_cgrp_map_val) Z :=
  scx_cgrp_alloc true still env still quiet_env (λ _, bump_kernel) bump_kernel 8 1 5.

Example cgrp_race :
  let winner := run_after (ex_cgrp_alloc still) in
  let σ1 := run_after (ex_cgrp_alloc winner) cstore1 in let r := run_result (ex_cgrp_alloc winner) cstore1 in
  r ≠ 0 ∧ run_result (scx_cgrp_data 5) σ1 = r ∧ r ≠ run_result (ex_cgrp_alloc still) cstore1 ∧
  as_active_allocs (st_stats (sg_sdt σ1)) = 1.
Proof. vm_compute. split_and!; try reflexivity; discriminate. Qed.
