(* ===== verification/Topology.v ===== *)
(** * The CPU topology: [lib/topology.bpf.c], [include/lib/topology.h]

    A tree of CPU sets of at most five levels: the machine, its nodes, the last
    level caches, cores and CPUs.  [topo_init] adds a set below the smallest node that
    contains it; the rest of the library are queries and an iterator in the order of a
    depth first traversal.

    The store maps addresses to the nodes and has the bitmaps of their masks.
    What [scx_static_alloc] returns is an argument [mem], and the contents of that memory
    before the fields are written is an argument [raw].  [cl] is the budget of
    [can_loop] of each loop.  The print functions are left out. *)

From S2P Require Import Prelude Slab Bitmap.

Definition TOPO_TOP : Z := 0.
Definition TOPO_NODE : Z := 1.
Definition TOPO_LLC : Z := 2.
Definition TOPO_CORE : Z := 3.
Definition TOPO_CPU : Z := 4.
Definition TOPO_MAX_LEVEL : Z := 5.
(** [scx/common.bpf.h] *)
Definition NR_CPUS : Z := 1024.

(** [struct topology] *)
Record topology : Type := Topology {
  tp_parent : Z;
  tp_nr_children : Z;
  tp_mask : Z;
  tp_level : Z;
  tp_level_ids : list Z;
  tp_data : Z;
  tp_children : list Z;
}.

(** The nodes, the bitmaps, and the global variables [topo_all], [topo_nodes],
    [nr_topo_nodes] and [topo_max_children].  An entry of [topo_nodes] that is not in the map is [NULL]. *)
Record topo_state (A : Type) : Type := TopoState {
  ts_topo : gmap Z topology;
  ts_bm : bm_state A;
  ts_all : Z;
  ts_nodes : gmap (Z * Z) Z;
  ts_nr : list Z;
  ts_max_children : list Z;
}.
Arguments TopoState {A} _ _ _ _ _ _.
Arguments ts_topo {A} _.
Arguments ts_bm {A} _.
Arguments ts_all {A} _.
Arguments ts_nodes {A} _.
Arguments ts_nr {A} _.
Arguments ts_max_children {A} _.

(** [struct topo_iter] *)
Record topo_iter : Type := TopoIter {
  it_topo : Z;
  it_indices : list Z;
}.

Section model.
Context {A : Type} `{SlabAllocator A}.
Abbreviation TM X := (ST (topo_state A) X).

(** ** Memory *)
Definition with_topo (f : gmap Z topology → gmap Z topology) (s : topo_state A) : topo_state A :=
  TopoState (f (ts_topo s)) (ts_bm s) (ts_all s) (ts_nodes s) (ts_nr s) (ts_max_children s).
Definition with_all (t : Z) (s : topo_state A) : topo_state A :=
  TopoState (ts_topo s) (ts_bm s) t (ts_nodes s) (ts_nr s) (ts_max_children s).
Definition with_nodes (f : gmap (Z * Z) Z → gmap (Z * Z) Z) (s : topo_state A) : topo_state A :=
  TopoState (ts_topo s) (ts_bm s) (ts_all s) (f (ts_nodes s)) (ts_nr s) (ts_max_children s).
Definition with_nr (f : list Z → list Z) (s : topo_state A) : topo_state A :=
  TopoState (ts_topo s) (ts_bm s) (ts_all s) (ts_nodes s) (f (ts_nr s)) (ts_max_children s).

Definition rdt (a : Z) : TM topology := λ s,
  match ts_topo s !! a with Some t => Some (t, s) | None => None end.
Definition wrt (a : Z) (f : topology → topology) : TM unit := λ s,
  match ts_topo s !! a with Some t => Some (tt, with_topo <[a := f t]> s) | None => None end.
Definition bm {X} (m : ST (bm_state A) X) : TM X := λ s,
  match m (ts_bm s) with
  | Some (x, b) => Some (x, TopoState (ts_topo s) b (ts_all s) (ts_nodes s) (ts_nr s) (ts_max_children s))
  | None => None
  end.
(** An element of an array; an index out of range faults. *)
Definition elem (l : list Z) (i : Z) : TM Z :=
  if i <? 0 then fault else of_option (l !! Z.to_nat i).

Definition set_parent (p : Z) (t : topology) : topology :=
  Topology p (tp_nr_children t) (tp_mask t) (tp_level t) (tp_level_ids t) (tp_data t) (tp_children t).
Definition set_nr_children (n : Z) (t : topology) : topology :=
  Topology (tp_parent t) n (tp_mask t) (tp_level t) (tp_level_ids t) (tp_data t) (tp_children t).
Definition set_mask (m : Z) (t : topology) : topology :=
  Topology (tp_parent t) (tp_nr_children t) m (tp_level t) (tp_level_ids t) (tp_data t) (tp_children t).
Definition set_level (l : Z) (t : topology) : topology :=
  Topology (tp_parent t) (tp_nr_children t) (tp_mask t) l (tp_level_ids t) (tp_data t) (tp_children t).
Definition set_level_id (i : nat) (id : Z) (t : topology) : topology :=
  Topology (tp_parent t) (tp_nr_children t) (tp_mask t) (tp_level t) (<[i := id]> (tp_level_ids t)) (tp_data t) (tp_children t).
Definition set_data (d : Z) (t : topology) : topology :=
  Topology (tp_parent t) (tp_nr_children t) (tp_mask t) (tp_level t) (tp_level_ids t) d (tp_children t).
Definition set_child (i : nat) (c : Z) (t : topology) : topology :=
  Topology (tp_parent t) (tp_nr_children t) (tp_mask t) (tp_level t) (tp_level_ids t) (tp_data t) (<[i := c]> (tp_children t)).

(** [scx_static_alloc] of a node with [max_ch] slots. *)
Definition alloc_node (mem max_ch : Z) (raw : topology) : TM unit :=
  if mem =? NULL then mret tt else
  modifies (with_topo <[mem := Topology (tp_parent raw) (tp_nr_children raw) (tp_mask raw) (tp_level raw)
    (resize 5 0 (tp_level_ids raw)) (tp_data raw) (resize (Z.to_nat max_ch) 0 (tp_children raw))]>).

(** ** Construction *)
Definition topo_contains (topo cpu : Z) : TM bool :=
  t ← rdt topo; bm (scx_bitmap_test_cpu cpu (tp_mask t)).
Definition topo_subset (topo mask : Z) : TM bool :=
  t ← rdt topo; bm (scx_bitmap_subset (tp_mask t) mask).

(** [bpf_for(i, 0, TOPO_MAX_LEVEL)] of [topo_node]. *)
Fixpoint level_ids_loop (n : nat) (i : Z) (topo parent level id : Z) : TM unit :=
  match n with
  | O => mret tt
  | S n =>
      (if (i <? level) && negb (parent =? NULL) then
         p ← rdt parent;
         v ← elem (tp_level_ids p) i;
         wrt topo (set_level_id (Z.to_nat i) v)
       else if i =? level then wrt topo (set_level_id (Z.to_nat i) id)
       else wrt topo (set_level_id (Z.to_nat i) (- EINVAL)));;
      level_ids_loop n (i + 1) topo parent level id
  end.

Definition topo_node (mem : Z) (raw : topology) (parent mask id : Z) : TM Z :=
  level ← (if parent =? NULL then mret 0 else p ← rdt parent; mret (u32 (tp_level p + 1)));
  if TOPO_MAX_LEVEL <=? level then mret NULL else
  if (id <? 0) || (NR_CPUS <=? id) then mret NULL else
  ms ← gets ts_max_children;
  max_ch ← elem ms level;
  alloc_node mem max_ch raw;;
  if mem =? NULL then mret NULL else
  wrt mem (set_parent parent);;
  wrt mem (set_nr_children 0);;
  wrt mem (set_level level);;
  wrt mem (set_mask mask);;
  if (TOPO_MAX_LEVEL <=? level) || (id <? 0) || (NR_CPUS <=? id) then mret NULL else
  level_ids_loop 5 0 mem parent level id;;
  modifies (with_nodes <[(level, id) := mem]>);;
  mret mem.

Definition topo_add (mem : Z) (raw : topology) (parent mask id : Z) : TM Z :=
  if mask =? NULL then mret (- EINVAL) else
  p ← rdt parent;
  if TOPO_MAX_LEVEL <=? tp_level p then mret (- EINVAL) else
  ms ← gets ts_max_children;
  max_ch ← elem ms (tp_level p);
  if max_ch <=? tp_nr_children p then mret (- EINVAL) else
  child ← topo_node mem raw parent mask id;
  if child =? NULL then mret (- ENOMEM) else
  p ← rdt parent;
  elem (tp_children p) (tp_nr_children p);;
  wrt parent (set_nr_children (u64 (tp_nr_children p + 1)));;
  wrt parent (set_child (Z.to_nat (tp_nr_children p)) child);;
  mret 0.

(** The inner loop of [topo_init]: a value to return, [j] and [child]. *)
Fixpoint init_scan (cl : nat) (j child topo mask : Z) : TM (option Z * Z * Z) :=
  match cl with
  | O => mret (None, j, child)
  | S cl =>
      t ← rdt topo;
      if tp_nr_children t <=? j then mret (None, j, child) else
      child ← elem (tp_children t) j;
      sub ← topo_subset child mask;
      if (sub : bool) then mret (None, j, child) else
      c ← rdt child;
      meets ← bm (scx_bitmap_intersects (tp_mask c) mask);
      if (meets : bool) then mret (Some (- EINVAL), j, child) else
      init_scan cl (j + 1) child topo mask
  end.

(** The outer loop: a value to return, or the last [topo]. *)
Fixpoint init_loop (n cl : nat) (i topo child : Z) (mem : Z) (raw : topology) (mask id : Z) : TM (Z + Z) :=
  if TOPO_MAX_LEVEL <=? i then mret (inr topo) else
  match n with
  | O => mret (inr topo)
  | S n =>
      sub ← topo_subset topo mask;
      if negb sub then mret (inl (- EINVAL)) else
      '(ret, j, child) ← init_scan cl 0 child topo mask;
      match ret with
      | Some ret => mret (inl ret)
      | None =>
          t ← rdt topo;
          if j =? tp_nr_children t then
            ret ← topo_add mem raw topo mask id;
            if negb (ret =? 0) then mret (inl ret) else
            nr ← gets ts_nr;
            v ← elem nr i;
            modifies (with_nr <[Z.to_nat i := s32 (v + 1)]>);;
            mret (inl 0)
          else if child =? NULL then mret (inl 0) else
          init_loop n cl (i + 1) child child mem raw mask id
      end
  end.

(** [mem2] is what [scx_static_alloc(data_size, 1)] returns. *)
Definition topo_init (cl : nat) (mem : Z) (raw : topology) (mem2 mask data_size id : Z) : TM Z :=
  topo ← gets ts_all;
  if topo =? NULL then
    root ← topo_node mem raw NULL mask id;
    modifies (with_all root);;
    mret (if root =? NULL then - EINVAL else 0)
  else
    r ← init_loop cl cl 0 topo NULL mem raw mask id;
    match r with
    | inl ret => mret ret
    | inr topo =>
        wrt topo (set_data NULL);;
        if negb (data_size =? 0) then
          wrt topo (set_data mem2);;
          mret (if mem2 =? NULL then - ENOMEM else - EINVAL)
        else mret (- EINVAL)
    end.

(** ** Queries *)

(** The loop over the children that looks for [cpu]: [i] and [child]. *)
Fixpoint find_child (cl : nat) (i child topo cpu : Z) : TM (Z * Z) :=
  match cl with
  | O => mret (i, child)
  | S cl =>
      t ← rdt topo;
      if tp_nr_children t <=? i then mret (i, child) else
      child ← elem (tp_children t) i;
      c ← topo_contains child cpu;
      if (c : bool) then mret (i, child) else find_child cl (i + 1) child topo cpu
  end.

Fixpoint descend (n cl : nat) (lvl topo child cpu : Z) : TM Z :=
  if TOPO_MAX_LEVEL <=? lvl then mret topo else
  match n with
  | O => mret topo
  | S n =>
      t ← rdt topo;
      if tp_nr_children t =? 0 then mret topo else
      '(i, child) ← find_child cl 0 child topo cpu;
      t ← rdt topo;
      if i =? tp_nr_children t then mret NULL else
      descend n cl (lvl + 1) child child cpu
  end.
Definition topo_find_descendant (cl : nat) (topo cpu : Z) : TM Z :=
  c ← topo_contains topo cpu;
  if negb c then mret NULL else descend cl cl 0 topo NULL cpu.

(** The loop has no bound of its own; without fuel it faults. *)
Fixpoint topo_find_ancestor (fuel : nat) (topo cpu : Z) : TM Z :=
  match fuel with
  | O => fault
  | S fuel =>
      t ← rdt topo;
      if tp_parent t =? NULL then mret topo else
      c ← topo_contains topo cpu;
      if (c : bool) then mret topo else topo_find_ancestor fuel (tp_parent t) cpu
  end.

Fixpoint sibling_loop (cl : nat) (i parent cpu : Z) : TM Z :=
  match cl with
  | O => mret NULL
  | S cl =>
      p ← rdt parent;
      if tp_nr_children p <=? i then mret NULL else
      child ← elem (tp_children p) i;
      c ← topo_contains child cpu;
      if (c : bool) then mret child else sibling_loop cl (i + 1) parent cpu
  end.
Definition topo_find_sibling (cl : nat) (topo cpu : Z) : TM Z :=
  t ← rdt topo;
  if tp_parent t =? NULL then mret NULL else sibling_loop cl 0 (tp_parent t) cpu.

Fixpoint mask_level_loop (cl : nat) (topo level : Z) : TM Z :=
  match cl with
  | O => mret topo
  | S cl =>
      t ← rdt topo;
      if level <? tp_level t then mask_level_loop cl (tp_parent t) level else mret topo
  end.
Definition topo_mask_level_internal (cl : nat) (topo level : Z) : TM Z :=
  if (level <? 0) || (TOPO_MAX_LEVEL <=? level) then mret NULL else
  t ← rdt topo;
  if tp_level t <? level then mret NULL else
  topo ← mask_level_loop cl topo level;
  t ← rdt topo;
  mret (tp_mask t).

Definition topo_cpu_to_llc_id (cpu : Z) : TM Z :=
  n ← gets (λ s, nr_cpu_ids (ts_bm s));
  if (n <=? cpu) || (NR_CPUS <=? cpu) then mret (- EINVAL) else
  topo ← gets (λ s, default NULL (ts_nodes s !! (TOPO_CPU, cpu)));
  if topo =? NULL then mret (- EINVAL) else
  t ← rdt topo;
  elem (tp_level_ids t) TOPO_LLC.

(** ** Iteration *)

(** [it_indices[lvl] = v] *)
Definition set_index (lvl v : Z) (it : topo_iter) : topo_iter :=
  TopoIter (it_topo it) (<[Z.to_nat lvl := v]> (it_indices it)).
Definition set_pos (t : Z) (it : topo_iter) : topo_iter := TopoIter t (it_indices it).

(** An iterator is written only when there is a tree. *)
Definition topo_iter_start (iter : topo_iter) : TM (Z * topo_iter) :=
  root ← gets ts_all;
  mret (if root =? NULL then (- EINVAL, iter) else (0, TopoIter root (replicate 5 (-1)))).

(** [for (ind = 0; ...)]: the index of [topo] below [parent]. *)
Fixpoint index_loop (cl : nat) (ind parent topo : Z) : TM Z :=
  match cl with
  | O => mret ind
  | S cl =>
      p ← rdt parent;
      if tp_nr_children p <=? ind then mret ind else
      c ← elem (tp_children p) ind;
      if c =? topo then mret ind else index_loop cl (ind + 1) parent topo
  end.
Fixpoint start_from_loop (n cl : nat) (lvl parent topo : Z) (it : topo_iter) : TM (Z * topo_iter) :=
  if lvl <=? 0 then mret (0, set_index 0 0 it) else
  match n with
  | O => mret (0, set_index 0 0 it)
  | S n =>
      ind ← index_loop cl 0 parent topo;
      p ← rdt parent;
      if ind =? tp_nr_children p then mret (- EINVAL, it) else
      if TOPO_MAX_LEVEL <=? lvl then mret (- EINVAL, it) else
      t ← rdt topo;
      start_from_loop n cl (lvl - 1) (tp_parent p) (tp_parent t) (set_index lvl ind it)
  end.
Definition topo_iter_start_from (cl : nat) (iter : topo_iter) (topo : Z) : TM (Z * topo_iter) :=
  root ← gets ts_all;
  if root =? NULL then mret (- EINVAL, iter) else
  t ← rdt topo;
  start_from_loop cl cl (tp_level t) (tp_parent t) topo (TopoIter topo (replicate 5 (-1))).

(** Case 2 of [topo_iter_next]. *)
Fixpoint iter_up (cl : nat) (it : topo_iter) : TM (bool * topo_iter) :=
  t ← rdt (it_topo it);
  if tp_level t <=? 0 then mret (false, it) else
  match cl with
  | O => mret (false, it)
  | S cl =>
      let lvl := tp_level t in
      if (lvl <? 0) || (TOPO_MAX_LEVEL <=? lvl) then mret (false, it) else
      v ← elem (it_indices it) lvl;
      let v := s32 (v + 1) in
      let it := set_index lvl v it in
      p ← rdt (tp_parent t);
      if v =? tp_nr_children p then iter_up cl (set_pos (tp_parent t) (set_index lvl (-1) it)) else
      c ← elem (tp_children p) v;
      mret (true, set_pos c it)
  end.
Definition topo_iter_next (cl : nat) (iter : option topo_iter) : TM (bool * option topo_iter) :=
  match iter with
  | None => mret (false, None)
  | Some it =>
      t ← rdt (it_topo it);
      if 0 <? tp_nr_children t then
        c ← elem (tp_children t) 0;
        let it := set_pos c it in
        t ← rdt c;
        let lvl := tp_level t in
        if (lvl <? 0) || (TOPO_MAX_LEVEL <=? lvl) then mret (false, Some it) else
        mret (true, Some (set_index lvl 0 it))
      else
        '(r, it) ← iter_up cl it;
        mret (r, Some it)
  end.

(** [do ... while (iter->topo->level != lvl && can_loop)] *)
Fixpoint iter_level_loop (n cl : nat) (it : topo_iter) (lvl : Z) : TM (Z * option topo_iter) :=
  '(r, iter) ← topo_iter_next cl (Some it);
  match iter with
  | None => mret (NULL, None)
  | Some it =>
      if negb r then mret (NULL, Some it) else
      t ← rdt (it_topo it);
      if negb (tp_level t =? lvl) then
        match n with O => mret (it_topo it, Some it) | S n => iter_level_loop n cl it lvl end
      else mret (it_topo it, Some it)
  end.
Definition topo_iter_level_internal (n cl : nat) (iter : option topo_iter) (lvl : Z) : TM (Z * option topo_iter) :=
  match iter with None => mret (NULL, None) | Some it => iter_level_loop n cl it lvl end.

(** [TOPO_FOR_EACH_LEVEL]: the nodes the body is run for. *)
Fixpoint for_each_loop (n cl : nat) (iter : option topo_iter) (lvl : Z) : TM (list Z) :=
  '(topo, iter) ← topo_iter_level_internal n cl iter lvl;
  if topo =? NULL then mret [] else
  match n with
  | O => mret []
  | S n => l ← for_each_loop n cl iter lvl; mret (topo :: l)
  end.
Definition TOPO_FOR_EACH_LEVEL (n cl : nat) (iter : topo_iter) (lvl : Z) : TM (list Z) :=
  '(_, iter) ← topo_iter_start iter;
  for_each_loop n cl (Some iter) lvl.
Definition TOPO_NR (lvl : Z) : TM Z :=
  nr ← gets ts_nr; elem nr (lvl - 1).
End model.
