(* ===== verification/TopologyBase.v ===== *)
(** * The invariant of the topology tree and the construction of nodes *)

From S2P Require Import Prelude Slab Bitmap BitmapCorrect Wp Topology.

(** * The invariant of the topology tree

    Addresses, levels, masks and level ids of the nodes fit together: the CPUs of a child
    are CPUs of its parent, and children of one node are disjoint.  The lemmas
    are about ancestors: at every level a CPU is in at most one node. *)

(** The children in use. *)
Definition kids (t : topology) : list Z := take (Z.to_nat (tp_nr_children t)) (tp_children t).

(** All nodes at and below [a] in depth first order, down to [n] levels. *)
Fixpoint subtree (n : nat) (M : gmap Z topology) (a : Z) : list Z :=
  match n with
  | O => []
  | S n => a :: match M !! a with Some t => kids t ≫= subtree n M | None => [] end
  end.

Lemma subtree_S n M a : subtree (S n) M a = a :: match M !! a with Some t => kids t ≫= subtree n M | None => [] end.
Proof. done. Qed.

Section base.
Context {A : Type} `{SlabAllocator A}.
Implicit Types s : topo_state A.

Definition cpu_ok s (x : Z) : Prop := 0 <= x < 64 * mask_size (ts_bm s).
(** Whether CPU [x] is in the mask at [m], and in the mask of node [a]. *)
Definition in_mask (b : bm_state A) (m x : Z) : bool := cpu_in (default [] (bm_masks b !! m)) x.
Definition covers s (a x : Z) : bool :=
  match ts_topo s !! a with Some t => in_mask (ts_bm s) (tp_mask t) x | None => false end.

Record node_ok s (a : Z) (t : topology) : Prop := NodeOk {
  no_addr : a ≠ NULL;
  no_level : 0 <= tp_level t < 5;
  no_room : ∃ mx, ts_max_children s !! Z.to_nat (tp_level t) = Some mx ∧ length (tp_children t) = Z.to_nat mx ∧
    0 <= tp_nr_children t <= mx ∧ mx < two31;
  no_kids : ∀ c, c ∈ kids t → ∃ k, ts_topo s !! c = Some k ∧ tp_parent k = a ∧ tp_level k = tp_level t + 1;
  no_nodup : NoDup (kids t);
  no_sub : ∀ c x, c ∈ kids t → cpu_ok s x → covers s c x = true → covers s a x = true;
  no_disj : ∀ c d x, c ∈ kids t → d ∈ kids t → cpu_ok s x → covers s c x = true → covers s d x = true → c = d;
  no_parent : (tp_parent t = NULL ∧ tp_level t = 0 ∧ a = ts_all s) ∨
    (tp_parent t ≠ NULL ∧ ∃ p, ts_topo s !! tp_parent t = Some p ∧ a ∈ kids p);
  no_mask : ∃ l, mask (ts_bm s) (tp_mask t) l;
  no_ids : length (tp_level_ids t) = 5%nat;
  no_id : ∃ id, tp_level_ids t !! Z.to_nat (tp_level t) = Some id ∧ 0 <= id < NR_CPUS;
  no_below : ∀ i, tp_level t < i < 5 → tp_level_ids t !! Z.to_nat i = Some (- EINVAL);
  no_above : ∀ i p, 0 <= i < tp_level t → ts_topo s !! tp_parent t = Some p →
    tp_level_ids t !! Z.to_nat i = tp_level_ids p !! Z.to_nat i;
}.

(** The number of nodes at a level. *)
Definition nr_at s (l : Z) : Z := Z.of_nat (size (filter (λ p : Z * topology, tp_level p.2 = l) (ts_topo s))).

Record topo_ok s : Prop := TopoOk {
  to_node : ∀ a t, ts_topo s !! a = Some t → node_ok s a t;
  to_all : if decide (ts_all s = NULL) then ts_topo s = ∅ else ∃ r, ts_topo s !! ts_all s = Some r ∧ tp_parent r = NULL;
  to_nodes : ∀ l i a, ts_nodes s !! (l, i) = Some a →
    ∃ t, ts_topo s !! a = Some t ∧ tp_level t = l ∧ tp_level_ids t !! Z.to_nat l = Some i;
  to_found : ∀ a t i, ts_topo s !! a = Some t → tp_level_ids t !! Z.to_nat (tp_level t) = Some i →
    is_Some (ts_nodes s !! (tp_level t, i));
  to_max : length (ts_max_children s) = 5%nat ∧ Forall (λ m, 0 <= m < two31) (ts_max_children s);
  to_nr : length (ts_nr s) = 5%nat ∧ ∀ l, 0 <= l < 4 → ts_nr s !! Z.to_nat l = Some (s32 (nr_at s (l + 1)));
}.

(** [p] is the parent of [c]; [p] is [a] or above it. *)
Definition child_of s (c p : Z) : Prop := p ≠ NULL ∧ ∃ t, ts_topo s !! c = Some t ∧ tp_parent t = p.
Definition above s (p a : Z) : Prop := rtc (child_of s) a p.

Section ok.
Context s (Hok : topo_ok s).

Lemma kid_parent c p : child_of s c p ↔ ∃ t, ts_topo s !! p = Some t ∧ c ∈ kids t.
Proof.
  split.
  - intros (Hp & t & Ht & Et). destruct (no_parent _ _ _ (to_node _ Hok _ _ Ht)) as [[? _]|(_ & q & Hq & Hin)]; [congruence|].
    rewrite Et in Hq. eauto.
  - intros (t & Ht & Hin). pose proof (to_node _ Hok _ _ Ht) as Hn. destruct (no_kids _ _ _ Hn c Hin) as (k & Hk & Ek & _).
    split; [apply Hn|]. eauto.
Qed.

Lemma kid_level c p k t : child_of s c p → ts_topo s !! c = Some k → ts_topo s !! p = Some t → tp_level k = tp_level t + 1.
Proof.
  intros (u & Hu & Hin)%kid_parent Hk Ht. assert (u = t) as -> by congruence.
  destruct (no_kids _ _ _ (to_node _ Hok _ _ Ht) c Hin) as (k' & Hk' & _ & ?). congruence.
Qed.

Lemma kid_covers c p x : child_of s c p → cpu_ok s x → covers s c x = true → covers s p x = true.
Proof. intros (t & Ht & Hin)%kid_parent Hx. by eapply (no_sub _ _ _ (to_node _ Hok _ _ Ht)). Qed.

Lemma child_node c p : child_of s c p → is_Some (ts_topo s !! c) ∧ is_Some (ts_topo s !! p).
Proof. intros Hc. split; [by destruct Hc as (_ & t & -> & _)|]. apply kid_parent in Hc as (t & -> & _). done. Qed.

Lemma above_covers p a x : above s p a → cpu_ok s x → covers s a x = true → covers s p x = true.
Proof. intros Hp Hx. induction Hp as [|a b p Hab _ IH]; [done|]. intros Ha. apply IH. by eapply kid_covers. Qed.

Lemma above_node p a : above s p a → is_Some (ts_topo s !! a) → is_Some (ts_topo s !! p).
Proof. intros Hp. induction Hp as [|a b p Hab _ IH]; [done|]. intros _. apply IH. by eapply child_node. Qed.

Lemma above_level p a t u : above s p a → ts_topo s !! p = Some t → ts_topo s !! a = Some u →
  tp_level t <= tp_level u ∧ (tp_level t = tp_level u → p = a).
Proof.
  intros Hp. revert u. induction Hp as [a|a b p Hab Hbp IH]; intros u Ht Hu; [split; [|done]; assert (t = u) by congruence; subst; lia|].
  destruct (child_node _ _ Hab) as [_ [v Hv]]. pose proof (kid_level _ _ _ _ Hab Hu Hv). destruct (IH v Ht Hv). split; lia.
Qed.

(** Every node has an ancestor at each level above its own. *)
Lemma climb a u l : ts_topo s !! a = Some u → 0 <= l <= tp_level u → ∃ p t, above s p a ∧ ts_topo s !! p = Some t ∧ tp_level t = l.
Proof.
  intros Hu Hl. remember (Z.to_nat (tp_level u - l)) as n eqn:En. revert a u Hu Hl En.
  induction n as [|n IH]; intros a u Hu Hl En; [exists a, u; split_and!; [apply rtc_refl|done|lia]|].
  destruct (no_parent _ _ _ (to_node _ Hok _ _ Hu)) as [(_ & E & _)|(Hne & p & Hp & Hin)]; [lia|].
  assert (child_of s a (tp_parent u)) as Hc by (split; eauto). pose proof (kid_level _ _ _ _ Hc Hu Hp) as El.
  destruct (IH _ _ Hp) as (q & t & Hq & Ht & E); [lia..|]. exists q, t. split_and!; [by eapply rtc_l|done|done].
Qed.

Lemma root_unique a u : ts_topo s !! a = Some u → tp_level u = 0 → a = ts_all s.
Proof.
  intros Hu El. destruct (no_parent _ _ _ (to_node _ Hok _ _ Hu)) as [(_ & _ & ?)|(Hne & p & Hp & Hin)]; [done|].
  pose proof (no_level _ _ _ (to_node _ Hok _ _ Hp)). assert (child_of s a (tp_parent u)) as Hc by (split; eauto).
  pose proof (kid_level _ _ _ _ Hc Hu Hp). lia.
Qed.

(** At one level a CPU is in at most one node. *)
Lemma level_unique x : cpu_ok s x → ∀ n a b u v, ts_topo s !! a = Some u → ts_topo s !! b = Some v →
  tp_level u = Z.of_nat n → tp_level v = Z.of_nat n → covers s a x = true → covers s b x = true → a = b.
Proof.
  intros Hx n. induction n as [|n IH]; intros a b u v Hu Hv Eu Ev Ha Hb.
  { rewrite (root_unique a u), (root_unique b v) by (done || lia). done. }
  destruct (no_parent _ _ _ (to_node _ Hok _ _ Hu)) as [(_ & ? & _)|(Hne & p & Hp & Hin)]; [lia|].
  destruct (no_parent _ _ _ (to_node _ Hok _ _ Hv)) as [(_ & ? & _)|(Hne' & p' & Hp' & Hin')]; [lia|].
  assert (child_of s a (tp_parent u)) as Hc by (split; eauto). assert (child_of s b (tp_parent v)) as Hc' by (split; eauto).
  pose proof (kid_level _ _ _ _ Hc Hu Hp). pose proof (kid_level _ _ _ _ Hc' Hv Hp').
  assert (tp_parent u = tp_parent v) as E.
  { eapply (IH _ _ p p'); [done|done|lia|lia|by eapply kid_covers|by eapply kid_covers]. }
  rewrite E in Hp. assert (p' = p) as -> by congruence. by eapply (no_disj _ _ _ (to_node _ Hok _ _ Hp)).
Qed.

(** Two nodes with a common CPU are on one path. *)
Lemma comparable a b x : cpu_ok s x → covers s a x = true → covers s b x = true → above s a b ∨ above s b a.
Proof.
  assert (∀ a b u v, cpu_ok s x → ts_topo s !! a = Some u → ts_topo s !! b = Some v → tp_level u <= tp_level v →
    covers s a x = true → covers s b x = true → above s a b) as Hle.
  { intros a' b' u v Hx Hu Hv Hl Ha Hb. pose proof (no_level _ _ _ (to_node _ Hok _ _ Hu)).
    destruct (climb b' v (tp_level u) Hv) as (p & t & Hp & Ht & El); [lia|].
    assert (p = a') as ->; [|done]. eapply (level_unique x Hx (Z.to_nat (tp_level u)) _ _ t u); [done|done|lia|lia|by eapply above_covers|done]. }
  intros Hx Ha Hb. unfold covers in Ha, Hb. destruct (ts_topo s !! a) as [u|] eqn:Hu; [|done]. destruct (ts_topo s !! b) as [v|] eqn:Hv; [|done].
  destruct (Z.le_ge_cases (tp_level u) (tp_level v)); [left|right]; eapply Hle; try done; unfold covers; by rewrite ?Hu, ?Hv.
Qed.

Lemma root_above a u : ts_topo s !! a = Some u → above s (ts_all s) a.
Proof.
  intros Hu. pose proof (no_level _ _ _ (to_node _ Hok _ _ Hu)). destruct (climb a u 0 Hu) as (p & t & Hp & Ht & El); [lia|].
  by rewrite <-(root_unique p t).
Qed.

(** Below a node that is not [a] itself: through a child. *)
Lemma above_step p a : above s p a → p = a ∨ ∃ c, child_of s c p ∧ above s c a.
Proof. intros Hp. apply rtc_inv_r in Hp as [->|(c & Hc & Hcp)]; [by left|right]. by exists c. Qed.

Lemma ids_above p a t u : above s p a → ts_topo s !! p = Some t → ts_topo s !! a = Some u →
  tp_level_ids u !! Z.to_nat (tp_level t) = tp_level_ids t !! Z.to_nat (tp_level t).
Proof.
  intros Hp. revert u. induction Hp as [a|a b p Hab Hbp IH]; intros u Ht Hu; [congruence|].
  destruct (child_node _ _ Hab) as [_ [v Hv]]. rewrite <-(IH v Ht Hv). pose proof (kid_level _ _ _ _ Hab Hu Hv).
  destruct (above_level p b t v Hbp Ht Hv) as [Hle _]. pose proof (no_level _ _ _ (to_node _ Hok _ _ Ht)).
  destruct Hab as (_ & u' & Hu' & E). assert (u' = u) as -> by congruence. apply (no_above _ _ _ (to_node _ Hok _ _ Hu)); [lia|]. by rewrite E.
Qed.

(** Ancestors of one node are on one path. *)
Lemma above_both c d b : above s c b → above s d b → above s c d ∨ above s d c.
Proof.
  intros Hc. revert d. induction Hc as [b|b b' c Hb Hc IH]; intros d Hd; [by right|].
  apply rtc_inv in Hd as [->|(b2 & Hb2 & Hd)]; [left; by eapply rtc_l|]. apply IH.
  assert (b2 = b') as ->; [|done]. destruct Hb as (_ & t & Ht & <-), Hb2 as (_ & t2 & Ht2 & <-). congruence.
Qed.

(** Induction from the leaves. *)
Lemma node_ind (P : Z → Prop) : (∀ a t, ts_topo s !! a = Some t → (∀ c, c ∈ kids t → P c) → P a) →
  ∀ a t, ts_topo s !! a = Some t → P a.
Proof.
  intros IH a t Ht. remember (Z.to_nat (5 - tp_level t)) as n eqn:En. revert a t Ht En.
  induction n as [|n IHn]; intros a t Ht En; pose proof (no_level _ _ _ (to_node _ Hok _ _ Ht)); [lia|].
  apply (IH a t Ht). intros c Hc. destruct (no_kids _ _ _ (to_node _ Hok _ _ Ht) c Hc) as (k & Hk & _ & El).
  apply (IHn c k Hk). lia.
Qed.

Lemma subtree_stable n a t : ts_topo s !! a = Some t → 5 - tp_level t <= Z.of_nat n →
  subtree (S n) (ts_topo s) a = subtree n (ts_topo s) a.
Proof.
  revert a t. induction n as [|n IH]; intros a t Ht Hn; pose proof (no_level _ _ _ (to_node _ Hok _ _ Ht)); [lia|].
  rewrite !subtree_S, Ht. f_equal. pose proof (no_kids _ _ _ (to_node _ Hok _ _ Ht)) as Hk.
  induction (kids t) as [|c l IHl]; [done|]. rewrite !bind_cons. destruct (Hk c) as (k & Hc & _ & El); [by left|].
  rewrite (IH c k Hc) by lia. f_equal. apply IHl. intros d Hd. apply Hk. by right.
Qed.

Definition descendants (a : Z) : list Z := subtree 5 (ts_topo s) a.

Lemma descendants_eq a t : ts_topo s !! a = Some t → descendants a = a :: (kids t ≫= descendants).
Proof.
  intros Ht. unfold descendants. pose proof (no_level _ _ _ (to_node _ Hok _ _ Ht)). rewrite <-(subtree_stable 5 a t Ht) by lia.
  by rewrite subtree_S, Ht.
Qed.

Lemma elem_descendants b a t : ts_topo s !! a = Some t → b ∈ descendants a ↔ above s a b ∧ is_Some (ts_topo s !! b).
Proof.
  revert a t. refine (node_ind (λ a, b ∈ descendants a ↔ above s a b ∧ is_Some (ts_topo s !! b)) _). intros a t Ht IH. rewrite (descendants_eq a t Ht), elem_of_cons, list_elem_of_bind. split.
  - intros [->|(c & Hb & Hc)]; [split; [apply rtc_refl|eauto]|]. apply (IH c Hc) in Hb as [Hb ?]. split; [|done].
    eapply rtc_r; [exact Hb|]. apply kid_parent. eauto.
  - intros [Ha Hb]. destruct (above_step _ _ Ha) as [->|(c & Hc & Hcb)]; [by left|right]. apply kid_parent in Hc as (t' & Ht' & Hc).
    assert (t' = t) as -> by congruence. exists c. split; [|done]. by apply (IH c Hc).
Qed.

Lemma descendants_nodup a t : ts_topo s !! a = Some t → NoDup (descendants a).
Proof.
  revert a t. refine (node_ind (λ a, NoDup (descendants a)) _). intros a t Ht IH. rewrite (descendants_eq a t Ht).
  pose proof (no_kids _ _ _ (to_node _ Hok _ _ Ht)) as Hk. apply NoDup_cons. split.
  - intros (c & Hin & Hc)%list_elem_of_bind. destruct (Hk c Hc) as (k & Hkc & _ & El).
    apply (elem_descendants _ _ _ Hkc) in Hin as [Hin _]. destruct (above_level _ _ _ _ Hin Hkc Ht). lia.
  - apply NoDup_bind; [|done|apply (no_nodup _ _ _ (to_node _ Hok _ _ Ht))]. intros c d b Hc Hd Hb Hb'.
    destruct (Hk c Hc) as (k & Hkc & _ & El). destruct (Hk d Hd) as (k' & Hkd & _ & El').
    apply (elem_descendants _ _ _ Hkc) in Hb as [Hb _]. apply (elem_descendants _ _ _ Hkd) in Hb' as [Hb' _].
    destruct (above_both _ _ _ Hb Hb') as [Hcd|Hdc].
    + apply (above_level _ _ _ _ Hcd Hkc Hkd). lia.
    + symmetry. apply (above_level _ _ _ _ Hdc Hkd Hkc). lia.
Qed.
End ok.
End base.

(** * Construction of the topology tree

    What [topo_node], [topo_add] and the loops of [topo_init] do to a tree
    that satisfies the invariant, and that an added node keeps it. *)

Section memory.
Context {A : Type} `{SlabAllocator A}.
Implicit Types s : topo_state A.

Lemma wp_rdt a t (Q : topology → topo_state A → Prop) s : ts_topo s !! a = Some t → Q t s → wp (rdt a) Q s.
Proof. unfold wp, rdt. by intros ->. Qed.
Lemma wp_wrt a f t (Q : unit → topo_state A → Prop) s : ts_topo s !! a = Some t → Q tt (with_topo <[a := f t]> s) → wp (wrt a f) Q s.
Proof. unfold wp, wrt. by intros ->. Qed.
Lemma wp_elem l i v (Q : Z → topo_state A → Prop) s : 0 <= i → l !! Z.to_nat i = Some v → Q v s → wp (elem l i) Q s.
Proof. intros Hi Hv. unfold elem. rewrite (proj2 (Z.ltb_ge _ _)) by done. by apply wp_of_option. Qed.

(** Questions to a bitmap. *)
Lemma bm_same {X} (m : ST (bm_state A) X) x s : m (ts_bm s) = Some (x, ts_bm s) → bm m s = Some (x, s).
Proof. unfold bm. intros ->. by destruct s. Qed.

Lemma in_mask_words (b : bm_state A) m l x : mask b m l → in_mask b m x = cpu_in l x.
Proof. intros Hm. unfold in_mask. by rewrite (mk_at _ _ _ Hm). Qed.

Definition contains s (a : Z) (l : list Z) : Prop := ∀ x, cpu_ok s x → cpu_in l x = true → covers s a x = true.
Definition meets s (a : Z) (l : list Z) : Prop := ∃ x, cpu_ok s x ∧ covers s a x = true ∧ cpu_in l x = true.

Lemma covers_words s a t l x : ts_topo s !! a = Some t → mask (ts_bm s) (tp_mask t) l → covers s a x = cpu_in l x.
Proof. intros Ht Hl. unfold covers. rewrite Ht. by apply in_mask_words. Qed.

Lemma topo_contains_run s a t x : topo_ok s → ts_topo s !! a = Some t → cpu_ok s x → topo_contains a x s = Some (covers s a x, s).
Proof.
  intros Hok Ht Hx. destruct (no_mask _ _ _ (to_node _ Hok _ _ Ht)) as [l Hl]. unfold topo_contains.
  erewrite ST_bind_run; [|unfold rdt; by rewrite Ht]. apply bm_same. rewrite (covers_words _ _ _ _ _ Ht Hl).
  destruct (bitmap_cpu_roundtrip (ts_bm s) (tp_mask t) l x) as [E _]; done.
Qed.

Lemma topo_subset_run s a t m l : topo_ok s → ts_topo s !! a = Some t → mask (ts_bm s) m l →
  ∃ r, topo_subset a m s = Some (r, s) ∧ (r = true ↔ contains s a l).
Proof.
  intros Hok Ht Hm. destruct (no_mask _ _ _ (to_node _ Hok _ _ Ht)) as [la Hl]. unfold topo_subset.
  destruct (bitmap_predicates (ts_bm s) (tp_mask t) m la l Hl Hm) as (_ & (r & E & Hr) & _). exists r. split.
  - erewrite ST_bind_run; [|unfold rdt; by rewrite Ht]. by apply bm_same.
  - rewrite Hr. unfold contains. by setoid_rewrite (λ x, covers_words s a t la x Ht Hl).
Qed.

Lemma intersects_run s a t m l : topo_ok s → ts_topo s !! a = Some t → mask (ts_bm s) m l →
  ∃ r, bm (scx_bitmap_intersects (tp_mask t) m) s = Some (r, s) ∧ (r = true ↔ meets s a l).
Proof.
  intros Hok Ht Hm. destruct (no_mask _ _ _ (to_node _ Hok _ _ Ht)) as [la Hl].
  destruct (bitmap_predicates (ts_bm s) (tp_mask t) m la l Hl Hm) as (_ & _ & (r & E & Hr)). exists r. split; [by apply bm_same|].
  rewrite Hr. unfold meets. by setoid_rewrite (λ x, covers_words s a t la x Ht Hl).
Qed.

(** A child in use is in the array. *)
Lemma kids_elem s a t j : node_ok s a t → 0 <= j < tp_nr_children t → ∃ c, tp_children t !! Z.to_nat j = Some c ∧ kids t !! Z.to_nat j = Some c.
Proof.
  intros Hn Hj. destruct (no_room _ _ _ Hn) as (mx & _ & Hlen & Hnr & _).
  destruct (lookup_lt_is_Some_2 (tp_children t) (Z.to_nat j)) as [c Hc]; [lia|]. exists c. split; [done|].
  unfold kids. rewrite lookup_take_lt; [done|lia].
Qed.

Lemma kids_len s a t : node_ok s a t → length (kids t) = Z.to_nat (tp_nr_children t).
Proof. intros Hn. destruct (no_room _ _ _ Hn) as (mx & _ & Hlen & Hnr & _). unfold kids. rewrite length_take. lia. Qed.
End memory.

(** ** One new node *)
Section node.
Context {A : Type} `{SlabAllocator A}.
Implicit Types s : topo_state A.

(** The level ids that [topo_node] computes, [p] being the parent if there is one. *)
Definition target_id (p : option topology) (level id j : Z) : Z :=
  match p with
  | Some p => if j <? level then nth (Z.to_nat j) (tp_level_ids p) 0 else if j =? level then id else - EINVAL
  | None => if j =? level then id else - EINVAL
  end.

Definition has_parent s (parent : Z) (p : option topology) : Prop :=
  match p with Some t => parent ≠ NULL ∧ ts_topo s !! parent = Some t ∧ length (tp_level_ids t) = 5%nat | None => parent = NULL end.

Definition with_ids (l : list Z) (t : topology) : topology :=
  Topology (tp_parent t) (tp_nr_children t) (tp_mask t) (tp_level t) l (tp_data t) (tp_children t).

Lemma with_topo_twice (f g : gmap Z topology → gmap Z topology) s : with_topo f (with_topo g s) = with_topo (λ M, f (g M)) s.
Proof. done. Qed.
Lemma with_topo_ext (f g : gmap Z topology → gmap Z topology) s : f (ts_topo s) = g (ts_topo s) → with_topo f s = with_topo g s.
Proof. unfold with_topo. by intros ->. Qed.

Lemma level_ids_loop_spec n i a t parent p level id s :
  Z.of_nat n + i = 5 → 0 <= i → ts_topo s !! a = Some t → length (tp_level_ids t) = 5%nat → has_parent s parent p → a ≠ parent →
  wp (level_ids_loop n i a parent level id) (λ _ s', ∃ l, s' = with_topo <[a := with_ids l t]> s ∧ length l = 5%nat ∧
    (∀ j, (j < 5)%nat → l !! j = if Z.of_nat j <? i then tp_level_ids t !! j else Some (target_id p level id (Z.of_nat j)))) s.
Proof.
  revert i t s. induction n as [|n IH]; intros i t s Hn Hi Ht Hlen Hp Hne.
  { apply wp_ret. exists (tp_level_ids t). split_and!; [|done|].
    - destruct s. unfold with_topo. simpl in *. by rewrite insert_id; [|by destruct t].
    - intros j Hj. by rewrite (proj2 (Z.ltb_lt _ _)) by lia. }
  assert (∀ v s1, v = target_id p level id i → s1 = with_topo <[a := set_level_id (Z.to_nat i) v t]> s →
    wp (level_ids_loop n (i + 1) a parent level id) (λ _ s', ∃ l, s' = with_topo <[a := with_ids l t]> s ∧ length l = 5%nat ∧
    (∀ j, (j < 5)%nat → l !! j = if Z.of_nat j <? i then tp_level_ids t !! j else Some (target_id p level id (Z.of_nat j)))) s1) as Hgo.
  { intros v s1 Ev ->. eapply wp_mono; [apply (IH (i + 1) (set_level_id (Z.to_nat i) v t))|].
    - lia.
    - lia.
    - simpl. apply lookup_insert_eq.
    - simpl. by rewrite length_insert.
    - destruct p as [p|]; [|done]. destruct Hp as (Hp1 & Hp2 & Hp3). split_and!; [done| |done]. simpl. by rewrite lookup_insert_ne.
    - done.
    - intros _ s' (l & -> & Hl & Hj). exists l. split_and!; [|done|].
      + rewrite with_topo_twice. apply with_topo_ext. by rewrite insert_insert_eq.
      + intros j Hj5. rewrite (Hj j Hj5). simpl. destruct (Z.ltb_spec (Z.of_nat j) (i + 1)), (Z.ltb_spec (Z.of_nat j) i); try lia; try done.
        * by rewrite list_lookup_insert_ne by lia.
        * assert (j = Z.to_nat i) as -> by lia. rewrite list_lookup_insert_eq by lia. rewrite Ev, Z2Nat.id by lia. done. }
  cbn [level_ids_loop]. wbind. destruct p as [p|].
  - destruct Hp as (Hp1 & Hp2 & Hp3). rewrite (proj2 (Z.eqb_neq _ _) Hp1), andb_true_r. destruct (Z.ltb_spec i level).
    + destruct (lookup_lt_is_Some_2 (tp_level_ids p) (Z.to_nat i)) as [v Hv]; [lia|].
      wbind. eapply wp_rdt; [done|]. wbind. eapply wp_elem; [done..|]. eapply wp_wrt; [done|]. apply (Hgo v); [|done].
      unfold target_id. rewrite (proj2 (Z.ltb_lt _ _)) by done. by rewrite (nth_lookup_Some _ _ _ _ Hv).
    + destruct (i =? level) eqn:E; (eapply wp_wrt; [done|]; eapply Hgo; [|done]; unfold target_id; by rewrite (proj2 (Z.ltb_ge _ _)), E by done).
  - rewrite Hp. cbn [Z.eqb negb]. rewrite andb_false_r.
    destruct (i =? level) eqn:E; (eapply wp_wrt; [done|]; eapply Hgo; [|done]; unfold target_id; by rewrite E).
Qed.

(** A new node as [topo_node] leaves it. *)
Record fresh_node s (parent m level id : Z) (p : option topology) (t : topology) : Prop := FreshNode {
  fn_parent : tp_parent t = parent;
  fn_nr : tp_nr_children t = 0;
  fn_mask : tp_mask t = m;
  fn_level : tp_level t = level;
  fn_len : length (tp_level_ids t) = 5%nat;
  fn_ids : ∀ j, (j < 5)%nat → tp_level_ids t !! j = Some (target_id p level id (Z.of_nat j));
  fn_room : ∃ mx, ts_max_children s !! Z.to_nat level = Some mx ∧ length (tp_children t) = Z.to_nat mx;
}.

Lemma topo_node_spec mem raw parent m id p level s :
  topo_ok s → has_parent s parent p → level = match p with Some t => tp_level t + 1 | None => 0 end → 0 <= level <= 5 →
  (mem ≠ NULL → ts_topo s !! mem = None) →
  wp (topo_node mem raw parent m id) (λ r s',
    if decide (mem ≠ NULL ∧ 0 <= id < NR_CPUS ∧ level < 5) then r = mem ∧
      ∃ t, fresh_node s parent m level id p t ∧ s' = with_nodes <[(level, id) := mem]> (with_topo <[mem := t]> s)
    else r = NULL ∧ s' = s) s.
Proof.
  intros Hok Hp Hl Hle Hmem. unfold topo_node. wbind.
  apply (wp_mono _ (λ l s', l = level ∧ s' = s)).
  { destruct p as [t|]; simpl in Hp.
    - destruct Hp as (Hp1 & Hp2 & _). rewrite (proj2 (Z.eqb_neq _ _) Hp1). wbind. eapply wp_rdt; [done|]. apply wp_ret.
      rewrite u32_small; [done|]. unfold two32. lia.
    - subst. by apply wp_ret. }
  intros l ? [-> ->]. unfold TOPO_MAX_LEVEL. destruct (Z.leb_spec 5 level).
  { apply wp_ret. by rewrite decide_False by lia. }
  destruct ((id <? 0) || (NR_CPUS <=? id)) eqn:Eid.
  { apply wp_ret. rewrite decide_False; [done|]. apply orb_true_iff in Eid as [?%Z.ltb_lt|?%Z.leb_le]; lia. }
  apply orb_false_iff in Eid as [?%Z.ltb_ge ?%Z.leb_gt]. wstep.
  destruct (to_max _ Hok) as [Hml _]. destruct (lookup_lt_is_Some_2 (ts_max_children s) (Z.to_nat level)) as [mx Hmx]; [lia|].
  wbind. eapply wp_elem; [lia|done|]. unfold alloc_node. destruct (Z.eqb_spec mem NULL) as [->|Hne].
  { wstep. apply wp_ret. by rewrite decide_False by (intros [? _]; done). }
  specialize (Hmem Hne). wstep.
  set (t0 := Topology _ _ _ _ _ _ _). set (s0 := with_topo _ s).
  assert (ts_topo s0 !! mem = Some t0) as Hat by apply lookup_insert_eq.
  wbind. eapply wp_wrt; [done|]. wbind. eapply wp_wrt; [apply lookup_insert_eq|].
  wbind. eapply wp_wrt; [apply lookup_insert_eq|]. wbind. eapply wp_wrt; [apply lookup_insert_eq|].
  rewrite !(proj2 (Z.leb_gt _ _)), (proj2 (Z.ltb_ge _ _)) by lia. cbn [orb]. wbind.
  eapply wp_mono; [apply (level_ids_loop_spec _ _ _ (set_mask m (set_level level (set_nr_children 0 (set_parent parent t0)))) _ p); [done|done|apply lookup_insert_eq|simpl; apply length_resize| |]|].
  - destruct p as [t|]; [|done]. destruct Hp as (Hp1 & Hp2 & Hp3). split_and!; [done| |done]. simpl. by rewrite !lookup_insert_ne by congruence.
  - intros ->. destruct p as [t|]; [|done]. destruct Hp as (_ & Hp2 & _). congruence.
  - intros _ s' (ids & -> & Hlen & Hids). wstep. apply wp_ret. rewrite decide_True by done. split; [done|]. exists (with_ids ids (set_mask m (set_level level (set_nr_children 0 (set_parent parent t0))))). split.
    + split; [..|exists mx; split; [done|simpl; apply length_resize]]; try done.
      intros j Hj. simpl. rewrite Hids by done. by rewrite (proj2 (Z.ltb_ge _ _)) by lia.
    + unfold s0. rewrite !with_topo_twice. f_equal. apply with_topo_ext. by rewrite !insert_insert_eq.
Qed.
End node.
