(* ===== verification/TopologyGrow.v ===== *)
(** * Building the topology tree

    Adding a node keeps the invariant, and [topo_init] adds each CPU set at its place. *)

From S2P Require Import Prelude Slab Bitmap BitmapCorrect Wp Topology TopologyBase.

(** * Adding a node to the topology keeps the invariant *)

Lemma take_insert_end {X} (n : nat) (x : X) l : (n < length l)%nat → take (S n) (<[n := x]> l) = take n l ++ [x].
Proof.
  intros Hn. rewrite (take_S_r _ _ x) by (by apply list_lookup_insert_eq). by rewrite take_insert_ge.
Qed.

Lemma s32_residue z : s32 z mod two32 = z mod two32.
Proof. unfold s32. case_match; [by rewrite Zmod_mod|]. rewrite <-(Z_mod_plus_full _ 1), <-(Zmod_mod z), Z.mul_1_l, Z.sub_add. by rewrite Zmod_mod. Qed.
Lemma s32_succ z : s32 (s32 z + 1) = s32 (z + 1).
Proof. unfold s32 at 1 3. by rewrite <-(Zplus_mod_idemp_l (s32 z)), s32_residue, Zplus_mod_idemp_l. Qed.

Section grow.
Context {A : Type} `{SlabAllocator A}.
Implicit Types s : topo_state A.

(** A child more. *)
Definition add_kid (c : Z) (p : topology) : topology :=
  set_child (Z.to_nat (tp_nr_children p)) c (set_nr_children (tp_nr_children p + 1) p).

(** The state after the node [t] has been put at [mem] below [parent], which was [p]. *)
Definition grown s (parent : Z) (p : topology) (mem : Z) (t : topology) (id : Z) : topo_state A :=
  with_nr <[Z.to_nat (tp_level p) := s32 (nth (Z.to_nat (tp_level p)) (ts_nr s) 0 + 1)]>
    (with_nodes <[(tp_level p + 1, id) := mem]> (with_topo (λ M, <[parent := add_kid mem p]> (<[mem := t]> M)) s)).

Section add.
Context s (parent : Z) (p : topology) (mem m id : Z) (lk : list Z) (t : topology).
Context (Hok : topo_ok s) (Hp : ts_topo s !! parent = Some p) (Hmem : mem ≠ NULL) (Hfree : ts_topo s !! mem = None)
  (Hfresh : fresh_node s parent m (tp_level p + 1) id (Some p) t) (Hlevel : tp_level p < 4) (Hid : 0 <= id < NR_CPUS)
  (Hroom : ∃ mx, ts_max_children s !! Z.to_nat (tp_level p) = Some mx ∧ tp_nr_children p < mx)
  (Hm : mask (ts_bm s) m lk) (Hin : contains s parent lk) (Hdis : ∀ c, c ∈ kids p → ¬ meets s c lk).
Let s' := grown s parent p mem t id.

Lemma grow_node : node_ok s parent p.
Proof. by apply (to_node _ Hok). Qed.

Lemma grow_ne : mem ≠ parent.
Proof. congruence. Qed.

Lemma grow_kids : kids (add_kid mem p) = kids p ++ [mem].
Proof.
  pose proof grow_node as Hn. destruct (no_room _ _ _ Hn) as (mx & Hmx & Hlen & Hnr & _). destruct Hroom as (mx' & Hmx' & Hlt).
  unfold kids, add_kid. simpl. rewrite Z2Nat.inj_add by lia. rewrite Nat.add_1_r. apply take_insert_end. assert (mx' = mx) by congruence. lia.
Qed.

Lemma grow_at_mem : ts_topo s' !! mem = Some t.
Proof. unfold s', grown. simpl. rewrite lookup_insert_ne by (intros E; by apply grow_ne). apply lookup_insert_eq. Qed.
Lemma grow_at_parent : ts_topo s' !! parent = Some (add_kid mem p).
Proof. apply lookup_insert_eq. Qed.
Lemma grow_other a : a ≠ mem → a ≠ parent → ts_topo s' !! a = ts_topo s !! a.
Proof. intros H1 H2. unfold s', grown. simpl. by rewrite !lookup_insert_ne by congruence. Qed.

(** The old nodes keep everything but their children. *)
Lemma grow_keep a u : ts_topo s !! a = Some u → a ≠ mem ∧ ∃ u', ts_topo s' !! a = Some u' ∧ tp_parent u' = tp_parent u ∧
  tp_level u' = tp_level u ∧ tp_mask u' = tp_mask u ∧ tp_level_ids u' = tp_level_ids u ∧ (∀ c, c ∈ kids u → c ∈ kids u').
Proof.
  intros Hu. split; [congruence|]. destruct (decide (a = parent)) as [->|Hne].
  - assert (u = p) as -> by congruence. exists (add_kid mem p). split_and!; [apply grow_at_parent|done..|].
    intros c Hc. rewrite grow_kids. apply elem_of_app. by left.
  - exists u. rewrite grow_other by congruence. by split_and!.
Qed.
Lemma grow_back a u' : ts_topo s' !! a = Some u' → a = mem ∧ u' = t ∨ a ≠ mem ∧ ∃ u, ts_topo s !! a = Some u ∧ tp_parent u' = tp_parent u ∧
  tp_level u' = tp_level u ∧ tp_mask u' = tp_mask u ∧ tp_level_ids u' = tp_level_ids u.
Proof.
  intros Hu. destruct (decide (a = mem)) as [->|Hm']; [left; rewrite grow_at_mem in Hu; split; congruence|right; split; [done|]].
  destruct (decide (a = parent)) as [->|Hne]; [rewrite grow_at_parent in Hu; assert (u' = add_kid mem p) as -> by congruence; by exists p|].
  rewrite grow_other in Hu by done. by exists u'.
Qed.

Lemma grow_covers a x : a ≠ mem → covers s' a x = covers s a x.
Proof.
  intros Hne. unfold covers. destruct (decide (a = parent)) as [->|Hp']; [by rewrite grow_at_parent, Hp|]. by rewrite grow_other.
Qed.
Lemma grow_covers_mem x : covers s' mem x = cpu_in lk x.
Proof. unfold covers. rewrite grow_at_mem, (fn_mask _ _ _ _ _ _ _ Hfresh). by apply in_mask_words. Qed.
Lemma grow_kid_ne c a u : ts_topo s !! a = Some u → c ∈ kids u → c ≠ mem.
Proof. intros Hu Hc. destruct (no_kids _ _ _ (to_node _ Hok _ _ Hu) c Hc) as (k & Hk & _). congruence. Qed.

Lemma grow_mem_ok : node_ok s' mem t.
Proof.
  destruct Hfresh as [F1 F2 F3 F4 F5 F6 F7]. pose proof (no_level _ _ _ grow_node) as Hl.
  assert (kids t = []) as Ek by (unfold kids; by rewrite F2). pose proof (no_addr _ _ _ grow_node) as Hne.
  destruct F7 as (mx & Hmx & Hlen). destruct (to_max _ Hok) as [_ Hall]. rewrite Forall_forall in Hall.
  specialize (Hall mx (list_elem_of_lookup_2 _ _ _ Hmx)) as Hrange.
  assert (∀ i, 0 <= i < 5 → tp_level_ids t !! Z.to_nat i = Some (target_id (Some p) (tp_level p + 1) id i)) as Hids.
  { intros i Hi. rewrite F6 by lia. by rewrite Z2Nat.id by lia. }
  split; rewrite ?Ek, ?F4; try done; try lia.
  - exists mx. split_and!; [done|done|lia..].
  - intros c Hc. by apply not_elem_of_nil in Hc.
  - apply NoDup_nil_2.
  - intros c x Hc. by apply not_elem_of_nil in Hc.
  - intros c d x Hc. by apply not_elem_of_nil in Hc.
  - right. rewrite F1. split; [done|]. exists (add_kid mem p). split; [apply grow_at_parent|]. rewrite grow_kids. apply elem_of_app. right. by left.
  - exists lk. by rewrite F3.
  - exists id. split; [|done]. rewrite Hids by lia. unfold target_id. by rewrite Z.ltb_irrefl, Z.eqb_refl.
  - intros i Hi. rewrite Hids by lia. unfold target_id. by rewrite (proj2 (Z.ltb_ge _ _)), (proj2 (Z.eqb_neq _ _)) by lia.
  - intros i q Hi Hq. rewrite F1, grow_at_parent in Hq. assert (q = add_kid mem p) as -> by congruence. rewrite Hids by lia. unfold target_id. rewrite (proj2 (Z.ltb_lt _ _)) by lia. simpl.
    destruct (lookup_lt_is_Some_2 (tp_level_ids p) (Z.to_nat i)) as [v Hv]; [rewrite (no_ids _ _ _ grow_node); lia|].
    rewrite Hv. f_equal. by apply nth_lookup_Some.
Qed.

Lemma grow_parent_ok : node_ok s' parent (add_kid mem p).
Proof.
  pose proof grow_node as Hn. pose proof (no_level _ _ _ Hn) as Hl. destruct (no_room _ _ _ Hn) as (mx & Hmx & Hlen & Hnr & Hlt).
  destruct Hroom as (mx' & Hmx' & Hfit). assert (mx' = mx) as -> by congruence.
  split; rewrite ?grow_kids; try apply Hn.
  - exists mx. simpl. rewrite length_insert. split_and!; [done|done|lia..].
  - intros c [Hc| ->%list_elem_of_singleton]%elem_of_app.
    + destruct (no_kids _ _ _ Hn c Hc) as (k & Hk & Ek & El). destruct (grow_keep c k Hk) as (_ & k' & Hk' & E1 & E2 & _).
      exists k'. change (tp_level (add_kid mem p)) with (tp_level p). split_and!; congruence.
    + exists t. destruct Hfresh as [F1 _ _ F4 _ _ _]. split_and!; [apply grow_at_mem|done|done].
  - apply NoDup_app. split_and!; [apply Hn| |apply NoDup_singleton]. intros c Hc ->%list_elem_of_singleton. by eapply grow_kid_ne.
  - intros c x [Hc| ->%list_elem_of_singleton]%elem_of_app Hx; rewrite (grow_covers parent) by (intros E; by apply grow_ne).
    + rewrite grow_covers by (by eapply grow_kid_ne). by apply (no_sub _ _ _ Hn).
    + rewrite grow_covers_mem. by apply Hin.
  - assert (∀ c x, c ∈ kids p → cpu_ok s' x → covers s' c x = true → covers s' mem x = true → False) as Hsep.
    { intros c x Hc Hx. rewrite grow_covers_mem, grow_covers by (by eapply grow_kid_ne). intros Hcx Hlx. apply (Hdis c Hc). by exists x. }
    intros c d x [Hc| ->%list_elem_of_singleton]%elem_of_app [Hd| ->%list_elem_of_singleton]%elem_of_app Hx Hcx Hdx; [|by destruct (Hsep c x)|by destruct (Hsep d x)|done].
    rewrite !grow_covers in Hcx, Hdx by (by eapply grow_kid_ne). by apply (no_disj _ _ _ Hn) with x.
  - destruct (no_parent _ _ _ Hn) as [?|(Hq0 & q & Hq & Hc)]; [by left|right; split; [done|]].
    destruct (grow_keep _ _ Hq) as (_ & q' & Hq' & _ & _ & _ & _ & Hk). exists q'. split; [done|by apply Hk].
  - intros i q' Hi Hq'. change (tp_level (add_kid mem p)) with (tp_level p) in Hi. change (tp_parent (add_kid mem p)) with (tp_parent p) in Hq'.
    destruct (no_parent _ _ _ Hn) as [(_ & E & _)|(Hq0 & q & Hq & Hc)]; [lia|].
    destruct (grow_keep _ _ Hq) as (_ & q2 & Hq2 & _ & _ & _ & Ei & _). assert (q2 = q') as -> by congruence.
    rewrite Ei. by apply (no_above _ _ _ Hn).
Qed.

Lemma grow_other_ok a u : a ≠ mem → a ≠ parent → ts_topo s !! a = Some u → node_ok s' a u.
Proof.
  intros Hne1 Hne2 Hu. pose proof (to_node _ Hok _ _ Hu) as Hn. split; try apply Hn.
  - intros c Hc. destruct (no_kids _ _ _ Hn c Hc) as (k & Hk & Ek & El). destruct (grow_keep c k Hk) as (_ & k' & Hk' & E1 & E2 & _).
    exists k'. split_and!; congruence.
  - intros c x Hc Hx. rewrite !grow_covers by (done || by eapply grow_kid_ne). by apply (no_sub _ _ _ Hn).
  - intros c d x Hc Hd Hx. rewrite !grow_covers by (by eapply grow_kid_ne). by apply (no_disj _ _ _ Hn).
  - destruct (no_parent _ _ _ Hn) as [?|(Hq0 & q & Hq & Hc)]; [by left|right; split; [done|]].
    destruct (grow_keep _ _ Hq) as (_ & q' & Hq' & _ & _ & _ & _ & Hk). exists q'. split; [done|by apply Hk].
  - intros i q' Hi Hq'. destruct (no_parent _ _ _ Hn) as [(_ & E & _)|(Hq0 & q & Hq & Hc)]; [lia|].
    destruct (grow_keep _ _ Hq) as (_ & q2 & Hq2 & _ & _ & _ & Ei & _). assert (q2 = q') as -> by congruence.
    rewrite Ei. by apply (no_above _ _ _ Hn).
Qed.

Lemma grow_nr l : nr_at s' l = nr_at s l + (if decide (l = tp_level p + 1) then 1 else 0).
Proof.
  unfold nr_at, s', grown. simpl. set (P := λ q : Z * topology, tp_level q.2 = l).
  assert (size (filter P (<[parent := add_kid mem p]> (<[mem := t]> (ts_topo s)))) = size (filter P (<[mem := t]> (ts_topo s)))) as ->.
  { assert (<[mem := t]> (ts_topo s) !! parent = Some p) as Hp' by (rewrite lookup_insert_ne by apply grow_ne; done).
    destruct (decide (tp_level p = l)) as [E|E].
    - rewrite map_filter_insert_True by done. rewrite map_size_insert_Some; [done|]. exists p. by apply map_lookup_filter_Some.
    - rewrite map_filter_insert_not' by (try done; intros y Hy; assert (y = p) as -> by congruence; done). done. }
  assert (ts_topo s !! mem = None) as Hf by done. destruct (decide (l = tp_level p + 1)) as [E|E].
  - rewrite map_filter_insert_True by (unfold P; simpl; rewrite (fn_level _ _ _ _ _ _ _ Hfresh); done).
    rewrite map_size_insert_None by (apply map_lookup_filter_None; by left). lia.
  - rewrite map_filter_insert_not' by (unfold P; simpl; rewrite ?(fn_level _ _ _ _ _ _ _ Hfresh); congruence). lia.
Qed.

Lemma grow_ok : topo_ok s'.
Proof.
  split.
  - intros a u' Hu'. destruct (decide (a = mem)) as [->|Hne]; [rewrite grow_at_mem in Hu'; assert (u' = t) as -> by congruence; apply grow_mem_ok|].
    destruct (decide (a = parent)) as [->|Hne']; [rewrite grow_at_parent in Hu'; assert (u' = add_kid mem p) as -> by congruence; apply grow_parent_ok|].
    rewrite grow_other in Hu' by done. by apply grow_other_ok.
  - change (ts_all s') with (ts_all s). pose proof (to_all _ Hok) as Ha. case_decide as E; [rewrite Ha in Hp; done|].
    destruct Ha as (r & Hr & Er). destruct (grow_keep _ _ Hr) as (_ & r' & Hr' & E1 & _). exists r'. by rewrite E1.
  - intros l i a Ha. change (ts_nodes s') with (<[(tp_level p + 1, id) := mem]> (ts_nodes s)) in Ha.
    apply lookup_insert_Some in Ha as [[[= <- <-] <-]|[_ Ha]].
    + exists t. pose proof (no_level _ _ _ grow_node). destruct Hfresh as [F1 F2 F3 F4 F5 F6 F7]. split_and!; [apply grow_at_mem|done|].
      rewrite F6 by lia. rewrite Z2Nat.id by lia. unfold target_id. by rewrite Z.ltb_irrefl, Z.eqb_refl.
    + destruct (to_nodes _ Hok _ _ _ Ha) as (u & Hu & E1 & E2). destruct (grow_keep _ _ Hu) as (_ & u' & Hu' & _ & E3 & _ & E4 & _).
      exists u'. split_and!; congruence.
  - intros a u i Hu Hi. change (ts_nodes s') with (<[(tp_level p + 1, id) := mem]> (ts_nodes s)).
    destruct (decide ((tp_level p + 1, id) = (tp_level u, i))) as [->|Hne]; [by rewrite lookup_insert_eq|rewrite lookup_insert_ne by done].
    destruct (grow_back _ _ Hu) as [[-> ->]|(_ & u0 & Hu0 & _ & E1 & _ & E2)].
    + exfalso. apply Hne. destruct Hfresh as [F1 F2 F3 F4 F5 F6 F7]. pose proof (no_level _ _ _ grow_node). rewrite F4, F6 in Hi by lia. rewrite Z2Nat.id in Hi by lia.
      unfold target_id in Hi. rewrite Z.ltb_irrefl, Z.eqb_refl in Hi. congruence.
    + rewrite E1, E2 in *. by eapply (to_found _ Hok).
  - apply (to_max _ Hok).
  - destruct (to_nr _ Hok) as [Hlen Hnr]. pose proof (no_level _ _ _ grow_node) as Hl.
    change (ts_nr s') with (<[Z.to_nat (tp_level p) := s32 (nth (Z.to_nat (tp_level p)) (ts_nr s) 0 + 1)]> (ts_nr s)).
    split; [by rewrite length_insert|]. intros l Hl4. rewrite grow_nr. destruct (decide (l = tp_level p)) as [->|Hne].
    + rewrite list_lookup_insert_eq by lia. rewrite decide_True by done. rewrite (nth_lookup_Some _ _ _ _ (Hnr (tp_level p) ltac:(lia))). f_equal.
      apply s32_succ.
    + rewrite list_lookup_insert_ne by lia. rewrite decide_False by lia. rewrite Z.add_0_r. by apply Hnr.
Qed.
End add.
End grow.

(** * [topo_add] and [topo_init] on a tree that satisfies the invariant *)

Section add.
Context {A : Type} `{SlabAllocator A}.
Implicit Types s : topo_state A.

(** The first node. *)
Definition rooted s (mem : Z) (t : topology) (id : Z) : topo_state A :=
  with_all mem (with_nodes <[(0, id) := mem]> (with_topo <[mem := t]> s)).

Lemma rooted_ok s mem m id lk t :
  topo_ok s → ts_all s = NULL → mem ≠ NULL → fresh_node s NULL m 0 id None t → 0 <= id < NR_CPUS → mask (ts_bm s) m lk →
  topo_ok (rooted s mem t id).
Proof.
  intros Hok Hall Hmem [F1 F2 F3 F4 F5 F6 F7] Hid Hm. pose proof (to_all _ Hok) as He. rewrite decide_True in He by done.
  assert (kids t = []) as Ek by (unfold kids; by rewrite F2). destruct F7 as (mx & Hmx & Hlen).
  destruct (to_max _ Hok) as [Hml Hr]. pose proof Hr as Hr'. rewrite Forall_forall in Hr'. specialize (Hr' mx (list_elem_of_lookup_2 _ _ _ Hmx)).
  assert (∀ i, 0 <= i < 5 → tp_level_ids t !! Z.to_nat i = Some (target_id None 0 id i)) as Hids.
  { intros i Hi. rewrite F6 by lia. by rewrite Z2Nat.id by lia. }
  assert (∀ a u, ts_topo (rooted s mem t id) !! a = Some u → a = mem ∧ u = t) as Honly.
  { intros a u. unfold rooted. simpl. rewrite He. intros [[<- <-]|[_ ?]]%lookup_insert_Some; [done|]. by rewrite lookup_empty in *. }
  assert (ts_topo (rooted s mem t id) !! mem = Some t) as Hat by apply lookup_insert_eq.
  split.
  - intros a u [-> ->]%Honly. split; rewrite ?Ek, ?F4; try done; try lia.
    + exists mx. split_and!; [done|done|lia..].
    + intros c Hc. by apply not_elem_of_nil in Hc.
    + apply NoDup_nil_2.
    + intros c x Hc. by apply not_elem_of_nil in Hc.
    + intros c d x Hc. by apply not_elem_of_nil in Hc.
    + by left.
    + exists lk. by rewrite F3.
    + exists id. split; [|done]. by rewrite Hids by lia.
    + intros i Hi. rewrite Hids by lia. unfold target_id. by rewrite (proj2 (Z.eqb_neq _ _)) by lia.
  - change (ts_all (rooted s mem t id)) with mem. rewrite decide_False by done. by exists t.
  - intros l i a Ha. change (ts_nodes (rooted s mem t id)) with (<[(0, id) := mem]> (ts_nodes s)) in Ha.
    apply lookup_insert_Some in Ha as [[[= <- <-] <-]|[_ Ha]].
    + exists t. split_and!; [done|done|]. by rewrite Hids by lia.
    + apply (to_nodes _ Hok) in Ha as (u & Hu & _). by rewrite He in Hu.
  - intros a u i [-> ->]%Honly Hi. rewrite F4, Hids in Hi by lia. injection Hi as <-. rewrite F4. simpl. rewrite lookup_insert_eq. eauto.
  - by apply (to_max _ Hok).
  - destruct (to_nr _ Hok) as [Hl Hn]. split; [done|]. intros l Hl4. change (ts_nr (rooted s mem t id)) with (ts_nr s). rewrite (Hn l Hl4). do 2 f_equal. unfold nr_at. simpl. rewrite He.
    rewrite map_filter_insert_not' by (simpl; lia || done). done.
Qed.

Section fixed.
Context s (mem : Z) (raw : topology) (m id : Z) (lk : list Z) (cl : nat).
Context (Hok : topo_ok s) (Hmem : mem ≠ NULL → ts_topo s !! mem = None) (Hm : mask (ts_bm s) m lk) (Hm0 : m ≠ NULL)
  (Hcl : ∀ a t, ts_topo s !! a = Some t → tp_nr_children t <= Z.of_nat cl).

(** The place for the new node: it contains the mask and its children are apart from the mask. *)
Definition place (a : Z) : Prop := contains s a lk ∧ ∃ t, ts_topo s !! a = Some t ∧ ∀ c, c ∈ kids t → ¬ contains s c lk ∧ ¬ meets s c lk.
(** There is room for a child of [t]. *)
Definition accepts (t : topology) : Prop :=
  mem ≠ NULL ∧ 0 <= id < NR_CPUS ∧ tp_level t < 4 ∧ ∃ mx, ts_max_children s !! Z.to_nat (tp_level t) = Some mx ∧ tp_nr_children t < mx.

Lemma topo_add_spec a t : ts_topo s !! a = Some t →
  wp (topo_add mem raw a m id) (λ r s', r = 0 ∧ accepts t ∧ (∃ u, fresh_node s a m (tp_level t + 1) id (Some t) u ∧
      s' = with_nodes <[(tp_level t + 1, id) := mem]> (with_topo (λ M, <[a := add_kid mem t]> (<[mem := u]> M)) s))
    ∨ r ≠ 0 ∧ ¬ accepts t ∧ s' = s) s.
Proof.
  intros Ht. pose proof (to_node _ Hok _ _ Ht) as Hn. pose proof (no_level _ _ _ Hn) as Hl. destruct (no_room _ _ _ Hn) as (mx & Hmx & Hlen & Hnr & Hlt).
  unfold topo_add. rewrite (proj2 (Z.eqb_neq _ _) Hm0). wbind. eapply wp_rdt; [done|]. unfold TOPO_MAX_LEVEL. rewrite (proj2 (Z.leb_gt _ _)) by lia.
  wstep. wbind. eapply wp_elem; [lia|done|]. destruct (Z.leb_spec mx (tp_nr_children t)).
  { apply wp_ret. right. split_and!; [done| |done]. intros (_ & _ & _ & mx' & Hmx' & ?). assert (mx' = mx) by congruence. lia. }
  wbind. eapply wp_mono; [apply (topo_node_spec mem raw a m id (Some t) (tp_level t + 1)); [done| |done|lia|done]|].
  { unfold has_parent. split_and!; [apply Hn|done|apply Hn]. }
  intros r s1. cbv beta. case_decide as Hd.
  - intros (-> & u & Hu & ->). destruct Hd as (Hd1 & Hd2 & Hd3). rewrite (proj2 (Z.eqb_neq _ _) Hd1). specialize (Hmem Hd1).
    assert (mem ≠ a) as Hne by congruence. wbind. eapply wp_rdt; [simpl; by rewrite lookup_insert_ne|].
    destruct (lookup_lt_is_Some_2 (tp_children t) (Z.to_nat (tp_nr_children t))) as [v Hv]; [lia|]. wbind. eapply wp_elem; [lia|done|].
    wbind. eapply wp_wrt; [simpl; by rewrite lookup_insert_ne|]. wbind. eapply wp_wrt; [apply lookup_insert_eq|]. apply wp_ret. left.
    split; [done|]. split; [split; [done|]; split; [done|]; split; [lia|eauto]|]. exists u. split; [done|].
    rewrite u64_small by (unfold is_u64, two64, two31 in *; lia). unfold with_nodes, with_topo. simpl. f_equal. by rewrite insert_insert_eq.
  - intros (-> & ->). apply wp_ret. right. split_and!; [done| |done]. intros (? & ? & ? & _). apply Hd. split; [done|]. split; [done|lia].
Qed.

(** The inner loop finds the child that contains the mask, or one that meets it, or none. *)
Lemma init_scan_spec a t n j child : ts_topo s !! a = Some t → 0 <= j <= tp_nr_children t → tp_nr_children t - j <= Z.of_nat n →
  (∀ i c, (i < Z.to_nat j)%nat → kids t !! i = Some c → ¬ contains s c lk ∧ ¬ meets s c lk) →
  ∃ e j' child', init_scan n j child a m s = Some ((e, j', child'), s) ∧
    match e with
    | None => j' = tp_nr_children t ∧ (∀ c, c ∈ kids t → ¬ contains s c lk ∧ ¬ meets s c lk)
        ∨ j' < tp_nr_children t ∧ child' ∈ kids t ∧ contains s child' lk
    | Some e => e ≠ 0 ∧ ∃ c, c ∈ kids t ∧ ¬ contains s c lk ∧ meets s c lk
    end.
Proof.
  intros Ht. pose proof (to_node _ Hok _ _ Ht) as Hn. revert j child. induction n as [|n IH]; intros j child Hj Hfuel Hbefore.
  { exists None, j, child. split; [done|]. left. split; [lia|]. intros c [i Hi]%list_elem_of_lookup.
    apply (Hbefore i c); [|done]. apply lookup_lt_Some in Hi. rewrite (kids_len _ _ _ Hn) in Hi. lia. }
  cbn [init_scan]. rewrite (ST_bind_run _ _ _ t s) by (unfold rdt; by rewrite Ht). destruct (Z.leb_spec (tp_nr_children t) j).
  { exists None, j, child. split; [done|]. left. split; [lia|]. intros c [i Hi]%list_elem_of_lookup.
    apply (Hbefore i c); [|done]. apply lookup_lt_Some in Hi. rewrite (kids_len _ _ _ Hn) in Hi. lia. }
  destruct (kids_elem s a t j Hn) as (c & Hc1 & Hc2); [lia|].
  rewrite (ST_bind_run _ _ _ c s) by (unfold elem; rewrite (proj2 (Z.ltb_ge _ _)) by lia; unfold of_option; by rewrite Hc1).
  assert (c ∈ kids t) as Hin by (by eapply list_elem_of_lookup_2). destruct (no_kids _ _ _ Hn c Hin) as (k & Hk & _).
  destruct (topo_subset_run s c k m lk Hok Hk Hm) as (r & E & Hr). rewrite (ST_bind_run _ _ _ _ _ E). destruct r.
  { exists None, j, c. split; [done|]. right. split_and!; [done|done|by apply Hr]. }
  rewrite (ST_bind_run _ _ _ k s) by (unfold rdt; by rewrite Hk).
  destruct (intersects_run s c k m lk Hok Hk Hm) as (x & Ex & Hx). rewrite (ST_bind_run _ _ _ _ _ Ex).
  assert (¬ contains s c lk) as Hnc by (rewrite <-Hr; done). destruct x.
  { exists (Some (- EINVAL)), j, c. split; [done|]. split; [done|]. exists c. split_and!; [done|done|by apply Hx]. }
  destruct (IH (j + 1) c) as (e & j' & child' & E' & HQ); [lia|lia| |by exists e, j', child'].
  intros i d Hi Hd. destruct (decide (i = Z.to_nat j)) as [->|Hne]; [|apply (Hbefore i d); [lia|done]].
  assert (d = c) as -> by congruence. split; [done|]. by rewrite <-Hx.
Qed.

(** The outcome of the search from a node that contains the mask. *)
Definition outcome (r : Z) (s' : topo_state A) : Prop :=
  (r = 0 ∧ ∃ a t u, place a ∧ ts_topo s !! a = Some t ∧ accepts t ∧ fresh_node s a m (tp_level t + 1) id (Some t) u ∧ s' = grown s a t mem u id)
  ∨ (r ≠ 0 ∧ s' = s ∧
     ((∃ a t, place a ∧ ts_topo s !! a = Some t ∧ ¬ accepts t) ∨ ¬ contains s (ts_all s) lk ∨
      (∃ a t c, contains s a lk ∧ ts_topo s !! a = Some t ∧ c ∈ kids t ∧ ¬ contains s c lk ∧ meets s c lk))).

Lemma init_loop_spec n i a t child : ts_topo s !! a = Some t → tp_level t = i → 5 - i <= Z.of_nat n → (contains s a lk ∨ a = ts_all s) →
  wp (init_loop n cl i a child mem raw m id) (λ r s', ∃ ret, r = inl ret ∧ outcome ret s') s.
Proof.
  revert i a t child. induction n as [|n IH]; intros i a t child Ht Hi Hfuel Hc; pose proof (to_node _ Hok _ _ Ht) as Hn;
    pose proof (no_level _ _ _ Hn) as Hl; [lia|].
  cbn [init_loop]. unfold TOPO_MAX_LEVEL. rewrite (proj2 (Z.leb_gt _ _)) by lia.
  destruct (topo_subset_run s a t m lk Hok Ht Hm) as (r & E & Hr). wbind. eapply wp_eq; [exact E|]. destruct r; cbn [negb].
  2: { apply wp_ret. exists (- EINVAL). split; [done|]. right. split; [done|]. split; [done|]. right. left. intros Hca.
       destruct Hc as [Hc| ->]; [by apply Hr in Hc|by apply Hr in Hca]. }
  assert (contains s a lk) as Hca by (by apply Hr). clear Hc.
  destruct (init_scan_spec a t cl 0 child Ht) as (e & j & child' & Es & HQ).
  { destruct (no_room _ _ _ Hn) as (mx & _ & _ & Hnr & _). lia. }
  { specialize (Hcl a t Ht). lia. }
  { intros i' c' Hi'. simpl in Hi'. lia. }
  wbind. eapply wp_eq; [exact Es|]. cbv beta iota. destruct e as [e|].
  { destruct HQ as (He & c & Hcin & Hnc & Hmt). apply wp_ret. exists e. split; [done|]. right. split; [done|]. split; [done|]. right. right. by exists a, t, c. }
  wbind. eapply wp_rdt; [done|]. destruct HQ as [[-> Hnone]|(Hj & Hin & Hcc)].
  - rewrite Z.eqb_refl. assert (place a) as Hpl by (split; [done|]; by exists t). wbind.
    eapply wp_mono; [by apply topo_add_spec|]. intros ret s1 [(-> & Hacc & u & Hu & ->)|(Hret & Hacc & ->)].
    + cbn [Z.eqb negb]. wstep. destruct (to_nr _ Hok) as [Hnl Hnr]. pose proof Hacc as (Ha1 & Ha2 & Ha3 & Ha4).
      wbind. eapply wp_elem; [lia|apply Hnr; lia|]. wstep. apply wp_ret. exists 0. split; [done|]. left. split; [done|]. exists a, t, u.
      split; [done|]. split; [done|]. split; [done|]. split; [done|]. unfold grown, with_nr, with_nodes, with_topo. simpl. f_equal.
      rewrite <-Hi, (nth_lookup_Some _ _ _ _ (Hnr (tp_level t) ltac:(lia))). done.
    + rewrite (proj2 (Z.eqb_neq _ _) Hret). cbn [negb]. apply wp_ret. exists ret. split; [done|]. right. split; [done|]. split; [done|]. left. by exists a, t.
  - rewrite (proj2 (Z.eqb_neq _ _)) by lia. destruct (no_kids _ _ _ Hn _ Hin) as (k & Hk & _ & El).
    rewrite (proj2 (Z.eqb_neq child' _)) by (apply (no_addr _ _ _ (to_node _ Hok _ _ Hk))). apply (IH (i + 1) child' k); [done|lia|lia|by left].
Qed.
End fixed.
End add.
