(* ===== verification/TopologyWalk.v ===== *)
(** * Queries and traversals of the topology tree *)

From S2P Require Import Prelude Slab Bitmap BitmapCorrect Wp Topology TopologyBase.

(** * Queries of the topology tree

    The loops over the children of a node, and the walks down to a leaf and up to an ancestor. *)

Section queries.
Context {A : Type} `{SlabAllocator A}.
Implicit Types s : topo_state A.

Lemma rdt_run s a t : ts_topo s !! a = Some t → rdt a s = Some (t, s).
Proof. unfold rdt. by intros ->. Qed.
Lemma elem_run s l i v : 0 <= i → l !! Z.to_nat i = Some v → elem l i s = Some (v, s).
Proof. intros Hi Hv. unfold elem. rewrite (proj2 (Z.ltb_ge _ _)) by done. unfold of_option. by rewrite Hv. Qed.
Lemma kid_run s a t j : node_ok s a t → 0 <= j < tp_nr_children t →
  ∃ c k, elem (tp_children t) j s = Some (c, s) ∧ kids t !! Z.to_nat j = Some c ∧ ts_topo s !! c = Some k ∧ tp_parent k = a ∧ tp_level k = tp_level t + 1.
Proof.
  intros Hn Hj. destruct (kids_elem s a t j Hn Hj) as (c & Hc1 & Hc2).
  destruct (no_kids _ _ _ Hn c) as (k & Hk & Ek & El); [by eapply list_elem_of_lookup_2|]. exists c, k. split_and!; [apply elem_run; [lia|done]|done..].
Qed.

(** No child before [j] has the property [P]. *)
Definition none_before (P : Z → Prop) (t : topology) (j : Z) : Prop := ∀ i c, (i < Z.to_nat j)%nat → kids t !! i = Some c → ¬ P c.
Lemma none_before_0 P t : none_before P t 0.
Proof. intros i c Hi. simpl in Hi. lia. Qed.
Lemma none_before_next P t j c : 0 <= j → none_before P t j → kids t !! Z.to_nat j = Some c → ¬ P c → none_before P t (j + 1).
Proof.
  intros Hj Hb Hc Hnc i d Hi Hd. destruct (decide (i = Z.to_nat j)) as [->|Hne]; [congruence|apply (Hb i d); [lia|done]].
Qed.
Lemma none_before_all P s a t c : node_ok s a t → none_before P t (tp_nr_children t) → c ∈ kids t → ¬ P c.
Proof.
  intros Hn Hb [i Hi]%list_elem_of_lookup. apply (Hb i c); [|done]. apply lookup_lt_Some in Hi. by rewrite (kids_len _ _ _ Hn) in Hi.
Qed.

Section ok.
Context s (Hok : topo_ok s) (cl : nat) (Hcl : ∀ a t, ts_topo s !! a = Some t → tp_nr_children t <= Z.of_nat cl).

Lemma nr_range a t : ts_topo s !! a = Some t → 0 <= tp_nr_children t < two31.
Proof. intros Ht. destruct (no_room _ _ _ (to_node _ Hok _ _ Ht)) as (mx & _ & _ & ? & ?). lia. Qed.

Lemma find_child_spec a t x n i child : ts_topo s !! a = Some t → cpu_ok s x → 0 <= i <= tp_nr_children t → tp_nr_children t - i <= Z.of_nat n →
  none_before (λ c, covers s c x = true) t i →
  ∃ i' child', find_child n i child a x s = Some ((i', child'), s) ∧
    (i' = tp_nr_children t ∧ (∀ c, c ∈ kids t → covers s c x = false) ∨ i' < tp_nr_children t ∧ child' ∈ kids t ∧ covers s child' x = true).
Proof.
  intros Ht Hx. pose proof (to_node _ Hok _ _ Ht) as Hn. revert i child. induction n as [|n IH]; intros i child Hi Hfuel Hb.
  { exists i, child. split; [done|]. left. assert (i = tp_nr_children t) as -> by lia. split; [done|]. intros c Hc.
    apply not_true_iff_false. by eapply (none_before_all (λ c, covers s c x = true)). }
  cbn [find_child]. rewrite (ST_bind_run _ _ _ _ _ (rdt_run _ _ _ Ht)). destruct (Z.leb_spec (tp_nr_children t) i).
  { exists i, child. split; [done|]. left. assert (i = tp_nr_children t) as -> by lia. split; [done|]. intros c Hc.
    apply not_true_iff_false. by eapply (none_before_all (λ c, covers s c x = true)). }
  destruct (kid_run s a t i Hn) as (c & k & E & Hc & Hk & _); [lia|]. rewrite (ST_bind_run _ _ _ _ _ E).
  rewrite (ST_bind_run _ _ _ _ _ (topo_contains_run s c k x Hok Hk Hx)). destruct (covers s c x) eqn:Ec.
  - exists i, c. split; [done|]. right. split_and!; [done|by eapply list_elem_of_lookup_2|done].
  - apply IH; [lia|lia|]. eapply none_before_next; [lia|done|done|congruence].
Qed.

(** A leaf below [a] that has CPU [x] is below the child that has it. *)
Lemma leaf_below a t c b x : ts_topo s !! a = Some t → cpu_ok s x → c ∈ kids t → covers s c x = true →
  above s a b → covers s b x = true → b = a ∨ above s c b.
Proof.
  intros Ht Hx Hc Hcx Hab Hbx. destruct (above_step s _ _ Hab) as [->|(d & Hd & Hdb)]; [by left|right].
  apply (kid_parent s Hok) in Hd as (t' & Ht' & Hd). assert (t' = t) as -> by congruence.
  assert (d = c) as <-; [|done]. apply (no_disj _ _ _ (to_node _ Hok _ _ Ht)) with x; try done. by eapply above_covers.
Qed.

Definition is_leaf_at (a b x : Z) : Prop := above s a b ∧ covers s b x = true ∧ ∃ u, ts_topo s !! b = Some u ∧ kids u = [].

Lemma find_level_spec x n lvl a t child : ts_topo s !! a = Some t → cpu_ok s x → 0 <= lvl <= tp_level t → 5 - lvl <= Z.of_nat n → covers s a x = true →
  ∃ r, descend n cl lvl a child x s = Some (r, s) ∧ (r ≠ NULL → is_leaf_at a r x) ∧ (r = NULL → ∀ b, ¬ is_leaf_at a b x).
Proof.
  revert lvl a t child. induction n as [|n IH]; intros lvl a t child Ht Hx Hl Hn Ha; pose proof (to_node _ Hok _ _ Ht) as Hno;
    pose proof (no_level _ _ _ Hno) as Hle; [lia|].
  cbn [descend]. unfold TOPO_MAX_LEVEL. rewrite (proj2 (Z.leb_gt _ _)) by lia. rewrite (ST_bind_run _ _ _ _ _ (rdt_run _ _ _ Ht)).
  pose proof (kids_len _ _ _ Hno) as Hkl. destruct (Z.eqb_spec (tp_nr_children t) 0) as [E0|E0].
  { exists a. split; [done|]. split; [|intros E; by destruct (no_addr _ _ _ Hno)]. intros _. split; [apply rtc_refl|]. split; [done|].
    exists t. split; [done|]. apply nil_length_inv. lia. }
  pose proof (nr_range _ _ Ht). destruct (find_child_spec a t x cl 0 child Ht Hx) as (i & c & E & HQ); [lia|specialize (Hcl _ _ Ht); lia|apply none_before_0|].
  rewrite (ST_bind_run _ _ _ _ _ E). cbv beta iota. rewrite (ST_bind_run _ _ _ _ _ (rdt_run _ _ _ Ht)). destruct HQ as [[-> Hnone]|(Hi & Hc & Hcx)].
  - rewrite Z.eqb_refl. exists NULL. split; [done|]. split; [done|]. intros _ b (Hab & Hbx & u & Hu & Hk).
    destruct (above_step s _ _ Hab) as [->|(d & Hd & Hdb)].
    + assert (u = t) as -> by congruence. rewrite Hk in Hkl. simpl in Hkl. lia.
    + apply (kid_parent s Hok) in Hd as (t' & Ht' & Hd). assert (t' = t) as -> by congruence.
      pose proof (above_covers s Hok _ _ x Hdb Hx Hbx). specialize (Hnone d Hd). congruence.
  - rewrite (proj2 (Z.eqb_neq _ _)) by lia. destruct (no_kids _ _ _ Hno c Hc) as (k & Hk & Ek & El).
    destruct (IH (lvl + 1) c k c Hk Hx) as (r & Er & Hr1 & Hr2); [lia|lia|done|]. exists r. split; [done|].
    assert (child_of s c a) as Hca by (split; [apply Hno|eauto]). split.
    + intros Hr. destruct (Hr1 Hr) as (? & ? & ?). split; [by eapply rtc_r|done].
    + intros Hr b (Hab & Hbx & u & Hu & Hku). destruct (leaf_below a t c b x Ht Hx Hc Hcx Hab Hbx) as [->|Hcb]; [|apply (Hr2 Hr b); split; [done|]; split; [done|]; by exists u].
      assert (u = t) as -> by congruence. rewrite Hku in Hc. by apply not_elem_of_nil in Hc.
Qed.

Lemma find_ancestor_spec x n a t : ts_topo s !! a = Some t → cpu_ok s x → tp_level t < Z.of_nat n →
  ∃ r, topo_find_ancestor n a x s = Some (r, s) ∧ above s r a ∧ (covers s r x = true ∨ r = ts_all s) ∧
    (∀ b, above s b a → covers s b x = true → above s b r).
Proof.
  revert a t. induction n as [|n IH]; intros a t Ht Hx Hn; pose proof (to_node _ Hok _ _ Ht) as Hno; pose proof (no_level _ _ _ Hno); [lia|].
  cbn [topo_find_ancestor]. rewrite (ST_bind_run _ _ _ _ _ (rdt_run _ _ _ Ht)). destruct (no_parent _ _ _ Hno) as [(Ep & El & ->)|(Hne & p & Hp & Hin)].
  { rewrite Ep. exists (ts_all s). split; [done|]. split; [apply rtc_refl|]. split; [by right|done]. }
  rewrite (proj2 (Z.eqb_neq _ _) Hne). rewrite (ST_bind_run _ _ _ _ _ (topo_contains_run s a t x Hok Ht Hx)). destruct (covers s a x) eqn:Ea.
  { exists a. split; [done|]. split; [apply rtc_refl|]. split; [by left|done]. }
  assert (child_of s a (tp_parent t)) as Hc by (split; eauto). pose proof (kid_level s Hok _ _ _ _ Hc Ht Hp).
  destruct (IH _ _ Hp Hx) as (r & Er & Hr1 & Hr2 & Hr3); [lia|]. exists r. split; [done|]. split; [by eapply rtc_l|]. split; [done|].
  intros b Hb Hbx. apply Hr3; [|done]. apply rtc_inv in Hb as [->|(q & (_ & t' & Ht' & <-) & Hq)]; [congruence|]. by assert (t' = t) as -> by congruence.
Qed.

Lemma sibling_loop_spec x p t n i : ts_topo s !! p = Some t → cpu_ok s x → 0 <= i <= tp_nr_children t → tp_nr_children t - i <= Z.of_nat n →
  none_before (λ c, covers s c x = true) t i →
  ∃ r, sibling_loop n i p x s = Some (r, s) ∧ (r = NULL ∧ (∀ c, c ∈ kids t → covers s c x = false) ∨ r ≠ NULL ∧ r ∈ kids t ∧ covers s r x = true).
Proof.
  intros Ht Hx. pose proof (to_node _ Hok _ _ Ht) as Hn. revert i. induction n as [|n IH]; intros i Hi Hfuel Hb.
  { exists NULL. split; [done|]. left. split; [done|]. assert (i = tp_nr_children t) as -> by lia. intros c Hc.
    apply not_true_iff_false. by eapply (none_before_all (λ c, covers s c x = true)). }
  cbn [sibling_loop]. rewrite (ST_bind_run _ _ _ _ _ (rdt_run _ _ _ Ht)). destruct (Z.leb_spec (tp_nr_children t) i).
  { exists NULL. split; [done|]. left. split; [done|]. assert (i = tp_nr_children t) as -> by lia. intros c Hc.
    apply not_true_iff_false. by eapply (none_before_all (λ c, covers s c x = true)). }
  destruct (kid_run s p t i Hn) as (c & k & E & Hc & Hk & _); [lia|]. rewrite (ST_bind_run _ _ _ _ _ E).
  rewrite (ST_bind_run _ _ _ _ _ (topo_contains_run s c k x Hok Hk Hx)). destruct (covers s c x) eqn:Ec.
  - exists c. split; [done|]. right. split_and!; [apply (no_addr _ _ _ (to_node _ Hok _ _ Hk))|by eapply list_elem_of_lookup_2|done].
  - apply IH; [lia|lia|]. eapply none_before_next; [lia|done|done|congruence].
Qed.

Lemma mask_level_spec n a t l : ts_topo s !! a = Some t → 0 <= l <= tp_level t → tp_level t - l <= Z.of_nat n →
  ∃ r u, mask_level_loop n a l s = Some (r, s) ∧ above s r a ∧ ts_topo s !! r = Some u ∧ tp_level u = l.
Proof.
  revert a t. induction n as [|n IH]; intros a t Ht Hl Hn.
  { exists a, t. split; [done|]. split; [apply rtc_refl|]. split; [done|lia]. }
  cbn [mask_level_loop]. rewrite (ST_bind_run _ _ _ _ _ (rdt_run _ _ _ Ht)). destruct (Z.ltb_spec l (tp_level t)).
  - destruct (no_parent _ _ _ (to_node _ Hok _ _ Ht)) as [(_ & ? & _)|(Hne & p & Hp & Hin)]; [lia|].
    assert (child_of s a (tp_parent t)) as Hc by (split; eauto). pose proof (kid_level s Hok _ _ _ _ Hc Ht Hp).
    destruct (IH _ _ Hp) as (r & u & E & Hr & Hu & El); [lia|lia|]. exists r, u. split_and!; [done|by eapply rtc_l|done|done].
  - exists a, t. split; [done|]. split; [apply rtc_refl|]. split; [done|lia].
Qed.
End ok.
End queries.

(** * Traversal of the topology tree

    The iterator walks the nodes depth first: [iter_at] relates the indices of an iterator at a
    node to the list of the nodes that come after the subtree of this node. *)

Section walk.
Context {A : Type} `{SlabAllocator A}.
Implicit Types s : topo_state A.

(** [iter_at s idx a l]: the indices [idx] lead to [a], and [l] is what comes after the subtree of [a]. *)
Inductive iter_at s (idx : list Z) : Z → list Z → Prop :=
  | iter_root : iter_at s idx (ts_all s) []
  | iter_kid p t k1 a k2 l : ts_topo s !! p = Some t → kids t = k1 ++ a :: k2 → iter_at s idx p l →
      idx !! Z.to_nat (tp_level t + 1) = Some (Z.of_nat (length k1)) → iter_at s idx a ((k2 ≫= descendants s) ++ l).

(** An iterator and the nodes it will still visit. *)
Definition iter_todo s (it : topo_iter) (todo : list Z) : Prop :=
  length (it_indices it) = 5%nat ∧ ∃ l, iter_at s (it_indices it) (it_topo it) l ∧ (∃ t, ts_topo s !! it_topo it = Some t) ∧
    todo = tail (descendants s (it_topo it)) ++ l.

(** The result of a step with [todo] ahead. *)
Definition stepped s (todo : list Z) (r : bool * topo_iter) : Prop :=
  match todo with
  | [] => r.1 = false
  | c :: todo => r.1 = true ∧ it_topo r.2 = c ∧ iter_todo s r.2 todo
  end.

Section ok.
Context s (Hok : topo_ok s) (cl : nat) (Hcl : ∀ a t, ts_topo s !! a = Some t → tp_nr_children t <= Z.of_nat cl) (Hcl5 : (5 <= cl)%nat).

Lemma iter_ext idx idx' a l t : iter_at s idx a l → ts_topo s !! a = Some t →
  (∀ i, 0 < i <= tp_level t → idx' !! Z.to_nat i = idx !! Z.to_nat i) → iter_at s idx' a l.
Proof.
  intros Hi. revert t. induction Hi as [|p u k1 a k2 l Hu Hk Hp IH Hix]; intros t Ht He; [constructor|].
  assert (child_of s a p) as Hc by (apply (kid_parent s Hok); exists u; split; [done|]; rewrite Hk; apply elem_of_app; right; by left).
  pose proof (kid_level s Hok _ _ _ _ Hc Ht Hu) as El. pose proof (no_level _ _ _ (to_node _ Hok _ _ Hu)). apply (iter_kid s idx' p u k1); [done|done| |].
  - apply (IH u Hu). intros i Hi'. apply He. lia.
  - rewrite He by lia. done.
Qed.

Lemma descendants_tail a t : ts_topo s !! a = Some t → tail (descendants s a) = kids t ≫= descendants s.
Proof. intros Ht. by rewrite (descendants_eq s Hok a t Ht). Qed.
Lemma descendants_cons a t : ts_topo s !! a = Some t → descendants s a = a :: tail (descendants s a).
Proof. intros Ht. by rewrite (descendants_eq s Hok a t Ht). Qed.

(** To a child, with its index. *)
Lemma to_kid idx p t k1 c k2 l : ts_topo s !! p = Some t → kids t = k1 ++ c :: k2 → iter_at s idx p l → length idx = 5%nat →
  iter_todo s (TopoIter c (<[Z.to_nat (tp_level t + 1) := Z.of_nat (length k1)]> idx)) (tail (descendants s c) ++ (k2 ≫= descendants s) ++ l).
Proof.
  intros Ht Hk Hp Hlen. assert (c ∈ kids t) as Hin by (rewrite Hk; apply elem_of_app; right; by left).
  destruct (no_kids _ _ _ (to_node _ Hok _ _ Ht) c Hin) as (k & Hkk & _ & El).
  pose proof (no_level _ _ _ (to_node _ Hok _ _ Ht)). pose proof (no_level _ _ _ (to_node _ Hok _ _ Hkk)).
  split; [simpl; by rewrite length_insert|]. exists ((k2 ≫= descendants s) ++ l). split; [|split; [by exists k|done]].
  apply (iter_kid s _ p t k1); [done|done| |].
  - eapply iter_ext; [done|done|]. intros i Hi. simpl. by rewrite list_lookup_insert_ne by lia.
  - simpl. rewrite list_lookup_insert_eq; [done|lia].
Qed.

(** Up to the next ancestor with a right sibling. *)
Lemma iter_up_spec idx a l : iter_at s idx a l → ∀ t n idx', ts_topo s !! a = Some t → tp_level t <= Z.of_nat n → length idx' = 5%nat →
  (∀ i, 0 < i <= tp_level t → idx' !! Z.to_nat i = idx !! Z.to_nat i) →
  ∃ r, iter_up n (TopoIter a idx') s = Some (r, s) ∧ stepped s l r.
Proof.
  induction 1 as [|p u k1 a k2 l Hu Hk Hp IH Hix]; intros t n idx' Ht Hn Hlen He.
  { assert (tp_level t = 0) as E0.
    { pose proof (to_all _ Hok) as Hall. case_decide as E; [rewrite Hall in Ht; done|]. destruct Hall as (r & Hr & Er). assert (r = t) as -> by congruence.
      destruct (no_parent _ _ _ (to_node _ Hok _ _ Ht)) as [(_ & ? & _)|(? & _)]; [done|congruence]. }
    exists (false, TopoIter (ts_all s) idx'). split; [|done]. destruct n; cbn [iter_up it_topo]; rewrite (ST_bind_run _ _ _ _ _ (rdt_run _ _ _ Ht)), E0; done. }
  pose proof (to_node _ Hok _ _ Hu) as Hnu. pose proof (no_level _ _ _ Hnu) as Hlu. pose proof (to_node _ Hok _ _ Ht) as Hnt. pose proof (no_level _ _ _ Hnt) as Hlt.
  assert (child_of s a p) as Hc by (apply (kid_parent s Hok); exists u; split; [done|]; rewrite Hk; apply elem_of_app; right; by left).
  pose proof (kid_level s Hok _ _ _ _ Hc Ht Hu) as El. destruct n as [|n]; [lia|].
  cbn [iter_up it_topo it_indices]. rewrite (ST_bind_run _ _ _ _ _ (rdt_run _ _ _ Ht)). unfold TOPO_MAX_LEVEL.
  rewrite (proj2 (Z.leb_gt _ _)), (proj2 (Z.ltb_ge _ _)), (proj2 (Z.leb_gt 5 _)) by lia. cbn [orb].
  rewrite (ST_bind_run _ _ _ (Z.of_nat (length k1)) s) by (apply elem_run; [lia|]; rewrite He by lia; by rewrite El).
  assert (tp_parent t = p) as Ep by (destruct Hc as (_ & t' & Ht' & <-); congruence). rewrite Ep, (ST_bind_run _ _ _ _ _ (rdt_run _ _ _ Hu)).
  pose proof (kids_len _ _ _ Hnu) as Hkl. rewrite Hk, length_app in Hkl. simpl in Hkl. pose proof (nr_range s Hok _ _ Hu) as Hr.
  rewrite s32_small by (unfold two31 in *; lia). destruct k2 as [|c k2].
  - simpl in Hkl. rewrite (proj2 (Z.eqb_eq _ _)) by lia. unfold set_index, set_pos. cbn [it_topo it_indices].
    destruct (IH u n (<[Z.to_nat (tp_level t) := -1]> (<[Z.to_nat (tp_level t) := Z.of_nat (length k1) + 1]> idx')) Hu) as (r & Er & HQ); [lia|by rewrite !length_insert| |].
    + intros i Hi. rewrite !list_lookup_insert_ne by lia. apply He. lia.
    + exists r. split; [exact Er|done].
  - simpl in Hkl. rewrite (proj2 (Z.eqb_neq _ _)) by lia. destruct (kid_run s p u (Z.of_nat (length k1) + 1) Hnu) as (d & k & Ed & Hd & Hdk & _); [lia|].
    rewrite (ST_bind_run _ _ _ _ _ Ed). eexists. split; [reflexivity|].
    rewrite Hk in Hd. replace (Z.to_nat (Z.of_nat (length k1) + 1)) with (length k1 + 1)%nat in Hd by lia. rewrite lookup_app_plus in Hd || idtac.
    rewrite lookup_app_r in Hd by lia. replace (length k1 + 1 - length k1)%nat with 1%nat in Hd by lia. injection Hd as ->.
    rewrite bind_cons, (descendants_cons d k Hdk). cbn [app stepped]. split; [done|]. split; [done|]. unfold set_pos, set_index. cbn [it_indices].
    replace (Z.of_nat (length k1) + 1) with (Z.of_nat (length (k1 ++ [a]))) by (rewrite length_app; simpl; lia). rewrite El, <-app_assoc.
    apply (to_kid idx' p u (k1 ++ [a]) d k2 l Hu); [by rewrite Hk, <-app_assoc| |done].
    eapply iter_ext; [done|done|]. intros i Hi. apply He. lia.
Qed.

Lemma iter_next_spec it todo : iter_todo s it todo → ∃ r, topo_iter_next cl (Some it) s = Some ((r.1, Some r.2), s) ∧ stepped s todo r.
Proof.
  destruct it as [a idx]. intros (Hlen & l & Hl & (t & Ht) & ->). cbn [it_topo it_indices] in *.
  cbn [topo_iter_next it_topo]. rewrite (ST_bind_run _ _ _ _ _ (rdt_run _ _ _ Ht)). pose proof (to_node _ Hok _ _ Ht) as Hn.
  pose proof (no_level _ _ _ Hn). pose proof (kids_len _ _ _ Hn) as Hkl. rewrite (descendants_tail a t Ht). destruct (Z.ltb_spec 0 (tp_nr_children t)).
  - destruct (kid_run s a t 0 Hn) as (c & k & Ec & Hc & Hk & _ & El); [lia|]. rewrite (ST_bind_run _ _ _ _ _ Ec). cbn zeta. rewrite (ST_bind_run _ _ _ _ _ (rdt_run _ _ _ Hk)).
    pose proof (no_level _ _ _ (to_node _ Hok _ _ Hk)). unfold TOPO_MAX_LEVEL. rewrite (proj2 (Z.ltb_ge _ _)), (proj2 (Z.leb_gt _ _)) by lia. cbn [orb].
    exists (true, set_index (tp_level k) 0 (set_pos c (TopoIter a idx))). split; [done|].
    destruct (kids t) as [|c' k2] eqn:Ek; [done|]. simpl in Hc. injection Hc as ->. rewrite bind_cons, (descendants_cons c k Hk). cbn [app stepped fst snd].
    split; [done|]. split; [done|]. unfold set_index, set_pos. cbn [it_topo it_indices]. rewrite El, <-app_assoc. apply (to_kid idx a t [] c k2 l Ht Ek Hl Hlen).
  - assert (kids t = []) as -> by (apply nil_length_inv; lia). destruct (iter_up_spec idx a l Hl t cl idx Ht) as (r & Er & HQ); [lia|done|done|].
    rewrite (ST_bind_run _ _ _ _ _ Er). destruct r as [b it']. exists (b, it'). split; [done|]. exact HQ.
Qed.

(** [topo_iter_level_internal] skips to the next node of the level. *)
Definition at_level (lvl a : Z) : Prop := match ts_topo s !! a with Some t => tp_level t = lvl | None => False end.
#[global] Instance at_level_dec lvl a : Decision (at_level lvl a).
Proof. unfold at_level. destruct (ts_topo s !! a); apply _. Defined.

Lemma iter_level_spec n it lvl todo : iter_todo s it todo → (length todo <= n)%nat →
  ∃ r it', iter_level_loop n cl it lvl s = Some ((r, Some it'), s) ∧
    match filter (at_level lvl) todo with
    | [] => r = NULL
    | c :: l => r = c ∧ c ≠ NULL ∧ ∃ rest, iter_todo s it' rest ∧ filter (at_level lvl) rest = l ∧ (length rest < length todo)%nat
    end.
Proof.
  revert it todo. induction n as [|n IH]; intros it todo Hit Hn; destruct (iter_next_spec it todo Hit) as ([b it'] & E & HQ);
    cbn [iter_level_loop]; rewrite (ST_bind_run _ _ _ _ _ E); cbn [fst snd] in *; destruct todo as [|c todo]; simpl in Hn; try lia;
    cbn [stepped fst snd] in HQ.
  1-2: subst b; exists NULL, it'; split; [done|done].
  destruct HQ as (-> & Ec & Hit'). cbn [negb]. assert (∃ t, ts_topo s !! c = Some t) as (t & Ht) by (destruct Hit' as (_ & l & _ & Hc & _); by rewrite Ec in Hc).
  rewrite Ec, (ST_bind_run _ _ _ _ _ (rdt_run _ _ _ Ht)). destruct (Z.eqb_spec (tp_level t) lvl) as [El|El]; cbn [negb].
  - exists c, it'. split; [done|]. rewrite filter_cons_True by (unfold at_level; by rewrite Ht).
    split; [done|]. split; [apply (no_addr _ _ _ (to_node _ Hok _ _ Ht))|]. exists todo. split; [done|]. split; [done|simpl; lia].
  - rewrite filter_cons_False by (unfold at_level; by rewrite Ht). destruct (IH it' todo Hit') as (r & it2 & E2 & HQ); [lia|]. exists r, it2. split; [done|].
    destruct (filter (at_level lvl) todo) as [|d l]; [done|]. destruct HQ as (? & ? & rest & ? & ? & ?). split; [done|]. split; [done|]. exists rest. split_and!; [done|done|simpl; lia].
Qed.

Lemma for_each_spec n it lvl todo : iter_todo s it todo → (length todo <= n)%nat →
  for_each_loop n cl (Some it) lvl s = Some (filter (at_level lvl) todo, s).
Proof.
  revert it todo. induction n as [|n IH]; intros it todo Hit Hn; cbn [for_each_loop topo_iter_level_internal];
    (edestruct iter_level_spec as (r & it' & E & HQ); [exact Hit|exact Hn|]); rewrite (ST_bind_run _ _ _ _ _ E); cbv beta iota.
  - destruct todo; [|simpl in Hn; lia]. by rewrite HQ.
  - destruct (filter (at_level lvl) todo) as [|c l]; [by rewrite HQ|]. destruct HQ as (-> & Hne & rest & Hrest & Hl & Hlen).
    rewrite (proj2 (Z.eqb_neq _ _) Hne). rewrite (ST_bind_run _ _ _ l s); [done|]. rewrite (IH it' rest); [by rewrite Hl|done|lia].
Qed.

Lemma start_todo r : ts_topo s !! ts_all s = Some r → iter_todo s (TopoIter (ts_all s) (replicate 5 (-1))) (tail (descendants s (ts_all s))).
Proof. intros Hr. split; [done|]. exists []. split; [constructor|]. split; [by exists r|]. by rewrite app_nil_r. Qed.

(** The position of a node among the children. *)
Lemma index_loop_spec p t a k1 k2 n : ts_topo s !! p = Some t → kids t = k1 ++ a :: k2 →
  ∀ i, (i <= length k1)%nat → (length k1 <= i + n)%nat → index_loop n (Z.of_nat i) p a s = Some (Z.of_nat (length k1), s).
Proof.
  intros Ht Hk. pose proof (to_node _ Hok _ _ Ht) as Hn. pose proof (kids_len _ _ _ Hn) as Hkl. rewrite Hk, length_app in Hkl. simpl in Hkl.
  pose proof (no_nodup _ _ _ Hn) as Hnd. rewrite Hk in Hnd. pose proof (nr_range s Hok _ _ Ht) as Hr.
  induction n as [|n IH]; intros i Hi Hf; [cbn [index_loop]; by replace i with (length k1) by lia|].
  cbn [index_loop]. rewrite (ST_bind_run _ _ _ _ _ (rdt_run _ _ _ Ht)). rewrite (proj2 (Z.leb_gt _ _)) by lia.
  destruct (kid_run s p t (Z.of_nat i) Hn) as (c & k & Ec & Hc & _); [lia|]. rewrite (ST_bind_run _ _ _ _ _ Ec).
  rewrite Hk, Nat2Z.id in Hc. destruct (decide (i = length k1)) as [->|Hne].
  - rewrite lookup_app_r, Nat.sub_diag in Hc by lia. injection Hc as ->. by rewrite Z.eqb_refl.
  - rewrite lookup_app_l in Hc by lia. destruct (Z.eqb_spec c a) as [->|_].
    + apply NoDup_app in Hnd as (_ & Hd & _). destruct (Hd a); [by eapply list_elem_of_lookup_2|by left].
    + replace (Z.of_nat i + 1) with (Z.of_nat (S i)) by lia. apply IH; lia.
Qed.

Lemma start_from_spec n a t pos idx : ts_topo s !! a = Some t → tp_level t <= Z.of_nat n → length idx = 5%nat →
  ∃ idx' l, start_from_loop n cl (tp_level t) (tp_parent t) a (TopoIter pos idx) s = Some ((0, TopoIter pos idx'), s) ∧ length idx' = 5%nat ∧
    iter_at s idx' a l ∧ (∀ i, tp_level t < i < 5 → idx' !! Z.to_nat i = idx !! Z.to_nat i).
Proof.
  revert a t idx. induction n as [|n IH]; intros a t idx Ht Hn Hlen; pose proof (to_node _ Hok _ _ Ht) as Hno; pose proof (no_level _ _ _ Hno) as Hl;
    destruct (no_parent _ _ _ Hno) as [(Ep & El & ->)|(Hne & p & Hp & Hin)].
  1, 3: exists (<[Z.to_nat 0 := 0]> idx), []; split; [cbn [start_from_loop]; by rewrite El|]; split; [by rewrite length_insert|]; split; [constructor|];
    intros i Hi; by rewrite list_lookup_insert_ne by lia.
  all: assert (child_of s a (tp_parent t)) as Hc by (split; eauto); pose proof (kid_level s Hok _ _ _ _ Hc Ht Hp) as El;
    pose proof (no_level _ _ _ (to_node _ Hok _ _ Hp)) as Hlp.
  1: lia.
  apply list_elem_of_split in Hin as (k1 & k2 & Hk). cbn [start_from_loop]. rewrite (proj2 (Z.leb_gt _ _)) by lia.
  pose proof (kids_len _ _ _ (to_node _ Hok _ _ Hp)) as Hkl. rewrite Hk, length_app in Hkl. simpl in Hkl. pose proof (nr_range s Hok _ _ Hp) as Hr.
  assert (index_loop cl 0 (tp_parent t) a s = Some (Z.of_nat (length k1), s)) as Ei.
  { apply (index_loop_spec _ _ _ _ _ cl Hp Hk 0%nat); [lia|]. specialize (Hcl _ _ Hp). lia. }
  rewrite (ST_bind_run _ _ _ _ _ Ei), (ST_bind_run _ _ _ _ _ (rdt_run _ _ _ Hp)). unfold TOPO_MAX_LEVEL.
  rewrite (proj2 (Z.eqb_neq _ _)), (proj2 (Z.leb_gt _ _)) by lia. rewrite (ST_bind_run _ _ _ _ _ (rdt_run _ _ _ Ht)).
  destruct (IH _ p (<[Z.to_nat (tp_level t) := Z.of_nat (length k1)]> idx) Hp) as (idx' & l & E & Hlen' & Hat & He); [lia|by rewrite length_insert|].
  exists idx', ((k2 ≫= descendants s) ++ l). rewrite El in *. rewrite Z.add_simpl_r. split; [exact E|]. split; [done|]. split.
  - apply (iter_kid s idx' (tp_parent t) p k1); [done|done|done|]. rewrite He by lia. apply list_lookup_insert_eq. lia.
  - intros i Hi. rewrite He by lia. by rewrite list_lookup_insert_ne by lia.
Qed.
End ok.
End walk.
