(* ===== verification/TopologyClaims.v ===== *)
(** * Theorems on the CPU topology *)

From S2P Require Import Prelude Slab Bitmap BitmapCorrect Wp Topology TopologyBase TopologyGrow TopologyWalk.

Section claims.
Context {A : Type} `{SlabAllocator A}.
Implicit Types s : topo_state A.

(** Every loop over the children of a node ends within [cl] iterations. *)
Definition enough s (cl : nat) : Prop := (5 <= cl)%nat ∧ ∀ a t, ts_topo s !! a = Some t → tp_nr_children t <= Z.of_nat cl.
(** The set is not empty. *)
Definition some_cpu s (lk : list Z) : Prop := ∃ x, cpu_ok s x ∧ cpu_in lk x = true.

Lemma place_below s lk a b x : topo_ok s → place s lk a → above s a b → cpu_ok s x → covers s b x = true → cpu_in lk x = true → a = b.
Proof.
  intros Hok (_ & t & Ht & Hk) Hab Hx Hbx Hlx. destruct (above_step s _ _ Hab) as [->|(c & Hc & Hcb)]; [done|exfalso].
  apply (kid_parent s Hok) in Hc as (t' & Ht' & Hc). assert (t' = t) as -> by congruence. apply (Hk c Hc). exists x.
  split; [done|]. split; [by eapply above_covers|done].
Qed.

Lemma place_unique s lk a b : topo_ok s → some_cpu s lk → place s lk a → place s lk b → a = b.
Proof.
  intros Hok (x & Hx & Hlx) Ha Hb. pose proof (proj1 Ha x Hx Hlx) as Hax. pose proof (proj1 Hb x Hx Hlx) as Hbx.
  destruct (comparable s Hok a b x Hx Hax Hbx); [by eapply place_below|symmetry; by eapply place_below].
Qed.

(** With a place in the tree the search does not fail on its way. *)
Lemma place_reached s lk a : topo_ok s → some_cpu s lk → place s lk a → contains s (ts_all s) lk ∧
  ∀ b t c, contains s b lk → ts_topo s !! b = Some t → c ∈ kids t → ¬ contains s c lk → ¬ meets s c lk.
Proof.
  intros Hok Hne Ha. split.
  - destruct Ha as (Hc & t & Ht & _). intros x Hx Hl. eapply above_covers; [done|by eapply root_above|done|by apply Hc].
  - intros b t c Hb Ht Hc Hnc (x & Hx & Hcx & Hlx). pose proof (proj1 Ha x Hx Hlx) as Hax.
    assert (child_of s c b) as Hcb by (apply (kid_parent s Hok); eauto).
    destruct (comparable s Hok a c x Hx Hax Hcx) as [Hac|Hca].
    + apply above_step in Hac as [->|(d & Hd & Hdc)]; [by apply Hnc, Ha|].
      apply (kid_parent s Hok) in Hd as (u & Hu & Hd). destruct Ha as (_ & u' & Hu' & Hk). assert (u' = u) as -> by congruence.
      apply (Hk d Hd). exists x. split; [done|]. split; [by eapply above_covers|done].
    + apply Hnc. intros y Hy Hly. eapply above_covers; [done|exact Hca|done|by apply Ha].
Qed.

(** A new root, a new child at the place of the set, or a refusal. *)
Definition init_result s (mem m id : Z) (lk : list Z) (r : Z) s' : Prop :=
  r = 0 ∧ ts_all s = NULL ∧ mem ≠ NULL ∧ 0 <= id < NR_CPUS ∧ (∃ t, fresh_node s NULL m 0 id None t ∧ s' = rooted s mem t id)
  ∨ r = 0 ∧ ts_all s ≠ NULL ∧ (∃ a t u, place s lk a ∧ ts_topo s !! a = Some t ∧ accepts s mem id t ∧
      fresh_node s a m (tp_level t + 1) id (Some t) u ∧ s' = grown s a t mem u id)
  ∨ r ≠ 0 ∧ s' = s ∧ (ts_all s = NULL → mem = NULL ∨ ¬ 0 <= id < NR_CPUS) ∧ (∀ a t, place s lk a → ts_topo s !! a = Some t → ¬ accepts s mem id t).

Lemma topo_init_spec s mem raw mem2 m data_size id lk cl :
  topo_ok s → mask (ts_bm s) m lk → m ≠ NULL → some_cpu s lk → (mem ≠ NULL → ts_topo s !! mem = None) → enough s cl →
  wp (topo_init cl mem raw mem2 m data_size id) (λ r s', topo_ok s' ∧ init_result s mem m id lk r s') s.
Proof.
  intros Hok Hm Hm0 Hne Hmem [Hcl5 Hcl]. pose proof (to_all _ Hok) as Hall.
  unfold topo_init. wstep. destruct (Z.eqb_spec (ts_all s) NULL) as [E0|E0].
  - rewrite decide_True in Hall by done. wbind. eapply wp_mono; [apply (topo_node_spec mem raw NULL m id None 0); [done|done|done|lia|done]|].
    intros r s1. cbv beta. case_decide as Hd.
    + intros (-> & t & Ht & ->). destruct Hd as (Hd1 & Hd2 & _). wstep. apply wp_ret. rewrite (proj2 (Z.eqb_neq _ _) Hd1).
      split; [by eapply (rooted_ok s mem m id lk t)|]. left. split; [done|]. split; [done|]. split; [done|]. split; [done|]. by exists t.
    + intros (-> & ->). wstep. apply wp_ret. assert (with_all NULL s = s) as -> by (destruct s; simpl in *; by subst). split; [done|]. right. right.
      split; [done|]. split; [done|]. split; [intros _; destruct (decide (mem = NULL)); [by left|right; intros ?; apply Hd; split; [done|]; split; [done|lia]]|].
      intros a t _ Ha. by rewrite Hall in Ha.
  - rewrite decide_False in Hall by done. destruct Hall as (rt & Hrt & Hrp).
    assert (tp_level rt = 0) as El by (destruct (no_parent _ _ _ (to_node _ Hok _ _ Hrt)) as [(_ & ? & _)|(? & _)]; [done|congruence]).
    wbind. eapply wp_mono; [apply (init_loop_spec s mem raw m id lk cl Hok Hmem Hm Hm0 Hcl cl 0 _ rt); [done|done|lia|by right]|].
    intros r s1 (ret & -> & [(-> & a & t & u & Hpl & Ht & Hacc & Hu & ->)|(Hr & -> & Hwhy)]); apply wp_ret.
    + pose proof Hacc as (Ha1 & Ha2 & Ha3 & Ha4). split; [|right; left; split; [done|]; split; [done|]; by exists a, t, u].
      destruct Hpl as (Hc & t' & Ht' & Hk). assert (t' = t) as -> by congruence.
      eapply grow_ok; try done; [by apply Hmem|]. intros c Hc'. by apply Hk.
    + split; [done|]. right. right. split; [done|]. split; [done|]. split; [done|]. intros a t Hpl Ht Hacc.
      destruct (place_reached s lk a Hok Hne Hpl) as [Hroot Hpath]. destruct Hwhy as [(b & u & Hb & Hu & Hn)|[Hn|(b & u & c & Hb & Hu & Hc & Hnc & Hmt)]].
      * assert (b = a) as -> by (by eapply place_unique). assert (u = t) as -> by congruence. done.
      * done.
      * by apply (Hpath b u c).
Qed.

Lemma nodes_bound s l : topo_ok s → NoDup l → (∀ a, a ∈ l → is_Some (ts_topo s !! a)) → (length l <= size (ts_topo s))%nat.
Proof.
  intros Hok Hnd Hin. rewrite <-size_dom. rewrite <-(size_list_to_set (C := gset Z) l) by done. apply subseteq_size.
  intros a Ha%elem_of_list_to_set. apply elem_of_dom. by apply Hin.
Qed.

Lemma level_count s l L : topo_ok s → NoDup L → (∀ a, a ∈ L ↔ ∃ t, ts_topo s !! a = Some t ∧ tp_level t = l) → nr_at s l = Z.of_nat (length L).
Proof.
  intros Hok Hnd HL. unfold nr_at. rewrite <-size_dom. do 2 f_equal || idtac. rewrite <-(size_list_to_set (C := gset Z) L) by done.
  do 2 f_equal. apply set_eq. intros a. rewrite elem_of_dom, elem_of_list_to_set, HL. split.
  - intros [t Ht]. apply map_lookup_filter_Some in Ht as [Ht El]. by exists t.
  - intros (t & Ht & El). exists t. by apply map_lookup_filter_Some.
Qed.

(** What an iterator leaves behind and has ahead is the whole order. *)
Lemma iter_at_order s idx a l : topo_ok s → iter_at s idx a l → is_Some (ts_topo s !! a) → ∃ pre, descendants s (ts_all s) = pre ++ descendants s a ++ l.
Proof.
  intros Hok. induction 1 as [|p t k1 a k2 l Ht Hk Hp IH Hix]; intros Ha; [exists []; by rewrite app_nil_r|].
  destruct IH as [pre E]; [by exists t|]. exists (pre ++ p :: (k1 ≫= descendants s)). rewrite E, (descendants_eq s Hok p t Ht), Hk, bind_app, bind_cons.
  by rewrite <-!app_assoc, <-!app_comm_cons, <-!app_assoc.
Qed.

Lemma root_node s : topo_ok s → ts_all s ≠ NULL → ∃ r, ts_topo s !! ts_all s = Some r ∧ tp_level r = 0.
Proof.
  intros Hok Hne. pose proof (to_all _ Hok) as Hall. rewrite decide_False in Hall by done. destruct Hall as (r & Hr & Er). exists r. split; [done|].
  destruct (no_parent _ _ _ (to_node _ Hok _ _ Hr)) as [(_ & ? & _)|(? & _)]; congruence.
Qed.

(** The nodes of a level in the order of the traversal. *)
Lemma level_list s lvl r : topo_ok s → ts_topo s !! ts_all s = Some r → let L := filter (at_level s lvl) (descendants s (ts_all s)) in
  NoDup L ∧ ∀ a, a ∈ L ↔ ∃ t, ts_topo s !! a = Some t ∧ tp_level t = lvl.
Proof.
  intros Hok Hr. split; [apply NoDup_filter; by eapply descendants_nodup|]. intros a. rewrite list_elem_of_filter, (elem_descendants s Hok _ _ _ Hr).
  unfold at_level. split.
  - intros [Hl _]. destruct (ts_topo s !! a) as [t|]; [by exists t|done].
  - intros (t & Ht & El). rewrite Ht. split; [done|]. split; [by eapply root_above|done].
Qed.
End claims.

(** C13: [topo_init], which adds a set of CPUs that is not empty to a tree that satisfies the invariant,
    does not fault, keeps the invariant, and either adds exactly one node or changes nothing.  It succeeds in an
    empty tree when there is memory and the identifier is valid, and else exactly when the
    tree has a place for the set -- a node that contains it, whose children are all apart from
    it; there is at most one -- that has room for another child.  The new node is the last child of this
    place, with the set, the level below and the identifiers of its ancestors. *)
Theorem topo_init_correct {A} `{SlabAllocator A} (s : topo_state A) mem raw mem2 m data_size id lk cl :
  topo_ok s → mask (ts_bm s) m lk → m ≠ NULL → some_cpu s lk → (mem ≠ NULL → ts_topo s !! mem = None) → enough s cl →
  (∃ r s', topo_init cl mem raw mem2 m data_size id s = Some (r, s') ∧ topo_ok s' ∧ init_result s mem m id lk r s') ∧
  (∀ a b, place s lk a → place s lk b → a = b).
Proof.
  intros Hok Hm Hm0 Hne Hmem Hcl. split; [apply wp_run; by apply topo_init_spec|]. intros a b. by apply place_unique.
Qed.


(** C14: [TOPO_FOR_EACH_LEVEL] visits every node of a level below the first exactly once, in the order of a
    depth first traversal, whatever the iterator held before, and [TOPO_NR] is their number
    as a 32-bit integer; started by [topo_iter_start_from] in the middle of the tree, the
    iteration visits what is left of this order. *)
Theorem topo_iteration_correct {A} `{SlabAllocator A} (s : topo_state A) cl iter lvl :
  topo_ok s → enough s cl → (size (ts_topo s) <= cl)%nat → ts_all s ≠ NULL → 1 <= lvl < TOPO_MAX_LEVEL →
  ∃ L, TOPO_FOR_EACH_LEVEL cl cl iter lvl s = Some (L, s) ∧ L = filter (at_level s lvl) (descendants s (ts_all s)) ∧
    NoDup L ∧ (∀ a, a ∈ L ↔ ∃ t, ts_topo s !! a = Some t ∧ tp_level t = lvl) ∧ TOPO_NR lvl s = Some (s32 (Z.of_nat (length L)), s) ∧
    ∀ a, a ∈ L → ∃ it before after, topo_iter_start_from cl iter a s = Some ((0, it), s) ∧ L = before ++ a :: after ∧
      for_each_loop cl cl (Some it) lvl s = Some (after, s).
Proof.
  intros Hok [Hcl5 Hcl] Hsize Hroot Hlvl. destruct (root_node s Hok Hroot) as (r & Hr & El). unfold TOPO_MAX_LEVEL in Hlvl.
  destruct (level_list s lvl r Hok Hr) as [HND HL]. set (L := filter (at_level s lvl) (descendants s (ts_all s))) in *.
  assert (length (descendants s (ts_all s)) <= cl)%nat as Hlen.
  { etrans; [|exact Hsize]. apply nodes_bound; [done|by eapply descendants_nodup|]. intros a Ha. by apply (elem_descendants s Hok _ _ _ Hr) in Ha as [_ ?]. }
  rewrite (descendants_cons s Hok _ _ Hr) in Hlen. cbn [length] in Hlen. exists L. split; [|split; [done|]; split; [done|]; split; [done|]; split].
  - unfold TOPO_FOR_EACH_LEVEL, topo_iter_start. erewrite ST_bind_run; [|erewrite ST_bind_run; [|done]; rewrite (proj2 (Z.eqb_neq _ _) Hroot); done]. cbv beta iota.
    rewrite (for_each_spec s Hok cl Hcl5 cl _ lvl _ (start_todo s r Hr)) by lia. do 2 f_equal. unfold L.
    rewrite (descendants_cons s Hok _ _ Hr) at 2. rewrite filter_cons_False; [done|]. unfold at_level. rewrite Hr. lia.
  - unfold TOPO_NR. erewrite ST_bind_run; [|done]. destruct (to_nr _ Hok) as [_ Hnr]. apply elem_run; [lia|]. rewrite Hnr by lia.
    do 2 f_equal. rewrite Z.sub_add. by apply level_count.
  - intros a Ha. apply HL in Ha as (t & Ht & Et). pose proof (no_level _ _ _ (to_node _ Hok _ _ Ht)).
    destruct (start_from_spec s Hok cl Hcl Hcl5 cl a t a (replicate 5 (-1)) Ht) as (idx & l & E & Hi & Hat & _); [lia|done|].
    destruct (iter_at_order s idx a l Hok Hat) as [pre Ho]; [by exists t|]. assert (iter_todo s (TopoIter a idx) (tail (descendants s a) ++ l)) as Htd.
    { split; [done|]. exists l. split; [done|]. split; [by exists t|done]. }
    exists (TopoIter a idx), (filter (at_level s lvl) pre), (filter (at_level s lvl) (tail (descendants s a) ++ l)). split; [|split].
    + unfold topo_iter_start_from. erewrite ST_bind_run; [|done]. rewrite (proj2 (Z.eqb_neq _ _) Hroot). by rewrite (ST_bind_run _ _ _ _ _ (rdt_run _ _ _ Ht)).
    + unfold L. rewrite Ho, filter_app, (descendants_cons s Hok _ _ Ht), <-app_comm_cons, filter_cons_True; [done|]. unfold at_level. by rewrite Ht.
    + apply (for_each_spec s Hok cl Hcl5); [done|]. apply (f_equal length) in Ho. rewrite (descendants_cons s Hok _ _ Hr), (descendants_cons s Hok _ _ Ht) in Ho.
      rewrite !length_app in Ho. cbn [length] in Ho. rewrite length_app. lia.
Qed.

(** [topo_cpu_to_llc_id] returns [-EINVAL] for a CPU that is out of range or was not added, and
    else the identifier under which the ancestor of its node at the level of the last level caches
    was added. *)
Theorem topo_llc_correct {A} `{SlabAllocator A} (s : topo_state A) cpu :
  topo_ok s → 0 <= cpu →
  ∃ r, topo_cpu_to_llc_id cpu s = Some (r, s) ∧
    (cpu < nr_cpu_ids (ts_bm s) ∧ cpu < NR_CPUS ∧ (∃ a t, ts_topo s !! a = Some t ∧ tp_level t = TOPO_CPU ∧ tp_level_ids t !! 4%nat = Some cpu) →
      0 <= r < NR_CPUS ∧ ∃ a t b u, ts_topo s !! a = Some t ∧ tp_level t = TOPO_CPU ∧ tp_level_ids t !! 4%nat = Some cpu ∧
        above s b a ∧ ts_topo s !! b = Some u ∧ tp_level u = TOPO_LLC ∧ tp_level_ids u !! 2%nat = Some r) ∧
    (¬ (cpu < nr_cpu_ids (ts_bm s) ∧ cpu < NR_CPUS ∧ (∃ a t, ts_topo s !! a = Some t ∧ tp_level t = TOPO_CPU ∧ tp_level_ids t !! 4%nat = Some cpu)) → r = - EINVAL).
Proof.
  intros Hok Hcpu. unfold topo_cpu_to_llc_id. erewrite ST_bind_run; [|done]. destruct ((nr_cpu_ids (ts_bm s) <=? cpu) || (NR_CPUS <=? cpu)) eqn:Er.
  { exists (- EINVAL). split; [done|]. split; [|done]. intros (? & ? & _). apply orb_true_iff in Er as [?%Z.leb_le|?%Z.leb_le]; lia. }
  apply orb_false_iff in Er as [?%Z.leb_gt ?%Z.leb_gt]. erewrite ST_bind_run; [|done]. destruct (ts_nodes s !! (TOPO_CPU, cpu)) as [a|] eqn:Ea; simpl.
  - destruct (to_nodes _ Hok _ _ _ Ea) as (t & Ht & El & Ei). pose proof (to_node _ Hok _ _ Ht) as Hn. rewrite (proj2 (Z.eqb_neq a _) (no_addr _ _ _ Hn)).
    rewrite (ST_bind_run _ _ _ _ _ (rdt_run _ _ _ Ht)). destruct (climb s Hok a t 2 Ht) as (b & u & Hb & Hu & Eu); [unfold TOPO_CPU in El; lia|].
    destruct (no_id _ _ _ (to_node _ Hok _ _ Hu)) as (id & Hid & Hr). pose proof (ids_above s Hok b a u t Hb Hu Ht) as E. rewrite Hid, Eu in E.
    exists id. split; [apply elem_run; [done|exact E]|]. split.
    + intros _. split; [done|]. exists a, t, b, u. split_and!; try done. rewrite <-Hid, Eu. done.
    + intros Hno. destruct Hno. split; [done|]. split; [done|]. by exists a, t.
  - exists (- EINVAL). split; [done|]. split; [|done]. intros (_ & _ & a & t & Ht & El & Ei).
    destruct (to_found _ Hok a t cpu Ht) as [b Hb]; [rewrite El; exact Ei|]. rewrite El in Hb. congruence.
Qed.

(** ** A small machine: two nodes, the first with one cache, one core and two CPUs *)
Definition ex_cpus : bm_state (gset Z) :=
  BmState (list_to_map [(10, [15]); (11, [3]); (12, [12]); (13, [3]); (14, [3]); (15, [1]); (16, [2])]) ∅ 1 4.
Definition ex_raw : topology := Topology 0 0 0 0 [] 0 [].
Definition ex_start : topo_state (gset Z) := TopoState ∅ ex_cpus NULL ∅ (replicate 5 0) [2; 2; 2; 2; 0].
Definition ex_add (s : topo_state (gset Z)) (mem m id : Z) : topo_state (gset Z) :=
  match topo_init 9 mem ex_raw NULL m 0 id s with Some (_, s') => s' | None => s end.
Definition ex_tree : topo_state (gset Z) :=
  ex_add (ex_add (ex_add (ex_add (ex_add (ex_add (ex_add ex_start 1000 10 0) 2000 11 0) 3000 12 1) 4000 13 0) 5000 14 0) 6000 15 0) 7000 16 1.

Lemma ex_start_ok : topo_ok ex_start.
Proof.
  split; [intros a t Ha|done|intros l i a Ha|intros a t i Ha| |]; try (simpl in Ha; by rewrite lookup_empty in Ha).
  - split; [done|]. repeat constructor; unfold two31; lia.
  - split; [done|]. intros l Hl. assert (l = 0 ∨ l = 1 ∨ l = 2 ∨ l = 3) as [->|[->|[-> | ->]]] by lia; done.
Qed.

Lemma enough_dec (s : topo_state (gset Z)) : map_Forall (λ _ t, tp_nr_children t <= 9) (ts_topo s) → enough s 9.
Proof. intros Hall. split; [lia|]. intros a t Ht. apply (Hall a t Ht). Qed.

Lemma ex_add_ok s mem m id l x : topo_ok s → mask (ts_bm s) m l → m ≠ NULL → cpu_ok s x ∧ cpu_in l x = true → ts_topo s !! mem = None →
  map_Forall (λ _ t, tp_nr_children t <= 9) (ts_topo s) → topo_ok (ex_add s mem m id).
Proof.
  intros Hok Hm Hm0 Hx Hmem Hall. unfold ex_add.
  assert (wp (topo_init 9 mem ex_raw NULL m 0 id) (λ r s', topo_ok s') s) as Hwp.
  { eapply wp_mono; [eapply topo_init_spec; [done|done|done|by exists x|done|by apply enough_dec]|]. by intros r s' [? _]. }
  apply wp_run in Hwp as (r & s' & -> & ?). done.
Qed.

Ltac ex_step x := eapply (ex_add_ok _ _ _ _ _ x);
  [|split; [vm_compute; reflexivity|vm_compute; reflexivity|decide_now]|lia|split; [vm_compute; split; [discriminate|reflexivity]|vm_compute; reflexivity]|vm_compute; reflexivity|decide_now].
Lemma ex_tree_ok : topo_ok ex_tree.
Proof.
  unfold ex_tree. ex_step 1. ex_step 0. ex_step 0. ex_step 0. ex_step 2. ex_step 0. ex_step 0. apply ex_start_ok.
Qed.
Lemma ex_tree_enough : enough ex_tree 9.
Proof. apply enough_dec. decide_now. Qed.

Lemma some_pair {X Y} (a b : X) (s t : Y) : Some (a, s) = Some (b, t) → a = b ∧ s = t.
Proof. by intros [= <- <-]. Qed.

Lemma topo_init_correct_witness : topo_init 9 1000 ex_raw NULL 10 0 0 ex_start = Some (0, ex_add ex_start 1000 10 0) ∧ topo_ok (ex_add ex_start 1000 10 0).
Proof.
  destruct (topo_init_correct ex_start 1000 ex_raw NULL 10 0 0 [15] 9 ex_start_ok) as [(r & s' & E & Hok & _) _].
  - split; [reflexivity|reflexivity|decide_now].
  - discriminate.
  - exists 0. split; [split; [discriminate|reflexivity]|reflexivity].
  - reflexivity.
  - apply enough_dec. decide_now.
  - assert (topo_init 9 1000 ex_raw NULL 10 0 0 ex_start = Some (0, ex_add ex_start 1000 10 0)) as E' by (vm_compute; reflexivity).
    split; [exact E'|]. destruct (some_pair _ _ _ _ (eq_trans (eq_sym E') E)) as [_ Es]. rewrite Es. exact Hok.
Defined.


Lemma topo_iteration_correct_witness : TOPO_FOR_EACH_LEVEL 9 9 (TopoIter 0 []) TOPO_CPU ex_tree = Some ([6000; 7000], ex_tree) ∧ NoDup [6000; 7000].
Proof.
  destruct (topo_iteration_correct ex_tree 9 (TopoIter 0 []) TOPO_CPU ex_tree_ok ex_tree_enough) as (L & E & _ & HL & _).
  - vm_compute. lia.
  - vm_compute. discriminate.
  - unfold TOPO_CPU, TOPO_MAX_LEVEL. lia.
  - assert (TOPO_FOR_EACH_LEVEL 9 9 (TopoIter 0 []) TOPO_CPU ex_tree = Some ([6000; 7000], ex_tree)) as E' by (vm_compute; reflexivity).
    split; [exact E'|]. destruct (some_pair _ _ _ _ (eq_trans (eq_sym E') E)) as [EL _]. rewrite EL. exact HL.
Defined.

Lemma topo_llc_correct_witness : topo_cpu_to_llc_id 1 ex_tree = Some (0, ex_tree).
Proof.
  destruct (topo_llc_correct ex_tree 1 ex_tree_ok) as (r & E & _); [lia|].
  assert (topo_cpu_to_llc_id 1 ex_tree = Some (0, ex_tree)) as E' by (vm_compute; reflexivity). exact E'.
Defined.
