(* ===== verification/Buddy.v ===== *)
(** * The buddy allocator: [lib/alloc/buddy.bpf.c], [include/lib/alloc/buddy.h]

    Memory is handed out in blocks of [16 * 2^order] bytes from chunks of 1 MiB.  A
    chunk starts with its metadata: the order of the block at every index, four bits each, a bit
    for every index that is the start of an allocated block, and a list of the free
    blocks of every order, doubly linked by indices through headers in the free blocks.

    The functions on one chunk run on a [buddy_chunk]: the fields of the
    struct, and the headers, which lie in the memory after it; a pointer to a header is the index of its
    block, [None] is [NULL].  The null header is the start of the arena, which is not memory of the allocator: a store through it is
    no effect of the model, and the one load the code can make through it, of [next_index] in [buddy_chunk_alloc], gives a word
    that is an argument, [null] (0 when the page is not mapped).  Bytes and headers that are not in the maps are zero, as in
    fresh pages.  [bpf_for] leaves its variable at the last value of the range
    when no [break] is met.  The address sanitizer's shadow memory and the messages are not
    modelled.

    The allocator is a list of chunks in the arena.  What other CPUs do while the lock is
    dropped is an argument [env], and so is what the lock and the page functions of
    the kernel return. *)

From S2P Require Import Prelude.

Definition BUDDY_MIN_ALLOC_SHIFT : Z := 4.
Definition BUDDY_MIN_ALLOC_BYTES : Z := Z.shiftl 1 BUDDY_MIN_ALLOC_SHIFT.
Definition BUDDY_CHUNK_NUM_ORDERS : Z := Z.shiftl 1 4.
Definition BUDDY_CHUNK_BYTES : Z := Z.shiftl BUDDY_MIN_ALLOC_BYTES BUDDY_CHUNK_NUM_ORDERS.
Definition BUDDY_CHUNK_ITEMS : Z := Z.shiftl 1 BUDDY_CHUNK_NUM_ORDERS.
Definition BUDDY_CHUNK_OFFSET_MASK : Z := BUDDY_CHUNK_BYTES - 1.
Definition BUDDY_VADDR_OFFSET : Z := BUDDY_CHUNK_BYTES.
Definition BUDDY_VADDR_SIZE : Z := Z.shiftl BUDDY_CHUNK_BYTES 10.

(** [struct buddy_header]: [prev_index] and [next_index]. *)
Record buddy_header : Type := BuddyHeader { bh_prev : Z; bh_next : Z }.

(** [struct buddy_chunk], with the headers of the blocks behind it. *)
Record buddy_chunk : Type := BuddyChunk {
  bc_orders : gmap Z Z;
  bc_allocated : gmap Z Z;
  bc_freelists : list Z;
  bc_prev : Z;
  bc_next : Z;
  bc_headers : gmap Z buddy_header;
}.
Definition sizeof_buddy_chunk : Z := BUDDY_CHUNK_ITEMS / 2 + BUDDY_CHUNK_ITEMS / 8 + 8 * BUDDY_CHUNK_NUM_ORDERS + 16.
Definition zero_chunk : buddy_chunk := BuddyChunk ∅ ∅ (replicate 16 0) 0 0 ∅.

(** ** Sizes *)

(** [alloc/common.h]: the index of the highest set bit, and 0 for 0. *)
Definition fls_step (k m : Z) (nw : Z * Z) : Z * Z :=
  let '(num, word) := nw in
  if negb (Z.land word m =? 0) then (num + k, Z.shiftr word k) else (num, word).
Definition arena_fls (word : Z) : Z :=
  let nw := (0, word) in
  let nw := fls_step 32 18446744069414584320 nw in
  let nw := fls_step 16 4294901760 nw in
  let nw := fls_step 8 65280 nw in
  let nw := fls_step 4 240 nw in
  let nw := fls_step 2 12 nw in
  let nw := fls_step 1 2 nw in
  nw.1.

Definition arena_next_pow2 (n : Z) : Z :=
  let n := u64 (n - 1) in
  let n := Z.lor n (Z.shiftr n 1) in
  let n := Z.lor n (Z.shiftr n 2) in
  let n := Z.lor n (Z.shiftr n 4) in
  let n := Z.lor n (Z.shiftr n 8) in
  let n := Z.lor n (Z.shiftr n 16) in
  let n := Z.lor n (Z.shiftr n 32) in
  u64 (n + 1).

Definition size_to_order (size : Z) : Z :=
  if size =? 0 then 64 else
  let order := arena_fls (arena_next_pow2 size) in
  if order <? BUDDY_MIN_ALLOC_SHIFT then 0 else order - BUDDY_MIN_ALLOC_SHIFT.

(** ** One chunk *)
Abbreviation CM X := (ST buddy_chunk X).

Definition byte_at (m : gmap Z Z) (i : Z) : Z := default 0 (m !! i).

Definition with_orders (f : gmap Z Z → gmap Z Z) (c : buddy_chunk) : buddy_chunk :=
  BuddyChunk (f (bc_orders c)) (bc_allocated c) (bc_freelists c) (bc_prev c) (bc_next c) (bc_headers c).
Definition with_allocated (f : gmap Z Z → gmap Z Z) (c : buddy_chunk) : buddy_chunk :=
  BuddyChunk (bc_orders c) (f (bc_allocated c)) (bc_freelists c) (bc_prev c) (bc_next c) (bc_headers c).
Definition with_freelists (f : list Z → list Z) (c : buddy_chunk) : buddy_chunk :=
  BuddyChunk (bc_orders c) (bc_allocated c) (f (bc_freelists c)) (bc_prev c) (bc_next c) (bc_headers c).
Definition with_links (prev next : Z) (c : buddy_chunk) : buddy_chunk :=
  BuddyChunk (bc_orders c) (bc_allocated c) (bc_freelists c) prev next (bc_headers c).
Definition with_headers (f : gmap Z buddy_header → gmap Z buddy_header) (c : buddy_chunk) : buddy_chunk :=
  BuddyChunk (bc_orders c) (bc_allocated c) (bc_freelists c) (bc_prev c) (bc_next c) (f (bc_headers c)).

Definition rd_list (order : Z) : CM Z := λ c,
  if order <? 0 then None else match bc_freelists c !! Z.to_nat order with Some v => Some (v, c) | None => None end.
Definition wr_list (order v : Z) : CM unit := λ c,
  if order <? 0 then None else
  match bc_freelists c !! Z.to_nat order with Some _ => Some (tt, with_freelists <[Z.to_nat order := v]> c) | None => None end.
Definition header_at (H : gmap Z buddy_header) (i : Z) : buddy_header := default (BuddyHeader 0 0) (H !! i).
Definition rd_header (h : option Z) : CM buddy_header :=
  match h with None => fault | Some i => gets (λ c, header_at (bc_headers c) i) end.
Definition set_prev (v : Z) (h : buddy_header) : buddy_header := BuddyHeader (u32 v) (bh_next h).
Definition set_next (v : Z) (h : buddy_header) : buddy_header := BuddyHeader (bh_prev h) (u32 v).
Definition wr_header (h : option Z) (f : buddy_header → buddy_header) : CM unit :=
  match h with None => mret tt | Some i => modifies (with_headers (λ H, <[i := f (header_at H i)]> H)) end.

(** [byte |= 1 << k] and [byte &= ~(1 << k)] on a [u8]. *)
Definition set_bit8 (b k : Z) : Z := u8 (Z.lor b (Z.shiftl 1 k)).
Definition clear_bit8 (b k : Z) : Z := u8 (Z.land b (Z.lnot (Z.shiftl 1 k))).

Definition idx_set_allocated (idx : Z) (allocated : bool) : CM Z :=
  if BUDDY_CHUNK_ITEMS <=? idx then mret (- EINVAL) else
  modifies (with_allocated (λ m, <[idx / 8 := (if allocated then set_bit8 else clear_bit8) (byte_at m (idx / 8)) (idx mod 8)]> m));;
  mret 0.
(** The result and [*allocated]. *)
Definition idx_is_allocated (idx : Z) : CM (Z * bool) :=
  if BUDDY_CHUNK_ITEMS <=? idx then mret (- EINVAL, false) else
  b ← gets (λ c, byte_at (bc_allocated c) (idx / 8));
  mret (0, negb (Z.land b (Z.shiftl 1 (idx mod 8)) =? 0)).

(** The byte of two orders with that of [idx] replaced. *)
Definition put_order (prev_order idx order : Z) : Z :=
  if negb (Z.land idx 1 =? 0) then Z.lor (Z.land order 15) (Z.land prev_order 240)
  else Z.lor (u8 (Z.shiftl order 4)) (Z.land prev_order 15).
Definition idx_set_order (idx order : Z) : CM Z :=
  if BUDDY_CHUNK_NUM_ORDERS <=? order then mret (- EINVAL) else
  if BUDDY_CHUNK_ITEMS <=? idx then mret (- EINVAL) else
  modifies (with_orders (λ m, <[idx / 2 := put_order (byte_at m (idx / 2)) idx order]> m));;
  mret 0.
Definition get_order (result idx : Z) : Z := if negb (Z.land idx 1 =? 0) then Z.land result 15 else Z.shiftr result 4.
Definition idx_get_order (idx : Z) : CM Z :=
  if BUDDY_CHUNK_ITEMS <=? idx then mret BUDDY_CHUNK_NUM_ORDERS else
  result ← gets (λ c, byte_at (bc_orders c) (idx / 2));
  mret (get_order result idx).

Definition idx_to_addr (chunk idx : Z) : Z :=
  if BUDDY_CHUNK_ITEMS <=? idx then NULL else u64 (chunk + idx * BUDDY_MIN_ALLOC_BYTES).
Definition idx_to_header (idx : Z) : CM (option Z) :=
  '(ret, allocated) ← idx_is_allocated idx;
  if negb (ret =? 0) then mret None else
  if (allocated : bool) then mret None else mret (Some idx).

Definition header_add_freelist (header : option Z) (idx order : Z) : CM unit :=
  idx_set_order idx order;;
  f ← rd_list order;
  wr_header header (set_next f);;
  wr_header header (set_prev BUDDY_CHUNK_ITEMS);;
  h ← rd_header header;
  (if negb (bh_next h =? BUDDY_CHUNK_ITEMS) then
     tmp ← idx_to_header (bh_next h);
     wr_header tmp (set_prev idx)
   else mret tt);;
  wr_list order idx.

Definition header_remove_freelist (header : option Z) (order : Z) : CM unit :=
  h ← rd_header header;
  (if negb (bh_prev h =? BUDDY_CHUNK_ITEMS) then
     tmp ← idx_to_header (bh_prev h);
     h ← rd_header header;
     wr_header tmp (set_next (bh_next h))
   else mret tt);;
  h ← rd_header header;
  (if negb (bh_next h =? BUDDY_CHUNK_ITEMS) then
     tmp ← idx_to_header (bh_next h);
     h ← rd_header header;
     wr_header tmp (set_prev (bh_prev h))
   else mret tt);;
  f ← rd_list order;
  head ← idx_to_header f;
  (if bool_decide (head = header) then h ← rd_header header; wr_list order (bh_next h) else mret tt);;
  wr_header header (set_prev BUDDY_CHUNK_ITEMS);;
  wr_header header (set_next BUDDY_CHUNK_ITEMS).

(** *** A new chunk *)

(** [bpf_for(ord, min_order, max_order)] *)
Fixpoint leftovers_loop (n : nat) (ord cur_idx : Z) : CM Z :=
  match n with
  | O => mret 0
  | S n =>
      let idx := u32 (cur_idx + Z.shiftl 1 ord) in
      header ← idx_to_header idx;
      match header with
      | None => mret (- EINVAL)
      | Some _ =>
          idx_set_allocated idx false;;
          header_add_freelist header idx ord;;
          leftovers_loop n (ord + 1) cur_idx
      end
  end.
Definition add_leftovers_to_freelist (cur_idx min_order max_order : Z) : CM Z :=
  leftovers_loop (Z.to_nat (max_order - min_order)) min_order cur_idx.

(** The loop of [buddy_chunk_get] that sets the metadata aside. *)
Fixpoint carve_loop (cl : nat) (left idx max_order : Z) : CM bool :=
  if left =? 0 then mret true else
  match cl with
  | O => mret true
  | S cl =>
      let power2 := arena_fls left in
      if BUDDY_CHUNK_NUM_ORDERS <=? power2 then mret false else
      let left := u64 (left - (if BUDDY_MIN_ALLOC_SHIFT <=? power2 then Z.shiftl 1 power2 else left)) in
      let order := if BUDDY_MIN_ALLOC_SHIFT <=? power2 then power2 - BUDDY_MIN_ALLOC_SHIFT else 0 in
      idx_set_allocated idx true;;
      let min_order := if left =? 0 then order else order + 1 in
      r ← add_leftovers_to_freelist idx min_order max_order;
      if negb (r =? 0) then mret false else
      carve_loop cl left (u32 (idx + Z.shiftl 1 order)) order
  end.
Fixpoint clear_lists (n : nat) (ord : Z) : CM unit :=
  match n with
  | O => mret tt
  | S n => wr_list ord BUDDY_CHUNK_ITEMS;; clear_lists n (ord + 1)
  end.
Definition chunk_setup (cl : nat) : CM bool :=
  clear_lists (Nat.min cl 16) 0;;
  carve_loop cl sizeof_buddy_chunk 0 BUDDY_CHUNK_NUM_ORDERS.

(** *** Allocation in a chunk *)

(** [bpf_for(order, order_req, BUDDY_CHUNK_NUM_ORDERS)] *)
Fixpoint find_order (n : nat) (i order : Z) : CM Z :=
  match n with
  | O => mret order
  | S n =>
      f ← rd_list i;
      if negb (f =? BUDDY_CHUNK_ITEMS) then mret i else find_order n (i + 1) i
  end.
(** [bpf_for(i, order_req, order)]: [false] for the early returns. *)
Fixpoint split_loop (n : nat) (i retidx : Z) : CM bool :=
  match n with
  | O => mret true
  | S n =>
      let idx := u32 (retidx + Z.shiftl 1 i) in
      header ← idx_to_header idx;
      r ← idx_set_allocated idx false;
      if negb (r =? 0) then mret false else
      r ← idx_set_order idx i;
      if negb (r =? 0) then mret false else
      tmpidx ← rd_list i;
      wr_header header (set_prev BUDDY_CHUNK_ITEMS);;
      wr_header header (set_next tmpidx);;
      (if negb (u32 tmpidx =? BUDDY_CHUNK_ITEMS) then
         tmp ← idx_to_header (u32 tmpidx);
         wr_header tmp (set_prev idx)
       else mret tt);;
      wr_list i idx;;
      split_loop n (i + 1) retidx
  end.
Definition buddy_chunk_alloc (null chunk order_req : Z) : CM Z :=
  order ← find_order (Z.to_nat (BUDDY_CHUNK_NUM_ORDERS - order_req)) order_req 0;
  if BUDDY_CHUNK_NUM_ORDERS <=? order then mret NULL else
  f ← rd_list order;
  let retidx := u32 f in
  header ← idx_to_header retidx;
  next ← (match header with Some _ => h ← rd_header header; mret (bh_next h) | None => mret (u32 null) end);
  wr_list order next;;
  (if negb (next =? BUDDY_CHUNK_ITEMS) then
     next_header ← idx_to_header next;
     wr_header next_header (set_prev BUDDY_CHUNK_ITEMS)
   else mret tt);;
  wr_header header (set_prev BUDDY_CHUNK_ITEMS);;
  wr_header header (set_next BUDDY_CHUNK_ITEMS);;
  r ← idx_set_order retidx order_req;
  if negb (r =? 0) then mret NULL else
  r ← idx_set_allocated retidx true;
  if negb (r =? 0) then mret NULL else
  let address := idx_to_addr chunk retidx in
  ok ← split_loop (Z.to_nat (order - order_req)) order_req retidx;
  mret (if (ok : bool) then address else NULL).

(** *** Freeing in a chunk *)

(** The coalescing loop: [order] and [idx] after it. *)
Fixpoint coalesce_loop (n : nat) (i order idx : Z) : CM (Z * Z) :=
  match n with
  | O => mret (order, idx)
  | S n =>
      let order := i in
      let buddy_idx := Z.lxor idx (Z.shiftl 1 order) in
      '(_, allocated) ← idx_is_allocated buddy_idx;
      if (allocated : bool) then mret (order, idx) else
      o ← idx_get_order buddy_idx;
      if negb (o =? order) then mret (order, idx) else
      buddy_header ← idx_to_header buddy_idx;
      header_remove_freelist buddy_header order;;
      let '(idx, buddy_idx) := if buddy_idx <? idx then (buddy_idx, idx) else (idx, buddy_idx) in
      idx_set_order buddy_idx order;;
      coalesce_loop n (i + 1) order idx
  end.
Definition chunk_free (idx : Z) : CM Z :=
  idx_set_allocated idx false;;
  order ← idx_get_order idx;
  header ← idx_to_header idx;
  '(order, idx) ← coalesce_loop (Z.to_nat (BUDDY_CHUNK_NUM_ORDERS - order)) order order idx;
  idx_set_order idx order;;
  header ← idx_to_header idx;
  header_add_freelist header idx order;;
  mret 0.

(** ** The allocator *)
Record buddy : Type := Buddy {
  by_chunks : gmap Z buddy_chunk;
  by_first : Z;
  by_vaddr : Z;
}.
Abbreviation YM X := (ST buddy X).

Definition with_chunks (f : gmap Z buddy_chunk → gmap Z buddy_chunk) (s : buddy) : buddy := Buddy (f (by_chunks s)) (by_first s) (by_vaddr s).
Definition with_first (c : Z) (s : buddy) : buddy := Buddy (by_chunks s) c (by_vaddr s).
Definition with_vaddr (v : Z) (s : buddy) : buddy := Buddy (by_chunks s) (by_first s) v.

(** A function on the chunk at [c]. *)
Definition on_chunk {X} (c : Z) (m : CM X) : YM X := λ s,
  match by_chunks s !! c with
  | Some k => match m k with Some (x, k') => Some (x, with_chunks <[c := k']> s) | None => None end
  | None => None
  end.

Definition buddy_reserve_arena_vaddr (ret : Z) : YM Z := modifies (with_vaddr 0);; mret ret.
Definition buddy_unreserve_arena_vaddr : YM unit := modifies (with_vaddr 0).

(** The result and [*vaddrp]. *)
Fixpoint buddy_alloc_arena_vaddr (cl : nat) (env : nat → buddy → buddy) : YM (Z * Z) :=
  vaddr ← gets by_vaddr;
  let new := u64 (vaddr + BUDDY_CHUNK_BYTES) in
  if BUDDY_VADDR_SIZE <? new then mret (- EINVAL, 0) else
  modifies (env cl);;
  old ← gets by_vaddr;
  if old =? vaddr then
    modifies (with_vaddr new);;
    mret (0, u64 (BUDDY_VADDR_OFFSET + vaddr))
  else
    match cl with O => mret (- EINVAL, 0) | S cl => buddy_alloc_arena_vaddr cl env end.

(** [pages] is whether the kernel has the pages, [lock_ret] what the lock returns. *)
Definition buddy_chunk_get (cl : nat) (env : nat → buddy → buddy) (env2 : buddy → buddy) (pages : bool) (lock_ret : Z) : YM Z :=
  '(ret, vaddr) ← buddy_alloc_arena_vaddr cl env;
  if negb (ret =? 0) then mret NULL else
  if negb (vaddr mod BUDDY_CHUNK_BYTES =? 0) then mret NULL else
  if negb pages then mret NULL else
  modifies (with_chunks <[vaddr := zero_chunk]>);;
  modifies env2;;
  if negb (lock_ret =? 0) then modifies (with_chunks (delete vaddr));; mret NULL else
  ok ← on_chunk vaddr (chunk_setup cl);
  mret (if (ok : bool) then vaddr else NULL).

(** The chunk at the head of the list. *)
Definition link_chunk (chunk : Z) : YM unit :=
  first ← gets by_first;
  on_chunk chunk (modifies (with_links NULL first));;
  modifies (with_first chunk).

Definition buddy_init (cl : nat) (env : nat → buddy → buddy) (env2 : buddy → buddy) (reserve_ret lock_ret : Z) (pages : bool) (lock_ret2 : Z) : YM Z :=
  ret ← buddy_reserve_arena_vaddr reserve_ret;
  if negb (ret =? 0) then mret ret else
  if negb (lock_ret =? 0) then mret (- EINVAL) else
  chunk ← buddy_chunk_get cl env env2 pages lock_ret2;
  if chunk =? NULL then modifies (with_first NULL);; mret (- ENOMEM) else
  link_chunk chunk;;
  mret 0.

Fixpoint destroy_loop (cl : nat) (chunk : Z) : YM unit :=
  if chunk =? NULL then mret tt else
  match cl with
  | O => mret tt
  | S cl =>
      next ← on_chunk chunk (gets bc_next);
      modifies (with_chunks (delete chunk));;
      destroy_loop cl next
  end.
Definition buddy_destroy (cl : nat) (buddy : Z) : YM Z :=
  if buddy =? NULL then mret (- EINVAL) else
  first ← gets by_first;
  destroy_loop cl first;;
  buddy_unreserve_arena_vaddr;;
  modifies (with_first NULL);;
  mret 0.

(** The chunks in turn until one has a block; [null] is the word at the null header in each round. *)
Fixpoint alloc_loop (cl : nat) (null : nat → Z) (chunk order : Z) : YM Z :=
  if chunk =? NULL then mret NULL else
  match cl with
  | O => mret NULL
  | S cl =>
      address ← on_chunk chunk (buddy_chunk_alloc (null cl) chunk order);
      if negb (address =? NULL) then mret address else
      next ← on_chunk chunk (gets bc_next);
      alloc_loop cl null next order
  end.
Definition buddy_alloc_internal (cl : nat) (env : nat → buddy → buddy) (env2 : buddy → buddy) (null : nat → Z) (lock_ret : Z) (pages : bool) (lock_ret2 : Z) (buddy size : Z) : YM Z :=
  if buddy =? NULL then mret NULL else
  let order := s32 (size_to_order size) in
  if (BUDDY_CHUNK_NUM_ORDERS <=? order) || (order <? 0) then mret NULL else
  if negb (lock_ret =? 0) then mret NULL else
  first ← gets by_first;
  address ← alloc_loop cl null first order;
  if negb (address =? NULL) then mret address else
  chunk ← buddy_chunk_get cl env env2 pages lock_ret2;
  if chunk =? NULL then mret NULL else
  link_chunk chunk;;
  first ← gets by_first;
  on_chunk first (buddy_chunk_alloc (null cl) first order).

Definition buddy_free_unlocked (buddy addr : Z) : YM Z :=
  if buddy =? NULL then mret (- EINVAL) else
  if negb (Z.land addr (BUDDY_MIN_ALLOC_BYTES - 1) =? 0) then mret 0 else
  let chunk := Z.land addr (u64 (Z.lnot BUDDY_CHUNK_OFFSET_MASK)) in
  let idx := Z.land addr BUDDY_CHUNK_OFFSET_MASK / BUDDY_MIN_ALLOC_BYTES in
  on_chunk chunk (chunk_free idx).
Definition buddy_free_internal (lock_ret buddy addr : Z) : YM Z :=
  if buddy =? NULL then mret (- EINVAL) else
  if negb (lock_ret =? 0) then mret lock_ret else
  buddy_free_unlocked buddy addr;;
  mret 0.
