(* ===== verification/BuddyInv.v ===== *)
(** * Bits, sizes and the invariant of a buddy chunk

    The arrays in the bytes of a chunk and the orders of sizes, and the partition of a chunk into aligned blocks. *)

From S2P Require Import Prelude Wp Buddy.

(** * Bits, orders and sizes of the buddy allocator

    The allocation bits and the four-bit orders are arrays in the bytes of a chunk; the order of
    a size is the logarithm of the next power of two. *)

Definition is_u8 (b : Z) : Prop := 0 <= b < 256.

(** Facts on small ranges are checked by running through them. *)
Definition all_below (n : Z) (f : Z → bool) : bool := forallb f (seqZ 0 n).
Lemma all_below_spec n f x : all_below n f = true → 0 <= x < n → f x = true.
Proof. unfold all_below. rewrite forallb_forall. intros Hf Hx. apply Hf, list_elem_of_In, elem_of_seqZ. lia. Qed.

(** ** Allocation bits *)
Definition bit_of (b k : Z) : bool := negb (Z.land b (Z.shiftl 1 k) =? 0).
Definition put_bit8 (v : bool) (b k : Z) : Z := (if v then set_bit8 else clear_bit8) b k.

Lemma put_bit8_table : all_below 256 (λ b, all_below 8 (λ k, all_below 8 (λ j,
  forallb (λ v, (0 <=? put_bit8 v b k) && (put_bit8 v b k <? 256) &&
    Bool.eqb (bit_of (put_bit8 v b k) j) (if j =? k then v else bit_of b j)) [true; false]))) = true.
Proof. vm_compute. reflexivity. Qed.

Lemma put_bit8_spec v b k j : is_u8 b → 0 <= k < 8 → 0 <= j < 8 →
  is_u8 (put_bit8 v b k) ∧ bit_of (put_bit8 v b k) j = if j =? k then v else bit_of b j.
Proof.
  intros Hb Hk Hj. pose proof (all_below_spec _ _ b put_bit8_table Hb) as H1. apply (all_below_spec _ _ k) in H1; [|done].
  apply (all_below_spec _ _ j) in H1; [|done]. rewrite forallb_forall in H1. specialize (H1 v ltac:(destruct v; simpl; tauto)).
  apply andb_true_iff in H1 as [[H1%Z.leb_le H2%Z.ltb_lt]%andb_true_iff H3%eqb_prop]. done.
Qed.

(** ** Orders *)
Definition odd_idx (i : Z) : bool := negb (Z.land i 1 =? 0).
Lemma odd_idx_mod i : 0 <= i → odd_idx i = (i mod 2 =? 1).
Proof.
  intros Hi. unfold odd_idx. change 1 with (Z.ones 1) at 1. rewrite (Z.land_ones i 1) by lia. change (2 ^ 1) with 2.
  pose proof (Z.mod_pos_bound i 2). destruct (Z.eqb_spec (i mod 2) 0), (Z.eqb_spec (i mod 2) 1); lia || done.
Qed.

Lemma put_order_table : all_below 256 (λ p, all_below 16 (λ o, forallb (λ i, forallb (λ j,
    (0 <=? put_order p i o) && (put_order p i o <? 256) &&
    (get_order (put_order p i o) j =? (if i =? j then o else get_order p j))) [0; 1]) [0; 1])) = true.
Proof. vm_compute. reflexivity. Qed.

Lemma put_order_parity p i o : 0 <= i → put_order p i o = put_order p (i mod 2) o.
Proof.
  intros Hi. unfold put_order. fold (odd_idx i). fold (odd_idx (i mod 2)). pose proof (Z.mod_pos_bound i 2).
  rewrite !odd_idx_mod by lia. by rewrite Zmod_mod.
Qed.
Lemma get_order_parity b i : 0 <= i → get_order b i = get_order b (i mod 2).
Proof.
  intros Hi. unfold get_order. fold (odd_idx i). fold (odd_idx (i mod 2)). pose proof (Z.mod_pos_bound i 2).
  rewrite !odd_idx_mod by lia. by rewrite Zmod_mod.
Qed.

Lemma put_order_spec p o i j : is_u8 p → 0 <= o < 16 → 0 <= i → 0 <= j → i / 2 = j / 2 →
  is_u8 (put_order p i o) ∧ get_order (put_order p i o) j = if j =? i then o else get_order p j.
Proof.
  intros Hp Ho Hi Hj Hij. rewrite (put_order_parity p i), !(get_order_parity _ j) by done.
  pose proof (Z.mod_pos_bound i 2 ltac:(lia)) as Hmi. pose proof (Z.mod_pos_bound j 2 ltac:(lia)) as Hmj.
  pose proof (Z.div_mod i 2 ltac:(lia)) as Ei. pose proof (Z.div_mod j 2 ltac:(lia)) as Ej.
  pose proof (all_below_spec _ _ p put_order_table Hp) as H1. apply (all_below_spec _ _ o) in H1; [|done].
  rewrite forallb_forall in H1. specialize (H1 (i mod 2)). rewrite forallb_forall in H1.
  assert (∀ m, 0 <= m < 2 → In m [0; 1]) as Hin by (intros m Hm; simpl; lia). specialize (H1 (Hin _ Hmi) (j mod 2) (Hin _ Hmj)).
  apply andb_true_iff in H1 as [[H1%Z.leb_le H2%Z.ltb_lt]%andb_true_iff H3%Z.eqb_eq]. split; [done|]. rewrite H3.
  destruct (Z.eqb_spec (i mod 2) (j mod 2)), (Z.eqb_spec j i); try done; [lia|by subst].
Qed.

(** ** The order of a size *)

(** The lemmas on the smearing of bits: a bit is set when one of the [w] bits from it on was. *)
Definition smeared (m w x : Z) : Prop := 0 <= x ∧ ∀ j, 0 <= j → Z.testbit x j = true ↔ ∃ d, 0 <= d < w ∧ Z.testbit m (j + d) = true.

Lemma smear w w' m x : smeared m w x → 0 < w → w' = 2 * w → smeared m w' (Z.lor x (Z.shiftr x w)).
Proof.
  intros [Hx Hs] Hw ->. split; [apply Z.lor_nonneg; split; [done|by apply Z.shiftr_nonneg]|]. intros j Hj.
  rewrite Z.lor_spec, orb_true_iff, Z.shiftr_spec, (Hs j Hj), (Hs (j + w)) by lia. split.
  - intros [(d & Hd & Ht)|(d & Hd & Ht)]; [exists d; split; [lia|done]|]. exists (w + d). split; [lia|]. by rewrite Z.add_assoc.
  - intros (d & Hd & Ht). destruct (Z.lt_ge_cases d w); [left; exists d; split; [lia|done]|right]. exists (d - w). split; [lia|]. by replace (j + w + (d - w)) with (j + d) by lia.
Qed.

Lemma smeared_all m x : 0 < m < two64 → smeared m 64 x → x = Z.ones (Z.log2 m + 1).
Proof.
  intros Hm [Hx Hs]. pose proof (Z.log2_nonneg m). assert (Z.log2 m < 64) as Hl by (apply Z.log2_lt_pow2; unfold two64 in Hm; lia).
  apply Z.bits_inj'. intros j Hj. rewrite Z.testbit_ones_nonneg by lia. destruct (Z.ltb_spec j (Z.log2 m + 1)).
  - apply Hs; [done|]. exists (Z.log2 m - j). split; [lia|]. replace (j + (Z.log2 m - j)) with (Z.log2 m) by lia. apply Z.bit_log2. lia.
  - apply not_true_iff_false. intros Ht. apply Hs in Ht as (d & Hd & Ht); [|done]. rewrite Z.bits_above_log2 in Ht by lia. done.
Qed.

Lemma next_pow2_spec n : 1 < n → n <= two64 → arena_next_pow2 n = u64 (2 ^ (Z.log2 (n - 1) + 1)).
Proof.
  intros Hn Hn'. unfold arena_next_pow2. rewrite (u64_small (n - 1)) by (split; lia). set (m := n - 1).
  assert (smeared m 1 m) as H1.
  { split; [lia|]. intros j Hj. split; [intros Ht; exists 0; split; [lia|by rewrite Z.add_0_r]|]. intros (d & Hd & Ht). by replace d with 0 in Ht by lia; rewrite Z.add_0_r in Ht. }
  apply (smear 1 2), (smear 2 4), (smear 4 8), (smear 8 16), (smear 16 32), (smear 32 64) in H1; try lia. cbv zeta. rewrite (smeared_all m _ ltac:(lia) H1). f_equal. rewrite Z.ones_equiv. lia.
Qed.

Lemma fls_pow2 k : 0 <= k < 64 → arena_fls (2 ^ k) = k.
Proof. intros Hk. apply Z.eqb_eq. apply (all_below_spec 64 (λ k, arena_fls (2 ^ k) =? k)); [vm_compute; reflexivity|done]. Qed.

(** The least order whose blocks hold [size] bytes. *)
Lemma size_to_order_spec size : 1 <= size <= 2 ^ 63 →
  let o := size_to_order size in 0 <= o <= 59 ∧ size <= BUDDY_MIN_ALLOC_BYTES * 2 ^ o ∧ (0 < o → BUDDY_MIN_ALLOC_BYTES * 2 ^ (o - 1) < size).
Proof.
  intros Hs. cbv zeta. unfold size_to_order. rewrite (proj2 (Z.eqb_neq size 0)) by lia. change BUDDY_MIN_ALLOC_BYTES with (2 ^ 4). change BUDDY_MIN_ALLOC_SHIFT with 4.
  destruct (decide (size = 1)) as [->|Hne]; [vm_compute; split_and!; congruence|].
  rewrite next_pow2_spec by (unfold two64; lia). set (L := Z.log2 (size - 1)).
  assert (2 ^ L <= size - 1 < 2 ^ Z.succ L) as HL by (apply Z.log2_spec; lia). pose proof (Z.log2_nonneg (size - 1)). fold L in H.
  assert (L < 63) as HL63 by (apply Z.log2_lt_pow2; lia). rewrite u64_small.
  2: { split; [apply Z.pow_nonneg; lia|]. apply Z.lt_le_trans with (2 ^ 64); [apply Z.pow_lt_mono_r; lia|done]. }
  rewrite fls_pow2 by lia. replace (Z.succ L) with (L + 1) in HL by lia. destruct (Z.ltb_spec (L + 1) 4).
  - split; [lia|]. split; [|lia]. assert (2 ^ (L + 1) <= 2 ^ 4) by (apply Z.pow_le_mono_r; lia). lia.
  - split; [lia|]. split; [|intros Hpos]; rewrite <-Z.pow_add_r by lia.
    + replace (4 + (L + 1 - 4)) with (L + 1) by lia. lia.
    + replace (4 + (L + 1 - 4 - 1)) with L by lia. lia.
Qed.

(** A size above [2^63] wraps to order 0. *)
Lemma size_to_order_wraps size : 2 ^ 63 < size < 2 ^ 64 → size_to_order size = 0.
Proof.
  intros Hs. unfold size_to_order. rewrite (proj2 (Z.eqb_neq size 0)) by lia. rewrite next_pow2_spec by (unfold two64; lia).
  assert (Z.log2 (size - 1) = 63) as -> by (apply Z.log2_unique; lia). done.
Qed.

(** * The invariant of a buddy chunk

    A chunk is a partition of its indices into aligned blocks of power-of-two sizes, some set aside for
    the metadata, some used, the others free; the bits, the orders and the lists of the chunk
    say the same, and no two halves of a block are both free.  While a block is freed the
    partition has a hole that grows. *)

(** ** Aligned blocks *)
Definition blk (i o : Z) : Prop := 0 <= o < 16 ∧ 0 <= i ∧ (2 ^ o | i) ∧ i + 2 ^ o <= 65536.
Definition apart (i o j p : Z) : Prop := i + 2 ^ o <= j ∨ j + 2 ^ p <= i.

Lemma items_eq : BUDDY_CHUNK_ITEMS = 65536.
Proof. done. Qed.
Lemma pow_pos o : 0 <= o → 0 < 2 ^ o.
Proof. intros. apply Z.pow_pos_nonneg; lia. Qed.
Lemma pow_le o p : o <= p → 2 ^ o <= 2 ^ p.
Proof. intros. apply Z.pow_le_mono_r; lia. Qed.
Lemma pow_divide o p : 0 <= o <= p → (2 ^ o | 2 ^ p).
Proof. intros. exists (2 ^ (p - o)). rewrite <-Z.pow_add_r by lia. f_equal. lia. Qed.
Lemma pow_double o : 0 <= o → 2 ^ (o + 1) = 2 * 2 ^ o.
Proof. intros. rewrite Z.pow_add_r by lia. lia. Qed.

(** Two aligned blocks that meet are nested. *)
Lemma nested i o j p : 0 <= o <= p → (2 ^ o | i) → (2 ^ p | j) → i < j + 2 ^ p → j < i + 2 ^ o → j <= i ∧ i + 2 ^ o <= j + 2 ^ p.
Proof.
  intros Ho [a Ha] Hj Hlt Hlt'. destruct (pow_divide o p Ho) as [c Hc]. assert (2 ^ o | j) as [b Hb] by (etrans; [by exists c|done]).
  pose proof (pow_pos o ltac:(lia)) as Hpos. rewrite Hc in *. set (m := 2 ^ o) in *. subst i j.
  assert (a < b + c) by nia. assert (b < a + 1) by nia. nia.
Qed.

(** The index of the buddy. *)
Definition bud (i o : Z) : Z := if Z.odd (i / 2 ^ o) then i - 2 ^ o else i + 2 ^ o.

Lemma lxor_1 a : Z.lxor a 1 = if Z.odd a then a - 1 else a + 1.
Proof.
  assert (∀ b, Z.odd b = false → Z.lxor b 1 = b + 1) as He.
  { intros b Hb. symmetry. apply Z.add_nocarry_lxor. change 1 with (Z.ones 1). rewrite Z.land_ones by lia. change (2 ^ 1) with 2. by rewrite Zmod_odd, Hb. }
  destruct (Z.odd a) eqn:E; [|by apply He]. pose proof (He (a - 1)) as H1. rewrite Z.odd_sub, E in H1. simpl in H1. specialize (H1 eq_refl).
  rewrite Z.sub_add in H1. by rewrite <-H1, Z.lxor_assoc, Z.lxor_nilpotent, Z.lxor_0_r at 1.
Qed.

Lemma lxor_bud i o : 0 <= o → (2 ^ o | i) → Z.lxor i (Z.shiftl 1 o) = bud i o.
Proof.
  intros Ho [a ->]. unfold bud. pose proof (pow_pos o Ho). rewrite Z.div_mul by lia. rewrite <-(Z.shiftl_mul_pow2 a o) at 1 by done.
  rewrite <-Z.shiftl_lxor, lxor_1, Z.shiftl_mul_pow2 by done. destruct (Z.odd a); lia.
Qed.

(** Both halves of the block of twice the size. *)
Lemma bud_spec i o : 0 <= o → (2 ^ o | i) → 0 <= i → let b := bud i o in let m := Z.min i b in
  (2 ^ o | b) ∧ 0 <= b ∧ (2 ^ (o + 1) | m) ∧ (i = m ∧ b = m + 2 ^ o ∨ b = m ∧ i = m + 2 ^ o).
Proof.
  intros Ho [a ->] Hi. cbv zeta. unfold bud. pose proof (pow_pos o Ho). rewrite Z.div_mul by lia. rewrite pow_double by done.
  destruct (Z.odd a) eqn:E.
  - apply Z.odd_spec in E as [q ->]. rewrite Z.min_r by lia. assert (0 <= q) by nia. split; [exists (2 * q); lia|]. split; [nia|]. split; [exists q; lia|lia].
  - assert (Z.even a = true) as E' by (by rewrite <-Z.negb_odd, E). apply Z.even_spec in E' as [q ->]. rewrite Z.min_l by lia.
    split; [exists (2 * q + 1); lia|]. split; [nia|]. split; [exists q; lia|lia].
Qed.

(** Inside the chunk. *)
Lemma bud_in i o : blk i o → blk (bud i o) o ∧ (o < 15 → blk (Z.min i (bud i o)) (o + 1)).
Proof.
  intros (Ho & Hi & Hd & Hend). destruct (bud_spec i o ltac:(lia) Hd Hi) as (Hb & Hb0 & Hm & Hcase). pose proof (pow_pos o ltac:(lia)) as Hpos.
  assert (Z.min i (bud i o) + 2 ^ (o + 1) <= 65536) as Hfit.
  { assert (2 ^ (o + 1) | 65536) as [k Hk] by (apply (pow_divide (o + 1) 16); lia). destruct Hm as [q Hq]. rewrite pow_double in * by lia.
    assert (q < k) by nia. nia. }
  rewrite pow_double in Hfit by lia. split; [split_and!; try done; lia|]. intros Ho'. split_and!; [lia|lia|lia|done|rewrite pow_double; lia].
Qed.

(** ** Partitions *)
Inductive btag : Type := BMeta | BUsed | BFree.
#[global] Instance btag_eq_dec : EqDecision btag.
Proof. solve_decision. Defined.

Abbreviation parts := (gmap Z (Z * btag)).

Record part_ok (P : parts) : Prop := PartOk {
  pa_blk : ∀ i o t, P !! i = Some (o, t) → blk i o;
  pa_apart : ∀ i o t j p u, P !! i = Some (o, t) → P !! j = Some (p, u) → i ≠ j → apart i o j p;
}.
(** Every index outside [hole] is in a block. *)
Definition covered (P : parts) (hole : Z → Prop) : Prop :=
  ∀ x, 0 <= x < 65536 → hole x ∨ ∃ i o t, P !! i = Some (o, t) ∧ i <= x < i + 2 ^ o.
Definition in_blk (h o x : Z) : Prop := h <= x < h + 2 ^ o.
Definition no_hole (x : Z) : Prop := False.

(** No two free buddies, and the metadata starts the chunk. *)
Definition coalesced (P : parts) : Prop := ∀ i o, P !! i = Some (o, BFree) → P !! bud i o ≠ Some (o, BFree).
Definition has_meta (P : parts) : Prop := ∃ o, P !! 0 = Some (o, BMeta).

(** [h] with order [o] is a hole in the partition. *)
Record hole_ok (P : parts) (h o : Z) : Prop := HoleOk {
  ho_part : part_ok P;
  ho_blk : blk h o;
  ho_apart : ∀ i p t, P !! i = Some (p, t) → apart h o i p;
  ho_cover : covered P (in_blk h o);
  ho_coalesced : coalesced P;
  ho_meta : has_meta P;
}.

(** The buddy of a hole is the start of a block that is not larger. *)
Lemma buddy_block P h o : hole_ok P h o → ∃ p t, P !! bud h o = Some (p, t) ∧ p <= o.
Proof.
  intros [Hp Hb Hap Hc _ _]. destruct (bud_in h o Hb) as [Hbb Hm]. pose proof Hb as (Ho & Hh & Hd & Hend). pose proof Hbb as (_ & Hb0 & Hbd & Hbend).
  pose proof (pow_pos o ltac:(lia)). destruct (bud_spec h o ltac:(lia) Hd Hh) as (_ & _ & Hmd & Hcase).
  destruct (Hc (bud h o)) as [Hin|(i & p & t & Hi & Hx)]; [lia|unfold in_blk in Hin; lia|].
  pose proof (pa_blk _ Hp _ _ _ Hi) as (Hpo & Hi0 & Hid & Hiend). exists p, t. destruct (Z.le_gt_cases p o) as [Hle|Hgt].
  - destruct (nested i p (bud h o) o) as [H1 H2]; [lia|done|done|lia|lia|]. assert (i = bud h o) as -> by lia. done.
  - exfalso. destruct (nested (Z.min h (bud h o)) (o + 1) i p) as [H1 H2]; [lia|done|done|lia| |].
    { rewrite pow_double by lia. lia. }
    rewrite pow_double in H2 by lia. destruct (Hap _ _ _ Hi); lia.
Qed.

(** The hole filled with one block. *)
Lemma fill_part P h o t : hole_ok P h o → P !! h = None → part_ok (<[h := (o, t)]> P) ∧ covered (<[h := (o, t)]> P) no_hole.
Proof.
  intros [Hp Hb Hap Hc _ _] Hn. split; [split|].
  - intros i p u [[<- [= <- <-]]|[_ Hi]]%lookup_insert_Some; [done|by eapply pa_blk].
  - intros i p u j q v [[<- [= <- <-]]|[Hne Hi]]%lookup_insert_Some [[<- [= <- <-]]|[Hne' Hj]]%lookup_insert_Some Hij; [done|by eapply Hap| |by eapply pa_apart].
    destruct (Hap _ _ _ Hi); [by right|by left].
  - intros x Hx. right. destruct (Hc x Hx) as [Hin|(i & p & u & Hi & Hxi)]; [exists h, o, t; split; [apply lookup_insert_eq|done]|].
    exists i, p, u. split; [|done]. rewrite lookup_insert_ne; [done|congruence].
Qed.

(** A block taken out leaves a hole. *)
Lemma hole_start P i o t : part_ok P → covered P no_hole → coalesced P → has_meta P → P !! i = Some (o, t) → t ≠ BMeta → hole_ok (delete i P) i o.
Proof.
  intros Hp Hc Hco [om Hm] Hi Ht. pose proof (pa_blk _ Hp _ _ _ Hi) as Hb. split; [split|done| | | |].
  - intros j p u [_ Hj]%lookup_delete_Some. by eapply pa_blk.
  - intros j p u k q v [_ Hj]%lookup_delete_Some [_ Hk]%lookup_delete_Some. by eapply pa_apart.
  - intros j p u [Hne Hj]%lookup_delete_Some. by eapply pa_apart.
  - intros x Hx. destruct (Hc x Hx) as [[]|(j & p & u & Hj & Hxj)]. destruct (decide (j = i)) as [->|Hne].
    + assert (p = o) as -> by congruence. by left.
    + right. exists j, p, u. by rewrite lookup_delete_ne.
  - intros j p [_ Hj]%lookup_delete_Some Hk. apply lookup_delete_Some in Hk as [_ Hk]. by apply (Hco j p).
  - exists om. rewrite lookup_delete_ne; [done|congruence].
Qed.

(** The hole grown by its free buddy. *)
Lemma hole_grow P h o : hole_ok P h o → P !! bud h o = Some (o, BFree) → o < 15 ∧ hole_ok (delete (bud h o) P) (Z.min h (bud h o)) (o + 1).
Proof.
  intros [Hp Hb Hap Hc Hco [om Hm]] Hbud. pose proof Hb as (Ho & Hh & Hd & Hend). pose proof (pow_pos o ltac:(lia)) as Hpos.
  destruct (bud_in h o Hb) as [(_ & _ & _ & Hbe) Hin]. destruct (bud_spec h o ltac:(lia) Hd Hh) as (_ & Hb0 & _ & Hcase).
  pose proof (pa_blk _ Hp _ _ _ Hm) as (Hom & _ & _ & _). pose proof (pow_pos om ltac:(lia)).
  assert (o < 15) as Ho15.
  { destruct (decide (o = 15)) as [->|]; [|lia]. exfalso. change (2 ^ 15) with 32768 in *.
    destruct Hd as [q Hq]. assert (q = 0 ∨ q = 1) as [-> | ->] by lia.
    - destruct (Hap 0 om BMeta Hm) as [H1|H1]; change (2 ^ 15) with 32768 in *; lia.
    - assert (bud h 15 = 0) as E0 by lia. rewrite E0 in Hbud. congruence. }
  split; [done|]. split; [split| | | | |].
  - intros j p u [_ Hj]%lookup_delete_Some. by eapply pa_blk.
  - intros j p u k q v [_ Hj]%lookup_delete_Some [_ Hk]%lookup_delete_Some. by eapply pa_apart.
  - by apply Hin.
  - intros j p u [Hne Hj]%lookup_delete_Some. pose proof (Hap _ _ _ Hj) as H1. pose proof (pa_apart _ Hp _ _ _ _ _ _ Hbud Hj Hne) as H2.
    pose proof (pa_blk _ Hp _ _ _ Hj) as (Hpo & Hj0 & Hjd & _). pose proof (pow_pos p ltac:(lia)).
    unfold apart in *. rewrite pow_double by lia. destruct Hcase as [[E1 E2]|[E1 E2]]; lia.
  - intros x Hx. destruct (Hc x Hx) as [Hx'|(j & p & u & Hj & Hxj)].
    + left. unfold in_blk in *. rewrite pow_double by lia. lia.
    + destruct (decide (j = bud h o)) as [->|Hne].
      * assert (p = o) as -> by congruence. left. unfold in_blk. rewrite pow_double by lia. lia.
      * right. exists j, p, u. by rewrite lookup_delete_ne.
  - intros j p [_ Hj]%lookup_delete_Some Hk. apply lookup_delete_Some in Hk as [_ Hk]. by apply (Hco j p).
  - exists om. rewrite lookup_delete_ne; [done|]. intros E. rewrite E in Hbud. congruence.
Qed.

(** The hole filled with a free block that cannot grow further. *)
Lemma bud_bud i o : 0 <= o → (2 ^ o | i) → bud (bud i o) o = i.
Proof.
  intros Ho Hd. pose proof (lxor_bud i o Ho Hd) as E1. assert (2 ^ o | bud i o) as Hb.
  { unfold bud. destruct (Z.odd _); [apply Z.divide_sub_r|apply Z.divide_add_r]; done || apply Z.divide_refl. }
  rewrite <-(lxor_bud _ _ Ho Hb), <-E1. by rewrite Z.lxor_assoc, Z.lxor_nilpotent, Z.lxor_0_r.
Qed.

Lemma fill_coalesced P h o : hole_ok P h o → P !! bud h o ≠ Some (o, BFree) → P !! h = None → coalesced (<[h := (o, BFree)]> P).
Proof.
  intros [Hp Hb Hap Hc Hco _] Hbud Hn. pose proof Hb as (Ho & Hh & Hd & _). pose proof (pow_pos o ltac:(lia)).
  assert (bud h o ≠ h) as Hne by (unfold bud; destruct (Z.odd _); lia).
  intros i p [[<- [= <-]]|[Hni Hi]]%lookup_insert_Some; [by rewrite lookup_insert_ne by done|].
  intros Hj. apply lookup_insert_Some in Hj as [[Eh [= <-]]|[_ Hj]]; [|by apply (Hco i p)].
  pose proof (pa_blk _ Hp _ _ _ Hi) as (Hpo & Hi0 & Hid & _). apply Hbud. rewrite Eh, bud_bud; [done|lia|done].
Qed.
Lemma fill_used P h o : hole_ok P h o → P !! h = None → coalesced (<[h := (o, BUsed)]> P).
Proof.
  intros [Hp Hb Hap Hc Hco _] Hn i p [[_ [=]]|[Hni Hi]]%lookup_insert_Some Hj.
  apply lookup_insert_Some in Hj as [[_ [=]]|[_ Hj]]. by apply (Hco i p).
Qed.
Lemma hole_start_none P h o : hole_ok P h o → P !! h = None.
Proof.
  intros [Hp Hb Hap _ _ _]. destruct (P !! h) as [[p t]|] eqn:E; [exfalso|done]. pose proof Hb as (Ho & _). pose proof (pow_pos o ltac:(lia)).
  pose proof (pa_blk _ Hp _ _ _ E) as (Hpo & _). pose proof (pow_pos p ltac:(lia)). destruct (Hap _ _ _ E); lia.
Qed.
