(* ===== verification/BuddyOps.v ===== *)
(** * Free lists of a buddy chunk and the operations on them

    The relation between a chunk and its partition, and adding and taking blocks. *)

From S2P Require Import Prelude Wp Buddy BuddyInv.

(** * Free lists of a buddy chunk

    [chunk_rep c P g]: the bits, orders, lists and headers of [c] describe the
    partition [P], and [g] has the free list of every order.  The
    operations on the lists keep this relation. *)

(** ** Arrays *)
Definition alloc_bit (c : buddy_chunk) (i : Z) : bool := bit_of (byte_at (bc_allocated c) (i / 8)) (i mod 8).
Definition order_at (c : buddy_chunk) (i : Z) : Z := get_order (byte_at (bc_orders c) (i / 2)) i.
Definition bytes_ok (m : gmap Z Z) : Prop := ∀ i, is_u8 (byte_at m i).

Definition set_alloc (i : Z) (b : bool) (c : buddy_chunk) : buddy_chunk :=
  with_allocated (λ m, <[i / 8 := put_bit8 b (byte_at m (i / 8)) (i mod 8)]> m) c.
Definition set_ord (i o : Z) (c : buddy_chunk) : buddy_chunk :=
  with_orders (λ m, <[i / 2 := put_order (byte_at m (i / 2)) i o]> m) c.

Lemma byte_at_insert m i v j : byte_at (<[i := v]> m) j = if decide (i = j) then v else byte_at m j.
Proof. unfold byte_at. case_decide as E; [subst; by rewrite lookup_insert_eq|by rewrite lookup_insert_ne]. Qed.

Lemma set_alloc_bytes i b c : bytes_ok (bc_allocated c) → bytes_ok (bc_allocated (set_alloc i b c)).
Proof.
  intros Hb j. simpl. rewrite byte_at_insert. case_decide; [|done].
  pose proof (Z.mod_pos_bound i 8 ltac:(lia)). by apply (put_bit8_spec b _ (i mod 8) (i mod 8)).
Qed.
Lemma alloc_bit_set i b c j : bytes_ok (bc_allocated c) → alloc_bit (set_alloc i b c) j = if decide (j = i) then b else alloc_bit c j.
Proof.
  intros Hb. unfold alloc_bit. simpl. rewrite byte_at_insert. pose proof (Z.mod_pos_bound i 8 ltac:(lia)). pose proof (Z.mod_pos_bound j 8 ltac:(lia)).
  case_decide as E.
  - rewrite E. destruct (put_bit8_spec b (byte_at (bc_allocated c) (j / 8)) (i mod 8) (j mod 8)) as [_ ->]; [done..|].
    destruct (Z.eqb_spec (j mod 8) (i mod 8)); case_decide; try done; [|by subst]. pose proof (Z.div_mod i 8). pose proof (Z.div_mod j 8). lia.
  - by rewrite decide_False by congruence.
Qed.
Lemma set_ord_bytes i o c : 0 <= i → 0 <= o < 16 → bytes_ok (bc_orders c) → bytes_ok (bc_orders (set_ord i o c)).
Proof. intros Hi Ho Hb j. simpl. rewrite byte_at_insert. case_decide; [|done]. by apply (put_order_spec _ o i i). Qed.
Lemma order_at_set i o c j : 0 <= i → 0 <= j → 0 <= o < 16 → bytes_ok (bc_orders c) → order_at (set_ord i o c) j = if decide (j = i) then o else order_at c j.
Proof.
  intros Hi Hj Ho Hb. unfold order_at. simpl. rewrite byte_at_insert. case_decide as E.
  - rewrite E. destruct (put_order_spec (byte_at (bc_orders c) (j / 2)) o i j) as [_ ->]; [done..|].
    by destruct (Z.eqb_spec j i); case_decide.
  - by rewrite decide_False by congruence.
Qed.

Lemma idx_set_allocated_run i b c : 0 <= i < 65536 → idx_set_allocated i b c = Some (0, set_alloc i b c).
Proof. intros Hi. unfold idx_set_allocated. rewrite items_eq, (proj2 (Z.leb_gt _ _)) by lia. done. Qed.
Lemma idx_set_order_run i o c : 0 <= i < 65536 → 0 <= o < 16 → idx_set_order i o c = Some (0, set_ord i o c).
Proof.
  intros Hi Ho. unfold idx_set_order. change BUDDY_CHUNK_NUM_ORDERS with 16. rewrite items_eq, !(proj2 (Z.leb_gt _ _)) by lia. done.
Qed.
Lemma idx_is_allocated_run i c : 0 <= i < 65536 → idx_is_allocated i c = Some ((0, alloc_bit c i), c).
Proof. intros Hi. unfold idx_is_allocated. rewrite items_eq, (proj2 (Z.leb_gt _ _)) by lia. done. Qed.
Lemma idx_get_order_run i c : 0 <= i < 65536 → idx_get_order i c = Some (order_at c i, c).
Proof. intros Hi. unfold idx_get_order. rewrite items_eq, (proj2 (Z.leb_gt _ _)) by lia. done. Qed.
Lemma idx_to_header_run i c : 0 <= i < 65536 → alloc_bit c i = false → idx_to_header i c = Some (Some i, c).
Proof. intros Hi Hb. unfold idx_to_header. erewrite ST_bind_run; [|by apply idx_is_allocated_run]. by rewrite Hb. Qed.
Lemma idx_to_header_null i c : 65536 <= i → idx_to_header i c = Some (None, c).
Proof. intros Hi. unfold idx_to_header, idx_is_allocated. rewrite items_eq. by rewrite (proj2 (Z.leb_le _ _)). Qed.

(** ** Doubly linked lists *)

(** The nodes [l] from [f] to before [nx], after [prev]. *)
Fixpoint seg (H : gmap Z buddy_header) (prev : Z) (l : list Z) (f nx : Z) : Prop :=
  match l with
  | [] => f = nx
  | x :: l => f = x ∧ bh_prev (header_at H x) = prev ∧ seg H x l (bh_next (header_at H x)) nx
  end.
Definition lastd (p : Z) (l : list Z) : Z := default p (last l).

Lemma lastd_cons p x l : lastd p (x :: l) = lastd x l.
Proof. unfold lastd. rewrite last_cons. by destruct (last l). Qed.

Lemma lastd_in p l : l ≠ [] → lastd p l ∈ l.
Proof. intros Hne. unfold lastd. destruct (last l) as [y|] eqn:E; [|by apply last_None in E]. simpl. by apply last_Some_elem_of. Qed.

Lemma seg_frame H H' prev l f nx : (∀ x, x ∈ l → header_at H' x = header_at H x) → seg H prev l f nx → seg H' prev l f nx.
Proof.
  revert prev f. induction l as [|x l IH]; intros prev f Hf; [done|]. intros (-> & Hp & Hs). simpl. rewrite (Hf x) by left.
  split; [done|]. split; [done|]. apply IH; [|done]. intros y Hy. apply Hf. by right.
Qed.

Lemma seg_app H prev l1 l2 f nx : seg H prev (l1 ++ l2) f nx ↔ ∃ m, seg H prev l1 f m ∧ seg H (lastd prev l1) l2 m nx.
Proof.
  revert prev f. induction l1 as [|x l1 IH]; intros prev f; simpl.
  - split; [intros Hs; by exists f|]. by intros (m & -> & Hs).
  - rewrite lastd_cons. setoid_rewrite IH. naive_solver.
Qed.

Lemma header_insert H i h x : header_at (<[i := h]> H) x = if decide (i = x) then h else header_at H x.
Proof. unfold header_at. case_decide as E; [subst; by rewrite lookup_insert_eq|by rewrite lookup_insert_ne]. Qed.

(** The first node gets another predecessor, the last one another successor. *)
Lemma seg_set_prev H p q l f nx : seg H p l f nx → l ≠ [] → NoDup l → seg (<[f := BuddyHeader q (bh_next (header_at H f))]> H) q l f nx.
Proof.
  destruct l as [|x l]; [done|]. intros (-> & Hp & Hs) _ [Hx Hnd]%NoDup_cons. simpl. rewrite header_insert, decide_True by done.
  split; [done|]. split; [done|]. eapply seg_frame; [|exact Hs]. intros y Hy. rewrite header_insert, decide_False; [done|]. intros ->. done.
Qed.
Lemma seg_set_next H p l f m nx : seg H p l f m → l ≠ [] → NoDup l →
  seg (<[lastd p l := BuddyHeader (bh_prev (header_at H (lastd p l))) nx]> H) p l f nx.
Proof.
  revert p f. induction l as [|x l IH]; intros p f; [done|]. intros (-> & Hp & Hs) _ [Hx Hnd]%NoDup_cons. rewrite lastd_cons.
  destruct (decide (l = [])) as [->|Hne].
  - unfold lastd. simpl. rewrite header_insert, decide_True by done. simpl. by rewrite Hp.
  - pose proof (lastd_in x l Hne) as Hin. assert (lastd x l ≠ x) as Hlx by (intros E; rewrite E in Hin; done).
    simpl. rewrite !header_insert, !decide_False by done. split; [done|]. split; [done|]. by apply IH.
Qed.

(** ** The chunk *)
Definition upd (g : Z → list Z) (o : Z) (l : list Z) : Z → list Z := λ p, if decide (p = o) then l else g p.

Record chunk_rep (c : buddy_chunk) (P : parts) (g : Z → list Z) : Prop := ChunkRep {
  cr_orders_u8 : bytes_ok (bc_orders c);
  cr_allocated_u8 : bytes_ok (bc_allocated c);
  cr_len : length (bc_freelists c) = 16%nat;
  cr_blk : ∀ i o t, P !! i = Some (o, t) → blk i o;
  cr_bits : ∀ i, 0 <= i < 65536 → alloc_bit c i = match P !! i with Some (_, BMeta) | Some (_, BUsed) => true | _ => false end;
  cr_order : ∀ i o t, P !! i = Some (o, t) → t ≠ BMeta → order_at c i = o;
  cr_chain : ∀ o, 0 <= o < 16 → ∃ f, bc_freelists c !! Z.to_nat o = Some f ∧ seg (bc_headers c) 65536 (g o) f 65536;
  cr_nodup : ∀ o, 0 <= o < 16 → NoDup (g o);
  cr_mem : ∀ o i, 0 <= o < 16 → i ∈ g o ↔ P !! i = Some (o, BFree);
}.

Section rep.
Context (c : buddy_chunk) (P : parts) (g : Z → list Z) (HR : chunk_rep c P g).

Lemma free_range o i : 0 <= o < 16 → i ∈ g o → 0 <= i < 65536.
Proof.
  intros Ho Hi%(cr_mem _ _ _ HR); [|done]. pose proof (cr_blk _ _ _ HR _ _ _ Hi) as (_ & Hi0 & _ & He). pose proof (pow_pos o ltac:(lia)). lia.
Qed.
Lemma free_bit o i : 0 <= o < 16 → i ∈ g o → alloc_bit c i = false.
Proof. intros Ho Hi. rewrite (cr_bits _ _ _ HR) by (by eapply free_range). apply (cr_mem _ _ _ HR) in Hi; [|done]. by rewrite Hi. Qed.
Lemma free_apart o p i : 0 <= o < 16 → 0 <= p < 16 → i ∈ g o → i ∈ g p → o = p.
Proof. intros Ho Hp Hi Hj. apply (cr_mem _ _ _ HR) in Hi, Hj; [|done..]. congruence. Qed.

(** The head of a list, and whether it is empty. *)
Lemma head_spec o f : 0 <= o < 16 → bc_freelists c !! Z.to_nat o = Some f →
  seg (bc_headers c) 65536 (g o) f 65536 ∧ match g o with [] => f = 65536 | x :: _ => f = x ∧ 0 <= f < 65536 end.
Proof.
  intros Ho Hf. destruct (cr_chain _ _ _ HR o Ho) as (f' & Hf' & Hs). assert (f' = f) as -> by congruence. split; [done|].
  destruct (g o) as [|x l] eqn:E; [done|]. destruct Hs as [-> _]. split; [done|]. apply (free_range o); [done|]. rewrite E. by left.
Qed.
End rep.
Lemma rd_list_run c o f : 0 <= o → bc_freelists c !! Z.to_nat o = Some f → rd_list o c = Some (f, c).
Proof. intros Ho Hf. unfold rd_list. rewrite (proj2 (Z.ltb_ge _ _)) by done. by rewrite Hf. Qed.
Lemma wr_list_run c o v : 0 <= o < 16 → length (bc_freelists c) = 16%nat → wr_list o v c = Some (tt, with_freelists <[Z.to_nat o := v]> c).
Proof.
  intros Ho Hl. unfold wr_list. rewrite (proj2 (Z.ltb_ge _ _)) by lia. destruct (lookup_lt_is_Some_2 (bc_freelists c) (Z.to_nat o)) as [x ->]; [lia|done].
Qed.

(** A relation that survives changes of one list and of headers of its nodes. *)
Lemma rep_lists c c' P P' g o l f :
  chunk_rep c P g → 0 <= o < 16 → bc_allocated c' = bc_allocated c → bytes_ok (bc_orders c') →
  bc_freelists c' = <[Z.to_nat o := f]> (bc_freelists c) → seg (bc_headers c') 65536 l f 65536 →
  (∀ p x, 0 <= p < 16 → p ≠ o → x ∈ g p → header_at (bc_headers c') x = header_at (bc_headers c) x) →
  (∀ i p t, P' !! i = Some (p, t) → blk i p) → (∀ i p t, P' !! i = Some (p, t) → t ≠ BMeta → order_at c' i = p) →
  (∀ i, 0 <= i < 65536 → match P' !! i with Some (_, BMeta) | Some (_, BUsed) => true | _ => false end =
    match P !! i with Some (_, BMeta) | Some (_, BUsed) => true | _ => false end) →
  NoDup l → (∀ i, i ∈ l ↔ P' !! i = Some (o, BFree)) → (∀ i p, p ≠ o → P' !! i = Some (p, BFree) ↔ P !! i = Some (p, BFree)) →
  chunk_rep c' P' (upd g o l).
Proof.
  intros HR Ho Ea Hob Ef Hl Hframe Hblk Hord Hbits Hnd Hmem Hother. split.
  - done.
  - rewrite Ea. apply HR.
  - rewrite Ef, length_insert. apply HR.
  - done.
  - intros i Hi. unfold alloc_bit. rewrite Ea. fold (alloc_bit c i). rewrite (cr_bits _ _ _ HR i Hi). symmetry. by apply Hbits.
  - done.
  - intros p Hp. unfold upd. case_decide as E.
    + subst p. exists f. split; [|done]. rewrite Ef. apply list_lookup_insert_eq. rewrite (cr_len _ _ _ HR). lia.
    + destruct (cr_chain _ _ _ HR p Hp) as (f' & Hf' & Hs). exists f'. split; [rewrite Ef, list_lookup_insert_ne; [done|lia]|].
      eapply seg_frame; [|done]. intros x Hx. by apply (Hframe p).
  - intros p Hp. unfold upd. case_decide; [done|]. by apply (cr_nodup _ _ _ HR).
  - intros p i Hp. unfold upd. case_decide as E; [by subst p|]. rewrite (cr_mem _ _ _ HR) by done. symmetry. by apply Hother.
Qed.

(** * Adding to and taking from the free lists of a buddy chunk *)

(** What the functions on a chunk leave alone. *)
Definition same_links (c c' : buddy_chunk) : Prop := bc_prev c' = bc_prev c ∧ bc_next c' = bc_next c.
Lemma same_links_trans c1 c2 c3 : same_links c1 c2 → same_links c2 c3 → same_links c1 c3.
Proof. unfold same_links. intuition congruence. Qed.

Lemma wp_wr_header i f (Q : unit → buddy_chunk → Prop) c : Q tt (with_headers (λ H, <[i := f (header_at H i)]> H) c) → wp (wr_header (Some i) f) Q c.
Proof. done. Qed.
Lemma wp_rd_header i (Q : buddy_header → buddy_chunk → Prop) c : Q (header_at (bc_headers c) i) c → wp (rd_header (Some i)) Q c.
Proof. done. Qed.
Lemma u32_idx v : 0 <= v <= 65536 → u32 v = v.
Proof. intros Hv. apply u32_small. unfold two32. lia. Qed.

(** The headers, after [i] became the first node before [f]. *)
Lemma seg_push H H' i l f : seg H 65536 l f 65536 → NoDup l → i ∉ l →
  header_at H' i = BuddyHeader 65536 f → (∀ x, x ∈ l → header_at H' x = if decide (x = f) then BuddyHeader i (bh_next (header_at H f)) else header_at H x) →
  seg H' 65536 (i :: l) i 65536.
Proof.
  intros Hs Hnd Hi Ehi Hrest. simpl. rewrite Ehi. split; [done|]. split; [done|]. simpl. destruct (decide (l = [])) as [->|Hne]; [done|].
  eapply seg_frame; [|by apply (seg_set_prev H 65536 i l f 65536)]. intros x Hx. rewrite header_insert, Hrest by done.
  destruct (decide (f = x)), (decide (x = f)); congruence.
Qed.

(** The partition with a free block more. *)
Lemma rep_push c c' P g o i :
  chunk_rep c P g → blk i o → P !! i = None → bc_allocated c' = bc_allocated c → bc_orders c' = bc_orders (set_ord i o c) →
  bc_freelists c' = <[Z.to_nat o := i]> (bc_freelists c) →
  (∀ f, bc_freelists c !! Z.to_nat o = Some f → header_at (bc_headers c') i = BuddyHeader 65536 f ∧
    ∀ x, x ≠ i → header_at (bc_headers c') x = if decide (x = f ∧ f ≠ 65536) then BuddyHeader i (bh_next (header_at (bc_headers c) f)) else header_at (bc_headers c) x) →
  chunk_rep c' (<[i := (o, BFree)]> P) (upd g o (i :: g o)).
Proof.
  intros HR Hb Hn Ea Eo Ef Hh. pose proof Hb as (Ho & Hi & _). destruct (cr_chain _ _ _ HR o Ho) as (f & Hf & Hs).
  destruct (Hh f Hf) as [Hhi Hhx]. destruct (head_spec c P g HR o f Ho Hf) as [_ Hhead].
  assert (∀ p, 0 <= p < 16 → i ∉ g p) as Hni by (intros p Hp Hin; apply (cr_mem _ _ _ HR) in Hin; [congruence|done]).
  eapply (rep_lists c c' P); [exact HR|done|done| |exact Ef| | | | | | | |].
  - rewrite Eo. apply set_ord_bytes; [done|done|apply HR].
  - apply (seg_push (bc_headers c)) with f; [done|by apply HR|by apply Hni|done|]. intros x Hx.
    assert (x ≠ i) as Hxi by (intros ->; by apply (Hni o)). rewrite (Hhx x Hxi).
    pose proof (free_range c P g HR o x Ho Hx). destruct (decide (x = f)); [|by rewrite decide_False by (intros [? _]; done)]. subst x. by rewrite decide_True by (split; [done|lia]).
  - intros p x Hp Hne Hx. assert (x ≠ i) as Hxi by (intros ->; by apply (Hni p)). rewrite (Hhx x Hxi). rewrite decide_False; [done|]. intros [-> Hf'].
    destruct (g o) as [|y l] eqn:E; [done|]. destruct Hhead as [-> _]. assert (p = o); [|done].
    eapply (free_apart c P g HR p o y); [done|done|done|]. rewrite E. by left.
  - intros j p t [[<- [= <- <-]]|[_ Hj]]%lookup_insert_Some; [done|by eapply (cr_blk _ _ _ HR)].
  - intros j p t Hj Ht. unfold order_at. rewrite Eo. fold (order_at (set_ord i o c) j). apply lookup_insert_Some in Hj as [[<- [= <- <-]]|[Hne Hj]].
    + rewrite order_at_set by (done || apply HR). by rewrite decide_True by done.
    + pose proof (cr_blk _ _ _ HR _ _ _ Hj) as (_ & Hj0 & _). rewrite order_at_set by (done || apply HR). rewrite decide_False by done. by apply (cr_order _ _ _ HR _ _ t).
  - intros j Hj. destruct (decide (j = i)) as [->|Hne]; [by rewrite lookup_insert_eq, Hn|by rewrite lookup_insert_ne].
  - apply NoDup_cons. split; [by apply Hni|by apply HR].
  - intros j. rewrite elem_of_cons, (cr_mem _ _ _ HR) by done. rewrite lookup_insert_Some. destruct (decide (j = i)) as [->|Hne].
    + split; intros _; by left.
    + split; [intros [?|?]; [done|by right]|]. intros [[? _]|[_ ?]]; [congruence|by right].
  - intros j p Hp. rewrite lookup_insert_Some. split; [intros [[_ [=]]|[_ ?]]; [congruence|done]|]. intros Hj. right. split; [congruence|done].
Qed.

Lemma header_add_spec c P g o i : chunk_rep c P g → blk i o → P !! i = None →
  wp (header_add_freelist (Some i) i o) (λ _ c', chunk_rep c' (<[i := (o, BFree)]> P) (upd g o (i :: g o)) ∧ same_links c c') c.
Proof.
  intros HR Hb Hn. pose proof Hb as (Ho & Hi & _ & Hend). pose proof (pow_pos o ltac:(lia)) as Hpos. destruct (cr_chain _ _ _ HR o Ho) as (f & Hf & Hs).
  destruct (head_spec c P g HR o f Ho Hf) as [_ Hhead]. unfold header_add_freelist.
  wbind. eapply wp_eq; [apply idx_set_order_run; [lia|done]|]. wbind. eapply wp_eq; [apply rd_list_run; [lia|done]|].
  wbind. apply wp_wr_header. wbind. apply wp_wr_header. wbind. apply wp_rd_header. simpl bc_headers.
  assert (0 <= f <= 65536) as Hfr by (destruct (g o); lia). rewrite !header_insert, !decide_True by done. cbn [bh_next set_prev set_next].
  rewrite items_eq, !u32_idx by lia. wbind.
  set (c3 := with_headers _ (with_headers _ _)).
  assert (∀ x, header_at (bc_headers c3) x = if decide (i = x) then BuddyHeader 65536 f else header_at (bc_headers c) x) as H3.
  { intros x. unfold c3. simpl. rewrite !header_insert. destruct (decide (i = x)); [|done]. rewrite decide_True by done. unfold set_prev, set_next. simpl. by rewrite !u32_idx by lia. }
  assert (length (bc_freelists c) = 16%nat) as Hlen by apply HR.
  destruct (Z.eqb_spec f 65536) as [E|E]; cbn [negb].
  - apply wp_ret. eapply wp_eq; [by apply wr_list_run|]. split; [|done]. eapply rep_push; try done.
    intros f' Hf'. assert (f' = f) as -> by congruence. simpl bc_headers. rewrite !H3, decide_True by done. split; [done|]. intros x Hx. rewrite H3, !decide_False by (done || intros [_ ?]; done || congruence). done.
  - assert (f ∈ g o ∧ 0 <= f < 65536) as [Hin Hf0] by (destruct (g o); [done|destruct Hhead as [-> ?]; split; [left|done]]).
    wbind. eapply wp_eq; [apply idx_to_header_run; [done|exact (free_bit c P g HR o f Ho Hin)]|]. apply wp_wr_header.
    eapply wp_eq; [by apply wr_list_run|]. split; [|done].
    assert (i ≠ f) as Hif by (intros ->; apply (cr_mem _ _ _ HR) in Hin; [congruence|done]).
    eapply rep_push; try done. intros f' Hf'. assert (f' = f) as -> by congruence. simpl bc_headers. split.
    + rewrite header_insert, decide_False by done. rewrite H3, decide_True by done. done.
    + intros x Hx. rewrite header_insert, H3. unfold set_prev. rewrite !H3, (decide_False (P := i = f)) by done. rewrite u32_idx by lia.
      destruct (decide (f = x)) as [->|Hfx]; [by rewrite decide_True by done|]. by rewrite !decide_False by (congruence || intros [? _]; congruence).
Qed.

(** ** Taking a node out of its list *)

(** The headers after the node [i] between [l1] and [l2] was taken out. *)
Lemma seg_remove H H' i l1 l2 f n : seg H 65536 (l1 ++ i :: l2) f 65536 → NoDup (l1 ++ i :: l2) → n = bh_next (header_at H i) →
  (∀ x, x ∈ l1 ++ l2 → header_at H' x =
    if decide (x = lastd 65536 l1) then BuddyHeader (bh_prev (header_at H x)) n
    else if decide (x = n) then BuddyHeader (lastd 65536 l1) (bh_next (header_at H x)) else header_at H x) →
  65536 ∉ l1 ++ l2 →
  bh_prev (header_at H i) = lastd 65536 l1 ∧ (n = 65536 ↔ l2 = []) ∧ (l2 ≠ [] → n ∈ l2) ∧
  seg H' 65536 (l1 ++ l2) (match l1 with [] => n | _ => f end) 65536 ∧ (f = i ↔ l1 = []).
Proof.
  intros Hs Hnd En Hh Hno. apply seg_app in Hs as (m & Hs1 & -> & Hp & Hs2). rewrite <-En in Hs2.
  apply NoDup_app in Hnd as (Hnd1 & Hd & [Hi2 Hnd2]%NoDup_cons). rewrite not_elem_of_app in Hno. destruct Hno as [Hno1 Hno2].
  assert (l2 ≠ [] → n ∈ l2 ∧ n ≠ 65536) as Hn2.
  { destruct l2 as [|y l2]; [done|]. destruct Hs2 as [-> _]. intros _. split; [left|]. intros ->. apply Hno2. left. }
  split; [done|]. split; [|split; [|split]].
  - split; [intros ->; destruct (decide (l2 = [])); [done|by destruct Hn2]|]. intros ->. exact Hs2.
  - intros Hne. by apply Hn2.
  - apply seg_app. exists n. split.
    + destruct l1 as [|y l1]; [done|]. eapply seg_frame; [|apply (seg_set_next H 65536 (y :: l1) f i n); [done|done|done]].
      intros x Hx. rewrite header_insert. rewrite Hh by (apply elem_of_app; by left).
      destruct (decide (x = lastd 65536 (y :: l1))) as [->|Hne]; [by rewrite decide_True by done|]. rewrite (decide_False (P := lastd _ _ = x)) by congruence.
      rewrite decide_False; [done|]. intros ->. destruct (decide (l2 = [])) as [->|Hne2]; [simpl in Hs2; subst n; done|].
      destruct (Hn2 Hne2) as [Hin _]. apply (Hd n Hx). by right.
    + destruct (decide (l2 = [])) as [->|Hne2]; [exact Hs2|]. destruct (Hn2 Hne2) as [Hin Hn65].
      eapply seg_frame; [|apply (seg_set_prev H i (lastd 65536 l1) l2 n 65536); [done|done|done]].
      intros x Hx. rewrite header_insert. rewrite Hh by (apply elem_of_app; by right).
      rewrite decide_False.
      2: { intros ->. destruct (decide (l1 = [])) as [->|Hne1]; [done|]. apply (Hd (lastd 65536 l1)); [by apply lastd_in|by right]. }
      destruct (decide (x = n)) as [->|Hne]; [by rewrite decide_True by done|]. by rewrite decide_False by congruence.
  - destruct l1 as [|y l1]; simpl in Hs1; [by subst|]. destruct Hs1 as [-> _]. split; [intros ->|done]. exfalso. apply (Hd i); by left.
Qed.

(** The partition without a free block. *)
Lemma rep_remove c c' P g o i l1 l2 f :
  chunk_rep c P g → 0 <= o < 16 → g o = l1 ++ i :: l2 → bc_freelists c !! Z.to_nat o = Some f → bc_allocated c' = bc_allocated c → bc_orders c' = bc_orders c →
  let n := bh_next (header_at (bc_headers c) i) in
  bc_freelists c' = <[Z.to_nat o := match l1 with [] => n | _ => f end]> (bc_freelists c) →
  (∀ x, x ≠ i → x ≠ 65536 → header_at (bc_headers c') x =
    if decide (x = lastd 65536 l1) then BuddyHeader (bh_prev (header_at (bc_headers c) x)) n
    else if decide (x = n) then BuddyHeader (lastd 65536 l1) (bh_next (header_at (bc_headers c) x)) else header_at (bc_headers c) x) →
  chunk_rep c' (delete i P) (upd g o (l1 ++ l2)).
Proof.
  intros HR Ho Eg Hf Ea Eo n Ef Hh. destruct (head_spec c P g HR o f Ho Hf) as [Hs _]. pose proof (cr_nodup _ _ _ HR o Ho) as Hnd. rewrite Eg in Hs, Hnd.
  assert (∀ x, x ∈ l1 ++ i :: l2 → 0 <= x < 65536) as Hrange by (intros x; rewrite <-Eg; by apply (free_range c P g HR)).
  assert (∀ x, x ∈ l1 ++ l2 → x ∈ l1 ++ i :: l2) as Hsub by (intros x; rewrite !elem_of_app, elem_of_cons; tauto).
  assert (i ∉ l1 ++ l2) as Hni.
  { apply NoDup_app in Hnd as (_ & Hd & [Hi2 _]%NoDup_cons). rewrite elem_of_app. intros [Hi1|?]; [|done]. apply (Hd i Hi1). by left. }
  assert (P !! i = Some (o, BFree)) as Hi by (apply (cr_mem _ _ _ HR); [done|]; rewrite Eg; apply elem_of_app; right; left).
  destruct (seg_remove (bc_headers c) (bc_headers c') i l1 l2 f n Hs Hnd eq_refl) as (_ & Hn2 & Hn3 & Hseg & _).
  { intros x Hx. apply Hh; [by intros ->|]. specialize (Hrange x (Hsub x Hx)). lia. }
  { intros Hin. specialize (Hrange _ (Hsub _ Hin)). lia. }
  eapply (rep_lists c c' P); [exact HR|done|done|rewrite Eo; apply HR|exact Ef|exact Hseg| | | | | | |].
  - intros p x Hp Hne Hx. pose proof (free_range c P g HR p x Hp Hx). assert (x ∉ l1 ++ i :: l2) as Hnx.
    { rewrite <-Eg. intros Hin. apply Hne. by apply (free_apart c P g HR p o x). }
    rewrite Hh; [| |lia]. 2: { intros ->. apply Hnx, elem_of_app. right. left. }
    rewrite !decide_False; [done| |].
    + intros ->. destruct (decide (l2 = [])) as [E|E]; [apply Hn2 in E; lia|]. apply Hnx, Hsub, elem_of_app. right. by apply Hn3.
    + intros ->. destruct (decide (l1 = [])) as [->|E]; [unfold lastd in *; simpl in *; lia|]. apply Hnx, elem_of_app. left. by apply lastd_in.
  - intros j p t [_ Hj]%lookup_delete_Some. by eapply (cr_blk _ _ _ HR).
  - intros j p t [_ Hj]%lookup_delete_Some Ht. unfold order_at. rewrite Eo. by apply (cr_order _ _ _ HR _ _ t).
  - intros j Hj. destruct (decide (j = i)) as [->|Hne]; [by rewrite lookup_delete_eq, Hi|by rewrite lookup_delete_ne].
  - apply NoDup_app in Hnd as (Hnd1 & Hd & [_ Hnd2]%NoDup_cons). apply NoDup_app. split_and!; [done| |done]. intros x Hx Hx2. apply (Hd x Hx). by right.
  - intros j. rewrite lookup_delete_Some, <-(cr_mem _ _ _ HR), Eg by done. rewrite !elem_of_app, elem_of_cons. split.
    + intros Hj. split; [intros ->; apply Hni, elem_of_app; done|tauto].
    + intros [Hne [?|[?|?]]]; [by left|congruence|by right].
  - intros j p Hp. rewrite lookup_delete_Some. split; [by intros [_ ?]|]. intros Hj. split; [congruence|done].
Qed.

(** What is known of a node of a list. *)
Lemma node_facts c P g o i : chunk_rep c P g → P !! i = Some (o, BFree) →
  ∃ l1 l2 f, g o = l1 ++ i :: l2 ∧ bc_freelists c !! Z.to_nat o = Some f ∧ 0 <= o < 16 ∧ 0 <= i < 65536 ∧
    let p := bh_prev (header_at (bc_headers c) i) in let n := bh_next (header_at (bc_headers c) i) in
    p = lastd 65536 l1 ∧ (f = i ↔ l1 = []) ∧ 0 <= f < 65536 ∧ alloc_bit c f = false ∧
    (p = 65536 ↔ l1 = []) ∧ (p ≠ 65536 → 0 <= p < 65536 ∧ alloc_bit c p = false ∧ p ≠ i) ∧
    (n ≠ 65536 → 0 <= n < 65536 ∧ alloc_bit c n = false ∧ n ≠ i ∧ n ≠ p).
Proof.
  intros HR Hi. pose proof (cr_blk _ _ _ HR _ _ _ Hi) as (Ho & Hi0 & _ & Hend). pose proof (pow_pos o ltac:(lia)).
  pose proof Hi as Hin. apply (cr_mem _ _ _ HR) in Hin; [|done]. apply list_elem_of_split in Hin as (l1 & l2 & Eg).
  destruct (cr_chain _ _ _ HR o Ho) as (f & Hf & Hs). destruct (head_spec c P g HR o f Ho Hf) as [_ Hhead].
  assert (∀ x, x ∈ l1 ++ i :: l2 → 0 <= x < 65536 ∧ alloc_bit c x = false) as Hr.
  { intros x. rewrite <-Eg. intros Hx. split; [by apply (free_range c P g HR o)|by apply (free_bit c P g HR o)]. }
  pose proof (cr_nodup _ _ _ HR o Ho) as Hnd. rewrite Eg in Hs, Hnd. apply NoDup_app in Hnd as (Hnd1 & Hd & [Hi2 Hnd2]%NoDup_cons).
  apply seg_app in Hs as (m & Hs1 & -> & Hp & Hs2). exists l1, l2, f. split; [done|]. split; [done|]. split; [done|]. split; [lia|]. cbv zeta.
  split; [done|]. assert (l1 ≠ [] → lastd 65536 l1 ∈ l1) as Hl1 by apply lastd_in.
  assert (f = i ↔ l1 = []) as Hfi.
  { destruct l1 as [|y l1]; simpl in Hs1; [by subst|]. destruct Hs1 as [-> _]. split; [intros ->|done]. exfalso. apply (Hd i); by left. }
  split; [done|]. assert (f ∈ l1 ++ i :: l2) as Hfin.
  { destruct l1 as [|y l1]; simpl in Hs1; [subst; by left|]. destruct Hs1 as [-> _]. by left. }
  destruct (Hr f Hfin) as [Hf0 Hfb]. split; [done|]. split; [done|]. rewrite Hp. split; [|split].
  - split; [|by intros ->]. intros E. destruct (decide (l1 = [])); [done|]. destruct (Hr (lastd 65536 l1)); [apply elem_of_app; left; auto|lia].
  - intros Hne. assert (l1 ≠ []) as Hl by (by intros ->). destruct (Hr (lastd 65536 l1)); [apply elem_of_app; left; auto|].
    split; [done|]. split; [done|]. intros E. apply (Hd i); [rewrite <-E; auto|by left].
  - intros Hne. destruct l2 as [|y l2]; [by simpl in Hs2|]. destruct Hs2 as [E _]. rewrite E.
    destruct (Hr y) as [? ?]; [apply elem_of_app; right; right; left|]. split; [done|]. split; [done|]. split; [intros ->; apply Hi2; left|].
    intros Ey. destruct (decide (l1 = [])) as [->|Hl]; [unfold lastd in Ey; simpl in Ey; lia|]. apply (Hd y); [rewrite Ey; auto|right; left].
Qed.

Lemma header_remove_spec c P g o i : chunk_rep c P g → P !! i = Some (o, BFree) →
  wp (header_remove_freelist (Some i) o) (λ _ c', ∃ g', chunk_rep c' (delete i P) g' ∧ same_links c c') c.
Proof.
  intros HR Hi. destruct (node_facts c P g o i HR Hi) as (l1 & l2 & f & Eg & Hf & Ho & Hi0 & Hp & Hfi & Hf0 & Hfb & Hpl & Hpr & Hnr).
  set (p := bh_prev (header_at (bc_headers c) i)) in *. set (n := bh_next (header_at (bc_headers c) i)) in *.
  assert (length (bc_freelists c) = 16%nat) as Hlen by apply HR.
  assert (∃ H1, wp (header_remove_freelist (Some i) o) (λ _ c', c' = with_freelists (λ fl, if decide (f = i) then <[Z.to_nat o := n]> fl else fl) (with_headers (λ _, H1) c)) c ∧
    ∀ x, x ≠ i → header_at H1 x = if decide (x = p ∧ p ≠ 65536) then BuddyHeader (bh_prev (header_at (bc_headers c) x)) (u32 n)
      else if decide (x = n ∧ n ≠ 65536) then BuddyHeader (u32 p) (bh_next (header_at (bc_headers c) x)) else header_at (bc_headers c) x) as (H1 & Hwp & HH).
  { set (Ha := if decide (p = 65536) then bc_headers c else <[p := set_next n (header_at (bc_headers c) p)]> (bc_headers c)).
    set (Hb := if decide (n = 65536) then Ha else <[n := set_prev p (header_at Ha n)]> Ha).
    assert (header_at Ha i = header_at (bc_headers c) i) as Eai.
    { unfold Ha. case_decide; [done|]. rewrite header_insert, decide_False; [done|by apply Hpr]. }
    assert (header_at Hb i = header_at (bc_headers c) i) as Ebi.
    { unfold Hb. case_decide; [done|]. rewrite header_insert, decide_False; [done|by apply Hnr]. }
    set (Hc := <[i := set_prev 65536 (header_at Hb i)]> Hb). exists (<[i := set_next 65536 (header_at Hc i)]> Hc). split.
    - unfold header_remove_freelist. wbind. apply wp_rd_header. fold p. rewrite items_eq. wbind.
      apply (wp_mono _ (λ _ c1, c1 = with_headers (λ _, Ha) c)).
      { unfold Ha. destruct (Z.eqb_spec p 65536) as [E|E]; cbn [negb]; [apply wp_ret; rewrite decide_True by done; by destruct c|].
        destruct (Hpr E) as (Hp0 & Hpb & _). wbind. eapply wp_eq; [by apply idx_to_header_run|]. wbind. apply wp_rd_header. fold n. apply wp_wr_header. by rewrite decide_False by done. }
      intros _ ? ->. wbind. apply wp_rd_header. cbn [bc_headers with_headers]. rewrite Eai. fold n. wbind.
      apply (wp_mono _ (λ _ c1, c1 = with_headers (λ _, Hb) c)).
      { unfold Hb. destruct (Z.eqb_spec n 65536) as [E|E]; cbn [negb]; [apply wp_ret; by rewrite decide_True by done|].
        destruct (Hnr E) as (Hn0 & Hnb & _). wbind. eapply wp_eq; [by apply idx_to_header_run|]. wbind. apply wp_rd_header. cbn [bc_headers with_headers].
        rewrite Eai. fold p. apply wp_wr_header. by rewrite decide_False by done. }
      intros _ ? ->. wbind. eapply wp_eq; [by apply rd_list_run; [lia|]|]. wbind. eapply wp_eq; [by apply idx_to_header_run|]. wbind.
      apply (wp_mono _ (λ _ c1, c1 = with_freelists (λ fl, if decide (f = i) then <[Z.to_nat o := n]> fl else fl) (with_headers (λ _, Hb) c))).
      { destruct (decide (f = i)) as [->|Hne].
        - rewrite bool_decide_true by done. wbind. apply wp_rd_header. cbn [bc_headers with_headers]. rewrite Ebi. fold n. eapply wp_eq; [by apply wr_list_run|done].
        - rewrite bool_decide_false by congruence. by apply wp_ret. }
      intros _ ? ->. wbind. apply wp_wr_header. apply wp_wr_header. reflexivity.
    - intros x Hx. unfold Hc. rewrite !header_insert, !(decide_False (P := i = x)) by done. unfold Hb. destruct (decide (n = 65536)) as [En|En].
      + rewrite (decide_False (P := x = n ∧ _)) by (intros [_ ?]; done). unfold Ha. destruct (decide (p = 65536)) as [Ep|Ep]; [by rewrite decide_False by (intros [_ ?]; done)|].
        rewrite header_insert. destruct (decide (p = x)) as [->|Hpx]; [by rewrite decide_True by done|]. by rewrite decide_False by (intros [? _]; congruence).
      + destruct (Hnr En) as (_ & _ & _ & Hnp). rewrite header_insert. destruct (decide (n = x)) as [->|Hnx].
        * rewrite decide_False by (intros [? _]; congruence). rewrite decide_True by done. unfold set_prev. f_equal. unfold Ha. case_decide; [done|]. by rewrite header_insert, decide_False by congruence.
        * rewrite (decide_False (P := x = n ∧ _)) by (intros [? _]; congruence). unfold Ha. destruct (decide (p = 65536)) as [Ep|Ep]; [by rewrite decide_False by (intros [_ ?]; done)|].
          rewrite header_insert. destruct (decide (p = x)) as [->|Hpx]; [by rewrite decide_True by done|]. by rewrite decide_False by (intros [? _]; congruence). }
  eapply wp_mono; [exact Hwp|]. intros _ ? ->. exists (upd g o (l1 ++ l2)). split; [|done].
  assert (u32 p = p) as Eup by (apply u32_idx; destruct (decide (p = 65536)); [lia|destruct (Hpr ltac:(done)); lia]).
  assert (u32 n = n) as Eun by (apply u32_idx; destruct (decide (n = 65536)); [lia|destruct (Hnr ltac:(done)); lia]).
  eapply (rep_remove c _ P g o i l1 l2 f); [done|done|done|done|done|done| |].
  - cbn. fold n. destruct (decide (f = i)) as [E|E].
    + apply Hfi in E as ->. done.
    + destruct l1 as [|y l1]; [by destruct E; apply Hfi|]. by rewrite list_insert_id.
  - intros x Hx Hx65. cbn. rewrite (HH x Hx), Eup, Eun. fold n. rewrite <-Hp.
    destruct (decide (x = p)) as [->|Hxp]; [by rewrite decide_True by done|]. rewrite decide_False by (intros [? _]; done).
    destruct (decide (x = n)) as [->|Hxn]; [by rewrite decide_True by done|]. by rewrite decide_False by (intros [? _]; done).
Qed.
