(* ===== verification/BuddyAlloc.v ===== *)
(** * Allocation and freeing in a buddy chunk *)

From S2P Require Import Prelude Wp Buddy BuddyInv BuddyOps.

(** * Allocation in a buddy chunk *)

(** A chunk in order. *)
Record chunk_parts (P : parts) : Prop := ChunkParts {
  cp_part : part_ok P;
  cp_cover : covered P no_hole;
  cp_coalesced : coalesced P;
  cp_meta : has_meta P;
}.
Definition chunk_ok (c : buddy_chunk) (P : parts) : Prop := chunk_parts P ∧ ∃ g, chunk_rep c P g.

Lemma blk_range i o : blk i o → 0 <= i < 65536.
Proof. intros (Ho & Hi & _ & He). pose proof (pow_pos o ltac:(lia)). lia. Qed.

(** ** Marks *)
Definition taken (v : option (Z * btag)) : bool := match v with Some (_, BMeta) | Some (_, BUsed) => true | _ => false end.

(** The bit of one index follows the tag of its block. *)
Lemma rep_mark c P P' g i b :
  chunk_rep c P g → (∀ j, j ≠ i → P' !! j = P !! j) → taken (P' !! i) = b → (∀ o, P !! i ≠ Some (o, BFree)) → (∀ o, P' !! i ≠ Some (o, BFree)) →
  (∀ o t, P' !! i = Some (o, t) → blk i o ∧ (t ≠ BMeta → order_at c i = o)) → chunk_rep (set_alloc i b c) P' g.
Proof.
  intros HR Hsame Hb Hold Hnew Hi.
  assert (∀ j o, P' !! j = Some (o, BFree) ↔ P !! j = Some (o, BFree)) as Hfree.
  { intros j o. destruct (decide (j = i)) as [->|Hne]; [|by rewrite Hsame]. split; [by intros ?%Hnew|by intros ?%Hold]. }
  split; try apply HR.
  - apply set_alloc_bytes, HR.
  - intros j o t Hj. destruct (decide (j = i)) as [->|Hne]; [by apply (Hi o t)|]. rewrite Hsame in Hj by done. by eapply (cr_blk _ _ _ HR).
  - intros j Hj. rewrite alloc_bit_set by apply HR. case_decide as E; [subst j; by rewrite <-Hb|]. rewrite Hsame by done. by apply (cr_bits _ _ _ HR).
  - intros j o t Hj Ht. change (order_at (set_alloc i b c) j) with (order_at c j). destruct (decide (j = i)) as [->|Hne]; [by apply (Hi o t)|].
    rewrite Hsame in Hj by done. by apply (cr_order _ _ _ HR _ _ t).
  - intros o j Ho. rewrite (cr_mem _ _ _ HR) by done. by rewrite Hfree.
Qed.

Lemma rep_set_ord c P g i o : chunk_rep c P g → 0 <= i → 0 <= o < 16 → P !! i = None → chunk_rep (set_ord i o c) P g.
Proof.
  intros HR Hi Ho Hn. split; try apply HR.
  - apply set_ord_bytes; [done|done|apply HR].
  - intros j p t Hj Ht. pose proof (cr_blk _ _ _ HR _ _ _ Hj) as (_ & Hj0 & _). rewrite order_at_set by (done || apply HR).
    rewrite decide_False by congruence. by apply (cr_order _ _ _ HR _ _ t).
Qed.

Lemma rep_take c P g i o : chunk_rep c P g → blk i o → P !! i = None → chunk_rep (set_alloc i true (set_ord i o c)) (<[i := (o, BUsed)]> P) g.
Proof.
  intros HR Hb Hn. pose proof Hb as (Ho & Hi & _). eapply rep_mark; [by apply rep_set_ord| | | | |].
  - intros j Hj. by rewrite lookup_insert_ne.
  - by rewrite lookup_insert_eq.
  - intros p. by rewrite Hn.
  - intros p. by rewrite lookup_insert_eq.
  - intros p t. rewrite lookup_insert_eq. intros [= <- <-]. split; [done|]. intros _. rewrite order_at_set by (done || apply HR). by rewrite decide_True.
Qed.
Lemma rep_release c P g i o : chunk_rep c P g → P !! i = Some (o, BUsed) → chunk_rep (set_alloc i false c) (delete i P) g.
Proof.
  intros HR Hi. eapply rep_mark; [done| | | | |].
  - intros j Hj. by rewrite lookup_delete_ne.
  - by rewrite lookup_delete_eq.
  - intros p. by rewrite Hi.
  - intros p. by rewrite lookup_delete_eq.
  - intros p t. by rewrite lookup_delete_eq.
Qed.
Lemma rep_clear c P g i : chunk_rep c P g → P !! i = None → chunk_rep (set_alloc i false c) P g.
Proof. intros HR Hi. eapply rep_mark; [done|done|by rewrite Hi|by rewrite Hi|by rewrite Hi|by rewrite Hi]. Qed.

Lemma rep_bit_none c P g i : chunk_rep c P g → 0 <= i < 65536 → P !! i = None → alloc_bit c i = false.
Proof. intros HR Hi Hn. rewrite (cr_bits _ _ _ HR) by done. by rewrite Hn. Qed.

(** ** Search *)
Lemma find_order_spec c P g n i o : chunk_rep c P g → 0 <= i → i + Z.of_nat n = 16 →
  ∃ p, find_order n i o c = Some (p, c) ∧
    ((i <= p < 16 ∧ g p ≠ [] ∧ ∀ q, i <= q < p → g q = []) ∨ (p = if n is O then o else 15) ∧ ∀ q, i <= q < 16 → g q = []).
Proof.
  intros HR. revert i o. induction n as [|n IH]; intros i o Hi Hn.
  { exists o. split; [done|]. right. split; [done|]. intros q Hq. lia. }
  destruct (cr_chain _ _ _ HR i) as (f & Hf & _); [lia|]. destruct (head_spec c P g HR i f) as [_ Hhead]; [lia|done|].
  cbn [find_order]. rewrite (ST_bind_run _ _ _ _ _ (rd_list_run c i f ltac:(lia) Hf)). rewrite items_eq. destruct (g i) as [|x l] eqn:E.
  - subst f. rewrite Z.eqb_refl. cbn [negb]. destruct (IH (i + 1) i) as (p & Ep & HQ); [lia|lia|]. exists p. split; [done|]. destruct HQ as [(Hp & Hg & Hq)|(-> & Hq)].
    + left. split; [lia|]. split; [done|]. intros q Hq'. destruct (decide (q = i)) as [->|]; [done|apply Hq; lia].
    + right. split; [destruct n; [lia|done]|]. intros q Hq'. destruct (decide (q = i)) as [->|]; [done|apply Hq; lia].
  - destruct Hhead as [-> Hx]. rewrite (proj2 (Z.eqb_neq x 65536)) by lia. cbn [negb]. exists i. split; [done|]. left. split; [lia|]. split; [by rewrite E|]. intros q Hq. lia.
Qed.

(** ** Splitting *)

(** The right halves, from order [j] on. *)
Fixpoint halves (n : nat) (j i : Z) (P : parts) : parts :=
  match n with O => P | S n => halves n (j + 1) i (<[i + 2 ^ j := (j, BFree)]> P) end.

(** Between [i + 2^j] and [i + 2^o] the chunk is not covered, the block at [i] is used. *)
Record split_ok (P : parts) (i j o req : Z) : Prop := SplitOk {
  so_part : part_ok P;
  so_used : P !! i = Some (req, BUsed);
  so_apart : ∀ k p t, P !! k = Some (p, t) → k + 2 ^ p <= i + 2 ^ j ∨ i + 2 ^ o <= k;
  so_cover : covered P (λ x, i + 2 ^ j <= x < i + 2 ^ o);
  so_coalesced : coalesced P;
  so_meta : has_meta P;
}.

Lemma half_blk i j o : blk i o → 0 <= j < o → blk (i + 2 ^ j) j ∧ bud (i + 2 ^ j) j = i.
Proof.
  intros (Ho & Hi & Hd & He) Hj. pose proof (pow_pos j ltac:(lia)) as Hpos. pose proof (pow_le (j + 1) o ltac:(lia)) as Hle. rewrite pow_double in Hle by lia.
  assert (2 ^ (j + 1) | i) as [q Hq] by (etrans; [apply (pow_divide (j + 1) o); lia|done]). rewrite pow_double in Hq by lia. split.
  - split; [lia|]. split; [lia|]. split; [exists (2 * q + 1); lia|lia].
  - unfold bud. replace ((i + 2 ^ j) / 2 ^ j) with (2 * q + 1) by (apply Z.div_unique_exact; lia).
    rewrite Z.add_1_r, Z.odd_succ, Z.even_mul. simpl. lia.
Qed.

Lemma split_step P i j o req : blk i o → 0 <= j < o → split_ok P i j o req → P !! (i + 2 ^ j) = None ∧ split_ok (<[i + 2 ^ j := (j, BFree)]> P) i (j + 1) o req.
Proof.
  intros Hb Hj [Hp Hu Hap Hc Hco [om Hm]]. destruct (half_blk i j o Hb Hj) as [Hhb Hbud]. pose proof (pow_pos j ltac:(lia)) as Hpos.
  pose proof (pow_le (j + 1) o ltac:(lia)) as Hle. rewrite pow_double in Hle by lia.
  assert (P !! (i + 2 ^ j) = None) as Hn.
  { destruct (P !! (i + 2 ^ j)) as [[p t]|] eqn:E; [exfalso|done]. pose proof (pa_blk _ Hp _ _ _ E) as (Hpo & _). pose proof (pow_pos p ltac:(lia)).
    destruct (Hap _ _ _ E); lia. }
  split; [done|]. split; [split| | | | |].
  - intros k p t [[<- [= <- <-]]|[_ Hk]]%lookup_insert_Some; [done|by eapply pa_blk].
  - assert (∀ k p t, P !! k = Some (p, t) → apart (i + 2 ^ j) j k p) as Hnew by (intros k p t Hk; destruct (Hap _ _ _ Hk); [right|left]; lia).
    intros k p t k' p' t' [[<- [= <- <-]]|[Hne Hk]]%lookup_insert_Some [[<- [= <- <-]]|[Hne' Hk']]%lookup_insert_Some Hkk; [done|by eapply Hnew| |by eapply pa_apart].
    destruct (Hnew _ _ _ Hk); [by right|by left].
  - rewrite lookup_insert_ne; [done|lia].
  - rewrite pow_double by lia. intros k p t [[<- [= <- <-]]|[_ Hk]]%lookup_insert_Some; [left; lia|]. destruct (Hap _ _ _ Hk); lia.
  - intros x Hx. rewrite pow_double by lia. destruct (Hc x Hx) as [Hin|(k & p & t & Hk & Hxk)].
    + destruct (Z.lt_ge_cases x (i + 2 ^ j + 2 ^ j)); [right|left; lia]. exists (i + 2 ^ j), j, BFree. split; [apply lookup_insert_eq|lia].
    + right. exists k, p, t. split; [|done]. rewrite lookup_insert_ne; [done|congruence].
  - intros k p [[<- [= <-]]|[Hne Hk]]%lookup_insert_Some.
    + rewrite Hbud, lookup_insert_ne by lia. congruence.
    + intros Hk'. apply lookup_insert_Some in Hk' as [[E [= <-]]|[_ Hk']]; [|by apply (Hco k p)].
      pose proof (pa_blk _ Hp _ _ _ Hk) as (Hp' & Hk0 & Hkd & _). assert (k = i) as ->; [|congruence].
      by rewrite <-(bud_bud k j), <-E, Hbud by (done || lia).
  - exists om. rewrite lookup_insert_ne; [done|]. intros E. rewrite E in Hn. congruence.
Qed.

Lemma split_loop_spec n c P g i j o req : chunk_rep c P g → blk i o → 0 <= j → j + Z.of_nat n = o → split_ok P i j o req →
  wp (split_loop n j i) (λ ok c', ok = true ∧ same_links c c' ∧ (∃ g', chunk_rep c' (halves n j i P) g') ∧ split_ok (halves n j i P) i o o req) c.
Proof.
  revert c P g j. induction n as [|n IH]; intros c P g j HR Hb Hj Hn Hs.
  { apply wp_ret. replace j with o in Hs by lia. split; [done|]. split; [done|]. split; [by exists g|done]. }
  pose proof Hb as (Ho & Hi & _ & Hend). destruct (half_blk i j o Hb ltac:(lia)) as [Hhb Hbud]. destruct (split_step P i j o req Hb ltac:(lia) Hs) as [Hnone Hs'].
  pose proof (blk_range _ _ Hhb) as Hr. cbn [split_loop halves]. rewrite Z.shiftl_1_l. rewrite u32_idx by lia. set (x := i + 2 ^ j) in *. cbv zeta.
  wbind. eapply wp_eq; [apply idx_to_header_run; [done|by eapply rep_bit_none]|]. wbind. eapply wp_eq; [by apply idx_set_allocated_run|].
  rewrite Z.eqb_refl. cbn [negb]. wbind. eapply wp_eq; [apply idx_set_order_run; [done|lia]|]. rewrite Z.eqb_refl. cbn [negb].
  set (c1 := set_alloc x false c). pose proof (rep_clear c P g x HR Hnone) as HR1. fold c1 in HR1.
  destruct (cr_chain _ _ _ HR1 j) as (f & Hf & Hseg); [lia|]. destruct (head_spec c1 P g HR1 j f ltac:(lia) Hf) as [_ Hhead].
  assert (0 <= f <= 65536) as Hfr by (destruct (g j); lia). rewrite items_eq.
  wbind. eapply wp_eq; [apply rd_list_run; [done|exact Hf]|]. rewrite u32_idx by lia. wbind. apply wp_wr_header. wbind. apply wp_wr_header. wbind. set (c3 := with_headers _ (with_headers _ _)).
  assert (∀ y, header_at (bc_headers c3) y = if decide (x = y) then BuddyHeader 65536 f else header_at (bc_headers c) y) as H3.
  { intros y. unfold c3. cbn [bc_headers with_headers]. rewrite !header_insert. destruct (decide (x = y)); [|done]. rewrite decide_True by done. unfold set_prev, set_next. simpl. by rewrite !u32_idx by lia. }
  assert (length (bc_freelists c) = 16%nat) as Hlen by apply HR.
  assert (∀ c4, chunk_rep c4 (<[x := (j, BFree)]> P) (upd g j (x :: g j)) → same_links c c4 →
    wp (split_loop n (j + 1) i) (λ ok c', ok = true ∧ same_links c c' ∧ (∃ g', chunk_rep c' (halves n (j + 1) i (<[x := (j, BFree)]> P)) g') ∧ split_ok (halves n (j + 1) i (<[x := (j, BFree)]> P)) i o o req) c4) as Hgo.
  { intros c4 H4 Hl4. eapply wp_mono; [apply (IH c4 _ _ (j + 1) H4); [done|lia|lia|done]|]. intros ok c' (? & ? & ?). split; [done|]. split; [by eapply same_links_trans|done]. }
  destruct (Z.eqb_spec f 65536) as [E|E]; cbn [negb].
  - apply wp_ret. wbind. eapply wp_eq; [by apply wr_list_run; [lia|]|]. apply Hgo; [|done]. eapply (rep_push c1); try done.
    intros f' Hf'. assert (f' = f) as -> by congruence. cbn [bc_headers with_freelists]. rewrite !H3, decide_True by done. split; [done|]. intros y Hy. rewrite H3, !decide_False by (congruence || intros [_ ?]; congruence). done.
  - assert (f ∈ g j ∧ 0 <= f < 65536) as [Hin Hf0] by (destruct (g j); [done|destruct Hhead as [-> ?]; split; [left|done]]).
    wbind. eapply wp_eq; [apply idx_to_header_run; [done|exact (free_bit c1 P g HR1 j f ltac:(lia) Hin)]|]. apply wp_wr_header.
    wbind. eapply wp_eq; [by apply wr_list_run; [lia|]|]. apply Hgo; [|done].
    assert (x ≠ f) as Hif by (intros ->; apply (cr_mem _ _ _ HR1) in Hin; [congruence|lia]).
    eapply (rep_push c1); try done. intros f' Hf'. assert (f' = f) as -> by congruence. cbn [bc_headers with_freelists with_headers]. fold c3. split.
    + rewrite header_insert, decide_False by done. rewrite H3, decide_True by done. done.
    + intros y Hy. rewrite header_insert, H3. unfold set_prev. rewrite !H3, (decide_False (P := x = f)) by done. rewrite u32_idx by lia.
      destruct (decide (f = y)) as [->|Hfy]; [by rewrite decide_True by done|]. by rewrite !decide_False by (congruence || intros [? _]; congruence).
Qed.

(** ** Taking a block *)
Lemma split_start P i o req : chunk_parts P → P !! i = Some (o, BFree) → 0 <= req <= o → blk i req ∧ split_ok (<[i := (req, BUsed)]> P) i req o req.
Proof.
  intros [Hp Hc Hco [om Hm]] Hi Hreq. pose proof (pa_blk _ Hp _ _ _ Hi) as (Ho & Hi0 & Hd & Hend). pose proof (pow_pos req ltac:(lia)) as Hpos. pose proof (pow_le req o ltac:(lia)) as Hle.
  assert (blk i req) as Hb by (split; [lia|]; split; [lia|]; split; [etrans; [apply (pow_divide req o); lia|done]|lia]).
  split; [done|]. split; [split| | | | |].
  - intros k p t [[<- [= <- <-]]|[_ Hk]]%lookup_insert_Some; [done|by eapply pa_blk].
  - assert (∀ k p t, k ≠ i → P !! k = Some (p, t) → apart i req k p) as Hnew.
    { intros k p t Hne Hk. destruct (pa_apart _ Hp _ _ _ _ _ _ Hi Hk ltac:(done)); [left; lia|right; lia]. }
    intros k p t k' p' t' [[<- [= <- <-]]|[Hne Hk]]%lookup_insert_Some [[<- [= <- <-]]|[Hne' Hk']]%lookup_insert_Some Hkk; [done|by eapply Hnew| |by eapply pa_apart].
    destruct (Hnew _ _ _ Hkk Hk); [by right|by left].
  - apply lookup_insert_eq.
  - intros k p t [[<- [= <- <-]]|[Hne Hk]]%lookup_insert_Some; [left; lia|]. destruct (pa_apart _ Hp _ _ _ _ _ _ Hi Hk ltac:(done)); lia.
  - intros x Hx. destruct (Hc x Hx) as [[]|(k & p & t & Hk & Hxk)]. destruct (decide (k = i)) as [->|Hne].
    + assert (p = o) as -> by congruence. destruct (Z.lt_ge_cases x (i + 2 ^ req)); [right|left; lia]. exists i, req, BUsed. split; [apply lookup_insert_eq|lia].
    + right. exists k, p, t. by rewrite lookup_insert_ne.
  - intros k p [[_ [=]]|[Hne Hk]]%lookup_insert_Some Hk'. apply lookup_insert_Some in Hk' as [[_ [=]]|[_ Hk']]. by apply (Hco k p).
  - exists om. rewrite lookup_insert_ne; [done|congruence].
Qed.

Lemma split_done P i o req : split_ok P i o o req → chunk_parts P.
Proof. intros [Hp _ _ Hc Hco Hm]. split; [done| |done|done]. intros x Hx. destruct (Hc x Hx) as [?|?]; [lia|by right]. Qed.

(** The partition after [req] was allocated in the free block at [i] of order [o]. *)
Definition allocated_in (P : parts) (i o req : Z) : parts := halves (Z.to_nat (o - req)) req i (<[i := (req, BUsed)]> P).

Lemma chunk_alloc_spec null chunk req c P : chunk_ok c P → 0 <= req < 16 → (∃ o i, req <= o ∧ P !! i = Some (o, BFree)) →
  wp (buddy_chunk_alloc null chunk req) (λ r c', ∃ i o, P !! i = Some (o, BFree) ∧ req <= o ∧ (∀ p k, req <= p < o → P !! k ≠ Some (p, BFree)) ∧
    r = idx_to_addr chunk i ∧ chunk_ok c' (allocated_in P i o req) ∧ same_links c c') c.
Proof.
  intros [HP [g HR]] Hreq (ow & iw & How & Hiw). unfold buddy_chunk_alloc. change BUDDY_CHUNK_NUM_ORDERS with 16.
  destruct (find_order_spec c P g (Z.to_nat (16 - req)) req 0 HR) as (o & Eo & HQ); [lia|lia|]. wbind. eapply wp_eq; [exact Eo|].
  destruct HQ as [(Ho & Hg & Hless)|(_ & Hnone)].
  2: { exfalso. pose proof (cr_blk _ _ _ HR _ _ _ Hiw) as (Hb & _). apply (cr_mem _ _ _ HR) in Hiw; [|done]. rewrite Hnone in Hiw by lia. by apply not_elem_of_nil in Hiw. }
  rewrite (proj2 (Z.leb_gt _ _)) by lia. destruct (g o) as [|i l2] eqn:Eg; [done|]. clear Hg.
  destruct (cr_chain _ _ _ HR o) as (f & Hf & _); [lia|]. destruct (head_spec c P g HR o f ltac:(lia) Hf) as [_ Hhead]. rewrite Eg in Hhead. destruct Hhead as [-> Hi].
  assert (P !! i = Some (o, BFree)) as HPi by (apply (cr_mem _ _ _ HR); [lia|]; rewrite Eg; by left).
  destruct (node_facts c P g o i HR HPi) as (l1 & l2' & f & Eg' & Hf' & _ & _ & _ & Hfi & _ & _ & _ & _ & Hnr). assert (f = i) as -> by congruence.
  assert (l1 = []) as -> by (by apply Hfi). rewrite Eg in Eg'. injection Eg' as <-. clear Hfi Hf'.
  set (n := bh_next (header_at (bc_headers c) i)) in *. assert (0 <= n <= 65536) as Hn by (destruct (decide (n = 65536)); [lia|destruct (Hnr ltac:(done)); lia]).
  assert (length (bc_freelists c) = 16%nat) as Hlen by apply HR.
  wbind. eapply wp_eq; [apply rd_list_run; [lia|exact Hf]|]. rewrite u32_idx by lia. wbind.
  eapply wp_eq; [apply idx_to_header_run; [done|apply (free_bit c P g HR o); [lia|rewrite Eg; by left]]|]. wbind. wbind. apply wp_rd_header. apply wp_ret. fold n.
  wbind. eapply wp_eq; [apply wr_list_run; [lia|done]|]. rewrite items_eq. wbind.
  set (Ha := if decide (n = 65536) then bc_headers c else <[n := set_prev 65536 (header_at (bc_headers c) n)]> (bc_headers c)).
  apply (wp_mono _ (λ _ c1, c1 = with_headers (λ _, Ha) (with_freelists <[Z.to_nat o := n]> c))).
  { unfold Ha. destruct (Z.eqb_spec n 65536) as [E|E]; cbn [negb]; [apply wp_ret; by rewrite decide_True by done|]. destruct (Hnr E) as (Hn0 & Hnb & _).
    wbind. eapply wp_eq; [by apply idx_to_header_run|]. apply wp_wr_header. by rewrite decide_False by done. }
  intros _ ? ->. wbind. apply wp_wr_header. wbind. apply wp_wr_header. set (c2 := with_headers _ (with_headers _ _)).
  assert (chunk_rep c2 (delete i P) (upd g o l2)) as HR2.
  { eapply (rep_remove c c2 P g o i [] l2 i); try done; [lia|]. intros x Hx Hx65. unfold c2. cbn [bc_headers with_headers with_freelists lastd default last].
    unfold lastd. simpl. rewrite (decide_False (P := x = 65536)) by done. rewrite !header_insert, !(decide_False (P := i = x)) by done. unfold Ha. fold n.
    destruct (decide (n = 65536)) as [E|E]; [by rewrite decide_False by congruence|]. rewrite header_insert. destruct (decide (n = x)) as [->|Hnx]; [|by rewrite decide_False by congruence].
    rewrite decide_True by done. unfold set_prev. by rewrite u32_idx by lia. }
  destruct (split_start P i o req HP HPi ltac:(lia)) as [Hb Hs]. assert (delete i P !! i = None) as Hdn by apply lookup_delete_eq.
  wbind. eapply wp_eq; [apply idx_set_order_run; [done|lia]|]. rewrite Z.eqb_refl. cbn [negb]. wbind. eapply wp_eq; [by apply idx_set_allocated_run|]. rewrite Z.eqb_refl. cbn [negb].
  pose proof (rep_take c2 _ _ i req HR2 Hb Hdn) as HR3. rewrite insert_delete_eq in HR3. cbv zeta. wbind.
  eapply wp_mono; [apply (split_loop_spec _ _ _ _ i req o req HR3); [by apply (pa_blk _ (cp_part _ HP) _ _ BFree)|lia|lia|done]|].
  intros ok c4 (-> & Hl & Hg4 & Hs4). apply wp_ret. exists i, o. split; [done|]. split; [lia|]. split; [|split; [done|]; split; [split; [by eapply split_done|done]|exact Hl]].
  intros p k Hp Hk. apply (cr_mem _ _ _ HR) in Hk; [|lia]. rewrite Hless in Hk by lia. by apply not_elem_of_nil in Hk.
Qed.

(** ** A chunk without a block that is large enough

    The loop variable is left at the last order, and the code follows the null header of an empty list: the list's head becomes the word
    [n] that is read there, and if this happens to be the index of a free block, its header loses its predecessor. *)
Definition damaged (n : Z) (c : buddy_chunk) : buddy_chunk :=
  let c' := with_freelists <[15%nat := n]> c in
  if (65536 <=? n) || alloc_bit c n then c' else with_headers (λ H, <[n := set_prev 65536 (header_at H n)]> H) c'.

Lemma idx_to_header_used i c : 0 <= i < 65536 → alloc_bit c i = true → idx_to_header i c = Some (None, c).
Proof. intros Hi Hb. unfold idx_to_header. erewrite ST_bind_run; [|by apply idx_is_allocated_run]. by rewrite Hb. Qed.
Lemma lists_empty c P g req : chunk_rep c P g → 0 <= req → (∀ o i, req <= o → P !! i ≠ Some (o, BFree)) →
  ∀ q, req <= q < 16 → g q = [] ∧ bc_freelists c !! Z.to_nat q = Some 65536.
Proof.
  intros HR Hreq Hno q Hq. assert (g q = []) as Eg.
  { destruct (g q) as [|i l] eqn:E; [done|]. destruct (Hno q i); [lia|]. apply (cr_mem _ _ _ HR); [lia|]. rewrite E. by left. }
  split; [done|]. destruct (cr_chain _ _ _ HR q) as (f & Hf & _); [lia|]. destruct (head_spec c P g HR q f ltac:(lia) Hf) as [_ Hhead]. rewrite Eg in Hhead. congruence.
Qed.

Lemma chunk_alloc_exhausted null chunk req c P : chunk_ok c P → 0 <= req < 16 → (∀ o i, req <= o → P !! i ≠ Some (o, BFree)) →
  buddy_chunk_alloc null chunk req c = Some (NULL, damaged (u32 null) c).
Proof.
  intros [HP [g HR]] Hreq Hno. unfold buddy_chunk_alloc. change BUDDY_CHUNK_NUM_ORDERS with 16.
  destruct (find_order_spec c P g (Z.to_nat (16 - req)) req 0 HR) as (o & Eo & HQ); [lia|lia|].
  pose proof (lists_empty c P g req HR ltac:(lia) Hno) as Hempty. assert (length (bc_freelists c) = 16%nat) as Hlen by apply HR.
  destruct HQ as [(Ho & Hg & _)|(-> & _)]; [by destruct Hg; apply Hempty|].
  rewrite (ST_bind_run _ _ _ _ _ Eo). destruct (Z.to_nat (16 - req)) as [|k] eqn:En; [lia|]. rewrite (proj2 (Z.leb_gt _ _)) by lia.
  rewrite (ST_bind_run _ _ _ _ _ (rd_list_run c 15 65536 ltac:(lia) (proj2 (Hempty 15 ltac:(lia))))). rewrite (u32_idx 65536) by lia.
  rewrite (ST_bind_run _ _ _ _ _ (idx_to_header_null 65536 c ltac:(lia))). rewrite ST_ret_bind. rewrite (ST_bind_run _ _ _ _ _ (wr_list_run c 15 (u32 null) ltac:(lia) Hlen)).
  set (n := u32 null). assert (0 <= n) as Hn by (unfold n, u32; apply Z.mod_pos_bound; done). change (Z.to_nat 15) with 15%nat. set (c1 := with_freelists <[15%nat := n]> c).
  assert ((if negb (n =? BUDDY_CHUNK_ITEMS) then next_header ← idx_to_header n; wr_header next_header (set_prev BUDDY_CHUNK_ITEMS) else mret tt) c1 = Some (tt, damaged n c)) as Erun.
  { rewrite items_eq. unfold damaged. fold c1. destruct (Z.eqb_spec n 65536) as [E|E]; cbn [negb]; [by rewrite E|]. destruct (Z.leb_spec 65536 n); cbn [orb].
    - by rewrite (ST_bind_run _ _ _ _ _ (idx_to_header_null n c1 ltac:(lia))).
    - change (alloc_bit c n) with (alloc_bit c1 n). destruct (alloc_bit c1 n) eqn:Eb.
      + by rewrite (ST_bind_run _ _ _ _ _ (idx_to_header_used n c1 ltac:(lia) Eb)).
      + by rewrite (ST_bind_run _ _ _ _ _ (idx_to_header_run n c1 ltac:(lia) Eb)). }
  rewrite (ST_bind_run _ _ _ _ _ Erun). cbn [wr_header]. rewrite !ST_ret_bind. unfold idx_set_order. change BUDDY_CHUNK_NUM_ORDERS with 16.
  rewrite (proj2 (Z.leb_gt 16 req)) by lia. rewrite items_eq. done.
Qed.

(** With the index 0 as head of the list of the last order, the code takes the block at the start of the chunk, which holds the metadata. *)
Lemma find_order_lists n i o c p : 0 <= i → (∀ q, i <= q < p → bc_freelists c !! Z.to_nat q = Some 65536) → (∃ f, bc_freelists c !! Z.to_nat p = Some f ∧ f ≠ 65536) →
  i <= p < i + Z.of_nat n → find_order n i o c = Some (p, c).
Proof.
  revert i o. induction n as [|n IH]; intros i o Hi Hq (f & Hf & Hne) Hp; [lia|]. cbn [find_order]. rewrite items_eq. destruct (decide (i = p)) as [->|Hip].
  - rewrite (ST_bind_run _ _ _ _ _ (rd_list_run c p f Hi Hf)). by rewrite (proj2 (Z.eqb_neq f _)).
  - rewrite (ST_bind_run _ _ _ _ _ (rd_list_run c i 65536 Hi (Hq i ltac:(lia)))). rewrite Z.eqb_refl. cbn [negb]. apply IH; [lia| |by exists f|lia]. intros q Hq'. apply Hq. lia.
Qed.
Lemma idx_to_header_total i c : 0 <= i → ∃ h, idx_to_header i c = Some (h, c).
Proof.
  intros Hi. destruct (Z.le_gt_cases 65536 i); [eexists; by apply idx_to_header_null|].
  destruct (alloc_bit c i) eqn:Eb; eexists; [by apply idx_to_header_used|by apply idx_to_header_run].
Qed.
Lemma wr_header_lists h f c : ∃ c', wr_header h f c = Some (tt, c') ∧ bc_freelists c' = bc_freelists c.
Proof. destruct h as [i|]; eexists; (split; [reflexivity|done]). Qed.
Lemma split_loop_total n i c : 0 <= i → i + Z.of_nat n <= 15 → length (bc_freelists c) = 16%nat → wp (split_loop n i 0) (λ ok _, ok = true) c.
Proof.
  revert i c. induction n as [|n IH]; intros i c Hi Hn Hlen; [by apply wp_ret|]. cbn [split_loop]. rewrite Z.shiftl_1_l. pose proof (pow_pos i Hi). pose proof (pow_le i 14 ltac:(lia)) as Hle.
  change (2 ^ 14) with 16384 in Hle. rewrite u32_idx by lia. cbv zeta. destruct (idx_to_header_total (0 + 2 ^ i) c) as [h Eh]; [lia|]. wbind. eapply wp_eq; [exact Eh|].
  wbind. eapply wp_eq; [apply idx_set_allocated_run; lia|]. rewrite Z.eqb_refl. cbn [negb]. wbind. eapply wp_eq; [apply idx_set_order_run; lia|]. rewrite Z.eqb_refl. cbn [negb].
  set (c1 := set_ord _ _ _). destruct (lookup_lt_is_Some_2 (bc_freelists c1) (Z.to_nat i)) as [f Hf]; [change (bc_freelists c1) with (bc_freelists c); lia|].
  wbind. eapply wp_eq; [by apply rd_list_run|]. destruct (wr_header_lists h (set_prev BUDDY_CHUNK_ITEMS) c1) as (c2 & E2 & L2). wbind. eapply wp_eq; [exact E2|].
  destruct (wr_header_lists h (set_next f) c2) as (c3 & E3 & L3). wbind. eapply wp_eq; [exact E3|]. wbind.
  apply (wp_mono _ (λ _ c4, bc_freelists c4 = bc_freelists c)).
  - case_match; [|apply wp_ret; by rewrite L3, L2]. destruct (idx_to_header_total (u32 f) c3) as [h' Eh']; [by apply Z.mod_pos_bound|]. wbind. eapply wp_eq; [exact Eh'|].
    destruct (wr_header_lists h' (set_prev (0 + 2 ^ i)) c3) as (c4 & E4 & L4). eapply wp_eq; [exact E4|]. by rewrite L4, L3, L2.
  - intros _ c4 L4. wbind. eapply wp_eq; [apply wr_list_run; [lia|by rewrite L4]|]. apply IH; [lia|lia|]. cbn [bc_freelists with_freelists]. by rewrite length_insert, L4.
Qed.
Lemma chunk_alloc_damaged null chunk req c P : chunk_ok c P → 0 <= req < 16 → (∀ o i, req <= o → P !! i ≠ Some (o, BFree)) →
  wp (buddy_chunk_alloc null chunk req) (λ a _, a = idx_to_addr chunk 0) (damaged 0 c).
Proof.
  intros [HP [g HR]] Hreq Hno. pose proof (lists_empty c P g req HR ltac:(lia) Hno) as Hempty. assert (length (bc_freelists c) = 16%nat) as Hlen by apply HR.
  assert (alloc_bit c 0 = true) as Hbit. { rewrite (cr_bits _ _ _ HR) by lia. destruct (cp_meta _ HP) as [om ->]. done. }
  assert (damaged 0 c = with_freelists <[15%nat := 0]> c) as -> by (unfold damaged; by rewrite Hbit, orb_true_r). set (c1 := with_freelists <[15%nat := 0]> c).
  assert (bc_freelists c1 !! Z.to_nat 15 = Some 0) as H15 by (apply list_lookup_insert_eq; lia).
  unfold buddy_chunk_alloc. change BUDDY_CHUNK_NUM_ORDERS with 16. wbind. eapply wp_eq; [apply (find_order_lists _ req 0 c1 15); [lia| |by exists 0|lia]|].
  { intros q Hq. cbn [c1 bc_freelists with_freelists]. unfold c1. cbn [bc_freelists with_freelists]. rewrite list_lookup_insert_ne by lia. apply Hempty. lia. }
  rewrite (proj2 (Z.leb_gt _ _)) by lia. wbind. eapply wp_eq; [by apply rd_list_run|]. change (u32 0) with 0. cbv zeta.
  assert (idx_to_header 0 c1 = Some (None, c1)) as Eh.
  { apply idx_to_header_used; [lia|exact Hbit]. }
  wbind. eapply wp_eq; [exact Eh|]. wbind. apply wp_ret. wbind. eapply wp_eq; [apply wr_list_run; [lia|]; unfold c1; cbn [bc_freelists with_freelists]; by rewrite length_insert|].
  set (c2 := with_freelists _ c1). assert (length (bc_freelists c2) = 16%nat) as Hlen2 by (unfold c2, c1; cbn [bc_freelists with_freelists]; by rewrite !length_insert).
  wbind. apply (wp_mono _ (λ _ c3, length (bc_freelists c3) = 16%nat)).
  { case_match; [|by apply wp_ret]. destruct (idx_to_header_total (u32 null) c2) as [h E]; [by apply Z.mod_pos_bound|]. wbind. eapply wp_eq; [exact E|].
    destruct (wr_header_lists h (set_prev BUDDY_CHUNK_ITEMS) c2) as (c3 & E3 & L3). eapply wp_eq; [exact E3|]. congruence. }
  intros _ c3 Hlen3. wbind. apply wp_ret. wbind. apply wp_ret. wbind. eapply wp_eq; [apply idx_set_order_run; lia|]. rewrite Z.eqb_refl. cbn [negb].
  wbind. eapply wp_eq; [apply idx_set_allocated_run; lia|]. rewrite Z.eqb_refl. cbn [negb]. cbv zeta. wbind.
  eapply wp_mono; [apply split_loop_total; [lia|lia|done]|]. intros ok c4 ->. by apply wp_ret.
Qed.

(** * Freeing in a buddy chunk

    The block that is freed leaves a hole in the partition, the coalescing loop
    grows it over its free buddies, and the last step puts it on a free list. *)

(** The tag of a block whose bit and order were read. *)
Lemma free_by_bit c P g i p t : chunk_rep c P g → P !! i = Some (p, t) → alloc_bit c i = false → t = BFree ∧ order_at c i = p.
Proof.
  intros HR Hi Hb. pose proof (blk_range _ _ (cr_blk _ _ _ HR _ _ _ Hi)) as Hr. rewrite (cr_bits _ _ _ HR) in Hb by done. rewrite Hi in Hb.
  destruct t; [done|done|]. split; [done|]. by apply (cr_order _ _ _ HR _ _ BFree).
Qed.

(** The two blocks, the left one first. *)
Lemma left_first h b : (if b <? h then (b, h) else (h, b)) = (Z.min h b, Z.max h b).
Proof. destruct (Z.ltb_spec b h); f_equal; lia. Qed.

(** What the loop does to the partition: blocks that are not free stay, no free block appears. *)
Definition shrunk (P P' : parts) : Prop :=
  (∀ j o t, t ≠ BFree → P' !! j = Some (o, t) ↔ P !! j = Some (o, t)) ∧ (∀ j o, P' !! j = Some (o, BFree) → P !! j = Some (o, BFree)).
Lemma shrunk_refl P : shrunk P P.
Proof. done. Qed.
Lemma shrunk_trans P1 P2 P3 : shrunk P1 P2 → shrunk P2 P3 → shrunk P1 P3.
Proof. intros [H1 H2] [H3 H4]. split; [intros j o t Ht; by rewrite H3, H1|eauto]. Qed.
Lemma shrunk_delete P i o : P !! i = Some (o, BFree) → shrunk P (delete i P).
Proof.
  intros Hi. split.
  - intros j p t Ht. rewrite lookup_delete_Some. split; [by intros [_ ?]|]. intros Hj. split; [|done]. intros ->. congruence.
  - by intros j p [_ ?]%lookup_delete_Some.
Qed.

(** One round: the free buddy leaves its list and joins the hole. *)
Lemma coalesce_merge c P g h i X (m : Z → ST buddy_chunk X) Q : chunk_rep c P g → hole_ok P h i → P !! bud h i = Some (i, BFree) →
  (∀ c' P' g', chunk_rep c' P' g' → same_links c c' → shrunk P P' → hole_ok P' (Z.min h (bud h i)) (i + 1) → i < 15 → wp (m (Z.min h (bud h i))) Q c') →
  wp (header_remove_freelist (Some (bud h i)) i;;
      let '(idx, buddy_idx) := if bud h i <? h then (bud h i, h) else (h, bud h i) in
      idx_set_order buddy_idx i;; m idx) Q c.
Proof.
  intros HR Hh Hbud Hgo. destruct (hole_grow P h i Hh Hbud) as [Hi Hgrow]. pose proof (ho_blk _ _ _ Hh) as Hb. destruct (bud_in h i Hb) as [Hbb _].
  pose proof (blk_range _ _ Hb). pose proof (blk_range _ _ Hbb). wuse (header_remove_spec c P g i _ HR Hbud). intros [] c1 (g1 & HR1 & Hl1).
  rewrite left_first. wbind. destruct Hb as (Ho & _). eapply wp_eq; [apply idx_set_order_run; [lia|done]|].
  eapply Hgo; [apply rep_set_ord; [exact HR1|lia|done|]|by eapply same_links_trans|by eapply shrunk_delete|done|done].
  apply lookup_delete_None. destruct (Z.max_spec h (bud h i)) as [[_ ->]|[_ ->]]; [by left|right; by eapply hole_start_none].
Qed.

Lemma coalesce_loop_spec n c P g i ord h : chunk_rep c P g → hole_ok P h i → i + Z.of_nat n = 16 →
  wp (coalesce_loop n i ord h) (λ r c', let '(o', h') := r in ∃ P' g', chunk_rep c' P' g' ∧ same_links c c' ∧ shrunk P P' ∧
    hole_ok P' h' o' ∧ P' !! bud h' o' ≠ Some (o', BFree) ∧ ∀ x, in_blk h i x → in_blk h' o' x) c.
Proof.
  revert c P g i ord h. induction n as [|n IH]; intros c P g i ord h HR Hh Hn; pose proof (ho_blk _ _ _ Hh) as Hb; [destruct Hb; lia|].
  pose proof Hb as (Ho & Hh0 & Hd & _). destruct (bud_in h i Hb) as [Hbb _]. pose proof (blk_range _ _ Hbb) as Hr.
  destruct (buddy_block P h i Hh) as (p & t & Hp & Hle). cbn [coalesce_loop]. cbv zeta. rewrite lxor_bud by (done || lia).
  assert (P !! bud h i ≠ Some (i, BFree) → ∃ P' g', chunk_rep c P' g' ∧ same_links c c ∧ shrunk P P' ∧
    hole_ok P' h i ∧ P' !! bud h i ≠ Some (i, BFree) ∧ ∀ x, in_blk h i x → in_blk h i x) as Hstop by (intros; exists P, g; done).
  wbind. eapply wp_eq; [by apply idx_is_allocated_run|]. cbv beta iota. destruct (alloc_bit c (bud h i)) eqn:Ea.
  { apply wp_ret, Hstop. rewrite (cr_bits _ _ _ HR), Hp in Ea by done. rewrite Hp. by intros [= -> ->]. }
  destruct (free_by_bit c P g _ p t HR Hp Ea) as [-> Eo]. wbind. eapply wp_eq; [by apply idx_get_order_run|]. rewrite Eo.
  destruct (Z.eqb_spec p i) as [->|Hne]; cbn [negb]; [|apply wp_ret, Hstop; rewrite Hp; congruence].
  wbind. eapply wp_eq; [by apply idx_to_header_run|]. apply (coalesce_merge c P g h i _ _ _ HR Hh Hp). intros c' P' g' HR' Hl' Hs' Hh' Hi.
  eapply wp_mono; [apply (IH c' P' g' (i + 1) i _ HR' Hh'); lia|]. intros [o' h'] c2 (P2 & g2 & HR2 & Hl2 & Hs2 & Hh2 & Hstop2 & Hin).
  exists P2, g2. split; [done|]. split; [by eapply same_links_trans|]. split; [by eapply shrunk_trans|]. split; [done|]. split; [done|].
  intros x Hx. apply Hin. unfold in_blk in *. rewrite pow_double by lia. destruct (bud_spec h i ltac:(lia) Hd Hh0) as (_ & _ & _ & Hcase). lia.
Qed.

(** The partition after the used block at [i] of order [o] was freed: a free block over it, of the largest size. *)
Definition freed_in (P P' : parts) (i o : Z) : Prop :=
  ∃ h p, P' !! h = Some (p, BFree) ∧ h <= i ∧ i + 2 ^ o <= h + 2 ^ p ∧
    (∀ j q, P' !! j = Some (q, BFree) → j ≠ h → P !! j = Some (q, BFree)) ∧
    (∀ j q t, t ≠ BFree → P' !! j = Some (q, t) ↔ j ≠ i ∧ P !! j = Some (q, t)).

Lemma chunk_free_spec c P i o : chunk_ok c P → P !! i = Some (o, BUsed) →
  wp (chunk_free i) (λ r c', r = 0 ∧ same_links c c' ∧ ∃ P', chunk_ok c' P' ∧ freed_in P P' i o) c.
Proof.
  intros [HP [g HR]] Hi. pose proof (cr_blk _ _ _ HR _ _ _ Hi) as Hb. pose proof (blk_range _ _ Hb) as Hr. pose proof Hb as (Ho & _). pose proof (pow_pos o ltac:(lia)).
  pose proof (hole_start P i o BUsed (cp_part _ HP) (cp_cover _ HP) (cp_coalesced _ HP) (cp_meta _ HP) Hi ltac:(done)) as Hh.
  pose proof (rep_release c P g i o HR Hi) as HR1. unfold chunk_free. wbind. eapply wp_eq; [by apply idx_set_allocated_run|].
  wbind. eapply wp_eq; [by apply idx_get_order_run|]. change (order_at (set_alloc i false c) i) with (order_at c i). rewrite (cr_order _ _ _ HR _ _ _ Hi) by done.
  wbind. eapply wp_eq; [apply idx_to_header_run; [done|by eapply rep_bit_none; [|done|apply lookup_delete_eq]]|].
  change BUDDY_CHUNK_NUM_ORDERS with 16. wuse (coalesce_loop_spec (Z.to_nat (16 - o)) _ _ _ o o i HR1 Hh ltac:(lia)).
  intros [o' h'] c2 (P2 & g2 & HR2 & Hl2 & [Hs1 Hs2] & Hh2 & Hstop & Hin). pose proof (hole_start_none _ _ _ Hh2) as Hn2. pose proof (ho_blk _ _ _ Hh2) as Hb2.
  pose proof (blk_range _ _ Hb2) as Hr2. pose proof Hb2 as (Ho' & Hh0 & _). wbind. eapply wp_eq; [by apply idx_set_order_run|].
  pose proof (rep_set_ord _ _ _ h' o' HR2 Hh0 Ho' Hn2) as HR3. wbind. eapply wp_eq; [apply idx_to_header_run; [done|by eapply rep_bit_none]|].
  wuse (header_add_spec _ _ _ o' h' HR3 Hb2 Hn2). intros [] c4 [HR4 Hl4]. apply wp_ret. split; [done|]. split; [by do 2 (eapply same_links_trans; [done|])|].
  destruct (fill_part P2 h' o' BFree Hh2 Hn2) as [Hp4 Hc4]. exists (<[h' := (o', BFree)]> P2). split; [split; [|by eexists]|].
  { split; [done|done|by apply fill_coalesced|]. destruct (ho_meta _ _ _ Hh2) as [om Hm]. exists om. rewrite lookup_insert_ne; [done|congruence]. }
  exists h', o'. split; [apply lookup_insert_eq|]. pose proof (Hin i ltac:(unfold in_blk; lia)) as Hi1. pose proof (Hin (i + 2 ^ o - 1) ltac:(unfold in_blk; lia)) as Hi2.
  unfold in_blk in *. split; [lia|]. split; [lia|]. split.
  - intros j q Hj Hne. rewrite lookup_insert_ne in Hj by done. by apply Hs2, lookup_delete_Some in Hj as [_ ?].
  - intros j q t Ht. rewrite lookup_insert_Some. rewrite Hs1, lookup_delete_Some by done. split; [intros [[_ [= _ <-]]|[_ [? ?]]]; [done|by split]|].
    intros [Hne Hj]. right. split; [|by split]. intros <-. assert (P2 !! h' = Some (q, t)) by (apply Hs1; [done|by apply lookup_delete_Some]). congruence.
Qed.
