(* ===== verification/BuddyState.v ===== *)
(** * New chunks and the allocator over its chunks

    The set-up of a chunk, the invariant of the whole allocator, and its operations. *)

From S2P Require Import Prelude Wp Buddy BuddyInv BuddyOps BuddyAlloc.

(** * A new chunk

    [check_chunk] decides whether a concrete chunk is in order for a list of blocks; it holds of the
    chunk that [buddy_chunk_get] prepares, whose metadata takes the first 41104 bytes. *)

Abbreviation entry := (Z * (Z * btag))%type.

(** ** Checks on a list of blocks *)
#[global] Instance header_eq_dec : EqDecision buddy_header.
Proof. solve_decision. Defined.

Definition blk_b (i o : Z) : bool := (0 <=? o) && (o <? 16) && (0 <=? i) && (i mod 2 ^ o =? 0) && (i + 2 ^ o <=? 65536).
(** The blocks in order, one after the other from [x] to the end. *)
Fixpoint tiles (x : Z) (l : list entry) : bool :=
  match l with [] => x =? 65536 | e :: l => (e.1 =? x) && tiles (x + 2 ^ e.2.1) l end.
Definition is_free (t : btag) : bool := match t with BFree => true | _ => false end.
Definition buddies_b (e f : entry) : bool := is_free e.2.2 && is_free f.2.2 && (e.2.1 =? f.2.1) && (f.1 =? bud e.1 e.2.1).
Definition starts_b (l : list entry) : bool := existsb (λ e : entry, (e.1 =? 0) && match e.2.2 with BMeta => true | _ => false end) l.

Definition check_parts (l : list entry) : bool :=
  bool_decide (NoDup l.*1) && forallb (λ e : entry, blk_b e.1 e.2.1) l && tiles 0 l && forallb (λ e, forallb (λ f, negb (buddies_b e f)) l) l && starts_b l.

(** The nodes of the list of order [o], when it has no more than one. *)
Definition free_of (l : list entry) (o : Z) : list Z :=
  omap (λ e : entry, if is_free e.2.2 && (e.2.1 =? o) then Some e.1 else None) l.
Definition list_b (c : buddy_chunk) (l : list entry) (o : Z) : bool :=
  match free_of l o, bc_freelists c !! Z.to_nat o with
  | [], Some f => f =? 65536
  | [i], Some f => (f =? i) && bool_decide (header_at (bc_headers c) i = BuddyHeader 65536 65536)
  | _, _ => false
  end.
Definition bytes_b (m : gmap Z Z) : bool := forallb (λ kv : Z * Z, (0 <=? kv.2) && (kv.2 <? 256)) (map_to_list m).
Definition bits_b (c : buddy_chunk) (l : list entry) : bool :=
  let P : parts := list_to_map l in
  forallb (λ kv : Z * Z, all_below 8 (λ j, eqb (alloc_bit c (8 * kv.1 + j)) (taken (P !! (8 * kv.1 + j))))) (map_to_list (bc_allocated c)) &&
  forallb (λ e : entry, is_free e.2.2 || alloc_bit c e.1) l.
Definition check_rep (c : buddy_chunk) (l : list entry) : bool :=
  bytes_b (bc_orders c) && bytes_b (bc_allocated c) && (length (bc_freelists c) =? 16)%nat &&
  bits_b c l &&
  forallb (λ e : entry, match e.2.2 with BMeta => true | _ => order_at c e.1 =? e.2.1 end) l && all_below 16 (list_b c l).
Definition check_chunk (c : buddy_chunk) (l : list entry) : bool := check_parts l && check_rep c l.

(** ** The checks are sound *)

Lemma blk_b_sound i o : blk_b i o = true → blk i o.
Proof.
  unfold blk_b. intros Hx. assert (0 < 2 ^ o ∨ o < 0) by (destruct (Z.lt_ge_cases o 0); [by right|left; by apply pow_pos]).
  split; [lia|]. split; [lia|]. split; [apply Z.mod_divide; lia|lia].
Qed.

(** Every block of a tiling is after its start, they are apart and cover the rest of the chunk. *)
Lemma tiles_after x l : tiles x l = true → (∀ e : entry, e ∈ l → blk e.1 e.2.1) → ∀ e, e ∈ l → x <= e.1.
Proof.
  revert x. induction l as [|f l IH]; intros x Ht Hb e He; [by apply not_elem_of_nil in He|]. simpl in Ht. apply andb_true_iff in Ht as [Hx%Z.eqb_eq Ht].
  apply elem_of_cons in He as [->|He]; [lia|]. destruct (Hb f ltac:(left)) as (Hf & _). pose proof (pow_pos f.2.1 ltac:(lia)).
  enough (x + 2 ^ f.2.1 <= e.1) by lia. eapply IH; [exact Ht| |exact He]. intros e' He'. apply Hb. by right.
Qed.
Lemma tiles_apart x l : tiles x l = true → (∀ e : entry, e ∈ l → blk e.1 e.2.1) → ∀ e f, e ∈ l → f ∈ l → e.1 ≠ f.1 → apart e.1 e.2.1 f.1 f.2.1.
Proof.
  revert x. induction l as [|b l IH]; intros x Ht Hb e f He Hf Hne; [by apply not_elem_of_nil in He|]. simpl in Ht. apply andb_true_iff in Ht as [Hx%Z.eqb_eq Ht].
  assert (∀ e : entry, e ∈ l → blk e.1 e.2.1) as Hb' by (intros ? ?; apply Hb; by right). unfold apart.
  apply elem_of_cons in He as [->|He], Hf as [->|Hf]; [done| | |by eapply IH]; pose proof (tiles_after _ _ Ht Hb' _ ltac:(done)); lia.
Qed.
Lemma tiles_cover x l y : tiles x l = true → x <= y < 65536 → ∃ e : entry, e ∈ l ∧ e.1 <= y < e.1 + 2 ^ e.2.1.
Proof.
  revert x. induction l as [|f l IH]; intros x Ht Hy; simpl in Ht; [lia|]. apply andb_true_iff in Ht as [Hx%Z.eqb_eq Ht].
  destruct (Z.lt_ge_cases y (x + 2 ^ f.2.1)); [exists f; split; [left|lia]|]. destruct (IH _ Ht) as (e & He & Hin); [lia|]. exists e. split; [by right|done].
Qed.

Section sound.
Context (l : list entry) (Hnd : NoDup l.*1).
Local Abbreviation P := (list_to_map l : parts).

Lemma in_parts i x : P !! i = Some x ↔ (i, x) ∈ l.
Proof. symmetry. by apply elem_of_list_to_map. Qed.
Lemma all_parts (f : entry → bool) i x : forallb f l = true → P !! i = Some x → f (i, x) = true.
Proof. rewrite forallb_forall, in_parts. intros Hf Hi. by apply Hf, list_elem_of_In. Qed.
Lemma some_parts (f : entry → bool) : existsb f l = true → ∃ i x, P !! i = Some x ∧ f (i, x) = true.
Proof. rewrite existsb_exists. intros ([i x] & Hi%list_elem_of_In & Hf). exists i, x. by rewrite in_parts. Qed.

Lemma free_of_spec o i : i ∈ free_of l o ↔ P !! i = Some (o, BFree).
Proof.
  rewrite in_parts. unfold free_of. rewrite list_elem_of_omap. split.
  - intros ([j [p t]] & Hj & He). simpl in He. destruct t; simpl in He; try done. destruct (Z.eqb_spec p o); [|done]. by simplify_eq.
  - intros Hi. exists (i, (o, BFree)). split; [done|]. simpl. by rewrite Z.eqb_refl.
Qed.
End sound.

Lemma check_parts_sound l : check_parts l = true → NoDup l.*1 ∧ chunk_parts (list_to_map l).
Proof.
  unfold check_parts. rewrite !andb_true_iff, bool_decide_eq_true. intros [[[[Hnd Hb] Ha] Hf] Hm]. split; [done|].
  assert (∀ e : entry, e ∈ l → blk e.1 e.2.1) as Hblk.
  { intros e He%list_elem_of_In. apply blk_b_sound. by apply (proj1 (forallb_forall _ _) Hb). }
  split.
  - split; [intros i o t Hi%in_parts; [by apply (Hblk _ Hi)|done]|]. intros i o t j p u Hi%in_parts Hj%in_parts Hne; [|done..].
    by apply (tiles_apart 0 l Ha Hblk _ _ Hi Hj).
  - intros x Hx. right. destruct (tiles_cover 0 l x Ha Hx) as ([i [o t]] & He%in_parts & Hin); [|done]. by exists i, o, t.
  - intros i o Hi Hj. pose proof (all_parts l Hnd _ _ _ (all_parts l Hnd _ _ _ Hf Hi) Hj) as Hx. unfold buddies_b in Hx. simpl in Hx. by rewrite !Z.eqb_refl in Hx.
  - unfold starts_b in Hm. destruct (some_parts l Hnd _ Hm) as (i & [o t] & Hi & Hx). simpl in Hx. exists o. assert (i = 0) as -> by lia. destruct t; [done|lia|lia].
Qed.

(** Away from the bytes that were written no block is taken. *)
Lemma bits_sound c l i : NoDup l.*1 → bits_b c l = true → alloc_bit c i = taken ((list_to_map l : parts) !! i).
Proof.
  unfold bits_b. rewrite andb_true_iff. intros Hnd [Hk Hl]. destruct (bc_allocated c !! (i / 8)) as [v|] eqn:E.
  - rewrite forallb_forall in Hk. specialize (Hk (i / 8, v)). rewrite <-list_elem_of_In, elem_of_map_to_list in Hk. pose proof (Z.mod_pos_bound i 8 ltac:(lia)).
    pose proof (all_below_spec _ _ (i mod 8) (Hk E) ltac:(done)) as Hx. simpl in Hx. rewrite <-Z.div_mod in Hx by lia. by apply eqb_prop in Hx.
  - assert (alloc_bit c i = false) as Hb by (unfold alloc_bit, byte_at; rewrite E; done). rewrite Hb.
    destruct ((list_to_map l : parts) !! i) as [[o t]|] eqn:Ei; [|done]. pose proof (all_parts l Hnd _ _ _ Hl Ei) as Hx. simpl in Hx. rewrite Hb in Hx. by destruct t.
Qed.

Lemma bytes_sound m : bytes_b m = true → bytes_ok m.
Proof.
  unfold bytes_b. rewrite forallb_forall. intros Hf i. unfold byte_at. destruct (m !! i) as [v|] eqn:E; [|simpl; unfold is_u8; lia].
  specialize (Hf (i, v)). rewrite <-list_elem_of_In, elem_of_map_to_list in Hf. specialize (Hf E). simpl in *. unfold is_u8. lia.
Qed.

Lemma check_chunk_sound c l : check_chunk c l = true → chunk_ok c (list_to_map l).
Proof.
  unfold check_chunk, check_rep. rewrite andb_true_iff. intros [Hp Hr]. destruct (check_parts_sound l Hp) as [Hnd HP]. split; [done|].
  rewrite !andb_true_iff, Nat.eqb_eq in Hr. destruct Hr as [[[[[Ho Ha] Hl] Hb] Hq] Hf]. exists (free_of l).
  assert (∀ o, 0 <= o < 16 → list_b c l o = true) as Hlist by (intros o; by apply all_below_spec).
  split; [by apply bytes_sound|by apply bytes_sound|done|apply (cp_part _ HP)| | | | |].
  - intros i Hi. by apply bits_sound.
  - intros i o t Hi Ht. pose proof (all_parts l Hnd _ _ _ Hq Hi) as Hx. simpl in Hx. destruct t; [done|lia|lia].
  - intros o Hor. specialize (Hlist o Hor). unfold list_b in Hlist. destruct (free_of l o) as [|i [|j k]]; [| |done].
    + destruct (bc_freelists c !! Z.to_nat o) as [f|]; [|done]. exists f. simpl. split; [done|lia].
    + destruct (bc_freelists c !! Z.to_nat o) as [f|]; [|done]. exists f. split; [done|]. apply andb_true_iff in Hlist as [Hi Hh%bool_decide_eq_true].
      simpl. rewrite Hh. simpl. split; [lia|done].
  - intros o Hor. specialize (Hlist o Hor). unfold list_b in Hlist. destruct (free_of l o) as [|i [|j k]]; [apply NoDup_nil_2|apply NoDup_singleton|done].
  - intros o i _. by apply free_of_spec.
Qed.

(** ** The chunk that was set up *)
Definition fresh_blocks : list entry :=
  [(0, (11, BMeta)); (2048, (9, BMeta)); (2560, (3, BMeta)); (2568, (0, BMeta)); (2569, (0, BFree)); (2570, (1, BFree)); (2572, (2, BFree));
   (2576, (4, BFree)); (2592, (5, BFree)); (2624, (6, BFree)); (2688, (7, BFree)); (2816, (8, BFree)); (3072, (10, BFree));
   (4096, (12, BFree)); (8192, (13, BFree)); (16384, (14, BFree)); (32768, (15, BFree))].
Definition fresh_parts : parts := list_to_map fresh_blocks.
Definition fresh_chunk : buddy_chunk := Eval vm_compute in match chunk_setup 16 zero_chunk with Some (_, c) => c | None => zero_chunk end.

Lemma chunk_setup_run cl : (16 <= cl)%nat → chunk_setup cl zero_chunk = Some (true, fresh_chunk).
Proof.
  intros Hcl. replace cl with (16 + (cl - 16))%nat by lia. generalize (cl - 16)%nat. intros k. unfold chunk_setup. rewrite Nat.min_r by lia. vm_compute. reflexivity.
Qed.
Lemma fresh_check : check_chunk fresh_chunk fresh_blocks = true.
Proof. vm_compute. reflexivity. Qed.
Lemma fresh_ok : chunk_ok fresh_chunk fresh_parts.
Proof. apply check_chunk_sound, fresh_check. Qed.

(** * The buddy allocator as a set of blocks

    A partition without free buddies is determined by its taken blocks.  [buddy_ok] is the
    invariant of the allocator: its chunks are linked from the first one, lie in
    the part of the address space that was handed out, and each is in order. *)

(** ** Partitions are canonical *)
Definition all_free (P : parts) (i o : Z) : Prop := ∀ x j p t, in_blk i o x → P !! j = Some (p, t) → in_blk j p x → t = BFree.

(** Two blocks of a partition that share an index are the same. *)
Lemma same_block P i o t j p u x : part_ok P → P !! i = Some (o, t) → P !! j = Some (p, u) → in_blk i o x → in_blk j p x → i = j.
Proof. intros Hp Hi Hj Hx Hx'. destruct (decide (i = j)); [done|]. unfold in_blk in *. destruct (pa_apart _ Hp _ _ _ _ _ _ Hi Hj ltac:(done)); lia. Qed.

(** A larger aligned block around the start of a smaller one. *)
Lemma around i o j p : blk i o → blk j p → o <= p → in_blk j p i → j <= i ∧ i + 2 ^ o <= j + 2 ^ p.
Proof. intros (Ho & Hi & Hd & _) (Hp & Hj & Hd' & _) Hle Hin. unfold in_blk in *. pose proof (pow_pos o ltac:(lia)). apply nested; (done || lia). Qed.

(** A block all of whose indices are free is part of one free block. *)
Lemma free_region n P i o : chunk_parts P → o = Z.of_nat n → blk i o → all_free P i o → ∃ j p, P !! j = Some (p, BFree) ∧ o <= p ∧ in_blk j p i.
Proof.
  intros HP. revert i o. induction n as [|n IH]; intros i o En Hb Hf.
  - destruct (cp_cover _ HP i) as [[]|(j & p & t & Hj & Hx)]; [by apply (blk_range _ _ Hb)|]. pose proof (pa_blk _ (cp_part _ HP) _ _ _ Hj) as (Hp & _).
    exists j, p. rewrite (Hf i j p t) in Hj; [|unfold in_blk; pose proof (pow_pos o ltac:(lia)); lia|done|exact Hx]. split; [done|]. split; [lia|exact Hx].
  - assert (∃ q, o = q + 1) as [q ->] by (exists (o - 1); lia). pose proof Hb as (Ho & Hi & Hd & Hend). pose proof (pow_pos q ltac:(lia)) as Hpos.
    destruct (half_blk i q (q + 1) Hb ltac:(lia)) as [Hb2 Hbud]. rewrite pow_double in * by lia.
    assert (blk i q) as Hb1 by (split; [lia|]; split; [lia|]; split; [etrans; [by exists 2|exact Hd]|lia]).
    assert (∀ k, k = i ∨ k = i + 2 ^ q → all_free P k q) as Hsub.
    { intros k Hk x j p t Hx. apply Hf. unfold in_blk in *. rewrite pow_double by lia. lia. }
    destruct (IH i q ltac:(lia) Hb1 (Hsub i ltac:(by left))) as (j1 & p1 & Hj1 & Hp1 & Hin1).
    destruct (decide (q + 1 <= p1)) as [|Hn1]; [by exists j1, p1|]. assert (p1 = q) as -> by lia.
    destruct (IH (i + 2 ^ q) q ltac:(lia) Hb2 (Hsub _ ltac:(by right))) as (j2 & p2 & Hj2 & Hp2 & Hin2).
    pose proof (pa_blk _ (cp_part _ HP) _ _ _ Hj1) as Hbj1. pose proof (pa_blk _ (cp_part _ HP) _ _ _ Hj2) as Hbj2.
    destruct (around i q j1 q Hb1 Hbj1 ltac:(lia) Hin1). assert (j1 = i) as -> by lia.
    destruct (around _ q j2 p2 Hb2 Hbj2 ltac:(lia) Hin2). exists j2, p2. split; [done|].
    destruct (decide (q + 1 <= p2)) as [Hle|Hn2].
    + split; [done|]. destruct Hbj2 as (? & ? & Hdj & _). unfold in_blk in *. rewrite <-pow_double in Hd by lia. pose proof (pow_pos p2 ltac:(lia)).
      destruct (nested i (q + 1) j2 p2) as [? ?]; [lia|done|done|lia|rewrite pow_double by lia; lia|]. rewrite pow_double in * by lia. lia.
    + exfalso. assert (p2 = q) as -> by lia. assert (j2 = i + 2 ^ q) as -> by lia. apply (cp_coalesced _ HP _ _ Hj2). by rewrite Hbud.
Qed.

Definition same_taken (P P' : parts) : Prop := ∀ j q t, t ≠ BFree → P' !! j = Some (q, t) ↔ P !! j = Some (q, t).

(** A block that is free in one partition is free in the other one. *)
Lemma free_elsewhere P P' i o : part_ok P → same_taken P P' → P !! i = Some (o, BFree) → all_free P' i o.
Proof.
  intros Hp Hs Hi x j p t Hx Hj Hx'. destruct (decide (t = BFree)) as [|Ht]; [done|]. apply Hs in Hj; [|done].
  assert (i = j) as -> by (by eapply (same_block P _ _ _ _ _ _ x)). congruence.
Qed.
Lemma parts_le P P' i x : chunk_parts P → chunk_parts P' → same_taken P P' → P !! i = Some x → P' !! i = Some x.
Proof.
  intros HP HP' Hs Hi. destruct x as [o t]. destruct (decide (t = BFree)) as [->|Ht]; [|by apply Hs].
  pose proof (pa_blk _ (cp_part _ HP) _ _ _ Hi) as Hb. pose proof Hb as (Ho & _). pose proof (pow_pos o ltac:(lia)).
  destruct (free_region (Z.to_nat o) P' i o HP') as (j & p & Hj & Hle & Hin); [lia|done|by eapply free_elsewhere; [apply HP| |]|].
  pose proof (pa_blk _ (cp_part _ HP') _ _ _ Hj) as Hbj. pose proof Hbj as (Hp & _). pose proof (pow_pos p ltac:(lia)).
  destruct (around i o j p Hb Hbj Hle Hin) as [H1 H2].
  destruct (free_region (Z.to_nat p) P j p HP) as (k & r & Hk & Hle' & Hin'); [lia|done|eapply free_elsewhere; [apply HP'| |done]; by intros ????; symmetry; apply Hs|].
  pose proof (pa_blk _ (cp_part _ HP) _ _ _ Hk) as Hbk. destruct (around j p k r Hbj Hbk Hle' Hin') as [H3 H4].
  assert (i = k) as <- by (apply (same_block P i o BFree k r BFree i); [apply HP|done|done| |]; unfold in_blk; lia).
  assert (r = o) as -> by congruence. assert (p = o) as -> by lia. assert (j = i) as -> by lia. done.
Qed.
Lemma parts_canonical P P' : chunk_parts P → chunk_parts P' → same_taken P P' → P' = P.
Proof.
  intros HP HP' Hs. apply map_eq. intros i. apply option_eq. intros x. split; [|by apply parts_le].
  apply parts_le; [done|done|]. intros j q t Ht. symmetry. by apply Hs.
Qed.

(** ** The taken blocks after an allocation *)
Lemma halves_taken n j i P k q t : 0 <= j → (∀ p, j <= p < j + Z.of_nat n → P !! (i + 2 ^ p) = None) → t ≠ BFree → halves n j i P !! k = Some (q, t) ↔ P !! k = Some (q, t).
Proof.
  revert j P. induction n as [|n IH]; intros j P Hj Hn Ht; [done|]. simpl. rewrite IH; [|lia| |done].
  - rewrite lookup_insert_Some. split; [intros [[_ [=]]|[_ ?]]; [congruence|done]|]. intros Hk. right. split; [|done]. intros <-. by rewrite Hn in Hk by lia.
  - intros p Hp. rewrite lookup_insert_ne; [apply Hn; lia|]. pose proof (pow_le (j + 1) p ltac:(lia)) as Hle. rewrite pow_double in Hle by lia. pose proof (pow_pos j ltac:(lia)). lia.
Qed.
Lemma allocated_taken P i o req k q t : chunk_parts P → P !! i = Some (o, BFree) → 0 <= req <= o → t ≠ BFree →
  allocated_in P i o req !! k = Some (q, t) ↔ (k = i ∧ q = req ∧ t = BUsed) ∨ P !! k = Some (q, t).
Proof.
  intros HP Hi Hreq Ht. unfold allocated_in. rewrite halves_taken; [|lia| |done].
  - rewrite lookup_insert_Some. split; [intros [[<- [= <- <-]]|[_ ?]]; [by left|by right]|]. intros [(-> & -> & ->)|Hk]; [by left|]. right. split; [congruence|done].
  - intros p Hp. pose proof (pow_le (p + 1) o ltac:(lia)) as Hle. rewrite pow_double in Hle by lia. pose proof (pow_pos p ltac:(lia)). rewrite lookup_insert_ne by lia.
    destruct (P !! (i + 2 ^ p)) as [[r u]|] eqn:E; [|done]. exfalso. pose proof (pa_blk _ (cp_part _ HP) _ _ _ E) as (Hr & _). pose proof (pow_pos r ltac:(lia)).
    assert (i = i + 2 ^ p); [|lia]. apply (same_block P i o BFree _ r u (i + 2 ^ p)); [apply HP|done|done| |]; unfold in_blk; lia.
Qed.

(** ** The allocator *)
Fixpoint chain (m : gmap Z buddy_chunk) (c : Z) (cs : list Z) : Prop :=
  match cs with [] => c = NULL | x :: cs => c = x ∧ x ≠ NULL ∧ ∃ k, m !! x = Some k ∧ chain m (bc_next k) cs end.

Definition in_vaddr (c v : Z) : Prop := (2 ^ 20 | c) ∧ 2 ^ 20 <= c ∧ c < 2 ^ 20 + v.
Record buddy_ok (s : buddy) (cs : list Z) (M : Z → parts) : Prop := BuddyOk {
  bo_chain : chain (by_chunks s) (by_first s) cs;
  bo_nodup : NoDup cs;
  bo_vaddr : 0 <= by_vaddr s <= 2 ^ 30 ∧ (2 ^ 20 | by_vaddr s);
  bo_chunk : ∀ c, c ∈ cs → in_vaddr c (by_vaddr s) ∧ ∃ k, by_chunks s !! c = Some k ∧ chunk_ok k (M c);
}.

(** The blocks that are used, as addresses. *)
Definition used (cs : list Z) (M : Z → parts) (a o : Z) : Prop := ∃ c i, c ∈ cs ∧ M c !! i = Some (o, BUsed) ∧ a = c + 16 * i.
Definition set_parts (M : Z → parts) (c : Z) (P : parts) : Z → parts := λ x, if decide (x = c) then P else M x.

Lemma chain_same_next m c k k' f cs : m !! c = Some k → bc_next k' = bc_next k → chain m f cs → chain (<[c := k']> m) f cs.
Proof.
  intros Hk En. revert f. induction cs as [|x cs IH]; intros f; [done|]. intros (-> & Hx & kx & Hkx & Hc). split; [done|]. split; [done|].
  destruct (decide (c = x)) as [->|Hne].
  - exists k'. rewrite lookup_insert_eq. split; [done|]. rewrite En. apply IH. by assert (kx = k) as -> by congruence.
  - exists kx. rewrite lookup_insert_ne by done. split; [done|by apply IH].
Qed.

(** An operation on one chunk. *)
Lemma on_chunk_wp {X} c (m : ST buddy_chunk X) s cs M (Q : X → buddy → Prop) (R : X → buddy_chunk → parts → Prop) k :
  buddy_ok s cs M → c ∈ cs → by_chunks s !! c = Some k →
  wp m (λ x k', same_links k k' ∧ ∃ P', chunk_ok k' P' ∧ R x k' P') k →
  (∀ x k' P', R x k' P' → bc_next k' = bc_next k → buddy_ok (with_chunks <[c := k']> s) cs (set_parts M c P') → Q x (with_chunks <[c := k']> s)) → wp (on_chunk c m) Q s.
Proof.
  intros [Hch Hnd Hv Hc] Hin Hk Hm HQ. unfold wp, on_chunk in *. rewrite Hk. destruct (m k) as [[x k']|]; [|done].
  destruct Hm as ([_ Hnx] & P' & HP' & HR). eapply HQ; [done|done|]. split; [by eapply chain_same_next|done|done|].
  intros y Hy. split; [by apply Hc|]. unfold set_parts. simpl. case_decide as E.
  - subst y. exists k'. by rewrite lookup_insert_eq.
  - destruct (Hc y Hy) as (_ & ky & Hky & Hok). exists ky. by rewrite lookup_insert_ne.
Qed.

(** Addresses. *)
Lemma chunk_bounds c v : in_vaddr c v → 0 <= v <= 2 ^ 30 → (2 ^ 20 | v) → 2 ^ 20 <= c ∧ c + 2 ^ 20 <= 2 ^ 20 + v.
Proof. intros ([a ->] & H1 & H2) Hv [b ->]. change (2 ^ 20) with 1048576 in *. lia. Qed.

Lemma chunk_addr c v i : in_vaddr c v → 0 <= v <= 2 ^ 30 → (2 ^ 20 | v) → 0 <= i < 65536 → idx_to_addr c i = c + 16 * i ∧ c + 16 * i ≠ NULL.
Proof.
  intros Hc Hv Hd Hi. destruct (chunk_bounds c v Hc Hv Hd). change (2 ^ 20) with 1048576 in *. change (2 ^ 30) with 1073741824 in *. split; [|lia]. unfold idx_to_addr.
  rewrite items_eq, (proj2 (Z.leb_gt _ _)) by lia. change BUDDY_MIN_ALLOC_BYTES with 16. rewrite u64_small by (unfold is_u64, two64; lia). lia.
Qed.

(** The chunk and the index of an address. *)
Lemma addr_split c v i : in_vaddr c v → 0 <= v <= 2 ^ 30 → (2 ^ 20 | v) → 0 <= i < 65536 → let a := c + 16 * i in
  Z.land a (BUDDY_MIN_ALLOC_BYTES - 1) = 0 ∧ Z.land a (u64 (Z.lnot BUDDY_CHUNK_OFFSET_MASK)) = c ∧ Z.land a BUDDY_CHUNK_OFFSET_MASK / BUDDY_MIN_ALLOC_BYTES = i.
Proof.
  intros Hc Hv Hd Hi a. destruct (chunk_bounds c v Hc Hv Hd) as [H1 H2]. destruct Hc as ([q Hq] & _ & _). change (2 ^ 20) with 1048576 in *. change (2 ^ 30) with 1073741824 in *.
  assert (Z.land a (Z.ones 20) = 16 * i) as E20.
  { rewrite Z.land_ones by lia. change (2 ^ 20) with 1048576. unfold a. rewrite Hq, Z.add_comm, Z_mod_plus_full. apply Z.mod_small. lia. }
  split; [|split].
  - change (BUDDY_MIN_ALLOC_BYTES - 1) with (Z.ones 4). rewrite Z.land_ones by lia. change (2 ^ 4) with 16. unfold a. rewrite Hq. apply Z.mod_divide; [lia|]. exists (q * 65536 + i). lia.
  - change (u64 (Z.lnot BUDDY_CHUNK_OFFSET_MASK)) with (Z.ldiff (Z.ones 64) (Z.ones 20)).
    assert (Z.land a (Z.ldiff (Z.ones 64) (Z.ones 20)) = Z.ldiff (Z.land a (Z.ones 64)) (Z.ones 20)) as ->.
    { apply Z.bits_inj'. intros n Hn. rewrite Z.land_spec, !Z.ldiff_spec, Z.land_spec. by destruct (Z.testbit a n), (Z.testbit (Z.ones 64) n), (Z.testbit (Z.ones 20) n). }
    rewrite Z.land_ones, (Z.mod_small a) by (unfold a; lia). rewrite Z.ldiff_ones_r by lia. rewrite Z.shiftr_div_pow2, Z.shiftl_mul_pow2 by lia. change (2 ^ 20) with 1048576.
    unfold a. rewrite Hq. rewrite Z.add_comm, Z.div_add, (Z.div_small (16 * i)) by lia. lia.
  - change BUDDY_CHUNK_OFFSET_MASK with (Z.ones 20). rewrite E20. change BUDDY_MIN_ALLOC_BYTES with 16. rewrite Z.mul_comm. by apply Z.div_mul.
Qed.

(** ** Used blocks *)
Lemma used_set cs M c P' b p : c ∈ cs → used cs (set_parts M c P') b p ↔ (∃ i, P' !! i = Some (p, BUsed) ∧ b = c + 16 * i) ∨ (∃ d i, d ≠ c ∧ d ∈ cs ∧ M d !! i = Some (p, BUsed) ∧ b = d + 16 * i).
Proof.
  intros Hc. unfold used, set_parts. split.
  - intros (d & i & Hd & Hi & Hb). case_decide as E; [subst d; left; by exists i|right; by exists d, i].
  - intros [(i & Hi & Hb)|(d & i & Hne & Hd & Hi & Hb)]; [exists c, i; by rewrite decide_True|exists d, i; by rewrite decide_False].
Qed.

(** Blocks of the allocator, as addresses: they are aligned, and two of them are apart. *)
Section blocks.
Context (s : buddy) (cs : list Z) (M : Z → parts) (Hok : buddy_ok s cs M).

Lemma chunk_of c : c ∈ cs → in_vaddr c (by_vaddr s) ∧ chunk_parts (M c).
Proof. intros Hc. destruct (bo_chunk _ _ _ Hok c Hc) as (? & k & _ & ? & _). done. Qed.
Lemma block_aligned c i o t : c ∈ cs → M c !! i = Some (o, t) → (16 * 2 ^ o | c + 16 * i) ∧ c <= c + 16 * i ∧ c + 16 * i + 16 * 2 ^ o <= c + 2 ^ 20.
Proof.
  intros Hc Hi. destruct (chunk_of c Hc) as [([q Hq] & _) HP]. destruct (pa_blk _ (cp_part _ HP) _ _ _ Hi) as (Ho & Hi0 & [r Hr] & He). change (2 ^ 20) with (16 * 2 ^ 16) in *.
  destruct (pow_divide o 16 ltac:(lia)) as [x Hx]. split; [|change (2 ^ 16) with 65536; lia]. exists (q * x + r). rewrite Hq, Hx, Hr. lia.
Qed.
Lemma blocks_apart c i o t d j p u : c ∈ cs → d ∈ cs → M c !! i = Some (o, t) → M d !! j = Some (p, u) → (c, i) ≠ (d, j) →
  c + 16 * i + 16 * 2 ^ o <= d + 16 * j ∨ d + 16 * j + 16 * 2 ^ p <= c + 16 * i.
Proof.
  intros Hc Hd Hi Hj Hne. destruct (chunk_of c Hc) as [([q Hq] & _) HP]. destruct (decide (c = d)) as [->|Hcd].
  - destruct (pa_apart _ (cp_part _ HP) _ _ _ _ _ _ Hi Hj ltac:(congruence)); lia.
  - destruct (block_aligned c i o t Hc Hi) as (_ & ? & ?), (block_aligned d j p u Hd Hj) as (_ & ? & ?).
    destruct (chunk_of d Hd) as [([r Hr] & _) _]. change (2 ^ 20) with 1048576 in *. lia.
Qed.
Lemma first_chunk c cs' : cs = c :: cs' → by_first s = c ∧ c ≠ NULL ∧ ∃ k, by_chunks s !! c = Some k ∧ chunk_ok k (M c).
Proof.
  intros ->. destruct (bo_chain _ _ _ Hok) as (Ef & Hn & _). destruct (bo_chunk _ _ _ Hok c ltac:(left)) as (_ & Hk). done.
Qed.
End blocks.

(** ** Allocation *)

(** [a] is the start of the block of order [req] that was cut from the smallest free block that is large enough. *)
Definition cut_from (M : Z → parts) (c req a : Z) (M' : Z → parts) : Prop :=
  ∃ i o, M c !! i = Some (o, BFree) ∧ req <= o ∧ (∀ p k, req <= p < o → M c !! k ≠ Some (p, BFree)) ∧ a = c + 16 * i ∧ M' = set_parts M c (allocated_in (M c) i o req).

Lemma order_of_size size : 1 <= size <= 2 ^ 19 → let o := size_to_order size in s32 o = o ∧ 0 <= o < 16 ∧ size <= 16 * 2 ^ o ∧ (0 < o → 16 * 2 ^ (o - 1) < size).
Proof.
  intros Hs. cbv zeta. destruct (size_to_order_spec size) as (H1 & H2 & H3); [change (2 ^ 19) with 524288 in Hs; change (2 ^ 63) with 9223372036854775808; lia|].
  change BUDDY_MIN_ALLOC_BYTES with 16 in *. set (o := size_to_order size) in *. assert (o < 16) as Ho.
  { destruct (Z.lt_ge_cases o 16); [done|]. specialize (H3 ltac:(lia)). pose proof (pow_le 15 (o - 1) ltac:(lia)). change (2 ^ 15) with 32768 in *. change (2 ^ 19) with 524288 in Hs. lia. }
  split; [apply s32_small; unfold two31; lia|]. split; [lia|done].
Qed.

Lemma alloc_first_wp cl env env2 null pages lr2 b size s c cs M : buddy_ok s (c :: cs) M → b ≠ NULL → 1 <= size <= 2 ^ 19 → (∃ o i, size_to_order size <= o ∧ M c !! i = Some (o, BFree)) →
  wp (buddy_alloc_internal (S cl) env env2 null 0 pages lr2 b size) (λ a s', ∃ M', cut_from M c (size_to_order size) a M' ∧ buddy_ok s' (c :: cs) M') s.
Proof.
  intros Hok Hb Hs Hfree. destruct (order_of_size size Hs) as (E32 & Hreq & _). destruct (first_chunk _ _ _ Hok c cs eq_refl) as (Ef & Hn & k & Hk & Hck).
  destruct (bo_vaddr _ _ _ Hok) as [Hv Hvd]. destruct (chunk_of _ _ _ Hok c ltac:(left)) as [Hin HP].
  unfold buddy_alloc_internal. rewrite (proj2 (Z.eqb_neq b NULL)) by done. rewrite E32. change BUDDY_CHUNK_NUM_ORDERS with 16. set (req := size_to_order size) in *.
  rewrite (proj2 (Z.leb_gt 16 req)), (proj2 (Z.ltb_ge req 0)) by lia. cbn [orb negb Z.eqb]. wbind. apply wp_gets. rewrite Ef. wbind. cbn [alloc_loop].
  rewrite (proj2 (Z.eqb_neq c NULL)) by done. wbind.
  eapply (on_chunk_wp c _ s (c :: cs) M _ (λ a k' P', ∃ i o, M c !! i = Some (o, BFree) ∧ req <= o ∧ (∀ p j, req <= p < o → M c !! j ≠ Some (p, BFree)) ∧ a = idx_to_addr c i ∧ P' = allocated_in (M c) i o req) k Hok); [left|done| |].
  - eapply wp_mono; [by apply chunk_alloc_spec|]. intros a k' (i & o & Hi & Hle & Hleast & Ea & Hck' & Hl). split; [done|]. eexists. split; [exact Hck'|]. by exists i, o.
  - intros a k' P' (i & o & Hi & Hle & Hleast & Ea & ->) Hnx Hok'. pose proof (blk_range _ _ (pa_blk _ (cp_part _ HP) _ _ _ Hi)) as Hr.
    destruct (chunk_addr c _ i Hin Hv Hvd Hr) as [Eia Hnz]. rewrite Eia in Ea. rewrite Ea, (proj2 (Z.eqb_neq _ NULL)) by done. cbn [negb]. apply wp_ret.
    rewrite (proj2 (Z.eqb_neq _ NULL)) by done. cbn [negb]. apply wp_ret. eexists. split; [|exact Hok']. exists i, o. done.
Qed.

(** No block of the chunk is large enough; one is. *)
Definition no_fit (P : parts) (req : Z) : Prop := ∀ o i, req <= o → P !! i ≠ Some (o, BFree).
Definition fits (P : parts) (req : Z) : Prop := ∃ o i, req <= o ∧ P !! i = Some (o, BFree).

(** The loop over the chunks, as far as the first two. *)
Lemma alloc_second_run cl null req s c d cs M : buddy_ok s (c :: d :: cs) M → 0 <= req < 16 → no_fit (M c) req → fits (M d) req →
  ∃ a s1 M', alloc_loop (S (S cl)) null c req s = Some (a, with_chunks (alter (damaged (u32 (null (S cl)))) c) s1) ∧ a ≠ NULL ∧
    cut_from M d req a M' ∧ buddy_ok s1 (c :: d :: cs) M' ∧ by_first s1 = by_first s.
Proof.
  intros Hok Hreq Hno Hfit. destruct (first_chunk _ _ _ Hok c (d :: cs) eq_refl) as (Ef & Hn & k & Hk & Hck). set (n := u32 (null (S cl))).
  destruct (bo_chain _ _ _ Hok) as (_ & _ & k' & Hk' & Hd & Hdn & _). assert (k' = k) as -> by congruence.
  assert (d ≠ c) as Hdc by (intros ->; pose proof (bo_nodup _ _ _ Hok) as [Hx _]%NoDup_cons; apply Hx; left).
  destruct (bo_chunk _ _ _ Hok d ltac:(right; left)) as (Hin & kd & Hkd & Hckd). destruct (bo_vaddr _ _ _ Hok) as [Hv Hvd].
  pose proof (chunk_alloc_spec (null cl) d req kd (M d) Hckd Hreq Hfit) as Hspec.
  assert (wp (on_chunk d (buddy_chunk_alloc (null cl) d req)) (λ a s1, ∃ kd' M', buddy_chunk_alloc (null cl) d req kd = Some (a, kd') ∧ s1 = with_chunks <[d := kd']> s ∧ a ≠ NULL ∧ cut_from M d req a M' ∧ buddy_ok s1 (c :: d :: cs) M') s) as Hwp.
  { eapply (on_chunk_wp d _ s _ M _ (λ a k' P', buddy_chunk_alloc (null cl) d req kd = Some (a, k') ∧ ∃ i o, M d !! i = Some (o, BFree) ∧ req <= o ∧ (∀ p j, req <= p < o → M d !! j ≠ Some (p, BFree)) ∧
      a = idx_to_addr d i ∧ P' = allocated_in (M d) i o req) kd Hok); [right; left|done| |].
    - unfold wp in *. destruct (buddy_chunk_alloc (null cl) d req kd) as [[a k']|]; [|done]. destruct Hspec as (i & o & Hi & Hle & Hl & Ea & Hck' & Hlk). split; [done|]. eexists. split; [exact Hck'|]. split; [done|]. by exists i, o.
    - intros a k' P' (E & i & o & Hi & Hle & Hl & Ea & ->) _ Hok'. pose proof (blk_range _ _ (pa_blk _ (cp_part _ (proj1 Hckd)) _ _ _ Hi)) as Hr.
      destruct (chunk_addr d _ i Hin Hv Hvd Hr) as [Eia Hnz]. exists k', (set_parts M d (allocated_in (M d) i o req)). split; [done|]. split; [done|]. split; [congruence|]. split; [|done]. exists i, o. split_and!; [done..|congruence|done]. }
  apply wp_run in Hwp as (a & s1 & _ & kd' & M' & Erun & -> & Ha & Hcut & Hok'). exists a, (with_chunks <[d := kd']> s), M'. split; [|done].
  cbn [alloc_loop]. rewrite (proj2 (Z.eqb_neq c NULL)) by done. set (s2 := with_chunks <[c := damaged n k]> s).
  assert (on_chunk c (buddy_chunk_alloc (null (S cl)) c req) s = Some (NULL, s2)) as E1 by (unfold on_chunk; rewrite Hk; by rewrite (chunk_alloc_exhausted (null (S cl)) c req k (M c))).
  rewrite (ST_bind_run _ _ _ _ _ E1). cbn [negb Z.eqb].
  assert (bc_next (damaged n k) = d) as En by (unfold damaged; case_match; done).
  assert (on_chunk c (gets bc_next) s2 = Some (d, s2)) as E2.
  { unfold on_chunk, s2. cbn [by_chunks with_chunks]. rewrite lookup_insert_eq. unfold gets. rewrite En. unfold with_chunks. cbn [by_chunks by_first by_vaddr]. by rewrite insert_insert_eq. }
  rewrite (ST_bind_run _ _ _ _ _ E2). rewrite (proj2 (Z.eqb_neq d NULL)) by done.
  assert (on_chunk d (buddy_chunk_alloc (null cl) d req) s2 = Some (a, with_chunks (alter (damaged n) c) (with_chunks <[d := kd']> s))) as E3.
  { unfold on_chunk, s2. cbn [by_chunks with_chunks]. rewrite lookup_insert_ne by done. rewrite Hkd, Erun. unfold with_chunks. cbn [by_chunks by_first by_vaddr]. do 3 f_equal.
    apply map_eq. intros x. destruct (decide (x = c)) as [->|Hx].
    - rewrite lookup_insert_ne, lookup_insert_eq, lookup_alter_eq, lookup_insert_ne, Hk by done. done.
    - rewrite lookup_alter_ne by done. destruct (decide (x = d)) as [->|Hxd]; [by rewrite !lookup_insert_eq|]. by rewrite !lookup_insert_ne. }
  rewrite (ST_bind_run _ _ _ _ _ E3). by rewrite (proj2 (Z.eqb_neq a NULL)).
Qed.

Lemma alloc_internal_run cl env env2 null pages lr2 b size s c a s' : b ≠ NULL → 1 <= size <= 2 ^ 19 → by_first s = c →
  alloc_loop cl null c (size_to_order size) s = Some (a, s') → a ≠ NULL → buddy_alloc_internal cl env env2 null 0 pages lr2 b size s = Some (a, s').
Proof.
  intros Hb Hs Ef Erun Ha. destruct (order_of_size size Hs) as (E32 & Hreq & _). unfold buddy_alloc_internal. rewrite (proj2 (Z.eqb_neq b NULL)) by done. rewrite E32. change BUDDY_CHUNK_NUM_ORDERS with 16.
  rewrite (proj2 (Z.leb_gt 16 _)), (proj2 (Z.ltb_ge _ 0)) by lia. cbn [orb negb Z.eqb]. rewrite (ST_bind_run (gets by_first) _ s (by_first s) s eq_refl). rewrite Ef.
  rewrite (ST_bind_run _ _ _ _ _ Erun). by rewrite (proj2 (Z.eqb_neq a NULL)).
Qed.

(** ** Freeing *)
Lemma free_wp b s cs M c i o : buddy_ok s cs M → b ≠ NULL → c ∈ cs → M c !! i = Some (o, BUsed) →
  wp (buddy_free_internal 0 b (c + 16 * i)) (λ r s', r = 0 ∧ ∃ P', chunk_parts P' ∧ freed_in (M c) P' i o ∧ buddy_ok s' cs (set_parts M c P')) s.
Proof.
  intros Hok Hb Hc Hi. destruct (bo_vaddr _ _ _ Hok) as [Hv Hvd]. destruct (bo_chunk _ _ _ Hok c Hc) as (Hin & k & Hk & Hck). pose proof (proj1 Hck) as HP.
  pose proof (blk_range _ _ (pa_blk _ (cp_part _ HP) _ _ _ Hi)) as Hr. destruct (addr_split c _ i Hin Hv Hvd Hr) as (E1 & E2 & E3).
  unfold buddy_free_internal, buddy_free_unlocked. rewrite (proj2 (Z.eqb_neq b NULL)) by done. cbn [negb Z.eqb]. wbind. rewrite E1, E2, E3. rewrite Z.eqb_refl. cbn [negb].
  eapply (on_chunk_wp c _ s cs M _ (λ r k' P', chunk_parts P' ∧ freed_in (M c) P' i o) k Hok); [done|done| |].
  - eapply wp_mono; [by apply chunk_free_spec|]. intros r k' (_ & Hl & P' & Hck' & Hf). split; [done|]. exists P'. split; [done|]. split; [apply Hck'|done].
  - intros r k' P' [HP' Hf] Hnx Hok'. apply wp_ret. split; [done|]. by exists P'.
Qed.

(** Freeing what was just allocated brings the partition back. *)
Lemma alloc_free_parts P P' i o req : chunk_parts P → P !! i = Some (o, BFree) → 0 <= req <= o → chunk_parts P' → freed_in (allocated_in P i o req) P' i req → P' = P.
Proof.
  intros HP Hi Hreq HP' (h & p & Hh & _ & _ & _ & Ht). apply parts_canonical; [done|done|]. intros j q t Hne. rewrite Ht by done.
  rewrite allocated_taken by done. split.
  - intros [Hj [(-> & _)|?]]; done.
  - intros Hj. split; [congruence|by right].
Qed.
