(* ===== verification/BuddyClaims.v ===== *)
(** * Properties of the buddy allocator

    What [buddy_init], [buddy_alloc] and [buddy_free] promise, from the invariant [buddy_ok]. *)

From S2P Require Import Prelude Wp Buddy BuddyInv BuddyOps BuddyAlloc BuddyState.

(** ** Allocation and freeing *)

Lemma cut_used s cs M c req a M' : buddy_ok s cs M → c ∈ cs → 0 <= req → cut_from M c req a M' →
  ∀ b p, used cs M' b p ↔ used cs M b p ∨ (b = a ∧ p = req).
Proof.
  intros Hok Hc Hreq (i & o & Hi & Hle & _ & -> & ->) b p. destruct (chunk_of _ _ _ Hok c Hc) as [_ HP]. rewrite used_set by done. unfold used. split.
  - intros [(j & Hj & ->)|(d & j & _ & Hd & Hj & Hb)]; [|left; by exists d, j]. apply allocated_taken in Hj as [(-> & -> & _)|Hj]; [by right|left; by exists c, j|done|done|done|done].
  - intros [(d & j & Hd & Hj & Hb)|[-> ->]].
    + destruct (decide (d = c)) as [->|Hne]; [left|right; by exists d, j]. exists j. split; [|done]. apply allocated_taken; [done|done|done|done|by right].
    + left. exists i. split; [|done]. apply allocated_taken; [done|done|done|done|by left].
Qed.

(** C15: With a free block that is large enough in the first chunk, [buddy_alloc] succeeds: the block lies inside the chunk, has room for the size and no more than twice that (or 16 bytes), is aligned to its
    own size and overlaps no block that is in use; afterwards the allocator is in order and the blocks in use are those from before and the new one.  It is cut from
    the smallest free block that is large enough. *)
Theorem buddy_alloc_correct cl env env2 null pages lock_ret2 buddy size s c cs M :
  buddy_ok s (c :: cs) M → buddy ≠ NULL → 1 <= size <= 2 ^ 19 → (∃ o i, size_to_order size <= o ∧ M c !! i = Some (o, BFree)) →
  let len := BUDDY_MIN_ALLOC_BYTES * 2 ^ size_to_order size in
  wp (buddy_alloc_internal (S cl) env env2 null 0 pages lock_ret2 buddy size) (λ a s', ∃ M',
    cut_from M c (size_to_order size) a M' ∧ c <= a ∧ a + len <= c + BUDDY_CHUNK_BYTES ∧ size <= len ∧ (BUDDY_MIN_ALLOC_BYTES < len → len < 2 * size) ∧ (len | a) ∧
    (∀ b p, used (c :: cs) M b p → b + BUDDY_MIN_ALLOC_BYTES * 2 ^ p <= a ∨ a + len <= b) ∧
    buddy_ok s' (c :: cs) M' ∧ (∀ b p, used (c :: cs) M' b p ↔ used (c :: cs) M b p ∨ (b = a ∧ p = size_to_order size))) s.
Proof.
  intros Hok Hb Hs Hfree len. subst len. change BUDDY_MIN_ALLOC_BYTES with 16. change BUDDY_CHUNK_BYTES with (2 ^ 20).
  destruct (order_of_size size Hs) as (_ & Hreq & Hfit & Htight). eapply wp_mono; [by apply alloc_first_wp|]. intros a s' (M' & Hcut & Hok').
  pose proof (cut_used _ _ _ c (size_to_order size) _ _ Hok ltac:(left) ltac:(lia) Hcut) as Hused. exists M'. split; [exact Hcut|]. set (req := size_to_order size) in *.
  assert (∃ i, a = c + 16 * i ∧ M' c !! i = Some (req, BUsed)) as (i & Ea & Hi).
  { destruct (chunk_of _ _ _ Hok c ltac:(left)) as [_ HP]. destruct Hcut as (i & o & Hi & Hle & _ & Ea & ->). exists i. split; [done|]. unfold set_parts. rewrite decide_True by done.
    apply allocated_taken; [done|done|lia|done|by left]. }
  destruct (block_aligned _ _ _ Hok' c i req BUsed ltac:(left) Hi) as (Hal & Hlo & Hhi). rewrite <-Ea in Hal, Hlo, Hhi.
  split; [done|]. split; [done|]. split; [done|]. split; [|split; [done|split; [|split; [done|done]]]].
  - intros Hlen. destruct (decide (req = 0)) as [E|E]; [rewrite E in Hlen; done|]. specialize (Htight ltac:(lia)). replace req with (req - 1 + 1) by lia. rewrite pow_double by lia. lia.
  - intros b p Hb'. assert (used (c :: cs) M' b p) as (d & j & Hd & Hj & ->) by (apply Hused; by left). rewrite Ea.
    apply (blocks_apart _ _ _ Hok' d j p BUsed c i req BUsed Hd ltac:(left) Hj Hi). intros [= -> ->].
    destruct Hb' as (d & k & Hd' & Hk & Eb). destruct (chunk_of _ _ _ Hok c ltac:(left)) as [_ HP]. destruct Hcut as (i' & o & Hi' & _ & _ & Ea' & _).
    assert (i' = i) as -> by lia. destruct (blocks_apart _ _ _ Hok c i o BFree d k p BUsed) as [H1|H1]; [left|done|done|done|intros [= -> ->]; congruence| |];
      pose proof (pa_blk _ (cp_part _ HP) _ _ _ Hi') as (Ho & _); pose proof (pow_pos o ltac:(lia));
      destruct (chunk_of _ _ _ Hok d Hd') as [_ HPd]; pose proof (pa_blk _ (cp_part _ HPd) _ _ _ Hk) as (Hp & _); pose proof (pow_pos p ltac:(lia)); lia.
Qed.

(** C16: [buddy_free] of a block that is in use gives exactly this block back: it becomes part of one free block, which was grown as far as free buddies allow (the allocator is in order, so no two buddies are free), and
    every other block stays in use. *)
Theorem buddy_free_correct buddy s cs M a o :
  buddy_ok s cs M → buddy ≠ NULL → used cs M a o →
  wp (buddy_free_internal 0 buddy a) (λ r s', r = 0 ∧ ∃ M', buddy_ok s' cs M' ∧ (∀ b p, used cs M' b p ↔ used cs M b p ∧ b ≠ a) ∧
    ∃ c h p, c ∈ cs ∧ M' c !! h = Some (p, BFree) ∧ c + 16 * h <= a ∧ a + 16 * 2 ^ o <= c + 16 * h + 16 * 2 ^ p) s.
Proof.
  intros Hok Hb (c & i & Hc & Hi & ->). eapply wp_mono; [by apply free_wp|]. intros r s' (-> & P' & HP' & Hf & Hok'). split; [done|]. eexists. split; [exact Hok'|].
  pose proof Hf as (h & p & Hh & H1 & H2 & _ & Ht). split.
  - intros b q. rewrite used_set by done. split.
    + intros [(j & Hj & ->)|(d & j & Hne & Hd & Hj & ->)].
      * apply Ht in Hj as [Hne Hj]; [|done]. split; [by exists c, j|lia].
      * split; [by exists d, j|]. destruct (blocks_apart _ _ _ Hok c i o BUsed d j q BUsed Hc Hd Hi Hj ltac:(congruence)) as [H3|H3];
          destruct (chunk_of _ _ _ Hok d Hd) as [_ HPd]; pose proof (pa_blk _ (cp_part _ HPd) _ _ _ Hj) as (Hq & _); pose proof (pow_pos q ltac:(lia));
          destruct (chunk_of _ _ _ Hok c Hc) as [_ HPc]; pose proof (pa_blk _ (cp_part _ HPc) _ _ _ Hi) as (Ho & _); pose proof (pow_pos o ltac:(lia)); lia.
    + intros [(d & j & Hd & Hj & ->) Hne]. destruct (decide (d = c)) as [->|Hdc]; [left|right; by exists d, j]. exists j. split; [|done]. apply Ht; [done|]. split; [|done]. by intros ->.
  - exists c, h, p. split; [done|]. unfold set_parts. rewrite decide_True by done. split; [done|]. lia.
Qed.

(** C25: A block that is allocated and freed again leaves no trace: every block of every chunk is as it was before, whatever was split is joined again. *)
Theorem buddy_alloc_free_roundtrip cl env env2 null pages lock_ret2 buddy size s c cs M :
  buddy_ok s (c :: cs) M → buddy ≠ NULL → 1 <= size <= 2 ^ 19 → (∃ o i, size_to_order size <= o ∧ M c !! i = Some (o, BFree)) →
  wp (a ← buddy_alloc_internal (S cl) env env2 null 0 pages lock_ret2 buddy size; buddy_free_internal 0 buddy a)
    (λ r s', r = 0 ∧ ∃ M', buddy_ok s' (c :: cs) M' ∧ ∀ d, M' d = M d) s.
Proof.
  intros Hok Hb Hs Hfree. destruct (order_of_size size Hs) as (_ & Hreq & _). destruct (chunk_of _ _ _ Hok c ltac:(left)) as [_ HP].
  wbind. eapply wp_mono; [by apply alloc_first_wp|]. intros a s1 (M1 & (i & o & Hi & Hle & _ & -> & ->) & Hok1).
  assert (allocated_in (M c) i o (size_to_order size) !! i = Some (size_to_order size, BUsed)) as Hi1 by (apply allocated_taken; [done|done|lia|done|by left]).
  eapply wp_mono; [apply (free_wp _ _ _ _ c i (size_to_order size) Hok1 Hb); [left|unfold set_parts; by rewrite decide_True]|].
  intros r s' (-> & P' & HP' & Hf & Hok'). split; [done|]. eexists. split; [exact Hok'|]. intros d. unfold set_parts in *. destruct (decide (d = c)) as [->|Hne]; [|done].
  rewrite decide_True in Hf by done. eapply alloc_free_parts; [exact HP|exact Hi| |exact HP'|exact Hf]. lia.
Qed.



(** ** Sizes *)

(** [size_to_order] gives the least order whose blocks hold the size, for every size up to [2^63]; for a larger one the next power of two wraps to 0, and the order is that of
    the smallest block. *)
Theorem size_to_order_correct size : 0 <= size < 2 ^ 64 →
  (size = 0 → size_to_order size = 64) ∧
  (1 <= size <= 2 ^ 63 → ∀ o, 0 <= o → size_to_order size <= o ↔ size <= BUDDY_MIN_ALLOC_BYTES * 2 ^ o) ∧
  (2 ^ 63 < size → size_to_order size = 0).
Proof.
  intros Hs. split; [by intros ->|]. split; [|intros; apply size_to_order_wraps; lia].
  intros Hs' o Ho. destruct (size_to_order_spec size Hs') as (H1 & H2 & H3). change BUDDY_MIN_ALLOC_BYTES with 16 in *. set (r := size_to_order size) in *. split.
  - intros Hle. pose proof (pow_le r o Hle). lia.
  - intros Hle. destruct (Z.le_gt_cases r o) as [|Hgt]; [done|]. specialize (H3 ltac:(lia)). pose proof (pow_le o (r - 1) ltac:(lia)). lia.
Qed.

(** ** Set-up *)
Definition first_addr : Z := BUDDY_VADDR_OFFSET.
(** The range is handed out from its start. *)
Lemma first_vaddr cl env s (Q : Z * Z → buddy → Prop) : (∀ n t, env n t = t) → by_vaddr s = 0 →
  Q (0, first_addr) (with_vaddr BUDDY_CHUNK_BYTES s) → wp (buddy_alloc_arena_vaddr cl env) Q s.
Proof.
  intros Henv Hv HQ. destruct cl; cbn [buddy_alloc_arena_vaddr]; wbind; apply wp_gets; rewrite Hv; wbind; apply wp_modifies; rewrite Henv; wbind; apply wp_gets; rewrite Hv;
    wbind; apply wp_modifies; by apply wp_ret.
Qed.
Lemma init_wp cl env env2 s : (16 <= cl)%nat → (∀ n t, env n t = t) → (∀ t, env2 t = t) → by_first s = NULL →
  wp (buddy_init cl env env2 0 0 true 0) (λ r s', r = 0 ∧ s' = Buddy (<[first_addr := fresh_chunk]> (by_chunks s)) first_addr BUDDY_CHUNK_BYTES) s.
Proof.
  intros Hcl Henv Henv2 Hf. unfold buddy_init. wbind. wbind. apply wp_modifies. apply wp_ret. cbn [negb Z.eqb]. wbind. unfold buddy_chunk_get. wbind.
  apply first_vaddr; [done|done|]. change (first_addr mod BUDDY_CHUNK_BYTES =? 0) with true. cbn [negb Z.eqb]. wbind. apply wp_modifies. wbind. apply wp_modifies. rewrite Henv2.
  wbind. eapply wp_eq; [unfold on_chunk; cbn [by_chunks with_chunks with_vaddr]; by rewrite lookup_insert_eq, chunk_setup_run by done|].
  apply wp_ret. change (first_addr =? NULL) with false. cbv iota. wbind. unfold link_chunk. wbind. apply wp_gets. wbind.
  eapply wp_eq; [unfold on_chunk; cbn [by_chunks with_chunks with_vaddr]; by rewrite lookup_insert_eq|]. apply wp_modifies. apply wp_ret. split; [done|].
  unfold with_first, with_chunks, with_vaddr. cbn [by_chunks by_first by_vaddr]. rewrite Hf, !insert_insert_eq. done.
Qed.

Lemma fresh_rest x : 2569 <= x < 65536 → ∃ j p, fresh_parts !! j = Some (p, BFree) ∧ in_blk j p x.
Proof.
  intros Hx. destruct fresh_ok as [HP _]. destruct (cp_cover _ HP x) as [[]|(j & p & t & Hj & Hin)]; [lia|]. exists j, p. split; [|exact Hin].
  assert (forallb (λ e : entry, is_free e.2.2 || (e.1 + 2 ^ e.2.1 <=? 2569)) fresh_blocks = true) as Hc by (vm_compute; reflexivity).
  assert (NoDup fresh_blocks.*1) as Hnd by (apply (check_parts_sound fresh_blocks); vm_compute; reflexivity).
  pose proof (all_parts fresh_blocks Hnd _ _ _ Hc Hj) as Ht. simpl in Ht. destruct t; simpl in Ht; [lia|lia|done].
Qed.
Lemma fresh_unused j p : fresh_parts !! j ≠ Some (p, BUsed).
Proof.
  intros Hj. assert (forallb (λ e : entry, match e.2.2 with BUsed => false | _ => true end) fresh_blocks = true) as Hc by (vm_compute; reflexivity).
  assert (NoDup fresh_blocks.*1) as Hnd by (apply (check_parts_sound fresh_blocks); vm_compute; reflexivity).
  by pose proof (all_parts fresh_blocks Hnd _ _ _ Hc Hj).
Qed.
Lemma fresh_buddy ch : buddy_ok (Buddy (<[first_addr := fresh_chunk]> ch) first_addr BUDDY_CHUNK_BYTES) [first_addr] (λ _, fresh_parts).
Proof.
  split.
  - simpl. split; [done|]. split; [done|]. exists fresh_chunk. by rewrite lookup_insert_eq.
  - apply NoDup_singleton.
  - simpl. split; [done|]. by exists 1.
  - intros c ->%list_elem_of_singleton. split; [split; [by exists 1|done]|]. exists fresh_chunk. split; [apply lookup_insert_eq|apply fresh_ok].
Qed.

(** C34: [buddy_init], when nobody else uses the allocator yet: the allocator is in order afterwards, with one chunk in which nothing is in use and every byte behind the metadata is free;
    when the address range, the lock or the pages are refused it returns the error and no chunk is on the list. *)
Theorem buddy_init_correct cl env env2 s : (16 <= cl)%nat → (∀ n t, env n t = t) → (∀ t, env2 t = t) → by_first s = NULL →
  wp (buddy_init cl env env2 0 0 true 0) (λ r s', r = 0 ∧ ∃ c P, buddy_ok s' [c] (λ _, P) ∧ (∀ a o, ¬ used [c] (λ _, P) a o) ∧
    ∀ x, sizeof_buddy_chunk <= BUDDY_MIN_ALLOC_BYTES * x → x < BUDDY_CHUNK_ITEMS → ∃ j p, P !! j = Some (p, BFree) ∧ in_blk j p x) s ∧
  ∀ reserve_ret lock_ret pages lock_ret2, reserve_ret ≠ 0 ∨ lock_ret ≠ 0 ∨ pages = false ∨ lock_ret2 ≠ 0 →
    wp (buddy_init cl env env2 reserve_ret lock_ret pages lock_ret2) (λ r s', r ≠ 0 ∧ by_first s' = NULL ∧
      r = if decide (reserve_ret ≠ 0) then reserve_ret else if decide (lock_ret ≠ 0) then - EINVAL else - ENOMEM) s.
Proof.
  intros Hcl Henv Henv2 Hf. split.
  - eapply wp_mono; [by apply init_wp|]. intros r s' [-> ->]. split; [done|]. exists first_addr, fresh_parts. split; [apply fresh_buddy|]. split.
    + intros a o (c & i & _ & Hi & _). by apply fresh_unused in Hi.
    + change sizeof_buddy_chunk with 41104. change BUDDY_MIN_ALLOC_BYTES with 16. change BUDDY_CHUNK_ITEMS with 65536. intros x Hx Hx'. apply fresh_rest. lia.
  - intros r lr pages lr2 Herr. unfold buddy_init. wbind. wbind. apply wp_modifies. apply wp_ret.
    destruct (decide (r ≠ 0)) as [Hr|Hr]; [rewrite (proj2 (Z.eqb_neq r 0)) by done; by apply wp_ret|]. assert (r = 0) as -> by lia. cbn [negb Z.eqb].
    destruct (decide (lr ≠ 0)) as [Hl|Hl]; [rewrite (proj2 (Z.eqb_neq lr 0)) by done; by apply wp_ret|]. assert (lr = 0) as -> by lia. cbn [negb Z.eqb].
    wbind. apply (wp_mono _ (λ c s', c = NULL)).
    + unfold buddy_chunk_get. wbind. apply first_vaddr; [done|done|]. change (first_addr mod BUDDY_CHUNK_BYTES =? 0) with true. cbn [negb Z.eqb].
      destruct pages; [|by apply wp_ret]. cbn [negb]. wbind. apply wp_modifies. wbind. apply wp_modifies.
      destruct (Z.eqb_spec lr2 0) as [->|Hl2]; [naive_solver|]. cbn [negb]. wbind. apply wp_modifies. by apply wp_ret.
    + intros c s' ->. cbn. split; [done|]. split; [done|]. done.
Qed.

(** ** Examples *)
Definition ex_buddy : buddy := Buddy {[first_addr := fresh_chunk]} first_addr BUDDY_CHUNK_BYTES.

(** The largest block is in use. *)
Definition ex_used_blocks : list entry := map (λ e : entry, if e.1 =? 32768 then (32768, (15, BUsed)) else e) fresh_blocks.
Definition ex_used_chunk : buddy_chunk := Eval vm_compute in match buddy_chunk_alloc 0 first_addr 15 fresh_chunk with Some (_, c) => c | None => zero_chunk end.
Definition ex_used : buddy := Buddy {[first_addr := ex_used_chunk]} first_addr BUDDY_CHUNK_BYTES.

Lemma ex_buddy_ok : buddy_ok ex_buddy [first_addr] (λ _, fresh_parts).
Proof. apply (fresh_buddy ∅). Qed.
Lemma ex_used_check : check_chunk ex_used_chunk ex_used_blocks = true.
Proof. vm_compute. reflexivity. Qed.
Lemma ex_used_ok : buddy_ok ex_used [first_addr] (λ _, list_to_map ex_used_blocks).
Proof.
  split.
  - simpl. split; [done|]. split; [done|]. by exists ex_used_chunk.
  - apply NoDup_singleton.
  - simpl. split; [done|]. by exists 1.
  - intros c ->%list_elem_of_singleton. split; [split; [by exists 1|done]|]. exists ex_used_chunk. split; [done|]. apply check_chunk_sound, ex_used_check.
Qed.

Definition no_env (n : nat) (s : buddy) : buddy := s.
Definition no_env2 (s : buddy) : buddy := s.

(** The result of a run. *)
Definition res {S A} (m : ST S A) (s : S) : option A := match m s with Some (a, _) => Some a | None => None end.
Lemma res_wp {S A} (m : ST S A) (Q : A → S → Prop) s r : res m s = Some r → wp m Q s → ∃ s', Q r s'.
Proof. unfold wp, res. destruct (m s) as [[a s']|]; [|done]. intros [= ->] HQ. by exists s'. Qed.
Lemma ex_free_block : ∃ o i, size_to_order 100 <= o ∧ fresh_parts !! i = Some (o, BFree).
Proof. exists 15, 32768. vm_compute. split; [discriminate|reflexivity]. Qed.

Lemma buddy_alloc_correct_witness : res (buddy_alloc_internal 1 no_env no_env2 (λ _, 0) 0 false 0 1 100) ex_buddy = Some (first_addr + 16 * 2576) ∧
  ∃ s' M', buddy_ok s' [first_addr] M' ∧ used [first_addr] M' (first_addr + 16 * 2576) 3.
Proof.
  assert (res (buddy_alloc_internal 1 no_env no_env2 (λ _, 0) 0 false 0 1 100) ex_buddy = Some (first_addr + 16 * 2576)) as E by (vm_compute; reflexivity).
  split; [exact E|]. pose proof (buddy_alloc_correct 0 no_env no_env2 (λ _, 0) false 0 1 100 ex_buddy first_addr [] (λ _, fresh_parts) ex_buddy_ok ltac:(discriminate) ltac:(lia) ex_free_block) as Hwp. cbv zeta in Hwp.
  destruct (res_wp _ _ _ _ E Hwp) as (s' & M' & _ & _ & _ & _ & _ & _ & _ & Hok & Hu).
  exists s', M'. split; [exact Hok|]. apply Hu. right. split; [reflexivity|vm_compute; reflexivity].
Defined.

Lemma ex_in_use : used [first_addr] (λ _, list_to_map ex_used_blocks) (first_addr + 16 * 32768) 15.
Proof. exists first_addr, 32768. split; [left|]. split; [vm_compute; reflexivity|reflexivity]. Qed.
Lemma buddy_free_correct_witness : res (buddy_free_internal 0 1 (first_addr + 16 * 32768)) ex_used = Some 0 ∧
  ∃ s' M', buddy_ok s' [first_addr] M' ∧ ¬ used [first_addr] M' (first_addr + 16 * 32768) 15.
Proof.
  assert (res (buddy_free_internal 0 1 (first_addr + 16 * 32768)) ex_used = Some 0) as E by (vm_compute; reflexivity).
  split; [exact E|]. pose proof (buddy_free_correct 1 ex_used [first_addr] _ _ 15 ex_used_ok ltac:(discriminate) ex_in_use) as Hwp.
  destruct (res_wp _ _ _ _ E Hwp) as (s' & _ & M' & Hok & Hu & _).
  exists s', M'. split; [exact Hok|]. intros Hn. apply Hu in Hn as [_ Hn]. apply Hn. reflexivity.
Defined.

Lemma buddy_alloc_free_roundtrip_witness :
  res (a ← buddy_alloc_internal 1 no_env no_env2 (λ _, 0) 0 false 0 1 100; buddy_free_internal 0 1 a) ex_buddy = Some 0 ∧ ∃ s' M', buddy_ok s' [first_addr] M' ∧ M' first_addr = fresh_parts.
Proof.
  assert (res (a ← buddy_alloc_internal 1 no_env no_env2 (λ _, 0) 0 false 0 1 100; buddy_free_internal 0 1 a) ex_buddy = Some 0) as E by (vm_compute; reflexivity).
  split; [exact E|]. pose proof (buddy_alloc_free_roundtrip 0 no_env no_env2 (λ _, 0) false 0 1 100 ex_buddy first_addr [] (λ _, fresh_parts) ex_buddy_ok ltac:(discriminate) ltac:(lia) ex_free_block) as Hwp.
  destruct (res_wp _ _ _ _ E Hwp) as (s' & _ & M' & Hok & HM). exists s', M'. split; [exact Hok|]. apply HM.
Defined.



Lemma size_to_order_correct_witness : size_to_order 100 = 3 ∧ size_to_order (2 ^ 63 + 1) = 0.
Proof.
  split; [vm_compute; reflexivity|]. destruct (size_to_order_correct (2 ^ 63 + 1)) as (_ & _ & H3); [lia|]. apply H3. lia.
Defined.

Lemma buddy_init_correct_witness : res (buddy_init 16 no_env no_env2 0 0 true 0) (Buddy ∅ 0 0) = Some 0 ∧ ∃ s' c P, buddy_ok s' [c] (λ _, P).
Proof.
  assert (res (buddy_init 16 no_env no_env2 0 0 true 0) (Buddy ∅ 0 0) = Some 0) as E by (vm_compute; reflexivity). split; [exact E|].
  pose proof (proj1 (buddy_init_correct 16 no_env no_env2 (Buddy ∅ 0 0) (le_n 16) (λ _ _, eq_refl) (λ _, eq_refl) eq_refl)) as Hwp.
  destruct (res_wp _ _ _ _ E Hwp) as (s' & _ & c & P & Hok & _). exists s', c, P. exact Hok.
Defined.
