(* ===== verification/CgroupBw.v ===== *)
(** * CPU bandwidth control: [lib/cgroup_bw.bpf.c], [include/lib/cgroup.h]

    Cgroups with a limit ([cpu.max]) have a context with the quota of a period of 100 ms
    and what is left of it, and one context per last-level cache in which the time their tasks
    use is added up.  Two timers walk the hierarchy: the accounting timer rolls the times
    up and throttles the cgroups that used their budget, with everything below them; the
    replenish timer computes the next budget from quota, debt and burst.

    A [cgroup] is what the functions read of the kernel's object: its id, and the ids of its
    ancestors by level, itself included.  The hierarchy is a tree, and the
    iterators [BPF_CGROUP_ITER_DESCENDANTS_POST] and [_PRE] visit the cgroups of a subtree after
    or before those below them, as the kernel documents.  The maps of the kernel are finite
    maps from keys to the addresses of the contexts.  Messages are not modelled.  The
    backlog queues are the [atq] component: their lengths are an argument [nr_queued]. *)

From S2P Require Import Prelude ScxTime.

Definition CBW_REPLENISH_PERIOD : Z := 100 * 1000 * 1000.
Definition CBW_REPLENISH_PERIOD_MIN : Z := 1 * 1000 * 1000.
Definition CBW_ACCOUNTING_PERIOD_MIN : Z := 1 * 1000 * 1000.
Definition CBW_ACCOUNTING_PERIOD_MAX : Z := 20 * 1000 * 1000.
Definition CBW_ACCOUNTING_PERIOD_DIVISOR : Z := 4.
Definition CBW_SHIFT : Z := 10.
Definition CBW_SCALE : Z := Z.shiftl 1 CBW_SHIFT.
Definition CBW_CONSUMPTION_RATE_DECAY : Z := 3.
Definition CBW_RUNTUME_INF_RAW : Z := u64 (Z.lnot 0).
Definition CBW_RUNTUME_INF : Z := s64 (Z.lnot (Z.shiftl 1 63)).
Definition CBW_U64_MAX : Z := u64 (Z.lnot 0).
Definition ESRCH : Z := 3.

(** The configuration: [cbw_root_cgid], [cbw_root_level], [tree_height_max] and [TOPO_NR(LLC)]. *)
Record cbw_conf : Type := CbwConf { cf_root_cgid : Z; cf_root_level : Z; cf_height_max : Z; cf_nr_llc : nat }.

(** ** Cgroups of the kernel *)
Record cgroup : Type := Cgroup { cg_id : Z; cg_path : list Z }.
#[global] Instance cgroup_eq_dec : EqDecision cgroup.
Proof. solve_decision. Defined.
Definition cg_level (c : cgroup) : Z := Z.of_nat (length (cg_path c)) - 1.

Inductive cgtree : Type := CgNode (id : Z) (children : list cgtree).

(** [path]: the ancestors of the tree's root. *)
Fixpoint descendants_post (path : list Z) (t : cgtree) : list cgroup :=
  match t with CgNode id cs => concat (map (descendants_post (path ++ [id])) cs) ++ [Cgroup id (path ++ [id])] end.
Fixpoint descendants_pre (path : list Z) (t : cgtree) : list cgroup :=
  match t with CgNode id cs => Cgroup id (path ++ [id]) :: concat (map (descendants_pre (path ++ [id])) cs) end.

(** ** Data *)

(** [struct scx_cgroup_ctx]: the read-only and the read-write cache line. *)
Record cgx_ro : Type := CgxRo {
  xo_free_next : Z; xo_id : Z; xo_eff_parent_id : Z; xo_level : Z;
  xo_quota : Z; xo_period : Z; xo_burst : Z; xo_nquota : Z; xo_nquota_ub : Z;
}.
Record cgx_rw : Type := CgxRw {
  xw_is_throttled : bool; xw_nr_throttled_periods : Z; xw_was_throttled : bool;
  xw_nr_consec_throttled_periods : Z; xw_max_consec_throttled_periods : Z;
  xw_period_start_clk : Z; xw_burst_remaining : Z; xw_period_budget : Z;
  xw_runtime_total_sloppy : Z; xw_runtime_total_last : Z; xw_avg_consumption_rate : Z;
}.
Record scx_cgroup_ctx : Type := Cgx { cx_ro : cgx_ro; cx_rw : cgx_rw }.

(** [struct scx_cgroup_llc_ctx] *)
Record scx_cgroup_llc_ctx : Type := Llcx { lx_free_next : Z; lx_id : Z; lx_runtime_total : Z; lx_btq : Z }.

(** [struct scx_task_cgroup_bw], after its first member. *)
Record scx_task_cgroup_bw : Type := TaskBw {
  tb_bill_cgrp_id : Z; tb_cgx_raw : Z; tb_llcx_raw : Z; tb_bill_gen : Z; tb_pending_ns : Z; tb_last_llc_id : Z;
}.

(** [union backlog_stat] *)
Record backlog_stat : Type := BacklogStat { bs_rp_seq : Z; bs_nr_throttled_cgroups : Z; bs_has_throttled_tasks : Z }.
#[global] Instance backlog_stat_eq_dec : EqDecision backlog_stat.
Proof. solve_decision. Defined.

(** The maps and the variables of the file. *)
Record cbw : Type := Cbw {
  cb_cgrp_map : gmap Z Z;
  cb_llc_map : gmap (Z * Z) Z;
  cb_cgx : gmap Z scx_cgroup_ctx;
  cb_llcx : gmap Z scx_cgroup_llc_ctx;
  cb_tasks : gmap Z scx_task_cgroup_bw;
  cb_levels : list Z;
  cb_stat : backlog_stat;
  cb_cgroup_ids : list Z;
  cb_nr_cgroups : Z;
  cb_throttled_ids : list Z;
  cb_last_replenish_at : Z;
  cb_bill_gen : Z;
}.
Abbreviation BW X := (ST cbw X).

Definition with_cgx (f : gmap Z scx_cgroup_ctx → gmap Z scx_cgroup_ctx) (s : cbw) : cbw :=
  Cbw (cb_cgrp_map s) (cb_llc_map s) (f (cb_cgx s)) (cb_llcx s) (cb_tasks s) (cb_levels s) (cb_stat s) (cb_cgroup_ids s) (cb_nr_cgroups s) (cb_throttled_ids s) (cb_last_replenish_at s) (cb_bill_gen s).
Definition with_llcx (f : gmap Z scx_cgroup_llc_ctx → gmap Z scx_cgroup_llc_ctx) (s : cbw) : cbw :=
  Cbw (cb_cgrp_map s) (cb_llc_map s) (cb_cgx s) (f (cb_llcx s)) (cb_tasks s) (cb_levels s) (cb_stat s) (cb_cgroup_ids s) (cb_nr_cgroups s) (cb_throttled_ids s) (cb_last_replenish_at s) (cb_bill_gen s).
Definition with_tasks (f : gmap Z scx_task_cgroup_bw → gmap Z scx_task_cgroup_bw) (s : cbw) : cbw :=
  Cbw (cb_cgrp_map s) (cb_llc_map s) (cb_cgx s) (cb_llcx s) (f (cb_tasks s)) (cb_levels s) (cb_stat s) (cb_cgroup_ids s) (cb_nr_cgroups s) (cb_throttled_ids s) (cb_last_replenish_at s) (cb_bill_gen s).
Definition with_levels (f : list Z → list Z) (s : cbw) : cbw :=
  Cbw (cb_cgrp_map s) (cb_llc_map s) (cb_cgx s) (cb_llcx s) (cb_tasks s) (f (cb_levels s)) (cb_stat s) (cb_cgroup_ids s) (cb_nr_cgroups s) (cb_throttled_ids s) (cb_last_replenish_at s) (cb_bill_gen s).
Definition with_stat (v : backlog_stat) (s : cbw) : cbw :=
  Cbw (cb_cgrp_map s) (cb_llc_map s) (cb_cgx s) (cb_llcx s) (cb_tasks s) (cb_levels s) v (cb_cgroup_ids s) (cb_nr_cgroups s) (cb_throttled_ids s) (cb_last_replenish_at s) (cb_bill_gen s).
Definition with_ids (f : list Z → list Z) (n : Z) (s : cbw) : cbw :=
  Cbw (cb_cgrp_map s) (cb_llc_map s) (cb_cgx s) (cb_llcx s) (cb_tasks s) (cb_levels s) (cb_stat s) (f (cb_cgroup_ids s)) n (cb_throttled_ids s) (cb_last_replenish_at s) (cb_bill_gen s).
Definition with_throttled_ids (f : list Z → list Z) (s : cbw) : cbw :=
  Cbw (cb_cgrp_map s) (cb_llc_map s) (cb_cgx s) (cb_llcx s) (cb_tasks s) (cb_levels s) (cb_stat s) (cb_cgroup_ids s) (cb_nr_cgroups s) (f (cb_throttled_ids s)) (cb_last_replenish_at s) (cb_bill_gen s).
Definition with_last_replenish (t : Z) (s : cbw) : cbw :=
  Cbw (cb_cgrp_map s) (cb_llc_map s) (cb_cgx s) (cb_llcx s) (cb_tasks s) (cb_levels s) (cb_stat s) (cb_cgroup_ids s) (cb_nr_cgroups s) (cb_throttled_ids s) t (cb_bill_gen s).

Definition rdx (a : Z) : BW scx_cgroup_ctx := λ s, match cb_cgx s !! a with Some x => Some (x, s) | None => None end.
Definition wrx (a : Z) (f : scx_cgroup_ctx → scx_cgroup_ctx) : BW unit := x ← rdx a; modifies (with_cgx <[a := f x]>).
Definition rdl (a : Z) : BW scx_cgroup_llc_ctx := λ s, match cb_llcx s !! a with Some x => Some (x, s) | None => None end.
Definition wrl (a : Z) (f : scx_cgroup_llc_ctx → scx_cgroup_llc_ctx) : BW unit := x ← rdl a; modifies (with_llcx <[a := f x]>).
Definition rdb (a : Z) : BW scx_task_cgroup_bw := λ s, match cb_tasks s !! a with Some x => Some (x, s) | None => None end.
Definition wrb (a : Z) (f : scx_task_cgroup_bw → scx_task_cgroup_bw) : BW unit := x ← rdb a; modifies (with_tasks <[a := f x]>).

(** Stores to the fields. *)
Definition on_ro (f : cgx_ro → cgx_ro) (x : scx_cgroup_ctx) : scx_cgroup_ctx := Cgx (f (cx_ro x)) (cx_rw x).
Definition on_rw (f : cgx_rw → cgx_rw) (x : scx_cgroup_ctx) : scx_cgroup_ctx := Cgx (cx_ro x) (f (cx_rw x)).
Definition set_identity (id level eff : Z) (r : cgx_ro) : cgx_ro :=
  CgxRo (xo_free_next r) id eff level (xo_quota r) (xo_period r) (xo_burst r) (xo_nquota r) (xo_nquota_ub r).
Definition set_eff_parent (eff : Z) (r : cgx_ro) : cgx_ro := set_identity (xo_id r) (xo_level r) eff r.
Definition set_limits (quota period burst nquota : Z) (r : cgx_ro) : cgx_ro :=
  CgxRo (xo_free_next r) (xo_id r) (xo_eff_parent_id r) (xo_level r) quota period burst nquota (xo_nquota_ub r).
Definition set_nquota_ub (ub : Z) (r : cgx_ro) : cgx_ro :=
  CgxRo (xo_free_next r) (xo_id r) (xo_eff_parent_id r) (xo_level r) (xo_quota r) (xo_period r) (xo_burst r) (xo_nquota r) ub.
Definition set_throttled (b : bool) (w : cgx_rw) : cgx_rw :=
  CgxRw b (xw_nr_throttled_periods w) (xw_was_throttled w) (xw_nr_consec_throttled_periods w) (xw_max_consec_throttled_periods w)
    (xw_period_start_clk w) (xw_burst_remaining w) (xw_period_budget w) (xw_runtime_total_sloppy w) (xw_runtime_total_last w) (xw_avg_consumption_rate w).
Definition set_counts (nr : Z) (was : bool) (consec max_consec : Z) (w : cgx_rw) : cgx_rw :=
  CgxRw (xw_is_throttled w) nr was consec max_consec
    (xw_period_start_clk w) (xw_burst_remaining w) (xw_period_budget w) (xw_runtime_total_sloppy w) (xw_runtime_total_last w) (xw_avg_consumption_rate w).
Definition set_period_start (t : Z) (w : cgx_rw) : cgx_rw :=
  CgxRw (xw_is_throttled w) (xw_nr_throttled_periods w) (xw_was_throttled w) (xw_nr_consec_throttled_periods w) (xw_max_consec_throttled_periods w)
    t (xw_burst_remaining w) (xw_period_budget w) (xw_runtime_total_sloppy w) (xw_runtime_total_last w) (xw_avg_consumption_rate w).
Definition set_burst_remaining (v : Z) (w : cgx_rw) : cgx_rw :=
  CgxRw (xw_is_throttled w) (xw_nr_throttled_periods w) (xw_was_throttled w) (xw_nr_consec_throttled_periods w) (xw_max_consec_throttled_periods w)
    (xw_period_start_clk w) v (xw_period_budget w) (xw_runtime_total_sloppy w) (xw_runtime_total_last w) (xw_avg_consumption_rate w).
Definition set_period_budget (v : Z) (w : cgx_rw) : cgx_rw :=
  CgxRw (xw_is_throttled w) (xw_nr_throttled_periods w) (xw_was_throttled w) (xw_nr_consec_throttled_periods w) (xw_max_consec_throttled_periods w)
    (xw_period_start_clk w) (xw_burst_remaining w) v (xw_runtime_total_sloppy w) (xw_runtime_total_last w) (xw_avg_consumption_rate w).
Definition set_runtime (sloppy last : Z) (w : cgx_rw) : cgx_rw :=
  CgxRw (xw_is_throttled w) (xw_nr_throttled_periods w) (xw_was_throttled w) (xw_nr_consec_throttled_periods w) (xw_max_consec_throttled_periods w)
    (xw_period_start_clk w) (xw_burst_remaining w) (xw_period_budget w) sloppy last (xw_avg_consumption_rate w).
Definition set_avg (v : Z) (w : cgx_rw) : cgx_rw :=
  CgxRw (xw_is_throttled w) (xw_nr_throttled_periods w) (xw_was_throttled w) (xw_nr_consec_throttled_periods w) (xw_max_consec_throttled_periods w)
    (xw_period_start_clk w) (xw_burst_remaining w) (xw_period_budget w) (xw_runtime_total_sloppy w) (xw_runtime_total_last w) v.
Definition set_runtime_total (v : Z) (l : scx_cgroup_llc_ctx) : scx_cgroup_llc_ctx := Llcx (lx_free_next l) (lx_id l) v (lx_btq l).
Definition set_pending (v : Z) (t : scx_task_cgroup_bw) : scx_task_cgroup_bw :=
  TaskBw (tb_bill_cgrp_id t) (tb_cgx_raw t) (tb_llcx_raw t) (tb_bill_gen t) v (tb_last_llc_id t).
Definition set_bill (v : Z) (t : scx_task_cgroup_bw) : scx_task_cgroup_bw :=
  TaskBw v (tb_cgx_raw t) (tb_llcx_raw t) (tb_bill_gen t) (tb_pending_ns t) (tb_last_llc_id t).
Definition set_cgx_raw (v : Z) (t : scx_task_cgroup_bw) : scx_task_cgroup_bw :=
  TaskBw (tb_bill_cgrp_id t) v (tb_llcx_raw t) (tb_bill_gen t) (tb_pending_ns t) (tb_last_llc_id t).
Definition set_llcx_raw (v llc : Z) (t : scx_task_cgroup_bw) : scx_task_cgroup_bw :=
  TaskBw (tb_bill_cgrp_id t) (tb_cgx_raw t) v (tb_bill_gen t) (tb_pending_ns t) llc.
Definition drop_billing (gen : Z) (t : scx_task_cgroup_bw) : scx_task_cgroup_bw :=
  TaskBw 0 0 0 gen (tb_pending_ns t) (tb_last_llc_id t).

Definition cmax (x y : Z) : Z := if x <? y then y else x.
Definition cmin (x y : Z) : Z := if x <? y then x else y.
Definition cclamp (val lo hi : Z) : Z := cmin (cmax val lo) hi.

(** [__calc_avg] of [scx/common.bpf.h], on [u64]. *)
Definition calc_avg (old new decay : Z) : Z :=
  let thr := Z.shiftl 1 decay in
  if (old <? thr) || (new <? thr) then
    if (old =? 1) && (new =? 0) then 0 else u64 (u64 (old - Z.shiftr old 1) + Z.shiftr new 1)
  else u64 (u64 (old - Z.shiftr old decay) + Z.shiftr new decay).

(** [div_round_up] on [u64]; BPF division by zero gives zero, as [Z.div] does. *)
Definition div_round_up (a b : Z) : Z := u64 (u64 (a + b) - 1) / b.

Section funs.
Context (conf : cbw_conf).

(** ** Contexts of cgroups *)
Definition cbw_get_cgroup_ctx_raw (cgrp_id : Z) : BW Z := gets (λ s, default NULL (cb_cgrp_map s !! cgrp_id)).
Definition cbw_get_cgroup_ctx_with_id (cgrp_id : Z) : BW Z := cbw_get_cgroup_ctx_raw cgrp_id.
Definition cbw_get_cgroup_ctx (cgrp : cgroup) : BW Z := cbw_get_cgroup_ctx_raw (cg_id cgrp).
Definition cbw_get_llc_ctx_raw_with_id (cgrp_id llc_id : Z) : BW Z := gets (λ s, default NULL (cb_llc_map s !! (cgrp_id, llc_id))).
Definition cbw_get_llc_ctx (cgrp : cgroup) (llc_id : Z) : BW Z := cbw_get_llc_ctx_raw_with_id (cg_id cgrp) llc_id.

(** The id of the ancestor. *)
Definition cbw_cgroup_ancestor (cgrp : cgroup) (ancestor_level : Z) : option Z :=
  if (ancestor_level <? 0) || (cg_level cgrp <? ancestor_level) then None else cg_path cgrp !! Z.to_nat ancestor_level.

(** [bpf_for(i, 1, level - cbw_root_level + 1)], [n] rounds left. *)
Fixpoint eff_parent_loop (n : nat) (i : Z) (cgrp : cgroup) : BW Z :=
  match n with
  | O => mret 0
  | S n =>
      match cbw_cgroup_ancestor cgrp (cg_level cgrp - i) with
      | None => mret 0
      | Some anc =>
          x ← cbw_get_cgroup_ctx_raw anc;
          let id := if negb (x =? NULL) then anc else 0 in
          if negb (id =? 0) then mret id else eff_parent_loop n (i + 1) cgrp
      end
  end.
Definition cbw_eff_parent_cgid (cgrp : cgroup) : BW Z :=
  eff_parent_loop (Z.to_nat (cg_level cgrp - cf_root_level conf)) 1 cgrp.

Definition cbw_resolve_bill_cgid (cgrp : cgroup) : BW Z :=
  x ← cbw_get_cgroup_ctx cgrp;
  bill ← (if negb (x =? NULL) then mret (cg_id cgrp) else cbw_eff_parent_cgid cgrp);
  mret (if negb (bill =? 0) then bill else cf_root_cgid conf).

(** ** Billing *)

(** [taskc] may be [NULL].  [p] is [None] for [NULL], else what [cbw_task_cgroup(p)] reads
    of the task. *)
Definition cbw_bill_task (taskc : Z) (p : option (option cgroup)) : BW Z :=
  cached ← (if negb (taskc =? NULL) then t ← rdb taskc; mret (tb_bill_cgrp_id t) else mret 0);
  if negb (cached =? 0) then mret cached else
  match p with
  | None => mret 0
  | Some cgrp =>
      bill ← match cgrp with Some c => cbw_resolve_bill_cgid c | None => mret (cf_root_cgid conf) end;
      (if negb (taskc =? NULL) then wrb taskc (set_bill bill) else mret tt);;
      mret bill
  end.

Definition cbw_sync_bill_gen (taskc : Z) : BW unit :=
  gen ← gets cb_bill_gen;
  t ← rdb taskc;
  if negb (tb_bill_gen t =? gen) then wrb taskc (drop_billing gen) else mret tt.

Definition cbw_billed_throttled (bill_id taskc : Z) : BW Z :=
  if (bill_id =? cf_root_cgid conf) || (bill_id =? 0) then mret 0 else
  cached ← (if negb (taskc =? NULL) then t ← rdb taskc; mret (tb_cgx_raw t) else mret 0);
  cgx_raw ← (if negb (cached =? 0) then mret cached else
               x ← cbw_get_cgroup_ctx_raw bill_id;
               (if negb (x =? NULL) && negb (taskc =? NULL) then wrb taskc (set_cgx_raw x) else mret tt);;
               mret x);
  if cgx_raw =? NULL then mret (- ESRCH) else
  x ← rdx cgx_raw;
  mret (if xw_is_throttled (cx_rw x) then - EAGAIN else 0).

(** [exiting]: whether [PF_EXITING] is set in [p->flags]. *)
Definition scx_cgroup_bw_throttled (p : option (option cgroup)) (exiting : bool) (taskc : Z) : BW Z :=
  if (match p with Some _ => exiting | None => false end) then mret 0 else
  if taskc =? NULL then mret 0 else
  cbw_sync_bill_gen taskc;;
  t ← rdb taskc;
  if tb_bill_cgrp_id t =? cf_root_cgid conf then mret 0 else
  bill ← cbw_bill_task taskc p;
  cbw_billed_throttled bill taskc.

(** [cur_llc] is what [cbw_get_current_llc_id()] returns. *)
Definition consume_charge (taskc cgx_raw cur_llc consumed_ns carry : Z) : BW Z :=
  x ← rdx cgx_raw;
  if xo_nquota_ub (cx_ro x) =? CBW_RUNTUME_INF then mret 0 else
  if cur_llc <? 0 then mret (- EINVAL) else
  t ← rdb taskc;
  llcx ← (if negb (tb_llcx_raw t =? 0) && (tb_last_llc_id t =? cur_llc) then mret (tb_llcx_raw t) else
            raw ← cbw_get_llc_ctx_raw_with_id (xo_id (cx_ro x)) cur_llc;
            (if negb (raw =? NULL) then wrb taskc (set_llcx_raw raw cur_llc) else mret tt);;
            mret raw);
  if llcx =? NULL then mret 0 else
  wrl llcx (λ l, set_runtime_total (s64 (lx_runtime_total l + u64 (consumed_ns + carry))) l);;
  mret 0.
Definition scx_cgroup_bw_consume (p : option (option cgroup)) (taskc consumed_ns cur_llc : Z) : BW Z :=
  if taskc =? NULL then mret 0 else
  cbw_sync_bill_gen taskc;;
  t ← rdb taskc;
  carry ← (if negb (tb_pending_ns t =? 0) then wrb taskc (set_pending 0);; mret (tb_pending_ns t) else mret 0);
  t ← rdb taskc;
  if tb_bill_cgrp_id t =? cf_root_cgid conf then mret 0 else
  if negb (tb_cgx_raw t =? 0) then consume_charge taskc (tb_cgx_raw t) cur_llc consumed_ns carry else
  bill_id ← cbw_bill_task taskc p;
  if bill_id =? 0 then
    wrb taskc (λ t, set_pending (u64 (tb_pending_ns t + u64 (carry + consumed_ns))) t);;
    mret 0
  else
  if bill_id =? cf_root_cgid conf then mret 0 else
  cgx_raw ← cbw_get_cgroup_ctx_raw bill_id;
  if cgx_raw =? NULL then mret 0 else
  wrb taskc (set_cgx_raw cgx_raw);;
  consume_charge taskc cgx_raw cur_llc consumed_ns carry.

(** What [scx_cgroup_bw_move] does to the accounting of the task, before it looks for it in the backlog queues; [from] is the cgroup it leaves. *)
Definition move_billing (from : cgroup) (taskc cur_llc : Z) : BW unit :=
  if taskc =? NULL then mret tt else
  t ← rdb taskc;
  let carry := tb_pending_ns t in
  wrb taskc (set_pending 0);;
  (if carry =? 0 then mret tt else
     t ← rdb taskc;
     llcx ← (if negb (tb_llcx_raw t =? 0) then mret (tb_llcx_raw t) else
               cgx_raw ← (if negb (tb_cgx_raw t =? 0) then mret (tb_cgx_raw t) else
                            bill ← cbw_resolve_bill_cgid from; cbw_get_cgroup_ctx_raw bill);
               if negb (cgx_raw =? NULL) && (0 <=? cur_llc) then
                 x ← rdx cgx_raw; cbw_get_llc_ctx_raw_with_id (xo_id (cx_ro x)) cur_llc
               else mret NULL);
     if llcx =? NULL then mret tt else
     wrl llcx (λ l, set_runtime_total (s64 (lx_runtime_total l + carry)) l));;
  wrb taskc (λ t, drop_billing (tb_bill_gen t) t).

(** ** Quotas *)

(** [now] is [scx_bpf_now()]. *)
Definition cbw_set_bandwidth (now cgx_raw period_us quota_us burst_us : Z) : BW Z :=
  wrx cgx_raw (on_rw (set_period_start now));;
  (if quota_us =? CBW_RUNTUME_INF_RAW then
     wrx cgx_raw (on_ro (set_limits CBW_RUNTUME_INF_RAW (u64 (period_us * 1000)) 0 CBW_RUNTUME_INF))
   else
     wrx cgx_raw (on_ro (set_limits (u64 (quota_us * 1000)) (u64 (period_us * 1000)) (u64 (burst_us * 1000))
       (div_round_up (u64 (quota_us * CBW_REPLENISH_PERIOD)) period_us))));;
  wrx cgx_raw (λ x, on_rw (set_burst_remaining (s64 (xo_burst (cx_ro x)))) x);;
  mret 0.

Definition cbw_update_nquota_ub (cgx_raw : Z) : BW Z :=
  if cgx_raw =? NULL then mret (- EINVAL) else
  x ← rdx cgx_raw;
  eff_parentx ← cbw_get_cgroup_ctx_with_id (xo_eff_parent_id (cx_ro x));
  ub ← (if negb (eff_parentx =? NULL) then px ← rdx eff_parentx; mret (cmin (xo_nquota (cx_ro x)) (xo_nquota_ub (cx_ro px)))
        else mret (xo_nquota (cx_ro x)));
  wrx cgx_raw (on_ro (set_nquota_ub ub));;
  mret 0.

Definition cbw_init_cgx (now : Z) (cgrp : cgroup) (cgx_raw period_us quota_us burst_us : Z) : BW unit :=
  eff ← cbw_eff_parent_cgid cgrp;
  wrx cgx_raw (on_ro (set_identity (cg_id cgrp) (cg_level cgrp) eff));;
  cbw_set_bandwidth now cgx_raw period_us quota_us burst_us;;
  cbw_update_nquota_ub cgx_raw;;
  wrx cgx_raw (λ x, on_rw (set_runtime 0 (xw_runtime_total_last (cx_rw x))) x);;
  wrx cgx_raw (λ x, on_rw (set_period_budget (s64 (xo_nquota_ub (cx_ro x)))) x);;
  wrx cgx_raw (on_rw (set_throttled false)).

(** The walks over a subtree of [cbw_repoint_subtree] and [scx_cgroup_bw_set]. *)
Fixpoint repoint_loop (l : list cgroup) (self_id from_id to_id : Z) : BW Z :=
  match l with
  | [] => mret 0
  | c :: l =>
      a ← cbw_get_cgroup_ctx_with_id (cg_id c);
      if a =? NULL then repoint_loop l self_id from_id to_id else
      x ← rdx a;
      if negb (xo_id (cx_ro x) =? cg_id c) then repoint_loop l self_id from_id to_id else
      (if negb (cg_id c =? self_id) && (xo_eff_parent_id (cx_ro x) =? from_id) then wrx a (on_ro (set_eff_parent to_id)) else mret tt);;
      ret ← cbw_update_nquota_ub a;
      if negb (ret =? 0) then mret ret else repoint_loop l self_id from_id to_id
  end.
Definition cbw_repoint_subtree (path : list Z) (t : cgtree) (from_id to_id : Z) : BW Z :=
  match t with CgNode self_id _ => repoint_loop (descendants_pre path t) self_id from_id to_id end.

Fixpoint update_ub_loop (l : list cgroup) : BW Z :=
  match l with
  | [] => mret 0
  | c :: l =>
      a ← cbw_get_cgroup_ctx_raw (cg_id c);
      if a =? NULL then update_ub_loop l else
      ret ← cbw_update_nquota_ub a;
      if negb (ret =? 0) then mret ret else update_ub_loop l
  end.

(** ** Accounting *)
Fixpoint sum_llcx_loop (n : nat) (i : Z) (cgrp : cgroup) (sum : Z) : BW Z :=
  match n with
  | O => mret sum
  | S n =>
      llcx ← cbw_get_llc_ctx cgrp i;
      if llcx =? NULL then sum_llcx_loop n (i + 1) cgrp sum else
      l ← rdl llcx;
      sum_llcx_loop n (i + 1) cgrp (s64 (sum + lx_runtime_total l))
  end.
Definition cbw_sum_rumtime_total_llcx (cgrp : cgroup) : BW Z := sum_llcx_loop (cf_nr_llc conf) 0 cgrp 0.

Definition tree_level (level : Z) : BW (option Z) := gets (λ s, if level <? 0 then None else cb_levels s !! Z.to_nat level).
Definition set_tree_level (level v : Z) : BW unit := modifies (with_levels <[Z.to_nat level := v]>).

(** [bpf_for(l, 0, tree_height_max)] *)
Fixpoint clean_loop (n : nat) (l : Z) : BW Z :=
  match n with
  | O => mret 0
  | S n =>
      lv ← tree_level l;
      match lv with
      | None => mret (- ENOMEM)
      | Some _ => set_tree_level l 0;; clean_loop n (l + 1)
      end
  end.
Definition clean_tree_levels : BW Z := clean_loop (Z.to_nat (cf_height_max conf)) 0.

(** [bpf_for(l, level + 1, tree_height_max)] *)
Fixpoint absorb_loop (n : nat) (l sum : Z) : BW Z :=
  match n with
  | O => mret sum
  | S n =>
      lv ← tree_level l;
      match lv with
      | None => absorb_loop n (l + 1) sum
      | Some v => set_tree_level l 0;; absorb_loop n (l + 1) (s64 (sum + v))
      end
  end.
Definition tree_absorb_deeper (level : Z) : BW Z := absorb_loop (Z.to_nat (cf_height_max conf - (level + 1))) (level + 1) 0.

(** One cgroup of the post-order walk. *)
Definition rollup_one (c : cgroup) : BW unit :=
  if cf_height_max conf <=? cg_level c then mret tt else
  cur_cgx ← cbw_get_cgroup_ctx c;
  rt_llcx ← (if negb (cur_cgx =? NULL) then cbw_sum_rumtime_total_llcx c else mret 0);
  deeper ← tree_absorb_deeper (cg_level c);
  let rts := s64 (rt_llcx + deeper) in
  lv ← tree_level (cg_level c);
  match lv with Some v => set_tree_level (cg_level c) (s64 (v + rts)) | None => mret tt end;;
  if cur_cgx =? NULL then mret tt else
  wrx cur_cgx (λ x, on_rw (set_runtime rts (xw_runtime_total_last (cx_rw x))) x);;
  x ← rdx cur_cgx;
  if xw_period_budget (cx_rw x) <=? rts then wrx cur_cgx (on_rw (set_throttled true)) else mret tt.

(** The walk; the [break] at the root also asks [can_loop]. *)
Fixpoint rollup_loop (cl : nat) (l : list cgroup) : BW unit :=
  match l with
  | [] => mret tt
  | c :: l =>
      match cl with
      | S cl => if cg_level c =? cf_root_level conf then mret tt else rollup_one c;; rollup_loop cl l
      | O => rollup_one c;; rollup_loop O l
      end
  end.
Definition cbw_update_runtime_total_sloppy (cl : nat) (path : list Z) (t : cgtree) : BW Z :=
  ret ← clean_tree_levels;
  if negb (ret =? 0) then mret ret else
  rollup_loop cl (descendants_post path t);;
  mret 0.

(** ** Throttling *)
Definition cbw_top_half_running : BW bool := gets (λ s, negb (Z.land (bs_rp_seq (cb_stat s)) 1 =? 0)).

(** The ancestors from level [anc] on; a level below 0 is [NULL]. *)
Fixpoint ancestor_loop (n : nat) (anc : Z) (cgrp : cgroup) (cur_cgx : Z) : BW unit :=
  match n with
  | O => mret tt
  | S n =>
      match cbw_cgroup_ancestor cgrp anc with
      | None => mret tt
      | Some id =>
          if anc <=? cf_root_level conf then mret tt else
          a ← cbw_get_cgroup_ctx_raw id;
          thr ← (if negb (a =? NULL) then x ← rdx a; mret (xw_is_throttled (cx_rw x)) else mret false);
          if (thr : bool) then wrx cur_cgx (on_rw (set_throttled true)) else ancestor_loop n (anc - 1) cgrp cur_cgx
      end
  end.
Definition time_to_throttle (w : cgx_rw) : option Z :=
  if negb (xw_is_throttled w) && (0 <? xw_avg_consumption_rate w) then
    let remaining := s64 (xw_period_budget w - xw_runtime_total_sloppy w) in
    if 0 <? remaining then Some (u64 (remaining * CBW_SCALE) / xw_avg_consumption_rate w) else None
  else None.
Fixpoint throttle_loop (l : list cgroup) (min_time : Z) : BW Z :=
  match l with
  | [] => mret min_time
  | c :: l =>
      cur_cgx ← cbw_get_cgroup_ctx c;
      if cur_cgx =? NULL then throttle_loop l min_time else
      x ← rdx cur_cgx;
      if xo_nquota_ub (cx_ro x) =? CBW_RUNTUME_INF then throttle_loop l min_time else
      if xw_is_throttled (cx_rw x) then throttle_loop l min_time else
      running ← cbw_top_half_running;
      if (running : bool) then mret CBW_U64_MAX else
      ancestor_loop (Z.to_nat (cf_height_max conf)) (cg_level c - 1) c cur_cgx;;
      x ← rdx cur_cgx;
      throttle_loop l (match time_to_throttle (cx_rw x) with Some t => if t <? min_time then t else min_time | None => min_time end)
  end.
Definition cbw_throttle_cgroups (path : list Z) (t : cgtree) : BW Z :=
  min_time ← throttle_loop (descendants_post path t) CBW_U64_MAX;
  mret (cclamp (min_time / CBW_ACCOUNTING_PERIOD_DIVISOR) CBW_ACCOUNTING_PERIOD_MIN CBW_ACCOUNTING_PERIOD_MAX).

(** [root]: the cgroup that [cbw_get_root_cgrp()] finds, with the path to it.  The result is
    the interval the timer is armed with. *)
Definition accounting_timerfn (cl : nat) (root : option (list Z * cgtree)) : BW Z :=
  match root with
  | None => mret CBW_ACCOUNTING_PERIOD_MAX
  | Some (path, t) =>
      running ← cbw_top_half_running;
      if (running : bool) then mret CBW_ACCOUNTING_PERIOD_MAX else
      cbw_update_runtime_total_sloppy cl path t;;
      cbw_throttle_cgroups path t
  end.

(** ** Replenishment *)
Fixpoint backlogged_loop (n : nat) (i : Z) (nr_queued : Z → Z) (id : Z) : BW bool :=
  match n with
  | O => mret false
  | S n =>
      llcx ← cbw_get_llc_ctx_raw_with_id id i;
      if llcx =? NULL then backlogged_loop n (i + 1) nr_queued id else
      l ← rdl llcx;
      if negb (nr_queued (lx_btq l) =? 0) then mret true else backlogged_loop n (i + 1) nr_queued id
  end.
Definition cbw_has_backlogged_tasks (nr_queued : Z → Z) (cgx : Z) : BW bool :=
  if cgx =? NULL then mret false else
  x ← rdx cgx;
  backlogged_loop (cf_nr_llc conf) 0 nr_queued (xo_id (cx_ro x)).

(** Debt and credit of the interval that ended. *)
Definition period_debt (w : cgx_rw) : Z := cmax (s64 (xw_runtime_total_last w - xw_period_budget w)) 0.
Definition period_credit (x : scx_cgroup_ctx) : Z :=
  cclamp (s64 (s64 (xo_nquota (cx_ro x)) - xw_runtime_total_last (cx_rw x))) 0 (xw_burst_remaining (cx_rw x)).
(** The replenished fields. *)
Definition replenish_ctx (now : Z) (x : scx_cgroup_ctx) : scx_cgroup_ctx :=
  let period_end := xo_period (cx_ro x) <=? time_delta now (xw_period_start_clk (cx_rw x)) in
  let x := if period_end then on_rw (set_period_start now) x else x in
  let debt := period_debt (cx_rw x) in
  let burst_credit := period_credit x in
  let x := on_rw (set_burst_remaining (if period_end then s64 (xo_burst (cx_ro x)) else s64 (xw_burst_remaining (cx_rw x) - burst_credit))) x in
  let x := on_rw (set_period_budget (s64 (s64 (s64 (xo_nquota_ub (cx_ro x)) + burst_credit) - debt))) x in
  if 0 <? xw_runtime_total_last (cx_rw x) then
    let rate := u64 (xw_runtime_total_last (cx_rw x) * CBW_SCALE) / CBW_REPLENISH_PERIOD in
    on_rw (set_avg (calc_avg (xw_avg_consumption_rate (cx_rw x)) rate CBW_CONSUMPTION_RATE_DECAY)) x
  else x.
Definition cbw_replenish_cgroup (nr_queued : Z → Z) (cgx now : Z) : BW bool :=
  x ← rdx cgx;
  keep_throttled ← (if xo_nquota_ub (cx_ro x) =? CBW_RUNTUME_INF then mret false else
                      wrx cgx (replenish_ctx now);;
                      x ← rdx cgx;
                      mret (xw_period_budget (cx_rw x) <=? 0));
  x ← rdx cgx;
  let was_throttled := xw_is_throttled (cx_rw x) in
  wrx cgx (on_rw (set_throttled keep_throttled));;
  if was_throttled || keep_throttled then mret true else cbw_has_backlogged_tasks nr_queued cgx.

(** ** The top half *)

(** [++rp_seq], with other fields or the old ones; [env] is what others do before the
    compare-and-swap. *)
Fixpoint stat_loop (cl : nat) (env : nat → cbw → cbw) (f : backlog_stat → backlog_stat) (old : backlog_stat) : BW unit :=
  modifies (env cl);;
  ret ← gets cb_stat;
  if bool_decide (ret = old) then modifies (with_stat (f old))
  else match cl with O => mret tt | S cl => stat_loop cl env f ret end.
Definition next_seq (v : backlog_stat) : backlog_stat :=
  BacklogStat (u32 (bs_rp_seq v + 1)) (bs_nr_throttled_cgroups v) (bs_has_throttled_tasks v).
Definition end_seq (nr has : Z) (v : backlog_stat) : backlog_stat := BacklogStat (u32 (bs_rp_seq v + 1)) (u16 nr) (u16 has).
Definition cbw_top_half_begin (cl : nat) (env : nat → cbw → cbw) : BW unit := old ← gets cb_stat; stat_loop cl env next_seq old.
Definition cbw_top_half_abort (cl : nat) (env : nat → cbw → cbw) : BW unit := cbw_top_half_begin cl env.
Definition cbw_top_half_end (cl : nat) (env : nat → cbw → cbw) (nr has : Z) : BW unit := old ← gets cb_stat; stat_loop cl env (end_seq nr has) old.

(** *** The replenish timer *)
Fixpoint reset_llcx (n : nat) (i : Z) (cgrp : cgroup) : BW unit :=
  match n with
  | O => mret tt
  | S n =>
      a ← cbw_get_llc_ctx cgrp i;
      (if negb (a =? NULL) then wrl a (set_runtime_total 0) else mret tt);;
      reset_llcx n (i + 1) cgrp
  end.
Fixpoint reset_loop (l : list cgroup) : BW unit :=
  match l with
  | [] => mret tt
  | c :: l =>
      a ← cbw_get_cgroup_ctx c;
      if a =? NULL then reset_loop l else
      reset_llcx (cf_nr_llc conf) 0 c;;
      wrx a (λ x, on_rw (set_runtime 0 (xw_runtime_total_sloppy (cx_rw x))) x);;
      reset_loop l
  end.

(** The table of the cgroups with a context, in pre-order. *)
Fixpoint collect_loop (l : list cgroup) : BW unit :=
  match l with
  | [] => mret tt
  | c :: l =>
      a ← cbw_get_cgroup_ctx c;
      if a =? NULL then collect_loop l else
      slot ← gets cb_nr_cgroups;
      ids ← gets cb_cgroup_ids;
      match ids !! Z.to_nat slot with
      | None => collect_loop l
      | Some _ => modifies (with_ids <[Z.to_nat slot := cg_id c]> (slot + 1));; collect_loop l
      end
  end.

(** The counters of throttled periods. *)
Definition count_throttled (w : cgx_rw) : cgx_rw :=
  let thr := xw_is_throttled w in
  if thr then
    let consec := if xw_was_throttled w then u32 (xw_nr_consec_throttled_periods w + 1) else xw_nr_consec_throttled_periods w in
    let longest := if xw_was_throttled w && (xw_max_consec_throttled_periods w <? consec) then consec else xw_max_consec_throttled_periods w in
    set_counts (u32 (xw_nr_throttled_periods w + 1)) thr consec longest w
  else set_counts (xw_nr_throttled_periods w) thr 0 (xw_max_consec_throttled_periods w) w.

(** [bpf_for(i, 0, cbw_nr_cgroups)]: the number of throttled cgroups. *)
Fixpoint replenish_loop (n : nat) (i : Z) (nr_queued : Z → Z) (now nr_throttled : Z) : BW Z :=
  match n with
  | O => mret nr_throttled
  | S n =>
      ids ← gets cb_cgroup_ids;
      match ids !! Z.to_nat i with
      | None => replenish_loop n (i + 1) nr_queued now nr_throttled
      | Some id =>
          a ← cbw_get_cgroup_ctx_with_id id;
          if a =? NULL then replenish_loop n (i + 1) nr_queued now nr_throttled else
          wrx a (on_rw count_throttled);;
          again ← cbw_replenish_cgroup nr_queued a now;
          if (again : bool) then
            tids ← gets cb_throttled_ids;
            match tids !! Z.to_nat nr_throttled with
            | None => replenish_loop n (i + 1) nr_queued now nr_throttled
            | Some _ =>
                x ← rdx a;
                modifies (with_throttled_ids <[Z.to_nat nr_throttled := xo_id (cx_ro x)]>);;
                replenish_loop n (i + 1) nr_queued now (nr_throttled + 1)
            end
          else replenish_loop n (i + 1) nr_queued now nr_throttled
      end
  end.

(** When the timer is armed next. *)
Definition next_period (now last : Z) : Z :=
  let interval := time_delta now last in
  let jitter := time_delta interval CBW_REPLENISH_PERIOD in
  cmax (time_delta CBW_REPLENISH_PERIOD jitter) CBW_REPLENISH_PERIOD_MIN.

(** [root], [root2]: what the two calls of [cbw_get_root_cgrp()] return.  The result is
    the period the timer is armed with; the idle CPU is kicked through
    the kernel. *)
Definition replenish_timerfn (cl : nat) (env : nat → cbw → cbw) (root root2 : option (list Z * cgtree)) (nr_queued : Z → Z) (now : Z) : BW Z :=
  cbw_top_half_begin cl env;;
  match root with
  | None => cbw_top_half_abort cl env
  | Some (path, t) =>
      cbw_update_runtime_total_sloppy cl path t;;
      reset_loop (descendants_post path t);;
      modifies (λ s, with_ids id 0 s);;
      collect_loop (descendants_pre path t);;
      n ← gets cb_nr_cgroups;
      nr_throttled ← replenish_loop (Z.to_nat n) 0 nr_queued now 0;
      if 0 <? nr_throttled then
        cbw_top_half_end cl env nr_throttled 1;;
        match root2 with Some (path, t) => cbw_throttle_cgroups path t;; mret tt | None => mret tt end
      else cbw_top_half_end cl env 0 0
  end;;
  last ← gets cb_last_replenish_at;
  modifies (with_last_replenish now);;
  mret (next_period now last).

(** ** A new limit *)

(** [scx_cgroup_bw_set] on a cgroup that has a context or needs none. *)
Definition bw_set_managed (now cgx_raw : Z) (path : list Z) (t : cgtree) (period_us quota_us burst_us : Z) : BW Z :=
  cbw_set_bandwidth now cgx_raw period_us quota_us burst_us;;
  update_ub_loop (descendants_pre path t).
End funs.
