(* ===== verification/CgroupBwRoll.v ===== *)
(** * The roll-up of the times

    The post-order walk with one accumulator per level computes, for every cgroup, the time of its whole
    subtree. *)

From S2P Require Import Prelude ScxTime Wp CgroupBw.

(** ** Signed words *)
Lemma s64_congr a b : a mod two64 = b mod two64 → s64 a = s64 b.
Proof. intros E. unfold s64. by rewrite E. Qed.
Lemma s64_residue a : s64 a mod two64 = a mod two64.
Proof.
  unfold s64. destruct (a mod two64 <? two63); [by rewrite Zmod_mod|]. rewrite <-(Z_mod_plus_full (a mod two64 - two64) 1), Z.mul_1_l, Z.sub_add. by rewrite Zmod_mod.
Qed.
Lemma s64_add a b : s64 (s64 a + s64 b) = s64 (a + b).
Proof. apply s64_congr. by rewrite Zplus_mod, !s64_residue, <-Zplus_mod. Qed.
Lemma s64_add_l a b : s64 (s64 a + b) = s64 (a + b).
Proof. apply s64_congr. by rewrite Zplus_mod, s64_residue, <-Zplus_mod. Qed.
Lemma s64_add_r a b : s64 (a + s64 b) = s64 (a + b).
Proof. by rewrite Z.add_comm, s64_add_l, Z.add_comm. Qed.
Lemma s64_idemp a : s64 (s64 a) = s64 a.
Proof. apply s64_congr, s64_residue. Qed.

(** ** Trees *)
Lemma cgtree_ind' (P : cgtree → Prop) : (∀ id cs, Forall P cs → P (CgNode id cs)) → ∀ t, P t.
Proof.
  intros Hn. fix IH 1. intros [id cs]. apply Hn. induction cs as [|c cs IHcs]; constructor; [apply IH|exact IHcs].
Qed.

(** [t'] is in [t], below [path']. *)
Inductive occurs : list Z → cgtree → list Z → cgtree → Prop :=
  | occurs_here path t : occurs path t path t
  | occurs_below path id cs c path' t' : c ∈ cs → occurs (path ++ [id]) c path' t' → occurs path (CgNode id cs) path' t'.
Definition root_id (t : cgtree) : Z := match t with CgNode id _ => id end.
Definition ids_of (path : list Z) (t : cgtree) : list Z := cg_id <$> descendants_post path t.

Lemma elem_of_concat {X} (x : X) (ls : list (list X)) : x ∈ concat ls ↔ ∃ l, x ∈ l ∧ l ∈ ls.
Proof. rewrite list_elem_of_In, in_concat. setoid_rewrite list_elem_of_In. naive_solver. Qed.

Lemma post_unfold path id cs : descendants_post path (CgNode id cs) = concat (descendants_post (path ++ [id]) <$> cs) ++ [Cgroup id (path ++ [id])].
Proof. done. Qed.
Lemma pre_unfold path id cs : descendants_pre path (CgNode id cs) = Cgroup id (path ++ [id]) :: concat (descendants_pre (path ++ [id]) <$> cs).
Proof. done. Qed.

Lemma occurs_post path t path' t' : occurs path t path' t' → Cgroup (root_id t') (path' ++ [root_id t']) ∈ descendants_post path t.
Proof.
  induction 1 as [path [id cs]|path id cs c path' t' Hc Ho IH]; rewrite post_unfold, elem_of_app.
  - right. by apply list_elem_of_singleton.
  - left. apply elem_of_concat. exists (descendants_post (path ++ [id]) c). split; [done|]. by apply list_elem_of_fmap_2.
Qed.
Lemma post_occurs path t c : c ∈ descendants_post path t → ∃ path' t', occurs path t path' t' ∧ c = Cgroup (root_id t') (path' ++ [root_id t']).
Proof.
  revert path. induction t as [id cs IH] using cgtree_ind'. intros path. rewrite post_unfold, elem_of_app. intros [Hc|Hc].
  - apply elem_of_concat in Hc as (l & Hc & Hl). apply list_elem_of_fmap in Hl as (t & -> & Ht). rewrite Forall_forall in IH.
    destruct (IH t Ht _ Hc) as (path' & t' & Ho & ->). exists path', t'. split; [by econstructor|done].
  - apply list_elem_of_singleton in Hc as ->. exists path, (CgNode id cs). split; [constructor|done].
Qed.
Lemma occurs_path path t path' t' : occurs path t path' t' → ∃ q, path' = path ++ q.
Proof.
  induction 1 as [path t|path id cs c path' t' Hc Ho [q ->]]; [exists []; by rewrite app_nil_r|]. exists (id :: q). by rewrite <-app_assoc.
Qed.
Lemma cg_level_of id path : cg_level (Cgroup id (path ++ [id])) = Z.of_nat (length path).
Proof. unfold cg_level. simpl. rewrite length_app. simpl. lia. Qed.

(** ** States *)

(** Every entry of the maps is the address of a context of its cgroup. *)
Record cbw_wf (s : cbw) : Prop := CbwWf {
  wf_cgx : ∀ id a, cb_cgrp_map s !! id = Some a → a ≠ NULL ∧ ∃ x, cb_cgx s !! a = Some x ∧ xo_id (cx_ro x) = id;
  wf_llcx : ∀ k a, cb_llc_map s !! k = Some a → a ≠ NULL ∧ is_Some (cb_llcx s !! a);
  wf_llc_inj : ∀ k k' a, cb_llc_map s !! k = Some a → cb_llc_map s !! k' = Some a → k = k';
}.
Lemma wf_inj s id id' a : cbw_wf s → cb_cgrp_map s !! id = Some a → cb_cgrp_map s !! id' = Some a → id = id'.
Proof. intros Hs Hi Hj. destruct (wf_cgx _ Hs _ _ Hi) as (_ & x & Hx & <-), (wf_cgx _ Hs _ _ Hj) as (_ & y & Hy & <-). congruence. Qed.

Lemma with_levels_id f s : f (cb_levels s) = cb_levels s → with_levels f s = s.
Proof. destruct s. unfold with_levels. simpl. by intros ->. Qed.
Lemma rdx_run a x s : cb_cgx s !! a = Some x → rdx a s = Some (x, s).
Proof. intros Hx. unfold rdx. by rewrite Hx. Qed.
Lemma wrx_run a x f s : cb_cgx s !! a = Some x → wrx a f s = Some (tt, with_cgx <[a := f x]> s).
Proof. intros Hx. unfold wrx. by rewrite (ST_bind_run _ _ _ _ _ (rdx_run a x s Hx)). Qed.
Lemma rdl_run a x s : cb_llcx s !! a = Some x → rdl a s = Some (x, s).
Proof. intros Hx. unfold rdl. by rewrite Hx. Qed.
Lemma wrl_run a x f s : cb_llcx s !! a = Some x → wrl a f s = Some (tt, with_llcx <[a := f x]> s).
Proof. intros Hx. unfold wrl. by rewrite (ST_bind_run _ _ _ _ _ (rdl_run a x s Hx)). Qed.
Lemma ctx_none s id : cb_cgrp_map s !! id = None → cbw_get_cgroup_ctx_raw id s = Some (NULL, s).
Proof. intros Hi. unfold cbw_get_cgroup_ctx_raw, gets. by rewrite Hi. Qed.
Lemma ctx_some s id a : cb_cgrp_map s !! id = Some a → cbw_get_cgroup_ctx_raw id s = Some (a, s).
Proof. intros Hi. unfold cbw_get_cgroup_ctx_raw, gets. by rewrite Hi. Qed.

(** ** Updates of contexts by cgroup *)
Section updates.
Context {E : Type} (key : E → Z) (g : E → scx_cgroup_ctx → scx_cgroup_ctx) (ids : gmap Z Z).
Definition upd_at (m : gmap Z scx_cgroup_ctx) (e : E) : gmap Z scx_cgroup_ctx :=
  match ids !! key e with Some a => alter (g e) a m | None => m end.

Lemma upds_ro es m a x : (∀ e y, cx_ro (g e y) = cx_ro y) → m !! a = Some x → ∃ x', foldl upd_at m es !! a = Some x' ∧ cx_ro x' = cx_ro x.
Proof.
  intros Hg. revert m x. induction es as [|e es IH]; intros m x Hx; [by exists x|]. simpl.
  assert (∃ x1, upd_at m e !! a = Some x1 ∧ cx_ro x1 = cx_ro x) as (x1 & Hx1 & E1).
  { unfold upd_at. destruct (ids !! key e) as [b|]; [|by exists x]. destruct (decide (b = a)) as [->|Hne]; [|exists x; by rewrite lookup_alter_ne].
    exists (g e x). by rewrite lookup_alter_eq, Hx. }
  destruct (IH _ _ Hx1) as (x2 & Hx2 & E2). exists x2. split; [done|congruence].
Qed.
Lemma upds_other es m a : (∀ e, e ∈ es → ids !! key e ≠ Some a) → foldl upd_at m es !! a = m !! a.
Proof.
  revert m. induction es as [|e es IH]; intros m Ha; [done|]. simpl. rewrite IH by (intros i Hi; apply Ha; by right).
  unfold upd_at. specialize (Ha e ltac:(left)). destruct (ids !! key e) as [b|]; [|done]. rewrite lookup_alter_ne; [done|congruence].
Qed.
Lemma upds_at es m a x e : NoDup (key <$> es) → (∀ i j b, ids !! i = Some b → ids !! j = Some b → i = j) → e ∈ es → ids !! key e = Some a → m !! a = Some x →
  foldl upd_at m es !! a = Some (g e x).
Proof.
  intros Hnd Hinj. revert m. induction es as [|d es IH]; intros m Hin Ha Hx; [by apply not_elem_of_nil in Hin|]. simpl in *. apply NoDup_cons in Hnd as [Hni Hnd].
  apply elem_of_cons in Hin as [<-|Hin].
  - rewrite upds_other; [unfold upd_at; by rewrite Ha, lookup_alter_eq, Hx|]. intros d Hd Ed. apply Hni. rewrite (Hinj _ _ _ Ha Ed). by apply list_elem_of_fmap_2.
  - apply IH; [done|done|done|]. unfold upd_at. destruct (ids !! key d) as [b|] eqn:Eb; [|done]. rewrite lookup_alter_ne; [done|]. intros ->.
    apply Hni. rewrite (Hinj _ _ _ Eb Ha). by apply list_elem_of_fmap_2.
Qed.
End updates.

(** ** The time of a cgroup *)
Definition llc_time (s : cbw) (id i : Z) : Z :=
  match cb_llc_map s !! (id, i) with Some a => match cb_llcx s !! a with Some l => lx_runtime_total l | None => 0 end | None => 0 end.
Section sums.
Context (f : Z → Z).
Fixpoint sum_from (n : nat) (i : Z) : Z := match n with O => 0 | S n => f i + sum_from n (i + 1) end.
End sums.

(** [own] summed over a tree, down to a height. *)
Section tree_sum.
Context (height : Z) (own : Z → Z).
Fixpoint subtree_sum (level : nat) (t : cgtree) : Z :=
  match t with
  | CgNode id cs => if Z.of_nat level <? height then own id + foldr Z.add 0 (map (subtree_sum (S level)) cs) else 0
  end.
(** The sums of all nodes, in post-order. *)
Fixpoint subtree_sums (level : nat) (t : cgtree) : list (Z * Z) :=
  match t with
  | CgNode id cs => if Z.of_nat level <? height then concat (map (subtree_sums (S level)) cs) ++ [(id, subtree_sum level t)] else []
  end.
End tree_sum.

Section roll.
Context (conf : cbw_conf).
Local Abbreviation H := (cf_height_max conf).

(** The time the cgroup's own tasks were billed for, and that of its subtree. *)
Definition own_time (s : cbw) (id : Z) : Z := match cb_cgrp_map s !! id with Some _ => sum_from (llc_time s id) (cf_nr_llc conf) 0 | None => 0 end.
Definition subtree_time (s : cbw) : nat → cgtree → Z := subtree_sum H (own_time s).

Lemma sum_llcx_run s c n i sum : cbw_wf s → sum = s64 sum → sum_llcx_loop n i c sum s = Some (s64 (sum + sum_from (llc_time s (cg_id c)) n i), s).
Proof.
  intros Hs. revert i sum. induction n as [|n IH]; intros i sum E; simpl; [by rewrite Z.add_0_r, <-E|].
  unfold cbw_get_llc_ctx, cbw_get_llc_ctx_raw_with_id. unfold llc_time at 1. erewrite ST_bind_run; [|done].
  destruct (cb_llc_map s !! (cg_id c, i)) as [a|] eqn:Ea; simpl; [|by rewrite Z.add_0_l, IH].
  destruct (wf_llcx _ Hs _ _ Ea) as [Hn [l Hl]]. rewrite (proj2 (Z.eqb_neq a NULL)) by done. erewrite ST_bind_run; [|by apply rdl_run].
  rewrite Hl, IH by (by rewrite s64_idemp). by rewrite s64_add_l, Z.add_assoc.
Qed.

(** ** One cgroup *)
Definition fits (ls : list Z) : Prop := H <= Z.of_nat (length ls).
(** The accumulators from level [l] on are clear. *)
Definition clear_from (l : nat) (ls : list Z) : Prop := ∀ k, (l <= k)%nat → Z.of_nat k < H → ls !!! k = 0.
Definition deeper (l : nat) (ls : list Z) : Z := if Z.of_nat (S l) <? H then ls !!! S l else 0.
Definition absorbed (l : nat) (ls : list Z) : list Z := if Z.of_nat (S l) <? H then <[S l := 0]> ls else ls.

Lemma tree_level_run l s : fits (cb_levels s) → Z.of_nat l < H → tree_level (Z.of_nat l) s = Some (Some (cb_levels s !!! l), s).
Proof.
  unfold fits. intros Hf Hl. unfold tree_level, gets. rewrite (proj2 (Z.ltb_ge _ _)) by lia. rewrite Nat2Z.id. f_equal. f_equal.
  apply list_lookup_lookup_total_lt. lia.
Qed.

Lemma absorb_clear n l sum s : fits (cb_levels s) → Z.of_nat l + Z.of_nat n = H → clear_from l (cb_levels s) → s64 sum = sum → absorb_loop n (Z.of_nat l) sum s = Some (sum, s).
Proof.
  intros Hf. revert l. induction n as [|n IH]; intros l Hn Hc Es; [done|]. cbn [absorb_loop]. rewrite (ST_bind_run _ _ _ _ _ (tree_level_run l s Hf ltac:(lia))).
  unfold set_tree_level. erewrite ST_bind_run; [|done]. rewrite Nat2Z.id, with_levels_id.
  - rewrite (Hc l), Z.add_0_r, Es by lia. replace (Z.of_nat l + 1) with (Z.of_nat (S l)) by lia. apply IH; [lia| |done]. intros k Hk. apply Hc. lia.
  - apply list_insert_id. unfold fits in Hf. rewrite list_lookup_lookup_total_lt by lia. f_equal. apply Hc; lia.
Qed.
Lemma absorb_run l s : fits (cb_levels s) → Z.of_nat l < H → clear_from (S (S l)) (cb_levels s) →
  tree_absorb_deeper conf (Z.of_nat l) s = Some (s64 (deeper l (cb_levels s)), with_levels (absorbed l) s).
Proof.
  intros Hf Hl Hc. unfold tree_absorb_deeper, deeper, absorbed. replace (Z.of_nat l + 1) with (Z.of_nat (S l)) by lia. destruct (Z.ltb_spec (Z.of_nat (S l)) H) as [Hlt|Hge].
  - destruct (Z.to_nat (H - Z.of_nat (S l))) as [|n] eqn:En; [lia|]. cbn [absorb_loop]. rewrite (ST_bind_run _ _ _ _ _ (tree_level_run (S l) s Hf Hlt)).
    unfold set_tree_level. erewrite ST_bind_run; [|done]. rewrite Nat2Z.id, Z.add_0_l. replace (Z.of_nat (S l) + 1) with (Z.of_nat (S (S l))) by lia.
    apply absorb_clear; [unfold fits in *; simpl; by rewrite length_insert|lia| |by rewrite s64_idemp]. intros k Hk Hk'. simpl. rewrite list_lookup_total_insert_ne by lia. by apply Hc.
  - replace (Z.to_nat (H - Z.of_nat (S l))) with 0%nat by lia. simpl. by rewrite with_levels_id.
Qed.


(** The context with the time of the subtree. *)
Definition roll_ctx (v : Z) (x : scx_cgroup_ctx) : scx_cgroup_ctx :=
  let x := on_rw (set_runtime v (xw_runtime_total_last (cx_rw x))) x in
  if xw_period_budget (cx_rw x) <=? v then on_rw (set_throttled true) x else x.
Definition roll_at : gmap Z Z → gmap Z scx_cgroup_ctx → Z * Z → gmap Z scx_cgroup_ctx := upd_at fst (λ e, roll_ctx (s64 e.2)).
Definition rolled (ls : list Z) (es : list (Z * Z)) (s : cbw) : cbw := with_levels (λ _, ls) (with_cgx (λ m, foldl (roll_at (cb_cgrp_map s)) m es) s).

Lemma rollup_one_run path id s : let l := length path in let v := own_time s id + deeper l (cb_levels s) in
  cbw_wf s → fits (cb_levels s) → Z.of_nat l < H → clear_from (S (S l)) (cb_levels s) →
  rollup_one conf (Cgroup id (path ++ [id])) s = Some (tt, rolled (<[l := s64 (cb_levels s !!! l + v)]> (absorbed l (cb_levels s))) [(id, v)] s).
Proof.
  intros l v Hs Hf Hl Hc. unfold rollup_one. rewrite cg_level_of. fold l. rewrite (proj2 (Z.leb_gt _ _)) by done. unfold cbw_get_cgroup_ctx, cbw_sum_rumtime_total_llcx. cbn [cg_id].
  assert (length (absorbed l (cb_levels s)) = length (cb_levels s)) as Elen by (unfold absorbed; destruct (_ <? _); [apply length_insert|done]).
  assert (absorbed l (cb_levels s) !!! l = cb_levels s !!! l) as El by (unfold absorbed; destruct (_ <? _); [apply list_lookup_total_insert_ne; lia|done]).
  assert (∀ rt, s64 rt = s64 (own_time s id) → s64 (rt + s64 (deeper l (cb_levels s))) = s64 v) as Hv.
  { intros rt Ert. unfold v. by rewrite s64_add_r, <-s64_add_l, Ert, s64_add_l. }
  assert (∀ s1, cb_levels s1 = absorbed l (cb_levels s) → tree_level (Z.of_nat l) s1 = Some (Some (cb_levels s !!! l), s1)) as Hlv.
  { intros s1 E1. rewrite <-El, <-E1. apply tree_level_run; [unfold fits in *; rewrite E1, Elen; done|done]. }
  unfold rolled, roll_at, upd_at. cbn [foldl fst snd]. unfold own_time in Hv. destruct (cb_cgrp_map s !! id) as [a|] eqn:Ea.
  - destruct (wf_cgx _ Hs _ _ Ea) as (Hn & x & Hx & _). rewrite (ST_bind_run _ _ _ _ _ (ctx_some s id a Ea)). rewrite (proj2 (Z.eqb_neq a NULL)) by done. cbn [negb].
    rewrite (ST_bind_run _ _ _ _ _ (sum_llcx_run s _ _ 0 0 Hs eq_refl)). rewrite (ST_bind_run _ _ _ _ _ (absorb_run l s Hf Hl Hc)). cbv zeta.
    rewrite Hv by (by rewrite s64_idemp). rewrite (ST_bind_run _ _ _ _ _ (Hlv (with_levels (absorbed l) s) eq_refl)). unfold set_tree_level. erewrite ST_bind_run; [|done]. rewrite Nat2Z.id, s64_add_r.
    erewrite ST_bind_run; [|apply wrx_run; exact Hx]. erewrite ST_bind_run; [|apply rdx_run; apply lookup_insert_eq].
    unfold with_cgx, with_levels. cbn [cb_cgx cb_cgrp_map]. rewrite (alter_known _ a x _ Hx). unfold roll_ctx. cbn [on_rw cx_rw set_runtime xw_period_budget].
    destruct (xw_period_budget (cx_rw x) <=? s64 v); [|done]. erewrite wrx_run; [|apply lookup_insert_eq]. unfold with_cgx. cbn. by rewrite insert_insert_eq.
  - rewrite (ST_bind_run _ _ _ _ _ (ctx_none s id Ea)). rewrite Z.eqb_refl. cbn [negb]. erewrite ST_bind_run; [|done]. rewrite (ST_bind_run _ _ _ _ _ (absorb_run l s Hf Hl Hc)). cbv zeta. rewrite Hv by done. rewrite (ST_bind_run _ _ _ _ _ (Hlv (with_levels (absorbed l) s) eq_refl)). unfold set_tree_level. erewrite ST_bind_run; [|done]. rewrite Nat2Z.id, s64_add_r. done.
Qed.

(** ** A whole tree *)
Fixpoint roll_all (l : list cgroup) : BW unit := match l with [] => mret tt | c :: l => rollup_one conf c;; roll_all l end.
Lemma roll_all_app l l' s s' : roll_all l s = Some (tt, s') → roll_all (l ++ l') s = roll_all l' s'.
Proof.
  revert s. induction l as [|c l IH]; intros s; simpl; [by intros [= ->]|]. intros E. apply ST_bind_inv in E as ([] & s1 & E1 & E). rewrite (ST_bind_run _ _ _ _ _ E1). by apply IH.
Qed.

Lemma rolled_rolled ls ls' es es' s : rolled ls' es' (rolled ls es s) = rolled ls' (es ++ es') s.
Proof. unfold rolled, with_levels, with_cgx. simpl. f_equal. by rewrite foldl_app. Qed.
Lemma rolled_levels ls es s : cb_levels (rolled ls es s) = ls.
Proof. done. Qed.
Lemma roll_ctx_ro v x : cx_ro (roll_ctx v x) = cx_ro x.
Proof. unfold roll_ctx. by destruct (_ <=? _). Qed.
Lemma rolled_wf ls es s : cbw_wf s → cbw_wf (rolled ls es s).
Proof.
  intros [H1 H2 H3]. split; [|done|done]. intros id a Hi. destruct (H1 id a Hi) as (Hn & x & Hx & E). split; [done|].
  destruct (upds_ro fst (λ e, roll_ctx (s64 e.2)) (cb_cgrp_map s) es _ _ _ (λ e, roll_ctx_ro _) Hx) as (x' & Hx' & Ex). exists x'. split; [done|]. by rewrite Ex.
Qed.
Lemma roll_at_congr ids m id v v' : s64 v = s64 v' → roll_at ids m (id, v) = roll_at ids m (id, v').
Proof. intros E. unfold roll_at, upd_at. simpl. by rewrite E. Qed.

Lemma roll_skip path t s : H <= Z.of_nat (length path) → roll_all (descendants_post path t) s = Some (tt, s).
Proof.
  revert path s. induction t as [id cs IH] using cgtree_ind'. intros path s HH. rewrite post_unfold. erewrite roll_all_app.
  - simpl. unfold rollup_one. rewrite cg_level_of. rewrite (proj2 (Z.leb_le _ _)) by done. done.
  - induction IH as [|c cs Hc _ IHcs]; [done|]. simpl. erewrite roll_all_app; [exact IHcs|]. apply Hc. rewrite length_app. simpl. lia.
Qed.

Definition tree_rolls (t : cgtree) : Prop := ∀ path s, let l := length path in
  cbw_wf s → fits (cb_levels s) → Z.of_nat l < H → clear_from (S l) (cb_levels s) →
  roll_all (descendants_post path t) s = Some (tt, rolled (<[l := s64 (cb_levels s !!! l + subtree_time s l t)]> (cb_levels s)) (subtree_sums H (own_time s) l t) s).

Lemma forest_rolls cs path s : let l := length path in
  Forall tree_rolls cs → cbw_wf s → fits (cb_levels s) → Z.of_nat l < H → clear_from (S l) (cb_levels s) → s64 (cb_levels s !!! l) = cb_levels s !!! l →
  roll_all (concat (descendants_post path <$> cs)) s =
    Some (tt, rolled (<[l := s64 (cb_levels s !!! l + foldr Z.add 0 (map (subtree_time s l) cs))]> (cb_levels s)) (concat (map (subtree_sums H (own_time s) l) cs)) s).
Proof.
  intros l Hcs. revert s. induction Hcs as [|c cs Hc Hcs IH]; intros s Hs Hf Hl Hcl E64.
  - simpl. unfold rolled, with_levels, with_cgx. simpl. rewrite Z.add_0_r, E64. rewrite list_insert_id; [by destruct s|]. apply list_lookup_lookup_total_lt. unfold fits in Hf. lia.
  - assert (l < length (cb_levels s))%nat as Hlen by (unfold fits in Hf; lia). simpl. erewrite roll_all_app; [|by apply Hc]. fold l. rewrite IH.
    + rewrite rolled_rolled, !rolled_levels, list_lookup_total_insert_eq, list_insert_insert_eq by done.
      rewrite s64_add_l, <-Z.add_assoc. done.
    + by apply rolled_wf.
    + unfold fits in *. simpl. by rewrite length_insert.
    + done.
    + intros k Hk Hk'. simpl. rewrite list_lookup_total_insert_ne by lia. by apply Hcl.
    + simpl. rewrite list_lookup_total_insert_eq by done. apply s64_idemp.
Qed.

Lemma tree_rolls_all t : tree_rolls t.
Proof.
  induction t as [id cs IH] using cgtree_ind'. intros path s l Hs Hf Hl Hc. assert (l < length (cb_levels s))%nat as Hlen by (unfold fits in Hf; lia).
  rewrite post_unfold. assert (length (path ++ [id]) = S l) as El by (rewrite length_app; simpl; lia).
  assert (subtree_time s l (CgNode id cs) = own_time s id + foldr Z.add 0 (map (subtree_time s (S l)) cs)) as Et by (unfold subtree_time; cbn [subtree_sum]; by rewrite (proj2 (Z.ltb_lt _ _))).
  assert (subtree_sums H (own_time s) l (CgNode id cs) = concat (map (subtree_sums H (own_time s) (S l)) cs) ++ [(id, subtree_time s l (CgNode id cs))]) as Es by (cbn [subtree_sums]; by rewrite (proj2 (Z.ltb_lt _ _))).
  assert (clear_from (S (S l)) (cb_levels s)) as Hc2 by (intros k Hk; apply Hc; lia). rewrite Es. destruct (Z.ltb_spec (Z.of_nat (S l)) H) as [Hlt|Hge].
  - assert (S l < length (cb_levels s))%nat as Hlen2 by (unfold fits in Hf; lia). assert (cb_levels s !!! S l = 0) as E0 by (apply Hc; lia).
    erewrite roll_all_app; [|apply forest_rolls; rewrite ?El, ?E0; done]. rewrite El, E0, Z.add_0_l. set (sum := foldr Z.add 0 _). cbn [roll_all].
    set (s1 := rolled _ _ s). assert (fits (cb_levels s1)) as Hf1 by (unfold fits, s1 in *; rewrite rolled_levels, length_insert; done).
    assert (clear_from (S (S l)) (cb_levels s1)) as Hc1 by (intros k Hk Hk'; unfold s1; rewrite rolled_levels, list_lookup_total_insert_ne by lia; by apply Hc2).
    rewrite (ST_bind_run _ _ _ _ _ (rollup_one_run path id s1 (rolled_wf _ _ _ Hs) Hf1 Hl Hc1)). unfold s1.
    rewrite rolled_rolled. change (own_time (rolled _ _ s) id) with (own_time s id). rewrite !rolled_levels. fold l.
    unfold deeper, absorbed. rewrite (proj2 (Z.ltb_lt _ _)) by done. rewrite list_lookup_total_insert_eq, list_lookup_total_insert_ne, list_insert_insert_eq by (done || lia).
    rewrite (list_insert_id (cb_levels s) (S l)) by (rewrite <-E0; by apply list_lookup_lookup_total_lt).
    unfold rolled, with_levels, with_cgx, mret, ST_ret. cbn [cb_cgx cb_cgrp_map cb_levels]. rewrite !foldl_app. cbn [foldl].
    rewrite (roll_at_congr _ _ id _ (subtree_time s l (CgNode id cs))) by (rewrite Et; unfold sum; by rewrite s64_add_r).
    rewrite Et. fold sum. by rewrite Z.add_assoc, s64_add_r, <-Z.add_assoc.
  - erewrite roll_all_app.
    2: { clear -El Hge. clear Et Es IH. induction cs as [|c cs IHcs]; [done|]. simpl. erewrite roll_all_app; [exact IHcs|]. apply roll_skip. lia. }
    assert (map (subtree_time s (S l)) cs = map (λ _, 0) cs ∧ concat (map (subtree_sums H (own_time s) (S l)) cs) = []) as [E1 E2].
    { clear -Hge. induction cs as [|[i c] cs [IH1 IH2]]; [done|]. simpl. unfold subtree_time at 1. cbn [subtree_sum]. rewrite (proj2 (Z.ltb_ge _ _)) by lia. by rewrite IH1, IH2. }
    assert (foldr Z.add 0 (map (λ _ : cgtree, 0) cs) = 0) as E3 by (clear; by induction cs).
    cbn [roll_all]. rewrite (ST_bind_run _ _ _ _ _ (rollup_one_run path id s Hs Hf Hl Hc2)). fold l. unfold deeper, absorbed. rewrite (proj2 (Z.ltb_ge _ _)) by lia.
    rewrite Et, E1, E2, E3. done.
Qed.

(** ** The walk of the timer *)
Lemma clean_run n l s : Z.of_nat l + Z.of_nat n = H → fits (cb_levels s) → (∀ k, (k < l)%nat → cb_levels s !!! k = 0) →
  ∃ ls, clean_loop n (Z.of_nat l) s = Some (0, with_levels (λ _, ls) s) ∧ fits ls ∧ clear_from 0 ls.
Proof.
  revert l s. induction n as [|n IH]; intros l s Hn Hf Hz.
  - exists (cb_levels s). split; [by destruct s|]. split; [done|]. intros k _ Hk. apply Hz. lia.
  - cbn [clean_loop]. rewrite (ST_bind_run _ _ _ _ _ (tree_level_run l s Hf ltac:(lia))). unfold set_tree_level. erewrite ST_bind_run; [|done]. rewrite Nat2Z.id.
    replace (Z.of_nat l + 1) with (Z.of_nat (S l)) by lia. destruct (IH (S l) (with_levels <[l := 0]> s)) as (ls & E & Hls).
    + lia.
    + unfold fits in *. simpl. by rewrite length_insert.
    + intros k Hk. simpl. destruct (decide (k = l)) as [->|Hne]; [apply list_lookup_total_insert_eq; unfold fits in Hf; lia|]. rewrite list_lookup_total_insert_ne by lia. apply Hz. lia.
    + exists ls. split; [exact E|done].
Qed.

Lemma rollup_loop_all cl l c s s' : (length l < cl)%nat → (∀ d, d ∈ l → cg_level d ≠ cf_root_level conf) → cg_level c = cf_root_level conf →
  roll_all l s = Some (tt, s') → rollup_loop conf cl (l ++ [c]) s = Some (tt, s').
Proof.
  revert cl s. induction l as [|d l IH]; intros cl s Hcl Hl Hc E; (destruct cl as [|cl]; [simpl in Hcl; lia|]); cbn [rollup_loop app].
  - by rewrite (proj2 (Z.eqb_eq _ _) Hc).
  - rewrite (proj2 (Z.eqb_neq _ _)) by (apply Hl; left). simpl in E. apply ST_bind_inv in E as ([] & s1 & E1 & E). rewrite (ST_bind_run _ _ _ _ _ E1).
    apply IH; [simpl in Hcl; lia| |done|done]. intros d' Hd'. apply Hl. by right.
Qed.

Lemma post_level path t c : c ∈ descendants_post path t → Z.of_nat (length path) <= cg_level c.
Proof.
  intros (path' & t' & Ho & ->)%post_occurs. destruct (occurs_path _ _ _ _ Ho) as [q ->]. rewrite cg_level_of, length_app. lia.
Qed.

(** The sums are those of the subtrees. *)
Lemma sums_occurs own path t path' t' : occurs path t path' t' → Z.of_nat (length path') < H → (root_id t', subtree_sum H own (length path') t') ∈ subtree_sums H own (length path) t.
Proof.
  induction 1 as [path [id cs]|path id cs c path' t' Hc Ho IH]; intros Hl.
  - cbn [subtree_sums]. rewrite (proj2 (Z.ltb_lt _ _)) by done. apply elem_of_app. right. by apply list_elem_of_singleton.
  - destruct (occurs_path _ _ _ _ Ho) as [q Eq]. assert (Z.of_nat (length path) < H) as Hp by (rewrite Eq, !length_app in Hl; lia).
    cbn [subtree_sums]. rewrite (proj2 (Z.ltb_lt _ _)) by done. apply elem_of_app. left. apply elem_of_concat. specialize (IH Hl).
    rewrite length_app, Nat.add_1_r in IH. eexists. split; [exact IH|]. by apply list_elem_of_fmap_2.
Qed.
Lemma sums_sublist own path t : sublist (subtree_sums H own (length path) t).*1 (ids_of path t).
Proof.
  revert path. induction t as [id cs IH] using cgtree_ind'. intros path. unfold ids_of. rewrite post_unfold, fmap_app. cbn [subtree_sums].
  destruct (_ <? _); [|apply sublist_nil_l]. rewrite fmap_app. apply sublist_app; [|done].
  clear -IH. induction IH as [|c cs Hc _ IHcs]; [done|]. simpl. rewrite !fmap_app. apply sublist_app; [|done].
  specialize (Hc (path ++ [id])). by rewrite length_app, Nat.add_1_r in Hc.
Qed.

(** The roll-up of the hierarchy below the library's root. *)
Lemma rollup_run cl path rid cs s : let t := CgNode rid cs in
  cbw_wf s → fits (cb_levels s) → 0 <= H → Z.of_nat (length path) = cf_root_level conf → (length (descendants_post path t) <= cl)%nat → NoDup (ids_of path t) →
  ∃ ls es, cbw_update_runtime_total_sloppy conf cl path t s = Some (0, rolled ls es s) ∧ NoDup es.*1 ∧
    (∀ path' t', occurs path t path' t' → (length path < length path')%nat → Z.of_nat (length path') < H → (root_id t', subtree_time s (length path') t') ∈ es) ∧
    (∀ id, id ∈ es.*1 → ∃ path' t', occurs path t path' t' ∧ root_id t' = id ∧ (length path < length path')%nat).
Proof.
  intros t Hs Hf HH0 Hroot Hcl Hnd. unfold cbw_update_runtime_total_sloppy, clean_tree_levels.
  destruct (clean_run (Z.to_nat H) 0 s) as (ls & E & Hfl & Hcz); [lia|done|intros k Hk; lia|]. rewrite (ST_bind_run _ _ _ _ _ E). rewrite Z.eqb_refl. cbn [negb].
  set (s1 := with_levels (λ _, ls) s). set (path1 := path ++ [rid]). assert (length path1 = S (length path)) as El by (unfold path1; rewrite length_app; simpl; lia).
  unfold t in *. clear t. rewrite post_unfold in Hcl |- *. fold path1 in Hcl |- *. rewrite length_app in Hcl. simpl in Hcl.
  assert (∀ d, d ∈ concat (descendants_post path1 <$> cs) → cg_level d ≠ cf_root_level conf) as Hlev.
  { intros d (l & Hd & (c & -> & Hc)%list_elem_of_fmap)%elem_of_concat. apply post_level in Hd. lia. }
  assert (∀ s2, roll_all (concat (descendants_post path1 <$> cs)) s1 = Some (tt, s2) → (rollup_loop conf cl (concat (descendants_post path1 <$> cs) ++ [Cgroup rid path1]);; mret 0) s1 = Some (0, s2)) as Hrun.
  { intros s2 E2. erewrite ST_bind_run; [|apply (rollup_loop_all _ _ _ _ s2); [lia|done|by unfold path1; rewrite cg_level_of|exact E2]]. done. }
  destruct (Z.ltb_spec (Z.of_nat (S (length path))) H) as [Hlt|Hge].
  - exists (<[S (length path) := s64 (foldr Z.add 0 (map (subtree_time s (S (length path))) cs))]> ls), (concat (map (subtree_sums H (own_time s) (S (length path))) cs)). split; [|split; [|split]].
    + apply Hrun. pose proof (forest_rolls cs path1 s1) as Hfr. cbv zeta in Hfr. rewrite El in Hfr. rewrite Hfr.
      * change (cb_levels s1) with ls. rewrite (Hcz (S (length path))) by lia. done.
      * apply Forall_forall. intros c _. apply tree_rolls_all.
      * by destruct Hs; split.
      * done.
      * done.
      * intros k Hk. apply Hcz. lia.
      * change (cb_levels s1) with ls. rewrite (Hcz (S (length path))) by lia. done.
    + pose proof (sums_sublist (own_time s) path (CgNode rid cs)) as Hsub. cbn [subtree_sums] in Hsub. rewrite (proj2 (Z.ltb_lt _ _)) in Hsub by lia.
      apply (sublist_NoDup _ _ Hnd) in Hsub. rewrite fmap_app in Hsub. by apply NoDup_app in Hsub as [? _].
    + intros path' t' Ho Hl Hl'. inversion Ho as [|? ? ? c ? ? Hc Ho']; [subst; lia|]. subst. apply elem_of_concat. exists (subtree_sums H (own_time s) (S (length path)) c).
      split; [|by apply list_elem_of_fmap_2]. rewrite <-El. by apply sums_occurs.
    + intros id ([i v] & -> & Hin)%list_elem_of_fmap. apply elem_of_concat in Hin as (l & Hi & (c & -> & Hc)%list_elem_of_fmap).
      assert (i ∈ ids_of path1 c) as Hin. { eapply elem_of_sublist; [|apply sums_sublist]. rewrite El. apply (list_elem_of_fmap_2 fst _ _ Hi). }
      apply list_elem_of_fmap in Hin as (d & -> & Hd). apply post_occurs in Hd as (path' & t' & Ho & ->). exists path', t'. split; [by econstructor|]. split; [done|].
      destruct (occurs_path _ _ _ _ Ho) as [q ->]. rewrite length_app. lia.
  - exists ls, []. split; [|split; [constructor|split; [intros; lia|intros id Hid; by apply not_elem_of_nil in Hid]]]. rewrite (Hrun s1).
    + done.
    + clear -El Hge. clearbody s1 path1. induction cs as [|c cs IHcs]; [done|]. simpl. erewrite roll_all_app; [exact IHcs|]. apply roll_skip. lia.
Qed.
End roll.
