(* ===== verification/CgroupBwThrottle.v ===== *)
(** * Throttling, and the accounting timer as a whole *)

From S2P Require Import Prelude ScxTime Wp CgroupBw CgroupBwRoll.

(** * Throttling below throttled cgroups

    The second walk of the accounting timer gives the flag to every limited cgroup below a cgroup that
    has it, and predicts when the next one will have used its budget. *)

(** ** Bounds *)
Lemma cmax_max x y : cmax x y = Z.max x y.
Proof. unfold cmax. destruct (Z.ltb_spec x y); lia. Qed.
Lemma cmin_min x y : cmin x y = Z.min x y.
Proof. unfold cmin. destruct (Z.ltb_spec x y); lia. Qed.
Lemma cclamp_min_max v lo hi : cclamp v lo hi = Z.min (Z.max v lo) hi.
Proof. unfold cclamp. by rewrite cmin_min, cmax_max. Qed.

(** ** Ancestors in a tree *)
Lemma ancestor_spec c l id : cbw_cgroup_ancestor c l = Some id ↔ 0 <= l ∧ cg_path c !! Z.to_nat l = Some id.
Proof.
  unfold cbw_cgroup_ancestor, cg_level. split.
  - destruct (Z.ltb_spec l 0), (Z.ltb_spec (Z.of_nat (length (cg_path c)) - 1) l); simpl; done.
  - intros [Hl Hp]. pose proof (lookup_lt_Some _ _ _ Hp). rewrite (proj2 (Z.ltb_ge l 0)), (proj2 (Z.ltb_ge _ l)) by lia. done.
Qed.

(** The ancestors inside the tree are nodes of the tree. *)
Lemma occurs_ancestor path t path' t' l id : occurs path t path' t' → (length path <= l)%nat → (path' ++ [root_id t']) !! l = Some id →
  ∃ path'' t'', occurs path t path'' t'' ∧ root_id t'' = id ∧ path'' ++ [id] = take (S l) (path' ++ [root_id t']) ∧ occurs path'' t'' path' t'.
Proof.
  intros Ho. induction Ho as [path [i cs]|path i cs c path' t' Hc Ho IH]; intros Hl Hid.
  - exists path, (CgNode i cs). pose proof (lookup_lt_Some _ _ _ Hid) as Hlt. rewrite length_app in Hlt. simpl in *. assert (l = length path) as -> by lia.
    rewrite lookup_app_r, Nat.sub_diag in Hid by lia. injection Hid as <-. split; [constructor|]. split; [done|]. split; [|constructor]. rewrite take_ge; [done|]. rewrite length_app. simpl. lia.
  - destruct (decide (l = length path)) as [->|Hne].
    + destruct (occurs_path _ _ _ _ Ho) as [q ->]. rewrite <-!app_assoc in Hid. simpl in Hid. rewrite lookup_app_r, Nat.sub_diag in Hid by lia. injection Hid as <-.
      exists path, (CgNode i cs). split; [constructor|]. split; [done|]. split; [|by econstructor]. rewrite <-!app_assoc. simpl. rewrite take_app, take_ge by lia.
      replace (S (length path) - length path)%nat with 1%nat by lia. done.
    + destruct IH as (p & u & Hu & Hr & Hp); [rewrite length_app; simpl; lia|done|]. exists p, u. split; [by econstructor|done].
Qed.

Lemma occurs_lookup path t path' t' : occurs path t path' t' → (length path < length path')%nat → path' !! length path = Some (root_id t).
Proof.
  intros Ho Hl. inversion Ho as [|? id cs c ? ? Hc Ho']; subst; [lia|]. destruct (occurs_path _ _ _ _ Ho') as [q ->]. rewrite <-app_assoc. simpl.
  by rewrite lookup_app_r, Nat.sub_diag by lia.
Qed.

(** The cgroups of a walk know each other's ancestors. *)
Definition coherent (l : list cgroup) : Prop := ∀ c d k, c ∈ l → d ∈ l → cbw_cgroup_ancestor c k = Some (cg_id d) →
  cg_level d = k ∧ ∀ j, j <= k → cbw_cgroup_ancestor d j = cbw_cgroup_ancestor c j.

Lemma same_id path t c d : NoDup (ids_of path t) → c ∈ descendants_post path t → d ∈ descendants_post path t → cg_id c = cg_id d → c = d.
Proof.
  unfold ids_of. intros Hnd Hc Hd E. apply list_elem_of_lookup in Hc as [i Hi], Hd as [j Hj]. assert (i = j) as ->; [|congruence].
  eapply NoDup_lookup; [exact Hnd| |]; rewrite list_lookup_fmap; [by rewrite Hi|by rewrite Hj, E].
Qed.
Lemma walk_coherent path t : NoDup (path ++ ids_of path t) → coherent (descendants_post path t).
Proof.
  intros Hnd c d k Hc Hd Hk. apply NoDup_app in Hnd as (_ & Hdis & Hnd). pose proof Hc as Hc'. apply post_occurs in Hc' as (path' & t' & Ho & Ec).
  apply ancestor_spec in Hk as [Hk0 Hk]. rewrite Ec in Hk. cbn [cg_path] in Hk.
  assert (length path <= Z.to_nat k)%nat as Hle.
  { destruct (decide (length path <= Z.to_nat k)%nat); [done|]. exfalso. destruct (occurs_path _ _ _ _ Ho) as [q Eq]. rewrite Eq, <-app_assoc, lookup_app_l in Hk by lia.
    apply list_elem_of_lookup_2 in Hk. apply (Hdis _ Hk). by apply list_elem_of_fmap_2. }
  destruct (occurs_ancestor _ _ _ _ _ _ Ho Hle Hk) as (p & u & Hu & Hr & Hp & _). assert (d = Cgroup (root_id u) (p ++ [root_id u])) as ->.
  { apply (same_id path t); [done|done|by apply occurs_post|done]. }
  assert (length (p ++ [root_id u]) = S (Z.to_nat k)) as El.
  { cbn [cg_id] in *. rewrite Hp, length_take. pose proof (lookup_lt_Some _ _ _ Hk). lia. }
  split; [unfold cg_level; cbn [cg_path]; lia|]. intros j Hj. apply option_eq. intros id. rewrite !ancestor_spec, Ec. cbn [cg_path cg_id] in *. rewrite Hp.
  split; intros [Hj0 Hji]; (split; [done|]); [by apply lookup_take_Some in Hji as [? _]|rewrite lookup_take_lt by lia; done].
Qed.

(** ** The ancestors' flags *)
Section throttle.
Context (conf : cbw_conf).
Local Abbreviation root := (cf_root_level conf).

Definition ctx_throttled (s : cbw) (id : Z) : bool :=
  match cb_cgrp_map s !! id with Some a => match cb_cgx s !! a with Some x => xw_is_throttled (cx_rw x) | None => false end | None => false end.
Fixpoint anc_throttled (s : cbw) (n : nat) (anc : Z) (c : cgroup) : bool :=
  match n with
  | O => false
  | S n => match cbw_cgroup_ancestor c anc with
           | None => false
           | Some id => if anc <=? root then false else ctx_throttled s id || anc_throttled s n (anc - 1) c
           end
  end.
(** A cgroup below the library's root that is above [c] has the flag. *)
Definition below_throttled (s : cbw) (c : cgroup) : Prop :=
  ∃ l id, root < l < cg_level c ∧ cbw_cgroup_ancestor c l = Some id ∧ ctx_throttled s id = true.

Lemma anc_throttled_spec s n anc c : anc <= cg_level c → anc_throttled s n anc c = true ↔
  ∃ l id, root < l <= anc ∧ anc - Z.of_nat n < l ∧ cbw_cgroup_ancestor c l = Some id ∧ ctx_throttled s id = true.
Proof.
  revert anc. induction n as [|n IH]; intros anc Hanc; simpl.
  - split; [done|]. intros (l & id & ? & ? & _). lia.
  - destruct (cbw_cgroup_ancestor c anc) as [id|] eqn:E.
    + destruct (Z.leb_spec anc root); [split; [done|]; intros (l & id' & ? & _); lia|]. rewrite orb_true_iff, IH by lia. split.
      * intros [Ht|(l & id' & ? & ? & ?)]; [exists anc, id; split; [lia|]; split; [lia|done]|exists l, id'; split; [lia|]; split; [lia|done]].
      * intros (l & id' & Hl & Hn & Ha & Ht). destruct (decide (l = anc)) as [->|]; [left; congruence|right]. exists l, id'. split; [lia|]. split; [lia|done].
    + split; [done|]. intros (l & id' & Hl & Hn & Ha & Ht). apply ancestor_spec in Ha as [Hl0 Ha]. apply lookup_lt_Some in Ha.
      unfold cbw_cgroup_ancestor in E. rewrite (proj2 (Z.ltb_ge anc 0)), (proj2 (Z.ltb_ge _ anc)) in E by lia. simpl in E.
      unfold cg_level in Hanc. apply lookup_ge_None in E. lia.
Qed.

(** The cgroups above, in the tree. *)
Lemma below_throttled_tree s path t path' t' : Z.of_nat (length path) = root → occurs path t path' t' →
  below_throttled s (Cgroup (root_id t') (path' ++ [root_id t'])) ↔
  ∃ p u, occurs path t p u ∧ occurs p u path' t' ∧ (length path < length p < length path')%nat ∧ ctx_throttled s (root_id u) = true.
Proof.
  intros Hroot Ho. unfold below_throttled. rewrite cg_level_of. split.
  - intros (l & id & Hl & [_ Ha]%ancestor_spec & Ht). cbn [cg_path] in Ha. destruct (occurs_ancestor path t path' t' (Z.to_nat l) id Ho ltac:(lia) Ha) as (p & u & Hu & <- & Ep & Hu').
    assert (length p = Z.to_nat l) as El. { apply (f_equal length) in Ep. rewrite length_take, !length_app in Ep. cbn [length] in Ep. lia. }
    exists p, u. split; [done|]. split; [done|]. split; [lia|done].
  - intros (p & u & Hu & Hu' & Hl & Ht). exists (Z.of_nat (length p)), (root_id u). split; [lia|]. split; [|done].
    apply ancestor_spec. split; [lia|]. cbn [cg_path]. rewrite Nat2Z.id, lookup_app_l by lia. apply (occurs_lookup _ _ _ _ Hu'). lia.
Qed.

(** ** The walk *)
Local Abbreviation fuel := (Z.to_nat (cf_height_max conf)).
Definition limited (x : scx_cgroup_ctx) : bool := negb (xo_nquota_ub (cx_ro x) =? CBW_RUNTUME_INF).
Definition above_throttled (s : cbw) (c : cgroup) : bool := anc_throttled s fuel (cg_level c - 1) c.
Definition throttle_ctx (b : bool) (x : scx_cgroup_ctx) : scx_cgroup_ctx :=
  if limited x && b then on_rw (set_throttled true) x else x.
Lemma throttle_ctx_ro b x : cx_ro (throttle_ctx b x) = cx_ro x.
Proof. unfold throttle_ctx. by destruct (_ && _). Qed.

(** The state after the walk visited [l]. *)
Definition throttled (l : list cgroup) (s : cbw) : cbw :=
  with_cgx (λ m, foldl (upd_at cg_id (λ c, throttle_ctx (above_throttled s c)) (cb_cgrp_map s)) m l) s.
Lemma throttled_wf l s : cbw_wf s → cbw_wf (throttled l s).
Proof.
  intros [H1 H2 H3]. split; [|done|done]. intros id a Hi. destruct (H1 id a Hi) as (Hn & x & Hx & E). split; [done|].
  destruct (upds_ro cg_id (λ c, throttle_ctx (above_throttled s c)) (cb_cgrp_map s) l _ _ _ (λ c, throttle_ctx_ro _) Hx) as (x' & Hx' & Ex). exists x'. split; [done|]. by rewrite Ex.
Qed.

Lemma above_throttled_spec s c : cg_level c <= cf_height_max conf → above_throttled s c = true ↔ below_throttled s c.
Proof.
  intros Hl. unfold above_throttled, below_throttled. rewrite anc_throttled_spec by lia. split.
  - intros (l & id & ? & ? & ? & ?). exists l, id. split; [lia|done].
  - intros (l & id & ? & Ha & ?). pose proof (proj1 (ancestor_spec _ _ _) Ha) as [? _]. exists l, id. split; [lia|]. split; [lia|done].
Qed.

(** A flag that the walk sets is one of a cgroup below a cgroup that had it. *)
Definition flag_at (s : cbw) (m : gmap Z scx_cgroup_ctx) (id : Z) : bool :=
  match cb_cgrp_map s !! id with Some a => match m !! a with Some x => xw_is_throttled (cx_rw x) | None => false end | None => false end.
Lemma flag_step s c m id : cbw_wf s → flag_at s (upd_at cg_id (λ c, throttle_ctx (above_throttled s c)) (cb_cgrp_map s) m c) id = true →
  flag_at s m id = true ∨ (cg_id c = id ∧ above_throttled s c = true).
Proof.
  intros Hs. unfold flag_at, upd_at. destruct (cb_cgrp_map s !! id) as [a|] eqn:Ea; [|done]. destruct (cb_cgrp_map s !! cg_id c) as [b|] eqn:Eb; [|by left].
  destruct (decide (b = a)) as [->|Hne]; [|rewrite lookup_alter_ne by done; by left]. rewrite lookup_alter_eq. rewrite (wf_inj s _ _ _ Hs Eb Ea).
  destruct (m !! a) as [x|]; simpl; [|by left]. unfold throttle_ctx. destruct (above_throttled s c); [by right|]. rewrite andb_false_r. by left.
Qed.
Lemma flag_mono s c m id : flag_at s m id = true → flag_at s (upd_at cg_id (λ c, throttle_ctx (above_throttled s c)) (cb_cgrp_map s) m c) id = true.
Proof.
  unfold flag_at, upd_at. destruct (cb_cgrp_map s !! id) as [a|] eqn:Ea; [|done]. destruct (cb_cgrp_map s !! cg_id c) as [b|] eqn:Eb; [|done].
  destruct (decide (b = a)) as [->|Hne]; [|by rewrite lookup_alter_ne]. rewrite lookup_alter_eq. destruct (m !! a) as [x|]; simpl; [|done].
  unfold throttle_ctx. by destruct (_ && _).
Qed.
Lemma throttled_flags l s id : cbw_wf s → ctx_throttled (throttled l s) id = true → ctx_throttled s id = true ∨ ∃ d, d ∈ l ∧ cg_id d = id ∧ above_throttled s d = true.
Proof.
  intros Hs. change (ctx_throttled (throttled l s) id) with (flag_at s (cb_cgx (throttled l s)) id). change (ctx_throttled s id) with (flag_at s (cb_cgx s) id).
  unfold throttled. simpl. generalize (cb_cgx s). induction l as [|c l IH]; intros m Hf; [by left|]. simpl in Hf. destruct (IH _ Hf) as [Hc|(d & Hd & He)].
  - destruct (flag_step _ _ _ _ Hs Hc) as [Hm|He]; [by left|]. right. exists c. split; [left|done].
  - right. exists d. split; [by right|done].
Qed.
Lemma throttled_flags_mono l s id : ctx_throttled s id = true → ctx_throttled (throttled l s) id = true.
Proof.
  change (ctx_throttled (throttled l s) id) with (flag_at s (cb_cgx (throttled l s)) id). change (ctx_throttled s id) with (flag_at s (cb_cgx s) id).
  unfold throttled. simpl. generalize (cb_cgx s). induction l as [|c l IH]; intros m Hf; [done|]. simpl. apply IH. by apply flag_mono.
Qed.

(** The walk looks at flags it has set itself; that changes nothing. *)
Lemma above_throttled_kept l s c : cbw_wf s → (∀ d, d ∈ l → cg_level d <= cf_height_max conf) → cg_level c <= cf_height_max conf →
  (∀ d k, d ∈ l → cbw_cgroup_ancestor c k = Some (cg_id d) → cg_level d = k ∧ ∀ j, j <= k → cbw_cgroup_ancestor d j = cbw_cgroup_ancestor c j) →
  above_throttled (throttled l s) c = above_throttled s c.
Proof.
  intros Hs Hll Hlc Hco. apply eq_true_iff_eq. rewrite !above_throttled_spec by done. split; intros (k & id & Hk & Ha & Ht).
  - destruct (throttled_flags _ _ _ Hs Ht) as [Ht'|(d & Hd & <- & Ht')]; [by exists k, id|]. destruct (Hco d k Hd Ha) as [El Hanc].
    apply above_throttled_spec in Ht' as (j & id' & Hj & Ha' & Ht'); [|by apply Hll]. exists j, id'. split; [lia|]. split; [|done]. rewrite <-Hanc; [done|lia].
  - exists k, id. split; [done|]. split; [done|]. by apply throttled_flags_mono.
Qed.

Lemma ancestor_loop_run n anc c a x s : cbw_wf s → cb_cgx s !! a = Some x →
  ancestor_loop conf n anc c a s = Some (tt, if anc_throttled s n anc c then with_cgx <[a := on_rw (set_throttled true) x]> s else s).
Proof.
  intros Hs Hx. revert anc. induction n as [|n IH]; intros anc; [done|]. simpl. destruct (cbw_cgroup_ancestor c anc) as [id|]; [|done]. destruct (anc <=? root); [done|].
  unfold ctx_throttled. destruct (cb_cgrp_map s !! id) as [b|] eqn:Eb.
  - destruct (wf_cgx _ Hs _ _ Eb) as (Hn & y & Hy & _). rewrite (ST_bind_run _ _ _ _ _ (ctx_some s id b Eb)). rewrite (proj2 (Z.eqb_neq b NULL)) by done. cbn [negb].
    erewrite ST_bind_run; [|by rewrite (ST_bind_run _ _ _ _ _ (rdx_run b y s Hy))]. rewrite Hy. destruct (xw_is_throttled (cx_rw y)); [by apply wrx_run|apply IH].
  - rewrite (ST_bind_run _ _ _ _ _ (ctx_none s id Eb)). rewrite Z.eqb_refl. cbn [negb]. erewrite ST_bind_run; [|done]. apply IH.
Qed.

Definition running (s : cbw) : bool := negb (Z.land (bs_rp_seq (cb_stat s)) 1 =? 0).
Lemma throttled_snoc l c s : throttled (l ++ [c]) s = with_cgx (λ m, upd_at cg_id (λ c, throttle_ctx (above_throttled s c)) (cb_cgrp_map s) m c) (throttled l s).
Proof. unfold throttled, with_cgx. simpl. by rewrite foldl_app. Qed.
Lemma with_cgx_id f s : f (cb_cgx s) = cb_cgx s → with_cgx f s = s.
Proof. destruct s. unfold with_cgx. simpl. by intros ->. Qed.
Lemma throttled_snoc_some l c a x s : cb_cgrp_map s !! cg_id c = Some a → cb_cgx (throttled l s) !! a = Some x →
  throttled (l ++ [c]) s = with_cgx <[a := throttle_ctx (above_throttled s c) x]> (throttled l s).
Proof. intros Ha Hx. rewrite throttled_snoc. unfold upd_at. rewrite Ha. unfold with_cgx. by rewrite (alter_known _ a x _ Hx). Qed.
Lemma throttled_snoc_same l c a x s : cb_cgrp_map s !! cg_id c = Some a → cb_cgx (throttled l s) !! a = Some x →
  throttle_ctx (above_throttled s c) x = x → throttled (l ++ [c]) s = throttled l s.
Proof. intros Ha Hx E. rewrite (throttled_snoc_some _ _ _ _ _ Ha Hx), E. apply with_cgx_id. by apply insert_id. Qed.

(** The least prediction: every unthrottled cgroup of the walk has a later one. *)
Definition predicted (s : cbw) (c : cgroup) (t : Z) : Prop :=
  ∃ a x, cb_cgrp_map s !! cg_id c = Some a ∧ cb_cgx s !! a = Some x ∧ limited x = true ∧ time_to_throttle (cx_rw (throttle_ctx (above_throttled s c) x)) = Some t.

Lemma throttle_run l1 l2 s mt : cbw_wf s → running s = false → coherent (l1 ++ l2) → NoDup (cg_id <$> l1 ++ l2) → (∀ d, d ∈ l1 ++ l2 → cg_level d <= cf_height_max conf) →
  ∃ mt', throttle_loop conf l2 mt (throttled l1 s) = Some (mt', throttled (l1 ++ l2) s) ∧ mt' <= mt ∧ (∀ c t, c ∈ l2 → predicted s c t → mt' <= t).
Proof.
  intros Hs Hr. revert l1 mt. induction l2 as [|c l2 IH]; intros l1 mt Hco Hnd Hlev.
  { exists mt. rewrite app_nil_r. split; [done|]. split; [lia|]. intros c t Hc. by apply not_elem_of_nil in Hc. }
  assert (l1 ++ c :: l2 = (l1 ++ [c]) ++ l2) as El by by rewrite <-app_assoc. pose proof Hnd as Hnd'. rewrite El in Hco, Hnd, Hlev |- *.
  specialize (λ mt, IH (l1 ++ [c]) mt Hco Hnd Hlev). cbn [throttle_loop]. unfold cbw_get_cgroup_ctx.
  assert (∀ mt1, throttled (l1 ++ [c]) s = throttled l1 s → (∀ t, predicted s c t → False) → mt1 = mt → ∃ mt', throttle_loop conf l2 mt1 (throttled l1 s) = Some (mt', throttled ((l1 ++ [c]) ++ l2) s) ∧ mt' <= mt ∧ (∀ d t, d ∈ c :: l2 → predicted s d t → mt' <= t)) as Hskip.
  { intros mt1 E Hp ->. destruct (IH mt) as (mt' & E' & Hle & Hmin). rewrite E in E'. exists mt'. split; [done|]. split; [done|].
    intros d t [->|Hd]%elem_of_cons Hdt; [by destruct (Hp t)|by apply Hmin with d]. }
  destruct (cb_cgrp_map s !! cg_id c) as [a|] eqn:Ea.
  2: { rewrite (ST_bind_run _ _ _ _ _ (ctx_none (throttled l1 s) _ Ea)). rewrite Z.eqb_refl. apply Hskip; [|intros t (a & x & Ha & _); congruence|done].
    rewrite throttled_snoc. unfold upd_at. rewrite Ea. by apply with_cgx_id. }
  destruct (wf_cgx _ Hs _ _ Ea) as (Hn & x & Hx & _). rewrite (ST_bind_run _ _ _ _ _ (ctx_some (throttled l1 s) _ a Ea)). rewrite (proj2 (Z.eqb_neq a NULL)) by done.
  assert (cb_cgx (throttled l1 s) !! a = Some x) as Hx1.
  { simpl. rewrite upds_other; [done|]. intros d Hd Ed. rewrite fmap_app in Hnd'. apply NoDup_app in Hnd' as (_ & Hdis & _). simpl in Hdis.
    apply (Hdis (cg_id d)); [by apply list_elem_of_fmap_2|]. rewrite (wf_inj s _ _ _ Hs Ed Ea). left. }
  rewrite (ST_bind_run _ _ _ _ _ (rdx_run a x _ Hx1)).
  assert (∀ t, predicted s c t → limited x = true ∧ time_to_throttle (cx_rw (throttle_ctx (above_throttled s c) x)) = Some t) as Hpr.
  { intros t (a' & x' & Ha' & Hx' & ?). assert (a' = a) as -> by congruence. assert (x' = x) as -> by congruence. done. }
  destruct (xo_nquota_ub (cx_ro x) =? CBW_RUNTUME_INF) eqn:Eub.
  { apply Hskip; [|intros t [Hl _]%Hpr; unfold limited in Hl; by rewrite Eub in Hl|done]. apply (throttled_snoc_same _ _ a x); [done..|]. unfold throttle_ctx, limited. by rewrite Eub. }
  destruct (xw_is_throttled (cx_rw x)) eqn:Eth.
  { assert (throttle_ctx (above_throttled s c) x = x) as Esame by (unfold throttle_ctx; destruct (_ && _); [|done]; destruct x as [xo []]; simpl in *; unfold on_rw, set_throttled; simpl; by rewrite Eth).
    apply Hskip; [by apply (throttled_snoc_same _ _ a x)| |done]. intros t [_ Ht]%Hpr. rewrite Esame in Ht. unfold time_to_throttle in Ht. by rewrite Eth in Ht. }
  unfold cbw_top_half_running. erewrite ST_bind_run; [|done]. unfold running in Hr. simpl (cb_stat _). rewrite Hr.
  erewrite ST_bind_run; [|by apply ancestor_loop_run; [apply throttled_wf|exact Hx1]]. change (anc_throttled (throttled l1 s) fuel (cg_level c - 1) c) with (above_throttled (throttled l1 s) c).
  rewrite above_throttled_kept; [|done|intros d Hd; apply Hlev; rewrite !elem_of_app; auto|apply Hlev; rewrite !elem_of_app; left; right; by left
    |intros d k Hd Hk; apply (Hco c d k); [rewrite !elem_of_app; left; right; by left|rewrite !elem_of_app; auto|done]].
  set (x1 := throttle_ctx (above_throttled s c) x). assert ((if above_throttled s c then with_cgx <[a := on_rw (set_throttled true) x]> (throttled l1 s) else throttled l1 s) = throttled (l1 ++ [c]) s) as Est.
  { rewrite (throttled_snoc_some _ _ a x _ Ea Hx1). unfold throttle_ctx, limited. rewrite Eub. cbn [negb andb]. destruct (above_throttled s c); [done|]. symmetry. apply with_cgx_id. by apply insert_id. }
  rewrite Est. erewrite ST_bind_run; [|apply (rdx_run a x1); rewrite (throttled_snoc_some _ _ a x _ Ea Hx1); apply lookup_insert_eq].
  destruct (IH (match time_to_throttle (cx_rw x1) with Some t => if t <? mt then t else mt | None => mt end)) as (mt' & E' & Hle & Hmin).
  exists mt'. split; [done|]. split; [destruct (time_to_throttle _) as [t|]; [destruct (Z.ltb_spec t mt)|]; lia|].
  intros d t [->|Hd]%elem_of_cons Hdt; [|by apply Hmin with d]. apply Hpr in Hdt as [_ Hdt]. fold x1 in Hdt. rewrite Hdt in Hle. destruct (Z.ltb_spec t mt); lia.
Qed.
End throttle.

(** * The accounting timer

    Roll-up and throttling composed: who is throttled when the timer has run. *)

Section accounting.
Context (conf : cbw_conf).
Local Abbreviation H := (cf_height_max conf).

(** The cgroup has used its budget, or was throttled already. *)
Definition over_budget (s : cbw) (path : list Z) (t : cgtree) : Prop :=
  ∃ a x, cb_cgrp_map s !! root_id t = Some a ∧ cb_cgx s !! a = Some x ∧
    (xw_is_throttled (cx_rw x) = true ∨ xw_period_budget (cx_rw x) <= s64 (subtree_time conf s (length path) t)).

(** What the roll-up leaves of a context. *)
Lemma roll_ctx_flag v x : xw_is_throttled (cx_rw (roll_ctx v x)) = xw_is_throttled (cx_rw x) || (xw_period_budget (cx_rw x) <=? v).
Proof. unfold roll_ctx. destruct x as [xo []]. simpl. destruct (_ <=? _); simpl; [by rewrite orb_true_r|by rewrite orb_false_r]. Qed.
Lemma roll_ctx_limited v x : limited (roll_ctx v x) = limited x.
Proof. unfold limited. by rewrite roll_ctx_ro. Qed.
Lemma limited_throttle b x : limited (throttle_ctx b x) = limited x.
Proof. unfold limited. by rewrite throttle_ctx_ro. Qed.
Lemma throttle_ctx_flag b x : xw_is_throttled (cx_rw (throttle_ctx b x)) = xw_is_throttled (cx_rw x) || (limited x && b).
Proof. unfold throttle_ctx. destruct x as [xo []]. simpl. destruct (_ && _); simpl; [by rewrite orb_true_r|by rewrite orb_false_r]. Qed.

Lemma rolled_ctx ls es s (path' : list Z) t' a x : cbw_wf s → NoDup es.*1 → (root_id t', subtree_time conf s (length path') t') ∈ es →
  cb_cgrp_map s !! root_id t' = Some a → cb_cgx s !! a = Some x → cb_cgx (rolled ls es s) !! a = Some (roll_ctx (s64 (subtree_time conf s (length path') t')) x).
Proof. intros Hs Hnd Hin Ha Hx. apply (upds_at fst (λ e, roll_ctx (s64 e.2)) (cb_cgrp_map s) es (cb_cgx s) a x (root_id t', subtree_time conf s (length path') t')); try done. intros i j b. by apply wf_inj. Qed.
Lemma rolled_over ls es s (path' : list Z) t' : cbw_wf s → NoDup es.*1 → (root_id t', subtree_time conf s (length path') t') ∈ es →
  ctx_throttled (rolled ls es s) (root_id t') = true ↔ over_budget s path' t'.
Proof.
  intros Hs Hnd Hin. unfold ctx_throttled, over_budget. change (cb_cgrp_map (rolled ls es s)) with (cb_cgrp_map s). destruct (cb_cgrp_map s !! root_id t') as [a|] eqn:Ea.
  - destruct (wf_cgx _ Hs _ _ Ea) as (_ & x & Hx & _). rewrite (rolled_ctx ls es s path' t' a x), roll_ctx_flag, orb_true_iff, Z.leb_le by done.
    split; [intros Hf; by exists a, x|]. intros (a' & x' & Ha & Hx' & Hf). assert (a' = a) as -> by congruence. by assert (x' = x) as -> by congruence.
  - split; [done|]. by intros (a & x & ? & _).
Qed.

(** The accounting timer. *)
Definition over_above (s : cbw) (path : list Z) (t : cgtree) (path' : list Z) (t' : cgtree) : Prop :=
  ∃ path'' u, occurs path t path'' u ∧ occurs path'' u path' t' ∧ (length path < length path'' < length path')%nat ∧ over_budget s path'' u.

Lemma accounting_run cl path rid cs s : let t := CgNode rid cs in
  cbw_wf s → running s = false → fits conf (cb_levels s) → (∀ c, c ∈ descendants_post path t → cg_level c < H) →
  Z.of_nat (length path) = cf_root_level conf → (length (descendants_post path t) <= cl)%nat → NoDup (path ++ ids_of path t) →
  ∃ ls es interval, accounting_timerfn conf cl (Some (path, t)) s = Some (interval, throttled conf (descendants_post path t) (rolled ls es s)) ∧ NoDup es.*1 ∧
    (∀ path' t', occurs path t path' t' → (length path < length path')%nat → (root_id t', subtree_time conf s (length path') t') ∈ es) ∧
    CBW_ACCOUNTING_PERIOD_MIN <= interval <= CBW_ACCOUNTING_PERIOD_MAX ∧
    (∀ c t1, c ∈ descendants_post path t → predicted conf (rolled ls es s) c t1 → interval <= Z.max CBW_ACCOUNTING_PERIOD_MIN (t1 / CBW_ACCOUNTING_PERIOD_DIVISOR)).
Proof.
  intros t Hs Hr Hf Hlev Hroot Hcl Hnd. pose proof Hnd as (_ & _ & Hnd2)%NoDup_app.
  assert (cg_level (Cgroup rid (path ++ [rid])) < H) as HH by (apply Hlev; apply (occurs_post path t path t); constructor). rewrite cg_level_of in HH.
  destruct (rollup_run conf cl path rid cs s Hs Hf ltac:(lia) Hroot Hcl Hnd2) as (ls & es & E & Hes & Hin & _). fold t in E, Hin.
  set (s1 := rolled ls es s) in *. assert (throttled conf [] s1 = s1) as E0 by done.
  destruct (throttle_run conf [] (descendants_post path t) s1 CBW_U64_MAX) as (mt & Et & Hle & Hmin); [by apply rolled_wf|done|by apply walk_coherent|done|intros d Hd; apply Hlev in Hd; lia|].
  rewrite E0 in Et. simpl in Et. exists ls, es, (cclamp (mt / CBW_ACCOUNTING_PERIOD_DIVISOR) CBW_ACCOUNTING_PERIOD_MIN CBW_ACCOUNTING_PERIOD_MAX). split; [|split; [done|split; [|split]]].
  - unfold accounting_timerfn, cbw_top_half_running. erewrite ST_bind_run; [|done]. unfold running in Hr. rewrite Hr. rewrite (ST_bind_run _ _ _ _ _ E).
    unfold cbw_throttle_cgroups. by rewrite (ST_bind_run _ _ _ _ _ Et).
  - intros path' t' Ho Hl. apply Hin; [done|done|]. pose proof (Hlev _ (occurs_post _ _ _ _ Ho)) as Hl'. by rewrite cg_level_of in Hl'.
  - rewrite cclamp_min_max. unfold CBW_ACCOUNTING_PERIOD_MIN, CBW_ACCOUNTING_PERIOD_MAX. lia.
  - intros c t1 Hc Hp. assert (mt / CBW_ACCOUNTING_PERIOD_DIVISOR <= t1 / CBW_ACCOUNTING_PERIOD_DIVISOR) by (apply Z.div_le_mono; [done|by apply (Hmin c)]).
    rewrite cclamp_min_max. lia.
Qed.

(** The cgroups above in the tree and the ancestors of the walk. *)
Lemma over_above_spec ls es s path t path' t' : cbw_wf s → NoDup es.*1 → Z.of_nat (length path) = cf_root_level conf → occurs path t path' t' →
  (∀ p u, occurs path t p u → (length path < length p)%nat → (root_id u, subtree_time conf s (length p) u) ∈ es) →
  below_throttled conf (rolled ls es s) (Cgroup (root_id t') (path' ++ [root_id t'])) ↔ over_above s path t path' t'.
Proof.
  intros Hs Hnd Hroot Ho Hin. rewrite (below_throttled_tree conf _ path t path' t' Hroot Ho). unfold over_above. do 2 (apply exist_proper; intros ?).
  split; intros (Hu & Hu' & Hl & Ht); (do 3 (split; [done|])); (eapply rolled_over; [done|exact Hnd|apply Hin; [done|lia]|exact Ht]).
Qed.
End accounting.

