(* ===== verification/CgroupBwPeriod.v ===== *)
(** * Periods and budgets

    A period's budget is the quota with the credit for bursts, less the debt of the period
    before.  Over many periods the debts and the credits even out. *)

From S2P Require Import Prelude ScxTime Wp CgroupBw CgroupBwRoll CgroupBwThrottle.

Lemma time_delta_forward a b : 0 <= b <= a → a < two63 → time_delta a b = a - b.
Proof. intros Hb Ha. unfold time_delta. rewrite s64_small by (unfold two63 in *; lia). destruct (Z.ltb_spec 0 (a - b)); lia. Qed.

(** ** One cgroup *)
Section replenish.
Context (conf : cbw_conf) (nr_queued : Z → Z).

Definition backlogged (s : cbw) (id : Z) : bool :=
  existsb (λ i, match cb_llc_map s !! (id, Z.of_nat i) with
                | Some a => match cb_llcx s !! a with Some l => negb (nr_queued (lx_btq l) =? 0) | None => false end
                | None => false end) (seq 0 (cf_nr_llc conf)).
Lemma backlogged_loop_run s n i id : cbw_wf s → backlogged_loop n (Z.of_nat i) nr_queued id s =
  Some (existsb (λ i, match cb_llc_map s !! (id, Z.of_nat i) with
                      | Some a => match cb_llcx s !! a with Some l => negb (nr_queued (lx_btq l) =? 0) | None => false end
                      | None => false end) (seq i n), s).
Proof.
  intros Hs. revert i. induction n as [|n IH]; intros i; [done|]. cbn [backlogged_loop seq existsb]. unfold cbw_get_llc_ctx_raw_with_id. erewrite ST_bind_run; [|done].
  replace (Z.of_nat i + 1) with (Z.of_nat (S i)) by lia. destruct (cb_llc_map s !! (id, Z.of_nat i)) as [a|] eqn:Ea; simpl; [|apply IH].
  destruct (wf_llcx _ Hs _ _ Ea) as [Hn [l Hl]]. rewrite (proj2 (Z.eqb_neq a NULL)) by done. erewrite ST_bind_run; [|by apply rdl_run]. rewrite Hl.
  destruct (nr_queued (lx_btq l) =? 0); simpl; [apply IH|done].
Qed.

(** The context after its replenishment. *)
Definition replenished (now : Z) (x : scx_cgroup_ctx) : scx_cgroup_ctx :=
  if limited x then on_rw (set_throttled (xw_period_budget (cx_rw (replenish_ctx now x)) <=? 0)) (replenish_ctx now x) else on_rw (set_throttled false) x.
Lemma replenish_ctx_ro now x : cx_ro (replenish_ctx now x) = cx_ro x.
Proof. unfold replenish_ctx. repeat case_match; done. Qed.
Lemma replenished_ro now x : cx_ro (replenished now x) = cx_ro x.
Proof. unfold replenished. case_match; simpl; [apply replenish_ctx_ro|done]. Qed.
Lemma replenish_ctx_flag now x : xw_is_throttled (cx_rw (replenish_ctx now x)) = xw_is_throttled (cx_rw x).
Proof. unfold replenish_ctx. repeat case_match; done. Qed.

Lemma update_wf_id s a x y : cbw_wf s → cb_cgx s !! a = Some x → xo_id (cx_ro y) = xo_id (cx_ro x) → cbw_wf (with_cgx <[a := y]> s).
Proof.
  intros [H1 H2 H3] Hx E. split; [|done|done]. intros id b Hi. destruct (H1 id b Hi) as (Hn & z & Hz & Ez). split; [done|]. simpl.
  destruct (decide (a = b)) as [->|Hne]; [|exists z; by rewrite lookup_insert_ne]. exists y. rewrite lookup_insert_eq, E. split; [done|congruence].
Qed.
Lemma update_wf s a x f : cbw_wf s → cb_cgx s !! a = Some x → cx_ro (f x) = cx_ro x → cbw_wf (with_cgx <[a := f x]> s).
Proof. intros Hs Hx E. apply (update_wf_id s a x); [done|done|by rewrite E]. Qed.
Lemma with_cgx_twice a x y s : with_cgx <[a := x]> (with_cgx <[a := y]> s) = with_cgx <[a := x]> s.
Proof. unfold with_cgx. simpl. by rewrite insert_insert_eq. Qed.

Lemma replenish_run s a x now : cbw_wf s → a ≠ NULL → cb_cgx s !! a = Some x →
  cbw_replenish_cgroup conf nr_queued a now s =
    Some (xw_is_throttled (cx_rw x) || xw_is_throttled (cx_rw (replenished now x)) || backlogged s (xo_id (cx_ro x)), with_cgx <[a := replenished now x]> s).
Proof.
  intros Hs Hn Hx. unfold cbw_replenish_cgroup. rewrite (ST_bind_run _ _ _ _ _ (rdx_run a x s Hx)).
  assert (∀ y keep, xw_is_throttled (cx_rw y) = xw_is_throttled (cx_rw x) → cx_ro y = cx_ro x → replenished now x = on_rw (set_throttled keep) y →
    (x0 ← rdx a; wrx a (on_rw (set_throttled keep));; if xw_is_throttled (cx_rw x0) || keep then mret true else cbw_has_backlogged_tasks conf nr_queued a) (with_cgx <[a := y]> s) =
    Some (xw_is_throttled (cx_rw x) || xw_is_throttled (cx_rw (replenished now x)) || backlogged s (xo_id (cx_ro x)), with_cgx <[a := replenished now x]> s)) as Hrest.
  { intros y keep Eth Ero ->. erewrite ST_bind_run; [|apply rdx_run; apply lookup_insert_eq]. erewrite ST_bind_run; [|apply wrx_run; apply lookup_insert_eq].
    rewrite with_cgx_twice, Eth. change (xw_is_throttled (cx_rw (on_rw (set_throttled keep) y))) with keep. destruct (xw_is_throttled (cx_rw x) || keep); [done|].
    unfold cbw_has_backlogged_tasks. rewrite (proj2 (Z.eqb_neq a NULL)) by done. erewrite ST_bind_run; [|apply rdx_run; apply lookup_insert_eq].
    simpl (xo_id _). rewrite Ero. apply (backlogged_loop_run (with_cgx <[a := on_rw (set_throttled keep) y]> s) _ 0). apply (update_wf s a x (λ _, on_rw (set_throttled keep) y)); done. }
  unfold replenished, limited in *. destruct (xo_nquota_ub (cx_ro x) =? CBW_RUNTUME_INF) eqn:Eub; cbn [negb] in *.
  - erewrite ST_bind_run; [|done]. specialize (Hrest x false eq_refl eq_refl eq_refl). rewrite <-Hrest. f_equal. symmetry. apply with_cgx_id. by apply insert_id.
  - erewrite ST_bind_run; [|erewrite ST_bind_run; [|by apply wrx_run]; erewrite ST_bind_run; [|apply rdx_run; apply lookup_insert_eq]; done].
    apply Hrest; [apply replenish_ctx_flag|apply replenish_ctx_ro|done].
Qed.

(** ** Many periods *)

(** The periods' ends, with the time the cgroup's subtree used in each. *)
Fixpoint run_periods (a : Z) (l : list (Z * Z)) : BW unit :=
  match l with
  | [] => mret tt
  | (now, used) :: l => wrx a (on_rw (set_runtime 0 used));; cbw_replenish_cgroup conf nr_queued a now;; run_periods a l
  end.
Fixpoint periods_ctx (l : list (Z * Z)) (x : scx_cgroup_ctx) : scx_cgroup_ctx :=
  match l with [] => x | (now, used) :: l => periods_ctx l (replenished now (on_rw (set_runtime 0 used) x)) end.
Lemma run_periods_run l s a x : cbw_wf s → a ≠ NULL → cb_cgx s !! a = Some x → run_periods a l s = Some (tt, with_cgx <[a := periods_ctx l x]> s).
Proof.
  revert s x. induction l as [|[now used] l IH]; intros s x Hs Hn Hx; cbn [run_periods periods_ctx].
  - unfold mret, ST_ret. f_equal. f_equal. symmetry. apply with_cgx_id. by apply insert_id.
  - erewrite ST_bind_run; [|by apply wrx_run]. set (x1 := on_rw (set_runtime 0 used) x). assert (cbw_wf (with_cgx <[a := x1]> s)) as Hs1 by by apply (update_wf s a x (λ _, x1)).
    rewrite (ST_bind_run _ _ _ _ _ (replenish_run (with_cgx <[a := x1]> s) a x1 now Hs1 Hn (lookup_insert_eq _ _ _))). rewrite with_cgx_twice.
    rewrite IH with (x := replenished now x1); [by rewrite with_cgx_twice| |done|apply lookup_insert_eq].
    apply (update_wf s a x (λ _, replenished now x1)); [done|done|exact (replenished_ro now x1)].
Qed.

Definition sum_used (l : list (Z * Z)) : Z := foldr (λ e z, e.2 + z) 0 l.
Definition last_end (start : Z) (l : list (Z * Z)) : Z := foldl (λ _ e, e.1) start l.
(** Periods that end one after the other. *)
Fixpoint periods_ok (prev : Z) (l : list (Z * Z)) : Prop :=
  match l with [] => True | (now, used) :: l => prev <= now < two63 ∧ 0 <= used ∧ periods_ok now l end.

Definition big : Z := 2 ^ 60.
Record ctx_ranges (x : scx_cgroup_ctx) : Prop := CtxRanges {
  cr_ub : 0 <= xo_nquota_ub (cx_ro x) <= big;
  cr_nquota : 0 <= xo_nquota (cx_ro x) < two63;
  cr_burst : 0 <= xo_burst (cx_ro x) <= big;
  cr_remaining : 0 <= xw_burst_remaining (cx_rw x) <= big;
  cr_budget : xw_period_budget (cx_rw x) <= 2 * big;
}.

Lemma replenished_step now used x : let y := replenished now (on_rw (set_runtime 0 used) x) in
  ctx_ranges x → 0 <= used <= big → - 2 * big + used <= xw_period_budget (cx_rw x) → 
  ∃ credit, 0 <= credit <= xw_burst_remaining (cx_rw x) ∧
    xw_period_budget (cx_rw y) = xo_nquota_ub (cx_ro x) + credit - Z.max (used - xw_period_budget (cx_rw x)) 0 ∧
    (xw_burst_remaining (cx_rw y), xw_period_start_clk (cx_rw y)) =
      (if xo_period (cx_ro x) <=? time_delta now (xw_period_start_clk (cx_rw x)) then (xo_burst (cx_ro x), now)
       else (xw_burst_remaining (cx_rw x) - credit, xw_period_start_clk (cx_rw x))) ∧
    xw_is_throttled (cx_rw y) = (xw_period_budget (cx_rw y) <=? 0).
Proof.
  intros y [Hub Hnq Hbu Hrem Hbud] Hused Hlow. exists (Z.min (Z.max (xo_nquota (cx_ro x) - used) 0) (xw_burst_remaining (cx_rw x))).
  assert (big * 8 = two63) as Eb by done. split; [lia|].
  assert (limited x = true) as El. { unfold limited. rewrite (proj2 (Z.eqb_neq _ _)); [done|]. change CBW_RUNTUME_INF with (two63 - 1). lia. }
  assert (y = on_rw (set_throttled (xw_period_budget (cx_rw (replenish_ctx now (on_rw (set_runtime 0 used) x))) <=? 0)) (replenish_ctx now (on_rw (set_runtime 0 used) x))) as ->.
  { unfold y, replenished. change (limited (on_rw (set_runtime 0 used) x)) with (limited x). by rewrite El. }
  assert (period_debt (set_runtime 0 used (cx_rw x)) = Z.max (used - xw_period_budget (cx_rw x)) 0) as Ed.
  { unfold period_debt. rewrite cmax_max. cbn [xw_runtime_total_last set_runtime xw_period_budget]. rewrite s64_small by lia. done. }
  assert (period_credit (on_rw (set_runtime 0 used) x) = Z.min (Z.max (xo_nquota (cx_ro x) - used) 0) (xw_burst_remaining (cx_rw x))) as Ec.
  { unfold period_credit. rewrite cclamp_min_max. cbn. rewrite (s64_small (xo_nquota _)), s64_small by lia. done. }
  set (credit := Z.min _ _) in *. set (debt := Z.max _ _) in *. assert (0 <= credit <= big) as Hcr by lia. assert (0 <= debt <= 3 * big) as Hde by lia.
  assert (∀ p : bool, let z := if p then on_rw (set_period_start now) (on_rw (set_runtime 0 used) x) else on_rw (set_runtime 0 used) x in
    period_debt (cx_rw z) = debt ∧ period_credit z = credit ∧ cx_ro z = cx_ro x ∧ xw_burst_remaining (cx_rw z) = xw_burst_remaining (cx_rw x)) as Hz by (by intros []).
  unfold replenish_ctx. cbn [cx_ro cx_rw on_rw set_runtime xw_period_start_clk].
  destruct (xo_period (cx_ro x) <=? time_delta now (xw_period_start_clk (cx_rw x))); [specialize (Hz true)|specialize (Hz false)]; cbv zeta in Hz; destruct Hz as (Ed' & Ec' & _ & _);
    cbn [cx_ro cx_rw on_rw set_period_start set_burst_remaining set_period_budget set_runtime xw_runtime_total_last] in Ed', Ec' |- *; rewrite Ed', Ec';
    rewrite (s64_small (xo_nquota_ub _)), (s64_small (_ + credit)), (s64_small (_ + credit - debt)) by lia;
    (destruct (0 <? used); cbn; (split; [done|]; split; [|done]); rewrite s64_small by lia; done).
Qed.

(** Used times and what is left, against what was granted. *)
Lemma periods_bound l x prev : ctx_ranges x → 0 <= xw_period_start_clk (cx_rw x) <= prev → 0 < xo_period (cx_ro x) → periods_ok prev l → sum_used l <= big →
  - 2 * big + sum_used l <= xw_period_budget (cx_rw x) →
  cx_ro (periods_ctx l x) = cx_ro x ∧
  ∃ ends, 0 <= ends ∧ ends * xo_period (cx_ro x) <= last_end prev l - xw_period_start_clk (cx_rw x) ∧
    0 <= xw_burst_remaining (cx_rw (periods_ctx l x)) ∧
    sum_used l + xw_period_budget (cx_rw (periods_ctx l x)) + xw_burst_remaining (cx_rw (periods_ctx l x)) <=
      xw_period_budget (cx_rw x) + xw_burst_remaining (cx_rw x) + Z.of_nat (length l) * xo_nquota_ub (cx_ro x) + ends * xo_burst (cx_ro x).
Proof.
  revert x prev. induction l as [|[now used] l IH]; intros x prev Hx Hst Hper Hok Hsum Hlow.
  { split; [done|]. exists 0. destruct Hx as [_ _ _ Hrem _]. simpl. unfold last_end. simpl. lia. }
  destruct Hok as (Hnow & Hused & Hok). cbn [periods_ctx last_end foldl fst]. change (foldl (λ (_ : Z) e, e.1) now l) with (last_end now l). unfold sum_used in Hsum, Hlow |- *. cbn [foldr snd] in Hsum, Hlow |- *. fold (sum_used l) in *.
  assert (0 <= sum_used l) as Hpos. { clear -Hok. revert now Hok. induction l as [|[n u] l IH]; intros now; [done|]. intros (_ & Hu & Hok). apply IH in Hok. unfold sum_used in *. simpl. lia. }
  destruct (replenished_step now used x Hx ltac:(lia) ltac:(lia)) as (credit & Hcr & Ebud & Erem & _). set (y := replenished now (on_rw (set_runtime 0 used) x)) in *.
  assert (cx_ro y = cx_ro x) as Ero by exact (replenished_ro now (on_rw (set_runtime 0 used) x)). destruct Hx as [Hub Hnq Hbu Hrem Hbud].
  rewrite time_delta_forward in Erem by lia. destruct (Z.leb_spec (xo_period (cx_ro x)) (now - xw_period_start_clk (cx_rw x))) as [Hend|Hend]; injection Erem as Er Es.
  - destruct (IH y now) as (E1 & ends & Hen & Hle & Hr & Htot); [split; rewrite ?Ero, ?Er; lia|lia|by rewrite Ero|done|lia|lia|].
    rewrite Ero in *. split; [done|]. exists (ends + 1). split; [lia|]. split; [lia|]. split; [done|]. cbn [length]. lia.
  - destruct (IH y now) as (E1 & ends & Hen & Hle & Hr & Htot); [split; rewrite ?Ero, ?Er; lia|lia|by rewrite Ero|done|lia|lia|].
    rewrite Ero in *. split; [done|]. exists ends. split; [lia|]. split; [lia|]. split; [done|]. cbn [length]. lia.
Qed.
End replenish.
