(* ===== verification/CgroupBwBill.v ===== *)
(** * Billing

    A task's time is billed to the nearest cgroup above it that has a context, in the context of
    the last-level cache it ran on.  The task keeps the resolved addresses; a generation number
    tells it when to forget them. *)

From S2P Require Import Prelude ScxTime Wp CgroupBw CgroupBwRoll CgroupBwThrottle CgroupBwPeriod.

Section bill.
Context (conf : cbw_conf).
Local Abbreviation rootl := (Z.to_nat (cf_root_level conf)).
Local Abbreviation root := (cf_root_cgid conf).

(** ** The nearest managed cgroup *)
Definition managed (s : cbw) (id : Z) : bool := bool_decide (is_Some (cb_cgrp_map s !! id)).
Definition nearest (s : cbw) (c : cgroup) : Z := default root (List.find (managed s) (rev (drop rootl (cg_path c)))).
(** A cgroup of the kernel below the library's root. *)
Record cgroup_ok (c : cgroup) : Prop := CgroupOk {
  ok_path : ∃ p, cg_path c = p ++ [cg_id c] ∧ (rootl <= length p)%nat;
  ok_ids : 0 ∉ cg_path c;
}.

Lemma eff_parent_loop_run s c n i : cbw_wf s → 0 ∉ cg_path c → 1 <= i → cg_level c - i + 1 = Z.of_nat (rootl + n) →
  eff_parent_loop n i c s = Some (default 0 (List.find (managed s) (rev (drop rootl (take (rootl + n) (cg_path c))))), s).
Proof.
  intros Hs H0. revert i. induction n as [|n IH]; intros i Hi El; cbn [eff_parent_loop].
  - by rewrite drop_ge by (rewrite length_take; lia).
  - assert (rootl + n < length (cg_path c))%nat as Hlt by (unfold cg_level in El; lia). destruct (lookup_lt_is_Some_2 _ _ Hlt) as [id Hid].
    replace (rootl + S n)%nat with (S (rootl + n)) by lia. rewrite (take_S_r _ _ id Hid), drop_app_le by (rewrite length_take; lia). rewrite rev_app_distr. cbn [rev app List.find].
    rewrite (proj2 (ancestor_spec c (cg_level c - i) id)) by (split; [lia|]; by replace (Z.to_nat (cg_level c - i)) with (rootl + n)%nat by lia).
    assert (id ≠ 0) as Hid0 by (intros ->; apply H0; by eapply list_elem_of_lookup_2). unfold managed at 1. destruct (cb_cgrp_map s !! id) as [a|] eqn:Ea.
    + destruct (wf_cgx _ Hs _ _ Ea) as (Hn & _). rewrite (ST_bind_run _ _ _ _ _ (ctx_some s id a Ea)). rewrite (proj2 (Z.eqb_neq a NULL)) by done. cbn [negb].
      rewrite (proj2 (Z.eqb_neq id 0)) by done. rewrite bool_decide_true by done. done.
    + rewrite (ST_bind_run _ _ _ _ _ (ctx_none s id Ea)). rewrite Z.eqb_refl. cbn [negb]. rewrite bool_decide_false by (by intros [? ?]).
      apply IH; lia.
Qed.
Lemma resolve_run s c : cbw_wf s → cgroup_ok c → 0 <= cf_root_level conf → cbw_resolve_bill_cgid conf c s = Some (nearest s c, s).
Proof.
  intros Hs [(p & Ep & Hp) H0] Hr. unfold cbw_resolve_bill_cgid, nearest, cbw_get_cgroup_ctx. rewrite Ep, drop_app_le, rev_app_distr by done. cbn [rev app List.find]. unfold managed at 1.
  assert (cg_id c ≠ 0) as Hid0 by (intros E; apply H0; rewrite Ep, E; apply elem_of_app; right; left).
  destruct (cb_cgrp_map s !! cg_id c) as [a|] eqn:Ea.
  - destruct (wf_cgx _ Hs _ _ Ea) as (Hn & _). rewrite (ST_bind_run _ _ _ _ _ (ctx_some s _ a Ea)). rewrite (proj2 (Z.eqb_neq a NULL)) by done. cbn [negb]. erewrite ST_bind_run; [|done].
    rewrite (proj2 (Z.eqb_neq (cg_id c) 0)) by done. by rewrite bool_decide_true.
  - rewrite (ST_bind_run _ _ _ _ _ (ctx_none s _ Ea)). rewrite Z.eqb_refl. cbn [negb]. unfold cbw_eff_parent_cgid.
    assert (cg_level c = Z.of_nat (length p)) as El by (unfold cg_level; rewrite Ep, length_app; simpl; lia).
    erewrite ST_bind_run; [|apply eff_parent_loop_run; [done|done|lia|lia]]. rewrite bool_decide_false by (by intros [? ?]).
    replace (rootl + Z.to_nat (cg_level c - cf_root_level conf))%nat with (length p) by lia. rewrite Ep, take_app_length.
    destruct (List.find _ _) as [id|] eqn:Ef; simpl; [|done]. rewrite (proj2 (Z.eqb_neq id 0)); [done|].
    intros ->. apply List.find_some in Ef as [Hin _]. apply in_rev, list_elem_of_In in Hin. apply H0. rewrite Ep. apply elem_of_app. left.
    eapply elem_of_sublist; [exact Hin|apply sublist_drop].
Qed.

(** ** The task's cache *)
Definition synced (s : cbw) (t : scx_task_cgroup_bw) : scx_task_cgroup_bw := if tb_bill_gen t =? cb_bill_gen s then t else drop_billing (cb_bill_gen s) t.
(** The cgroup the time of a task goes to: the nearest managed one from its cgroup [own] upwards, [None] for the root. *)
Definition home (s : cbw) (own : option cgroup) : Z := match own with None => root | Some c => nearest s c end.
(** What a task of the cgroup [own] has kept in this generation is what a search finds and the maps say. *)
Record cache_ok (s : cbw) (own : option cgroup) (t : scx_task_cgroup_bw) : Prop := CacheOk {
  co_bill : tb_bill_cgrp_id t ≠ 0 → tb_bill_cgrp_id t = home s own;
  co_cgx : tb_cgx_raw t ≠ 0 → tb_bill_cgrp_id t ≠ 0 ∧ cb_cgrp_map s !! tb_bill_cgrp_id t = Some (tb_cgx_raw t);
  co_llcx : tb_llcx_raw t ≠ 0 → tb_bill_cgrp_id t ≠ 0 ∧ cb_llc_map s !! (tb_bill_cgrp_id t, tb_last_llc_id t) = Some (tb_llcx_raw t);
}.
Definition task_ok (s : cbw) (own : option cgroup) (t : scx_task_cgroup_bw) : Prop := tb_bill_gen t = cb_bill_gen s → cache_ok s own t.
Lemma synced_ok s own t : task_ok s own t → cache_ok s own (synced s t).
Proof. intros Ht. unfold synced. destruct (Z.eqb_spec (tb_bill_gen t) (cb_bill_gen s)) as [E|E]; [by apply Ht|]. by split. Qed.

(** Whether the caller names the task, or the task has kept its target in this generation. *)
Definition target_known (s : cbw) (t : scx_task_cgroup_bw) (p : option (option cgroup)) : bool :=
  match p with Some _ => true | None => negb (tb_bill_cgrp_id (synced s t) =? 0) end.
(** The context of a cache it is added to, for a limited cgroup. *)
Definition charged (s : cbw) (bill cur : Z) : option Z :=
  if (bill =? 0) || (bill =? root) then None else
  a ← cb_cgrp_map s !! bill; x ← cb_cgx s !! a; if limited x && (0 <=? cur) then cb_llc_map s !! (bill, cur) else None.
(** Whether a cgroup has a limit; the code of an attempt to charge it. *)
Definition billed (s : cbw) (bill : Z) : bool :=
  if (bill =? 0) || (bill =? root) then false else match a ← cb_cgrp_map s !! bill; cb_cgx s !! a with Some x => limited x | None => false end.
Definition bill_code (s : cbw) (bill cur : Z) : Z := if billed s bill && (cur <? 0) then - EINVAL else 0.
Definition charge (la : option Z) (v : Z) (m : gmap Z scx_cgroup_llc_ctx) : gmap Z scx_cgroup_llc_ctx :=
  match la with Some a => alter (λ l, set_runtime_total (s64 (lx_runtime_total l + v)) l) a m | None => m end.

Definition upd_task (taskc : Z) (t : scx_task_cgroup_bw) (s : cbw) : cbw := with_tasks <[taskc := t]> s.
Lemma upd_task_id taskc t s : cb_tasks s !! taskc = Some t → upd_task taskc t s = s.
Proof. intros Ht. destruct s. unfold upd_task, with_tasks. simpl in *. by rewrite insert_id. Qed.
Lemma upd_task_twice taskc t t' s : upd_task taskc t (upd_task taskc t' s) = upd_task taskc t s.
Proof. unfold upd_task, with_tasks. simpl. by rewrite insert_insert_eq. Qed.
Lemma rdb_upd taskc t s : rdb taskc (upd_task taskc t s) = Some (t, upd_task taskc t s).
Proof. unfold rdb. simpl. by rewrite lookup_insert_eq. Qed.
Lemma wrb_upd taskc t f s : wrb taskc f (upd_task taskc t s) = Some (tt, upd_task taskc (f t) s).
Proof. unfold wrb. rewrite (ST_bind_run _ _ _ _ _ (rdb_upd taskc t s)). unfold modifies. by rewrite <-(upd_task_twice taskc (f t) t s). Qed.
Lemma sync_run s taskc t : cb_tasks s !! taskc = Some t → cbw_sync_bill_gen taskc s = Some (tt, upd_task taskc (synced s t) s).
Proof.
  intros Ht. unfold cbw_sync_bill_gen, synced. erewrite ST_bind_run; [|done]. rewrite <-(upd_task_id taskc t s Ht) at 1. rewrite (ST_bind_run _ _ _ _ _ (rdb_upd taskc t s)).
  destruct (tb_bill_gen t =? cb_bill_gen s); cbn [negb]; [done|apply wrb_upd].
Qed.

(** ** Charging *)
Lemma charge_run s taskc own t a x cur v carry : cbw_wf s → cache_ok s own t → tb_cgx_raw t = a → a ≠ 0 → cb_cgx s !! a = Some x → tb_bill_cgrp_id t ≠ root →
  ∃ ret t', consume_charge taskc a cur v carry (upd_task taskc t s) =
    Some (ret, with_llcx (charge (charged s (tb_bill_cgrp_id t) cur) (u64 (v + carry))) (upd_task taskc t' s)) ∧ cache_ok s own t' ∧
    tb_pending_ns t' = tb_pending_ns t ∧ tb_bill_cgrp_id t' = tb_bill_cgrp_id t ∧ tb_bill_gen t' = tb_bill_gen t ∧
    ret = (if limited x && (cur <? 0) then - EINVAL else 0).
Proof.
  intros Hs Hc Ea Ha Hx Hroot. destruct (co_cgx _ _ _ Hc) as [Hb Hm]; [congruence|]. rewrite Ea in Hm. destruct (wf_cgx _ Hs _ _ Hm) as (_ & x' & Hx' & Eid). assert (x' = x) as -> by congruence.
  unfold consume_charge. erewrite ST_bind_run; [|by apply rdx_run]. unfold charged. rewrite (proj2 (Z.eqb_neq _ 0)), (proj2 (Z.eqb_neq _ root)) by done. rewrite Hm. cbn [orb mbind option_bind]. rewrite Hx. cbn [mbind option_bind].
  unfold limited. assert (∀ s, with_llcx (λ m, m) s = s) as Hid by by intros [].
  destruct (xo_nquota_ub (cx_ro x) =? CBW_RUNTUME_INF); cbn [negb andb]; [exists 0, t; cbn [charge]; by rewrite Hid|].
  rewrite Z.leb_antisym. destruct (Z.ltb_spec cur 0) as [Hneg|Hcur]; cbn [negb]; [exists (- EINVAL), t; cbn [charge]; by rewrite Hid|].
  rewrite (ST_bind_run _ _ _ _ _ (rdb_upd taskc t s)).
  assert (∃ r t', (if negb (tb_llcx_raw t =? 0) && (tb_last_llc_id t =? cur) then mret (tb_llcx_raw t)
     else raw ← cbw_get_llc_ctx_raw_with_id (xo_id (cx_ro x)) cur; (if negb (raw =? NULL) then wrb taskc (set_llcx_raw raw cur) else mret tt);; mret raw) (upd_task taskc t s)
    = Some (r, upd_task taskc t' s) ∧ cb_llc_map s !! (tb_bill_cgrp_id t, cur) = (if r =? 0 then None else Some r) ∧ cache_ok s own t' ∧
    tb_pending_ns t' = tb_pending_ns t ∧ tb_bill_cgrp_id t' = tb_bill_cgrp_id t ∧ tb_bill_gen t' = tb_bill_gen t) as (r & t' & Erun & Er & Hc' & Ep & Ebi & Eg).
  { destruct (Z.eqb_spec (tb_llcx_raw t) 0) as [E0|Hne]; [|destruct (Z.eqb_spec (tb_last_llc_id t) cur) as [<-|]]; cbn [negb andb].
    2: { exists (tb_llcx_raw t), t. split; [done|]. rewrite (proj2 (Z.eqb_neq _ 0)) by done. by destruct (co_llcx _ _ _ Hc Hne) as [_ ?]. }
    all: unfold cbw_get_llc_ctx_raw_with_id; erewrite ST_bind_run; [|done]; rewrite Eid; change (cb_llc_map (upd_task taskc t s)) with (cb_llc_map s);
      destruct (cb_llc_map s !! (tb_bill_cgrp_id t, cur)) as [r|] eqn:Er; cbn [default from_option id];
      [destruct (wf_llcx _ Hs _ _ Er) as [Hn _]; rewrite (proj2 (Z.eqb_neq r NULL)) by done; cbn [negb]; rewrite (ST_bind_run _ _ _ _ _ (wrb_upd taskc t (set_llcx_raw r cur) s));
       exists r, (set_llcx_raw r cur t); split; [done|]; rewrite (proj2 (Z.eqb_neq r 0)) by done; split; [done|]; split; [|done]; split; [apply (co_bill _ _ _ Hc)|apply (co_cgx _ _ _ Hc)|done]
      |exists 0, t; done]. }
  rewrite (ST_bind_run _ _ _ _ _ Erun), Er. destruct (Z.eqb_spec r NULL) as [->|Hr]; [exists 0, t'; cbn [charge]; by rewrite Hid|].
  destruct (wf_llcx _ Hs _ _ Er) as [_ [l Hl]]. erewrite ST_bind_run; [|by apply wrl_run]. exists 0, t'. split; [|done]. cbn [charge]. unfold mret, ST_ret, with_llcx. simpl. by rewrite (alter_known _ r l _ Hl).
Qed.

(** ** The task's cgroup *)
Lemma nearest_pos s c : cgroup_ok c → root ≠ 0 → nearest s c ≠ 0.
Proof.
  intros [_ H0] Hr. unfold nearest. destruct (List.find _ _) as [id|] eqn:Ef; [|done]. apply List.find_some in Ef as [Hin _]. apply in_rev, list_elem_of_In in Hin.
  simpl. intros ->. apply H0. eapply elem_of_sublist; [exact Hin|apply sublist_drop].
Qed.
Lemma bill_task_run s taskc own t p : cbw_wf s → taskc ≠ NULL → cache_ok s own t → 0 <= cf_root_level conf → (∀ c, own = Some c → cgroup_ok c) → (p = None ∨ p = Some own) →
  let bill := match p with None => tb_bill_cgrp_id t | Some _ => home s own end in
  ∃ t', cbw_bill_task conf taskc p (upd_task taskc t s) = Some (bill, upd_task taskc t' s) ∧ cache_ok s own t' ∧
    tb_bill_cgrp_id t' = bill ∧ tb_pending_ns t' = tb_pending_ns t ∧ tb_bill_gen t' = tb_bill_gen t.
Proof.
  intros Hs Hn Hc Hr Hown Hp bill. unfold cbw_bill_task. rewrite (proj2 (Z.eqb_neq taskc NULL)) by done. cbn [negb].
  erewrite ST_bind_run; [|by rewrite (ST_bind_run _ _ _ _ _ (rdb_upd taskc t s))]. destruct (Z.eqb_spec (tb_bill_cgrp_id t) 0) as [E0|Hne]; cbn [negb].
  2: { exists t. assert (bill = tb_bill_cgrp_id t) as -> by (unfold bill; destruct p; [by rewrite (co_bill _ _ _ Hc)|done]). done. }
  destruct p as [cgrp|]; [|exists t; by rewrite <-E0]. destruct Hp as [Hp|Hp]; [done|]. injection Hp as ->.
  assert (match own with Some c => cbw_resolve_bill_cgid conf c | None => mret root end (upd_task taskc t s) = Some (bill, upd_task taskc t s)) as Eb.
  { unfold bill, home. destruct own as [c|]; [|done]. change (nearest s c) with (nearest (upd_task taskc t s) c). apply resolve_run; [by destruct Hs; split|by apply Hown|done]. }
  rewrite (ST_bind_run _ _ _ _ _ Eb). rewrite (ST_bind_run _ _ _ _ _ (wrb_upd taskc t (set_bill bill) s)). exists (set_bill bill t). split; [done|].
  split; [|done]. destruct Hc as [_ H1 H2]. split; simpl; intros Hx; [done|by destruct (H1 Hx)|by destruct (H2 Hx)].
Qed.
Lemma set_pending_same v t : tb_pending_ns t = v → set_pending v t = t.
Proof. destruct t. unfold set_pending. simpl. by intros ->. Qed.
Lemma cache_pending s own v t : cache_ok s own t → cache_ok s own (set_pending v t).
Proof. intros []. by split. Qed.
Lemma home_pos s own : (∀ c, own = Some c → cgroup_ok c) → root ≠ 0 → home s own ≠ 0.
Proof. destruct own as [c|]; [|done]. intros Hc Hr. apply nearest_pos; [by apply Hc|done]. Qed.

Lemma consume_run s taskc own t p consumed cur : cbw_wf s → 0 <= cf_root_level conf → root ≠ 0 → taskc ≠ NULL → cb_tasks s !! taskc = Some t → task_ok s own t →
  (∀ c, own = Some c → cgroup_ok c) → (p = None ∨ p = Some own) → let bill := if target_known s t p then home s own else 0 in
  ∃ t', scx_cgroup_bw_consume conf p taskc consumed cur s =
      Some (bill_code s bill cur, with_llcx (charge (charged s bill cur) (u64 (consumed + tb_pending_ns t))) (upd_task taskc t' s)) ∧
    task_ok s own t' ∧ tb_bill_cgrp_id t' = bill ∧ tb_pending_ns t' = (if bill =? 0 then u64 (tb_pending_ns t + consumed) else 0).
Proof.
  intros Hs Hrl Hr0 Hn Ht Hok Hown Hp bill. unfold scx_cgroup_bw_consume. rewrite (proj2 (Z.eqb_neq taskc NULL)) by done. rewrite (ST_bind_run _ _ _ _ _ (sync_run s taskc t Ht)).
  pose proof (synced_ok s own t Hok) as Hc1. set (t1 := synced s t) in *. assert (tb_pending_ns t1 = tb_pending_ns t) as Ep by (unfold t1, synced; by case_match).
  rewrite (ST_bind_run _ _ _ _ _ (rdb_upd taskc t1 s)). set (t2 := set_pending 0 t1). assert (cache_ok s own t2) as Hc2 by by apply cache_pending.
  assert ((if negb (tb_pending_ns t1 =? 0) then wrb taskc (set_pending 0);; mret (tb_pending_ns t1) else mret 0) (upd_task taskc t1 s) = Some (tb_pending_ns t, upd_task taskc t2 s)) as Ecarry.
  { destruct (Z.eqb_spec (tb_pending_ns t1) 0) as [E0|Hne]; cbn [negb]; [unfold t2; by rewrite set_pending_same, <-Ep, E0|]. by rewrite (ST_bind_run _ _ _ _ _ (wrb_upd taskc t1 (set_pending 0) s)), Ep. }
  rewrite (ST_bind_run _ _ _ _ _ Ecarry), (ST_bind_run _ _ _ _ _ (rdb_upd taskc t2 s)).
  assert (∀ s, with_llcx (λ m, m) s = s) as Hid by by intros []. assert (bill = match p with None => tb_bill_cgrp_id t2 | Some _ => home s own end) as Ebill.
  { unfold bill, target_known. fold t1. change (tb_bill_cgrp_id t1) with (tb_bill_cgrp_id t2). destruct p; [done|]. destruct (Z.eqb_spec (tb_bill_cgrp_id t2) 0) as [->|Hne]; [done|]. by rewrite (co_bill _ _ _ Hc2 Hne). }
  assert (tb_bill_cgrp_id t2 ≠ 0 → bill = tb_bill_cgrp_id t2) as Ekept by (intros Hne; rewrite Ebill; destruct p; [by rewrite (co_bill _ _ _ Hc2 Hne)|done]).
  assert (∀ b, b = root ∨ b = 0 ∨ cb_cgrp_map s !! b = None → bill_code s b cur = 0) as Hcode.
  { intros b Hb. unfold bill_code, billed. destruct Hb as [->|[->|Hb]]; [by rewrite Z.eqb_refl, orb_true_r|done|]. rewrite Hb. by destruct (_ || _). }
  assert (∀ b cur, b = root → charged s b cur = None) as Hcr by (intros b c ->; unfold charged; by rewrite Z.eqb_refl, orb_true_r).
  destruct (Z.eqb_spec (tb_bill_cgrp_id t2) root) as [Er|Hnr].
  { assert (bill = root) as Eb by (rewrite Ekept by congruence; done).
    exists t2. rewrite (Hcr bill), Hcode by (done || by left). cbn [charge]. rewrite Hid, Eb, (proj2 (Z.eqb_neq root 0)) by done. split; [done|]. split; [by intros _|]. by split. }
  assert (∀ a t3 x, cache_ok s own t3 → tb_cgx_raw t3 = a → a ≠ 0 → cb_cgx s !! a = Some x → tb_bill_cgrp_id t3 = bill → tb_pending_ns t3 = 0 → bill ≠ root →
    ∃ t', consume_charge taskc a cur consumed (tb_pending_ns t) (upd_task taskc t3 s) = Some (bill_code s bill cur, with_llcx (charge (charged s bill cur) (u64 (consumed + tb_pending_ns t))) (upd_task taskc t' s)) ∧
      task_ok s own t' ∧ tb_bill_cgrp_id t' = bill ∧ tb_pending_ns t' = (if bill =? 0 then u64 (tb_pending_ns t + consumed) else 0)) as Hcharge.
  { intros a t3 x Hc3 Ea Ha Hx Eb3 Ep3 Hbr. destruct (charge_run s taskc own t3 a x cur consumed (tb_pending_ns t) Hs Hc3 Ea Ha Hx) as (ret & t' & E & Hc' & Ep' & Eb' & _ & Er); [congruence|].
    destruct (co_cgx _ _ _ Hc3) as [Hb0 Hm]; [congruence|]. rewrite Eb3 in E, Hb0, Hm. rewrite Ea in Hm.
    assert (ret = bill_code s bill cur) as -> by (unfold bill_code, billed; rewrite (proj2 (Z.eqb_neq bill 0)), (proj2 (Z.eqb_neq bill root)), Hm by done; cbn; by rewrite Hx).
    exists t'. split; [exact E|]. split; [intros _; exact Hc'|]. split; [congruence|].
    by rewrite (proj2 (Z.eqb_neq bill 0)), Ep' by done. }
  destruct (Z.eqb_spec (tb_cgx_raw t2) 0) as [Ex0|Hx0]; cbn [negb].
  2: { destruct (co_cgx _ _ _ Hc2 Hx0) as [Hb0 Hm]. destruct (wf_cgx _ Hs _ _ Hm) as (_ & x & Hx & _). assert (bill = tb_bill_cgrp_id t2) as Eb by by apply Ekept.
       apply (Hcharge _ t2 x); congruence || done. }
  destruct (bill_task_run s taskc own t2 p Hs Hn Hc2 Hrl Hown Hp) as (t3 & E3 & Hc3 & Eb3 & Ep3 & Eg3). rewrite (ST_bind_run _ _ _ _ _ E3). cbv zeta in *. rewrite <-Ebill in *.
  change (tb_pending_ns t2) with 0 in Ep3. destruct (Z.eqb_spec bill 0) as [Eb0|Hb0].
  { rewrite (ST_bind_run _ _ _ _ _ (wrb_upd taskc t3 _ s)). rewrite Hcode by auto. eexists. split; [|split; [|split]].
    - replace (charged s bill cur) with (@None Z) by (unfold charged; by rewrite Eb0). cbn [charge]. by rewrite Hid.
    - intros _. by apply cache_pending.
    - done.
    - simpl. by rewrite Ep3, Z.add_0_l, u64_idemp. }
  destruct (Z.eqb_spec bill root) as [Eb|Hbr]; [exists t3; rewrite (Hcr bill), Hcode by auto; cbn [charge]; rewrite Hid; split; [done|]; split; [by intros _|done]|].
  destruct (cb_cgrp_map s !! bill) as [a|] eqn:Ea.
  - destruct (wf_cgx _ Hs _ _ Ea) as (Ha & x & Hx & _). rewrite (ST_bind_run _ _ _ _ _ (ctx_some (upd_task taskc t3 s) _ a Ea)). rewrite (proj2 (Z.eqb_neq a NULL)) by done.
    rewrite (ST_bind_run _ _ _ _ _ (wrb_upd taskc t3 (set_cgx_raw a) s)). apply (Hcharge a (set_cgx_raw a t3) x); try done.
    destruct Hc3 as [Hb _ Hl]. split; simpl; [exact Hb|intros _; by rewrite Eb3|exact Hl].
  - rewrite (ST_bind_run _ _ _ _ _ (ctx_none (upd_task taskc t3 s) _ Ea)). rewrite Z.eqb_refl. rewrite Hcode by auto. exists t3. split; [|split; [by intros _|done]].
    replace (charged s bill cur) with (@None Z) by (unfold charged; rewrite Ea; by destruct (_ || _)). cbn [charge]. by rewrite Hid.
Qed.

(** ** A task that moves *)
(** The context of a cache that the carried time is added to: of the last cache the task was charged for, if that is kept, else of the current one. *)
Definition move_target (s : cbw) (from : cgroup) (t : scx_task_cgroup_bw) (cur : Z) : option Z :=
  let bill := nearest s from in
  if tb_pending_ns t =? 0 then None else
  if negb (tb_llcx_raw t =? 0) then cb_llc_map s !! (bill, tb_last_llc_id t) else
  if managed s bill && (0 <=? cur) then cb_llc_map s !! (bill, cur) else None.

(** The context found for the cgroup. *)
Lemma move_ctx_run s from t : cbw_wf s → 0 <= cf_root_level conf → cgroup_ok from → cache_ok s (Some from) t →
  (if negb (tb_cgx_raw t =? 0) then mret (tb_cgx_raw t) else bill ← cbw_resolve_bill_cgid conf from; cbw_get_cgroup_ctx_raw bill) s =
    Some (default NULL (cb_cgrp_map s !! nearest s from), s).
Proof.
  intros Hs Hrl Hf Hc. destruct (Z.eqb_spec (tb_cgx_raw t) 0) as [E0|Hne]; cbn [negb].
  - by rewrite (ST_bind_run _ _ _ _ _ (resolve_run s from Hs Hf Hrl)).
  - destruct (co_cgx _ _ _ Hc Hne) as [Hb Hm]. rewrite (co_bill _ _ _ Hc Hb) in Hm. simpl in Hm. by rewrite Hm.
Qed.
Lemma upd_wf taskc t s : cbw_wf s → cbw_wf (upd_task taskc t s).
Proof. by intros []. Qed.

Lemma move_run s taskc from t cur : cbw_wf s → 0 <= cf_root_level conf → taskc ≠ NULL → cb_tasks s !! taskc = Some t → cache_ok s (Some from) t → cgroup_ok from →
  move_billing conf from taskc cur s =
    Some (tt, with_llcx (charge (move_target s from t cur) (tb_pending_ns t)) (upd_task taskc (drop_billing (tb_bill_gen t) (set_pending 0 t)) s)).
Proof.
  intros Hs Hrl Hn Ht Hc Hf. unfold move_billing. rewrite (proj2 (Z.eqb_neq taskc NULL)) by done. rewrite <-(upd_task_id taskc t s Ht) at 1.
  rewrite (ST_bind_run _ _ _ _ _ (rdb_upd taskc t s)). cbv zeta. rewrite (ST_bind_run _ _ _ _ _ (wrb_upd taskc t (set_pending 0) s)). set (t2 := set_pending 0 t). set (s2 := upd_task taskc t2 s).
  assert (∀ s, with_llcx (λ m, m) s = s) as Hid by by intros []. assert (cbw_wf s2) as Hs2 by by apply upd_wf.
  assert (cache_ok s2 (Some from) t2) as Hc2 by (destruct Hc; by split).
  assert (∀ la, (∀ a, la = Some a → is_Some (cb_llcx s !! a) ∧ a ≠ 0) →
    (if default 0 la =? NULL then mret tt else wrl (default 0 la) (λ l, set_runtime_total (s64 (lx_runtime_total l + tb_pending_ns t)) l)) s2 =
      Some (tt, with_llcx (charge la (tb_pending_ns t)) s2)) as Hstore.
  { intros [a|] Hla; cbn [default from_option id charge]; [|by rewrite Hid]. destruct (Hla a eq_refl) as [[l Hl] Ha]. rewrite (proj2 (Z.eqb_neq a NULL)) by done.
    erewrite wrl_run by exact Hl. unfold with_llcx. simpl. by rewrite (alter_known _ a l _ Hl). }
  assert (∀ id llc a, cb_llc_map s !! (id, llc) = Some a → is_Some (cb_llcx s !! a) ∧ a ≠ 0) as Hllc by (intros id llc a Ha; by destruct (wf_llcx _ Hs _ _ Ha)).
  match goal with |- context [if tb_pending_ns t =? 0 then _ else ?m] => set (charge_it := m) end.
  assert ((if tb_pending_ns t =? 0 then mret tt else charge_it) s2 = Some (tt, with_llcx (charge (move_target s from t cur) (tb_pending_ns t)) s2)) as Erun.
  { unfold move_target. destruct (tb_pending_ns t =? 0); [by rewrite Hid|]. unfold charge_it. rewrite (ST_bind_run _ _ _ _ _ (rdb_upd taskc t2 s)). fold s2.
    change (tb_llcx_raw t2) with (tb_llcx_raw t). destruct (Z.eqb_spec (tb_llcx_raw t) 0) as [E0|Hne]; cbn [negb].
    - erewrite ST_bind_run; [apply (Hstore (if managed s (nearest s from) && (0 <=? cur) then cb_llc_map s !! (nearest s from, cur) else None))|].
      { intros a. destruct (_ && _); [apply Hllc|done]. }
      rewrite (ST_bind_run _ _ _ _ _ (move_ctx_run s2 from t2 Hs2 Hrl Hf Hc2)). change (nearest s2 from) with (nearest s from). change (cb_cgrp_map s2) with (cb_cgrp_map s).
      unfold managed. destruct (cb_cgrp_map s !! nearest s from) as [a|] eqn:Ea; cbn [default from_option id]; [|by rewrite bool_decide_false by by intros [? ?]].
      destruct (wf_cgx _ Hs _ _ Ea) as (Ha & x & Hx & Eid). rewrite (proj2 (Z.eqb_neq a NULL)), bool_decide_true by done. cbn [negb andb]. destruct (0 <=? cur); [|done].
      erewrite ST_bind_run; [|by apply rdx_run]. by rewrite Eid.
    - destruct (co_llcx _ _ _ Hc Hne) as [Hb Hm]. rewrite (co_bill _ _ _ Hc Hb) in Hm. simpl in Hm. rewrite Hm. apply (Hstore (Some (tb_llcx_raw t))). intros a [= <-]. by eapply Hllc. }
  rewrite (ST_bind_run _ _ _ _ _ Erun). unfold s2.
  change (with_llcx (charge (move_target s from t cur) (tb_pending_ns t)) (upd_task taskc t2 s)) with (upd_task taskc t2 (with_llcx (charge (move_target s from t cur) (tb_pending_ns t)) s)).
  by rewrite wrb_upd.
Qed.
End bill.
