(* ===== verification/CgroupBwQuota.v ===== *)
(** * Quotas and effective parents of the hierarchy

    A new limit pushed down a subtree, and a cgroup with a new context put between its subtree and the cgroup above. *)

From S2P Require Import Prelude ScxTime Wp CgroupBw CgroupBwRoll CgroupBwThrottle CgroupBwPeriod CgroupBwBill.

(** * Quotas of the hierarchy

    [nquota_ub] of a cgroup is the least quota among the cgroup and the limited cgroups
    above it.  A new limit is pushed down the subtree in pre-order. *)

(** The context of a cgroup. *)
Definition ctx_at (s : cbw) (id : Z) : option scx_cgroup_ctx := a ← cb_cgrp_map s !! id; cb_cgx s !! a.

(** The bound of a context, from its quota and the bound of its effective parent. *)
Definition ub_of (s : cbw) (x : scx_cgroup_ctx) : Z :=
  match ctx_at s (xo_eff_parent_id (cx_ro x)) with Some p => Z.min (xo_nquota (cx_ro x)) (xo_nquota_ub (cx_ro p)) | None => xo_nquota (cx_ro x) end.
Definition ub_ok_at (s : cbw) (id : Z) : Prop := ∀ x, ctx_at s id = Some x → xo_nquota_ub (cx_ro x) = ub_of s x.

(** [s'] differs from [s] in the bounds of the cgroups [ids] only. *)
Record ub_changes (ids : list Z) (s s' : cbw) : Prop := UbChanges {
  uc_maps : s' = with_cgx (λ _, cb_cgx s') s;
  uc_ctx : ∀ a, (∀ id, id ∈ ids → cb_cgrp_map s !! id ≠ Some a) → cb_cgx s' !! a = cb_cgx s !! a;
  uc_ub : ∀ a x, cb_cgx s !! a = Some x → ∃ v, cb_cgx s' !! a = Some (on_ro (set_nquota_ub v) x);
}.
Lemma ub_same x : on_ro (set_nquota_ub (xo_nquota_ub (cx_ro x))) x = x.
Proof. by destruct x as [[] xw]. Qed.
Lemma ub_changes_refl ids s : ub_changes ids s s.
Proof. split; [by destruct s|done|]. intros a x Hx. exists (xo_nquota_ub (cx_ro x)). by rewrite ub_same. Qed.
Lemma ub_changes_trans ids ids' s s1 s2 : ub_changes ids s s1 → ub_changes ids' s1 s2 → ub_changes (ids ++ ids') s s2.
Proof.
  intros [E1 H1 U1] [E2 H2 U2]. assert (cb_cgrp_map s1 = cb_cgrp_map s) as Em by by rewrite E1. split.
  - rewrite E2. rewrite E1. done.
  - intros a Ha. rewrite H2, H1; [done| |]; intros id Hid; rewrite ?Em; apply Ha, elem_of_app; auto.
  - intros a x Hx. destruct (U1 a x Hx) as [v Hv]. destruct (U2 _ _ Hv) as [w Hw]. by exists w.
Qed.
Lemma ub_changes_map ids s s' : ub_changes ids s s' → cb_cgrp_map s' = cb_cgrp_map s.
Proof. intros [E _ _]. by rewrite E. Qed.
Lemma ub_changes_wf ids s s' : ub_changes ids s s' → cbw_wf s → cbw_wf s'.
Proof.
  intros [E _ U] [H1 H2 H3]. rewrite E. split; simpl; [|done|done]. intros id a Hi. destruct (H1 id a Hi) as (Hn & x & Hx & Ex). split; [done|].
  destruct (U a x Hx) as [v Hv]. eexists. split; [exact Hv|done].
Qed.
Lemma ub_changes_other ids s s' id : cbw_wf s → ub_changes ids s s' → id ∉ ids → ctx_at s' id = ctx_at s id.
Proof.
  intros Hs Hu Hid. unfold ctx_at. rewrite (ub_changes_map _ _ _ Hu). destruct (cb_cgrp_map s !! id) as [a|] eqn:Ea; [|done]. simpl.
  apply (uc_ctx _ _ _ Hu). intros id' Hid' E. assert (id' = id) as -> by by eapply wf_inj. done.
Qed.
Lemma ub_changes_ctx ids s s' id x' : ub_changes ids s s' → cbw_wf s → ctx_at s' id = Some x' → ∃ x v, ctx_at s id = Some x ∧ x' = on_ro (set_nquota_ub v) x.
Proof.
  intros Hu Hs. unfold ctx_at. rewrite (ub_changes_map _ _ _ Hu). destruct (cb_cgrp_map s !! id) as [a|] eqn:Ea; [|done]. simpl. intros Hx'.
  destruct (wf_cgx _ Hs _ _ Ea) as (_ & x & Hx & _). destruct (uc_ub _ _ _ Hu a x Hx) as [v Hv]. exists x, v. split; [done|congruence].
Qed.

(** A bound stays right while neither the cgroup nor its effective parent changes. *)
Lemma ub_ok_kept ids s s' id : cbw_wf s → ub_changes ids s s' → ub_ok_at s id → id ∉ ids → (∀ x, ctx_at s id = Some x → xo_eff_parent_id (cx_ro x) ∉ ids) → ub_ok_at s' id.
Proof.
  intros Hs Hu Hok Hid Hp x Hx. rewrite (ub_changes_other ids s s') in Hx by done. rewrite (Hok x Hx). unfold ub_of.
  by rewrite (ub_changes_other ids s s' (xo_eff_parent_id (cx_ro x))) by (done || by apply Hp).
Qed.

(** ** One cgroup *)
Lemma update_ub_run s id a x : cbw_wf s → cb_cgrp_map s !! id = Some a → cb_cgx s !! a = Some x →
  cbw_update_nquota_ub a s = Some (0, with_cgx <[a := on_ro (set_nquota_ub (ub_of s x)) x]> s).
Proof.
  intros Hs Ha Hx. destruct (wf_cgx _ Hs _ _ Ha) as (Hn & _). unfold cbw_update_nquota_ub. rewrite (proj2 (Z.eqb_neq a NULL)) by done.
  rewrite (ST_bind_run _ _ _ _ _ (rdx_run a x s Hx)). unfold cbw_get_cgroup_ctx_with_id, ub_of, ctx_at. destruct (cb_cgrp_map s !! xo_eff_parent_id (cx_ro x)) as [b|] eqn:Eb; simpl.
  - destruct (wf_cgx _ Hs _ _ Eb) as (Hnb & p & Hp & _). rewrite (ST_bind_run _ _ _ _ _ (ctx_some s _ b Eb)). rewrite (proj2 (Z.eqb_neq b NULL)) by done. cbn [negb].
    erewrite ST_bind_run; [|by rewrite (ST_bind_run _ _ _ _ _ (rdx_run b p s Hp))]. erewrite ST_bind_run; [|by apply wrx_run]. by rewrite Hp, cmin_min.
  - rewrite (ST_bind_run _ _ _ _ _ (ctx_none s _ Eb)). rewrite Z.eqb_refl. cbn [negb]. erewrite ST_bind_run; [|done]. erewrite ST_bind_run; [|by apply wrx_run]. done.
Qed.
Lemma update_ub_changes s id a x v : cb_cgrp_map s !! id = Some a → cb_cgx s !! a = Some x → ub_changes [id] s (with_cgx <[a := on_ro (set_nquota_ub v) x]> s).
Proof.
  intros Ha Hx. split; [done| |].
  - intros b Hb. simpl. rewrite lookup_insert_ne; [done|]. intros ->. by apply (Hb id); [left|].
  - intros b y Hy. simpl. destruct (decide (a = b)) as [->|Hne]; [exists v; rewrite lookup_insert_eq; congruence|exists (xo_nquota_ub (cx_ro y)); by rewrite lookup_insert_ne, ub_same].
Qed.

Lemma update_ub_loop_app l l' s s' : update_ub_loop l s = Some (0, s') → update_ub_loop (l ++ l') s = update_ub_loop l' s'.
Proof.
  revert s. induction l as [|c l IH]; intros s; simpl; [by intros [= ->]|]. intros E. apply ST_bind_inv in E as (a & s1 & E1 & E). rewrite (ST_bind_run _ _ _ _ _ E1).
  destruct (a =? NULL); [by apply IH|]. apply ST_bind_inv in E as (r & s2 & E2 & E). rewrite (ST_bind_run _ _ _ _ _ E2). destruct (Z.eqb_spec r 0) as [->|Hne]; cbn [negb] in *; [by apply IH|].
  by injection E as ->.
Qed.
Lemma update_ub_one c s : cbw_wf s → (∀ x, ctx_at s (cg_id c) = Some x → xo_eff_parent_id (cx_ro x) ≠ cg_id c) →
  ∃ s', update_ub_loop [c] s = Some (0, s') ∧ ub_changes [cg_id c] s s' ∧ ub_ok_at s' (cg_id c).
Proof.
  intros Hs Hne. cbn [update_ub_loop]. destruct (cb_cgrp_map s !! cg_id c) as [a|] eqn:Ea.
  - destruct (wf_cgx _ Hs _ _ Ea) as (Hn & x & Hx & _). rewrite (ST_bind_run _ _ _ _ _ (ctx_some s _ a Ea)). rewrite (proj2 (Z.eqb_neq a NULL)) by done.
    rewrite (ST_bind_run _ _ _ _ _ (update_ub_run s _ a x Hs Ea Hx)). simpl. eexists. split; [done|]. pose proof (update_ub_changes s _ a x (ub_of s x) Ea Hx) as Hu. split; [done|].
    assert (ctx_at s (cg_id c) = Some x) as Hcx by (unfold ctx_at; by rewrite Ea).
    intros y Hy. unfold ctx_at in Hy. simpl in Hy. rewrite Ea in Hy. simpl in Hy. rewrite lookup_insert_eq in Hy. injection Hy as <-. cbn [on_ro cx_ro set_nquota_ub xo_nquota_ub].
    assert (∀ y, xo_eff_parent_id (cx_ro y) = xo_eff_parent_id (cx_ro x) → xo_nquota (cx_ro y) = xo_nquota (cx_ro x) → ub_of s x = ub_of (with_cgx <[a := on_ro (set_nquota_ub (ub_of s x)) x]> s) y) as Hub; [|by apply Hub].
    generalize dependent (with_cgx <[a := on_ro (set_nquota_ub (ub_of s x)) x]> s). intros s' Hu y Ee Eq. unfold ub_of. rewrite Ee, Eq. rewrite (ub_changes_other [cg_id c] s s' (xo_eff_parent_id (cx_ro x)) Hs Hu); [done|].
    intros Hin%list_elem_of_singleton. by apply (Hne x).
  - rewrite (ST_bind_run _ _ _ _ _ (ctx_none s _ Ea)). rewrite Z.eqb_refl. exists s. split; [done|]. split; [apply ub_changes_refl|]. intros x Hx. unfold ctx_at in Hx. by rewrite Ea in Hx.
Qed.

(** ** A subtree *)
Fixpoint tree_ids (t : cgtree) : list Z := match t with CgNode id cs => id :: concat (map tree_ids cs) end.
Lemma tree_ids_pre path t : cg_id <$> descendants_pre path t = tree_ids t.
Proof.
  revert path. induction t as [id cs IH] using cgtree_ind'. intros path. rewrite pre_unfold, fmap_cons. cbn [tree_ids cg_id]. f_equal. generalize (path ++ [id]). clear path. intros path.
  induction IH as [|c cs Hc _ IHcs]; [done|]. rewrite fmap_cons. cbn [concat map]. by rewrite fmap_app, Hc, IHcs.
Qed.
Lemma tree_ids_occurs path t id : id ∈ tree_ids t → ∃ p u, occurs path t p u ∧ root_id u = id.
Proof.
  revert path. induction t as [i cs IH] using cgtree_ind'. intros path. simpl. intros [->|Hid]%elem_of_cons; [exists path, (CgNode i cs); split; [constructor|done]|].
  apply elem_of_concat in Hid as (l & Hl & (c & -> & Hc)%list_elem_of_fmap). rewrite Forall_forall in IH. destruct (IH c Hc (path ++ [i]) Hl) as (p & u & Ho & Eu).
  exists p, u. split; [by econstructor|done].
Qed.
Lemma occurs_path_ids path t p u i : occurs path t p u → i ∈ p → i ∈ path ∨ i ∈ tree_ids t.
Proof.
  induction 1 as [path t|path id cs c p u Hc Ho IH]; [by left|]. intros Hi. simpl. destruct (IH Hi) as [[Hp| ->%list_elem_of_singleton]%elem_of_app|Ht]; [by left|right; left|].
  right. right. apply elem_of_concat. exists (tree_ids c). split; [done|]. by apply list_elem_of_fmap_2.
Qed.

(** The effective parents of a tree's cgroups are above them, or not among [ids]. *)
Definition parents_above (s : cbw) (ids path : list Z) (t : cgtree) : Prop :=
  ∀ p u x, occurs path t p u → ctx_at s (root_id u) = Some x → xo_eff_parent_id (cx_ro x) ∉ ids ∨ xo_eff_parent_id (cx_ro x) ∈ p.
Lemma parents_above_changes s s' ids ids' ids1 path t : cbw_wf s → ub_changes ids1 s s' → (∀ i, i ∈ ids' → i ∈ ids) → parents_above s ids path t → parents_above s' ids' path t.
Proof.
  intros Hs Hu Hsub Hp p u x' Ho Hx'. destruct (ub_changes_ctx _ _ _ _ _ Hu Hs Hx') as (x & v & Hx & ->). simpl. destruct (Hp p u x Ho Hx) as [Hn|]; [left; auto|by right].
Qed.

Definition pushes (t : cgtree) : Prop := ∀ path s, cbw_wf s → NoDup (path ++ tree_ids t) → parents_above s (tree_ids t) path t →
  ∃ s', update_ub_loop (descendants_pre path t) s = Some (0, s') ∧ ub_changes (tree_ids t) s s' ∧ ∀ id, id ∈ tree_ids t → ub_ok_at s' id.

Lemma forest_pushes cs path s : Forall pushes cs → cbw_wf s → NoDup (path ++ concat (map tree_ids cs)) → (∀ c, c ∈ cs → parents_above s (concat (map tree_ids cs)) path c) →
  ∃ s', update_ub_loop (concat (descendants_pre path <$> cs)) s = Some (0, s') ∧ ub_changes (concat (map tree_ids cs)) s s' ∧ ∀ id, id ∈ concat (map tree_ids cs) → ub_ok_at s' id.
Proof.
  intros Hcs. revert s. induction Hcs as [|c cs Hc Hcs IH]; intros s Hs Hnd Hp.
  { exists s. split; [done|]. split; [apply ub_changes_refl|]. intros id Hid. by apply not_elem_of_nil in Hid. }
  simpl in Hnd, Hp |- *. pose proof Hnd as Hnd0. apply NoDup_app in Hnd as (Hnd1 & Hdis1 & (Hnd2 & Hdis2 & Hnd3)%NoDup_app).
  destruct (Hc path s Hs) as (s1 & E1 & Hu1 & Hok1).
  - apply NoDup_app. split; [done|]. split; [|done]. intros i Hi Hi'. apply (Hdis1 i Hi). apply elem_of_app. by left.
  - eapply parents_above_changes; [done|apply (ub_changes_refl [])| |apply Hp; left]. intros i Hi. apply elem_of_app. by left.
  - pose proof (ub_changes_wf _ _ _ Hu1 Hs) as Hs1. destruct (IH s1 Hs1) as (s2 & E2 & Hu2 & Hok2).
    + apply NoDup_app. split; [done|]. split; [|done]. intros i Hi Hi'. apply (Hdis1 i Hi). apply elem_of_app. by right.
    + intros d Hd. eapply parents_above_changes; [exact Hs|exact Hu1| |apply Hp; by right]. intros i Hi. apply elem_of_app. by right.
    + exists s2. split; [by rewrite (update_ub_loop_app _ _ _ s1)|]. split; [by eapply ub_changes_trans|]. intros id [Hid|Hid]%elem_of_app; [|by apply Hok2].
      apply (ub_ok_kept _ s1 s2 id Hs1 Hu2); [by apply Hok1|by apply Hdis2|]. intros x Hx. destruct (ub_changes_ctx _ _ _ _ _ Hu1 Hs Hx) as (y & v & Hy & ->). simpl.
      destruct (tree_ids_occurs path c id Hid) as (p & u & Ho & <-). destruct (Hp c ltac:(left) p u y Ho Hy) as [Hn|Hin]; intros Hi; [apply Hn, elem_of_app; by right|].
      destruct (occurs_path_ids _ _ _ _ _ Ho Hin) as [Hpa|Ht]; [by apply (Hdis1 _ Hpa), elem_of_app; right|by apply (Hdis2 _ Ht)].
Qed.
Lemma tree_pushes t : pushes t.
Proof.
  induction t as [id cs IH] using cgtree_ind'. intros path s Hs Hnd Hp. rewrite pre_unfold. cbn [tree_ids] in *. apply NoDup_app in Hnd as (Hnd1 & Hdis & [Hni Hnd2]%NoDup_cons).
  assert (∀ x, ctx_at s id = Some x → xo_eff_parent_id (cx_ro x) ∉ id :: concat (map tree_ids cs)) as Hpr.
  { intros x Hx Hin. destruct (Hp path (CgNode id cs) x ltac:(constructor) Hx) as [Hn|Hpa]; [done|]. by apply (Hdis _ Hpa). }
  destruct (update_ub_one (Cgroup id (path ++ [id])) s Hs) as (s1 & E1 & Hu1 & Hok1); [intros x Hx E; apply (Hpr x Hx); rewrite E; left|]. cbn [cg_id] in *.
  pose proof (ub_changes_wf _ _ _ Hu1 Hs) as Hs1. destruct (forest_pushes cs (path ++ [id]) s1 IH Hs1) as (s2 & E2 & Hu2 & Hok2).
  - rewrite <-app_assoc. simpl. apply NoDup_app. split; [done|]. split; [done|]. by apply NoDup_cons.
  - intros c Hc. assert (parents_above s (id :: concat (map tree_ids cs)) (path ++ [id]) c) as Hpc by (intros p u x Ho; apply Hp; by econstructor).
    eapply parents_above_changes; [exact Hs|exact Hu1| |exact Hpc]. intros i Hi. by right.
  - exists s2. split; [change (?c :: ?l) with ([c] ++ l); by rewrite (update_ub_loop_app _ _ _ s1)|]. split; [exact (ub_changes_trans [id] _ _ _ _ Hu1 Hu2)|].
    intros i [->|Hi]%elem_of_cons; [|by apply Hok2]. apply (ub_ok_kept _ s1 s2 id Hs1 Hu2 Hok1 Hni). intros x Hx.
    destruct (ub_changes_ctx _ _ _ _ _ Hu1 Hs Hx) as (y & v & Hy & ->). simpl. intros Hin. apply (Hpr y Hy). by right.
Qed.

(** ** A new limit *)
Definition new_limits (now period_us quota_us burst_us : Z) (x : scx_cgroup_ctx) : scx_cgroup_ctx :=
  let x := on_rw (set_period_start now) x in
  let x := if quota_us =? CBW_RUNTUME_INF_RAW then on_ro (set_limits CBW_RUNTUME_INF_RAW (u64 (period_us * 1000)) 0 CBW_RUNTUME_INF) x
           else on_ro (set_limits (u64 (quota_us * 1000)) (u64 (period_us * 1000)) (u64 (burst_us * 1000)) (div_round_up (u64 (quota_us * CBW_REPLENISH_PERIOD)) period_us)) x in
  on_rw (set_burst_remaining (s64 (xo_burst (cx_ro x)))) x.
Lemma set_bandwidth_run now a period_us quota_us burst_us x s : cb_cgx s !! a = Some x →
  cbw_set_bandwidth now a period_us quota_us burst_us s = Some (0, with_cgx <[a := new_limits now period_us quota_us burst_us x]> s).
Proof.
  intros Hx. unfold cbw_set_bandwidth, new_limits. erewrite ST_bind_run; [|by apply wrx_run].
  destruct (quota_us =? CBW_RUNTUME_INF_RAW); (erewrite ST_bind_run; [|apply wrx_run; apply lookup_insert_eq]); rewrite with_cgx_twice;
    (erewrite ST_bind_run; [|apply wrx_run; apply lookup_insert_eq]); by rewrite with_cgx_twice.
Qed.
Lemma div_round_up_ceil a b : 0 <= a → 0 < b → a + b < two64 → (div_round_up a b - 1) * b < a <= div_round_up a b * b.
Proof.
  intros Ha Hb Hab. unfold div_round_up. rewrite (u64_small (a + b)) by (unfold is_u64; lia). rewrite u64_small by (unfold is_u64; lia).
  pose proof (Z.div_mod (a + b - 1) b ltac:(lia)). pose proof (Z.mod_pos_bound (a + b - 1) b Hb). nia.
Qed.
Lemma new_limits_parent now period_us quota_us burst_us x : let y := new_limits now period_us quota_us burst_us x in
  xo_id (cx_ro y) = xo_id (cx_ro x) ∧ xo_eff_parent_id (cx_ro y) = xo_eff_parent_id (cx_ro x).
Proof. unfold new_limits. by destruct (_ =? _). Qed.
Lemma ctx_at_update s id a x y id' : cbw_wf s → cb_cgrp_map s !! id = Some a → cb_cgx s !! a = Some x →
  ctx_at (with_cgx <[a := y]> s) id' = if decide (id' = id) then Some y else ctx_at s id'.
Proof.
  intros Hs Ha Hx. unfold ctx_at. simpl. case_decide as E; [subst; rewrite Ha; simpl; by rewrite lookup_insert_eq|].
  destruct (cb_cgrp_map s !! id') as [b|] eqn:Eb; [|done]. simpl. rewrite lookup_insert_ne; [done|]. intros ->. apply E. by eapply wf_inj.
Qed.

(** * Effective parents

    The effective parent of a cgroup is the nearest cgroup above it with a context.  When a cgroup gets a
    context, those below it that pointed past it are moved over. *)

Section repoint.
Context (from to : Z).

(** One context, moved over. *)
Definition moved (self id : Z) (x : scx_cgroup_ctx) : scx_cgroup_ctx :=
  if negb (id =? self) && (xo_eff_parent_id (cx_ro x) =? from) then on_ro (set_eff_parent to) x else x.
Definition moved_all (self : Z) (l : list cgroup) (s : cbw) : cbw :=
  with_cgx (λ m, foldl (upd_at cg_id (λ c, moved self (cg_id c)) (cb_cgrp_map s)) m l) s.
Lemma moved_id self id x : xo_id (cx_ro (moved self id x)) = xo_id (cx_ro x).
Proof. unfold moved. by destruct (_ && _). Qed.
Lemma moved_nquota self id x : xo_nquota (cx_ro (moved self id x)) = xo_nquota (cx_ro x).
Proof. unfold moved. by destruct (_ && _). Qed.
Lemma moved_ub_field self id x : xo_nquota_ub (cx_ro (moved self id x)) = xo_nquota_ub (cx_ro x).
Proof. unfold moved. by destruct (_ && _). Qed.
Lemma moved_eff self id x : xo_eff_parent_id (cx_ro (moved self id x)) = if negb (id =? self) && (xo_eff_parent_id (cx_ro x) =? from) then to else xo_eff_parent_id (cx_ro x).
Proof. unfold moved. by destruct (_ && _). Qed.

(** Updates of other contexts commute with a store. *)
Lemma upds_insert {E} (key : E → Z) g ids es (m : gmap Z scx_cgroup_ctx) a v : (∀ e, e ∈ es → ids !! key e ≠ Some a) →
  foldl (upd_at key g ids) (<[a := v]> m) es = <[a := v]> (foldl (upd_at key g ids) m es).
Proof.
  revert m. induction es as [|e es IH]; intros m Ha; [done|]. simpl. rewrite <-IH by (intros d Hd; apply Ha; by right). f_equal.
  unfold upd_at. specialize (Ha e ltac:(left)). destruct (ids !! key e) as [b|]; [|done]. by rewrite alter_insert_ne by congruence.
Qed.
(** The contexts under their cgroups, after an update of some. *)
Lemma ctx_at_moved self l s id : cbw_wf s → NoDup (cg_id <$> l) → ctx_at (moved_all self l s) id = (if decide (id ∈ cg_id <$> l) then moved self id else λ x, x) <$> ctx_at s id.
Proof.
  intros Hs Hnd. unfold ctx_at. change (cb_cgrp_map (moved_all self l s)) with (cb_cgrp_map s). destruct (cb_cgrp_map s !! id) as [a|] eqn:Ea; [|done]. cbn [mbind option_bind].
  destruct (wf_cgx _ Hs _ _ Ea) as (_ & x & Hx & _). rewrite Hx. simpl. case_decide as Hin.
  - apply list_elem_of_fmap in Hin as (c & -> & Hc). apply (upds_at cg_id (λ c, moved self (cg_id c)) _ _ _ _ _ c); [done| |done|done|done]. intros i j b. by apply wf_inj.
  - rewrite upds_other; [by rewrite Hx|]. intros c Hc Eb. apply Hin. rewrite <-(wf_inj s _ _ _ Hs Eb Ea). by apply list_elem_of_fmap_2.
Qed.
Lemma moved_wf self l s : cbw_wf s → NoDup (cg_id <$> l) → cbw_wf (moved_all self l s).
Proof.
  intros Hs Hnd. split; [|by destruct Hs|by destruct Hs]. intros id a Hi. pose proof (ctx_at_moved self l s id Hs Hnd) as E. unfold ctx_at in E. change (cb_cgrp_map (moved_all self l s)) with (cb_cgrp_map s) in *.
  destruct (wf_cgx _ Hs _ _ Hi) as (Hn & x & Hx & Ex). rewrite Hi in E. cbn [mbind option_bind] in E. rewrite Hx in E. simpl in E. split; [done|]. eexists. split; [exact E|]. case_decide; [by rewrite moved_id|done].
Qed.

(** The bound of a cgroup depends on its own and its parent's context only. *)
Lemma ub_of_moved self l s x : cbw_wf s → NoDup (cg_id <$> l) → ub_of (moved_all self l s) x = ub_of s x.
Proof.
  intros Hs Hnd. unfold ub_of. rewrite ctx_at_moved by done. destruct (ctx_at s _) as [p|]; simpl; [|done]. case_decide; [by rewrite moved_ub_field|done].
Qed.

(** Moving on the way down is moving first and then computing the bounds. *)
Lemma repoint_loop_run self l s : cbw_wf s → NoDup (cg_id <$> l) → repoint_loop l self from to s = update_ub_loop l (moved_all self l s).
Proof.
  revert s. induction l as [|c l IH]; intros s Hs Hnd; cbn [repoint_loop update_ub_loop]; [unfold moved_all, with_cgx; by destruct s|].
  rewrite fmap_cons in Hnd. pose proof Hnd as [Hni Hnd']%NoDup_cons. set (s1 := moved_all self [c] s). assert (cbw_wf s1) as Hs1 by by apply moved_wf, NoDup_singleton.
  assert (moved_all self (c :: l) s = moved_all self l s1) as Ecl by done. unfold cbw_get_cgroup_ctx_with_id.
  destruct (cb_cgrp_map s !! cg_id c) as [a|] eqn:Ea.
  - destruct (wf_cgx _ Hs _ _ Ea) as (Hn & x & Hx & Eid). rewrite (ST_bind_run _ _ _ _ _ (ctx_some s _ a Ea)), (ST_bind_run _ _ _ _ _ (ctx_some (moved_all self (c :: l) s) _ a Ea)).
    rewrite (proj2 (Z.eqb_neq a NULL)) by done. erewrite ST_bind_run; [|by apply rdx_run]. rewrite Eid, Z.eqb_refl. cbn [negb]. set (y := moved self (cg_id c) x).
    assert (s1 = with_cgx <[a := y]> s) as Es1 by (unfold s1, moved_all, with_cgx; simpl; unfold upd_at; rewrite Ea; by rewrite (alter_known _ a x _ Hx)).
    assert (cb_cgx s1 !! a = Some y) as Hy1 by (rewrite Es1; apply lookup_insert_eq).
    assert ((if negb (cg_id c =? self) && (xo_eff_parent_id (cx_ro x) =? from) then wrx a (on_ro (set_eff_parent to)) else mret tt) s = Some (tt, s1)) as E1.
    { rewrite Es1. unfold y, moved. destruct (_ && _); [by apply wrx_run|]. unfold mret, ST_ret. f_equal. f_equal. symmetry. apply with_cgx_id. by apply insert_id. }
    rewrite (ST_bind_run _ _ _ _ _ E1), (ST_bind_run _ _ _ _ _ (update_ub_run s1 (cg_id c) a y Hs1 Ea Hy1)). cbn [Z.eqb negb].
    assert (cb_cgx (moved_all self (c :: l) s) !! a = Some y) as Hy2.
    { pose proof (ctx_at_moved self (c :: l) s (cg_id c) Hs Hnd) as E. unfold ctx_at in E. change (cb_cgrp_map (moved_all self (c :: l) s)) with (cb_cgrp_map s) in E. rewrite Ea in E. cbn [mbind option_bind] in E. rewrite Hx in E.
      rewrite decide_True in E by left. exact E. }
    rewrite (ST_bind_run _ _ _ _ _ (update_ub_run (moved_all self (c :: l) s) (cg_id c) a y (moved_wf self (c :: l) s Hs Hnd) Ea Hy2)). cbn [Z.eqb negb].
    rewrite Ecl, (ub_of_moved self l s1 y Hs1 Hnd'). set (v := on_ro (set_nquota_ub (ub_of s1 y)) y). rewrite IH; [|by apply (update_wf_id s1 a y)|done]. f_equal.
    unfold moved_all, with_cgx. simpl. f_equal. apply upds_insert. intros d Hd Ed. apply Hni. rewrite (wf_inj s _ _ _ Hs Ea Ed). by apply list_elem_of_fmap_2.
  - rewrite (ST_bind_run _ _ _ _ _ (ctx_none s _ Ea)), (ST_bind_run _ _ _ _ _ (ctx_none (moved_all self (c :: l) s) _ Ea)). rewrite Z.eqb_refl. rewrite IH by done. rewrite Ecl.
    f_equal. f_equal. unfold s1, moved_all, with_cgx. simpl. unfold upd_at. rewrite Ea. by destruct s.
Qed.
End repoint.

(** ** The nearest cgroup above *)

Lemma occurs_nodup path t p u : occurs path t p u → NoDup (path ++ tree_ids t) → NoDup (p ++ tree_ids u).
Proof.
  induction 1 as [path t|path id cs c p u Hc Ho IH]; [done|]. intros Hnd. apply IH. rewrite <-app_assoc. eapply sublist_NoDup; [exact Hnd|]. apply sublist_app; [done|]. simpl. apply sublist_skip.
  clear -Hc. induction cs as [|d cs IH]; [by apply not_elem_of_nil in Hc|]. simpl. apply elem_of_cons in Hc as [<-|Hc]; [apply sublist_inserts_r; done|apply sublist_inserts_l; by apply IH].
Qed.
Lemma occurs_split path t p u : occurs path t p u → (length path < length p)%nat → ∃ q, p = path ++ root_id t :: q.
Proof.
  intros Ho Hl. inversion Ho as [|? id cs c ? ? Hc Ho']; subst; [lia|]. destruct (occurs_path _ _ _ _ Ho') as [q ->]. exists q. by rewrite <-app_assoc.
Qed.
Lemma occurs_same path t p u : occurs path t p u → length p = length path → p = path ∧ u = t.
Proof.
  intros Ho Hl. inversion Ho as [|? id cs c ? ? Hc Ho']; subst; [done|]. destruct (occurs_path _ _ _ _ Ho') as [q ->]. rewrite !length_app in Hl. simpl in Hl. lia.
Qed.

Section nearest.
Context (conf : cbw_conf).
(** The nearest of the cgroups [p] that [f] holds of, [0] if there is none. *)
Definition nearest_of (f : Z → bool) (p : list Z) : Z := default 0 (List.find f (rev (drop (Z.to_nat (cf_root_level conf)) p))).
Definition others_managed (s : cbw) (r id : Z) : bool := managed s id && negb (id =? r).

Lemma nearest_in f p : nearest_of f p = 0 ∨ nearest_of f p ∈ p.
Proof.
  unfold nearest_of. destruct (List.find _ _) as [i|] eqn:E; [|by left]. right. simpl. apply find_in in E as [Hi _]. apply list_elem_of_In, in_rev, list_elem_of_In in Hi.
  eapply elem_of_sublist; [exact Hi|apply sublist_drop].
Qed.
(** A cgroup [r] that gets a context takes over those that pointed to the nearest one above it. *)
Lemma nearest_takeover s path r q : (Z.to_nat (cf_root_level conf) <= length path)%nat → NoDup (path ++ r :: q) → 0 ∉ q → managed s r = true →
  let from := nearest_of (managed s) path in let before := nearest_of (others_managed s r) (path ++ r :: q) in
  nearest_of (managed s) (path ++ r :: q) = if before =? from then r else before.
Proof.
  intros Hl Hnd H0 Hr from before. apply NoDup_app in Hnd as (_ & Hdis & [Hrq _]%NoDup_cons). subst from before. unfold nearest_of. rewrite !drop_app_le by done. set (top := drop _ path).
  assert (∀ i, i ∈ top → i ∈ path) as Htop by (intros i Hi; eapply elem_of_sublist; [exact Hi|apply sublist_drop]).
  rewrite !rev_app_distr. cbn [rev]. rewrite <-!app_assoc, !find_app. cbn [app List.find]. rewrite Hr.
  assert (List.find (others_managed s r) (rev q) = List.find (managed s) (rev q)) as Eq.
  { apply find_ext. intros i Hi. unfold others_managed. rewrite (proj2 (Z.eqb_neq i r)); [by rewrite andb_true_r|]. intros ->. apply Hrq. apply list_elem_of_In, in_rev, list_elem_of_In in Hi. done. }
  assert (List.find (others_managed s r) (rev top) = List.find (managed s) (rev top)) as Et.
  { apply find_ext. intros i Hi. unfold others_managed. rewrite (proj2 (Z.eqb_neq i r)); [by rewrite andb_true_r|]. intros ->. apply list_elem_of_In, in_rev, list_elem_of_In in Hi. apply (Hdis r (Htop _ Hi)). left. }
  assert (others_managed s r r = false) as -> by (unfold others_managed; by rewrite Z.eqb_refl, andb_false_r). rewrite Eq, Et.
  destruct (List.find (managed s) (rev q)) as [i|] eqn:Ei; simpl; [|by rewrite Z.eqb_refl]. apply find_in in Ei as [Hi _]. apply list_elem_of_In, in_rev, list_elem_of_In in Hi.
  rewrite (proj2 (Z.eqb_neq _ _)); [done|]. intros E. destruct (List.find (managed s) (rev top)) as [j|] eqn:Ej; simpl in E; [|by subst].
  apply find_in in Ej as [Hj _]. apply list_elem_of_In, in_rev, list_elem_of_In in Hj. subst j. apply (Hdis i (Htop _ Hj)). by right.
Qed.
End nearest.
