(* ===== verification/CgroupBwReplenish.v ===== *)
(** * The replenish timer

    Roll-up, reset, table and replenishment of one run of the timer, each as an
    update of the state, composed to the whole run. *)

From S2P Require Import Prelude ScxTime Wp CgroupBw CgroupBwRoll CgroupBwThrottle CgroupBwPeriod CgroupBwQuota.

Section timer.
Context (conf : cbw_conf).

(** ** The times of the period *)

(** Some times of the caches are cleared. *)
Definition cleared (m m' : gmap Z scx_cgroup_llc_ctx) : Prop := ∀ a, m' !! a = m !! a ∨ m' !! a = set_runtime_total 0 <$> m !! a.
Lemma cleared_refl m : cleared m m.
Proof. by left. Qed.
Lemma cleared_trans m1 m2 m3 : cleared m1 m2 → cleared m2 m3 → cleared m1 m3.
Proof.
  intros H1 H2 a. destruct (H2 a) as [E|E]; rewrite E; [apply H1|]. right. destruct (H1 a) as [E'|E']; rewrite E'; [done|]. by destruct (m1 !! a).
Qed.
Lemma cleared_kept m m' a : cleared m m' → m !! a = set_runtime_total 0 <$> m !! a → m' !! a = m !! a.
Proof. intros H E. destruct (H a) as [->|E']; [done|]. by rewrite E', <-E. Qed.
Lemma cleared_wf s m : cleared (cb_llcx s) m → cbw_wf s → cbw_wf (with_llcx (λ _, m) s).
Proof.
  intros Hc [H1 H2 H3]. split; [done| |done]. intros k a Hk. destruct (H2 k a Hk) as [Hn [l Hl]]. split; [done|]. simpl.
  destruct (Hc a) as [->| ->]; rewrite Hl; by eexists.
Qed.
Definition time_cleared (s : cbw) (m : gmap Z scx_cgroup_llc_ctx) (id : Z) : Prop :=
  ∀ i a, (i < cf_nr_llc conf)%nat → cb_llc_map s !! (id, Z.of_nat i) = Some a → m !! a = set_runtime_total 0 <$> cb_llcx s !! a.

Lemma reset_llcx_run n i c s : cbw_wf s → ∃ m, reset_llcx n (Z.of_nat i) c s = Some (tt, with_llcx (λ _, m) s) ∧ cleared (cb_llcx s) m ∧
  ∀ k a, (i <= k < i + n)%nat → cb_llc_map s !! (cg_id c, Z.of_nat k) = Some a → m !! a = set_runtime_total 0 <$> cb_llcx s !! a.
Proof.
  revert i s. induction n as [|n IH]; intros i s Hs.
  { exists (cb_llcx s). split; [by destruct s|]. split; [apply cleared_refl|]. intros k a Hk. lia. }
  cbn [reset_llcx]. unfold cbw_get_llc_ctx, cbw_get_llc_ctx_raw_with_id. erewrite ST_bind_run; [|done]. replace (Z.of_nat i + 1) with (Z.of_nat (S i)) by lia.
  destruct (cb_llc_map s !! (cg_id c, Z.of_nat i)) as [a|] eqn:Ea; cbn [default from_option id].
  - destruct (wf_llcx _ Hs _ _ Ea) as [Hn [l Hl]]. rewrite (proj2 (Z.eqb_neq a NULL)) by done. cbn [negb]. erewrite ST_bind_run; [|by apply wrl_run].
    assert (cleared (cb_llcx s) (<[a := set_runtime_total 0 l]> (cb_llcx s))) as Hc.
    { intros b. destruct (decide (a = b)) as [->|Hne]; [right; by rewrite lookup_insert_eq, Hl|left; by rewrite lookup_insert_ne]. }
    destruct (IH (S i) (with_llcx <[a := set_runtime_total 0 l]> s)) as (m & E & Hm & Hk); [exact (cleared_wf s _ Hc Hs)|]. exists m. split; [exact E|]. split; [by eapply cleared_trans|].
    intros k b Hkr Hb. destruct (decide (a = b)) as [<-|Hne].
    + rewrite (cleared_kept _ _ _ Hm); simpl; rewrite lookup_insert_eq; [by rewrite Hl|done].
    + rewrite (Hk k b) by (done || (destruct (decide (k = i)) as [->|]; [congruence|lia])). simpl. by rewrite lookup_insert_ne.
  - rewrite Z.eqb_refl. cbn [negb]. erewrite ST_bind_run; [|done]. destruct (IH (S i) s Hs) as (m & E & Hm & Hk). exists m. split; [done|]. split; [done|].
    intros k b Hkr Hb. apply (Hk k b); [|done]. destruct (decide (k = i)) as [->|]; [congruence|lia].
Qed.

Definition reset_ctx (x : scx_cgroup_ctx) : scx_cgroup_ctx := on_rw (set_runtime 0 (xw_runtime_total_sloppy (cx_rw x))) x.
Definition reset_all (l : list cgroup) (s : cbw) : gmap Z scx_cgroup_ctx := foldl (upd_at cg_id (λ _, reset_ctx) (cb_cgrp_map s)) (cb_cgx s) l.
Lemma reset_run l s : cbw_wf s → ∃ m, reset_loop conf l s = Some (tt, with_llcx (λ _, m) (with_cgx (λ _, reset_all l s) s)) ∧ cleared (cb_llcx s) m ∧
  ∀ c, c ∈ l → is_Some (cb_cgrp_map s !! cg_id c) → time_cleared s m (cg_id c).
Proof.
  revert s. induction l as [|c l IH]; intros s Hs.
  { exists (cb_llcx s). split; [by destruct s|]. split; [apply cleared_refl|]. intros c Hc. by apply not_elem_of_nil in Hc. }
  cbn [reset_loop]. unfold cbw_get_cgroup_ctx. destruct (cb_cgrp_map s !! cg_id c) as [a|] eqn:Ea.
  - destruct (wf_cgx _ Hs _ _ Ea) as (Hn & x & Hx & _). rewrite (ST_bind_run _ _ _ _ _ (ctx_some s _ a Ea)). rewrite (proj2 (Z.eqb_neq a NULL)) by done.
    destruct (reset_llcx_run (cf_nr_llc conf) 0 c s Hs) as (m & E & Hm & Hk). change (Z.of_nat 0) with 0 in E. rewrite (ST_bind_run _ _ _ _ _ E). erewrite ST_bind_run; [|by apply wrx_run].
    set (s1 := with_cgx _ _). assert (cbw_wf s1) as Hs1 by (apply (update_wf (with_llcx (λ _, m) s) a x reset_ctx); [by apply cleared_wf|done|done]).
    destruct (IH s1 Hs1) as (m' & E' & Hm' & Hk'). exists m'. split; [|split; [by eapply cleared_trans|]].
    + rewrite E'. unfold reset_all. cbn [foldl]. unfold upd_at at 3. rewrite Ea. by rewrite (alter_known _ a x _ Hx).
    + intros d Hd Hsd. destruct (decide (d ∈ l)) as [Hdl|Hno].
      * intros i b Hi Hb. rewrite (Hk' d Hdl Hsd i b Hi Hb). simpl. destruct (Hm b) as [->| ->]; [done|]. by destruct (cb_llcx s !! b).
      * apply elem_of_cons in Hd as [->|Hd]; [|done]. intros i b Hi Hb. assert (m !! b = set_runtime_total 0 <$> cb_llcx s !! b) as Emb by (apply (Hk i b); [lia|done]).
        rewrite (cleared_kept _ _ b Hm'); simpl; rewrite Emb; [done|]. by destruct (cb_llcx s !! b).
  - rewrite (ST_bind_run _ _ _ _ _ (ctx_none s _ Ea)). rewrite Z.eqb_refl. destruct (IH s Hs) as (m & E & Hm & Hk). exists m. split; [|split; [done|]].
    + rewrite E. unfold reset_all. cbn [foldl]. unfold upd_at at 3. by rewrite Ea.
    + intros d [->|Hd]%elem_of_cons Hsd; [|by apply Hk]. rewrite Ea in Hsd. by destruct Hsd.
Qed.

(** ** The table of the cgroups *)
Definition with_context (s : cbw) (l : list cgroup) : list Z := filter (λ id, is_Some (cb_cgrp_map s !! id)) (cg_id <$> l).
Lemma table_put (l : list Z) n v : (n < length l)%nat → take (S n) (<[n := v]> l) = take n l ++ [v].
Proof. intros Hn. rewrite (take_S_r _ _ v) by by apply list_lookup_insert_eq. by rewrite take_insert_ge by lia. Qed.
Lemma collect_run l s : cbw_wf s → 0 <= cb_nr_cgroups s → (Z.to_nat (cb_nr_cgroups s) + length (with_context s l) <= length (cb_cgroup_ids s))%nat →
  ∃ ids, collect_loop l s = Some (tt, with_ids (λ _, ids) (cb_nr_cgroups s + Z.of_nat (length (with_context s l))) s) ∧
    take (Z.to_nat (cb_nr_cgroups s) + length (with_context s l)) ids = take (Z.to_nat (cb_nr_cgroups s)) (cb_cgroup_ids s) ++ with_context s l ∧
    length ids = length (cb_cgroup_ids s).
Proof.
  revert s. induction l as [|c l IH]; intros s Hs Hnr Hlen.
  { exists (cb_cgroup_ids s). split; [simpl; rewrite Z.add_0_r; by destruct s|]. simpl. by rewrite Nat.add_0_r, app_nil_r. }
  cbn [collect_loop]. unfold cbw_get_cgroup_ctx, with_context in *. rewrite fmap_cons in Hlen |- *. destruct (cb_cgrp_map s !! cg_id c) as [a|] eqn:Ea.
  - rewrite filter_cons_True in Hlen |- * by by eexists. cbn [length] in Hlen |- *. destruct (wf_cgx _ Hs _ _ Ea) as (Hn & _). rewrite (ST_bind_run _ _ _ _ _ (ctx_some s _ a Ea)). rewrite (proj2 (Z.eqb_neq a NULL)) by done.
    erewrite ST_bind_run; [|done]. erewrite ST_bind_run; [|done]. destruct (lookup_lt_is_Some_2 (cb_cgroup_ids s) (Z.to_nat (cb_nr_cgroups s))) as [v ->]; [lia|].
    erewrite ST_bind_run; [|done]. set (s1 := with_ids _ _ s). assert (cb_nr_cgroups s1 = cb_nr_cgroups s + 1) as Enr by done.
    destruct (IH s1) as (ids & E & Et & El); [by destruct Hs; split|rewrite Enr; lia|rewrite Enr; simpl; rewrite length_insert; replace (Z.to_nat (cb_nr_cgroups s + 1)) with (S (Z.to_nat (cb_nr_cgroups s))) by lia; simpl in *; lia|].
    rewrite Enr in *. replace (Z.to_nat (cb_nr_cgroups s + 1)) with (S (Z.to_nat (cb_nr_cgroups s))) in Et by lia. change (cb_cgrp_map s1) with (cb_cgrp_map s) in *.
    exists ids. rewrite Nat2Z.inj_succ, Z.add_succ_r, <-Z.add_succ_l. split; [exact E|]. split; [|rewrite El; simpl; by rewrite length_insert].
    rewrite Nat.add_succ_r. change (S ?a + ?b)%nat with (S (a + b)) in Et. rewrite Et. simpl (cb_cgroup_ids s1). rewrite table_put by lia. by rewrite <-app_assoc.
  - rewrite filter_cons_False in Hlen |- * by (rewrite Ea; by intros [? ?]). rewrite (ST_bind_run _ _ _ _ _ (ctx_none s _ Ea)). rewrite Z.eqb_refl. by apply IH.
Qed.

(** ** The table's cgroups *)
Context (nr_queued : Z → Z) (now : Z).
Definition count_ctx (x : scx_cgroup_ctx) : scx_cgroup_ctx := on_rw count_throttled x.
Definition step_ctx (x : scx_cgroup_ctx) : scx_cgroup_ctx := replenished now (count_ctx x).
Lemma count_flag x : xw_is_throttled (cx_rw (count_ctx x)) = xw_is_throttled (cx_rw x).
Proof. unfold count_ctx, count_throttled. destruct x as [xo []]. simpl. by repeat case_match. Qed.
Lemma step_ro x : cx_ro (step_ctx x) = cx_ro x.
Proof. exact (replenished_ro now (count_ctx x)). Qed.
(** The cgroup is put on the list of the bottom half. *)
Definition needs (s : cbw) (id : Z) : bool :=
  match ctx_at s id with Some x => xw_is_throttled (cx_rw x) || xw_is_throttled (cx_rw (step_ctx x)) || backlogged conf nr_queued s id | None => false end.

Lemma replenish_table_run (nd : Z → bool) L n i s nr : cbw_wf s → length L = n → 0 <= i → 0 <= nr → NoDup L →
  (∀ k id, L !! k = Some id → cb_cgroup_ids s !! (Z.to_nat i + k)%nat = Some id) → (∀ id, id ∈ L → is_Some (cb_cgrp_map s !! id) ∧ needs s id = nd id) →
  (Z.to_nat nr + n <= length (cb_throttled_ids s))%nat →
  ∃ tids, replenish_loop conf n i nr_queued now nr s =
      Some (nr + Z.of_nat (length (filter (λ id, nd id = true) L)), with_throttled_ids (λ _, tids) (with_cgx (λ m, foldl (upd_at id (λ _, step_ctx) (cb_cgrp_map s)) m L) s)) ∧
    take (Z.to_nat nr + length (filter (λ id, nd id = true) L)) tids = take (Z.to_nat nr) (cb_throttled_ids s) ++ filter (λ id, nd id = true) L.
Proof.
  intros Hs. revert n i s nr Hs. induction L as [|id L IH]; intros n i s nr Hs <- Hi Hnr Hnd Htab Hman Hlen.
  { exists (cb_throttled_ids s). split; [simpl; rewrite Z.add_0_r; by destruct s|]. rewrite filter_nil. cbn [length]. by rewrite Nat.add_0_r, app_nil_r. }
  cbn [length replenish_loop]. apply NoDup_cons in Hnd as [Hni Hnd]. destruct (Hman id ltac:(left)) as [[a Ea] Eneed]. destruct (wf_cgx _ Hs _ _ Ea) as (Hn & x & Hx & Eid).
  erewrite ST_bind_run; [|done]. pose proof (Htab 0%nat id eq_refl) as Hid. rewrite Nat.add_0_r in Hid. rewrite Hid. unfold cbw_get_cgroup_ctx_with_id.
  rewrite (ST_bind_run _ _ _ _ _ (ctx_some s _ a Ea)). rewrite (proj2 (Z.eqb_neq a NULL)) by done. erewrite ST_bind_run; [|by apply wrx_run]. fold (count_ctx x).
  set (s1 := with_cgx <[a := count_ctx x]> s). assert (cbw_wf s1) as Hs1 by by apply (update_wf s a x count_ctx).
  rewrite (ST_bind_run _ _ _ _ _ (replenish_run conf nr_queued s1 a (count_ctx x) now Hs1 Hn (lookup_insert_eq _ _ _))). rewrite count_flag. unfold s1 at 2. rewrite with_cgx_twice. fold (step_ctx x).
  change (xo_id (cx_ro (count_ctx x))) with (xo_id (cx_ro x)). change (backlogged conf nr_queued s1) with (backlogged conf nr_queued s). rewrite Eid.
  assert (xw_is_throttled (cx_rw x) || xw_is_throttled (cx_rw (step_ctx x)) || backlogged conf nr_queued s id = nd id) as ->.
  { rewrite <-Eneed. unfold needs, ctx_at. rewrite Ea. simpl. by rewrite Hx. }
  assert (∀ tl (s2 := with_throttled_ids tl (with_cgx <[a := step_ctx x]> s)), cbw_wf s2 ∧ (∀ id', id' ∈ L → is_Some (cb_cgrp_map s2 !! id') ∧ needs s2 id' = nd id')) as Hs2.
  { intros tl s2. assert (cbw_wf (with_cgx <[a := step_ctx x]> s)) as Hw by (apply (update_wf s a x step_ctx); [done|done|apply step_ro]). split; [by destruct Hw; split|].
    intros id' Hid'. destruct (Hman id' ltac:(by right)) as [Hsome E]. split; [done|]. rewrite <-E. unfold needs, ctx_at. simpl. destruct (cb_cgrp_map s !! id') as [b|] eqn:Eb; [|done]. simpl.
    rewrite lookup_insert_ne; [done|]. intros ->. assert (id' = id) as -> by by eapply wf_inj. done. }
  assert (∀ k id', L !! k = Some id' → cb_cgroup_ids s !! (Z.to_nat (i + 1) + k)%nat = Some id') as Htab'.
  { intros k id' Hk. replace (Z.to_nat (i + 1) + k)%nat with (Z.to_nat i + S k)%nat by lia. by apply Htab. }
  assert (upd_at Datatypes.id (λ _ : Z, step_ctx) (cb_cgrp_map s) (cb_cgx s) id = <[a := step_ctx x]> (cb_cgx s)) as Eupd by (unfold upd_at, Datatypes.id; rewrite Ea; by apply alter_known).
  rewrite filter_cons. destruct (nd id) eqn:End; cbn [decide decide_rel].
  - rewrite decide_True by done. cbn [length]. erewrite ST_bind_run; [|done]. change (cb_throttled_ids (with_cgx _ s)) with (cb_throttled_ids s). cbn [length] in Hlen.
    destruct (lookup_lt_is_Some_2 (cb_throttled_ids s) (Z.to_nat nr)) as [v ->]; [lia|]. erewrite ST_bind_run; [|apply rdx_run; apply lookup_insert_eq]. erewrite ST_bind_run; [|done].
    rewrite step_ro, Eid. set (tl := <[Z.to_nat nr := id]>). destruct (Hs2 tl) as [Hw Hm]. destruct (IH (length L) (i + 1) _ (nr + 1) Hw) as (tids & E & Et); [done|lia|lia|done|exact Htab'|exact Hm|simpl; unfold tl; rewrite length_insert; lia|].
    exists tids. rewrite Nat2Z.inj_succ, Z.add_succ_r, <-Z.add_succ_l. split.
    + rewrite E. unfold with_throttled_ids, with_cgx. simpl. by rewrite Eupd.
    + replace (Z.to_nat (nr + 1)) with (S (Z.to_nat nr)) in Et by lia. rewrite Nat.add_succ_r. change (S ?a + ?b)%nat with (S (a + b)) in Et. rewrite Et. simpl (cb_throttled_ids _). unfold tl.
      rewrite table_put by lia. by rewrite <-app_assoc.
  - rewrite decide_False by done. destruct (Hs2 (λ l, l)) as [Hw Hm]. cbn [length] in Hlen. destruct (IH (length L) (i + 1) _ nr Hw) as (tids & E & Et); [done|lia|lia|done|exact Htab'|exact Hm|simpl; lia|].
    exists tids. split; [|exact Et]. change (with_throttled_ids (λ l, l) (with_cgx <[a := step_ctx x]> s)) with (with_cgx <[a := step_ctx x]> s) in E. rewrite E. unfold with_throttled_ids, with_cgx. simpl. by rewrite Eupd.
Qed.

(** ** One run *)

(** The context at the end of a period in which the subtree used [v], and at the start of the next. *)
Definition ended (v : Z) (x : scx_cgroup_ctx) : scx_cgroup_ctx :=
  on_rw (set_throttled (xw_is_throttled (cx_rw x) || (xw_period_budget (cx_rw x) <=? v))) (on_rw (set_runtime 0 v) x).
Definition next_ctx (v : Z) (x : scx_cgroup_ctx) : scx_cgroup_ctx := step_ctx (ended v x).
Lemma reset_roll v x : reset_ctx (roll_ctx v x) = ended v x.
Proof. unfold reset_ctx, roll_ctx, ended. destruct x as [xo []]. cbn. destruct (_ <=? _); simpl; [by rewrite orb_true_r|by rewrite orb_false_r]. Qed.
Lemma next_limited v x : limited (next_ctx v x) = limited x.
Proof. unfold limited, next_ctx. by rewrite step_ro. Qed.

(** The budget of the next period is used up by debt already. *)
Definition in_debt (s : cbw) (path : list Z) (t : cgtree) : Prop :=
  ∃ a x, cb_cgrp_map s !! root_id t = Some a ∧ cb_cgx s !! a = Some x ∧ xw_is_throttled (cx_rw (next_ctx (s64 (subtree_time conf s (length path) t)) x)) = true.
Definition debt_above (s : cbw) (path : list Z) (t : cgtree) (path' : list Z) (t' : cgtree) : Prop :=
  ∃ p u, occurs path t p u ∧ occurs p u path' t' ∧ (length path < length p < length path')%nat ∧ in_debt s p u.

Lemma stat_begin cl f s : (old ← gets cb_stat; stat_loop cl (λ _ s, s) f old) s = Some (tt, with_stat (f (cb_stat s)) s).
Proof.
  erewrite ST_bind_run; [|done]. assert (modifies (λ s : cbw, s) s = Some (tt, s)) as Em by done.
  destruct cl; cbn [stat_loop]; rewrite (ST_bind_run _ _ _ _ _ Em); (erewrite ST_bind_run; [|done]); by rewrite bool_decide_true.
Qed.
Lemma even_twice seq : Z.land seq 1 = 0 → Z.land (u32 (u32 (seq + 1) + 1)) 1 = 0.
Proof.
  change 1 with (Z.ones 1) at 1 4. rewrite !Z.land_ones by done. change (2 ^ 1) with 2. unfold u32, two32. rewrite Zplus_mod_idemp_l. intros E.
  pose proof (Z.div_mod seq 2 ltac:(lia)). pose proof (Z.div_mod (seq + 1 + 1) 4294967296 ltac:(lia)).
  apply Z.mod_divide; [done|]. exists (seq / 2 + 1 - 2147483648 * ((seq + 1 + 1) / 4294967296)). lia.
Qed.

(** The walks of one run, up to the new budgets. *)
Definition timer_walks (cl : nat) (path : list Z) (t : cgtree) : BW Z :=
  cbw_update_runtime_total_sloppy conf cl path t;;
  reset_loop conf (descendants_post path t);;
  modifies (λ s, with_ids id 0 s);;
  collect_loop (descendants_pre path t);;
  n ← gets cb_nr_cgroups;
  replenish_loop conf (Z.to_nat n) 0 nr_queued now 0.
(** What they leave: the contexts' new budgets, cleared times, and the list of the cgroups that need the bottom half. *)
Record walks_done (path : list Z) (t : cgtree) (s s' : cbw) (nr : nat) : Prop := WalksDone {
  wd_wf : cbw_wf s';
  wd_maps : cb_cgrp_map s' = cb_cgrp_map s ∧ cb_llc_map s' = cb_llc_map s ∧ cb_tasks s' = cb_tasks s ∧ cb_stat s' = cb_stat s ∧ cb_last_replenish_at s' = cb_last_replenish_at s;
  wd_ctx : ∀ path' t' a x, occurs path t path' t' → (length path < length path')%nat → cb_cgrp_map s !! root_id t' = Some a → cb_cgx s !! a = Some x →
    cb_cgx s' !! a = Some (next_ctx (s64 (subtree_time conf s (length path') t')) x);
  wd_times : ∀ path' t', occurs path t path' t' → is_Some (cb_cgrp_map s !! root_id t') → time_cleared s (cb_llcx s') (root_id t');
  wd_table : ∀ path' t', occurs path t path' t' → (length path < length path')%nat →
    root_id t' ∈ take nr (cb_throttled_ids s') ↔ over_budget conf s path' t' ∨ in_debt s path' t' ∨ (is_Some (cb_cgrp_map s !! root_id t') ∧ backlogged conf nr_queued s (root_id t') = true);
  wd_length : (nr <= length (cb_throttled_ids s'))%nat;
}.
Lemma backlogged_same s m id : cleared (cb_llcx s) m → backlogged conf nr_queued (with_llcx (λ _, m) s) id = backlogged conf nr_queued s id.
Proof.
  intros Hm. unfold backlogged. induction (seq 0 (cf_nr_llc conf)) as [|i l IH]; [done|]. cbn [existsb]. rewrite IH. f_equal. simpl. destruct (cb_llc_map s !! (id, Z.of_nat i)) as [a|]; [|done]. destruct (Hm a) as [->| ->]; [done|]. by destruct (cb_llcx s !! a).
Qed.
Lemma occurs_pre path t path' t' : occurs path t path' t' → root_id t' ∈ tree_ids t.
Proof.
  induction 1 as [path [id cs]|path id cs c path' t' Hc Ho IH]; [left|]. simpl. right. apply elem_of_concat. exists (tree_ids c). split; [done|]. by apply list_elem_of_fmap_2.
Qed.
Lemma tree_ids_post path t : tree_ids t ≡ₚ ids_of path t.
Proof.
  unfold ids_of. revert path. induction t as [id cs IH] using cgtree_ind'. intros path. rewrite post_unfold, fmap_app. change (cg_id <$> [Cgroup id (path ++ [id])]) with [id]. cbn [tree_ids].
  rewrite <-Permutation_cons_append. constructor. generalize (path ++ [id]). clear path. intros path. induction IH as [|c cs Hc _ IHcs]; [done|].
  change (concat (descendants_post path <$> c :: cs)) with (descendants_post path c ++ concat (descendants_post path <$> cs)). rewrite fmap_app. cbn [map concat]. by rewrite (Hc path), IHcs.
Qed.
Lemma with_context_in s path t path' t' : occurs path t path' t' → root_id t' ∈ with_context s (descendants_pre path t) ↔ is_Some (cb_cgrp_map s !! root_id t').
Proof. intros Ho. unfold with_context. rewrite list_elem_of_filter, tree_ids_pre. split; [by intros []|]. intros H. split; [done|by eapply occurs_pre]. Qed.
Lemma with_context_nodup s path t : NoDup (ids_of path t) → NoDup (with_context s (descendants_pre path t)).
Proof. intros Hnd. unfold with_context. apply NoDup_filter. rewrite tree_ids_pre. by rewrite tree_ids_post. Qed.

Lemma timer_walks_run cl path rid cs s : let t := CgNode rid cs in
  cbw_wf s → fits conf (cb_levels s) → (∀ c, c ∈ descendants_post path t → cg_level c < cf_height_max conf) →
  Z.of_nat (length path) = cf_root_level conf → (length (descendants_post path t) <= cl)%nat → NoDup (ids_of path t) →
  (length (with_context s (descendants_pre path t)) <= length (cb_cgroup_ids s) `min` length (cb_throttled_ids s))%nat →
  ∃ s' nr, timer_walks cl path t s = Some (Z.of_nat nr, s') ∧ walks_done path t s s' nr.
Proof.
  intros t Hs Hf Hlev Hroot Hcl Hnd Hcap. assert (cg_level (Cgroup rid (path ++ [rid])) < cf_height_max conf) as HH by (apply Hlev; apply (occurs_post path t path t); constructor). rewrite cg_level_of in HH.
  destruct (rollup_run conf cl path rid cs s Hs Hf ltac:(lia) Hroot Hcl Hnd) as (ls & es & E1 & Hes & Hin & _). fold t in E1, Hin. set (s1 := rolled ls es s) in *. assert (cbw_wf s1) as Hs1 by by apply rolled_wf.
  destruct (reset_run (descendants_post path t) s1 Hs1) as (m & E2 & Hm & Htimes). set (s2 := with_llcx _ _) in E2. set (s3a := with_ids id 0 s2). set (L := with_context s (descendants_pre path t)) in *.
  assert (∀ a x, cb_cgx s1 !! a = Some x → ∃ x', reset_all (descendants_post path t) s1 !! a = Some x' ∧ cx_ro x' = cx_ro x) as Hro2.
  { intros a x Hx. apply (upds_ro cg_id (λ _, reset_ctx) _ _ _ _ x); done. }
  assert (cbw_wf s3a) as Hs3a.
  { assert (cbw_wf (with_cgx (λ _, reset_all (descendants_post path t) s1) s1)) as Hw.
    { split; [|apply (wf_llcx _ Hs1)|apply (wf_llc_inj _ Hs1)]. intros id a Hi. destruct (wf_cgx _ Hs1 id a Hi) as (Hn & x & Hx & <-). split; [done|]. destruct (Hro2 a x Hx) as (x' & Hx' & Er). exists x'. by rewrite Er. }
    pose proof (cleared_wf (with_cgx (λ _, reset_all (descendants_post path t) s1) s1) m Hm Hw) as [? ? ?]. by split. }
  destruct (collect_run (descendants_pre path t) s3a Hs3a) as (ids & E3 & Et3 & _); [done|change (with_context s3a (descendants_pre path t)) with L; simpl; lia|].
  change (with_context s3a (descendants_pre path t)) with L in *. change (cb_nr_cgroups s3a) with 0 in *. simpl (Z.to_nat 0) in Et3. rewrite Z.add_0_l in E3. set (s3 := with_ids _ _ s3a) in E3. simpl in Et3.
  assert (cbw_wf s3) as Hs3 by (destruct Hs3a; by split).
  assert (∀ path' t' a x, occurs path t path' t' → (length path < length path')%nat → cb_cgrp_map s !! root_id t' = Some a → cb_cgx s !! a = Some x →
    cb_cgx s3 !! a = Some (ended (s64 (subtree_time conf s (length path') t')) x)) as Hctx.
  { intros path' t' a x Ho Hl Ha Hx. pose proof (Hlev _ (occurs_post _ _ _ _ Ho)) as Hl'. rewrite cg_level_of in Hl'. pose proof (rolled_ctx conf ls es s path' t' a x Hs Hes (Hin _ _ Ho Hl Hl') Ha Hx) as Hx1.
    rewrite <-reset_roll. change (cb_cgx s3 !! a) with (reset_all (descendants_post path t) s1 !! a). apply (upds_at cg_id (λ _, reset_ctx) _ _ _ _ _ (Cgroup (root_id t') (path' ++ [root_id t']))); [done| |by apply occurs_post|done|exact Hx1]. intros i j b. apply (wf_inj s1). done. }
  destruct (replenish_table_run (needs s3) L (length L) 0 s3 0 Hs3) as (tids & E4 & Et4); [done|done|done|by apply with_context_nodup| | |simpl; lia|].
  { intros k id Hk. change (cb_cgroup_ids s3) with ids. simpl. rewrite <-Hk, <-Et3. symmetry. apply lookup_take_lt. by eapply lookup_lt_Some. }
  { intros id Hid. split; [|done]. unfold L, with_context in Hid. by apply list_elem_of_filter in Hid as [? _]. }
  set (F := filter (λ id, needs s3 id = true) L) in *. set (s4 := with_throttled_ids _ _) in E4. exists s4, (length F). split.
  { unfold timer_walks. rewrite (ST_bind_run _ _ _ _ _ E1), (ST_bind_run _ _ _ _ _ E2). erewrite ST_bind_run; [|done]. rewrite (ST_bind_run _ _ _ _ _ E3). erewrite ST_bind_run; [|done].
    change (cb_nr_cgroups s3) with (Z.of_nat (length L)). rewrite Nat2Z.id, E4. by rewrite Z.add_0_l. }
  assert (length F <= length tids)%nat as HlF. { apply (f_equal length) in Et4. rewrite length_take in Et4. simpl in Et4. lia. }
  split; [| |intros path' t' a x Ho Hl Ha Hx|intros path' t' Ho Hsome|intros path' t' Ho Hl|done].
  - split; [|apply (wf_llcx _ Hs3)|apply (wf_llc_inj _ Hs3)]. intros id a Hi. destruct (wf_cgx _ Hs3 id a Hi) as (Hn & x & Hx & <-). split; [done|].
    destruct (upds_ro Datatypes.id (λ _ : Z, step_ctx) (cb_cgrp_map s) L _ a x (λ _ y, step_ro y) Hx) as (x' & Hx' & Er). exists x'. by rewrite Er.
  - done.
  - change (cb_cgx s4) with (foldl (upd_at Datatypes.id (λ _ : Z, step_ctx) (cb_cgrp_map s)) (cb_cgx s3) L). apply (upds_at Datatypes.id (λ _ : Z, step_ctx) _ _ _ _ _ (root_id t')); [rewrite list_fmap_id; by apply with_context_nodup| |unfold L; apply (with_context_in s path t path' t' Ho); by eexists|done|exact (Hctx _ _ _ _ Ho Hl Ha Hx)].
    intros i j b. apply (wf_inj s). done.
  - exact (Htimes _ (occurs_post _ _ _ _ Ho) Hsome).
  - change (cb_throttled_ids s4) with tids. simpl in Et4. rewrite Et4. unfold F. rewrite list_elem_of_filter. unfold L. rewrite (with_context_in s path t path' t' Ho).
    assert (backlogged conf nr_queued s3 (root_id t') = backlogged conf nr_queued s (root_id t')) as Eb by exact (backlogged_same s1 m _ Hm).
    unfold needs, ctx_at, over_budget, in_debt. rewrite Eb. change (cb_cgrp_map s3) with (cb_cgrp_map s). destruct (cb_cgrp_map s !! root_id t') as [a|] eqn:Ea; cbn [mbind option_bind].
    + destruct (wf_cgx _ Hs _ _ Ea) as (_ & x & Hx & _). pose proof (Hctx _ _ _ _ Ho Hl Ea Hx) as Hx3. rewrite Hx3. rewrite !orb_true_iff. change (step_ctx (ended ?v x)) with (next_ctx v x). cbn [ended on_rw cx_rw set_throttled xw_is_throttled]. rewrite orb_true_iff, Z.leb_le.
      split; [intros [[[Hq|Hq]|Hq] _]; [left; exists a, x; auto|right; left; by exists a, x|right; right; split; [by eexists|done]]|].
      intros [(a' & x' & Ha' & Hx' & Hq)|[(a' & x' & Ha' & Hx' & Hq)|[_ Hq]]]; (split; [|by eexists]); [| |by right];
        (assert (a' = a) as -> by congruence; assert (x' = x) as -> by congruence; tauto).
    + split; [by intros [? _]|]. intros [(a & x & ? & _)|[(a & x & ? & _)|[[? ?] _]]]; done.
Qed.
End timer.

(** When the timer comes back. *)
Lemma time_delta_range a b : 0 <= time_delta a b < two63.
Proof. unfold time_delta. pose proof (s64_range (a - b)). destruct (Z.ltb_spec 0 (s64 (a - b))); unfold two63 in *; lia. Qed.
Lemma next_period_range now last : CBW_REPLENISH_PERIOD_MIN <= next_period now last <= CBW_REPLENISH_PERIOD.
Proof.
  unfold next_period. rewrite cmax_max. pose proof (time_delta_range (time_delta now last) CBW_REPLENISH_PERIOD) as Hj. set (j := time_delta (time_delta now last) _) in *.
  change CBW_REPLENISH_PERIOD with 100000000. change CBW_REPLENISH_PERIOD_MIN with 1000000. unfold time_delta. rewrite s64_small by (unfold two63 in *; lia). destruct (Z.ltb_spec 0 (100000000 - j)); lia.
Qed.
Lemma next_period_exact now last : 0 <= last <= now → now < two63 →
  next_period now last = Z.max (CBW_REPLENISH_PERIOD - Z.max (now - last - CBW_REPLENISH_PERIOD) 0) CBW_REPLENISH_PERIOD_MIN.
Proof.
  intros Hl Hn. unfold next_period. rewrite cmax_max, (time_delta_forward now last) by lia. change CBW_REPLENISH_PERIOD with 100000000. change CBW_REPLENISH_PERIOD_MIN with 1000000.
  assert (∀ a b, 0 <= a < two63 → 0 <= b < two63 → time_delta a b = Z.max (a - b) 0) as Hd.
  { intros a b Ha Hb. unfold time_delta. rewrite s64_small by (unfold two63 in *; lia). destruct (Z.ltb_spec 0 (a - b)); lia. }
  rewrite (Hd (now - last)), Hd by (unfold two63 in *; lia). lia.
Qed.

(** The flags that a walk down the tree adds to the contexts. *)
Section propagate.
Context (conf : cbw_conf).
Lemma propagate_run path t s : cbw_wf s → running s = false → (∀ c, c ∈ descendants_post path t → cg_level c < cf_height_max conf) → NoDup (path ++ ids_of path t) →
  ∃ interval, cbw_throttle_cgroups conf path t s = Some (interval, throttled conf (descendants_post path t) s).
Proof.
  intros Hs Hr Hlev Hnd. pose proof Hnd as (_ & _ & Hnd2)%NoDup_app.
  destruct (throttle_run conf [] (descendants_post path t) s CBW_U64_MAX) as (mt & Et & _); [done|done|by apply walk_coherent|done|intros d Hd; apply Hlev in Hd; lia|].
  unfold cbw_throttle_cgroups. assert (throttled conf [] s = s) as E0 by by destruct s. rewrite E0 in Et. rewrite (ST_bind_run _ _ _ _ _ Et). by eexists.
Qed.
Lemma propagate_ctx path t s path' t' a x : cbw_wf s → NoDup (ids_of path t) → occurs path t path' t' → cb_cgrp_map s !! root_id t' = Some a → cb_cgx s !! a = Some x →
  cb_cgx (throttled conf (descendants_post path t) s) !! a = Some (throttle_ctx (above_throttled conf s (Cgroup (root_id t') (path' ++ [root_id t']))) x).
Proof.
  intros Hs Hnd Ho Ha Hx. apply (upds_at cg_id (λ c, throttle_ctx (above_throttled conf s c)) _ _ _ _ _ (Cgroup (root_id t') (path' ++ [root_id t']))); [done| |by apply occurs_post|done|done].
  intros i j b. by apply wf_inj.
Qed.
End propagate.

(** The walks, the end of the top half and the flags make up the run. *)
Lemma timer_compose conf nr_queued now cl path t s s4 nr : let s0 := with_stat (next_seq (cb_stat s)) s in
  let s5 := with_stat (end_seq (Z.of_nat nr) (if decide (nr = 0%nat) then 0 else 1) (cb_stat s4)) s4 in
  timer_walks conf nr_queued now cl path t s0 = Some (Z.of_nat nr, s4) → cb_last_replenish_at s4 = cb_last_replenish_at s →
  (∃ interval, cbw_throttle_cgroups conf path t s5 = Some (interval, throttled conf (descendants_post path t) s5)) →
  replenish_timerfn conf cl (λ _ s, s) (Some (path, t)) (Some (path, t)) nr_queued now s =
    Some (next_period now (cb_last_replenish_at s), with_last_replenish now (if decide (nr = 0%nat) then s5 else throttled conf (descendants_post path t) s5)).
Proof.
  intros s0 s5 E Ela (iv & Ep). unfold replenish_timerfn. erewrite ST_bind_run; [|exact (stat_begin cl next_seq s)]. fold s0. set (s6 := if decide (nr = 0%nat) then s5 else _).
  assert (cb_last_replenish_at s6 = cb_last_replenish_at s) as El6 by (unfold s6; case_decide; done).
  assert (∀ m : BW unit, m s0 = Some (tt, s6) → (m;; last ← gets cb_last_replenish_at; modifies (with_last_replenish now);; mret (next_period now last)) s0 = Some (next_period now (cb_last_replenish_at s), with_last_replenish now s6)) as Hend.
  { intros mm Emm. rewrite (ST_bind_run _ _ _ _ _ Emm). erewrite ST_bind_run; [|done]. erewrite ST_bind_run; [|done]. by rewrite El6. }
  apply Hend. unfold timer_walks in E. apply ST_bind_inv in E as (r1 & w1 & E1 & E). apply ST_bind_inv in E as ([] & w2 & E2 & E). apply ST_bind_inv in E as ([] & w3 & E3 & E).
  apply ST_bind_inv in E as ([] & w4 & E4 & E). apply ST_bind_inv in E as (n & w5 & E5 & E).
  rewrite (ST_bind_run _ _ _ _ _ E1), (ST_bind_run _ _ _ _ _ E2), (ST_bind_run _ _ _ _ _ E3), (ST_bind_run _ _ _ _ _ E4), (ST_bind_run _ _ _ _ _ E5), (ST_bind_run _ _ _ _ _ E).
  unfold s6, s5 in *. destruct (decide (nr = 0%nat)) as [->|Hne]; [exact (stat_begin cl (end_seq 0 0) s4)|]. rewrite (proj2 (Z.ltb_lt _ _)) by lia.
  erewrite ST_bind_run; [|exact (stat_begin cl (end_seq (Z.of_nat nr) 1) s4)]. by rewrite (ST_bind_run _ _ _ _ _ Ep).
Qed.
