(* ===== verification/CgroupBwFree.v ===== *)
(** * The free lists of contexts

    Contexts that are not in use are kept on lists linked through their first field, with a head that is exchanged by
    compare-and-swap: [cbw_freelist_pop], [cbw_freelist_push] and the claims on the number of free objects, [cbw_claim_free].  What other CPUs do before each
    compare-and-swap is an argument [env]. *)

From S2P Require Import Prelude.

(** The head, the number of free objects, the reservations, and the first field of each object. *)
Record freelist : Type := FreeList { fl_head : Z; fl_count : Z; fl_pending : Z; fl_next : gmap Z Z }.
Definition set_head_of (h : Z) (s : freelist) : freelist := FreeList h (fl_count s) (fl_pending s) (fl_next s).
Definition set_count_of (n : Z) (s : freelist) : freelist := FreeList (fl_head s) n (fl_pending s) (fl_next s).
Definition set_next_of (a v : Z) (s : freelist) : freelist := FreeList (fl_head s) (fl_count s) (fl_pending s) (<[a := v]> (fl_next s)).
Definition next_of (a : Z) : ST freelist Z := λ s, match fl_next s !! a with Some v => Some (v, s) | None => None end.

Fixpoint cbw_pop_loop (cl : nat) (env : nat → freelist → freelist) (old_head : Z) : ST freelist Z :=
  match cl with
  | O => mret NULL
  | S cl =>
      if old_head =? NULL then mret NULL else
      new_head ← next_of old_head;
      modifies (env cl);;
      head ← gets fl_head;
      if head =? old_head then modifies (set_head_of new_head);; mret old_head
      else old_head ← gets fl_head; cbw_pop_loop cl env old_head
  end.
Definition cbw_freelist_pop (cl : nat) (env : nat → freelist → freelist) : ST freelist Z :=
  old_head ← gets fl_head; cbw_pop_loop cl env old_head.

Fixpoint cbw_push_loop (cl : nat) (env : nat → freelist → freelist) (ptr old_head : Z) : ST freelist unit :=
  modifies (set_next_of ptr old_head);;
  modifies (env cl);;
  head ← gets fl_head;
  if head =? old_head then modifies (set_head_of ptr)
  else old_head ← gets fl_head;
       match cl with O => mret tt | S cl => cbw_push_loop cl env ptr old_head end.
Definition cbw_freelist_push (cl : nat) (env : nat → freelist → freelist) (ptr : Z) : ST freelist unit :=
  old_head ← gets fl_head; cbw_push_loop cl env ptr old_head.

Fixpoint cbw_claim_free (cl : nat) (env : nat → freelist → freelist) (floor_mult : Z) : ST freelist bool :=
  match cl with
  | O => mret false
  | S cl =>
      f ← gets fl_count;
      pending ← gets fl_pending;
      let floor := u64 ((if 0 <? pending then u64 pending else 0) * floor_mult) in
      if f <=? floor then mret false else
      modifies (env cl);;
      counter ← gets fl_count;
      if counter =? f then modifies (set_count_of (u64 (f - 1)));; mret true
      else cbw_claim_free cl env floor_mult
  end.

(** ** Lists in memory *)

(** [l] are the objects from address [h] on. *)
Fixpoint linked (m : gmap Z Z) (h : Z) (l : list Z) : Prop :=
  match l with [] => h = NULL | a :: l => h = a ∧ a ≠ NULL ∧ ∃ h', m !! a = Some h' ∧ linked m h' l end.
Definition free_list (s : freelist) (l : list Z) : Prop := linked (fl_next s) (fl_head s) l ∧ NoDup l.

(** What others do to the list: they pop, and they push objects that are not in [avoid]. *)
Inductive stack_step (avoid : list Z) : list Z → list Z → Prop :=
  | step_pop a l : stack_step avoid (a :: l) l
  | step_push a l : a ∉ avoid → a ∉ l → stack_step avoid l (a :: l).

Lemma stack_steps_split avoid l l' : rtc (stack_step avoid) l l' → ∃ pre k, l' = pre ++ drop k l ∧ ∀ a, a ∈ pre → a ∉ avoid.
Proof.
  revert l'. apply (rtc_ind_r (λ l', ∃ pre k, l' = pre ++ drop k l ∧ ∀ a, a ∈ pre → a ∉ avoid)).
  - exists [], 0%nat. split; [done|]. intros a Ha. by apply not_elem_of_nil in Ha.
  - intros l2 l3 _ Hs (pre & k & E & Hpre). destruct Hs as [a l1|a l1 Ha Hn].
    + destruct pre as [|b pre]; simpl in E.
      * exists [], (S k). split; [|done]. change (S k) with (1 + k)%nat. rewrite Nat.add_comm, <-drop_drop, <-E. done.
      * injection E as -> ->. exists pre, k. split; [done|]. intros a Hp. apply Hpre. by right.
    + exists (a :: pre), k. split; [by rewrite E|]. intros b [->|Hb]%elem_of_cons; [done|by apply Hpre].
Qed.
(** While no object of the list comes back, the same top has the same rest below it. *)
Lemma same_rest a l l' : NoDup (a :: l) → rtc (stack_step (a :: l)) (a :: l) (a :: l') → l' = l.
Proof.
  intros Hnd Hs. apply stack_steps_split in Hs as (pre & k & E & Hpre). apply NoDup_cons in Hnd as [Hni _]. destruct pre as [|b pre]; simpl in E.
  - destruct k as [|k]; [by injection E|]. simpl in E. destruct Hni. eapply elem_of_sublist; [|apply (sublist_drop l k)]. rewrite <-E. left.
  - injection E as <- _. destruct (Hpre a ltac:(left)). left.
Qed.
Lemma linked_head m m' h h' l : linked m h l → linked m' h' l → h = h'.
Proof. destruct l as [|a l]; simpl; [by intros -> ->|]. by intros [-> _] [-> _]. Qed.
(** ** Popping under interference *)
Section pop.
Context (env : nat → freelist → freelist).
(** Others keep a list, and do not push objects that were on it. *)
Definition no_reuse : Prop := ∀ n s l, free_list s l → ∃ l', free_list (env n s) l' ∧ rtc (stack_step l) l l'.
(** The first [k] turns of the others, in a run of at most [cl] attempts. *)
Fixpoint others (cl k : nat) (s : freelist) : freelist := match k, cl with S k, S cl => others cl k (env cl s) | _, _ => s end.
(** What a pop does after [k] turns of the others: it takes the top of the list [l] of that moment, or nothing, when the list is empty or no attempt is left. *)
Definition popped (cl k : nat) (s : freelist) (l : list Z) (ret : Z) (s' : freelist) : Prop :=
  (ret = NULL ∧ s' = others cl k s ∧ (l = [] ∨ k = cl)) ∨
  (ret ≠ NULL ∧ (0 < k)%nat ∧ s' = set_head_of (fl_head s') (others cl k s) ∧ ∃ l', l = ret :: l' ∧ free_list s' l').

Lemma pop_loop_run cl s l : no_reuse → free_list s l →
  ∃ ret s' k l1, cbw_pop_loop cl env (fl_head s) s = Some (ret, s') ∧ (k ≤ cl)%nat ∧ free_list (others cl k s) l1 ∧ popped cl k s l1 ret s'.
Proof.
  intros Henv. revert s l. induction cl as [|cl IH]; intros s l [Hl Hnd]; cbn [cbw_pop_loop].
  { exists NULL, s, 0%nat, l. split; [done|]. split; [lia|]. split; [done|]. left. split; [done|]. split; [done|by right]. }
  destruct l as [|a l]; simpl in Hl.
  { rewrite Hl. exists NULL, s, 0%nat, []. split; [done|]. split; [lia|]. split; [by split|]. left. split; [done|]. split; [done|by left]. }
  destruct Hl as (Eh & Ha & h' & Hn & Hl). rewrite Eh. rewrite (proj2 (Z.eqb_neq a NULL)) by done.
  assert (next_of a s = Some (h', s)) as En by (unfold next_of; by rewrite Hn). rewrite (ST_bind_run _ _ _ _ _ En). erewrite ST_bind_run; [|done]. erewrite ST_bind_run; [|done].
  destruct (Henv cl s (a :: l)) as (l1 & [Hl1 Hnd1] & Hs1); [split; [by rewrite Eh; split; [|split; [|exists h']]|done]|]. destruct (Z.eqb_spec (fl_head (env cl s)) a) as [E|Hne].
  - destruct l1 as [|b l1]; [simpl in Hl1; congruence|]. pose proof Hl1 as (Eb & _ & h1 & Hn1 & Hl2). assert (b = a) as -> by congruence.
    assert (l1 = l) as -> by by apply (same_rest a). exists a, (set_head_of h' (env cl s)), 1%nat, (a :: l). split; [done|]. split; [lia|].
    assert (others (S cl) 1 s = env cl s) as -> by by destruct cl. split; [by split|]. right. split; [done|]. split; [lia|]. cbn [others]. split; [by destruct cl|].
    exists l. split; [done|]. apply NoDup_cons in Hnd1 as [_ Hnd1]. split; [|done]. simpl. by rewrite (linked_head _ _ _ _ _ Hl Hl2).
  - erewrite ST_bind_run; [|done]. destruct (IH (env cl s) l1) as (ret & s' & k & l2 & Er & Hk & Hl' & Hr); [by split|]. exists ret, s', (S k), l2. split; [done|]. split; [lia|]. split; [done|].
    destruct Hr as [(Hr0 & Es & Hc)|(Hr0 & Hk0 & Hr)]; [left|right]; (split; [done|]); (split; [done || lia|]); [|done]. destruct Hc as [Hc|Hc]; [by left|right; lia].
Qed.
End pop.

(** C24: popping from a free list while others pop and push.  As long as nobody pushes an object back that was on the list when
    its top was read, a pop never faults.  It takes the object that is on top after the last turn of the others and changes nothing but the head, which becomes the rest
    of the list of that moment; or it returns [NULL] and leaves what the others made, and then the list is empty or all attempts are used: no object is handed out twice. *)
Theorem freelist_pop_safe cl env s l : no_reuse env → free_list s l →
  ∃ ret s' k l1, cbw_freelist_pop cl env s = Some (ret, s') ∧ (k ≤ cl)%nat ∧ free_list (others env cl k s) l1 ∧ popped env cl k s l1 ret s'.
Proof. intros Henv Hl. unfold cbw_freelist_pop. erewrite ST_bind_run; [|done]. by apply (pop_loop_run env cl s l). Qed.

(** Three free objects, and another CPU that takes the top one first. *)
Definition ex_free : freelist := FreeList 10 3 0 {[10 := 20; 20 := 30; 30 := 0]}.
Definition run_free (m : ST freelist unit) (s : freelist) : freelist := match m s with Some (_, s') => s' | None => s end.
Definition undisturbed : nat → freelist → freelist := λ _ s, s.
Definition take_one : ST freelist unit := cbw_freelist_pop 2 undisturbed;; mret tt.
Lemma ex_free_list : free_list ex_free [10; 20; 30].
Proof. split; [repeat (split; [done|]; try (split; [done|]; eexists; split; [reflexivity|])); done|by decide_now]. Qed.
Definition take_first : nat → freelist → freelist := λ n s,
  if (n =? 1)%nat && negb (fl_head s =? NULL) then match fl_next s !! fl_head s with Some h => set_head_of h s | None => s end else s.
Lemma take_first_no_reuse : no_reuse take_first.
Proof.
  intros n s l [Hl Hnd]. unfold take_first. destruct ((n =? 1)%nat && _) eqn:E; [|exists l; split; [done|apply rtc_refl]].
  destruct l as [|a l]; simpl in Hl; [rewrite Hl, Bool.andb_comm in E; discriminate E|]. destruct Hl as (-> & _ & h & -> & Hl).
  apply NoDup_cons in Hnd as [_ Hnd]. exists l. split; [by split|]. apply rtc_once. constructor.
Qed.
Lemma freelist_pop_safe_witness : ∃ ret s' k l1, cbw_freelist_pop 2 take_first ex_free = Some (ret, s') ∧ popped take_first 2 k ex_free l1 ret s' ∧ ret = 20 ∧ fl_head s' = 30.
Proof.
  destruct (freelist_pop_safe 2 take_first ex_free [10; 20; 30]) as (ret & s' & k & l1 & E & _ & _ & Hp); [apply take_first_no_reuse|apply ex_free_list|].
  exists ret, s', k, l1. split; [exact E|]. split; [exact Hp|]. vm_compute in E. by injection E as <- <-.
Defined.

(** With reuse an object is handed out twice: between the read of the top 10 with its successor 20 and the compare-and-swap, another CPU pops 10 and
    20, keeps 20 and pushes 10 back.  The exchange succeeds, 20 is the head again, and the next pop returns the object in use. *)
Example freelist_reuse : let other := take_one;; take_one;; cbw_freelist_push 2 undisturbed 10 in
  ∃ s', cbw_freelist_pop 1 (λ _, run_free other) ex_free = Some (10, s') ∧ fl_head (run_free other ex_free) = 10 ∧ fl_next (run_free other ex_free) !! 10 = Some 30 ∧
    result (cbw_freelist_pop 1 undisturbed s') = Some 20.
Proof. intros other. eexists. split; [vm_compute; reflexivity|]. by vm_compute. Qed.
