(* ===== verification/CgroupBwClaims.v ===== *)
(** * The contract of the bandwidth control *)

From S2P Require Import Prelude ScxTime Wp CgroupBw CgroupBwRoll CgroupBwThrottle CgroupBwPeriod CgroupBwBill CgroupBwQuota CgroupBwReplenish.

(** C17: the accounting timer.  After it ran outside of the top half, the context of every cgroup [t'] below the
    library's root has the time its whole subtree was billed for in the period, and is
    throttled exactly if it was before, if that time has reached its budget, or if it has a limit and a cgroup above it, below the
    root, is throttled for one of these reasons; the rest of the context, the limits included, is kept.  The timer comes
    back in 1 to 20 ms and, down to the 1 ms, within a quarter of the time in which any cgroup is predicted to use up
    its budget. *)
Theorem accounting_timer_correct conf cl path rid cs s : let t := CgNode rid cs in
  cbw_wf s → running s = false → fits conf (cb_levels s) → (∀ c, c ∈ descendants_post path t → cg_level c < cf_height_max conf) →
  Z.of_nat (length path) = cf_root_level conf → (length (descendants_post path t) <= cl)%nat → NoDup (path ++ ids_of path t) →
  ∃ s' interval, accounting_timerfn conf cl (Some (path, t)) s = Some (interval, s') ∧
    cb_cgrp_map s' = cb_cgrp_map s ∧ cb_llcx s' = cb_llcx s ∧ cb_tasks s' = cb_tasks s ∧ cb_stat s' = cb_stat s ∧
    (∀ path' t' a x, occurs path t path' t' → (length path < length path')%nat → cb_cgrp_map s !! root_id t' = Some a → cb_cgx s !! a = Some x →
      ∃ b, cb_cgx s' !! a = Some (on_rw (set_throttled b ∘ set_runtime (s64 (subtree_time conf s (length path') t')) (xw_runtime_total_last (cx_rw x))) x) ∧
        (b = true ↔ over_budget conf s path' t' ∨ (limited x = true ∧ over_above conf s path t path' t'))) ∧
    CBW_ACCOUNTING_PERIOD_MIN <= interval <= CBW_ACCOUNTING_PERIOD_MAX ∧
    (∀ c a x t1, c ∈ descendants_post path t → cb_cgrp_map s' !! cg_id c = Some a → cb_cgx s' !! a = Some x → limited x = true → time_to_throttle (cx_rw x) = Some t1 →
      interval <= Z.max CBW_ACCOUNTING_PERIOD_MIN (t1 / CBW_ACCOUNTING_PERIOD_DIVISOR)).
Proof.
  intros t Hs Hr Hf Hlev Hroot Hcl Hnd. destruct (accounting_run conf cl path rid cs s Hs Hr Hf Hlev Hroot Hcl Hnd) as (ls & es & interval & E & Hes & Hin & Hint & Hp). fold t in E, Hin, Hp.
  pose proof Hnd as (_ & _ & Hnd2)%NoDup_app. set (s1 := rolled ls es s) in *. assert (cbw_wf s1) as Hs1 by by apply rolled_wf.
  assert (∀ c a x, c ∈ descendants_post path t → cb_cgrp_map s !! cg_id c = Some a → cb_cgx s1 !! a = Some x →
    cb_cgx (throttled conf (descendants_post path t) s1) !! a = Some (throttle_ctx (above_throttled conf s1 c) x)) as Hat.
  { intros c a x Hc Ha Hx. apply (upds_at cg_id (λ c, throttle_ctx (above_throttled conf s1 c)) _ _ _ _ _ c); try done. intros i j b. apply (wf_inj s1). done. }
  exists (throttled conf (descendants_post path t) s1), interval. split; [done|]. do 4 (split; [done|]). split; [|split; [done|]].
  - intros path' t' a x Ho Hl Ha Hx. pose proof (rolled_ctx conf ls es s path' t' a x Hs Hes (Hin _ _ Ho Hl) Ha Hx) as Hx1.
    pose proof (Hat _ _ _ (occurs_post _ _ _ _ Ho) Ha Hx1) as Hx2. set (x2 := throttle_ctx _ _) in Hx2. exists (xw_is_throttled (cx_rw x2)). split.
    + rewrite Hx2. f_equal. unfold x2, throttle_ctx, roll_ctx. destruct x as [xo []]. cbn. repeat (destruct (_ && _) || destruct (_ <=? _)); done.
    + unfold x2. rewrite throttle_ctx_flag, roll_ctx_flag, roll_ctx_limited, !orb_true_iff, andb_true_iff, Z.leb_le.
      rewrite above_throttled_spec by (apply Z.lt_le_incl, Hlev; by apply occurs_post). unfold s1. rewrite (over_above_spec conf ls es s path t path' t') by done.
      apply or_iff_compat_r. unfold over_budget. split; [intros Hc; by exists a, x|]. intros (a' & x' & Ha' & Hx' & Hc). assert (a' = a) as -> by congruence. by assert (x' = x) as -> by congruence.
  - intros c a x2 t1 Hc Ha Hx2 Hlim Ht1. apply (Hp c t1 Hc). destruct (wf_cgx _ Hs1 _ _ Ha) as (_ & x1 & Hx1 & _). pose proof (Hat c a x1 Hc Ha Hx1) as Hx2'.
    assert (x2 = throttle_ctx (above_throttled conf s1 c) x1) as -> by congruence. exists a, x1. rewrite limited_throttle in Hlim. done.
Qed.

(** ** The bandwidth over many periods *)

(** C19: the long-run bandwidth of a limited cgroup.  Whatever its subtree uses in the
    periods ([used], also far above the budget), what it used in all of them, plus the budget and the burst that are left, is at
    most what it started with plus one [nquota_ub] for each replenishment and one [burst] for each [cpu.max] period that ended; what it used
    too much is a negative budget.  The contexts of other cgroups are untouched. *)
Theorem bandwidth_bound conf nr_queued s a x l : let start := xw_period_start_clk (cx_rw x) in
  cbw_wf s → a ≠ NULL → cb_cgx s !! a = Some x → ctx_ranges x → 0 <= start → 0 < xo_period (cx_ro x) → periods_ok start l → sum_used l <= big →
  - 2 * big + sum_used l <= xw_period_budget (cx_rw x) →
  ∃ x' ends, run_periods conf nr_queued a l s = Some (tt, with_cgx <[a := x']> s) ∧ cx_ro x' = cx_ro x ∧
    0 <= ends ∧ ends * xo_period (cx_ro x) <= last_end start l - start ∧ 0 <= xw_burst_remaining (cx_rw x') ∧
    sum_used l + xw_period_budget (cx_rw x') + xw_burst_remaining (cx_rw x') <=
      xw_period_budget (cx_rw x) + xw_burst_remaining (cx_rw x) + Z.of_nat (length l) * xo_nquota_ub (cx_ro x) + ends * xo_burst (cx_ro x).
Proof.
  intros start Hs Hn Hx Hr Hst Hper Hok Hsum Hlow. destruct (periods_bound l x start Hr) as (Ero & ends & Hen & Hle & Hrem & Htot); [unfold start in *; lia|done|done|done|done|].
  exists (periods_ctx l x), ends. split; [by apply run_periods_run|]. done.
Qed.

(** ** The replenish timer *)

(** C18: the replenish timer, with no other writer of the counter.  Every cgroup below the library's root whose subtree used [v]
    in the period starts the next with the budget [next_ctx] computes from it and a usage of 0, and is throttled
    exactly if the new budget is already used up by debt, or it has a limit and a cgroup above it is in debt.
    The usage of all its caches is 0.  The list for the bottom half holds exactly the cgroups
    that were throttled, are still, or have tasks waiting; [rp_seq] is even again, so the bottom half may run, and the timer comes back in 1 to 100 ms, so much
    earlier as it was late. *)
Theorem replenish_timer_correct conf cl nr_queued now path rid cs s : let t := CgNode rid cs in
  cbw_wf s → running s = false → fits conf (cb_levels s) → (∀ c, c ∈ descendants_post path t → cg_level c < cf_height_max conf) →
  Z.of_nat (length path) = cf_root_level conf → (length (descendants_post path t) <= cl)%nat → NoDup (path ++ ids_of path t) →
  (length (with_context s (descendants_pre path t)) <= length (cb_cgroup_ids s) `min` length (cb_throttled_ids s))%nat →
  ∃ s' period nr, replenish_timerfn conf cl (λ _ s, s) (Some (path, t)) (Some (path, t)) nr_queued now s = Some (period, s') ∧
    (∀ path' t' a x, occurs path t path' t' → (length path < length path')%nat → cb_cgrp_map s !! root_id t' = Some a → cb_cgx s !! a = Some x →
      ∃ b, cb_cgx s' !! a = Some (on_rw (set_throttled b) (next_ctx now (s64 (subtree_time conf s (length path') t')) x)) ∧
        (b = true ↔ in_debt conf now s path' t' ∨ (limited x = true ∧ debt_above conf now s path t path' t'))) ∧
    (∀ path' t', occurs path t path' t' → is_Some (cb_cgrp_map s !! root_id t') → time_cleared conf s (cb_llcx s') (root_id t')) ∧
    (∀ path' t', occurs path t path' t' → (length path < length path')%nat → root_id t' ∈ take nr (cb_throttled_ids s') ↔
      over_budget conf s path' t' ∨ in_debt conf now s path' t' ∨ (is_Some (cb_cgrp_map s !! root_id t') ∧ backlogged conf nr_queued s (root_id t') = true)) ∧
    cb_stat s' = BacklogStat (u32 (u32 (bs_rp_seq (cb_stat s) + 1) + 1)) (u16 (Z.of_nat nr)) (if decide (nr = 0%nat) then 0 else 1) ∧ running s' = false ∧
    cb_last_replenish_at s' = now ∧ CBW_REPLENISH_PERIOD_MIN <= period <= CBW_REPLENISH_PERIOD ∧
    (0 <= cb_last_replenish_at s <= now → now < two63 →
      period = Z.max (CBW_REPLENISH_PERIOD - Z.max (now - cb_last_replenish_at s - CBW_REPLENISH_PERIOD) 0) CBW_REPLENISH_PERIOD_MIN).
Proof.
  intros t Hs Hr Hf Hlev Hroot Hcl Hnd Hcap. pose proof Hnd as (_ & _ & Hnd2)%NoDup_app. set (s0 := with_stat (next_seq (cb_stat s)) s).
  assert (cbw_wf s0) as Hs0 by by destruct Hs; split. destruct (timer_walks_run conf nr_queued now cl path rid cs s0 Hs0 Hf Hlev Hroot Hcl Hnd2 Hcap) as (s4 & nr & E & [Hs4 (Em & Ell & Etk & Est & Ela) Hctx Htimes Htab Hlen]). fold t in E, Hctx, Htimes, Htab.
  set (s5 := with_stat (end_seq (Z.of_nat nr) (if decide (nr = 0%nat) then 0 else 1) (cb_stat s4)) s4). assert (cbw_wf s5) as Hs5 by by destruct Hs4; split.
  assert (running s5 = false) as Hr5. { unfold running, s5. simpl. rewrite Est. apply negb_false_iff, Z.eqb_eq, even_twice. apply Z.eqb_eq, negb_false_iff, Hr. }
  set (s6 := if decide (nr = 0%nat) then s5 else throttled conf (descendants_post path t) s5). exists (with_last_replenish now s6), (next_period now (cb_last_replenish_at s)), nr.
  assert (∀ path' t' a x, occurs path t path' t' → (length path < length path')%nat → cb_cgrp_map s !! root_id t' = Some a → cb_cgx s !! a = Some x →
    cb_cgx s5 !! a = Some (next_ctx now (s64 (subtree_time conf s (length path') t')) x)) as Hctx5 by exact Hctx.
  assert (∀ p u, occurs path t p u → (length path < length p)%nat → ctx_throttled s5 (root_id u) = true ↔ in_debt conf now s p u) as Hdebt.
  { intros p u Hu Hl. unfold ctx_throttled, in_debt. change (cb_cgrp_map s5) with (cb_cgrp_map s4). rewrite Em. change (cb_cgrp_map s0) with (cb_cgrp_map s). destruct (cb_cgrp_map s !! root_id u) as [a|] eqn:Ea; [|split; [done|by intros (a & x & ? & _)]].
    destruct (wf_cgx _ Hs _ _ Ea) as (_ & x & Hx & _). rewrite (Hctx5 p u a x Hu Hl Ea Hx). split; [intros Hq; by exists a, x|]. intros (a' & x' & Ha' & Hx' & Hq). assert (a' = a) as -> by congruence. by assert (x' = x) as -> by congruence. }
  split; [|split; [|split; [|split; [|split; [|split; [|split; [|split]]]]]]].
  - apply (timer_compose conf nr_queued now cl path t s s4 nr); [exact E|by rewrite Ela|by apply propagate_run].
  - intros path' t' a x Ho Hl Ha Hx. pose proof (Hctx5 _ _ _ _ Ho Hl Ha Hx) as Hx5. set (y := next_ctx now _ x) in *.
    assert (in_debt conf now s path' t' ↔ xw_is_throttled (cx_rw y) = true) as Hin.
    { rewrite <-(Hdebt _ _ Ho Hl). unfold ctx_throttled. change (cb_cgrp_map s5) with (cb_cgrp_map s4). rewrite Em. change (cb_cgrp_map s0) with (cb_cgrp_map s). rewrite Ha. cbv beta iota. by rewrite Hx5. }
    assert (∀ z : scx_cgroup_ctx, z = on_rw (set_throttled (xw_is_throttled (cx_rw z))) z) as Hsame by by intros [xo []].
    unfold s6. destruct (decide (nr = 0%nat)) as [E0|Hne].
    + exists (xw_is_throttled (cx_rw y)). split; [change (cb_cgx (with_last_replenish now s5)) with (cb_cgx s5); rewrite Hx5; by rewrite <-Hsame|]. rewrite <-Hin. split; [by left|]. intros [Hq|(_ & p & u & Hu & _ & Hlu & Hq)]; [done|].
      assert (root_id u ∈ take nr (cb_throttled_ids s4)) as Hbad by (apply (Htab p u Hu ltac:(lia)); right; by left). rewrite E0 in Hbad. by apply not_elem_of_nil in Hbad.
    + pose proof (propagate_ctx conf path t s5 path' t' a y Hs5 Hnd2 Ho) as Hp. change (cb_cgrp_map s5) with (cb_cgrp_map s4) in Hp. rewrite Em in Hp. specialize (Hp Ha Hx5).
      set (z := throttle_ctx _ y) in Hp. exists (xw_is_throttled (cx_rw z)). split; [change (cb_cgx (with_last_replenish now ?q)) with (cb_cgx q); rewrite Hp; unfold z, throttle_ctx; destruct (_ && _); [done|by rewrite <-Hsame]|].
      unfold z. rewrite throttle_ctx_flag, orb_true_iff, andb_true_iff, Hin. unfold y at 2. rewrite next_limited. rewrite above_throttled_spec by (apply Z.lt_le_incl, Hlev; by apply occurs_post).
      rewrite (below_throttled_tree conf s5 path t path' t' Hroot Ho). unfold debt_above. apply or_iff_compat_l. apply and_iff_compat_l. do 2 (apply exist_proper; intros ?).
      split; intros (Hu & Hu' & Hlu & Hq); (do 3 (split; [done|])); (apply (Hdebt _ _ Hu ltac:(lia)); exact Hq).
  - intros path' t' Ho Hsome. unfold s6. destruct (decide (nr = 0%nat)); exact (Htimes _ _ Ho Hsome).
  - intros path' t' Ho Hl. unfold s6. destruct (decide (nr = 0%nat)); exact (Htab _ _ Ho Hl).
  - unfold s6. destruct (decide (nr = 0%nat)) as [E0|Hne]; simpl; rewrite Est; rewrite ?E0; done.
  - unfold s6. destruct (decide (nr = 0%nat)); exact Hr5.
  - done.
  - apply next_period_range.
  - intros Hl Hn. by apply next_period_exact.
Qed.

(** ** New limits *)

(** C22: a new limit for a managed cgroup.  Before and after, the bound of every context is the least of its own quota
    and the bound of its effective parent, so that it is at most every quota above it; only the bounds of the subtree change, and only the cgroup itself
    gets new limits.  Its quota is the share of 100 ms that [cpu.max] grants, rounded up, if the product does not overflow. *)
Theorem bw_set_correct now path t period_us quota_us burst_us s a x :
  cbw_wf s → cb_cgrp_map s !! root_id t = Some a → cb_cgx s !! a = Some x → NoDup (path ++ tree_ids t) → parents_above s (tree_ids t) path t →
  (∀ id, ub_ok_at s id) → (∀ id y, id ∉ tree_ids t → ctx_at s id = Some y → xo_eff_parent_id (cx_ro y) ∉ tree_ids t) →
  ∃ s', bw_set_managed now a path t period_us quota_us burst_us s = Some (0, s') ∧ (∀ id, ub_ok_at s' id) ∧
    (∀ id y, ctx_at s id = Some y → ∃ v, ctx_at s' id = Some (on_ro (set_nquota_ub v) (if decide (id = root_id t) then new_limits now period_us quota_us burst_us y else y)) ∧
      (id ∉ tree_ids t → v = xo_nquota_ub (cx_ro y))) ∧
    (let nquota := xo_nquota (cx_ro (new_limits now period_us quota_us burst_us x)) in
     quota_us ≠ CBW_RUNTUME_INF_RAW → 0 <= quota_us → 0 < period_us → quota_us * CBW_REPLENISH_PERIOD + period_us < two64 →
     (nquota - 1) * period_us < quota_us * CBW_REPLENISH_PERIOD <= nquota * period_us).
Proof.
  intros Hs Ha Hx Hnd Hp Hub Hout. set (y := new_limits now period_us quota_us burst_us x). destruct (new_limits_parent now period_us quota_us burst_us x) as [Eid Eeff]. fold y in Eid, Eeff.
  set (s1 := with_cgx <[a := y]> s). assert (cbw_wf s1) as Hs1 by by apply (update_wf_id s a x). pose proof (λ id', ctx_at_update s (root_id t) a x y id' Hs Ha Hx) as Hat. fold s1 in Hat.
  assert (ctx_at s (root_id t) = Some x) as Hroot by (unfold ctx_at; by rewrite Ha).
  destruct (tree_pushes t path s1 Hs1 Hnd) as (s2 & E2 & Hu2 & Hok2).
  { intros p u z Ho. rewrite Hat. case_decide as Eu; [intros [= <-]; rewrite Eeff; apply (Hp p u x Ho); by rewrite Eu|by apply Hp]. }
  assert (root_id t ∈ tree_ids t) as Hin by (destruct t; left). exists s2. split; [|split; [|split]].
  - unfold bw_set_managed. by rewrite (ST_bind_run _ _ _ _ _ (set_bandwidth_run now a period_us quota_us burst_us x s Hx)).
  - intros id. destruct (decide (id ∈ tree_ids t)) as [Hi|Hi]; [by apply Hok2|]. intros z Hz. rewrite (ub_changes_other _ s1 s2) in Hz by done. rewrite Hat, decide_False in Hz by congruence.
    pose proof (Hout id z Hi Hz) as He. rewrite (Hub id z Hz). unfold ub_of. rewrite (ub_changes_other _ s1 s2 _ Hs1 Hu2 He), Hat, decide_False by congruence. done.
  - intros id z Hz. assert (ctx_at s1 id = Some (if decide (id = root_id t) then new_limits now period_us quota_us burst_us z else z)) as H1.
    { rewrite Hat. case_decide as E; [|done]. subst id. by assert (z = x) as -> by congruence. }
    destruct (decide (id ∈ tree_ids t)) as [Hi|Hi].
    + unfold ctx_at in H1 |- *. rewrite (ub_changes_map _ _ _ Hu2). destruct (cb_cgrp_map s1 !! id) as [b|]; [|done]. simpl in H1 |- *. destruct (uc_ub _ _ _ Hu2 b _ H1) as [v Hv]. exists v. by split.
    + rewrite decide_False in H1 by congruence. exists (xo_nquota_ub (cx_ro z)). rewrite decide_False by congruence. split; [|done]. by rewrite (ub_changes_other _ s1 s2 id Hs1 Hu2 Hi), ub_same.
  - intros nq Hq Hq0 Hper Hov. unfold nq, y, new_limits. rewrite (proj2 (Z.eqb_neq _ _)) by done. cbn [on_rw on_ro cx_ro set_limits xo_nquota].
    assert (0 <= quota_us * CBW_REPLENISH_PERIOD) by (change CBW_REPLENISH_PERIOD with 100000000; lia).
    rewrite (u64_small (quota_us * CBW_REPLENISH_PERIOD)) by (unfold is_u64; lia). by apply div_round_up_ceil.
Qed.

(** C23: a cgroup gets a context.  When [root_id t] is published with the nearest managed cgroup above it as its effective parent, and the managed cgroups of its
    subtree still have the nearest managed cgroup above them other than [root_id t], the walk makes every effective parent of the subtree
    the nearest managed cgroup above and every bound the least of the own quota and the parent's bound; nothing outside changes. *)
Theorem repoint_correct conf path t s : let r := root_id t in let from := nearest_of conf (managed s) path in
  cbw_wf s → NoDup (0 :: path ++ tree_ids t) → (Z.to_nat (cf_root_level conf) <= length path)%nat → managed s r = true →
  (∀ x, ctx_at s r = Some x → xo_eff_parent_id (cx_ro x) = from) →
  (∀ p u x, occurs path t p u → (length path < length p)%nat → ctx_at s (root_id u) = Some x → xo_eff_parent_id (cx_ro x) = nearest_of conf (others_managed s r) p) →
  ∃ s', cbw_repoint_subtree path t from r s = Some (0, s') ∧ cb_cgrp_map s' = cb_cgrp_map s ∧
    (∀ p u x, occurs path t p u → ctx_at s' (root_id u) = Some x → xo_eff_parent_id (cx_ro x) = nearest_of conf (managed s) p ∧ ub_ok_at s' (root_id u)) ∧
    (∀ id, id ∉ tree_ids t → ctx_at s' id = ctx_at s id).
Proof.
  intros r from Hs [H0 Hnd]%NoDup_cons Hl Hr Hroot Hbelow. assert (NoDup (cg_id <$> descendants_pre path t)) as Hndl by (rewrite tree_ids_pre; by apply NoDup_app in Hnd as (_ & _ & ?)).
  pose proof (moved_wf from r r (descendants_pre path t) s Hs Hndl) as Hs1. pose proof (ctx_at_moved from r r (descendants_pre path t) s) as Hat. set (s1 := moved_all from r r (descendants_pre path t) s) in *.
  assert (∀ p u x, occurs path t p u → ctx_at s1 (root_id u) = Some x → xo_eff_parent_id (cx_ro x) = nearest_of conf (managed s) p) as Heff.
  { intros p u x' Ho Hx'. rewrite Hat, decide_True in Hx' by (done || (rewrite tree_ids_pre; by eapply occurs_pre)). destruct (ctx_at s (root_id u)) as [x|] eqn:Ex; [|done]. injection Hx' as <-. rewrite moved_eff.
    pose proof (occurs_nodup _ _ _ _ Ho Hnd) as Hndp. destruct (decide (length path < length p)%nat) as [Hlt|Hge].
    - destruct (occurs_split _ _ _ _ Ho Hlt) as [q ->]. rewrite (Hbelow _ _ _ Ho Hlt Ex). assert (root_id u ≠ r) as Hur.
      { intros E. apply NoDup_app in Hndp as (_ & Hdis & _). apply (Hdis r); [apply elem_of_app; right; left|]. rewrite <-E. destruct u; left. }
      rewrite (proj2 (Z.eqb_neq _ _)) by done. cbn [negb andb]. symmetry. apply nearest_takeover; [done|by apply NoDup_app in Hndp as [? _]| |done].
      intros Hq. apply H0. apply elem_of_app. destruct (occurs_path_ids path t _ u 0 Ho) as [?|?]; [apply elem_of_app; right; by right|by left|by right].
    - destruct (occurs_same _ _ _ _ Ho) as [-> ->]; [destruct (occurs_path _ _ _ _ Ho) as [q Eq]; rewrite Eq, length_app in *; lia|]. fold r. rewrite Z.eqb_refl. cbn [negb andb]. by apply Hroot. }
  destruct (tree_pushes t path s1 Hs1 Hnd) as (s2 & E2 & Hu2 & Hok2).
  { intros p u x Ho Hx. rewrite (Heff p u x Ho Hx). destruct (nearest_in conf (managed s) p) as [->|Hin]; [left|by right]. intros Hi. apply H0, elem_of_app. by right. }
  exists s2. split; [|split; [|split]].
  - unfold cbw_repoint_subtree. destruct t as [i cs]. by rewrite repoint_loop_run.
  - exact (ub_changes_map _ _ _ Hu2).
  - intros p u x' Ho Hx'. destruct (ub_changes_ctx _ _ _ _ _ Hu2 Hs1 Hx') as (x & v & Hx & ->). split; [exact (Heff p u x Ho Hx)|]. apply Hok2. by eapply occurs_pre.
  - intros id Hid. rewrite (ub_changes_other _ s1 s2 id Hs1 Hu2 Hid). rewrite Hat, decide_False by (done || by rewrite tree_ids_pre). by destruct (ctx_at s id).
Qed.

(** ** Billing *)

(** C20: billing.  The time a task reports is added, with what it carried, to exactly one usage: that of the cache it ran on, in the context of
    the nearest cgroup with a context, from its own cgroup [own] upwards, provided that has a limit.  The caller names the task, or it does not ([p = None]) and the task has kept its target: both
    give the same cgroup, and what was kept before the set of managed cgroups last changed is forgotten.  When the target is not known the time is carried in the task.  Nothing else changes,
    and what the task keeps afterwards is again what a search finds.  The call fails with [-EINVAL] exactly for a limited cgroup on a CPU without a cache. *)
Theorem consume_correct conf s taskc own t p consumed cur :
  cbw_wf s → 0 <= cf_root_level conf → cf_root_cgid conf ≠ 0 → taskc ≠ NULL → cb_tasks s !! taskc = Some t → task_ok conf s own t →
  (∀ c, own = Some c → cgroup_ok conf c) → (p = None ∨ p = Some own) →
  let bill := if target_known s t p then home conf s own else 0 in
  ∃ t', scx_cgroup_bw_consume conf p taskc consumed cur s =
      Some (bill_code conf s bill cur, with_llcx (charge (charged conf s bill cur) (u64 (consumed + tb_pending_ns t))) (upd_task taskc t' s)) ∧
    task_ok conf s own t' ∧ tb_bill_cgrp_id t' = bill ∧ tb_pending_ns t' = (if target_known s t p then 0 else u64 (tb_pending_ns t + consumed)).
Proof.
  intros Hs Hrl Hr Hn Ht Hok Hown Hp bill. destruct (consume_run conf s taskc own t p consumed cur Hs Hrl Hr Hn Ht Hok Hown Hp) as (t' & E & Hok' & Eb & Ep).
  exists t'. split; [exact E|]. split; [done|]. split; [done|]. rewrite Ep. subst bill. pose proof (home_pos conf s own Hown Hr). destruct (target_known s t p); [|done].
  by rewrite (proj2 (Z.eqb_neq _ 0)).
Qed.


(** ** A hierarchy of two limited cgroups *)

(** Cgroup 3 below cgroup 2 below the root, one cache, one task of cgroup 3; the limits are per 100 ms. *)
Definition ex_conf : cbw_conf := CbwConf 1 0 4 1.
Definition ex_tree : cgtree := CgNode 1 [CgNode 2 [CgNode 3 []]].
Definition ex_ctx (id eff level nquota ub budget : Z) : scx_cgroup_ctx :=
  Cgx (CgxRo 0 id eff level nquota 100000000 0 nquota ub) (CgxRw false 0 false 0 0 0 0 budget 0 0 0).
Definition ex_parent : scx_cgroup_ctx := ex_ctx 2 0 1 50000000 50000000 50000000.
Definition ex_child : scx_cgroup_ctx := ex_ctx 3 2 2 80000000 50000000 70000000.
Definition ex_task : scx_task_cgroup_bw := TaskBw 3 0 0 0 1000 0.
Definition ex_state (used : Z) : cbw :=
  Cbw {[2 := 100; 3 := 101]} {[(2, 0) := 200; (3, 0) := 201]} {[100 := ex_parent; 101 := ex_child]} {[200 := Llcx 0 2 0 300; 201 := Llcx 0 3 used 301]}
    {[400 := ex_task]} (replicate 4 0) (BacklogStat 0 0 0) (replicate 8 0) 0 (replicate 8 0) 0 0.

Lemma two_keys {K X} `{Countable K} (i j k : K) (x y z : X) : ({[i := x; j := y]} : gmap K X) !! k = Some z → (k = i ∧ z = x) ∨ (k = j ∧ z = y).
Proof. intros [[-> ->]|[_ [-> ->]%lookup_singleton_Some]]%lookup_insert_Some; auto. Qed.
Lemma ex_wf used : cbw_wf (ex_state used).
Proof.
  split.
  - intros id a [[-> ->]|[-> ->]]%two_keys; (split; [done|]); eexists; by split; [reflexivity|].
  - intros k a [[-> ->]|[-> ->]]%two_keys; (split; [done|]); by eexists.
  - intros k k' a [[-> ->]|[-> ->]]%two_keys [[-> E]|[-> E]]%two_keys; done.
Qed.
Lemma ex_levels c : c ∈ descendants_post [] ex_tree → cg_level c < 4.
Proof. intros Hc. cbn in Hc. repeat (apply elem_of_cons in Hc as [->|Hc]; [done|]). by apply not_elem_of_nil in Hc. Qed.
Lemma ex_child_occurs : occurs [] ex_tree [1; 2] (CgNode 3 []).
Proof. apply (occurs_below [] 1 _ (CgNode 2 [CgNode 3 []])); [left|]. apply (occurs_below [1] 2 _ (CgNode 3 [])); [left|]. constructor. Qed.

(** 60 ms used: the parent's budget is used up, the child's is not, and the child is throttled. *)
Lemma accounting_timer_correct_witness : ∃ s' interval, accounting_timerfn ex_conf 3 (Some ([], ex_tree)) (ex_state 60000000) = Some (interval, s') ∧
  ctx_throttled s' 2 = true ∧ ctx_throttled s' 3 = true ∧ interval = CBW_ACCOUNTING_PERIOD_MAX.
Proof.
  destruct (accounting_timer_correct ex_conf 3 [] 1 [CgNode 2 [CgNode 3 []]] (ex_state 60000000) (ex_wf _) eq_refl ltac:(done) ex_levels eq_refl ltac:(vm_compute; lia) ltac:(decide_now)) as (s' & interval & E & _).
  exists s', interval. split; [exact E|]. vm_compute in E. injection E as <- <-. by vm_compute.
Defined.

(** Two periods with 70 ms and 20 ms under a limit of 50 ms. *)
Lemma bandwidth_bound_witness : ∃ x' ends, run_periods ex_conf (λ _, 0) 101 [(100000000, 90000000); (200000000, 20000000)] (ex_state 0) = Some (tt, with_cgx <[101 := x']> (ex_state 0)) ∧
  0 <= ends ∧ 110000000 + xw_period_budget (cx_rw x') <= 70000000 + 2 * 50000000.
Proof.
  destruct (bandwidth_bound ex_conf (λ _, 0) (ex_state 0) 101 ex_child [(100000000, 90000000); (200000000, 20000000)] (ex_wf _) ltac:(done) eq_refl) as (x' & ends & E & Hro & H0 & He & Hb & Ht);
    [split; unfold big, two63; cbn; lia|done|done|by repeat split|vm_compute; congruence|vm_compute; congruence|].
  exists x', ends. split; [exact E|]. split; [exact H0|]. change (xo_burst _) with 0 in Ht. change (xo_nquota_ub _) with 50000000 in Ht.
  change (sum_used _) with 110000000 in Ht. change (xw_burst_remaining (cx_rw ex_child)) with 0 in Ht. change (xw_period_budget (cx_rw ex_child)) with 70000000 in Ht. cbn [length] in Ht. lia.
Defined.

(** 130 ms used: the debts of 80 and 60 ms are beyond both quotas. *)
Lemma replenish_timer_correct_witness : ∃ s' period nr, replenish_timerfn ex_conf 3 (λ _ s, s) (Some ([], ex_tree)) (Some ([], ex_tree)) (λ _, 0) 100000000 (ex_state 130000000) = Some (period, s') ∧
  take nr (cb_throttled_ids s') = [2; 3] ∧ ctx_throttled s' 2 = true ∧ running s' = false ∧ period = CBW_REPLENISH_PERIOD.
Proof.
  destruct (replenish_timer_correct ex_conf 3 (λ _, 0) 100000000 [] 1 [CgNode 2 [CgNode 3 []]] (ex_state 130000000) (ex_wf _) eq_refl ltac:(done) ex_levels eq_refl ltac:(vm_compute; lia) ltac:(decide_now) ltac:(vm_compute; lia)) as (s' & period & nr & E & _).
  exists s', period, 2%nat. split; [exact E|]. vm_compute in E. injection E as <- <-. by vm_compute.
Defined.

Lemma ex_ctx_at used id x : ctx_at (ex_state used) id = Some x → (id = 2 ∧ x = ex_parent) ∨ (id = 3 ∧ x = ex_child).
Proof.
  unfold ctx_at. simpl. destruct (_ !! id) as [a|] eqn:Ea; [|done]. apply two_keys in Ea as [[-> ->]|[-> ->]]; simpl; intros [= <-]; [by left|by right].
Qed.
(** The parent's limit is lowered to 30 ms: the child's bound follows. *)
Lemma bw_set_correct_witness : ∃ s', bw_set_managed 7 100 [1] (CgNode 2 [CgNode 3 []]) 100000 30000 0 (ex_state 0) = Some (0, s') ∧ (xo_nquota_ub ∘ cx_ro) <$> ctx_at s' 3 = Some 30000000.
Proof.
  destruct (bw_set_correct 7 [1] (CgNode 2 [CgNode 3 []]) 100000 30000 0 (ex_state 0) 100 ex_parent (ex_wf _) eq_refl eq_refl ltac:(decide_now)) as (s' & E & _).
  - intros p u x Ho [[Eu ->]|[Eu ->]]%ex_ctx_at; [left; by decide_now|]. right. inversion Ho as [|? ? ? c ? ? Hc Ho' ]; subst; [done|]. apply list_elem_of_singleton in Hc as ->.
    inversion Ho' as [|? ? ? d ? ? Hd ?]; subst; [right; left|]. by apply not_elem_of_nil in Hd.
  - intros id x [[-> ->]|[-> ->]]%ex_ctx_at; reflexivity.
  - intros id y Hid [[-> ->]|[-> ->]]%ex_ctx_at; [by decide_now|]. destruct Hid. right; left.
  - exists s'. split; [exact E|]. vm_compute in E. injection E as <-. reflexivity.
Defined.

(** 1 ms carried and 4 ms used by the task of the child. *)
Definition ex_own : option cgroup := Some (Cgroup 3 [1; 2; 3]).
Lemma ex_own_ok c : ex_own = Some c → cgroup_ok ex_conf c.
Proof. intros [= <-]. split; [exists [1; 2]; split; [done|vm_compute; lia]|by decide_now]. Qed.
Lemma ex_task_ok : task_ok ex_conf (ex_state 0) ex_own ex_task.
Proof. by split. Qed.
Lemma consume_correct_witness : ∃ s', scx_cgroup_bw_consume ex_conf None 400 4000000 0 (ex_state 0) = Some (0, s') ∧ lx_runtime_total <$> cb_llcx s' !! 201 = Some 4001000 ∧ tb_cgx_raw <$> cb_tasks s' !! 400 = Some 101.
Proof.
  destruct (consume_correct ex_conf (ex_state 0) 400 ex_own ex_task None 4000000 0 (ex_wf _) ltac:(done) ltac:(done) ltac:(done) eq_refl ex_task_ok ex_own_ok ltac:(by left)) as (t' & E & _).
  eexists. split; [exact E|]. vm_compute in E. injection E as <-. by split.
Defined.

(** [cpu.max] of the parent is set to [limit] us; after a replenishment the child's task runs for [used] ns and the accounting timer runs.  The
    results are those of the first and the last call. *)
Definition limit_scenario (limit used : Z) : BW (Z * Z) :=
  let child := Some (Some (Cgroup 3 [1; 2; 3])) in
  r ← bw_set_managed 0 100 [1] (CgNode 2 [CgNode 3 []]) 100000 limit 0;
  replenish_timerfn ex_conf 3 (λ _ s, s) (Some ([], ex_tree)) (Some ([], ex_tree)) (λ _, 0) 100000000;;
  scx_cgroup_bw_consume ex_conf child 400 used 0;;
  accounting_timerfn ex_conf 3 (Some ([], ex_tree));;
  t ← scx_cgroup_bw_throttled ex_conf child false 400;
  mret (r, t).

(** An unlimited cgroup throttles.  The parent of 50 ms becomes unlimited ([max]) and the child keeps its limit of 80 ms.  In the next period
    the child uses 60 ms: it is within its own budget, and nothing above it has a finite bound.  Yet the parent still has
    the budget of its old limit, which no replenishment replaces, the roll-up finds it used up and marks the parent, and the child's
    task is told to wait.  With a parent of 200 ms instead, the same task goes on. *)
Example unlimited_parent_throttles :
  (∃ s', limit_scenario CBW_RUNTUME_INF_RAW 60000000 (ex_state 0) = Some ((0, - EAGAIN), s') ∧
     (xo_nquota_ub ∘ cx_ro) <$> ctx_at s' 2 = Some CBW_RUNTUME_INF ∧ (xw_period_budget ∘ cx_rw) <$> ctx_at s' 2 = Some 50000000 ∧
     (xo_nquota_ub ∘ cx_ro) <$> ctx_at s' 3 = Some 80000000 ∧ (xw_period_budget ∘ cx_rw) <$> ctx_at s' 3 = Some 80000000 ∧
     (xw_runtime_total_sloppy ∘ cx_rw) <$> ctx_at s' 3 = Some 60001000) ∧
  result (limit_scenario 200000 60000000 (ex_state 0)) = Some (0, 0).
Proof. split; [eexists; split; [vm_compute; reflexivity|by vm_compute]|by vm_compute]. Qed.

(** The parent has just got its context; the child still has none above it. *)
Definition ex_repoint : cbw := with_cgx <[101 := ex_ctx 3 0 2 80000000 80000000 70000000]> (ex_state 0).
Lemma repoint_correct_witness : ∃ s', cbw_repoint_subtree [1] (CgNode 2 [CgNode 3 []]) 0 2 ex_repoint = Some (0, s') ∧
  (xo_eff_parent_id ∘ cx_ro) <$> ctx_at s' 3 = Some 2 ∧ (xo_nquota_ub ∘ cx_ro) <$> ctx_at s' 3 = Some 50000000.
Proof.
  assert (cbw_wf ex_repoint) as Hw by (by apply (update_wf_id (ex_state 0) 101 ex_child (ex_ctx 3 0 2 80000000 80000000 70000000) (ex_wf _))).
  destruct (repoint_correct ex_conf [1] (CgNode 2 [CgNode 3 []]) ex_repoint Hw ltac:(decide_now) ltac:(vm_compute; lia) eq_refl) as (s' & E & _).
  - intros x Hx. vm_compute in Hx. by injection Hx as <-.
  - intros p u x Ho Hl Hx. inversion Ho as [|? ? ? c ? ? Hc Ho']; subst; [simpl in Hl; lia|]. apply list_elem_of_singleton in Hc as ->.
    inversion Ho' as [|? ? ? d ? ? Hd ?]; subst; [vm_compute in Hx; by injection Hx as <-|]. by apply not_elem_of_nil in Hd.
  - exists s'. split; [exact E|]. vm_compute in E. injection E as <-. by split.
Defined.
